(* ===== verification/_CoqProject ===== *)
-Q . S2P
Prelude.v
Isa.v
Streamer.v
Linker.v
L1.v
L2.v
Vm.v
Driver.v
Heap.v
Links.v
Gc.v
Stream.v
SymTable.v
Package.v
PkgLinker.v
Mem.v
Lex.v
Preproc.v
Pandora.v
Crc.v
Decimal.v
Bytes.v
Codec.v
Text.v
Args.v
ArgsList.v
ArraySpec.v
Each.v
Json.v
JsonSpec.v
Machine.v
MachineSafe.v
MachineOps.v
MachineExpr.v
Framework.v
MachineCtl.v
Des.v
Aes.v
Crypt.v
Mac.v
Digest.v
Sha256.v
Md5.v
Labels.v
Sem.v
Backpatch.v
Scope.v
Actions.v
Compile.v
