(* ===== verification/Prelude.v ===== *)
(** * OrbWeaver: a verification library of the compiler back end and the machine

    OrbWeaver compiles a C-like script language to byte code for a stack
    machine. This library models the parts of StackLib that are written by hand
    (under src/StackLib) and proves what makes them correct. This file is the
    root: it holds what all others share (results of C code, machine integers,
    byte buffers, loops with fuel, tactics).

    ** The program

    The generated scanner calls the helpers of Stack/lex_proto.c (escapes, the
    preprocessor); the generated parser calls semantic actions, which keep
    names in the symbol table (Stack/sym_table.c) and emit byte code and
    constants through the IL streamer (Stack/il_streamer.c). The driver
    [is_link_optimize] runs the two optimisers (Stack/il1_optimizer.c,
    Stack/il2_optimizer.c) over the code buffer and links code and constants
    into one image. The package encoder (Stack/pkg_encoder.c,
    pkg_encoder_apis.c) writes classes and methods in front of it as
    tag-length-value records, which Stack/pkg_linker.c reads back. The machine
    (StackVM/vm_stack.c) runs the image; it allocates objects from a first-fit
    heap (StackVM/midgard.c, midgard_apis.c), writes output to paged streams
    (StackVM/vm_stream.c), and offers library functions, among them the check
    sums, the key derivation, the ciphers, the message authentication codes and
    the digests of crypto/src.

    ** Files

    - Prelude: this file. Isa: opcodes, instructions, their encoding.
    - Streamer: the record [istream] is the globals of il_streamer.c (code
      buffer, pool, labels); [is_gencode], [is_push_constant], the label list.
    - Linker: [is_link_code], jump tables, and the two things the machine does
      with a linked operand ([vm_load_constant], jumps).
    - L1, L2: the two optimisers, a definition for each pass, its record lists
      and helpers. Driver: [is_link_optimize].
    - Vm: registers, stacks and counters of the machine, and the instructions
      for variables, duplication, jumps, calls and returns.
    - Heap: midgard. Gc: the garbage collector of vm_stack.c, which walks the
      blocks of Heap. Stream: vm_stream.
    - Links: structures chained by a next field, shared by Stream, SymTable,
      Package, PkgLinker and Preproc through the class [Node].
    - SymTable: symbols, scopes, pending jumps.
    - Package, PkgLinker: package objects, encoder and decoder.
    - Mem: byte memory with addresses, for code that works through [char *].
    - Lex, Preproc: lex_proto.c.
    - Crc, Pandora: cr_crc.c and cr_core.c; cr_pandora.c.
    - Decimal, Text: numbers in text; strings as operands of the machine.
    - Machine: the whole loop [vm_decode] on objects that are texts; the record
      [machine] is [vm_instance] with the objects. MachineSafe: its invariant.
      MachineOps: its operations, forward; MachineExpr, MachineCtl: programs.
    - Labels: the symbol table as a map from names to addresses and queues.
    - Sem, Backpatch: labels and jumps of sem_proto.c; the record [sem] is the
      globals of sem_proto.c, il_streamer.c and sym_table.c together, [sm] the
      monad of its actions. Scope: the scopes of instruction nodes.
    - Actions: constants, loads and cases of sem_proto.c. Compile: programs of one
      expression, from the parser's actions to the result on the machine.
    - Des, Aes, Crypt, Mac: cr_des.c, cr_aes.c, cr_crypt.c, cr_mac.c. Digest: the
      block buffer of Sha256 (cr_sha256.c) and Md5 (cr_md5.c).
    - Bytes: lists of bytes with bounds. Codec, Args, Framework: the converters,
      the array functions and the table of vm_framework.c; ArgsList: arrays as
      lists; ArraySpec: what the array functions promise. Each: enumerators
      and splitting; Json: to_json and from_json; JsonSpec: where they are
      inverse.
    A definition has the name of the C function it translates. A function that
    loops is a step function under [loop], which ends with [Timeout] when its
    fuel is exhausted; a [_step] definition is the body of the loop.

    ** Groups of theorems

    - The compiler: emitted code decodes back ([emit_roundtrip]); the linker
      meets its specification ([link_refines]), ends on every input
      ([link_total]) and its operands reach what they should
      ([link_jump_resolves], [constant_roundtrip]); the optimisers compute a
      reference transformation ([l1_optimize_peep], [l2_optimize_function])
      that keeps what the machine does ([l1_preserves_runs]), and the driver
      composes them ([link_optimize_l1]).
    - Machine and storage: calls and returns, reference counts; allocator
      invariants; the collector frees dead objects and keeps live ones
      ([garbage_collect_spec]); stream round trip and release.
    - Symbols: lookup, scopes, clearing of locals, the queues of jumps.
    - Packages: the writer is the reference encoding, the reader reads a class
      back.
    - Scanner: the constants are a finite map, escapes round-trip, what [#if]
      computes. Check sums: CRC-32 is the bit-serial reference. Keys: the boxes
      stay a permutation, the seed is found.
    - The whole way: a constant expression, from the actions of the parser over
      the scopes, the emitted code, the pool and the linked image to the run of
      the machine, gives its value ([source_to_result]).
    - The loop of the machine: the collector frees no object that the stack
      holds ([machine_memory_safe], by induction on the turns); the code of an
      expression leaves its value ([expr_evaluates], [program_returns]); a
      pending exception ends at its handler ([exception_handled]); a switch takes
      the first equal case ([switch_jumps]).
    - Strings: arithmetic and comparison of numbers in text agree with those of
      the numbers ([text_arith], [text_compare]); joining and splitting.
    - The parser's actions: back-patching in one pass gives the code of a
      two-pass assembler ([assemble_two_pass]); labels made up are new
      ([create_label_fresh]); the scopes of an expression, chains of nodes, are
      a machine on lists ([scopes_refine]).
    - Cryptography: decryption inverts encryption for every key and block
      ([des_roundtrip], [aes_roundtrip]) and for messages in memory
      ([crypt_roundtrip]), whose treatment is the textbook mode
      ([crypt_is_textbook]); the MAC is the standard's but for
      padding method 2 on whole blocks ([mac_is_iso]); digests
      are those of the padded blocks of the message.
    - Library functions: arrays are lists ([array_refines_list]), reads are
      lookups and slices ([get_is_lookup], [at_is_slice]), all objects are well
      formed ([array_types_preserved]); from_json and to_json are inverse on a
      class of values, outside of which they fail ([json_roundtrip]); a loop
      sees the elements up to the first empty text ([each_enumerates]), also
      those of a split text ([split_enumerates]); Base 64 is the standard's on
      the way out and on the way back but for the padding ([b64_roundtrip]); the
      machine runs calls of the converters ([converters_run]).
    Theorems that state a property of a defect (a loop that never ends, a read
    behind the end) are there because the code behaves so.

    ** Platform, fuel and bounds

    The code is modelled for LP64, little endian, gcc: [uint8], [uint16] and
    [uint32] have 8, 16 and 64 bits ([uint32] is an [unsigned long]); [u8],
    [u16] and [u64] wrap. Buffers are functions from addresses to bytes with
    the bound MAX_BUFFER_SIZE (Prelude) or finite maps (Mem); an access outside
    is [Undef], as is a NULL dereference or an overflow of a signed number.
    The width of the words of SHA-256 and MD5 is a parameter: the code declares
    them [unsigned long], the standards want 32 bits.
    Fuel is a bound on the turns of a loop. No theorem that claims a result
    takes for granted that the loop ends: it asks for an amount of fuel that is
    stated in its hypotheses (mostly the length of the data plus one), which is
    enough because each turn takes one element or instruction; [loop] gives the
    same result with any more fuel.

    ** Not modelled

    The instructions of the machine whose objects hold pointers (functions as
    objects, calls into other packages, classes); in Machine the room of the heap
    and the dead objects a collection leaves are parameters, which Heap and Gc
    have in detail. The scanner and parser that flex and bison generate; the semantic actions
    of sem_proto.c for functions, calls, left-hand sides and lambdas; listings
    (asm_streamer.c, is_debug); system calls with effects outside the program
    (files, sockets, threads, foreign functions) and the inline assembly behind
    them; SHA-1, which reads bytes into an array of words; vendored
    libraries (WolfSSL, Jansson, http_parser, minIni and others), hosts and
    bindings. Of vm_framework.c: searching in strings, variables, what hosts
    call, the functions around the ciphers, interfaces; the change of a
    pair by its key is translated but has no theorem. [malloc] always succeeds;
    what fresh memory holds, the bytes behind an object, the text of an
    extension and the bytes of a number are parameters. *)
From stdpp Require Export base numbers list gmap strings.
From Stdlib Require Export Sorting.Sorted ZArith Lia.

Declare Scope orb_scope.
Delimit Scope orb_scope with orb.
#[global] Open Scope Z_scope.

(** ** Results of C code

    [Ret a]   the code returns normally with [a];
    [Undef]   the code reaches undefined behaviour (a NULL dereference, an
              access outside an array);
    [Timeout] the fuel of a loop is exhausted: the loop has not ended yet. *)
Inductive res (A : Type) : Type :=
  | Ret (a : A)
  | Undef
  | Timeout.
Arguments Ret {A} a.
Arguments Undef {A}.
Arguments Timeout {A}.

#[export] Instance res_ret : MRet res := λ A a, Ret a.
#[export] Instance res_bind : MBind res := λ A B f m,
  match m with
  | Ret a => f a
  | Undef => Undef
  | Timeout => Timeout
  end.
#[export] Instance res_fmap : FMap res := λ A B f m,
  match m with
  | Ret a => Ret (f a)
  | Undef => Undef
  | Timeout => Timeout
  end.

(** [m] ends: it is not out of fuel. *)
Definition ends {A} (m : res A) : Prop := m ≠ Timeout.

Definition from_option_ub {A} (o : option A) : res A :=
  match o with Some a => Ret a | None => Undef end.

(** [guardb b] continues when [b] holds and is undefined behaviour otherwise. *)
Definition guardb (b : bool) : res unit := if b then Ret tt else Undef.

(** ** Loops

    A C loop is a body that returns the next loop state ([inl]) or the value
    the loop leaves with ([inr]). *)
Fixpoint loop {St A : Type} (fuel : nat) (body : St → res (St + A)) (s : St) : res A :=
  match fuel with
  | O => Timeout
  | S fuel' =>
      x ← body s;
      match x with
      | inl s' => loop fuel' body s'
      | inr a => Ret a
      end
  end.

(** ** Machine integers

    The model is the LP64 build (Linux, GCC): [uint8] and [uchar] have 8 bits,
    [uint16] 16 and [uint32], a typedef of [unsigned long], 64. *)
Definition u8 (z : Z) : Z := z mod 2 ^ 8.
Definition u16 (z : Z) : Z := z mod 2 ^ 16.
Definition u64 (z : Z) : Z := z mod 2 ^ 64.

(** [end_swap16] of defs.h, on a little-endian machine. *)
Definition end_swap16 (x : Z) : Z :=
  Z.lor (Z.shiftr (Z.land x 0xff00) 8) (Z.shiftl (Z.land x 0x00ff) 8).

(** ** Byte buffers

    A static array [uchar b[65536]]: a finite map where an address never
    written holds 0, as C initialises static storage. *)
Definition MAX_BUFFER_SIZE : Z := 65536.
Abbreviation buf := (gmap Z Z).

Definition bget (b : buf) (i : Z) : Z := default 0 (b !! i).

Definition in_buf (i : Z) : bool := (0 <=? i) && (i <? MAX_BUFFER_SIZE).

Definition rd8 (b : buf) (i : Z) : res Z :=
  if in_buf i then Ret (bget b i) else Undef.

Definition wr8 (b : buf) (i v : Z) : res buf :=
  if in_buf i then Ret (<[i := u8 v]> b) else Undef.

(** [*((uint16 * )(b + i))] read and written on a little-endian machine. *)
Definition rd16 (b : buf) (i : Z) : res Z :=
  lo ← rd8 b i; hi ← rd8 b (i + 1); Ret (lo + 256 * hi).

Definition wr16 (b : buf) (i v : Z) : res buf :=
  b1 ← wr8 b i (u16 v); wr8 b1 (i + 1) (u16 v / 256).

(** The code's operands are big-endian:
    [end_swap16( *((uint16 * )(b + i)))] and
    [*((uint16 * )(b + i)) = end_swap16(v)]. *)
Definition ld16 (b : buf) (i : Z) : res Z := x ← rd16 b i; Ret (end_swap16 x).

Definition st16 (b : buf) (i v : Z) : res buf := wr16 b i (end_swap16 v).

(** [n] bytes of [b] from address [i], and the bytes [l] stored from [i]. *)
Definition bslice (b : buf) (i : Z) (n : nat) : list Z :=
  (λ k, bget b (i + Z.of_nat k)) <$> seq 0 n.

Fixpoint bstore (b : buf) (i : Z) (l : list Z) : buf :=
  match l with
  | [] => b
  | x :: l' => bstore (<[i := u8 x]> b) (i + 1) l'
  end.

(** [memcpy(dst + d, src + s, n)] between two buffers, or inside one when
    [dst] and [src] are the same: the bytes are read before they are written,
    which for the overlapping calls of the code (all move bytes down) is also
    what a byte-by-byte forward copy does. [n] is a [size_t]: a negative
    difference is a huge count and leaves the buffer. *)
Definition memcpy_buf (dst src : buf) (d s n : Z) : res buf :=
  if n =? 0 then Ret dst
  else
    guardb ((0 <? n) && in_buf d && in_buf (d + n - 1)
            && in_buf s && in_buf (s + n - 1)) ≫= λ _,
    Ret (bstore dst d (bslice src s (Z.to_nat n))).

(** The characters of a C string, up to its NUL byte; [None] when the bytes
    given hold no NUL (reading on is undefined). *)
Fixpoint c_string (buffer : list Z) : option (list Z) :=
  match buffer with
  | [] => None
  | b :: l => if b =? 0 then Some [] else option_map (cons b) (c_string l)
  end.

Lemma c_string_nonzero l : Forall (λ c, c ≠ 0) l → c_string (l ++ [0]) = Some l.
Proof.
  induction 1 as [|c l Hc _ IH]; cbn; [done|]. rewrite (proj2 (Z.eqb_neq _ _)) by done. by rewrite IH.
Qed.

(** [region b i l]: the bytes [l] lie in [b] from address [i]. *)
Definition region (b : buf) (i : Z) (l : list Z) : Prop :=
  ∀ k x, l !! k = Some x → bget b (i + Z.of_nat k) = x.

(** Two buffers with the same contents (a byte never written and a written 0
    are the same to the program). *)
Definition beq (b1 b2 : buf) : Prop := ∀ i, bget b1 i = bget b2 i.

Definition is_byte (x : Z) : Prop := 0 ≤ x < 256.
Definition is_u16 (x : Z) : Prop := 0 ≤ x < 65536.

(** ** Automation *)

Create HintDb orb discriminated.
Create Rewrite HintDb orb.
#[export] Hint Unfold is_byte is_u16 : orb.

(** [res_inv H] opens a successful bind in [H]. *)
Ltac res_inv H :=
  let E := fresh "E" in
  match type of H with
  | mbind _ ?m = Ret _ => destruct m eqn:E; cbn [mbind res_bind] in H; try discriminate H
  | (match ?m with _ => _ end) = Ret _ =>
      destruct m eqn:E; cbn [mbind res_bind] in H; try discriminate H
  end.

Ltac res_simpl := cbn [mbind mret fmap res_bind res_ret res_fmap guardb from_option_ub] in *.

(** case split on every boolean comparison of the goal *)
Ltac bcase :=
  repeat match goal with
  | |- context [Z.eqb ?a ?b] => destruct (Z.eqb_spec a b)
  | |- context [Z.ltb ?a ?b] => destruct (Z.ltb_spec a b)
  | |- context [Z.leb ?a ?b] => destruct (Z.leb_spec a b)
  end.

(** ** Loops: unfolding, more fuel, stuck bodies, ranking *)
Section loop.
Context {St A : Type} (body : St → res (St + A)).

Lemma loop_inl fuel s s' :
  body s = Ret (inl s') → loop (S fuel) body s = loop fuel body s'.
Proof. intros H. cbn. by rewrite H. Qed.

Lemma loop_inr fuel s a : body s = Ret (inr a) → loop (S fuel) body s = Ret a.
Proof. intros H. cbn. by rewrite H. Qed.

Lemma loop_undef fuel s : body s = Undef → loop (S fuel) body s = Undef.
Proof. intros H. cbn. by rewrite H. Qed.

Lemma loop_timeout fuel s : body s = Timeout → loop (S fuel) body s = Timeout.
Proof. intros H. cbn. by rewrite H. Qed.

Lemma loop_stuck fuel s : body s = Ret (inl s) → loop fuel body s = Timeout.
Proof. intros H. induction fuel as [|fuel IH]; [done|]. by rewrite (loop_inl _ _ s). Qed.

Lemma loop_more fuel fuel' s :
  ends (loop fuel body s) → (fuel ≤ fuel')%nat → loop fuel' body s = loop fuel body s.
Proof.
  revert fuel' s. induction fuel as [|fuel IH]; intros fuel' s He Hle.
  { by destruct He. }
  destruct fuel' as [|fuel']; [lia|]. cbn in *.
  destruct (body s) as [[s'|a]| |]; cbn in *; try done.
  apply IH; [done|lia].
Qed.

(** A loop whose body keeps an invariant, ends, and lowers a measure ends. *)
Lemma loop_ends (P : St → Prop) (mu : St → nat) :
  (∀ s, P s → ends (body s) ∧
     ∀ s', body s = Ret (inl s') → P s' ∧ (mu s' < mu s)%nat) →
  ∀ fuel s, P s → (mu s < fuel)%nat → ends (loop fuel body s).
Proof.
  intros Hb fuel. induction fuel as [|fuel IH]; intros s HP Hmu; [lia|].
  destruct (Hb s HP) as [He Hs]. cbn. unfold ends in *.
  destruct (body s) as [[s'|a]| |]; cbn in *; try done.
  destruct (Hs s' eq_refl). apply IH; [done|lia].
Qed.

(** What holds of every loop state holds where the loop leaves. *)
Lemma loop_inv (P : St → Prop) :
  (∀ s s', P s → body s = Ret (inl s') → P s') →
  ∀ fuel s a, P s → loop fuel body s = Ret a →
  ∃ s', P s' ∧ body s' = Ret (inr a).
Proof.
  intros Hb fuel. induction fuel as [|fuel IH]; intros s a HP H; [done|].
  cbn in H. destruct (body s) as [[s'|a']| |] eqn:E; cbn in H; try done.
  - eauto.
  - simplify_eq. eauto.
Qed.

(** [n] iterations of the body that stay in the loop. *)
Inductive iters : nat → St → St → Prop :=
  | iters_O s : iters 0 s s
  | iters_S n s s' s'' : body s = Ret (inl s') → iters n s' s'' → iters (S n) s s''.

Lemma iters_trans n m s s' s'' : iters n s s' → iters m s' s'' → iters (n + m) s s''.
Proof. induction 1; cbn; eauto using iters. Qed.

Lemma iters_one s s' : body s = Ret (inl s') → iters 1 s s'.
Proof. eauto using iters. Qed.

Lemma loop_iters n fuel s s' :
  iters n s s' → loop (n + fuel) body s = loop fuel body s'.
Proof. induction 1; [done|]. cbn. by rewrite H. Qed.

Lemma loop_exit n fuel s s' a :
  iters n s s' → body s' = Ret (inr a) → (n < fuel)%nat → loop fuel body s = Ret a.
Proof.
  intros Hi He Hf. replace fuel with (n + S (fuel - n - 1))%nat by lia.
  rewrite (loop_iters _ _ _ _ Hi). by apply loop_inr.
Qed.

(** a loop whose exit is known has either left there or is still running *)
Lemma loop_cases n s s' a fuel :
  iters n s s' → body s' = Ret (inr a) → loop fuel body s = Timeout ∨ loop fuel body s = Ret a.
Proof.
  intros Hi. revert fuel. induction Hi as [s|n s s1 s2 H1 Hi IH]; intros [|fuel] He; try by left.
  - right. by apply loop_inr.
  - rewrite (loop_inl _ _ s1) by done. by apply IH.
Qed.

(** a loop that reaches a state it never leaves does not end *)
Lemma loop_iters_timeout n s s' :
  iters n s s' → (∀ fuel, loop fuel body s' = Timeout) → ∀ fuel, loop fuel body s = Timeout.
Proof.
  induction 1 as [|n s s1 s2 H1 Hi IH]; intros Ht fuel; [done|].
  destruct fuel as [|fuel]; [done|]. rewrite (loop_inl _ _ s1) by done. by apply IH.
Qed.
End loop.

(** the fuel is a large number: never unfold it by simplification *)
Arguments loop : simpl never.

(** ** Code that ends *)
Lemma res_bind_assoc {A B C} (m : res A) (f : A → res B) (g : B → res C) :
  (m ≫= f) ≫= g = m ≫= (λ x, f x ≫= g).
Proof. by destruct m. Qed.

Lemma ends_ret {A} (a : A) : ends (Ret a).
Proof. done. Qed.

Lemma ends_bind {A B} (m : res A) (f : A → res B) :
  ends m → (∀ a, m = Ret a → ends (f a)) → ends (m ≫= f).
Proof. unfold ends. destruct m; cbn; auto. Qed.

Lemma ends_guardb b : ends (guardb b).
Proof. by destruct b. Qed.

Lemma ends_rd8 b i : ends (rd8 b i).
Proof. unfold rd8. by destruct (in_buf i). Qed.

Lemma ends_wr8 b i v : ends (wr8 b i v).
Proof. unfold wr8. by destruct (in_buf i). Qed.

Lemma ends_ld16 b i : ends (ld16 b i).
Proof. unfold ld16, rd16, rd8. by destruct (in_buf i), (in_buf (i + 1)). Qed.

Lemma ends_st16 b i v : ends (st16 b i v).
Proof. unfold st16, wr16, wr8. by destruct (in_buf i), (in_buf (i + 1)). Qed.

Lemma ends_memcpy dst src d s n : ends (memcpy_buf dst src d s n).
Proof. unfold memcpy_buf, guardb. destruct (n =? 0); [done|]. by destruct (_ && _). Qed.

#[export] Hint Resolve ends_ret ends_guardb ends_rd8 ends_wr8 ends_ld16 ends_st16
  ends_memcpy : orb.

(** [ends_solve]: straight-line code ends. *)
Ltac ends_solve :=
  repeat match goal with
  | |- ends (mbind _ _) => apply ends_bind; [auto with orb|intros ? ?]
  | |- ends (if ?b then _ else _) => destruct b eqn:?
  | |- ends (match ?x with _ => _ end) => destruct x eqn:?
  | |- ends _ => progress auto with orb
  end.

(** ** Words *)
Lemma u8_range z : is_byte (u8 z).
Proof. unfold u8, is_byte. apply Z.mod_pos_bound. lia. Qed.

Lemma u16_range z : is_u16 (u16 z).
Proof. unfold u16, is_u16. apply (Z.mod_pos_bound z (2 ^ 16)). lia. Qed.

Lemma u8_id z : is_byte z → u8 z = z.
Proof. intros H. unfold u8. by apply Z.mod_small. Qed.

Lemma u16_id z : is_u16 z → u16 z = z.
Proof. intros H. unfold u16. by apply Z.mod_small. Qed.

Lemma u64_id z : 0 ≤ z < 2 ^ 64 → u64 z = z.
Proof. intros H. unfold u64. by apply Z.mod_small. Qed.

Lemma u16_u64 z : u16 (u64 z) = u16 z.
Proof. unfold u16, u64. change (2 ^ 64) with (2 ^ 16 * 2 ^ 48).
  rewrite Z.rem_mul_r by lia. rewrite Z.mul_comm, Z.mod_add by lia. by rewrite Z.mod_mod by lia. Qed.

Lemma u8_u64 z : u8 (u64 z) = u8 z.
Proof. unfold u8, u64. change (2 ^ 64) with (2 ^ 8 * 2 ^ 56).
  rewrite Z.rem_mul_r by lia. rewrite Z.mul_comm, Z.mod_add by lia. by rewrite Z.mod_mod by lia. Qed.

Lemma u64_sub_l_u16 a b : u16 (u64 a - b) = u16 (a - b).
Proof.
  rewrite <- (u16_u64 (u64 a - b)), <- (u16_u64 (a - b)). f_equal.
  unfold u64. by rewrite Zminus_mod_idemp_l.
Qed.

Lemma u16_sub_l a b : u16 (u16 a - b) = u16 (a - b).
Proof. unfold u16. by rewrite Zminus_mod_idemp_l. Qed.

Lemma u16_add_l a b : u16 (u16 a + b) = u16 (a + b).
Proof. unfold u16. by rewrite Zplus_mod_idemp_l. Qed.

#[export] Hint Resolve u8_range u16_range : orb.

(** A word as the code stores it, high byte first. *)
Definition word (x : Z) : list Z := [x / 256; x mod 256].

(** Disjoint bits add. *)
Lemma lor_shiftl_add a b n :
  0 ≤ n → 0 ≤ a < 2 ^ n → Z.lor a (Z.shiftl b n) = a + Z.shiftl b n.
Proof.
  intros Hn Ha.
  assert (Hl : Z.land a (Z.shiftl b n) = 0).
  { apply Z.bits_inj'. intros k Hk.
    rewrite Z.land_spec, Z.bits_0, Z.shiftl_spec by lia.
    destruct (Z.ltb_spec k n) as [Hc|Hc].
    - rewrite (Z.testbit_neg_r _ (k - n)) by lia. apply andb_false_r.
    - rewrite <- (Z.mod_small a (2 ^ n)) by lia.
      by rewrite Z.mod_pow2_bits_high by lia. }
  by rewrite <- Z.lxor_lor, <- Z.add_nocarry_lxor.
Qed.

(** [end_swap16] swaps the two low bytes. *)
Lemma end_swap16_spec x : end_swap16 x = x / 256 mod 256 + 256 * (x mod 256).
Proof.
  unfold end_swap16.
  assert (H1 : Z.shiftr (Z.land x 0xff00) 8 = x / 256 mod 256).
  { change 0xff00 with (Z.shiftl (Z.ones 8) 8).
    change (x / 256) with (x / 2 ^ 8). rewrite <- Z.shiftr_div_pow2 by lia.
    change 256 with (2 ^ 8). rewrite <- Z.land_ones by lia.
    rewrite Z.shiftr_land. f_equal. }
  assert (H2 : Z.land x 0x00ff = x mod 256).
  { change 0x00ff with (Z.ones 8). by rewrite Z.land_ones by lia. }
  assert (Hl : 0 ≤ x / 256 mod 256 < 2 ^ 8) by (apply Z.mod_pos_bound; lia).
  rewrite H1, H2, lor_shiftl_add, Z.shiftl_mul_pow2 by lia. lia.
Qed.

Lemma end_swap16_range x : is_u16 (end_swap16 x).
Proof.
  rewrite end_swap16_spec. pose proof (Z.mod_pos_bound (x / 256) 256).
  pose proof (Z.mod_pos_bound x 256). unfold is_u16. lia.
Qed.

(** Swapping twice gives the low 16 bits back. *)
Lemma end_swap16_swap x : end_swap16 (end_swap16 x) = u16 x.
Proof.
  rewrite !end_swap16_spec. unfold u16.
  change (2 ^ 16) with (256 * 256). rewrite Z.rem_mul_r by lia.
  pose proof (Z.mod_pos_bound (x / 256) 256). pose proof (Z.mod_pos_bound x 256).
  rewrite (Z.mul_comm 256 (x mod 256)), Z.div_add, Z.mod_add by lia.
  rewrite (Z.div_small (x / 256 mod 256)) by lia.
  rewrite Z.add_0_l, Zmod_mod, (Z.mod_small (x / 256 mod 256)) by lia. lia.
Qed.

Lemma end_swap16_bytes hi lo : is_byte hi → is_byte lo → end_swap16 (hi + 256 * lo) = 256 * hi + lo.
Proof.
  unfold is_byte. intros Hh Hl. rewrite end_swap16_spec.
  rewrite (Z.mul_comm 256 lo), Z.div_add, Z.mod_add by lia.
  rewrite (Z.div_small hi), (Z.mod_small hi), Z.add_0_l, (Z.mod_small lo) by lia. lia.
Qed.

Lemma end_swap16_u16 x : end_swap16 (u16 x) = end_swap16 x.
Proof. by rewrite <- end_swap16_swap, end_swap16_swap, u16_id by apply end_swap16_range. Qed.

(** ** Buffers *)
Lemma in_buf_true i : in_buf i = true ↔ 0 ≤ i < MAX_BUFFER_SIZE.
Proof. unfold in_buf. rewrite andb_true_iff, Z.leb_le, Z.ltb_lt. lia. Qed.

Lemma rd8_in b i : 0 ≤ i < MAX_BUFFER_SIZE → rd8 b i = Ret (bget b i).
Proof. intros H. unfold rd8. by rewrite (proj2 (in_buf_true i)). Qed.

Lemma rd8_inv b i x : rd8 b i = Ret x → 0 ≤ i < MAX_BUFFER_SIZE ∧ x = bget b i.
Proof.
  unfold rd8. destruct (in_buf i) eqn:E; [|done]. intros [= <-]. by apply in_buf_true in E.
Qed.

Lemma wr8_in b i v : 0 ≤ i < MAX_BUFFER_SIZE → wr8 b i v = Ret (<[i := u8 v]> b).
Proof. intros H. unfold wr8. by rewrite (proj2 (in_buf_true i)). Qed.

Lemma bget_insert b i j v :
  bget (<[i := v]> b) j = if decide (i = j) then v else bget b j.
Proof. unfold bget. rewrite lookup_insert. by case_decide. Qed.

Lemma bget_insert_eq b i v : bget (<[i := v]> b) i = v.
Proof. rewrite bget_insert. by case_decide. Qed.

Lemma bget_insert_ne b i j v : i ≠ j → bget (<[i := v]> b) j = bget b j.
Proof. intros H. rewrite bget_insert. by case_decide. Qed.

Lemma bget_empty i : bget ∅ i = 0.
Proof. done. Qed.

(** A 16-bit store as two bytes, high byte first. *)
Definition bput16 (b : buf) (i v : Z) : buf :=
  <[i + 1 := v mod 256]> (<[i := v / 256 mod 256]> b).

Lemma st16_in b i v :
  0 ≤ i → i + 1 < MAX_BUFFER_SIZE → st16 b i v = Ret (bput16 b i v).
Proof.
  intros Hi Hm. unfold st16, wr16. rewrite wr8_in by lia. res_simpl.
  rewrite wr8_in by lia. rewrite u16_id by apply end_swap16_range.
  unfold bput16. rewrite end_swap16_spec. unfold u8. change (2 ^ 8) with 256.
  pose proof (Z.mod_pos_bound (v / 256) 256). pose proof (Z.mod_pos_bound v 256).
  rewrite (Z.mul_comm 256 (v mod 256)), Z.div_add, Z.mod_add by lia.
  rewrite (Z.div_small (v / 256 mod 256)), Z.add_0_l, !Zmod_mod by lia. done.
Qed.

Lemma ld16_in b i :
  0 ≤ i → i + 1 < MAX_BUFFER_SIZE → is_byte (bget b i) → is_byte (bget b (i + 1)) →
  ld16 b i = Ret (256 * bget b i + bget b (i + 1)).
Proof.
  intros Hi Hm H1 H2. unfold ld16, rd16. rewrite !rd8_in by lia. res_simpl.
  by rewrite end_swap16_bytes.
Qed.

Lemma bget_bput16 b i v j :
  bget (bput16 b i v) j =
    if decide (j = i + 1) then v mod 256
    else if decide (j = i) then v / 256 mod 256 else bget b j.
Proof.
  unfold bput16. rewrite !bget_insert.
  repeat case_decide; subst; try done; lia.
Qed.

(** ** Slices and stores *)
Lemma length_bslice b i n : length (bslice b i n) = n.
Proof. unfold bslice. by rewrite length_fmap, length_seq. Qed.

Lemma lookup_bslice b i n k :
  (k < n)%nat → bslice b i n !! k = Some (bget b (i + Z.of_nat k)).
Proof.
  intros H. unfold bslice. rewrite list_lookup_fmap, lookup_seq_lt by lia. done.
Qed.

Lemma bget_bstore b i l j :
  bget (bstore b i l) j =
    if decide (i ≤ j < i + Z.of_nat (length l))
    then default 0 (u8 <$> l !! Z.to_nat (j - i)) else bget b j.
Proof.
  revert b i. induction l as [|x l IH]; intros b i; cbn [bstore length].
  { case_decide; [lia|done]. }
  rewrite IH. repeat case_decide; try lia.
  - replace (Z.to_nat (j - i)) with (S (Z.to_nat (j - (i + 1)))) by lia. done.
  - assert (j = i) as -> by lia. rewrite bget_insert_eq, Z.sub_diag. done.
  - apply bget_insert_ne. lia.
Qed.

(** ** Regions *)
Lemma region_nil b i : region b i [].
Proof. intros k x H. by rewrite lookup_nil in H. Qed.

Lemma region_cons b i x l : region b i (x :: l) ↔ bget b i = x ∧ region b (i + 1) l.
Proof.
  split.
  - intros H. split.
    + specialize (H 0%nat x eq_refl). by rewrite Z.add_0_r in H.
    + intros k y Hk. specialize (H (S k) y Hk). rewrite <- H. f_equal. lia.
  - intros [Hx Hl] [|k] y Hk; cbn in Hk.
    + simplify_eq. by rewrite Z.add_0_r.
    + specialize (Hl k y Hk). rewrite <- Hl. f_equal. lia.
Qed.

Lemma region_app b i l1 l2 :
  region b i (l1 ++ l2) ↔ region b i l1 ∧ region b (i + Z.of_nat (length l1)) l2.
Proof.
  revert i. induction l1 as [|x l1 IH]; intros i; cbn [app length].
  - rewrite Z.add_0_r. pose proof (region_nil b i). tauto.
  - rewrite !region_cons, IH.
    replace (i + 1 + Z.of_nat (length l1)) with (i + Z.of_nat (S (length l1))) by lia. tauto.
Qed.

(** A region is kept by buffers that agree on it. *)
Lemma region_agree b1 b2 i l :
  region b1 i l →
  (∀ j, i ≤ j < i + Z.of_nat (length l) → bget b2 j = bget b1 j) →
  region b2 i l.
Proof.
  intros H Ha k x Hk. rewrite Ha; [by apply H|].
  apply lookup_lt_Some in Hk. lia.
Qed.

Lemma region_insert_ne b i l j v :
  region b i l → j < i ∨ i + Z.of_nat (length l) ≤ j → region (<[j := v]> b) i l.
Proof. intros H Hj. eapply region_agree; [done|]. intros. apply bget_insert_ne. lia. Qed.

Lemma region_bput16_ne b i l j v :
  region b i l → j + 1 < i ∨ i + Z.of_nat (length l) ≤ j → region (bput16 b j v) i l.
Proof.
  intros H Hj. eapply region_agree; [done|]. intros. rewrite bget_bput16.
  repeat case_decide; lia || done.
Qed.

Lemma region_bslice b i n : region b i (bslice b i n).
Proof.
  intros k x Hk. pose proof (lookup_lt_Some _ _ _ Hk) as Hl.
  rewrite length_bslice in Hl. rewrite lookup_bslice in Hk by done. congruence.
Qed.

Lemma region_to_bslice b i l : region b i l → bslice b i (length l) = l.
Proof.
  intros H. apply list_eq. intros k.
  destruct (decide (k < length l)%nat) as [Hk|Hk].
  - rewrite lookup_bslice by done. destruct (lookup_lt_is_Some_2 l k Hk) as [x Hx].
    rewrite Hx. f_equal. by apply H.
  - rewrite !lookup_ge_None_2; [done|lia|rewrite length_bslice; lia].
Qed.

Lemma region_bstore b i l : Forall is_byte l → region (bstore b i l) i l.
Proof.
  intros Hb k x Hk. pose proof (lookup_lt_Some _ _ _ Hk) as Hl.
  rewrite bget_bstore. case_decide; [|lia].
  replace (Z.to_nat (i + Z.of_nat k - i)) with k by lia. rewrite Hk. cbn.
  apply u8_id. by eapply Forall_lookup_1 in Hk.
Qed.

Lemma bget_bstore_out b i l j :
  j < i ∨ i + Z.of_nat (length l) ≤ j → bget (bstore b i l) j = bget b j.
Proof. intros H. rewrite bget_bstore. case_decide; [lia|done]. Qed.

Lemma region_bstore_ne b i l j l' :
  region b i l → j + Z.of_nat (length l') ≤ i ∨ i + Z.of_nat (length l) ≤ j →
  region (bstore b j l') i l.
Proof. intros H Hj. eapply region_agree; [done|]. intros. apply bget_bstore_out. lia. Qed.

(** A [memcpy] that stays inside the buffer. *)
Lemma memcpy_buf_in dst src d s n :
  0 ≤ n → 0 ≤ d → 0 ≤ s → d + n ≤ MAX_BUFFER_SIZE → s + n ≤ MAX_BUFFER_SIZE →
  memcpy_buf dst src d s n = Ret (bstore dst d (bslice src s (Z.to_nat n))).
Proof.
  intros Hn Hd Hs Hdn Hsn. unfold memcpy_buf.
  destruct (Z.eqb_spec n 0) as [->|Hne]; [done|].
  rewrite !(proj2 (in_buf_true _)) by lia.
  rewrite (proj2 (Z.ltb_lt 0 n)) by lia. done.
Qed.

(** [beq] is an equivalence that every read and [region] respects. *)
#[export] Instance beq_equivalence : Equivalence beq.
Proof. split; repeat intro; unfold beq in *; congruence. Qed.

#[export] Instance bget_proper : Proper (beq ==> eq ==> eq) bget.
Proof. intros b1 b2 H i j ->. apply H. Qed.

#[export] Instance region_proper : Proper (beq ==> eq ==> eq ==> iff) region.
Proof.
  intros b1 b2 H i j -> l1 l2 ->. unfold region.
  split; intros Hr k x Hk; [rewrite <- (H _)|rewrite (H _)]; by apply Hr.
Qed.

#[export] Instance bslice_proper : Proper (beq ==> eq ==> eq ==> eq) bslice.
Proof.
  intros b1 b2 H i j -> n m ->. unfold bslice. apply list_fmap_ext. intros. apply H.
Qed.

(** ** Well-formed buffers: every cell is a byte *)
Definition buf_ok (b : buf) : Prop := ∀ i, is_byte (bget b i).

#[export] Instance buf_ok_proper : Proper (beq ==> iff) buf_ok.
Proof. intros b1 b2 H. split; intros Hb i; [rewrite <- (H i)|rewrite (H i)]; apply Hb. Qed.

Lemma buf_ok_empty : buf_ok ∅.
Proof. intros i. unfold is_byte. rewrite bget_empty. lia. Qed.

Lemma buf_ok_insert b i v : buf_ok b → is_byte v → buf_ok (<[i := v]> b).
Proof. intros Hb Hv j. rewrite bget_insert. by case_decide. Qed.

Lemma buf_ok_wr8 b i v b' : buf_ok b → wr8 b i v = Ret b' → buf_ok b'.
Proof.
  unfold wr8. destruct (in_buf i); [|done]. intros Hb [= <-]. apply buf_ok_insert; auto with orb.
Qed.

Lemma buf_ok_st16 b i v b' : buf_ok b → st16 b i v = Ret b' → buf_ok b'.
Proof.
  unfold st16, wr16. intros Hb. destruct (wr8 b i _) as [b1| |] eqn:E; [|done..]. cbn.
  intros H. eapply buf_ok_wr8; [|exact H]. by eapply buf_ok_wr8.
Qed.

Lemma buf_ok_bstore b i l : buf_ok b → buf_ok (bstore b i l).
Proof.
  revert b i. induction l as [|x l IH]; intros b i H; [done|].
  cbn. apply IH, buf_ok_insert; auto with orb.
Qed.

Lemma buf_ok_memcpy dst src d s n b : buf_ok dst → memcpy_buf dst src d s n = Ret b → buf_ok b.
Proof.
  unfold memcpy_buf. intros Hd. destruct (n =? 0); [by intros [= <-]|].
  unfold guardb. destruct (_ && _); cbn; [|done]. intros [= <-]. by apply buf_ok_bstore.
Qed.

Lemma bslice_bytes b i n : buf_ok b → Forall is_byte (bslice b i n).
Proof.
  intros H. apply Forall_lookup_2. intros k x Hk.
  pose proof (lookup_lt_Some _ _ _ Hk) as Hl. rewrite length_bslice in Hl.
  rewrite lookup_bslice in Hk by done. simplify_eq. apply H.
Qed.

#[export] Hint Resolve buf_ok_empty buf_ok_insert buf_ok_wr8 buf_ok_st16 buf_ok_bstore
  buf_ok_memcpy bslice_bytes : orb.
(** [bsolve]: compute reads of updated buffers. *)
Ltac bsolve :=
  repeat (rewrite bget_insert || rewrite bget_bput16);
  repeat case_decide; try lia; try done;
  repeat (rewrite u8_id by (done || (unfold is_byte in *; lia))); try done.

(** [region_solve]: a region made of explicit bytes. *)
Ltac region_solve :=
  repeat match goal with
  | |- region _ _ (_ :: _) => apply region_cons; split
  | |- region _ _ [] => apply region_nil
  end; bsolve.

(** *** Words in buffers *)
Lemma st16_u64 b i v : st16 b i (u64 v) = st16 b i (u16 v).
Proof.
  unfold st16. by rewrite <- (end_swap16_u16 (u64 v)), u16_u64.
Qed.

Lemma ld16_word b i x :
  region b i (word x) → is_u16 x → 0 ≤ i → i + 1 < MAX_BUFFER_SIZE → ld16 b i = Ret x.
Proof.
  intros Hr Hx H0 Hm. apply region_cons in Hr as [Hh Hr]. apply region_cons in Hr as [Hl _].
  assert (is_byte (x / 256)).
  { unfold is_byte, is_u16 in *. split; [apply Z.div_pos; lia|apply Z.div_lt_upper_bound; lia]. }
  assert (is_byte (x mod 256)) by (apply Z.mod_pos_bound; lia).
  rewrite ld16_in; rewrite ?Hh, ?Hl; try done. f_equal. symmetry. apply Z.div_mod. lia.
Qed.

Lemma region_word_bput16 b i v : is_u16 v → region (bput16 b i v) i (word v).
Proof.
  intros Hv. assert (v / 256 mod 256 = v / 256).
  { unfold is_u16 in *. apply Z.mod_small.
    split; [apply Z.div_pos; lia|apply Z.div_lt_upper_bound; lia]. }
  unfold word. region_solve.
Qed.

#[export] Hint Resolve region_nil region_bslice end_swap16_range : orb.
#[export] Hint Rewrite bget_insert_eq length_bslice : orb.

Lemma guardb_true b : b = true → guardb b = Ret tt.
Proof. by intros ->. Qed.

(** [wr]: rewrite the in-bounds byte writes of the goal. *)
Ltac res_cbn := cbn [mbind mret fmap res_bind res_ret res_fmap guardb from_option_ub fst snd].

Ltac wr := repeat first [progress res_cbn | rewrite wr8_in by lia | rewrite st16_in by lia].

(** ** A step for every element of a list, in order *)
Fixpoint foldM {A B} (f : B → A → res A) (l : list B) (a : A) : res A :=
  match l with
  | [] => Ret a
  | b :: l' => a' ← f b a; foldM f l' a'
  end.

Lemma foldM_app {A B} (f : B → A → res A) l1 l2 a :
  foldM f (l1 ++ l2) a = (a' ← foldM f l1 a; foldM f l2 a').
Proof.
  revert a. induction l1 as [|b l1 IH]; intros a; [done|]. cbn [foldM app].
  rewrite res_bind_assoc. destruct (f b a); cbn; [apply IH|done..].
Qed.

(** A step that returns and keeps an invariant can be repeated. *)
Lemma foldM_inv {A B} (P : A → Prop) (f : B → A → res A) l a :
  P a → (∀ b a, b ∈ l → P a → ∃ a', f b a = Ret a' ∧ P a') → ∃ a', foldM f l a = Ret a' ∧ P a'.
Proof.
  revert a. induction l as [|b l IH]; intros a Ha Hf; [by exists a|].
  destruct (Hf b a ltac:(set_solver) Ha) as (a1 & E & H1). cbn [foldM]. rewrite E.
  apply IH; [done|]. intros c d Hc. apply Hf. set_solver.
Qed.

(** ** Bit operations keep a width *)
Lemma range_ones n x : 0 ≤ n → (0 ≤ x < 2 ^ n ↔ Z.land x (Z.ones n) = x).
Proof.
  intros Hn. rewrite Z.land_ones by done. split; [apply Z.mod_small|].
  intros <-. apply Z.mod_pos_bound. lia.
Qed.

Lemma lor_range n a b : 0 ≤ n → 0 ≤ a < 2 ^ n → 0 ≤ b < 2 ^ n → 0 ≤ Z.lor a b < 2 ^ n.
Proof. intros Hn. rewrite !range_ones, Z.land_lor_distr_l by done. by intros -> ->. Qed.

Lemma lxor_range n a b : 0 ≤ n → 0 ≤ a < 2 ^ n → 0 ≤ b < 2 ^ n → 0 ≤ Z.lxor a b < 2 ^ n.
Proof.
  intros Hn. rewrite !range_ones by done. intros Ha Hb. rewrite <-Ha at 2. rewrite <-Hb at 2.
  apply Z.bits_inj'. intros k Hk. rewrite !Z.land_spec, !Z.lxor_spec, !Z.land_spec.
  by destruct (Z.testbit a k), (Z.testbit b k), (Z.testbit (Z.ones n) k).
Qed.

Lemma byte_lor a b : is_byte a → is_byte b → is_byte (Z.lor a b).
Proof. by apply (lor_range 8). Qed.

Lemma byte_lxor a b : is_byte a → is_byte b → is_byte (Z.lxor a b).
Proof. by apply (lxor_range 8). Qed.

(** Lists of bytes, checked by computation. *)
Lemma byteb_list l : forallb (λ x, (0 <=? x) && (x <? 256)) l = true → Forall is_byte l.
Proof.
  intros H. apply Forall_forall. intros x Hx. rewrite forallb_forall in H.
  apply list_elem_of_In in Hx. specialize (H x Hx). unfold is_byte. lia.
Qed.

Lemma byte_land a b : is_byte a → is_byte (Z.land a b).
Proof. unfold is_byte. change 256 with (2 ^ 8). rewrite !range_ones by lia. intros H. by rewrite <-Z.land_assoc, (Z.land_comm b), Z.land_assoc, H. Qed.

(** an array of [n] bytes *)
Definition bytes (n : nat) (s : list Z) : Prop := length s = n ∧ Forall is_byte s.

Lemma total_byte s k : Forall is_byte s → is_byte (s !!! k).
Proof.
  intros H. rewrite list_lookup_total_alt. destruct (s !! k) as [x|] eqn:E; [|by vm_compute].
  cbn. by eapply Forall_lookup_1.
Qed.

(** A loop that fills an array. *)
Lemma total_seq_map (f : nat → Z) n k : (k < n)%nat → ((f <$> seq 0 n) : list Z) !!! k = f k.
Proof. intros H. apply list_lookup_total_correct. by rewrite list_lookup_fmap, lookup_seq_lt by done. Qed.

Lemma seq_map_ext (f : nat → Z) (s : list Z) n : length s = n → (∀ k, (k < n)%nat → f k = s !!! k) → f <$> seq 0 n = s.
Proof.
  intros Hl H. apply list_eq_same_length with n; [done|by rewrite length_fmap, length_seq|].
  intros k x y Hk Hx Hy. rewrite list_lookup_fmap, lookup_seq_lt in Hx by done. injection Hx as <-.
  rewrite H by done. by apply list_lookup_total_correct.
Qed.

(** Whole blocks one after the other. *)
Lemma concat_blocks {A} (n : nat) (bl : list (list A)) : Forall (λ b, length b = n) bl → length (concat bl) = (n * length bl)%nat.
Proof. induction 1 as [|b bl Hb _ IH]; cbn; [lia|]. rewrite length_app, Hb, IH. lia. Qed.

Lemma concat_length (bs : nat) (bl : list (list Z)) : Forall (bytes bs) bl → length (concat bl) = (bs * length bl)%nat.
Proof. intros H. apply concat_blocks. eapply Forall_impl; [exact H|]. by intros b [Hb _]. Qed.
