(* ===== verification/Isa.v ===== *)
(** * The bytecode of OrbWeaver (StackLib/StackVM/vm_stack.h)

    The opcode numbers, the groups of opcodes that the switch statements of
    the streamer, the linker, the two optimisers and the virtual machine list
    together, and abstract instructions with their byte encoding: the
    reference against which the passes that walk raw bytes are verified. *)
From S2P Require Import Prelude.

(** ** Opcode numbers *)
Definition INS_NOP : Z := 0.
Definition INS_SCTX : Z := 8.
Definition INS_RCTX : Z := 9.
Definition INS_OBJCONST : Z := 16.
Definition INS_OBJNEW : Z := 17.
Definition INS_OBJDUP : Z := 18.
Definition INS_OBJDEL : Z := 19.
Definition INS_OBJSZ : Z := 22.
Definition INS_OBJSUB : Z := 23.
Definition INS_OBJPUSH : Z := 25.
Definition INS_OBJPOP : Z := 26.
Definition INS_OBJSTORE : Z := 29.
Definition INS_ADD : Z := 32.
Definition INS_SUB : Z := 33.
Definition INS_MUL : Z := 34.
Definition INS_DIV : Z := 35.
Definition INS_MOD : Z := 36.
Definition INS_AND : Z := 40.
Definition INS_OR : Z := 41.
Definition INS_XOR : Z := 42.
Definition INS_NOT : Z := 43.
Definition INS_SHL : Z := 48.
Definition INS_SHR : Z := 49.
Definition INS_LBL : Z := 62.
Definition INS_CREQ : Z := 64.
Definition INS_CRNE : Z := 65.
Definition INS_CRGT : Z := 66.
Definition INS_CRLT : Z := 67.
Definition INS_CRGTEQ : Z := 68.
Definition INS_CRLTEQ : Z := 69.
Definition INS_JMP : Z := 70.
Definition INS_JFALSE : Z := 71.
Definition INS_JTRUE : Z := 72.
Definition INS_SWITCH : Z := 74.
Definition INS_F2O : Z := 96.
Definition INS_RET : Z := 126.
Definition INS_CALL : Z := 127.
Definition INS_SYSCALL0 : Z := 128.
Definition INS_EXTCALL0 : Z := 160.

(** ** Groups of opcodes

    One constructor per set of [case] labels that every pass treats alike.
    [INS_F2O] alone and [INS_F2O_1 .. 15] are apart because the optimisers
    list only the first. *)
Inductive opclass : Type :=
  | CLbl | CPlain | CNop | CRet | CSys | CSctx | CRctx | CPush | CPop | CStore
  | CSwitch | CCall | CF2O | CF2On | CNew | CExt | CConst | CJtrue | CJfalse
  | CJmp | CUnknown.

#[export] Instance opclass_eq_dec : EqDecision opclass.
Proof. solve_decision. Defined.

(** [INS_OBJDEL .. INS_NOT] and the comparisons: one byte, no operand. *)
Definition plain_ops : list Z :=
  [INS_OBJDEL; INS_OBJSUB; INS_OBJSZ; INS_OBJDUP; INS_ADD; INS_SUB; INS_MUL;
   INS_DIV; INS_MOD; INS_AND; INS_OR; INS_XOR; INS_SHL; INS_SHR; INS_NOT;
   INS_CREQ; INS_CRNE; INS_CRGT; INS_CRLT; INS_CRGTEQ; INS_CRLTEQ].

Definition classify (op : Z) : opclass :=
  if op =? INS_LBL then CLbl
  else if existsb (Z.eqb op) plain_ops then CPlain
  else if op =? INS_NOP then CNop
  else if op =? INS_RET then CRet
  else if (INS_SYSCALL0 <=? op) && (op <=? INS_SYSCALL0 + 15) then CSys
  else if op =? INS_SCTX then CSctx
  else if op =? INS_RCTX then CRctx
  else if op =? INS_OBJPUSH then CPush
  else if op =? INS_OBJPOP then CPop
  else if op =? INS_OBJSTORE then CStore
  else if op =? INS_SWITCH then CSwitch
  else if op =? INS_CALL then CCall
  else if op =? INS_F2O then CF2O
  else if (INS_F2O + 1 <=? op) && (op <=? INS_F2O + 15) then CF2On
  else if op =? INS_OBJNEW then CNew
  else if (INS_EXTCALL0 <=? op) && (op <=? INS_EXTCALL0 + 15) then CExt
  else if op =? INS_OBJCONST then CConst
  else if op =? INS_JTRUE then CJtrue
  else if op =? INS_JFALSE then CJfalse
  else if op =? INS_JMP then CJmp
  else CUnknown.

(** ** Abstract instructions *)
Inductive instr : Type :=
  | I1 (op : Z)            (** one byte *)
  | I2 (op arg : Z)        (** opcode and a byte operand *)
  | ISys (n api : Z)       (** [INS_SYSCALLn], two or four bytes *)
  | I3 (op w : Z).         (** opcode and a big-endian 16-bit operand *)

#[export] Instance instr_eq_dec : EqDecision instr.
Proof. solve_decision. Defined.

Definition class1 (c : opclass) : bool :=
  match c with CPlain | CNop | CRet => true | _ => false end.
Definition class2 (c : opclass) : bool :=
  match c with CSctx | CRctx | CPush | CPop | CStore => true | _ => false end.
Definition class3 (c : opclass) : bool :=
  match c with
  | CSwitch | CCall | CF2O | CF2On | CNew | CExt | CConst | CJtrue | CJfalse | CJmp => true
  | _ => false
  end.

Definition byteb (x : Z) : bool := (0 <=? x) && (x <? 256).
Definition u16b (x : Z) : bool := (0 <=? x) && (x <? 65536).

Definition instr_wf (i : instr) : bool :=
  match i with
  | I1 op => byteb op && class1 (classify op)
  | I2 op a => byteb op && class2 (classify op) && byteb a
  | ISys n api => (0 <=? n) && (n <? 16) && u16b api
  | I3 op w => byteb op && class3 (classify op) && u16b w
  end.

(** The bytes [is_gencode] writes for an instruction. *)
Definition encode (i : instr) : list Z :=
  match i with
  | I1 op => [op]
  | I2 op a => [op; a]
  | ISys n api =>
      if api <? 254 then [INS_SYSCALL0 + n; api]
      else [INS_SYSCALL0 + n; 255; api / 256; api mod 256]
  | I3 op w => [op; w / 256; w mod 256]
  end.

Definition opcode_of (i : instr) : Z :=
  match i with I1 op | I2 op _ | I3 op _ => op | ISys n _ => INS_SYSCALL0 + n end.

Definition class_of (i : instr) : opclass := classify (opcode_of i).

(** Bytes of an instruction. *)
Definition isize (i : instr) : Z := Z.of_nat (length (encode i)).

Definition encode_prog (p : list instr) : list Z := concat (encode <$> p).

Definition psize (p : list instr) : Z := Z.of_nat (length (encode_prog p)).

Definition prog_wf (p : list instr) : Prop := Forall (λ i, instr_wf i = true) p.

#[export] Instance prog_wf_dec p : Decision (prog_wf p).
Proof. unfold prog_wf. apply _. Defined.

(** The instruction that starts with the bytes [l], with the rest. *)
Definition decode1 (l : list Z) : option (instr * list Z) :=
  match l with
  | [] => None
  | op :: r =>
      let c := classify op in
      if class1 c then Some (I1 op, r)
      else if class2 c then
        match r with a :: r' => Some (I2 op a, r') | _ => None end
      else if class3 c then
        match r with h :: l' :: r' => Some (I3 op (256 * h + l'), r') | _ => None end
      else if decide (c = CSys) then
        match r with
        | a :: r' =>
            if a <? 254 then Some (ISys (op - INS_SYSCALL0) a, r')
            else match r' with
                 | h :: l' :: r'' => Some (ISys (op - INS_SYSCALL0) (256 * h + l'), r'')
                 | _ => None
                 end
        | _ => None
        end
      else None
  end.

(** ** Shape of well-formed instructions *)
Lemma byteb_true x : byteb x = true ↔ is_byte x.
Proof. unfold byteb, is_byte. rewrite andb_true_iff, Z.leb_le, Z.ltb_lt. lia. Qed.

Lemma u16b_true x : u16b x = true ↔ is_u16 x.
Proof. unfold u16b, is_u16. rewrite andb_true_iff, Z.leb_le, Z.ltb_lt. lia. Qed.

Lemma classify_syscall n : 0 ≤ n < 16 → classify (INS_SYSCALL0 + n) = CSys.
Proof.
  intros H. assert (Hin : In n (seqZ 0 16)) by (apply list_elem_of_In, elem_of_seqZ; lia).
  cbv in Hin. repeat destruct Hin as [<-|Hin]; done.
Qed.

(** The view of a well-formed instruction that proofs case on. *)
Inductive instr_view : instr → Prop :=
  | view1 op : is_byte op → class1 (classify op) = true → instr_view (I1 op)
  | view2 op a : is_byte op → class2 (classify op) = true → is_byte a → instr_view (I2 op a)
  | viewS n api : 0 ≤ n < 16 → is_u16 api → classify (INS_SYSCALL0 + n) = CSys →
      instr_view (ISys n api)
  | view3 op w : is_byte op → class3 (classify op) = true → is_u16 w → instr_view (I3 op w).

Lemma instr_wf_view i : instr_wf i = true → instr_view i.
Proof.
  destruct i; cbn; rewrite ?andb_true_iff, ?byteb_true, ?u16b_true, ?Z.leb_le, ?Z.ltb_lt;
    intros; constructor; try tauto; try lia. apply classify_syscall. lia.
Qed.

Lemma u16_hi_byte w : is_u16 w → is_byte (w / 256).
Proof.
  unfold is_u16, is_byte. intros [H1 H2].
  split; [apply Z.div_pos; lia | apply Z.div_lt_upper_bound; lia].
Qed.

Lemma mod256_byte w : is_byte (w mod 256).
Proof. unfold is_byte. apply Z.mod_pos_bound. lia. Qed.

Lemma div_mod_256 w : 256 * (w / 256) + w mod 256 = w.
Proof. symmetry. apply Z.div_mod. lia. Qed.

#[export] Hint Resolve u16_hi_byte mod256_byte : orb.

Lemma encode_bytes i : instr_wf i = true → Forall is_byte (encode i).
Proof.
  intros H. destruct (instr_wf_view i H); cbn; try destruct (Z.ltb_spec api 254);
    repeat (apply Forall_cons; split); try apply Forall_nil; auto with orb;
    unfold INS_SYSCALL0, is_byte, is_u16 in *; lia.
Qed.

Lemma encode_cons i : ∃ t, encode i = opcode_of i :: t.
Proof. destruct i; cbn; try destruct (_ <? _); eauto. Qed.

Lemma isize_pos i : 1 ≤ isize i ≤ 4.
Proof. unfold isize. destruct i; cbn; try destruct (_ <? _); cbn; lia. Qed.

Lemma isize_class i :
  instr_wf i = true →
  isize i =
    let c := class_of i in
    if class1 c then 1 else if class2 c then 2 else if class3 c then 3
    else match i with ISys _ api => if api <? 254 then 2 else 4 | _ => 0 end.
Proof.
  intros H. unfold class_of, isize.
  destruct (instr_wf_view i H) as [op _ Hc|op a _ Hc _|n api _ _ Hc|op w _ Hc _];
    cbn [opcode_of encode].
  - by rewrite Hc.
  - by destruct (classify op).
  - rewrite Hc. cbn. by destruct (api <? 254).
  - by destruct (classify op).
Qed.

(** Decoding the bytes of an instruction gives it back. *)
Lemma decode1_encode i r : instr_wf i = true → decode1 (encode i ++ r) = Some (i, r).
Proof.
  intros H. destruct (instr_wf_view i H) as [op Hb Hc|op a Hb Hc Ha|n api Hn Ha Hc|op w Hb Hc Hw].
  - cbn. by rewrite Hc.
  - cbn. rewrite Hc. by destruct (classify op).
  - cbn. destruct (api <? 254) eqn:E; cbn [app decode1]; rewrite Hc; cbn.
    + rewrite E. by replace (INS_SYSCALL0 + n - INS_SYSCALL0) with n by lia.
    + replace (INS_SYSCALL0 + n - INS_SYSCALL0) with n by lia. by rewrite div_mod_256.
  - cbn. rewrite Hc, div_mod_256. by destruct (classify op).
Qed.

(** ** Layout of programs *)
Lemma encode_prog_cons i p : encode_prog (i :: p) = encode i ++ encode_prog p.
Proof. done. Qed.

Lemma encode_prog_app p q : encode_prog (p ++ q) = encode_prog p ++ encode_prog q.
Proof. unfold encode_prog. by rewrite fmap_app, concat_app. Qed.

Lemma psize_nil : psize [] = 0.
Proof. done. Qed.

Lemma psize_cons i p : psize (i :: p) = isize i + psize p.
Proof. unfold psize, isize. rewrite encode_prog_cons, length_app. lia. Qed.

Lemma psize_app p q : psize (p ++ q) = psize p + psize q.
Proof. unfold psize. rewrite encode_prog_app, length_app. lia. Qed.

Lemma psize_nonneg p : 0 ≤ psize p.
Proof. unfold psize. lia. Qed.

Lemma length_psize p : Z.of_nat (length (encode_prog p)) = psize p.
Proof. done. Qed.

Lemma prog_length p : Z.of_nat (length p) ≤ psize p.
Proof.
  induction p as [|i p IH]; [done|]. rewrite psize_cons. cbn [length].
  pose proof (isize_pos i). lia.
Qed.

Lemma encode_prog_bytes p : prog_wf p → Forall is_byte (encode_prog p).
Proof.
  induction 1 as [|i p Hi Hp IH]; [constructor|].
  rewrite encode_prog_cons. apply Forall_app. split; [by apply encode_bytes|done].
Qed.

Lemma prog_wf_cons i p : prog_wf (i :: p) ↔ instr_wf i = true ∧ prog_wf p.
Proof. unfold prog_wf. by rewrite Forall_cons. Qed.

Lemma prog_wf_app p q : prog_wf (p ++ q) ↔ prog_wf p ∧ prog_wf q.
Proof. unfold prog_wf. by rewrite Forall_app. Qed.

(** Decoding a whole program. *)
Fixpoint decode_prog (fuel : nat) (l : list Z) : option (list instr) :=
  match fuel, l with
  | _, [] => Some []
  | O, _ => None
  | S f, _ => match decode1 l with
              | Some (i, r) => cons i <$> decode_prog f r
              | None => None
              end
  end.

Lemma decode_prog_encode p f :
  prog_wf p → (length p ≤ f)%nat → decode_prog f (encode_prog p) = Some p.
Proof.
  intros H. revert f. induction H as [|i p Hi Hp IH]; intros f Hf.
  { by destruct f. }
  destruct f as [|f]; [cbn in Hf; lia|].
  rewrite encode_prog_cons. pose proof (decode1_encode i (encode_prog p) Hi) as Hd.
  destruct (encode_cons i) as [t Ht]. rewrite Ht in Hd |- *. cbn [app decode_prog] in *.
  rewrite Hd, IH by (cbn in Hf; lia). done.
Qed.

(** ** Reading an instruction from a buffer *)
Section fetch.
Context (b : buf) (pc : Z) (i : instr) (Hwf : instr_wf i = true).
Context (Hr : region b pc (encode i)) (H0 : 0 ≤ pc) (Hm : pc + isize i ≤ MAX_BUFFER_SIZE).

Lemma fetch_opcode : rd8 b pc = Ret (opcode_of i).
Proof.
  pose proof (isize_pos i). rewrite rd8_in by lia.
  destruct (encode_cons i) as [t Ht]. rewrite Ht in Hr.
  apply region_cons in Hr as [-> _]. done.
Qed.

Lemma fetch_arg op a : i = I2 op a → rd8 b (pc + 1) = Ret a.
Proof.
  intros ->. cbn in *. unfold isize in Hm. cbn in Hm. rewrite rd8_in by lia.
  apply region_cons in Hr as [_ Hr']. apply region_cons in Hr' as [-> _]. done.
Qed.

Lemma fetch_sys n api :
  i = ISys n api → rd8 b (pc + 1) = Ret (if api <? 254 then api else 255).
Proof.
  intros ->. unfold isize in Hm. cbn in *. rewrite rd8_in by (destruct (_ <? _); cbn in *; lia).
  destruct (api <? 254); apply region_cons in Hr as [_ Hr'];
    apply region_cons in Hr' as [-> _]; done.
Qed.

Lemma fetch_word op w : i = I3 op w → ld16 b (pc + 1) = Ret w.
Proof.
  intros ->. unfold isize in Hm. cbn in *.
  apply region_cons in Hr as [_ Hr']. apply region_cons in Hr' as [Hh Hr''].
  apply region_cons in Hr'' as [Hl _].
  apply andb_true_iff in Hwf as [_ Hw']. apply u16b_true in Hw'.
  rewrite ld16_in; rewrite ?Hh, ?Hl; auto with orb; try lia.
  by rewrite div_mod_256.
Qed.

(** Storing a new operand over the old one. *)
Lemma store_word op w v :
  i = I3 op w → is_u16 v →
  st16 b (pc + 1) v = Ret (bput16 b (pc + 1) v) ∧
  region (bput16 b (pc + 1) v) pc (encode (I3 op v)).
Proof.
  intros -> Hv. unfold isize in Hm. cbn in *. split; [apply st16_in; lia|].
  apply region_cons in Hr as [Ho _].
  apply region_cons; split; [|apply region_cons; split; [|apply region_cons; split]];
    auto with orb; rewrite bget_bput16; repeat case_decide; try lia; try done.
  apply Z.mod_small, u16_hi_byte, Hv.
Qed.
End fetch.

#[export] Hint Resolve encode_bytes encode_prog_bytes psize_nonneg : orb.
#[export] Hint Rewrite psize_nil psize_cons psize_app : orb.
