(* ===== verification/Streamer.v ===== *)
(** * The IL streamer (StackLib/Stack/il_streamer.c)

    The code and constant buffers the compiler writes, the label records, and
    the emission of one instruction ([is_gencode]) or one constant
    ([is_push_constant]). The listing the functions also print ([is_debug],
    [as_print]) is output only and is not modelled. *)

From S2P Require Import Prelude Isa.

(** ** State *)

(** [lblrec] of il_streamer.h; [lb_tag] is the [pk_method] the [tag] field
    points to, named by a number. *)
Record lblrec := mkLbl {
  lb_offset : Z;
  lb_refcount : Z;
  lb_tag : option nat;
  lb_name : string
}.

(** The static variables of il_streamer.c; [moffs] holds the [offset] field
    of the methods that label tags point to. *)
Record istream := mkIS {
  code : buf;
  data : buf;
  cpindex : Z;
  code_size : Z;
  lbls : list lblrec;
  moffs : gmap nat Z
}.

Definition set_code (b : buf) (s : istream) : istream :=
  mkIS b (data s) (cpindex s) (code_size s) (lbls s) (moffs s).
Definition set_data (b : buf) (s : istream) : istream :=
  mkIS (code s) b (cpindex s) (code_size s) (lbls s) (moffs s).
Definition set_cpindex (z : Z) (s : istream) : istream :=
  mkIS (code s) (data s) z (code_size s) (lbls s) (moffs s).
Definition set_code_size (z : Z) (s : istream) : istream :=
  mkIS (code s) (data s) (cpindex s) z (lbls s) (moffs s).
Definition set_lbls (l : list lblrec) (s : istream) : istream :=
  mkIS (code s) (data s) (cpindex s) (code_size s) l (moffs s).
Definition set_moffs (m : gmap nat Z) (s : istream) : istream :=
  mkIS (code s) (data s) (cpindex s) (code_size s) (lbls s) m.

(** ** Label records *)

(** [is_create_lblrec]: the name is copied with [strcpy] into 240 bytes. *)
Definition is_create_lblrec (offset : Z) (name : string) : res lblrec :=
  guardb (String.length name <? 240)%nat ≫= λ _,
  Ret (mkLbl (u16 offset) 0 None name).

(** [is_add_lblrec] appends: [is_lbr_get_prev_record(NULL)] is the last one. *)
Definition is_add_lblrec (rec : lblrec) (l : list lblrec) : list lblrec := l ++ [rec].

Definition is_push_lblrec (offset : Z) (name : string) (s : istream) : res istream :=
  rec ← is_create_lblrec offset name;
  Ret (set_lbls (is_add_lblrec rec (lbls s)) s).

(** [is_get_lblrec] walks the whole list and keeps the last match; the record
    is named by its position. *)
Fixpoint is_get_lblrec_from (offset : Z) (k : nat) (candidate : option nat)
    (l : list lblrec) : option nat :=
  match l with
  | [] => candidate
  | r :: l' =>
      is_get_lblrec_from offset (S k)
        (if lb_offset r =? offset then Some k else candidate) l'
  end.

Definition is_get_lblrec (offset : Z) (s : istream) : option nat :=
  is_get_lblrec_from (u16 offset) 0 None (lbls s).

(** [curlbl->refcount++] and [curlbl->offset = pc] *)
Definition lbl_incref (k : nat) (s : istream) : istream :=
  set_lbls (alter (λ r, mkLbl (lb_offset r) (u16 (lb_refcount r + 1)) (lb_tag r) (lb_name r))
              k (lbls s)) s.

Definition lbl_set_offset (k : nat) (pc : Z) (s : istream) : istream :=
  set_lbls (alter (λ r, mkLbl (u64 pc) (lb_refcount r) (lb_tag r) (lb_name r))
              k (lbls s)) s.

(** [is_clear_unused_lblrec] unlinks every record nobody counted. *)
Fixpoint clear_unused (l : list lblrec) : list lblrec :=
  match l with
  | [] => []
  | r :: l' => if lb_refcount r =? 0 then clear_unused l' else r :: clear_unused l'
  end.

Definition is_clear_unused_lblrec (s : istream) : istream :=
  set_lbls (clear_unused (lbls s)) s.

Definition is_clear_lblrec (s : istream) : istream := set_lbls [] s.

(** ** Initialisation and the constant pool *)
Definition is_init (s : istream) : istream := set_code_size 0 (set_cpindex 0 s).

(** The length header of a constant: one, two or three bytes. *)
Definition push_constant_header (size : Z) (d : buf) (cp : Z) : res (buf * Z) :=
  if size <? 128 then
    d1 ← wr8 d cp size; Ret (d1, cp + 1)
  else if size <? 256 then
    d1 ← wr8 d cp 0x81; d2 ← wr8 d1 (cp + 1) size; Ret (d2, cp + 2)
  else if size <? 65536 then
    d1 ← wr8 d cp 0x82; d2 ← wr8 d1 (cp + 1) (Z.shiftr size 8);
    d3 ← wr8 d2 (cp + 2) (Z.land size 0xFF); Ret (d3, cp + 3)
  else Ret (d, cp).

(** [memcpy(_istream_data_buffer + _cpindex, value, size)] from a caller's
    object [value]: it must hold [size] bytes. *)
Definition memcpy_in (d : buf) (cp : Z) (value : list Z) (size : Z) : res buf :=
  if size =? 0 then Ret d
  else
    guardb ((size <=? Z.of_nat (length value)) && in_buf cp && in_buf (cp + size - 1)) ≫= λ _,
    Ret (bstore d cp (take (Z.to_nat size) value)).

Definition is_push_constant (size : Z) (value : list Z) (s : istream) : res (istream * Z) :=
  let size := u16 size in
  let retval := u16 (cpindex s) in
  h ← push_constant_header size (data s) (cpindex s);
  d ← memcpy_in h.1 h.2 value size;
  Ret (set_cpindex (h.2 + size) (set_data d s), retval).

(** ** Emitting one instruction *)

(** The variadic argument of [is_gencode]: a symbol record (its [offset] and
    [name]), a number, or nothing. *)
Inductive genarg : Type :=
  | GRec (offset : Z) (name : string)
  | GNull
  | GNum (index : Z)
  | GNone.

(** [index = rec->offset]: a [uint16]; a NULL record is dereferenced. *)
Definition arg_index (a : genarg) : res Z :=
  match a with GRec offset _ => Ret (u16 offset) | _ => Undef end.

Definition arg_num (a : genarg) : res Z :=
  match a with GNum index => Ret (u16 index) | _ => Undef end.

(** opcode and one byte *)
Definition gen_byte (offset op arg : Z) (c : buf) : res (buf * Z) :=
  c1 ← wr8 c offset op; c2 ← wr8 c1 (offset + 1) arg; Ret (c2, 2).

(** opcode and a big-endian word *)
Definition gen_word (offset op index : Z) (c : buf) : res (buf * Z) :=
  c1 ← wr8 c offset op; c2 ← st16 c1 (offset + 1) index; Ret (c2, 3).

(** [INS_SYSCALLn]: the number in one byte, or 255 and two bytes *)
Definition gen_syscall (offset op index : Z) (c : buf) : res (buf * Z) :=
  c1 ← wr8 c offset op;
  if index <? 254 then
    c2 ← wr8 c1 (offset + 1) index; Ret (c2, 2)
  else
    c2 ← wr8 c1 (offset + 1) 255; c3 ← wr8 c2 (offset + 2) (index / 256);
    c4 ← wr8 c3 (offset + 3) index; Ret (c4, 4).

(** The switch of [is_gencode], but for [INS_LBL]: the new code buffer and
    [szinst]. *)
Definition gen_ins (offset op : Z) (a : genarg) (c : buf) : res (buf * Z) :=
  match classify op with
  | CPush | CPop | CStore => index ← arg_index a; gen_byte offset op index c
  | CPlain | CRet | CNop => c1 ← wr8 c offset op; Ret (c1, 1)
  | CSys => index ← arg_num a; gen_syscall offset op index c
  | CSctx | CRctx => index ← arg_num a; gen_byte offset op index c
  | CSwitch | CF2O | CF2On | CCall | CExt | CConst | CJmp | CJtrue | CJfalse | CNew =>
      index ← arg_index a; gen_word offset op index c
  | CLbl | CUnknown => Ret (c, 0)
  end.

Definition is_gencode (offset op : Z) (a : genarg) (s : istream) : res (istream * Z) :=
  s1 ← match classify op, a with
       | CLbl, GRec _ name => is_push_lblrec offset name s
       | CLbl, GNull => Ret s
       | CLbl, _ => Undef
       | _, _ => Ret s
       end;
  g ← gen_ins offset op a (code s1);
  let s2 := set_code g.1 s1 in
  Ret (if code_size s2 <? offset + g.2 then set_code_size (offset + g.2) s2 else s2, g.2).

(** [vm_fetch] of the stand-alone build: [size] bytes of the code buffer. *)
Definition vm_fetch (offset : Z) (size : nat) (s : istream) : res (list Z) :=
  guardb ((size =? 0)%nat || in_buf offset && in_buf (offset + Z.of_nat size - 1)) ≫= λ _,
  Ret (bslice (code s) offset size).

(** ** Well-formed streams *)
Record istream_wf (s : istream) : Prop := {
  wf_code : buf_ok (code s);
  wf_data : buf_ok (data s);
  wf_cpindex : 0 ≤ cpindex s
}.

Definition empty_istream : istream := mkIS ∅ ∅ 0 0 [] ∅.

Lemma empty_istream_wf : istream_wf empty_istream.
Proof. split; [apply buf_ok_empty..|done]. Qed.

Lemma gen_ins_wf off op a c g : buf_ok c → gen_ins off op a c = Ret g → buf_ok g.1.
Proof.
  unfold gen_ins, gen_byte, gen_word, gen_syscall. intros Hc H.
  destruct (classify op); repeat first [res_inv H | case_match; try done];
    simplify_eq/=; eauto with orb.
Qed.

Lemma push_constant_header_wf size d cp h :
  buf_ok d → push_constant_header size d cp = Ret h → buf_ok h.1 ∧ cp ≤ h.2.
Proof.
  unfold push_constant_header. intros Hd H.
  repeat first [case_match; try done | res_inv H]; simplify_eq/=; split; eauto with orb; lia.
Qed.

Lemma push_wf s :
  istream_wf s →
  (∀ size value s' r, is_push_constant size value s = Ret (s', r) → istream_wf s' ∧ is_u16 r).
Proof.
  intros [Hc Hd Hcp]. unfold is_push_constant. intros size value s' r H. res_inv H.
  apply push_constant_header_wf in E as [Hh Hle]; [|done]. res_inv H. simplify_eq.
  split; [|by auto with orb]. pose proof (u16_range size). unfold is_u16 in *.
  split; cbn; [done| |lia].
  unfold memcpy_in, guardb in E. repeat (case_match; try done); simplify_eq/=; auto with orb.
Qed.

Lemma gencode_wf s :
  istream_wf s → ∀ offset op a s' r, is_gencode offset op a s = Ret (s', r) → istream_wf s'.
Proof.
  intros [Hc Hd Hcp]. unfold is_gencode. intros off op a s' r H. res_inv H. rename a0 into s1.
  assert (istream_wf s1) as [Hc1 Hd1 Hcp1].
  { destruct (classify op), a; simplify_eq; try by split.
    unfold is_push_lblrec in E. res_inv E. simplify_eq. by split. }
  res_inv H. apply gen_ins_wf in E0; [|done].
  simplify_eq/=. destruct (_ <? _); by split; cbn.
Qed.

(** The streamer keeps its state well-formed. Whatever the compiler asks
    for, as long as the call returns, the code and constant buffers hold bytes
    and the pool index is not negative after [is_push_constant] and
    [is_gencode]. *)
Theorem streamer_wf s :
  istream_wf s →
  (∀ size value s' r, is_push_constant size value s = Ret (s', r) → istream_wf s' ∧ is_u16 r) ∧
  (∀ offset op a s' r, is_gencode offset op a s = Ret (s', r) → istream_wf s').
Proof. intros H. split; [by apply push_wf | by apply gencode_wf]. Qed.

Lemma streamer_wf_witness :
  istream_wf empty_istream ∧
  (∀ size value s' r,
     is_push_constant size value empty_istream = Ret (s', r) → istream_wf s' ∧ is_u16 r) ∧
  (∀ offset op a s' r, is_gencode offset op a empty_istream = Ret (s', r) → istream_wf s').
Proof. split; [exact empty_istream_wf|]. exact (streamer_wf empty_istream empty_istream_wf). Defined.

(** ** Correctness of emission *)

(** The argument the compiler passes for an instruction. *)
Definition ctx_class (c : opclass) : bool :=
  match c with CSctx | CRctx => true | _ => false end.

Inductive arg_ok : instr → genarg → Prop :=
  | arg_ok1 op a : arg_ok (I1 op) a
  | arg_ok2_num op x : ctx_class (classify op) = true → arg_ok (I2 op x) (GNum x)
  | arg_ok2_rec op x name : ctx_class (classify op) = false → arg_ok (I2 op x) (GRec x name)
  | arg_okS n api : arg_ok (ISys n api) (GNum api)
  | arg_ok3 op w name : arg_ok (I3 op w) (GRec w name).

(** [c'] is [c] with [l] at [off] and nothing else changed. *)
Definition patched (c c' : buf) (off : Z) (l : list Z) : Prop :=
  region c' off l ∧
  ∀ j, j < off ∨ off + Z.of_nat (length l) ≤ j → bget c' j = bget c j.

Lemma patched_region c c' off l i r :
  patched c c' off l → region c i r →
  i + Z.of_nat (length r) ≤ off ∨ off + Z.of_nat (length l) ≤ i → region c' i r.
Proof. intros [_ Hp] Hr Ho. eapply region_agree; [done|]. intros j Hj. apply Hp. lia. Qed.

Lemma gen_byte_ok off op a c :
  0 ≤ off → off + 2 ≤ MAX_BUFFER_SIZE → is_byte op → is_byte a →
  ∃ c', gen_byte off op a c = Ret (c', 2) ∧ patched c c' off [op; a].
Proof.
  intros H0 Hm Ho Ha. unfold gen_byte. wr. eexists. split; [done|].
  split; [region_solve | cbn; intros; bsolve].
Qed.

Lemma gen_word_ok off op w c :
  0 ≤ off → off + 3 ≤ MAX_BUFFER_SIZE → is_byte op → is_u16 w →
  ∃ c', gen_word off op w c = Ret (c', 3) ∧ patched c c' off [op; w / 256; w mod 256].
Proof.
  intros H0 Hm Ho Hw. unfold gen_word. wr. eexists. split; [done|].
  pose proof (u16_hi_byte w Hw). pose proof (mod256_byte w).
  split; [region_solve; by apply Z.mod_small | cbn; intros; bsolve].
Qed.

Lemma gen_syscall_ok off n api c :
  0 ≤ off → off + isize (ISys n api) ≤ MAX_BUFFER_SIZE → 0 ≤ n < 16 → is_u16 api →
  ∃ c', gen_syscall off (INS_SYSCALL0 + n) api c = Ret (c', isize (ISys n api)) ∧
        patched c c' off (encode (ISys n api)).
Proof.
  intros H0 Hm Hn Ha. unfold gen_syscall, isize in *. cbn [encode] in *.
  pose proof (u16_hi_byte api Ha). pose proof (mod256_byte api).
  assert (is_byte (INS_SYSCALL0 + n)) by (unfold is_byte, INS_SYSCALL0; lia).
  destruct (Z.ltb_spec api 254); cbn [length] in *; wr; eexists; (split; [done|]).
  - assert (is_byte api) by (unfold is_byte, is_u16 in *; lia).
    split; [region_solve | cbn; intros; bsolve].
  - assert (is_byte 255) by (unfold is_byte; lia).
    split; [region_solve | cbn; intros; bsolve].
Qed.

Lemma gen_ins_ok off i a c :
  instr_wf i = true → arg_ok i a → 0 ≤ off → off + isize i ≤ MAX_BUFFER_SIZE →
  ∃ c', gen_ins off (opcode_of i) a c = Ret (c', isize i) ∧ patched c c' off (encode i).
Proof.
  intros Hwf Ha H0 Hm. unfold gen_ins.
  destruct (instr_wf_view i Hwf) as [op Hb Hc|op x Hb Hc Hx|n api Hn Hapi Hc|op w Hb Hc Hw];
    cbn [opcode_of] in *.
  - unfold isize in Hm. cbn in Hm.
    assert (Hg : ∃ c', wr8 c off op = Ret c' ∧ patched c c' off [op]).
    { wr. eexists. split; [done|]. split; [region_solve | cbn; intros; bsolve]. }
    destruct Hg as (c' & Hg & Hp). exists c'. rewrite Hg.
    by destruct (classify op).
  - unfold isize in Hm. cbn in Hm.
    destruct (gen_byte_ok off op x c) as (c' & Hg & Hp); try done; try lia.
    exists c'. assert (Hu : u16 x = x) by (apply u16_id; unfold is_byte, is_u16 in *; lia).
    inversion Ha as [|? ? Hk|? ? ? Hk| |]; subst;
      destruct (classify op); try discriminate; res_cbn; cbn [arg_index arg_num]; res_cbn;
      by rewrite Hu.
  - inversion Ha; subst. rewrite Hc. cbn [arg_num]. res_cbn. rewrite u16_id by done.
    by apply gen_syscall_ok.
  - unfold isize in Hm. cbn in Hm.
    destruct (gen_word_ok off op w c) as (c' & Hg & Hp); try done; try lia.
    exists c'. inversion Ha; subst. destruct (classify op); try done; cbn [arg_index]; res_cbn;
      by rewrite u16_id.
Qed.

Lemma class_not_label i : instr_wf i = true → class_of i ≠ CLbl.
Proof.
  intros H. unfold class_of.
  destruct (instr_wf_view i H) as [? ? Hc|? ? ? Hc ?|? ? ? ? Hc|? ? ? Hc ?]; cbn;
    try rewrite Hc; try done; destruct (classify op); done.
Qed.

(** The state [is_gencode] leaves: a new code buffer, [_istream_code_size]
    raised to cover it. *)
Definition gen_state (c : buf) (end_off : Z) (s : istream) : istream :=
  set_code_size (Z.max (code_size s) end_off) (set_code c s).

Lemma gencode_instr s off i a :
  instr_wf i = true → arg_ok i a → 0 ≤ off → off + isize i ≤ MAX_BUFFER_SIZE →
  ∃ c', is_gencode off (opcode_of i) a s = Ret (gen_state c' (off + isize i) s, isize i) ∧
        patched (code s) c' off (encode i).
Proof.
  intros Hwf Ha H0 Hm. pose proof (class_not_label i Hwf) as Hl. unfold class_of in Hl.
  destruct (gen_ins_ok off i a (code s) Hwf Ha H0 Hm) as (c' & Hg & Hp).
  exists c'. split; [|done]. unfold is_gencode.
  replace (match classify (opcode_of i), a with
           | CLbl, GRec _ name => is_push_lblrec off name s
           | CLbl, GNull => Ret s | CLbl, _ => Undef | _, _ => Ret s end)
    with (Ret s) by (by destruct (classify (opcode_of i))).
  res_cbn. rewrite Hg. res_cbn. f_equal. f_equal. unfold gen_state. cbn.
  destruct (Z.ltb_spec (code_size s) (off + isize i)).
  - by rewrite Z.max_r by lia.
  - rewrite Z.max_l by lia. by destruct s.
Qed.

(** A compiler pass that emits instructions one after the other, as
    sem_proto.c does with [_current_offset += is_gencode(_current_offset, ...)]. *)
Fixpoint emit (off : Z) (p : list (instr * genarg)) (s : istream) : res (istream * Z) :=
  match p with
  | [] => Ret (s, off)
  | (i, a) :: p' =>
      g ← is_gencode off (opcode_of i) a s;
      emit (off + g.2) p' g.1
  end.

Definition emit_ok (p : list (instr * genarg)) : Prop :=
  Forall (λ x, instr_wf x.1 = true ∧ arg_ok x.1 x.2) p.

Lemma emit_wf p : emit_ok p → prog_wf p.*1.
Proof.
  induction 1 as [|x p [H _] _ IH]; cbn; [by apply Forall_nil|]. by apply prog_wf_cons.
Qed.

Lemma patched_app c c1 c2 off l1 l2 :
  patched c c1 off l1 → patched c1 c2 (off + Z.of_nat (length l1)) l2 →
  patched c c2 off (l1 ++ l2).
Proof.
  intros [Hr1 Ho1] [Hr2 Ho2]. split.
  - apply region_app. split; [|done]. eapply region_agree; [done|].
    intros j Hj. apply Ho2. lia.
  - rewrite length_app. intros j Hj. rewrite Ho2, Ho1 by lia. done.
Qed.

Lemma emit_spec p off s :
  emit_ok p → 0 ≤ off → off + psize p.*1 ≤ MAX_BUFFER_SIZE →
  ∃ s', emit off p s = Ret (s', off + psize p.*1) ∧
        patched (code s) (code s') off (encode_prog p.*1) ∧
        code_size s' = (if decide (p = []) then code_size s
                        else Z.max (code_size s) (off + psize p.*1)) ∧
        data s' = data s ∧ cpindex s' = cpindex s ∧ lbls s' = lbls s ∧ moffs s' = moffs s.
Proof.
  intros Hp. revert off s. induction Hp as [|[i a] p [Hwf Ha] Hp IH]; intros off s H0 Hm.
  { exists s. cbn. rewrite psize_nil, Z.add_0_r. repeat split; done. }
  cbn [fmap list_fmap fst] in Hm |- *. rewrite psize_cons in Hm |- *.
  pose proof (isize_pos i). pose proof (psize_nonneg p.*1).
  destruct (gencode_instr s off i a) as (c1 & Hg & Hp1); try done; try lia.
  cbn [emit]. cbn [fst snd] in *. rewrite Hg. res_cbn.
  destruct (IH (off + isize i) (gen_state c1 (off + isize i) s)) as (s2 & He & Hp2 & Hs & Hf);
    [lia..|].
  exists s2. rewrite He. split; [f_equal; f_equal; lia|]. split.
  { rewrite encode_prog_cons. by eapply patched_app. }
  split; [|exact Hf]. rewrite Hs. cbn. repeat case_decide; subst; try done; try lia.
  cbn. rewrite psize_nil. lia.
Qed.

(** Emitting a program instruction by instruction writes exactly its
    encoding: the bytes decode back to the same instructions, the returned
    offset is the program size, the code size covers it, and neither the
    constant pool nor the labels move. *)
Theorem emit_roundtrip p s :
  emit_ok p → psize p.*1 ≤ MAX_BUFFER_SIZE →
  ∃ s', emit 0 p s = Ret (s', psize p.*1) ∧
        region (code s') 0 (encode_prog p.*1) ∧
        decode_prog (length p) (bslice (code s') 0 (Z.to_nat (psize p.*1))) = Some p.*1 ∧
        psize p.*1 ≤ Z.max 0 (code_size s') ∧
        (∀ j, psize p.*1 ≤ j → bget (code s') j = bget (code s) j) ∧
        data s' = data s ∧ cpindex s' = cpindex s ∧ lbls s' = lbls s.
Proof.
  intros Hp Hm. destruct (emit_spec p 0 s) as (s' & He & [Hr Ho] & Hs & Hd & Hc & Hl & _);
    [done|lia|lia|].
  exists s'. rewrite Z.add_0_l in *. split; [done|]. split; [done|]. split.
  { unfold psize at 1. rewrite Nat2Z.id, region_to_bslice by done.
    apply decode_prog_encode; [by apply emit_wf | by rewrite length_fmap]. }
  split; [rewrite Hs; case_decide; subst; cbn; rewrite ?psize_nil; lia|].
  split; [|done]. intros j Hj. apply Ho. unfold psize in Hj. lia.
Qed.

Definition demo_code : list (instr * genarg) :=
  [(I2 INS_SCTX 1, GNum 1); (I3 INS_OBJCONST 0, GRec 0 "c"); (I2 INS_OBJPOP 0, GRec 0 "x");
   (ISys 1 300, GNum 300); (I1 INS_RET, GNone)].

Lemma demo_code_ok : emit_ok demo_code.
Proof.
  repeat (apply Forall_cons; split); try apply Forall_nil; try exact I;
    (split; [reflexivity|]); cbn [fst snd];
    solve [by apply arg_ok1 | by apply arg_ok2_num | by apply arg_ok2_rec | by apply arg_okS
          | by apply arg_ok3].
Qed.

Lemma emit_roundtrip_witness :
  emit_ok demo_code ∧ psize demo_code.*1 ≤ MAX_BUFFER_SIZE ∧
  ∃ s', emit 0 demo_code empty_istream = Ret (s', psize demo_code.*1) ∧
        region (code s') 0 (encode_prog demo_code.*1) ∧
        decode_prog (length demo_code)
          (bslice (code s') 0 (Z.to_nat (psize demo_code.*1))) = Some demo_code.*1 ∧
        psize demo_code.*1 ≤ Z.max 0 (code_size s') ∧
        (∀ j, psize demo_code.*1 ≤ j → bget (code s') j = bget (code empty_istream) j) ∧
        data s' = data empty_istream ∧ cpindex s' = cpindex empty_istream ∧
        lbls s' = lbls empty_istream.
Proof.
  split; [exact demo_code_ok|]. split; [by vm_compute|].
  apply (emit_roundtrip demo_code empty_istream); [exact demo_code_ok|by vm_compute].
Defined.

(** Backpatching. Emitting again at the offset of an emitted instruction,
    with an instruction of the same size, replaces that instruction and
    nothing else, and leaves the code size alone. *)
Theorem gencode_backpatch s p i i' a q :
  prog_wf p → instr_wf i' = true → arg_ok i' a → isize i' = isize i →
  region (code s) 0 (encode_prog (p ++ i :: q)) →
  psize (p ++ i :: q) ≤ code_size s → code_size s ≤ MAX_BUFFER_SIZE →
  ∃ c', is_gencode (psize p) (opcode_of i') a s = Ret (set_code c' s, isize i) ∧
        region c' 0 (encode_prog (p ++ i' :: q)) ∧
        ∀ j, psize (p ++ i :: q) ≤ j → bget c' j = bget (code s) j.
Proof.
  intros Hp Hi' Ha Hsz Hr Hs Hm. rewrite psize_app, psize_cons in Hs.
  pose proof (psize_nonneg q). pose proof (psize_nonneg p). pose proof (isize_pos i).
  destruct (gencode_instr s (psize p) i' a) as (c' & Hg & Hpt); try done; [lia|].
  exists c'. split; [|split].
  - rewrite Hg, Hsz. f_equal. f_equal. unfold gen_state. rewrite Z.max_l by lia. by destruct s.
  - rewrite encode_prog_app, encode_prog_cons in *.
    apply region_app in Hr as [Hr1 Hr2]. apply region_app in Hr2 as [Hr2 Hr3].
    rewrite Z.add_0_l, length_psize in *. apply region_app. split; [|apply region_app; split].
    + eapply patched_region; [done..|]. rewrite Z.add_0_l, length_psize. lia.
    + rewrite Z.add_0_l, length_psize. apply Hpt.
    + rewrite Z.add_0_l, length_psize. unfold isize in *.
      rewrite Hsz. eapply patched_region; [done..|]. lia.
  - intros j Hj. apply Hpt. rewrite psize_app, psize_cons in Hj. unfold isize in *. lia.
Qed.

Definition patch_stream : istream :=
  mkIS (bstore ∅ 0 (encode_prog [I3 INS_JMP 0; I1 INS_RET])) ∅ 0 4 [] ∅.

Lemma gencode_backpatch_witness :
  ∃ c', is_gencode (psize []) (opcode_of (I3 INS_JMP 3)) (GRec 3 "l1") patch_stream =
          Ret (set_code c' patch_stream, isize (I3 INS_JMP 0)) ∧
        region c' 0 (encode_prog ([] ++ I3 INS_JMP 3 :: [I1 INS_RET])) ∧
        ∀ j, psize ([] ++ I3 INS_JMP 0 :: [I1 INS_RET]) ≤ j →
             bget c' j = bget (code patch_stream) j.
Proof.
  apply (gencode_backpatch patch_stream [] (I3 INS_JMP 0) (I3 INS_JMP 3) (GRec 3 "l1") [I1 INS_RET]).
  - apply Forall_nil. exact I.
  - reflexivity.
  - apply arg_ok3.
  - reflexivity.
  - apply region_bstore. by repeat (apply Forall_cons; split); try apply Forall_nil.
  - by vm_compute.
  - by vm_compute.
Defined.
