(* ===== verification/Linker.v ===== *)
(** * The IL linker (StackLib/Stack/il_streamer.c, [is_link_code])

    The pass that turns the emitted code and the constant pool into the image
    of a package: operands become relative to the program counter, the pool is
    copied behind the code, jump tables are rebased and the offsets of the
    methods are recorded. The virtual machine's side of the contract,
    [vm_load_constant] and the 16-bit jump arithmetic of [vm_decode]
    (StackLib/StackVM/vm_stack.c), is here too, so that the linker can be shown
    to put what the machine reads where the machine looks for it. *)
From S2P Require Import Prelude Isa Streamer.

(** ** Jump tables *)

(** The table is [size; default; (constant, target)*], every entry a
    big-endian word. [i] starts behind the default entry. *)
Definition jumptable_entry (pc jt_offset offset2add i : Z) (d : buf) : res buf :=
  index ← ld16 d (jt_offset + i);
  d1 ← st16 d (jt_offset + i) (u64 (u64 (index + offset2add) - pc));
  index ← ld16 d1 (jt_offset + i + 2);
  st16 d1 (jt_offset + i + 2) (u64 (index - pc)).

Definition jumptable_step (pc jt_offset offset2add cp_size : Z) (st : Z * buf)
    : res ((Z * buf) + (Z * buf)) :=
  let i := st.1 in
  if i <? cp_size then
    d ← jumptable_entry pc jt_offset offset2add i st.2; Ret (inl (i + 4, d))
  else Ret (inr (i, st.2)).

(** A table has at most 255 bytes: 64 iterations. *)
Definition is_jumptable_reloc (pc jt_offset offset2add : Z) (d : buf) : res (buf * Z) :=
  cp_size ← rd8 d jt_offset;
  let jt_offset := jt_offset + 1 in
  index ← ld16 d jt_offset;
  d1 ← st16 d jt_offset (u64 (index - pc));
  r ← loop 65 (jumptable_step pc jt_offset offset2add cp_size) (2, d1);
  Ret (r.2, r.1).

(** ** Linking *)

(** [curlbl = is_get_lblrec(pc)] and the update of the package method record *)
Definition link_label (pc : Z) (s : istream) : istream :=
  match is_get_lblrec pc s with
  | Some k =>
      match lbls s !! k with
      | Some r =>
          match lb_tag r with
          | Some t => set_moffs (<[t := pc]> (moffs s)) s
          | None => s
          end
      | None => s
      end
  | None => s
  end.

(** [index = operand; index += add; operand = index - pc], [index] a [uint16] *)
Definition link_operand (pc add : Z) (s : istream) : res istream :=
  w ← ld16 (code s) (pc + 1);
  let index := u16 (w + add) in
  c ← st16 (code s) (pc + 1) (u64 (index - pc));
  Ret (set_code c s).

Definition link_step (size : Z) (st : Z * istream) : res ((Z * istream) + (Z * istream)) :=
  let pc := st.1 in
  if pc =? size then Ret (inr st)
  else
    opcode ← rd8 (code st.2) pc;
    let s := link_label pc st.2 in
    match classify opcode with
    | CLbl => n ← rd8 (code s) (pc + 1); Ret (inl (pc + n + 2, s))
    | CPush | CPop => _ ← rd8 (code s) (pc + 1); Ret (inl (pc + 2, s))
    | CF2O | CF2On => _ ← ld16 (code s) (pc + 1); Ret (inl (pc + 3, s))
    | CCall | CJmp | CJfalse | CJtrue =>
        s1 ← link_operand pc 0 s; Ret (inl (pc + 3, s1))
    | CSwitch =>
        w ← ld16 (code s) (pc + 1);
        d ← is_jumptable_reloc pc w size (data s);
        s1 ← link_operand pc size (set_data d.1 s);
        Ret (inl (pc + 3, s1))
    | CNew | CExt | CConst =>
        s1 ← link_operand pc size s; Ret (inl (pc + 3, s1))
    | CPlain | CRet | CNop => Ret (inl (pc + 1, s))
    | CSys =>
        n ← rd8 (code s) (pc + 1);
        if n <? 254 then Ret (inl (pc + 2, s))
        else _ ← rd8 (code s) (pc + 2); _ ← rd8 (code s) (pc + 3); Ret (inl (pc + 4, s))
    | CSctx | CRctx | CStore => _ ← rd8 (code s) (pc + 1); Ret (inl (pc + 2, s))
    | CUnknown => Ret (inl (pc + 1, s))
    end.

(** The body moves [pc] up and cannot leave the 65536 bytes of the buffer. *)
Definition LINK_FUEL : nat := Z.to_nat 65538.

Definition is_link_code (size : Z) (s : istream) : res (istream * Z) :=
  r ← loop LINK_FUEL (link_step size) (0, s);
  let pc := r.1 in
  c ← memcpy_buf (code r.2) (data r.2) pc 0 (cpindex r.2);
  let s1 := set_code c r.2 in
  Ret (is_clear_lblrec (set_cpindex 0 s1), pc + cpindex r.2).

(** ** The reader's side, in the virtual machine *)
Definition VA_OBJECT_MAX_SIZE : Z := 0x1000.

(** The length header: the length and [llen]; [llen] is read uninitialised when
    the first byte is none of the three forms. *)
Definition load_constant_header (lbuf : list Z) : res (Z * Z) :=
  match lbuf with
  | [b0; b1; b2; _] =>
      if b0 <? 128 then Ret (b0, 1)
      else if Z.land b0 0x0F =? 1 then Ret (b1, 2)
      else if Z.land b0 0x0F =? 2 then Ret (u16 (Z.lor (Z.shiftl b1 8) b2), 3)
      else Undef
  | _ => Undef
  end.

(** [vm_load_constant]: the bytes of the object it creates, [None] when it
    raises VX_OUT_OF_BOUNDS. *)
Definition vm_load_constant (offset : Z) (s : istream) : res (option (list Z)) :=
  lbuf ← vm_fetch offset 4 s;
  h ← load_constant_header lbuf;
  if VA_OBJECT_MAX_SIZE <? h.1 then Ret None
  else Some <$> vm_fetch (offset + h.2) (Z.to_nat h.1) s.

(** [vm_set_pc(index + vm_get_pc())]: [pc] is a [uint16]. *)
Definition vm_jump_target (index pc : Z) : Z := u16 (index + pc).

(** ** Reference: relocation of abstract programs *)
Definition jumps (c : opclass) : bool :=
  match c with CCall | CJmp | CJfalse | CJtrue => true | _ => false end.
Definition pool_ref (c : opclass) : bool :=
  match c with CSwitch | CNew | CExt | CConst => true | _ => false end.

Definition reloc_instr (size pc : Z) (i : instr) : instr :=
  match i with
  | I3 op w =>
      if jumps (classify op) then I3 op (u16 (w - pc))
      else if pool_ref (classify op) then I3 op (u16 (w + size - pc))
      else i
  | _ => i
  end.

Fixpoint reloc_prog (size pc : Z) (p : list instr) : list instr :=
  match p with
  | [] => []
  | i :: p' => reloc_instr size pc i :: reloc_prog size (pc + isize i) p'
  end.

(** The constant pool after the jump tables of the program are rebased. *)
Definition reloc_table (size pc : Z) (i : instr) (d : buf) : res buf :=
  match i with
  | I3 op w => if decide (classify op = CSwitch)
               then fst <$> is_jumptable_reloc pc w size d else Ret d
  | _ => Ret d
  end.

Fixpoint reloc_pool (size pc : Z) (p : list instr) (d : buf) : res buf :=
  match p with
  | [] => Ret d
  | i :: p' => d1 ← reloc_table size pc i d; reloc_pool size (pc + isize i) p' d1
  end.

(** The method offsets: the last label of an instruction names its method. *)
Fixpoint method_offsets (l : list lblrec) (pc : Z) (p : list instr) (m : gmap nat Z)
    : gmap nat Z :=
  match p with
  | [] => m
  | i :: p' =>
      let m1 := match is_get_lblrec_from (u16 pc) 0 None l ≫= λ k, l !! k ≫= lb_tag with
                | Some t => <[t := pc]> m
                | None => m
                end in
      method_offsets l (pc + isize i) p' m1
  end.

(** ** Operands *)
Lemma link_operand_instr s pc add op w :
  instr_wf (I3 op w) = true → region (code s) pc (encode (I3 op w)) →
  0 ≤ pc → pc + 3 ≤ MAX_BUFFER_SIZE →
  ∃ c', link_operand pc add s = Ret (set_code c' s) ∧
        patched (code s) c' pc (encode (I3 op (u16 (w + add - pc)))).
Proof.
  intros Hwf Hr H0 Hm. unfold link_operand.
  rewrite (fetch_word _ _ _ Hwf Hr H0 Hm op w eq_refl). res_cbn.
  rewrite st16_u64, u16_sub_l.
  destruct (store_word _ _ _ Hwf Hr H0 Hm op w (u16 (w + add - pc)) eq_refl (u16_range _))
    as [-> Hs]. res_cbn.
  eexists. split; [done|]. split; [done|]. cbn [encode length]. intros. bsolve.
Qed.

(** ** Relocated instructions *)
Lemma reloc_instr_encode_length size pc i :
  length (encode (reloc_instr size pc i)) = length (encode i).
Proof. destruct i; cbn; try done. by destruct (jumps (classify op)), (pool_ref (classify op)). Qed.

Lemma reloc_instr_isize size pc i : isize (reloc_instr size pc i) = isize i.
Proof. unfold isize. by rewrite reloc_instr_encode_length. Qed.

Lemma reloc_instr_wf size pc i : instr_wf i = true → instr_wf (reloc_instr size pc i) = true.
Proof.
  destruct i as [| | |op w]; cbn [reloc_instr]; try done. intros H.
  destruct (jumps (classify op)); [|destruct (pool_ref (classify op)); [|done]]; cbn [instr_wf] in *;
    rewrite andb_true_iff, u16b_true in *; (split; [tauto|apply u16_range]).
Qed.

Lemma reloc_prog_psize size pc p : psize (reloc_prog size pc p) = psize p.
Proof.
  revert pc. induction p as [|i p IH]; intros pc; [done|].
  cbn [reloc_prog]. by rewrite !psize_cons, reloc_instr_isize, IH.
Qed.

Lemma reloc_prog_wf size pc p : prog_wf p → prog_wf (reloc_prog size pc p).
Proof.
  intros H. revert pc. induction H as [|i p Hi Hp IH]; intros pc; cbn; [by apply Forall_nil|].
  apply prog_wf_cons. split; [by apply reloc_instr_wf | apply IH].
Qed.

Lemma reloc_prog_app size pc p q :
  reloc_prog size pc (p ++ q) = reloc_prog size pc p ++ reloc_prog size (pc + psize p) q.
Proof.
  revert pc. induction p as [|i p IH]; intros pc; cbn [app reloc_prog].
  - by rewrite psize_nil, Z.add_0_r.
  - rewrite IH, psize_cons. by rewrite Z.add_assoc.
Qed.

(** ** One iteration *)
Lemma link_label_fields pc s :
  code (link_label pc s) = code s ∧ data (link_label pc s) = data s ∧
  cpindex (link_label pc s) = cpindex s ∧ code_size (link_label pc s) = code_size s ∧
  lbls (link_label pc s) = lbls s.
Proof.
  unfold link_label. destruct (is_get_lblrec pc s); [|done].
  destruct (lbls s !! n); [|done]. by destruct (lb_tag l).
Qed.

Lemma patched_refl c off l : region c off l → patched c c off l.
Proof. by split. Qed.

Lemma set_data_same d s : data s = d → set_data d s = s.
Proof. intros <-. by destruct s. Qed.

Lemma set_code_same c s : code s = c → set_code c s = s.
Proof. intros <-. by destruct s. Qed.

(** The class of an instruction settles the branch [link_step] takes. *)
Section step.
Context (size pc : Z) (s : istream) (i : instr) (d : buf).
Context (Hwf : instr_wf i = true) (Hr : region (code s) pc (encode i)) (H0 : 0 ≤ pc).
Context (Hsz : pc + isize i ≤ size) (Hm : size ≤ MAX_BUFFER_SIZE).
Context (Ht : reloc_table size pc i (data s) = Ret d).

Let step_goal : Prop :=
  ∃ c', link_step size (pc, s) =
          Ret (inl (pc + isize i, set_code c' (set_data d (link_label pc s)))) ∧
        patched (code s) c' pc (encode (reloc_instr size pc i)).

Lemma link_step_plain : class3 (class_of i) = false → step_goal.
Proof using Hwf Hr H0 Hsz Hm Ht.
  intros Hcl. pose proof (isize_pos i) as Hp. unfold step_goal.
  assert (Hm' : pc + isize i ≤ MAX_BUFFER_SIZE) by lia.
  destruct (link_label_fields pc s) as (Hc & Hd & _).
  assert (Hd' : d = data s) by (destruct i; cbn in Ht; try congruence;
    case_decide as E; [|congruence]; unfold class_of in Hcl; cbn in Hcl; by rewrite E in Hcl).
  exists (code s). rewrite set_data_same, set_code_same by congruence.
  assert (Hi : reloc_instr size pc i = i).
  { destruct i as [| | |op w]; try done. unfold class_of in Hcl. cbn in Hcl |- *.
    by destruct (classify op). }
  split; [|rewrite Hi; by apply patched_refl].
  unfold link_step. cbn [fst snd]. rewrite (proj2 (Z.eqb_neq pc size)) by lia.
  rewrite (fetch_opcode _ _ _ Hr H0 Hm'). res_cbn. rewrite Hc.
  destruct (instr_wf_view i Hwf) as [op Hb Hk|op a Hb Hk Ha|n api Hn Hapi Hk|op w Hb Hk Hw];
    cbn [opcode_of] in *.
  - by destruct (classify op).
  - rewrite (fetch_arg _ _ _ Hwf Hr H0 Hm' op a eq_refl). by destruct (classify op).
  - rewrite Hk, (fetch_sys _ _ _ Hwf Hr H0 Hm' n api eq_refl). res_cbn.
    unfold isize in *. cbn [encode] in *. destruct (api <? 254) eqn:E; cbn [length] in *.
    + by rewrite E.
    + change (255 <? 254) with false. cbn iota. by rewrite !rd8_in by lia.
  - unfold class_of in Hcl. cbn in Hcl. congruence.
Qed.

Lemma link_step_word : class3 (class_of i) = true → step_goal.
Proof using Hwf Hr H0 Hsz Hm Ht.
  intros Hcl. pose proof (isize_pos i) as Hp. unfold step_goal, link_step. cbn [fst snd].
  assert (Hm' : pc + isize i ≤ MAX_BUFFER_SIZE) by lia.
  rewrite (proj2 (Z.eqb_neq pc size)) by lia.
  rewrite (fetch_opcode _ _ _ Hr H0 Hm'). res_cbn.
  destruct (link_label_fields pc s) as (Hc & Hd & _). set (s1 := link_label pc s) in *.
  rewrite <- Hc in Hr |- *.
  destruct (instr_wf_view i Hwf) as [op Hb Hk|op a Hb Hk Ha|n api Hn Hapi Hk|op w Hb Hk Hw];
    unfold class_of in Hcl; cbn [opcode_of reloc_table reloc_instr] in *;
    try (by destruct (classify op)); [by rewrite Hk in Hcl|].
  unfold isize in Hm', Hsz |- *. cbn [encode length] in Hm', Hsz |- *.
  pose proof (fetch_word _ _ _ Hwf Hr H0 Hm' op w eq_refl) as Hf.
  destruct (link_operand_instr s1 pc 0 op w) as (c0 & Hl0 & Hp0); try done.
  destruct (link_operand_instr (set_data d s1) pc size op w) as (c1 & Hl1 & Hp1); try done.
  rewrite Z.add_0_r in Hp0.
  case_decide as Esw.
  { destruct (is_jumptable_reloc pc w size (data s)) as [dd| |] eqn:Ej; simplify_eq/=.
    exists c1. rewrite Esw, Hf. res_cbn. rewrite Hd, Ej. res_cbn. rewrite Hl1. res_cbn.
    split; [done|]. exact Hp1. }
  simplify_eq. rewrite set_data_same in Hl1 |- * by done.
  destruct (classify op) eqn:Ek; try done; cbn [jumps pool_ref]; rewrite ?Hf, ?Hl0, ?Hl1; res_cbn;
    first [by exists c0 | by exists c1
          | exists (code s1); rewrite set_code_same by done; split; [done|by apply patched_refl]].
Qed.

Lemma link_step_instr : step_goal.
Proof using Hwf Hr H0 Hsz Hm Ht.
  destruct (class3 (class_of i)) eqn:E; [by apply link_step_word | by apply link_step_plain].
Qed.
End step.

(** ** The whole code *)
Lemma link_label_moffs pc s :
  moffs (link_label pc s) =
    match is_get_lblrec_from (u16 pc) 0 None (lbls s) ≫= λ k, lbls s !! k ≫= lb_tag with
    | Some t => <[t := pc]> (moffs s)
    | None => moffs s
    end.
Proof.
  unfold link_label, is_get_lblrec. destruct (is_get_lblrec_from _ _ _ _) as [k|]; [|done].
  cbn. destruct (lbls s !! k) as [r|]; [|done]. cbn. by destruct (lb_tag r).
Qed.

Lemma link_iters size p pc s d :
  prog_wf p → region (code s) pc (encode_prog p) → 0 ≤ pc → pc + psize p ≤ size →
  size ≤ MAX_BUFFER_SIZE → reloc_pool size pc p (data s) = Ret d →
  ∃ s', iters (link_step size) (length p) (pc, s) (pc + psize p, s') ∧
        patched (code s) (code s') pc (encode_prog (reloc_prog size pc p)) ∧
        data s' = d ∧ cpindex s' = cpindex s ∧ lbls s' = lbls s ∧
        moffs s' = method_offsets (lbls s) pc p (moffs s).
Proof.
  intros Hp. revert pc s. induction Hp as [|i p Hi Hp IH]; intros pc s Hr H0 Hsz Hm Ht.
  { simplify_eq/=. exists s. rewrite psize_nil, Z.add_0_r.
    split; [constructor|]. split; [|done]. apply patched_refl, region_nil. }
  rewrite psize_cons in *. rewrite encode_prog_cons in Hr.
  apply region_app in Hr as [Hr1 Hr2]. cbn [reloc_pool] in Ht.
  destruct (reloc_table size pc i (data s)) as [d1| |] eqn:E; try done. res_simpl.
  pose proof (isize_pos i). pose proof (psize_nonneg p).
  destruct (link_step_instr size pc s i d1) as (c1 & Hs & Hp1); try done; try lia.
  set (s1 := set_code c1 _) in *.
  destruct (IH (pc + isize i) s1) as (s' & Hi' & Hp2 & Hd & Hcp & Hl & Hmo); try done; try lia.
  { eapply patched_region; [exact Hp1|done|]. rewrite reloc_instr_encode_length. unfold isize. lia. }
  exists s'. rewrite Z.add_assoc. split; [by econstructor|]. split.
  { cbn [reloc_prog]. rewrite encode_prog_cons. eapply patched_app; [exact Hp1|].
    by rewrite reloc_instr_encode_length. }
  destruct (link_label_fields pc s) as (_ & _ & Hf1 & _ & Hf2).
  split; [done|]. rewrite Hcp, Hl, Hmo. cbn. rewrite Hf1, Hf2, link_label_moffs. done.
Qed.

Lemma jumptable_entry_ok pc jt add i d d' :
  buf_ok d → jumptable_entry pc jt add i d = Ret d' → buf_ok d'.
Proof.
  unfold jumptable_entry. intros Hd H. repeat (res_inv H). eauto with orb.
Qed.

Lemma jumptable_step_ok pc jt add cp st st' :
  buf_ok st.2 → jumptable_step pc jt add cp st = Ret (inl st') →
  buf_ok st'.2 ∧ st.1 < cp ∧ st'.1 = st.1 + 4.
Proof.
  unfold jumptable_step. intros Hd H. destruct (Z.ltb_spec st.1 cp); [|done].
  res_inv H. simplify_eq/=. eauto using jumptable_entry_ok.
Qed.

Lemma jumptable_reloc_ok pc jt add d r :
  buf_ok d → is_jumptable_reloc pc jt add d = Ret r → buf_ok r.1.
Proof.
  unfold is_jumptable_reloc. intros Hd H. do 3 res_inv H.
  destruct (loop _ _ _) as [st| |] eqn:El; simplify_eq/=.
  eapply (loop_inv _ (λ st, buf_ok st.2)) in El as (st' & Hst & Hx).
  - unfold jumptable_step in Hx. destruct (_ <? _); [|by simplify_eq].
    by destruct (jumptable_entry _ _ _ _ _).
  - intros. eapply jumptable_step_ok; eauto.
  - cbn. eauto with orb.
Qed.

Lemma jumptable_ends pc jt add d : buf_ok d → ends (is_jumptable_reloc pc jt add d).
Proof.
  intros Hd. unfold is_jumptable_reloc. apply ends_bind; [auto with orb|intros cp Hcp].
  apply ends_bind; [auto with orb|intros w _]. apply ends_bind; [auto with orb|intros d1 Hd1].
  apply ends_bind; [|auto with orb].
  apply (loop_ends _ (λ st, buf_ok st.2 ∧ 2 ≤ st.1) (λ st, Z.to_nat ((260 - st.1) / 4))).
  - intros st [Hst H2]. split.
    + unfold jumptable_step, jumptable_entry. ends_solve.
    + intros st' H. apply jumptable_step_ok in H as (? & ? & ?); [|done].
      split; [split; [done|lia]|].
      assert (cp < 256).
      { unfold rd8 in Hcp. destruct (in_buf jt); simplify_eq. apply Hd. }
      replace (260 - st.1) with (260 - st'.1 + 1 * 4) by lia.
      rewrite Z.div_add by lia. assert (0 ≤ (260 - st'.1) / 4) by (apply Z.div_pos; lia). lia.
  - cbn. split; [by eauto with orb|lia].
  - vm_compute. lia.
Qed.

Lemma link_operand_wf pc add s s' :
  istream_wf s → link_operand pc add s = Ret s' → istream_wf s'.
Proof.
  intros [Hc Hd Hcp]. unfold link_operand. intros H. do 2 res_inv H. simplify_eq.
  split; cbn; eauto with orb.
Qed.

Lemma link_label_wf pc s : istream_wf s → istream_wf (link_label pc s).
Proof.
  intros [? ? ?]. destruct (link_label_fields pc s) as (E1 & E2 & E3 & _).
  split; rewrite ?E1, ?E2, ?E3; done.
Qed.

(** Every iteration moves [pc] up inside the buffer and keeps bytes bytes. *)
Lemma link_step_inv size st st' :
  istream_wf st.2 → 0 ≤ st.1 → link_step size st = Ret (inl st') →
  istream_wf st'.2 ∧ st.1 < st'.1 ∧ st.1 < MAX_BUFFER_SIZE.
Proof.
  intros Hwf H0. unfold link_step. destruct (st.1 =? size); [done|].
  intros H. res_inv H. apply rd8_inv in E as [Hin _]. pose proof (link_label_wf st.1 st.2 Hwf) as Hw.
  set (s1 := link_label st.1 st.2) in *.
  cut (istream_wf st'.2 ∧ st.1 < st'.1); [intuition lia|].
  destruct (classify _); repeat first [res_inv H | case_match; try done]; simplify_eq/=;
    (split; [eauto using link_operand_wf|try lia]).
  - apply rd8_inv in E as [_ ->]. pose proof (wf_code _ Hw (st.1 + 1)).
    unfold is_byte in *. lia.
  - eapply link_operand_wf; [|done]. destruct Hw. split; cbn; try done.
    by eapply jumptable_reloc_ok.
Qed.

Lemma link_step_ends size st : istream_wf st.2 → ends (link_step size st).
Proof.
  intros Hwf. pose proof (link_label_wf st.1 st.2 Hwf) as Hw.
  pose proof (λ pc w, jumptable_ends pc w size _ (wf_data _ Hw)) as Hj.
  unfold link_step, link_operand. ends_solve; repeat apply ends_bind; intros; ends_solve.
Qed.

(** C32: linking always ends, whatever the code buffer holds: the fuel chosen
    is enough, so [is_link_code] returns or leaves its buffers; it keeps the
    stream well-formed. *)
Theorem link_total size s :
  istream_wf s →
  ends (is_link_code size s) ∧
  ∀ s' n, is_link_code size s = Ret (s', n) → istream_wf s'.
Proof.
  intros Hwf.
  assert (He : ends (loop LINK_FUEL (link_step size) (0, s))).
  { apply (loop_ends _ (λ st, istream_wf st.2 ∧ 0 ≤ st.1)
             (λ st, Z.to_nat (MAX_BUFFER_SIZE - st.1))).
    - intros st [Hst H0]. split; [by apply link_step_ends|].
      intros st' H. apply link_step_inv in H as (? & ? & ?); [|done..].
      split; [split; [done|lia]|lia].
    - done.
    - unfold LINK_FUEL, MAX_BUFFER_SIZE. cbn [fst]. lia. }
  unfold is_link_code. split.
  - apply ends_bind; [done|]. intros r _. ends_solve.
  - intros s' n H. destruct (loop _ _ _) as [r| |] eqn:El; try done. cbn in H.
    apply (loop_inv _ (λ st, istream_wf st.2 ∧ 0 ≤ st.1)) in El as (st & [Hst _] & Hx);
      [|intros st st' [? ?] Hs; apply link_step_inv in Hs as (? & ? & ?); [split; [done|lia]|done..]
       |done].
    assert (Hr : r = st).
    { unfold link_step in Hx. destruct (st.1 =? size); [by simplify_eq|].
      repeat first [res_inv Hx | case_match; try done]; simplify_eq. }
    subst r. destruct Hst. res_inv H. simplify_eq. split; cbn; try done. eauto with orb.
Qed.

Lemma link_total_witness :
  istream_wf empty_istream ∧ ends (is_link_code 0 empty_istream) ∧
  ∀ s' n, is_link_code 0 empty_istream = Ret (s', n) → istream_wf s'.
Proof.
  assert (Hwf : istream_wf empty_istream) by (split; [apply buf_ok_empty..|done]).
  split; [done|]. exact (link_total 0 empty_istream Hwf).
Defined.

Lemma reloc_table_ok size pc i d d' :
  buf_ok d → reloc_table size pc i d = Ret d' → buf_ok d'.
Proof.
  destruct i; cbn; try (intros ? [= <-]; done). intros Hd.
  case_decide; [|by intros [= <-]].
  destruct (is_jumptable_reloc _ _ _ _) as [r| |] eqn:E; [|done..].
  intros [= <-]. by eapply jumptable_reloc_ok.
Qed.

Lemma reloc_pool_ok size pc p d d' : buf_ok d → reloc_pool size pc p d = Ret d' → buf_ok d'.
Proof.
  revert pc d. induction p as [|i p IH]; intros pc d Hd; cbn; [by intros [= <-]|].
  destruct (reloc_table size pc i d) as [d1| |] eqn:E; [|done..]. cbn.
  apply IH. by eapply reloc_table_ok.
Qed.

(** What linking does to a well-formed program: the image it leaves. *)
Lemma link_spec p s d :
  prog_wf p → region (code s) 0 (encode_prog p) →
  psize p + cpindex s ≤ MAX_BUFFER_SIZE → istream_wf s →
  reloc_pool (psize p) 0 p (data s) = Ret d →
  ∃ s', is_link_code (psize p) s = Ret (s', psize p + cpindex s) ∧
        region (code s') 0 (encode_prog (reloc_prog (psize p) 0 p)) ∧
        region (code s') (psize p) (bslice d 0 (Z.to_nat (cpindex s))) ∧
        cpindex s' = 0 ∧ lbls s' = [] ∧
        moffs s' = method_offsets (lbls s) 0 p (moffs s).
Proof.
  intros Hp Hr Hm [Hc Hd Hcp] Ht. pose proof (psize_nonneg p).
  destruct (link_iters (psize p) p 0 s d) as (s1 & Hi & [Hr1 _] & Hd1 & Hcp1 & Hl & Hmo);
    try done; try lia.
  rewrite Z.add_0_l in Hi. unfold is_link_code.
  rewrite (loop_exit _ _ LINK_FUEL _ _ (psize p, s1) Hi).
  2: { unfold link_step. cbn. by rewrite Z.eqb_refl. }
  2: { pose proof (prog_length p). unfold LINK_FUEL, MAX_BUFFER_SIZE in *. lia. }
  res_cbn. rewrite Hcp1, Hd1, memcpy_buf_in by lia. res_cbn. eexists. split; [done|].
  cbn. assert (Hlen : Z.of_nat (length (encode_prog (reloc_prog (psize p) 0 p))) = psize p).
  { apply reloc_prog_psize. }
  split; [|split; [|by rewrite <- Hmo]].
  - apply region_bstore_ne; [done|]. rewrite Hlen. lia.
  - apply region_bstore, bslice_bytes. by eapply reloc_pool_ok.
Qed.

(** C1: the linker implements relocation. On the bytes of any well-formed
    program whose jump tables can be rebased, [is_link_code] returns the size
    of code plus pool; the image is the encoding of the relocated program
    followed by the rebased pool; it decodes to exactly the relocated
    instructions; the pool and the labels are cleared and every labelled
    method got the address of its label. *)
Theorem link_refines p s d :
  prog_wf p → region (code s) 0 (encode_prog p) →
  psize p + cpindex s ≤ MAX_BUFFER_SIZE → istream_wf s →
  reloc_pool (psize p) 0 p (data s) = Ret d →
  ∃ s', is_link_code (psize p) s = Ret (s', psize p + cpindex s) ∧
        decode_prog (length p) (bslice (code s') 0 (Z.to_nat (psize p))) =
          Some (reloc_prog (psize p) 0 p) ∧
        bslice (code s') (psize p) (Z.to_nat (cpindex s)) = bslice d 0 (Z.to_nat (cpindex s)) ∧
        cpindex s' = 0 ∧ lbls s' = [] ∧
        moffs s' = method_offsets (lbls s) 0 p (moffs s).
Proof.
  intros Hp Hr Hm Hwf Ht.
  destruct (link_spec p s d) as (s' & Hl & Hr1 & Hr2 & Hf); try done.
  exists s'. split; [done|]. split; [|split; [|done]].
  - replace (Z.to_nat (psize p)) with (length (encode_prog (reloc_prog (psize p) 0 p)))
      by (pose proof (reloc_prog_psize (psize p) 0 p); unfold psize in *; lia).
    rewrite region_to_bslice by done. apply decode_prog_encode; [by apply reloc_prog_wf|].
    clear. generalize (psize p) 0. induction p as [|i p IH]; cbn; intros; [lia|].
    specialize (IH z (z0 + isize i)). lia.
  - rewrite <- (region_to_bslice _ _ _ Hr2) at 1. by rewrite length_bslice.
Qed.

Definition link_demo : list instr :=
  [I3 INS_JMP 6; I3 INS_OBJCONST 0; I3 INS_JFALSE 3; I1 INS_RET].
Definition link_demo_state : istream :=
  mkIS (bstore ∅ 0 (encode_prog link_demo)) (bstore ∅ 0 [2; 104; 105]) 3 10
       [mkLbl 3 1 (Some 7%nat) "f"] ∅.

Lemma link_demo_wf : istream_wf link_demo_state.
Proof. split; [apply buf_ok_bstore, buf_ok_empty..|done]. Qed.

Lemma link_demo_region : region (code link_demo_state) 0 (encode_prog link_demo).
Proof. apply region_bstore. by repeat (apply Forall_cons; split); try apply Forall_nil. Qed.

Lemma link_refines_witness :
  ∃ s', is_link_code 10 link_demo_state = Ret (s', 13) ∧
        decode_prog 4 (bslice (code s') 0 10) =
          Some [I3 INS_JMP 6; I3 INS_OBJCONST 7; I3 INS_JFALSE 65533; I1 INS_RET] ∧
        bslice (code s') 10 3 = [2; 104; 105] ∧
        cpindex s' = 0 ∧ lbls s' = [] ∧ moffs s' = {[ 7%nat := 3 ]}.
Proof.
  refine (link_refines link_demo link_demo_state (data link_demo_state) _ _ _ _ _).
  - by repeat (apply Forall_cons; split); try apply Forall_nil.
  - exact link_demo_region.
  - by vm_compute.
  - exact link_demo_wf.
  - reflexivity.
Defined.

(** ** What the virtual machine reads *)

(** C10: jumps resolve. In the image of a linked program, the operand the
    machine finds behind the opcode of a jump, a call or a conditional jump,
    added to the program counter in the machine's 16 bits, is the address the
    compiler asked for, backward jumps included. *)
Theorem link_jump_resolves p op w q s d :
  prog_wf (p ++ I3 op w :: q) → jumps (classify op) = true →
  region (code s) 0 (encode_prog (p ++ I3 op w :: q)) →
  psize (p ++ I3 op w :: q) + cpindex s ≤ MAX_BUFFER_SIZE → istream_wf s →
  reloc_pool (psize (p ++ I3 op w :: q)) 0 (p ++ I3 op w :: q) (data s) = Ret d →
  ∃ s' n x, is_link_code (psize (p ++ I3 op w :: q)) s = Ret (s', n) ∧
            ld16 (code s') (psize p + 1) = Ret x ∧
            vm_jump_target x (psize p) = w.
Proof.
  intros Hp Hj Hr Hm Hwf Ht.
  destruct (link_spec _ _ _ Hp Hr Hm Hwf Ht) as (s' & Hl & Hi & _).
  set (P := p ++ I3 op w :: q) in *. exists s', (psize P + cpindex s), (u16 (w - psize p)).
  split; [done|]. pose proof (psize_nonneg p). pose proof (psize_nonneg q).
  apply prog_wf_app in Hp as [_ Hq]. apply prog_wf_cons in Hq as [Hop _].
  subst P. rewrite psize_app, psize_cons in Hm.
  rewrite reloc_prog_app, encode_prog_app in Hi. apply region_app in Hi as [_ Hi].
  rewrite length_psize, reloc_prog_psize in Hi. cbn [reloc_prog] in Hi.
  rewrite encode_prog_cons in Hi. apply region_app in Hi as [Hi _].
  cbn [reloc_instr encode] in Hi. rewrite Hj in Hi. apply region_cons in Hi as [_ Hi].
  destruct Hwf. unfold isize in Hm. cbn in Hm.
  split.
  - apply ld16_word; [exact Hi|apply u16_range|lia|lia].
  - unfold vm_jump_target. rewrite u16_add_l. replace (w - psize p + psize p) with w by lia.
    apply u16_id. cbn in Hop. apply andb_true_iff in Hop as [_ Hop]. by apply u16b_true.
Qed.

Lemma link_jump_resolves_witness :
  ∃ s' n x, is_link_code 10 link_demo_state = Ret (s', n) ∧
            ld16 (code s') (6 + 1) = Ret x ∧ vm_jump_target x 6 = 3.
Proof.
  refine (link_jump_resolves [I3 INS_JMP 6; I3 INS_OBJCONST 0] INS_JFALSE 3 [I1 INS_RET]
            link_demo_state (data link_demo_state) _ _ _ _ _ _).
  - by repeat (apply Forall_cons; split); try apply Forall_nil.
  - reflexivity.
  - exact link_demo_region.
  - by vm_compute.
  - exact link_demo_wf.
  - reflexivity.
Defined.

(** *** Constants *)
Definition const_header (n : Z) : list Z :=
  if n <? 128 then [n] else if n <? 256 then [0x81; n] else 0x82 :: word n.

Definition const_bytes (v : list Z) : list Z := const_header (Z.of_nat (length v)) ++ v.

Lemma const_header_spec n d cp :
  is_u16 n → 0 ≤ cp → cp + Z.of_nat (length (const_header n)) ≤ MAX_BUFFER_SIZE →
  ∃ d', push_constant_header n d cp = Ret (d', cp + Z.of_nat (length (const_header n))) ∧
        patched d d' cp (const_header n).
Proof.
  unfold const_header, push_constant_header, is_u16. intros Hn H0 Hm.
  assert (Z.shiftr n 8 = n / 256) as Hs by (by rewrite Z.shiftr_div_pow2 by lia).
  assert (Z.land n 0xFF = n mod 256) as Hl.
  { change 0xFF with (Z.ones 8). by rewrite Z.land_ones by lia. }
  pose proof (mod256_byte n) as Hb. pose proof (u16_hi_byte n Hn) as Hh.
  destruct (Z.ltb_spec n 128); [|destruct (Z.ltb_spec n 256)].
  - cbn [length] in *. wr. eexists. split; [done|]. split; [|cbn; intros; bsolve].
    region_solve; apply u8_id; unfold is_byte; lia.
  - cbn [length] in *. wr. eexists. split; [done|]. split; [|cbn; intros; bsolve].
    region_solve; apply u8_id; unfold is_byte; lia.
  - unfold word in *. cbn [length] in *. rewrite (proj2 (Z.ltb_lt n 65536)) by lia. wr.
    rewrite Hs, Hl. eexists. split; [done|]. split; [|cbn; intros; bsolve].
    region_solve; by apply u8_id.
Qed.

Lemma push_constant_spec s v :
  istream_wf s → Forall is_byte v → Z.of_nat (length v) < 65536 →
  cpindex s + Z.of_nat (length (const_bytes v)) ≤ MAX_BUFFER_SIZE →
  ∃ s', is_push_constant (Z.of_nat (length v)) v s = Ret (s', u16 (cpindex s)) ∧
        patched (data s) (data s') (cpindex s) (const_bytes v) ∧
        cpindex s' = cpindex s + Z.of_nat (length (const_bytes v)) ∧
        code s' = code s ∧ lbls s' = lbls s ∧ moffs s' = moffs s.
Proof.
  intros [_ _ Hcp] Hv Hn Hm. unfold const_bytes in *. rewrite length_app in *.
  set (n := Z.of_nat (length v)) in *.
  destruct (const_header_spec n (data s) (cpindex s)) as (d' & Hh & Hp);
    [unfold is_u16; lia..|lia|].
  unfold is_push_constant. rewrite (u16_id n) by (unfold is_u16; lia). rewrite Hh. res_cbn.
  set (hl := Z.of_nat (length (const_header n))) in *.
  assert (Hmc : memcpy_in d' (cpindex s + hl) v n = Ret (bstore d' (cpindex s + hl) v)).
  { unfold memcpy_in. destruct (Z.eqb_spec n 0) as [E|E].
    - destruct v; [done|cbn in *; lia].
    - rewrite !(proj2 (in_buf_true _)) by lia. rewrite (proj2 (Z.leb_le n _)) by lia. res_cbn.
      by rewrite firstn_all2 by lia. }
  rewrite Hmc. res_cbn. eexists. split; [done|]. cbn. split; [|split; [lia|done]].
  eapply patched_app; [done|]. split; [by apply region_bstore|].
  intros j Hj. by apply bget_bstore_out.
Qed.

Lemma load_constant_spec s off v :
  Forall is_byte v → Z.of_nat (length v) < 65536 → region (code s) off (const_bytes v) →
  0 ≤ off → off + 4 ≤ MAX_BUFFER_SIZE →
  off + Z.of_nat (length (const_bytes v)) ≤ MAX_BUFFER_SIZE →
  vm_load_constant off s =
    Ret (if VA_OBJECT_MAX_SIZE <? Z.of_nat (length v) then None else Some v).
Proof.
  intros Hv Hn Hr H0 H4 Hm. unfold vm_load_constant, vm_fetch.
  rewrite !(proj2 (in_buf_true _)) by lia. cbn [Nat.eqb orb andb]. res_cbn.
  unfold const_bytes in *. rewrite length_app in Hm. apply region_app in Hr as [Hh Hr].
  set (n := Z.of_nat (length v)) in *.
  set (hl := Z.of_nat (length (const_header n))) in *.
  assert (Hld : load_constant_header (bslice (code s) off 4) = Ret (n, hl)).
  { unfold bslice. cbn [seq fmap list_fmap load_constant_header].
    change (Z.of_nat 0) with 0. change (Z.of_nat 1) with 1. change (Z.of_nat 2) with 2.
    rewrite Z.add_0_r. subst hl. unfold const_header in *.
    destruct (Z.ltb_spec n 128) as [E|E].
    { apply region_cons in Hh as [-> _]. by rewrite (proj2 (Z.ltb_lt n 128)). }
    destruct (Z.ltb_spec n 256) as [E2|E2].
    { apply region_cons in Hh as [-> Hh]. apply region_cons in Hh as [-> _]. done. }
    apply region_cons in Hh as [-> Hh]. apply region_cons in Hh as [-> Hh].
    replace (off + 1 + 1) with (off + 2) in Hh by lia. apply region_cons in Hh as [-> _]. cbn [length word].
    change (0x82 <? 128) with false. change (Z.land 0x82 0x0F) with 2. cbn [Z.eqb].
    rewrite Z.lor_comm, lor_shiftl_add, Z.shiftl_mul_pow2 by (pose proof (mod256_byte n); unfold is_byte in *; lia).
    cbn. f_equal. f_equal. rewrite u16_id; pose proof (div_mod_256 n); unfold is_u16; lia. }
  rewrite Hld. res_cbn. destruct (VA_OBJECT_MAX_SIZE <? n); [done|].
  destruct (Z.eqb_spec n 0) as [E|E].
  - rewrite E. destruct v; [done|cbn in *; lia].
  - assert ((Z.to_nat n =? 0)%nat = false) as -> by (apply Nat.eqb_neq; lia).
    rewrite !(proj2 (in_buf_true _)) by lia. res_cbn.
    replace (Z.to_nat n) with (length v) by lia. by rewrite region_to_bslice.
Qed.

Definition no_switch (p : list instr) : Prop := Forall (λ i, class_of i ≠ CSwitch) p.

Lemma reloc_pool_no_switch size pc p d : no_switch p → reloc_pool size pc p d = Ret d.
Proof.
  intros H. revert pc. induction H as [|i p Hi Hp IH]; intros pc; [done|].
  cbn. replace (reloc_table size pc i d) with (Ret d); [apply IH|].
  destruct i; try done. cbn. by rewrite decide_False.
Qed.

(** C9: constants survive the tool chain. Pushing a value of at most 4096
    bytes, whatever its length form, returns the pool index the compiler puts
    in an instruction; after linking, the machine that loads the constant at
    operand plus program counter gets exactly the value back. *)
Theorem constant_roundtrip s v p op q :
  let prog := p ++ I3 op (cpindex s) :: q in
  istream_wf s → Forall is_byte v → Z.of_nat (length v) ≤ VA_OBJECT_MAX_SIZE →
  prog_wf prog → no_switch prog → pool_ref (classify op) = true →
  region (code s) 0 (encode_prog prog) →
  psize prog + cpindex s + Z.of_nat (length (const_bytes v)) + 4 ≤ MAX_BUFFER_SIZE →
  ∃ s1 s2 n x,
    is_push_constant (Z.of_nat (length v)) v s = Ret (s1, cpindex s) ∧
    is_link_code (psize prog) s1 = Ret (s2, n) ∧
    ld16 (code s2) (psize p + 1) = Ret x ∧
    vm_load_constant (x + psize p) s2 = Ret (Some v).
Proof.
  intros prog Hwf Hv Hlen Hp Hns Hop Hr Hm. unfold VA_OBJECT_MAX_SIZE in *.
  pose proof (wf_cpindex _ Hwf) as Hcp. pose proof (psize_nonneg p). pose proof (psize_nonneg q).
  assert (Hps : psize prog = psize p + (3 + psize q)).
  { unfold prog. rewrite psize_app, psize_cons. done. }
  destruct (push_constant_spec s v) as (s1 & Hpush & [Hpr Hpo] & Hcp1 & Hc1 & _); try done; try lia.
  rewrite u16_id in Hpush by (unfold is_u16, MAX_BUFFER_SIZE in *; lia).
  assert (Hwf1 : istream_wf s1) by (by eapply (push_wf s Hwf)).
  destruct (link_spec prog s1 (data s1)) as (s2 & Hl & Hi & Hpool & _); try done.
  { by rewrite Hc1. }
  { lia. }
  { by apply reloc_pool_no_switch. }
  exists s1, s2, (psize prog + cpindex s1), (cpindex s + psize prog - psize p).
  split; [done|]. split; [done|]. split.
  - unfold prog in Hi. rewrite reloc_prog_app, encode_prog_app in Hi.
    apply region_app in Hi as [_ Hi].
    rewrite length_psize, reloc_prog_psize in Hi. cbn [reloc_prog] in Hi.
    rewrite encode_prog_cons in Hi. apply region_app in Hi as [Hi _].
    cbn [reloc_instr encode] in Hi. rewrite Hop in Hi.
    replace (jumps (classify op)) with false in Hi by (by destruct (classify op)).
    apply region_cons in Hi as [_ Hi]. fold prog in Hi. rewrite Z.add_0_l in Hi.
    rewrite u16_id in Hi by (unfold is_u16, MAX_BUFFER_SIZE in *; lia).
    apply ld16_word; [exact Hi|unfold is_u16, MAX_BUFFER_SIZE in *; lia..].
  - replace (cpindex s + psize prog - psize p + psize p) with (psize prog + cpindex s) by lia.
    rewrite (load_constant_spec _ _ v); try done; try lia.
    { unfold VA_OBJECT_MAX_SIZE. by rewrite (proj2 (Z.ltb_ge _ _)). }
    intros k x Hk. pose proof (lookup_lt_Some _ _ _ Hk) as Hlt.
    replace (psize prog + cpindex s + Z.of_nat k)
      with (psize prog + Z.of_nat (Z.to_nat (cpindex s + Z.of_nat k))) by lia.
    apply (Hpool _ x). rewrite lookup_bslice by lia. f_equal.
    rewrite <- (Hpr k x Hk). f_equal. lia.
Qed.

Definition const_demo_state : istream :=
  mkIS (bstore ∅ 0 (encode_prog [I1 INS_OBJDUP; I3 INS_OBJCONST 5; I1 INS_RET])) ∅ 5 5 [] ∅.

Lemma constant_roundtrip_witness :
  ∃ s1 s2 n x,
    is_push_constant 3 [104; 105; 33] const_demo_state = Ret (s1, 5) ∧
    is_link_code 5 s1 = Ret (s2, n) ∧
    ld16 (code s2) (1 + 1) = Ret x ∧
    vm_load_constant (x + 1) s2 = Ret (Some [104; 105; 33]).
Proof.
  refine (constant_roundtrip const_demo_state [104; 105; 33] [I1 INS_OBJDUP] INS_OBJCONST
            [I1 INS_RET] _ _ _ _ _ _ _ _).
  - split; [apply buf_ok_bstore, buf_ok_empty|apply buf_ok_empty|done].
  - by repeat (apply Forall_cons; split); try apply Forall_nil.
  - by vm_compute.
  - by repeat (apply Forall_cons; split); try apply Forall_nil.
  - by repeat (apply Forall_cons; split); try apply Forall_nil.
  - reflexivity.
  - apply region_bstore. by repeat (apply Forall_cons; split); try apply Forall_nil.
  - by vm_compute.
Defined.

(** *** Jump tables *)
Definition jt_words (es : list (Z * Z)) : list Z :=
  concat ((λ e, word e.1 ++ word e.2) <$> es).

Definition jt_size (es : list (Z * Z)) : Z := 2 + 4 * Z.of_nat (length es).

(** A table with its one-byte length header: the default target, and a
    constant and a target per case. *)
Definition jt_bytes (def : Z) (es : list (Z * Z)) : list Z :=
  jt_size es :: word def ++ jt_words es.

Definition jt_rebase (pc add : Z) (es : list (Z * Z)) : list (Z * Z) :=
  (λ e, (u16 (e.1 + add - pc), u16 (e.2 - pc))) <$> es.

Lemma length_jt_words es : Z.of_nat (length (jt_words es)) = 4 * Z.of_nat (length es).
Proof.
  induction es as [|e es IH]; [done|].
  change (jt_words (e :: es)) with ((word e.1 ++ word e.2) ++ jt_words es).
  rewrite length_app. cbn [length word app]. lia.
Qed.

Lemma u16_index_add x add pc : u16 (u64 (x + add) - pc) = u16 (x + add - pc).
Proof. apply u64_sub_l_u16. Qed.

Lemma patched_word b i v : is_u16 v → patched b (bput16 b i v) i (word v).
Proof. intros Hv. split; [by apply region_word_bput16|]. cbn. intros. bsolve. Qed.

Lemma jumptable_entry_spec pc jt add i d c t :
  region d (jt + i) (word c ++ word t) → is_u16 c → is_u16 t →
  0 ≤ jt + i → jt + i + 4 ≤ MAX_BUFFER_SIZE →
  ∃ d', jumptable_entry pc jt add i d = Ret d' ∧
        patched d d' (jt + i) (word (u16 (c + add - pc)) ++ word (u16 (t - pc))).
Proof.
  intros Hr Hc Ht H0 Hm. apply region_app in Hr as [Hr1 Hr2]. cbn [length word] in Hr2.
  change (Z.of_nat 2) with 2 in Hr2. unfold jumptable_entry.
  rewrite (ld16_word _ _ _ Hr1 Hc) by lia. res_cbn. rewrite st16_u64, u16_index_add.
  wr. set (v1 := u16 _). pose proof (patched_word d (jt + i) v1 (u16_range _)) as Hp1.
  rewrite (ld16_word _ (jt + i + 2) t); [|by eapply patched_region; [exact Hp1|done|cbn; lia]
                                           |done|lia..].
  res_cbn. rewrite st16_u64. wr. eexists. split; [done|].
  eapply patched_app; [exact Hp1|]. apply patched_word, u16_range.
Qed.

Lemma jumptable_iters pc jt add cp es i d :
  region d (jt + i) (jt_words es) → Forall (λ e, is_u16 e.1 ∧ is_u16 e.2) es →
  0 ≤ jt + i → cp = i + 4 * Z.of_nat (length es) → jt + cp ≤ MAX_BUFFER_SIZE →
  ∃ d', iters (jumptable_step pc jt add cp) (length es) (i, d) (cp, d') ∧
        patched d d' (jt + i) (jt_words (jt_rebase pc add es)).
Proof.
  intros Hr He. revert i d Hr. induction He as [|[c t] es [Hc Ht] He IH]; intros i d Hr H0 -> Hm.
  { exists d. cbn [length]. rewrite Z.add_0_r. split; [constructor|]. apply patched_refl, region_nil. }
  cbn [length] in *. change (jt_words ((c, t) :: es)) with ((word c ++ word t) ++ jt_words es) in Hr.
  apply region_app in Hr as [Hr1 Hr2]. cbn [length word app] in Hr2. cbn [fst snd] in *.
  destruct (jumptable_entry_spec pc jt add i d c t) as (d1 & He1 & Hp1); try done; try lia.
  destruct (IH (i + 4) d1) as (d' & Hi & Hp2); try lia.
  { rewrite Z.add_assoc. eapply patched_region; [exact Hp1|exact Hr2|cbn; lia]. }
  exists d'. split.
  - apply (iters_S _ _ _ (i + 4, d1)).
    + unfold jumptable_step. cbn [fst snd]. rewrite (proj2 (Z.ltb_lt _ _)) by lia. by rewrite He1.
    + exact Hi.
  - change (jt_words (jt_rebase pc add ((c, t) :: es)))
      with ((word (u16 (c + add - pc)) ++ word (u16 (t - pc))) ++ jt_words (jt_rebase pc add es)).
    eapply patched_app; [exact Hp1|]. cbn [length word app]. by rewrite <- Z.add_assoc.
Qed.

(** Jump tables are rebased entry by entry. On a table with a one-byte
    header (at most 31 cases), [is_jumptable_reloc] ends, makes the default
    and every target relative to the switch, points every case constant at
    its place behind the code, relative to the switch, and writes nothing
    outside the table. *)
Theorem jumptable_reloc_spec pc jt add def es d :
  region d jt (jt_bytes def es) → is_u16 def → Forall (λ e, is_u16 e.1 ∧ is_u16 e.2) es →
  jt_size es < 128 → 0 ≤ jt → jt + 1 + jt_size es ≤ MAX_BUFFER_SIZE →
  ∃ d', is_jumptable_reloc pc jt add d = Ret (d', jt_size es) ∧
        region d' jt (jt_bytes (u16 (def - pc)) (jt_rebase pc add es)) ∧
        ∀ j, j < jt ∨ jt + 1 + jt_size es ≤ j → bget d' j = bget d j.
Proof.
  intros Hr Hdef He Hsz H0 Hm. unfold jt_size in *.
  apply region_cons in Hr as [Hh Hr]. apply region_app in Hr as [Hr1 Hr2].
  unfold jt_size in Hh. unfold is_jumptable_reloc. rewrite rd8_in, Hh by lia. res_cbn.
  rewrite (ld16_word _ _ _ Hr1 Hdef) by lia. res_cbn. rewrite st16_u64. wr.
  pose proof (patched_word d (jt + 1) (u16 (def - pc)) (u16_range _)) as Hp1.
  set (d1 := bput16 _ _ _) in *. cbn [length word] in Hr2. change (Z.of_nat 2) with 2 in Hr2.
  destruct (jumptable_iters pc (jt + 1) add (2 + 4 * Z.of_nat (length es)) es 2 d1)
    as (d' & Hi & Hp2); try done; try lia.
  { eapply patched_region; [exact Hp1|done|cbn; lia]. }
  rewrite (loop_exit _ _ 65 _ _ (2 + 4 * Z.of_nat (length es), d') Hi).
  2: { unfold jumptable_step. cbn [fst snd]. by rewrite Z.ltb_irrefl. }
  2: { lia. }
  res_cbn. exists d'. split; [done|].
  pose proof (patched_app _ _ _ _ _ _ Hp1 Hp2) as [Hpr Hpo].
  assert (Hlen : Z.of_nat (length (jt_words (jt_rebase pc add es))) = 4 * Z.of_nat (length es)).
  { rewrite length_jt_words. unfold jt_rebase. by rewrite length_fmap. }
  rewrite length_app, Nat2Z.inj_add, Hlen in Hpo. cbn [length word] in Hpo.
  split.
  - apply region_cons. split; [|exact Hpr]. rewrite Hpo by lia. rewrite Hh.
    unfold jt_size, jt_rebase. by rewrite length_fmap.
  - intros j Hj. apply Hpo. lia.
Qed.

Definition jt_demo : list (Z * Z) := [(20, 12); (24, 30)].

Lemma jumptable_reloc_spec_witness :
  ∃ d', is_jumptable_reloc 9 0 40 (bstore ∅ 0 (jt_bytes 33 jt_demo)) = Ret (d', 10) ∧
        region d' 0 (jt_bytes 24 [(51, 3); (55, 21)]) ∧
        ∀ j, j < 0 ∨ 0 + 1 + 10 ≤ j → bget d' j = bget (bstore ∅ 0 (jt_bytes 33 jt_demo)) j.
Proof.
  refine (jumptable_reloc_spec 9 0 40 33 jt_demo _ _ _ _ _ _ _).
  - apply region_bstore. by repeat (apply Forall_cons; split); try apply Forall_nil.
  - by vm_compute.
  - by repeat (apply Forall_cons; split); try apply Forall_nil.
  - by vm_compute.
  - by vm_compute.
  - by vm_compute.
Defined.

(** A table of 32 cases is corrupted. [is_push_constant] gives its 130
    bytes a two-byte header, which [is_jumptable_reloc] takes for the size and
    the first entry: the default target stays where it was. *)
Theorem jumptable_long_header_broken :
  let es := replicate 32 (200, 300) in
  ∃ s d' r, is_push_constant 130 (word 500 ++ jt_words es) empty_istream = Ret (s, 0) ∧
            ld16 (data s) 2 = Ret 500 ∧
            is_jumptable_reloc 10 0 1000 (data s) = Ret (d', r) ∧
            ld16 d' 2 ≠ Ret (u16 (500 - 10)).
Proof.
  set (es := replicate 32 (200, 300)). cbv zeta.
  destruct (is_push_constant 130 (word 500 ++ jt_words es) empty_istream) as [[s r0]| |] eqn:E;
    vm_compute in E; simplify_eq.
  eexists _, _, _. split; [done|]. split; [by vm_compute|]. split; [vm_compute; reflexivity|].
  by vm_compute.
Qed.
