(* ===== verification/L1.v ===== *)
(** * The level-1 optimiser (StackLib/Stack/il1_optimizer.c)

    Four passes over the code buffer: jump threading and label counting, the
    jump peephole, the load/store peephole, and the translation of jump
    tables. Each pass is a loop whose body is a [..._step] definition; the
    records the passes keep ([optrec], pending forward jumps, and [coderec],
    code reductions) are the lists of the state. *)
From S2P Require Import Prelude Isa Streamer Linker.

(** ** Records (il_streamer.h) *)
Record optrec := mkOpt {
  o_ins : Z;
  o_index : Z;
  o_offset : Z;
  o_opt_offset : Z
}.

Record coderec := mkCode {
  c_offset : Z;
  c_rdc : Z
}.

(** The stream together with [_opthead] and [_cdrhead] of one optimiser. *)
Record optstate := mkOS {
  ist : istream;
  opts : list optrec;
  cdrs : list coderec
}.

Definition set_ist (s : istream) (o : optstate) : optstate := mkOS s (opts o) (cdrs o).
Definition upd_code (c : buf) (o : optstate) : optstate := set_ist (set_code c (ist o)) o.

Definition is_l1_create_optrec (offset opt_offset ins index : Z) : optrec :=
  mkOpt (u8 ins) (u16 index) (u16 offset) (u16 opt_offset).

(** [is_l1_add_optrec] appends at the end of the list. *)
Definition is_l1_add_optrec (r : optrec) (l : list optrec) : list optrec := l ++ [r].

Definition is_l1_push_jump (offset opt_offset ins index : Z) (o : optstate) : optstate :=
  mkOS (ist o) (is_l1_add_optrec (is_l1_create_optrec offset opt_offset ins index) (opts o))
       (cdrs o).

(** The walk of [is_l1_backpatch]: every pending jump to [offset] is rewritten;
    at the end the iterator is NULL. *)
Fixpoint is_l1_backpatch_walk (offset opt_offset : Z) (l : list optrec) (c : buf)
    : res (buf * option optrec) :=
  match l with
  | [] => Ret (c, None)
  | r :: l' =>
      c1 ← (if o_index r =? offset then
              c' ← wr8 c (o_opt_offset r) (o_ins r);
              st16 c' (o_opt_offset r + 1) opt_offset
            else Ret c);
      is_l1_backpatch_walk offset opt_offset l' c1
  end.

(** [return iterator->offset] behind the loop dereferences the iterator. *)
Definition is_l1_backpatch (offset opt_offset : Z) (o : optstate) : res (optstate * Z) :=
  match opts o with
  | [] => Ret (o, 0)
  | l =>
      w ← is_l1_backpatch_walk (u16 offset) (u16 opt_offset) l (code (ist o));
      iterator ← from_option_ub w.2;
      Ret (upd_code w.1 o, o_offset iterator)
  end.

Definition is_l1_create_coderec (offset rdc : Z) : coderec := mkCode (u16 offset) (u16 rdc).

Definition is_l1_add_coderec (r : coderec) (l : list coderec) : list coderec := l ++ [r].

(** returns [rdc], a [uint16] *)
Definition is_l1_push_coderec (offset rdc : Z) (o : optstate) : optstate * Z :=
  (mkOS (ist o) (opts o) (is_l1_add_coderec (is_l1_create_coderec offset rdc) (cdrs o)),
   u16 rdc).

Fixpoint is_l1_translate_walk (offset l_offset rdc : Z) (l : list coderec) : Z :=
  match l with
  | [] => l_offset
  | r :: l' =>
      let rdc := rdc + c_rdc r in
      let moved := u16 (u16 (c_offset r - rdc) + (offset - c_offset r)) in
      match l' with
      | next :: _ =>
          if (c_offset r <=? offset) && (offset <? c_offset next) then moved
          else is_l1_translate_walk offset l_offset rdc l'
      | [] => if c_offset r <=? offset then moved else l_offset
      end
  end.

Definition is_l1_translate (offset : Z) (l : list coderec) : Z :=
  is_l1_translate_walk (u16 offset) (u16 offset) 0 l.

Definition is_l1_jumptable_step (l : list coderec) (jt_offset cp_size : Z) (st : Z * buf)
    : res ((Z * buf) + (Z * buf)) :=
  let i := st.1 in
  if i <? cp_size then
    index ← ld16 st.2 (jt_offset + i + 2);
    d ← st16 st.2 (jt_offset + i + 2) (is_l1_translate index l);
    Ret (inl (i + 4, d))
  else Ret (inr st).

(** A table has at most 255 bytes: 64 iterations. *)
Definition is_l1_jumptable_reloc (jt_offset : Z) (l : list coderec) (d : buf) : res (buf * Z) :=
  cp_size ← rd8 d jt_offset;
  let jt_offset := jt_offset + 1 in
  index ← ld16 d jt_offset;
  d1 ← st16 d jt_offset (is_l1_translate index l);
  r ← loop 65 (is_l1_jumptable_step l jt_offset cp_size) (2, d1);
  Ret (r.2, r.1).

Definition is_l1_clear_coderec (o : optstate) : optstate := mkOS (ist o) (opts o) [].
Definition is_l1_clear_optrec (o : optstate) : optstate := mkOS (ist o) [] (cdrs o).

(** ** Pass 1: jump threading and label counting *)

(** [loop_next_jump]: from the jump at [index] to the end of the chain. *)
Definition loop_next_jump_step (c : buf) (index : Z) : res (Z + Z) :=
  index ← ld16 c (index + 1);
  op ← rd8 c index;
  if op =? INS_JMP then Ret (inl index) else Ret (inr index).

(** [curlbl = is_get_lblrec(x); if (curlbl != NULL) curlbl->refcount++] *)
Definition count_label (x : Z) (s : istream) : istream :=
  match is_get_lblrec x s with Some k => lbl_incref k s | None => s end.

Definition l1_flow_step (fuel : nat) (size : Z) (st : Z * istream)
    : res ((Z * istream) + (Z * istream)) :=
  let pc := st.1 in let s := st.2 in
  if pc =? size then Ret (inr st)
  else
    opcode ← rd8 (code s) pc;
    operand ← rd8 (code s) (pc + 1);
    match classify opcode with
    | CLbl => Ret (inl (pc + (operand + 2), s))
    | CPlain | CRet => Ret (inl (pc + 1, s))
    | CSys => if operand <? 254 then Ret (inl (pc + 2, s)) else Ret (inl (pc + 4, s))
    | CRctx | CPush | CPop | CStore => Ret (inl (pc + 2, s))
    | CSwitch | CCall | CF2O | CNew | CExt | CConst => Ret (inl (pc + 3, s))
    | CSctx => Ret (inl (pc + 2, count_label pc s))
    | CJtrue | CJfalse | CJmp =>
        index ← loop fuel (loop_next_jump_step (code s)) pc;
        let s1 := if pc + 3 =? index then s else count_label index s in
        c ← st16 (code s1) (pc + 1) index;
        Ret (inl (pc + 3, set_code c s1))
    | CNop | CF2On | CUnknown => Ret (inl (pc, s))
    end.

(** ** Passes 2 and 3 *)
Record peepstate := mkPS {
  ps_pc : Z;
  ps_rdc : Z;
  ps_os : optstate
}.

(** what both loops do behind the switch: backpatch, and move the label *)
Definition l1_after (p : peepstate) : res peepstate :=
  let pc := ps_pc p in let rdc := ps_rdc p in
  b ← is_l1_backpatch (pc + rdc) pc (ps_os p);
  let s := ist b.1 in
  let s1 := match is_get_lblrec (pc + rdc) s with Some k => lbl_set_offset k pc s | None => s end in
  Ret (mkPS pc rdc (set_ist s1 b.1)).

(** [case INS_LBL]: the label and its name are removed *)
Definition l1_remove_label (size operand : Z) (p : peepstate) : res peepstate :=
  let (o, r) := is_l1_push_coderec (ps_pc p + ps_rdc p) (operand + 2) (ps_os p) in
  let rdc := ps_rdc p + r in
  let c := code (ist o) in
  c1 ← memcpy_buf c c (ps_pc p) (ps_pc p + (operand + 2)) (size - rdc - ps_pc p);
  Ret (mkPS (ps_pc p) rdc (upd_code c1 o)).

(** [case INS_F2O, INS_CALL, INS_JTRUE, INS_JFALSE, INS_JMP] *)
Definition l1_jump (size opcode : Z) (p : peepstate) : res peepstate :=
  let pc := ps_pc p in let rdc := ps_rdc p in let o := ps_os p in
  let c := code (ist o) in
  index ← ld16 c (pc + 1);
  if index =? pc + 3 + rdc then
    c1 ← memcpy_buf c c pc (pc + 3) (size - rdc - pc);
    let (o1, r) := is_l1_push_coderec (pc + rdc) 3 (upd_code c1 o) in
    Ret (mkPS (pc + 0) (rdc + r) o1)
  else if pc <? index then
    Ret (mkPS (pc + 3) rdc (is_l1_push_jump (pc + rdc) pc opcode index o))
  else if index <? pc then
    c1 ← st16 c (pc + 1) (is_l1_translate index (cdrs o));
    Ret (mkPS (pc + 3) rdc (upd_code c1 o))
  else Ret p.

Definition ps_skip (n : Z) (p : peepstate) : peepstate := mkPS (ps_pc p + n) (ps_rdc p) (ps_os p).

Definition l1_jump_step (size : Z) (p : peepstate) : res (peepstate + peepstate) :=
  let pc := ps_pc p in
  if pc =? size - ps_rdc p then Ret (inr p)
  else
    let c := code (ist (ps_os p)) in
    opcode ← rd8 c pc;
    operand ← rd8 c (pc + 1);
    p1 ← match classify opcode with
         | CLbl => l1_remove_label size operand p
         | CPush | CPop | CSys | CSctx | CRctx | CStore => Ret (ps_skip 2 p)
         | CNew | CExt | CConst | CSwitch => Ret (ps_skip 3 p)
         | CPlain | CRet => Ret (ps_skip 1 p)
         | CF2O | CCall | CJtrue | CJfalse | CJmp => l1_jump size opcode p
         | CNop | CF2On | CUnknown => Ret p
         end;
    p2 ← l1_after p1;
    Ret (inl p2).

(** [code[pc + 2] == INS_OBJPUSH && code[pc + 3] == operand] *)
Definition next_is_push (c : buf) (pc operand : Z) : res bool :=
  op2 ← rd8 c (pc + 2);
  if op2 =? INS_OBJPUSH then x ← rd8 c (pc + 3); Ret (x =? operand) else Ret false.

(** [case INS_OBJPUSH] of the load/store peephole *)
Definition l1_push (size operand : Z) (p : peepstate) : res peepstate :=
  let pc := ps_pc p in let rdc := ps_rdc p in let o := ps_os p in
  let c := code (ist o) in
  same ← next_is_push c pc operand;
  if same && bool_decide (is_get_lblrec (pc + 2) (ist o) = None) then
    c1 ← wr8 c (pc + 2) INS_OBJDUP;
    let (o1, r) := is_l1_push_coderec (pc + rdc) 1 (upd_code c1 o) in
    let rdc1 := rdc + r in
    c2 ← memcpy_buf c1 c1 (pc + 3) (pc + 4) (size - rdc1 - pc);
    Ret (mkPS (pc + 3) rdc1 (upd_code c2 o1))
  else Ret (ps_skip 2 p).

(** [case INS_OBJPOP] *)
Definition l1_pop (size operand : Z) (p : peepstate) : res peepstate :=
  let pc := ps_pc p in let rdc := ps_rdc p in let o := ps_os p in
  let c := code (ist o) in
  same ← next_is_push c pc operand;
  if same && bool_decide (is_get_lblrec (pc + 2) (ist o) = None) then
    c1 ← wr8 c pc INS_OBJSTORE;
    let (o1, r) := is_l1_push_coderec (pc + rdc) 2 (upd_code c1 o) in
    let rdc1 := rdc + r in
    c2 ← memcpy_buf c1 c1 (pc + 2) (pc + 4) (size - rdc1 - pc);
    Ret (mkPS (pc + 2) rdc1 (upd_code c2 o1))
  else Ret (ps_skip 2 p).

Definition l1_ldst_step (size : Z) (p : peepstate) : res (peepstate + peepstate) :=
  let pc := ps_pc p in
  if pc =? size - ps_rdc p then Ret (inr p)
  else
    let c := code (ist (ps_os p)) in
    opcode ← rd8 c pc;
    operand ← rd8 c (pc + 1);
    p1 ← match classify opcode with
         | CLbl => l1_remove_label size operand p
         | CPush => l1_push size operand p
         | CPop => l1_pop size operand p
         | CNew | CExt | CConst | CSwitch => Ret (ps_skip 3 p)
         | CPlain | CRet => Ret (ps_skip 1 p)
         | CSys | CSctx | CRctx | CStore => Ret (ps_skip 2 p)
         | CF2O | CCall | CJtrue | CJfalse | CJmp => l1_jump size opcode p
         | CNop | CF2On | CUnknown => Ret p
         end;
    p2 ← l1_after p1;
    Ret (inl p2).

(** ** Pass 4: jump tables *)
Definition l1_switch_step (limit : Z) (st : Z * optstate)
    : res ((Z * optstate) + (Z * optstate)) :=
  let pc := st.1 in let o := st.2 in
  if pc =? limit then Ret (inr st)
  else
    opcode ← rd8 (code (ist o)) pc;
    operand ← rd8 (code (ist o)) (pc + 1);
    match classify opcode with
    | CLbl => Ret (inl (pc + (operand + 2), o))
    | CPlain | CRet => Ret (inl (pc + 1, o))
    | CSys | CSctx | CRctx | CPush | CPop | CStore => Ret (inl (pc + 2, o))
    | CF2O | CCall | CNew | CExt | CConst => Ret (inl (pc + 3, o))
    | CJtrue | CJfalse | CJmp => Ret (inl (pc + 3, o))
    | CSwitch =>
        index ← ld16 (code (ist o)) (pc + 1);
        d ← is_l1_jumptable_reloc index (cdrs o) (data (ist o));
        Ret (inl (pc + 3, set_ist (set_data d.1 (ist o)) o))
    | CNop | CF2On | CUnknown => Ret (inl (pc, o))
    end.

(** ** The optimiser

    [fuel] bounds every loop; the code's loops have no bound of their own. *)
Definition is_l1_optimize (fuel : nat) (size : Z) (o : optstate) : res (optstate * Z) :=
  f ← loop fuel (l1_flow_step fuel size) (0, ist o);
  let o1 := set_ist (is_clear_unused_lblrec f.2) o in
  p ← loop fuel (l1_jump_step size) (mkPS 0 0 o1);
  let o2 := is_l1_clear_optrec (is_l1_clear_coderec (ps_os p)) in
  let size2 := size - ps_rdc p in
  q ← loop fuel (l1_ldst_step size2) (mkPS 0 0 o2);
  r ← loop fuel (l1_switch_step (size2 - ps_rdc q)) (0, ps_os q);
  Ret (is_l1_clear_optrec (is_l1_clear_coderec r.2), r.1).

(** ** Translation of addresses *)

(** The bytes removed at or before [offset]. *)
Fixpoint reduction (offset : Z) (l : list coderec) : Z :=
  match l with
  | [] => 0
  | r :: l' => (if c_offset r <=? offset then c_rdc r else 0) + reduction offset l'
  end.

Definition cdr_sorted (l : list coderec) : Prop :=
  StronglySorted (λ a b, c_offset a ≤ c_offset b) l.

Lemma reduction_none offset l :
  Forall (λ r, offset < c_offset r) l → reduction offset l = 0.
Proof.
  induction 1 as [|r l Hr _ IH]; [done|]. cbn. rewrite IH.
  by rewrite (proj2 (Z.leb_gt _ _)).
Qed.

Lemma translate_walk_cons2 offset lo rdc r next l :
  is_l1_translate_walk offset lo rdc (r :: next :: l) =
    if (c_offset r <=? offset) && (offset <? c_offset next)
    then u16 (u16 (c_offset r - (rdc + c_rdc r)) + (offset - c_offset r))
    else is_l1_translate_walk offset lo (rdc + c_rdc r) (next :: l).
Proof. done. Qed.

Lemma translate_walk_spec offset l rdc :
  cdr_sorted l → l ≠ [] →
  is_l1_translate_walk offset (u16 offset) rdc l =
    if existsb (λ r, c_offset r <=? offset) l
    then u16 (offset - (rdc + reduction offset l)) else u16 offset.
Proof.
  intros Hs. revert rdc. induction Hs as [|r l Hs IH Hall]; intros rdc Hne; [done|].
  assert (Hmv : u16 (u16 (c_offset r - (rdc + c_rdc r)) + (offset - c_offset r)) =
                u16 (offset - (rdc + c_rdc r))).
  { rewrite u16_add_l. f_equal. lia. }
  destruct l as [|next l].
  { cbn. rewrite Hmv. destruct (_ <=? _); cbn; [|done]. do 2 f_equal. lia. }
  rewrite translate_walk_cons2, Hmv. cbn [existsb reduction].
  assert (Hle : c_offset r ≤ c_offset next) by (by apply Forall_cons in Hall as [? _]).
  specialize (IH (rdc + c_rdc r) ltac:(done)). cbn [existsb reduction] in IH.
  destruct (Z.leb_spec (c_offset r) offset), (Z.ltb_spec offset (c_offset next)); cbn [andb orb].
  - rewrite (proj2 (Z.leb_gt (c_offset next) offset)) by lia.
    rewrite reduction_none; [do 2 f_equal; lia|].
    inversion Hs as [|? ? ? Hn]; subst. eapply Forall_impl; [exact Hn|]. cbn. lia.
  - rewrite IH, (proj2 (Z.leb_le (c_offset next) offset)) by lia. cbn. do 2 f_equal. lia.
  - rewrite IH, (proj2 (Z.leb_gt (c_offset next) offset)) by lia. cbn.
    destruct (existsb _ _) eqn:E; [exfalso|done].
    apply existsb_exists in E as (x & Hx & Hxo%Z.leb_le). apply list_elem_of_In in Hx.
    inversion Hs as [|? ? ? Hn]; subst.
    pose proof (proj1 (Forall_forall _ _) Hn x Hx). cbn in *. lia.
  - rewrite (proj2 (Z.leb_le (c_offset next) offset)) in IH by lia. lia.
Qed.

(** Address translation. When the code reductions are recorded from low
    to high addresses, as both peepholes record them, [is_l1_translate] is the
    old address minus every byte removed at or before it. *)
Theorem l1_translate_spec offset l :
  cdr_sorted l → is_u16 offset →
  is_l1_translate offset l = u16 (offset - reduction offset l).
Proof.
  intros Hs Ho. unfold is_l1_translate. rewrite (u16_id offset) by done.
  destruct l as [|r l].
  { cbn. by rewrite Z.sub_0_r, u16_id. }
  rewrite <- (u16_id offset Ho) at 2. rewrite translate_walk_spec by done.
  destruct (existsb _ _) eqn:E; [by rewrite Z.add_0_l|].
  rewrite reduction_none; [by rewrite Z.sub_0_r|].
  apply Forall_forall. intros x Hx. destruct (Z.ltb_spec offset (c_offset x)) as [|Hle]; [done|].
  exfalso. assert (existsb (λ r, c_offset r <=? offset) (r :: l) = true); [|congruence].
  apply existsb_exists. exists x. split; [by apply list_elem_of_In|by apply Z.leb_le].
Qed.

Lemma l1_translate_spec_witness :
  let l := [mkCode 3 3; mkCode 9 2; mkCode 20 1] in
  cdr_sorted l ∧ is_l1_translate 12 l = 7 ∧ is_l1_translate 12 l = u16 (12 - reduction 12 l).
Proof.
  assert (Hs : cdr_sorted [mkCode 3 3; mkCode 9 2; mkCode 20 1]).
  { repeat (constructor; cbn; try lia). }
  split; [done|]. split; [reflexivity|].
  apply (l1_translate_spec 12); [done|unfold is_u16; lia].
Defined.

(** ** Backpatching *)
Lemma backpatch_walk_iterator offset opt l c w :
  is_l1_backpatch_walk offset opt l c = Ret w → w.2 = None.
Proof.
  revert c. induction l as [|r l IH]; intros c; cbn; [by intros [= <-]|].
  destruct (if o_index r =? offset then _ else Ret c) as [c1| |]; res_cbn; [apply IH|done..].
Qed.

Lemma backpatch_walk_ends offset opt l c : ends (is_l1_backpatch_walk offset opt l c).
Proof.
  revert c. induction l as [|r l IH]; intros c; cbn; [done|].
  apply ends_bind; [|intros; apply IH].
  destruct (_ =? _); [|done]. ends_solve.
Qed.

Lemma backpatch_pending offset opt o : opts o ≠ [] → is_l1_backpatch offset opt o = Undef.
Proof.
  unfold is_l1_backpatch. destruct (opts o) as [|r l] eqn:E; [done|]. intros _.
  set (L := r :: l). pose proof (backpatch_walk_ends (u16 offset) (u16 opt) L (code (ist o))).
  destruct (is_l1_backpatch_walk _ _ _ _) as [w| |] eqn:Ew; [|done..].
  apply backpatch_walk_iterator in Ew. cbn. by rewrite Ew.
Qed.

Lemma backpatch_empty offset opt o : opts o = [] → is_l1_backpatch offset opt o = Ret (o, 0).
Proof. unfold is_l1_backpatch. by intros ->. Qed.

(** A forward jump is fatal. When the jump peephole meets a jump, call or
    [INS_F2O] to an address ahead that is not the next instruction, it queues
    a record; the [is_l1_backpatch] call of the same iteration then
    dereferences the NULL iterator its loop ends with. *)
Theorem l1_forward_jump_ub size pc rdc o op w :
  region (code (ist o)) pc (encode (I3 op w)) → instr_wf (I3 op w) = true →
  jumps (classify op) = true ∨ classify op = CF2O →
  0 ≤ pc → pc + 3 ≤ MAX_BUFFER_SIZE → pc ≠ size - rdc →
  w ≠ pc + 3 + rdc → pc < w →
  l1_jump_step size (mkPS pc rdc o) = Undef.
Proof.
  intros Hr Hwf Hj H0 Hm Hne Hn Hf. unfold l1_jump_step. cbn [ps_pc ps_rdc ps_os].
  rewrite (proj2 (Z.eqb_neq _ _)) by done.
  rewrite (fetch_opcode _ _ _ Hr H0 Hm). res_cbn. rewrite rd8_in by lia. res_cbn. cbn [opcode_of].
  assert (Hl : l1_jump size op (mkPS pc rdc o) =
               Ret (mkPS (pc + 3) rdc (is_l1_push_jump (pc + rdc) pc op w o))).
  { unfold l1_jump. cbn [ps_pc ps_rdc ps_os].
    rewrite (fetch_word _ _ _ Hwf Hr H0 Hm op w eq_refl). res_cbn.
    rewrite (proj2 (Z.eqb_neq _ _)) by lia. by rewrite (proj2 (Z.ltb_lt _ _)). }
  assert (Ha : l1_after (mkPS (pc + 3) rdc (is_l1_push_jump (pc + rdc) pc op w o)) = Undef).
  { unfold l1_after. cbn [ps_pc ps_rdc ps_os]. rewrite backpatch_pending; [done|].
    cbn. by destruct (opts o). }
  destruct Hj as [Hj|Hj]; [|rewrite Hj, Hl; res_cbn; by rewrite Ha].
  destruct (classify op); try done; rewrite Hl; res_cbn; by rewrite Ha.
Qed.

Lemma l1_forward_jump_ub_witness :
  let o := mkOS (mkIS (bstore ∅ 0 (encode_prog [I3 INS_JFALSE 6; I3 INS_JMP 9; I1 INS_RET]))
                      ∅ 0 7 [] ∅) [] [] in
  l1_jump_step 7 (mkPS 0 0 o) = Undef.
Proof.
  cbv zeta. apply (l1_forward_jump_ub 7 0 0 _ INS_JFALSE 6); try (by vm_compute); try (cbn; lia).
  - apply (region_app _ 0 _ (encode_prog [I3 INS_JMP 9; I1 INS_RET])). apply region_bstore.
    by repeat (apply Forall_cons; split); try apply Forall_nil.
  - by left.
Defined.

(** ** Jump threading *)

(** [chain c a t]: from the instruction at [a], following unconditional jumps,
    control reaches [t], which is not one. *)
Inductive chain (c : buf) : Z → Z → Prop :=
  | chain_end a op : rd8 c a = Ret op → op ≠ INS_JMP → chain c a a
  | chain_jmp a b t : rd8 c a = Ret INS_JMP → ld16 c (a + 1) = Ret b → chain c b t → chain c a t.

Lemma chain_det c a t t' : chain c a t → chain c a t' → t = t'.
Proof.
  intros H. revert t'. induction H as [a op Ha Hop|a b t Ha Hb Hc IH]; intros t' H';
    inversion H'; subst; try congruence; eauto.
  apply IH. congruence.
Qed.

Lemma thread_chain c a b t :
  ld16 c (a + 1) = Ret b → chain c b t →
  ∃ n, ∀ fuel, (n ≤ fuel)%nat → loop fuel (loop_next_jump_step c) a = Ret t.
Proof.
  intros Hw H. revert a Hw. induction H as [b op Hb Hop|b b' t Hb Hb' Hc IH]; intros a Hw.
  - exists 1%nat. intros [|fuel] Hf; [lia|]. apply loop_inr.
    unfold loop_next_jump_step. rewrite Hw. res_cbn. rewrite Hb. res_cbn.
    by rewrite (proj2 (Z.eqb_neq _ _)).
  - destruct (IH b Hb') as [n Hn]. exists (S n). intros [|fuel] Hf; [lia|].
    rewrite (loop_inl _ _ _ b); [apply Hn; lia|].
    unfold loop_next_jump_step. rewrite Hw. res_cbn. by rewrite Hb.
Qed.

Lemma thread_sound c fuel a t :
  loop fuel (loop_next_jump_step c) a = Ret t → ∃ b, ld16 c (a + 1) = Ret b ∧ chain c b t.
Proof.
  revert a. induction fuel as [|fuel IH]; intros a H; [done|].
  destruct (loop_next_jump_step c a) as [[b|b]| |] eqn:E.
  - rewrite (loop_inl _ _ _ _ E) in H. destruct (IH b H) as (b' & Hb' & Hc).
    unfold loop_next_jump_step in E. do 2 res_inv E. exists b.
    destruct (Z.eqb_spec a1 INS_JMP) as [->|]; simplify_eq. split; [done|]. by eapply chain_jmp.
  - rewrite (loop_inr _ _ _ _ E) in H. simplify_eq.
    unfold loop_next_jump_step in E. do 2 res_inv E. exists t.
    destruct (Z.eqb_spec a1 INS_JMP); simplify_eq. split; [done|]. by eapply chain_end.
  - by rewrite (loop_undef _ _ _ E) in H.
  - unfold loop in H. rewrite E in H. done.
Qed.

(** Jump threading is exact and ends when the code's jumps do. On a
    conditional or unconditional jump, [loop_next_jump] leaves the end of the
    chain of jumps behind its target and nothing else; it finds it whenever
    that chain ends. *)
Theorem l1_thread_spec c pc w t :
  ld16 c (pc + 1) = Ret w →
  chain c w t ↔ ∃ n, ∀ fuel, (n ≤ fuel)%nat → loop fuel (loop_next_jump_step c) pc = Ret t.
Proof.
  intros Hw. split; [by apply thread_chain|].
  intros [n Hn]. destruct (thread_sound c n pc t (Hn n ltac:(lia))) as (b & Hb & Hc).
  congruence.
Qed.

Lemma l1_thread_spec_witness :
  let c := bstore ∅ 0 (encode_prog [I3 INS_JFALSE 4; I1 INS_RET; I3 INS_JMP 7; I3 INS_JMP 3]) in
  ld16 c (0 + 1) = Ret 4 ∧ (chain c 4 3 ↔
    ∃ n, ∀ fuel, (n ≤ fuel)%nat → loop fuel (loop_next_jump_step c) 0 = Ret 3).
Proof.
  cbv zeta. split; [by vm_compute|]. apply (l1_thread_spec _ 0 4 3). by vm_compute.
Defined.

(** A jump cycle is never left. *)
Lemma chain_no_self c a t : rd8 c a = Ret INS_JMP → ld16 c (a + 1) = Ret a → ¬ chain c a t.
Proof.
  intros Ha Hb H. remember a as x eqn:Ex. rewrite Ex in Ha, Hb. revert Ex.
  induction H as [a' op Ha' Hop|a' b t Ha' Hb' Hc IH]; intros ->; [congruence|].
  apply IH. congruence.
Qed.

(** ** Code the optimiser never leaves *)

(** An iteration that leaves its state as it is repeats for ever. *)
Lemma l1_flow_stuck fuel fuel' size pc s op operand :
  pc ≠ size → rd8 (code s) pc = Ret op → rd8 (code s) (pc + 1) = Ret operand →
  classify op = CF2On ∨ classify op = CNop ∨ classify op = CUnknown →
  loop fuel' (l1_flow_step fuel size) (pc, s) = Timeout.
Proof.
  intros Hne Ho Ha Hc. apply loop_stuck. unfold l1_flow_step. cbn [fst snd].
  rewrite (proj2 (Z.eqb_neq _ _)) by done. rewrite Ho. res_cbn. rewrite Ha. res_cbn.
  by destruct Hc as [->|[->| ->]].
Qed.

Lemma l1_self_jump_stuck fuel fuel' size pc s operand :
  pc ≠ size → rd8 (code s) pc = Ret INS_JMP → rd8 (code s) (pc + 1) = Ret operand →
  ld16 (code s) (pc + 1) = Ret pc →
  loop fuel' (l1_flow_step fuel size) (pc, s) = Timeout.
Proof.
  intros Hne Ho Ha Hw. destruct fuel' as [|fuel']; [done|].
  assert (l1_flow_step fuel size (pc, s) = Timeout) as E.
  { unfold l1_flow_step. cbn [fst snd]. rewrite (proj2 (Z.eqb_neq _ _)) by done.
    rewrite Ho. res_cbn. rewrite Ha. res_cbn. change (classify INS_JMP) with CJmp. cbn iota.
    rewrite loop_stuck; [done|].
    unfold loop_next_jump_step. rewrite Hw. res_cbn. by rewrite Ho. }
  unfold loop. by rewrite E.
Qed.

(** ** Straight-line code

    The instructions that every pass steps over: no jumps, calls, switches or
    functions-to-objects, and system calls in the short form (the later
    passes take every system call for two bytes). *)
Definition straight (i : instr) : bool :=
  match class_of i with
  | CPlain | CRet | CSctx | CRctx | CPush | CPop | CStore | CNew | CExt | CConst => true
  | CSys => match i with ISys _ api => api <? 254 | _ => false end
  | _ => false
  end.

Definition straight_prog (p : list instr) : Prop :=
  Forall (λ i, instr_wf i = true ∧ straight i = true) p.

Lemma straight_wf p : straight_prog p → prog_wf p.
Proof. intros H. eapply Forall_impl; [exact H|]. by intros ? [? _]. Qed.

(** the size of the instruction, by class *)
Lemma straight_size i :
  instr_wf i = true → straight i = true →
  isize i = match class_of i with CPlain | CRet => 1 | CNew | CExt | CConst => 3 | _ => 2 end.
Proof.
  intros Hwf Hst. rewrite isize_class by done. unfold straight in Hst.
  destruct (class_of i) eqn:Ec; try done. destruct i; try done. cbn. by rewrite Hst.
Qed.

(** Reading opcode and operand, as every loop starts. *)
Section read.
Context (c : buf) (pc size : Z) (i : instr).
Context (Hwf : instr_wf i = true) (Hst : straight i = true).
Context (Hr : region c pc (encode i)) (H0 : 0 ≤ pc) (Hsz : pc + isize i ≤ size).
Context (Hm : size < MAX_BUFFER_SIZE).

Lemma read_opcode : rd8 c pc = Ret (opcode_of i).
Proof using Hr H0 Hsz Hm. pose proof (isize_pos i). apply fetch_opcode; [done..|lia]. Qed.

Lemma read_operand :
  ∃ x, rd8 c (pc + 1) = Ret x ∧ (class_of i = CSys → x <? 254 = true) ∧
       (∀ op a, i = I2 op a → x = a).
Proof using Hwf Hst Hr H0 Hsz Hm.
  pose proof (isize_pos i). rewrite rd8_in by lia. eexists. split; [done|].
  destruct i as [op|op a|n api|op w] eqn:Ei; unfold class_of, straight, class_of in *; cbn in *;
    try (split; [|done]; intros Hc; by rewrite Hc in *).
  - split; [intros Hc; by rewrite Hc in *|]. intros ? ? [= -> ->].
    apply region_cons in Hr as [_ Hr2]. by apply region_cons in Hr2 as [-> _].
  - split; [|done]. intros Hc. rewrite Hc in Hst. rewrite Hst in Hr.
    apply region_cons in Hr as [_ Hr2]. by apply region_cons in Hr2 as [-> _].
Qed.

End read.

(** *** Pass 1 *)
Lemma count_label_fields x s :
  code (count_label x s) = code s ∧ data (count_label x s) = data s ∧
  (lbls s = [] → count_label x s = s).
Proof.
  unfold count_label, is_get_lblrec. destruct (is_get_lblrec_from _ _ _ _) eqn:E.
  - split; [done|]. split; [done|]. intros Hl. by rewrite Hl in E.
  - done.
Qed.

Lemma l1_flow_straight fuel size pc s i :
  instr_wf i = true → straight i = true → region (code s) pc (encode i) → 0 ≤ pc →
  pc + isize i ≤ size → size < MAX_BUFFER_SIZE →
  ∃ s', l1_flow_step fuel size (pc, s) = Ret (inl (pc + isize i, s')) ∧
        code s' = code s ∧ data s' = data s ∧ (lbls s = [] → s' = s).
Proof.
  intros Hwf Hst Hr H0 Hsz Hm. pose proof (isize_pos i).
  destruct (read_operand _ _ _ _ Hwf Hst Hr H0 Hsz Hm) as (x & Hx & Hsys & _).
  unfold l1_flow_step. cbn [fst snd]. rewrite (proj2 (Z.eqb_neq _ _)) by lia.
  rewrite (read_opcode _ _ _ _ Hr H0 Hsz Hm). res_cbn. rewrite Hx. res_cbn.
  fold (class_of i). rewrite (straight_size i Hwf Hst).
  destruct (count_label_fields pc s) as (Hc & Hd & Hl).
  unfold straight in Hst.
  destruct (class_of i) eqn:Ec; try done; rewrite ?Hsys by done; eauto 6.
Qed.

Lemma l1_flow_iters fuel size p pc s :
  straight_prog p → region (code s) pc (encode_prog p) → 0 ≤ pc → pc + psize p ≤ size →
  size < MAX_BUFFER_SIZE →
  ∃ s', iters (l1_flow_step fuel size) (length p) (pc, s) (pc + psize p, s') ∧
        code s' = code s ∧ data s' = data s ∧ (lbls s = [] → s' = s).
Proof.
  intros Hp. revert pc s. induction Hp as [|i p [Hwf Hst] Hp IH]; intros pc s Hr H0 Hsz Hm.
  { exists s. rewrite psize_nil, Z.add_0_r. split; [constructor|done]. }
  rewrite psize_cons in *. rewrite encode_prog_cons in Hr. apply region_app in Hr as [Hr1 Hr2].
  pose proof (psize_nonneg p). pose proof (isize_pos i).
  destruct (l1_flow_straight fuel size pc s i) as (s1 & Hs & Hc & Hd & Hl); try done; [lia|].
  destruct (IH (pc + isize i) s1) as (s' & Hi & Hc' & Hd' & Hl'); try lia; [by rewrite Hc|].
  exists s'. rewrite Z.add_assoc. split; [by econstructor|].
  split; [congruence|]. split; [congruence|]. intros He. rewrite Hl' by (by rewrite Hl). by apply Hl.
Qed.

(** The optimiser hangs on opcodes its scans do not list. Behind any
    straight-line prefix, an [INS_F2O_1 .. 15] (a function object with
    arguments), an [INS_NOP], or a jump to itself keeps [is_l1_optimize] in
    its first loop for ever, whatever follows. *)
Theorem l1_hangs p i w size o :
  straight_prog p → instr_wf i = true →
  class_of i = CF2On ∨ class_of i = CNop ∨ i = I3 INS_JMP w ∧ w = psize p →
  region (code (ist o)) 0 (encode_prog (p ++ [i])) →
  psize (p ++ [i]) ≤ size → size < MAX_BUFFER_SIZE →
  ∀ fuel, is_l1_optimize fuel size o = Timeout.
Proof.
  intros Hp Hwf Hi Hr Hsz Hm fuel. rewrite psize_app, psize_cons, psize_nil in Hsz.
  rewrite encode_prog_app in Hr. apply region_app in Hr as [Hr1 Hr2].
  rewrite length_psize, Z.add_0_l, encode_prog_cons in Hr2. apply region_app in Hr2 as [Hr2 _].
  pose proof (isize_pos i). pose proof (psize_nonneg p).
  destruct (l1_flow_iters fuel size p 0 (ist o)) as (s' & Hit & Hc & _); try done; try lia.
  rewrite Z.add_0_l in Hit. unfold is_l1_optimize.
  rewrite (loop_iters_timeout _ _ _ _ Hit); [done|]. rewrite <- Hc in Hr2. intros fuel'.
  assert (Hm' : psize p + isize i ≤ MAX_BUFFER_SIZE) by lia.
  pose proof (fetch_opcode _ _ _ Hr2 ltac:(lia) Hm') as Ho.
  pose proof (rd8_in (code s') (psize p + 1) ltac:(lia)) as Ha.
  destruct Hi as [Hi|[Hi|[-> Hi]]].
  - by eapply l1_flow_stuck; [lia|done..|left].
  - by eapply l1_flow_stuck; [lia|done..|right; left].
  - eapply l1_self_jump_stuck; [lia|done..|].
    rewrite <- Hi at 2. by eapply (fetch_word _ _ _ Hwf Hr2).
Qed.

Lemma l1_hangs_witness :
  let o := mkOS (mkIS (bstore ∅ 0 (encode_prog [I2 INS_OBJPUSH 1; I3 (INS_F2O + 2) 9; I1 INS_RET]))
                      ∅ 0 6 [] ∅) [] [] in
  class_of (I3 (INS_F2O + 2) 9) = CF2On ∧ ∀ fuel, is_l1_optimize fuel 6 o = Timeout.
Proof.
  cbv zeta. split; [reflexivity|]. apply (l1_hangs [I2 INS_OBJPUSH 1] (I3 (INS_F2O + 2) 9) 0 6).
  - by repeat (apply Forall_cons; split); try apply Forall_nil.
  - reflexivity.
  - by left.
  - apply (region_app _ 0 _ (encode_prog [I1 INS_RET])). apply region_bstore.
    by repeat (apply Forall_cons; split); try apply Forall_nil.
  - by vm_compute.
  - by vm_compute.
Defined.

(** *** The load/store peephole, as a function on instructions *)

(** [i] followed by [I2 b y] becomes [merged i]. *)
Definition merges (i : instr) (b y : Z) : bool :=
  match i with
  | I2 a x => ((a =? INS_OBJPUSH) || (a =? INS_OBJPOP)) && (b =? INS_OBJPUSH) && (y =? x)
  | _ => false
  end.

Definition merged (i : instr) : list instr :=
  match i with
  | I2 a x => if a =? INS_OBJPUSH then [I2 INS_OBJPUSH x; I1 INS_OBJDUP] else [I2 INS_OBJSTORE x]
  | _ => [i]
  end.

Fixpoint peep (p : list instr) : list instr :=
  match p with
  | [] => []
  | i :: t =>
      match t with
      | I2 b y :: r => if merges i b y then merged i ++ peep r else i :: peep t
      | _ => i :: peep t
      end
  end.

(** the first two instructions of [t] as the pass sees them behind [i] *)
Definition merges_with (i : instr) (t : list instr) : option (list instr) :=
  match t with
  | I2 b y :: r => if merges i b y then Some r else None
  | _ => None
  end.

Lemma peep_cons i t :
  peep (i :: t) = match merges_with i t with
                  | Some r => merged i ++ peep r
                  | None => i :: peep t
                  end.
Proof. destruct t as [|[| b y | |] r]; cbn; try done. by destruct (merges i b y). Qed.

Lemma classify_push op : classify op = CPush → op = INS_OBJPUSH.
Proof.
  unfold classify. intros H. destruct (Z.eqb_spec op INS_OBJPUSH); [done|].
  repeat (case_match; try discriminate).
Qed.

Lemma classify_pop op : classify op = CPop → op = INS_OBJPOP.
Proof.
  unfold classify. intros H. destruct (Z.eqb_spec op INS_OBJPOP); [done|].
  repeat (case_match; try discriminate).
Qed.

Lemma opcode_push_view i :
  instr_wf i = true → opcode_of i = INS_OBJPUSH → ∃ y, i = I2 INS_OBJPUSH y.
Proof.
  intros Hwf Ho. destruct (instr_wf_view i Hwf); cbn in Ho; subst; try done; eauto.
  unfold INS_SYSCALL0, INS_OBJPUSH in *. lia.
Qed.

(** *** Moving the tail down *)

(** [memcpy(b + d, b + d + k, n)], when it takes everything up to the end [e]
    of the contents: everything from [d] on moves down by [k]. *)
Lemma shift_down b d k n e :
  buf_ok b → 0 ≤ d → 0 ≤ k → 0 ≤ n → d + k + n ≤ MAX_BUFFER_SIZE → e - d ≤ n →
  (∀ j, e ≤ j → bget b j = 0) →
  ∃ b', memcpy_buf b b d (d + k) n = Ret b' ∧ buf_ok b' ∧
        (∀ j, j < d → bget b' j = bget b j) ∧ (∀ j, d ≤ j → bget b' j = bget b (j + k)).
Proof.
  intros Hb Hd Hk Hn Hm He Hz. exists (bstore b d (bslice b (d + k) (Z.to_nat n))).
  split; [apply memcpy_buf_in; lia|]. split; [by apply buf_ok_bstore|].
  split; intros j Hj; rewrite bget_bstore, length_bslice; case_decide; try lia; try done.
  - rewrite lookup_bslice by lia. cbn. rewrite u8_id by apply Hb. f_equal. lia.
  - rewrite !Hz by lia. done.
Qed.

(** What the pass keeps: the rest of the program lies at [pc], it ends at
    [size - rdc], and only zeros lie behind. *)
Record ldst_inv (size : Z) (p : peepstate) (rest : list instr) : Prop := {
  li_region : region (code (ist (ps_os p))) (ps_pc p) (encode_prog rest);
  li_end : ps_pc p + psize rest = size - ps_rdc p;
  li_zero : ∀ j, size - ps_rdc p ≤ j → bget (code (ist (ps_os p))) j = 0;
  li_ok : buf_ok (code (ist (ps_os p)));
  li_pc : 0 ≤ ps_pc p;
  li_rdc : 0 ≤ ps_rdc p;
  li_lbls : lbls (ist (ps_os p)) = [];
  li_opts : opts (ps_os p) = []
}.

Lemma l1_after_nop p :
  lbls (ist (ps_os p)) = [] → opts (ps_os p) = [] → l1_after p = Ret p.
Proof.
  intros Hl Ho. unfold l1_after. rewrite backpatch_empty by done. res_cbn.
  unfold is_get_lblrec. rewrite Hl. cbn. by destruct p as [? ? [? ? ?]].
Qed.

(** [same] of the two peephole branches, on an invariant state. *)
Definition next_same (i : instr) (t : list instr) : bool :=
  match i, t with
  | I2 _ x, I2 b y :: _ => (b =? INS_OBJPUSH) && (y =? x)
  | _, _ => false
  end.

Lemma read_same size p a x t :
  ldst_inv size p (I2 a x :: t) → straight_prog (I2 a x :: t) → size + 3 < MAX_BUFFER_SIZE →
  next_is_push (code (ist (ps_os p))) (ps_pc p) x = Ret (next_same (I2 a x) t).
Proof.
  intros [Hr He Hz _ H0 Hrdc _ _] Hs Hm. unfold next_is_push. apply Forall_cons in Hs as [_ Hs].
  rewrite encode_prog_cons in Hr. apply region_app in Hr as [_ Hr]. cbn [encode length] in Hr.
  rewrite psize_cons in He. change (isize (I2 a x)) with 2 in He.
  pose proof (psize_nonneg t). rewrite !rd8_in by lia. res_cbn.
  destruct t as [|i t].
  { cbn. rewrite psize_nil in He. rewrite (Hz (ps_pc p + 2)) by lia. done. }
  apply Forall_cons in Hs as [[Hwf _] _]. rewrite encode_prog_cons in Hr.
  apply region_app in Hr as [Hr _]. change (Z.of_nat 2) with 2 in Hr.
  destruct (encode_cons i) as [tl Htl]. pose proof Hr as Hr'. rewrite Htl in Hr'.
  apply region_cons in Hr' as [Hop _]. rewrite Hop.
  destruct (Z.eqb_spec (opcode_of i) INS_OBJPUSH) as [E|E].
  - destruct (opcode_push_view i Hwf E) as [y ->]. cbn [encode] in Hr.
    apply region_cons in Hr as [_ Hr]. apply region_cons in Hr as [Hy _].
    replace (ps_pc p + 2 + 1) with (ps_pc p + 3) in Hy by lia. by rewrite Hy.
  - destruct i as [op|op y|n api|op w]; try done. cbn in *.
    by rewrite (proj2 (Z.eqb_neq _ _)).
Qed.

Lemma merges_with_spec i t r :
  merges_with i t = Some r →
  ∃ a x, i = I2 a x ∧ (a = INS_OBJPUSH ∨ a = INS_OBJPOP) ∧ t = I2 INS_OBJPUSH x :: r.
Proof.
  destruct t as [|[|b y| |] t]; try done. cbn. destruct i as [|a x| |]; try done. cbn.
  destruct (Z.eqb_spec a INS_OBJPUSH), (Z.eqb_spec a INS_OBJPOP), (Z.eqb_spec b INS_OBJPUSH),
    (Z.eqb_spec y x); try done; cbn; intros [= ->]; subst; eauto 6.
Qed.

Lemma merges_with_none a x t :
  a = INS_OBJPUSH ∨ a = INS_OBJPOP → merges_with (I2 a x) t = None → next_same (I2 a x) t = false.
Proof.
  destruct t as [|[|b y| |] t]; try done. cbn. intros [-> | ->]; cbn;
    by destruct (b =? INS_OBJPUSH), (y =? x).
Qed.

(** The state after an iteration: [hd] was written, [rest] is still to do. *)
Definition ldst_next (size : Z) (p p' : peepstate) (hd rest : list instr) : Prop :=
  ldst_inv size p' rest ∧ ps_pc p' = ps_pc p + psize hd ∧
  region (code (ist (ps_os p'))) (ps_pc p) (encode_prog hd) ∧
  (∀ j, j < ps_pc p → bget (code (ist (ps_os p'))) j = bget (code (ist (ps_os p))) j) ∧
  ist (ps_os p') = set_code (code (ist (ps_os p'))) (ist (ps_os p)).

(** the two merging branches, after their first write *)
Lemma ldst_shift size p a x hd r c1 d k p' :
  ldst_inv size p (I2 a x :: I2 INS_OBJPUSH x :: r) → size + 3 < MAX_BUFFER_SIZE →
  d = ps_pc p + psize hd → 0 < k ≤ psize hd → d + k = ps_pc p + 4 → buf_ok c1 →
  region c1 (ps_pc p) (encode_prog hd) →
  (∀ j, j < ps_pc p ∨ ps_pc p + 4 ≤ j → bget c1 j = bget (code (ist (ps_os p))) j) →
  (∀ c2, memcpy_buf c1 c1 d (d + k) (size - (ps_rdc p + k) - ps_pc p) = Ret c2 →
     ps_pc (p' c2) = d ∧ ps_rdc (p' c2) = ps_rdc p + k ∧
     ist (ps_os (p' c2)) = set_code c2 (ist (ps_os p)) ∧ opts (ps_os (p' c2)) = opts (ps_os p)) →
  ∃ c2, memcpy_buf c1 c1 d (d + k) (size - (ps_rdc p + k) - ps_pc p) = Ret c2 ∧
        ldst_next size p (p' c2) hd r.
Proof.
  intros [Hr He Hz Hok H0 Hrdc Hl Ho] Hm -> Hk Hdk Hok1 Hhd Hsame Hp'.
  rewrite !psize_cons in He. change (isize (I2 a x)) with 2 in He.
  change (isize (I2 INS_OBJPUSH x)) with 2 in He.
  pose proof (psize_nonneg r). pose proof (psize_nonneg hd).
  destruct (shift_down c1 (ps_pc p + psize hd) k (size - (ps_rdc p + k) - ps_pc p) (size - ps_rdc p))
    as (c2 & Hc2 & Hok2 & Hlo & Hhi); try done; try lia.
  { intros j Hj. rewrite Hsame by lia. apply Hz. lia. }
  exists c2. split; [done|]. destruct (Hp' c2 Hc2) as (E1 & E2 & E3 & E4).
  split; [constructor; rewrite ?E1, ?E2, ?E3, ?E4; cbn; try done; try lia|].
  - rewrite !encode_prog_cons in Hr. apply region_app in Hr as [_ Hr]. apply region_app in Hr as [_ Hr].
    cbn [encode length] in Hr. intros j y Hj. rewrite Hhi by lia. rewrite Hsame by lia.
    rewrite <- (Hr j y Hj). f_equal. lia.
  - intros j Hj. rewrite Hhi by lia. rewrite Hsame by lia. apply Hz. lia.
  - rewrite E3. cbn. split; [lia|]. split; [|split; [|done]].
    + eapply region_agree; [exact Hhd|]. intros j Hj. rewrite length_psize in Hj. apply Hlo. lia.
    + intros j Hj. rewrite Hlo, Hsame by lia. done.
Qed.

Lemma l1_push_merge size p x r :
  ldst_inv size p (I2 INS_OBJPUSH x :: I2 INS_OBJPUSH x :: r) →
  straight_prog (I2 INS_OBJPUSH x :: I2 INS_OBJPUSH x :: r) → size + 3 < MAX_BUFFER_SIZE →
  ∃ p', l1_push size x p = Ret p' ∧
        ldst_next size p p' [I2 INS_OBJPUSH x; I1 INS_OBJDUP] r.
Proof.
  intros Hi Hs Hm. pose proof Hi as [Hr He Hz Hok H0 Hrdc Hl Ho].
  rewrite !psize_cons in He. change (isize (I2 INS_OBJPUSH x)) with 2 in He.
  pose proof (psize_nonneg r).
  pose proof (read_same size p _ x _ Hi Hs Hm) as Hsame.
  set (c := code (ist (ps_os p))) in *. set (c1 := <[ps_pc p + 2 := u8 INS_OBJDUP]> c).
  set (p' := λ c2, mkPS (ps_pc p + 3) (ps_rdc p + 1)
         (upd_code c2 (is_l1_push_coderec (ps_pc p + ps_rdc p) 1 (upd_code c1 (ps_os p))).1)).
  destruct (ldst_shift size p INS_OBJPUSH x [I2 INS_OBJPUSH x; I1 INS_OBJDUP] r c1
              (ps_pc p + 3) 1 p') as (c2 & Hc2 & Hn); try done; try lia.
  - subst c1. auto with orb.
  - rewrite !encode_prog_cons in Hr. apply region_app in Hr as [Hr _].
    apply (region_app _ _ [INS_OBJPUSH; x] [INS_OBJDUP]). split.
    + by apply region_insert_ne; [|cbn; right; lia].
    + cbn [length]. change (Z.of_nat 2) with 2. subst c1. region_solve.
  - intros j Hj. subst c1. rewrite bget_insert_ne; [done|lia].
  - exists (p' c2). split; [|done]. unfold l1_push. fold c. rewrite Hsame.
    res_cbn. cbn [next_same]. rewrite !Z.eqb_refl. cbn [andb].
    unfold is_get_lblrec. rewrite Hl. cbn [is_get_lblrec_from]. rewrite bool_decide_true by done.
    wr. fold c1. unfold is_l1_push_coderec. change (u16 1) with 1.
    replace (ps_pc p + 4) with (ps_pc p + 3 + 1) by lia. by rewrite Hc2.
Qed.

Lemma l1_pop_merge size p x r :
  ldst_inv size p (I2 INS_OBJPOP x :: I2 INS_OBJPUSH x :: r) →
  straight_prog (I2 INS_OBJPOP x :: I2 INS_OBJPUSH x :: r) → size + 3 < MAX_BUFFER_SIZE →
  ∃ p', l1_pop size x p = Ret p' ∧ ldst_next size p p' [I2 INS_OBJSTORE x] r.
Proof.
  intros Hi Hs Hm. pose proof Hi as [Hr He Hz Hok H0 Hrdc Hl Ho].
  rewrite !psize_cons in He. change (isize (I2 INS_OBJPUSH x)) with 2 in He.
  change (isize (I2 INS_OBJPOP x)) with 2 in He. pose proof (psize_nonneg r).
  pose proof (read_same size p _ x _ Hi Hs Hm) as Hsame.
  set (c := code (ist (ps_os p))) in *. set (c1 := <[ps_pc p := u8 INS_OBJSTORE]> c).
  set (p' := λ c2, mkPS (ps_pc p + 2) (ps_rdc p + 2)
         (upd_code c2 (is_l1_push_coderec (ps_pc p + ps_rdc p) 2 (upd_code c1 (ps_os p))).1)).
  destruct (ldst_shift size p INS_OBJPOP x [I2 INS_OBJSTORE x] r c1 (ps_pc p + 2) 2 p')
    as (c2 & Hc2 & Hn); try done; try lia.
  - subst c1. auto with orb.
  - rewrite !encode_prog_cons in Hr. apply region_app in Hr as [Hr _].
    apply region_cons in Hr as [_ Hr]. apply (region_cons _ _ INS_OBJSTORE [x]). split.
    + subst c1. by rewrite bget_insert_eq.
    + apply region_insert_ne; [done|lia].
  - intros j Hj. subst c1. rewrite bget_insert_ne; [done|lia].
  - exists (p' c2). split; [|done]. unfold l1_pop. fold c. rewrite Hsame.
    res_cbn. cbn [next_same]. rewrite !Z.eqb_refl. cbn [andb].
    unfold is_get_lblrec. rewrite Hl. cbn [is_get_lblrec_from]. rewrite bool_decide_true by done.
    wr. fold c1. unfold is_l1_push_coderec. change (u16 2) with 2.
    replace (ps_pc p + 4) with (ps_pc p + 2 + 2) by lia. by rewrite Hc2.
Qed.

Lemma skip_next size p i t :
  ldst_inv size p (i :: t) → ldst_next size p (ps_skip (isize i) p) [i] t.
Proof.
  intros [Hr He Hz Hok H0 Hrdc Hl Ho]. rewrite psize_cons in He. pose proof (isize_pos i).
  rewrite encode_prog_cons in Hr. apply region_app in Hr as [Hr1 Hr2].
  split; [constructor; cbn; try done; lia|]. cbn. rewrite psize_cons, psize_nil, Z.add_0_r.
  split; [done|]. split; [|split; [done|]].
  - unfold encode_prog. cbn. by rewrite app_nil_r.
  - by destruct (ps_os p) as [[]].
Qed.

(** One iteration of the load/store peephole. *)
Lemma l1_ldst_step_ok size p i t :
  ldst_inv size p (i :: t) → straight_prog (i :: t) → size + 3 < MAX_BUFFER_SIZE →
  ∃ p' hd rest, l1_ldst_step size p = Ret (inl p') ∧ ldst_next size p p' hd rest ∧
    straight_prog rest ∧ (length rest < length (i :: t))%nat ∧ peep (i :: t) = hd ++ peep rest.
Proof.
  intros Hi Hs Hm. pose proof Hi as [Hr He Hz Hok H0 Hrdc Hl Ho].
  pose proof Hs as Hs'. apply Forall_cons in Hs' as [[Hwf Hst] Hst'].
  rewrite encode_prog_cons in Hr. apply region_app in Hr as [Hr _].
  rewrite psize_cons in He. pose proof (psize_nonneg t). pose proof (isize_pos i).
  assert (Hsz : ps_pc p + isize i ≤ size - ps_rdc p) by lia.
  assert (Hm' : size - ps_rdc p < MAX_BUFFER_SIZE) by lia.
  destruct (read_operand _ _ _ _ Hwf Hst Hr H0 Hsz Hm') as (x & Hx & _ & Hxa).
  assert (Hafter : ∀ p', l1_ldst_step size p = (p2 ← l1_after p'; Ret (inl p2)) →
            ∀ hd rest, ldst_next size p p' hd rest → l1_ldst_step size p = Ret (inl p')).
  { intros p' -> hd rest [[] _]. by rewrite l1_after_nop. }
  assert (Hstep : l1_ldst_step size p =
    (p1 ← (if decide (class_of i = CPush) then l1_push size x p
           else if decide (class_of i = CPop) then l1_pop size x p
           else Ret (ps_skip (isize i) p)); p2 ← l1_after p1; Ret (inl p2))).
  { unfold l1_ldst_step. rewrite (proj2 (Z.eqb_neq _ _)) by lia.
    rewrite (read_opcode _ _ _ _ Hr H0 Hsz Hm'). res_cbn. rewrite Hx. res_cbn.
    fold (class_of i). rewrite (straight_size i Hwf Hst). unfold straight in Hst.
    by destruct (class_of i). }
  rewrite peep_cons. destruct (merges_with i t) as [r|] eqn:Em.
  - apply merges_with_spec in Em as (a & y & -> & Ha & ->).
    assert (Hr' : straight_prog r) by (by apply Forall_cons in Hst' as [_ ?]).
    rewrite (Hxa _ _ eq_refl) in Hstep. destruct Ha as [-> | ->]; cbn [merged].
    + destruct (l1_push_merge size p y r Hi Hs Hm) as (p' & Hp & Hn).
      exists p', [I2 INS_OBJPUSH y; I1 INS_OBJDUP], r. split; [|cbn; auto with lia].
      eapply Hafter; [|done]. rewrite Hstep, decide_True by done. by rewrite Hp.
    + destruct (l1_pop_merge size p y r Hi Hs Hm) as (p' & Hp & Hn).
      exists p', [I2 INS_OBJSTORE y], r. split; [|cbn; auto with lia].
      eapply Hafter; [|done]. rewrite Hstep, decide_False, decide_True by done. by rewrite Hp.
  - exists (ps_skip (isize i) p), [i], t. pose proof (skip_next size p i t Hi) as Hn.
    split; [|cbn; auto with lia]. eapply Hafter; [|done]. rewrite Hstep.
    assert (Hns : ∀ a y, i = I2 a y → a = INS_OBJPUSH ∨ a = INS_OBJPOP →
                  next_is_push (code (ist (ps_os p))) (ps_pc p) x = Ret false).
    { intros a y -> Ha. rewrite (Hxa _ _ eq_refl).
      erewrite read_same by done. by rewrite merges_with_none. }
    destruct (decide (class_of i = CPush)) as [Ep|Ep].
    { apply classify_push in Ep. destruct (opcode_push_view i Hwf Ep) as [y ->].
      unfold l1_push. by erewrite Hns by eauto. }
    destruct (decide (class_of i = CPop)) as [Eo|Eo]; [|done].
    pose proof (classify_pop _ Eo) as Eo'. unfold l1_pop.
    destruct (instr_wf_view i Hwf) as [op Hb Hc|op y Hb Hc Hy|n api Hn' Ha Hc|op w Hb Hc Hw];
      cbn in Eo'; subst; try done; [by erewrite Hns by eauto|].
    unfold INS_SYSCALL0, INS_OBJPOP in *. lia.
Qed.

(** The whole pass. *)
Lemma l1_ldst_iters size p prog :
  ldst_inv size p prog → straight_prog prog → size + 3 < MAX_BUFFER_SIZE →
  ∃ n p', iters (l1_ldst_step size) n p p' ∧ (n ≤ length prog)%nat ∧
          ldst_next size p p' (peep prog) [].
Proof.
  remember (length prog) as k eqn:Ek. revert p prog Ek.
  induction (lt_wf k) as [k _ IH]. intros p prog -> Hi Hs Hm.
  destruct prog as [|i t].
  { exists 0%nat, p. split; [constructor|]. split; [done|]. split; [done|].
    cbn [peep]. rewrite psize_nil, Z.add_0_r. split; [done|]. split; [apply region_nil|].
    split; [done|]. by destruct (ist (ps_os p)). }
  destruct (l1_ldst_step_ok size p i t Hi Hs Hm)
    as (p1 & hd & rest & Hstep & (Hi1 & Hpc1 & Hr1 & Hlo1 & Hs1) & Hsr & Hlt & ->).
  destruct (IH (length rest) Hlt p1 rest eq_refl Hi1 Hsr Hm)
    as (n & p2 & Hit & Hn & (Hi2 & Hpc2 & Hr2 & Hlo2 & Hs2)).
  exists (S n), p2. split; [by econstructor|]. split; [lia|]. split; [done|].
  rewrite psize_app. split; [lia|]. split; [|split].
  - rewrite encode_prog_app. apply region_app. rewrite length_psize, <- Hpc1.
    split; [|done]. eapply region_agree; [exact Hr1|].
    intros j Hj. rewrite length_psize in Hj. apply Hlo2. lia.
  - intros j Hj. pose proof (psize_nonneg hd). rewrite Hlo2, Hlo1 by lia. done.
  - rewrite Hs2 at 1. rewrite Hs1. done.
Qed.

(** *** Passes that only walk *)
Lemma walk_iters {St} (step : St → res (St + St)) (mk : Z → St) c size p pc :
  (∀ pc i, instr_wf i = true → straight i = true → region c pc (encode i) → 0 ≤ pc →
     pc + isize i ≤ size → step (mk pc) = Ret (inl (mk (pc + isize i)))) →
  straight_prog p → region c pc (encode_prog p) → 0 ≤ pc → pc + psize p ≤ size →
  iters step (length p) (mk pc) (mk (pc + psize p)).
Proof.
  intros Hstep Hp. revert pc. induction Hp as [|i p [Hwf Hst] Hp IH]; intros pc Hr H0 Hsz.
  { rewrite psize_nil, Z.add_0_r. constructor. }
  rewrite psize_cons in *. rewrite encode_prog_cons in Hr. apply region_app in Hr as [Hr1 Hr2].
  pose proof (psize_nonneg p). pose proof (isize_pos i). rewrite Z.add_assoc.
  econstructor; [apply Hstep; try done; lia|]. apply IH; [done|lia|lia].
Qed.

Lemma l1_jump_straight size o pc i :
  lbls (ist o) = [] → opts o = [] → size < MAX_BUFFER_SIZE →
  instr_wf i = true → straight i = true → region (code (ist o)) pc (encode i) → 0 ≤ pc →
  pc + isize i ≤ size →
  l1_jump_step size (mkPS pc 0 o) = Ret (inl (mkPS (pc + isize i) 0 o)).
Proof.
  intros Hl Ho Hm Hwf Hst Hr H0 Hsz. pose proof (isize_pos i).
  destruct (read_operand _ _ _ _ Hwf Hst Hr H0 Hsz Hm) as (x & Hx & _).
  unfold l1_jump_step. cbn [ps_pc ps_rdc ps_os]. rewrite (proj2 (Z.eqb_neq _ _)) by lia.
  rewrite (read_opcode _ _ _ _ Hr H0 Hsz Hm). res_cbn. rewrite Hx. res_cbn.
  fold (class_of i). rewrite (straight_size i Hwf Hst). unfold straight in Hst.
  destruct (class_of i); try done; res_cbn; by rewrite l1_after_nop.
Qed.

Lemma l1_switch_straight size o pc i :
  size < MAX_BUFFER_SIZE →
  instr_wf i = true → straight i = true → region (code (ist o)) pc (encode i) → 0 ≤ pc →
  pc + isize i ≤ size →
  l1_switch_step size (pc, o) = Ret (inl (pc + isize i, o)).
Proof.
  intros Hm Hwf Hst Hr H0 Hsz. pose proof (isize_pos i).
  destruct (read_operand _ _ _ _ Hwf Hst Hr H0 Hsz Hm) as (x & Hx & _).
  unfold l1_switch_step. cbn [fst snd]. rewrite (proj2 (Z.eqb_neq _ _)) by lia.
  rewrite (read_opcode _ _ _ _ Hr H0 Hsz Hm). res_cbn. rewrite Hx. res_cbn.
  fold (class_of i). rewrite (straight_size i Hwf Hst). unfold straight in Hst.
  by destruct (class_of i).
Qed.

Lemma peep_straight p : straight_prog p → straight_prog (peep p).
Proof.
  remember (length p) as k eqn:Ek. revert p Ek.
  induction (lt_wf k) as [k _ IH]. intros p -> Hp.
  destruct p as [|i t]; [done|]. rewrite peep_cons.
  pose proof Hp as Hp'. apply Forall_cons in Hp' as [[Hwf Hst] Ht].
  destruct (merges_with i t) as [r|] eqn:Em.
  - apply merges_with_spec in Em as (a & x & -> & Ha & ->).
    apply Forall_cons in Ht as [_ Hr]. apply Forall_app. split.
    + cbn in Hwf. apply andb_true_iff in Hwf as [_ Hx].
      destruct Ha as [-> | ->]; cbn; repeat (apply Forall_cons; split); try apply Forall_nil;
        cbn; rewrite ?Hx; done.
    + eapply IH; [|done|done]. cbn. lia.
  - apply Forall_cons. split; [done|]. eapply IH; [|done|done]. cbn. lia.
Qed.

Lemma length_peep p : (length (peep p) ≤ length p)%nat.
Proof.
  remember (length p) as k eqn:Ek. revert p Ek.
  induction (lt_wf k) as [k _ IH]. intros p ->.
  destruct p as [|i t]; [done|]. rewrite peep_cons.
  destruct (merges_with i t) as [r|] eqn:Em.
  - apply merges_with_spec in Em as (a & x & -> & Ha & ->). rewrite length_app. cbn [length].
    pose proof (IH (length r) ltac:(cbn; lia) r eq_refl).
    cbn [merged]. destruct (_ =? _); cbn; lia.
  - cbn. pose proof (IH (length t) ltac:(cbn; lia) t eq_refl). lia.
Qed.

Lemma l1_optimize_spec prog o fuel :
  straight_prog prog → region (code (ist o)) 0 (encode_prog prog) →
  (∀ j, psize prog ≤ j → bget (code (ist o)) j = 0) → buf_ok (code (ist o)) →
  psize prog + 3 < MAX_BUFFER_SIZE → lbls (ist o) = [] → opts o = [] →
  (length prog < fuel)%nat →
  ∃ o', is_l1_optimize fuel (psize prog) o = Ret (o', psize (peep prog)) ∧
        bslice (code (ist o')) 0 (Z.to_nat (psize (peep prog))) = encode_prog (peep prog) ∧
        (∀ j, psize (peep prog) ≤ j → bget (code (ist o')) j = 0) ∧
        ist o' = set_code (code (ist o')) (ist o) ∧ cdrs o' = [] ∧ opts o' = [] ∧
        psize (peep prog) ≤ psize prog ∧ buf_ok (code (ist o')).
Proof.
  intros Hp Hr Hz Hok Hm Hl Ho Hf. pose proof (psize_nonneg prog).
  destruct (l1_flow_iters fuel (psize prog) prog 0 (ist o)) as (s' & Hit & _ & _ & Hsame);
    try done; try lia.
  rewrite Hsame in Hit by done. clear s' Hsame. unfold is_l1_optimize.
  rewrite (loop_exit _ _ fuel _ _ (0 + psize prog, ist o) Hit);
    [|unfold l1_flow_step; cbn; by rewrite Z.eqb_refl|done].
  res_cbn. replace (set_ist (is_clear_unused_lblrec (ist o)) o) with o.
  2: { unfold is_clear_unused_lblrec. rewrite Hl. destruct o as [[] ? ?]. cbn in *. by subst. }
  pose proof (walk_iters (l1_jump_step (psize prog)) (λ pc, mkPS pc 0 o) (code (ist o))
    (psize prog) prog 0) as Hj.
  rewrite (loop_exit _ _ fuel _ _ (mkPS (0 + psize prog) 0 o)
             (Hj ltac:(intros; apply l1_jump_straight; try done; lia) Hp Hr ltac:(lia) ltac:(lia)));
    [|unfold l1_jump_step; cbn [ps_pc ps_rdc]; by rewrite Z.sub_0_r, Z.add_0_l, Z.eqb_refl|done].
  res_cbn. cbn [ps_pc ps_rdc ps_os]. rewrite Z.sub_0_r.
  set (o2 := is_l1_clear_optrec _).
  destruct (l1_ldst_iters (psize prog) (mkPS 0 0 o2) prog) as (n & q & Hq & Hn & Hi & Hpc & Hrq & _ & Hs);
    [|done|lia|].
  { constructor; cbn; try done; rewrite ?Z.sub_0_r; done || lia. }
  destruct Hi as [_ He Hzq Hokq _ Hrdc Hlq Hoq]. cbn [ps_pc] in *.
  rewrite psize_nil, Z.add_0_r, Z.add_0_l in *.
  rewrite (loop_exit _ _ fuel _ _ q Hq);
    [|unfold l1_ldst_step; by rewrite He, Z.eqb_refl|lia].
  res_cbn. pose proof (peep_straight prog Hp) as Hps. pose proof (psize_nonneg (peep prog)).
  pose proof (walk_iters (l1_switch_step (psize prog - ps_rdc q)) (λ pc, (pc, ps_os q))
    (code (ist (ps_os q))) (psize prog - ps_rdc q) (peep prog) 0) as Hw.
  rewrite (loop_exit _ _ fuel _ _ (0 + psize (peep prog), ps_os q)
     (Hw ltac:(intros; apply l1_switch_straight; try done; lia) Hps Hrq ltac:(lia) ltac:(lia)));
    [|unfold l1_switch_step; cbn [fst]; by rewrite Z.add_0_l, <- Hpc, He, Z.eqb_refl
     |pose proof (length_peep prog); lia].
  res_cbn. rewrite Z.add_0_l. eexists. split; [done|]. cbn [is_l1_clear_optrec is_l1_clear_coderec
    ist cdrs opts].
  split; [|split; [|split; [exact Hs|]]].
  - replace (Z.to_nat (psize (peep prog))) with (length (encode_prog (peep prog)))
      by (unfold psize; lia). by apply region_to_bslice.
  - intros j Hj0. apply Hzq. lia.
  - split; [done|]. split; [done|]. split; [lia|done].
Qed.

(** C7: on straight-line code the level-1 optimiser computes the reference
    peephole. Given code of straight-line instructions, nothing but zeros
    behind it and no labels, [is_l1_optimize] ends, returns the size of
    [peep prog], and leaves exactly the encoding of [peep prog] with zeros
    behind; pool, labels and records are as before, and the result is never
    longer. *)
Theorem l1_optimize_peep prog o fuel :
  straight_prog prog → region (code (ist o)) 0 (encode_prog prog) →
  (∀ j, psize prog ≤ j → bget (code (ist o)) j = 0) → buf_ok (code (ist o)) →
  psize prog + 3 < MAX_BUFFER_SIZE → lbls (ist o) = [] → opts o = [] →
  (length prog < fuel)%nat →
  ∃ o', is_l1_optimize fuel (psize prog) o = Ret (o', psize (peep prog)) ∧
        bslice (code (ist o')) 0 (Z.to_nat (psize (peep prog))) = encode_prog (peep prog) ∧
        (∀ j, psize (peep prog) ≤ j → bget (code (ist o')) j = 0) ∧
        ist o' = set_code (code (ist o')) (ist o) ∧ cdrs o' = [] ∧ opts o' = [] ∧
        psize (peep prog) ≤ psize prog ∧ buf_ok (code (ist o')).
Proof. intros. by apply l1_optimize_spec. Qed.

Definition l1_demo : list instr :=
  [I2 INS_OBJPOP 3; I2 INS_OBJPUSH 3; I2 INS_OBJPUSH 3; I1 INS_ADD;
   I2 INS_OBJPUSH 1; I2 INS_OBJPUSH 1; I2 INS_OBJPUSH 1; I1 INS_RET].

Lemma l1_optimize_peep_witness :
  let s := mkIS (bstore ∅ 0 (encode_prog l1_demo)) ∅ 0 14 [] ∅ in
  ∃ o', is_l1_optimize 20 14 (mkOS s [] []) = Ret (o', 11) ∧
        bslice (code (ist o')) 0 11 =
          encode_prog [I2 INS_OBJSTORE 3; I2 INS_OBJPUSH 3; I1 INS_ADD;
                       I2 INS_OBJPUSH 1; I1 INS_OBJDUP; I2 INS_OBJPUSH 1; I1 INS_RET] ∧
        (∀ j, 11 ≤ j → bget (code (ist o')) j = 0) ∧
        ist o' = set_code (code (ist o')) s ∧ cdrs o' = [] ∧ opts o' = [] ∧ 11 ≤ 14 ∧
        buf_ok (code (ist o')).
Proof.
  cbv zeta. refine (l1_optimize_peep l1_demo _ 20 _ _ _ _ _ _ _ _).
  - by repeat (apply Forall_cons; split); try apply Forall_nil.
  - apply region_bstore. by repeat (apply Forall_cons; split); try apply Forall_nil.
  - intros j Hj. exact (bget_bstore_out ∅ 0 (encode_prog l1_demo) j (or_intror Hj)).
  - apply buf_ok_bstore, buf_ok_empty.
  - by vm_compute.
  - reflexivity.
  - reflexivity.
  - vm_compute. lia.
Defined.

(** ** Where the optimiser departs from its purpose *)

Lemma l1_flow_ext_syscall fuel size pc s n api :
  instr_wf (ISys n api) = true → 254 ≤ api → region (code s) pc (encode (ISys n api)) →
  0 ≤ pc → pc + 4 ≤ size → size < MAX_BUFFER_SIZE →
  l1_flow_step fuel size (pc, s) = Ret (inl (pc + 4, s)).
Proof.
  intros Hwf Hapi Hr H0 Hsz Hm.
  assert (Hi : isize (ISys n api) = 4).
  { unfold isize. cbn. by rewrite (proj2 (Z.ltb_ge _ _)). }
  assert (Hm' : pc + isize (ISys n api) ≤ MAX_BUFFER_SIZE) by lia.
  unfold l1_flow_step. cbn [fst snd]. rewrite (proj2 (Z.eqb_neq _ _)) by lia.
  rewrite (fetch_opcode _ _ _ Hr H0 Hm'). res_cbn.
  rewrite (fetch_sys _ _ _ Hwf Hr H0 Hm' n api eq_refl). res_cbn.
  rewrite (proj2 (Z.ltb_ge api _)) by lia. cbn [opcode_of]. rewrite classify_syscall; [done|].
  cbn in Hwf. apply andb_true_iff in Hwf as [[? ?]%andb_true_iff _]. lia.
Qed.

(** Extended system calls hang the optimiser. Its first pass steps over
    the four bytes of a system call numbered 254 or more, but the jump
    peephole takes it for two bytes and reads the high byte of the number as
    an opcode; when that is no opcode it lists (every number below 2048), the
    loop never moves again. *)
Theorem l1_extended_syscall_hangs p n api q o :
  straight_prog p → straight_prog q → instr_wf (ISys n api) = true →
  254 ≤ api < 2048 → lbls (ist o) = [] → opts o = [] →
  let prog := p ++ ISys n api :: q in
  region (code (ist o)) 0 (encode_prog prog) → psize prog < MAX_BUFFER_SIZE →
  ∀ fuel, is_l1_optimize fuel (psize prog) o = Timeout.
Proof.
  intros Hp Hq Hwf Hapi Hl Ho prog Hr Hm fuel. pose proof (psize_nonneg p). pose proof (psize_nonneg q).
  assert (Hi : isize (ISys n api) = 4).
  { unfold isize. cbn. by rewrite (proj2 (Z.ltb_ge _ _)) by lia. }
  assert (Hps : psize prog = psize p + (4 + psize q)).
  { subst prog. by rewrite psize_app, psize_cons, Hi. }
  subst prog. rewrite encode_prog_app, encode_prog_cons in Hr.
  apply region_app in Hr as [Hr1 Hr2]. rewrite length_psize, Z.add_0_l in Hr2.
  apply region_app in Hr2 as [Hr2 Hr3]. fold (isize (ISys n api)) in Hr3. rewrite Hi in Hr3.
  set (size := psize (p ++ ISys n api :: q)) in *.
  destruct (l1_flow_iters fuel size p 0 (ist o)) as (s1 & Hit1 & _ & _ & Hs1); try done; try lia.
  rewrite Hs1 in Hit1 by done.
  destruct (l1_flow_iters fuel size q (psize p + 4) (ist o)) as (s2 & Hit2 & _ & _ & Hs2);
    try done; try lia.
  rewrite Hs2 in Hit2 by done.
  pose proof (l1_flow_ext_syscall fuel size (psize p) (ist o) n api Hwf ltac:(lia) Hr2
                ltac:(lia) ltac:(lia) Hm) as Hstep.
  pose proof (iters_trans _ _ _ _ _ _ Hit1 (iters_S _ _ _ _ _ Hstep Hit2)) as Hit.
  unfold is_l1_optimize.
  destruct (loop_cases _ _ _ _ (psize p + 4 + psize q, ist o) fuel Hit) as [-> | ->]; [|done|].
  { unfold l1_flow_step. cbn [fst]. by rewrite (proj2 (Z.eqb_eq _ _)) by lia. }
  res_cbn. replace (set_ist (is_clear_unused_lblrec (ist o)) o) with o.
  2: { unfold is_clear_unused_lblrec. rewrite Hl. destruct o as [[] ? ?]. cbn in *. by subst. }
  pose proof (walk_iters (l1_jump_step size) (λ pc, mkPS pc 0 o) (code (ist o)) size p 0
    ltac:(intros; apply l1_jump_straight; try done; lia) Hp Hr1 ltac:(lia) ltac:(lia)) as Hj.
  assert (Hop : rd8 (code (ist o)) (psize p + 1) = Ret 255 ∧
                rd8 (code (ist o)) (psize p + 2) = Ret (api / 256)).
  { cbn [encode] in Hr2. rewrite (proj2 (Z.ltb_ge api _)) in Hr2 by lia.
    do 2 apply region_cons in Hr2 as [? Hr2]. apply region_cons in Hr2 as [Hb _].
    rewrite !rd8_in by lia. split; [congruence|]. rewrite <- Hb. do 2 f_equal. lia. }
  destruct Hop as [Ha Hop].
  assert (Hsys : l1_jump_step size (mkPS (psize p) 0 o) = Ret (inl (mkPS (psize p + 2) 0 o))).
  { unfold l1_jump_step. cbn [ps_pc ps_rdc ps_os]. rewrite (proj2 (Z.eqb_neq _ _)) by lia.
    rewrite (fetch_opcode _ _ _ Hr2 ltac:(lia) ltac:(lia)). res_cbn. rewrite Ha. res_cbn.
    cbn [opcode_of]. rewrite classify_syscall. 2: {
      cbn in Hwf. apply andb_true_iff in Hwf as [[? ?]%andb_true_iff _]. lia. }
    res_cbn. by rewrite l1_after_nop. }
  rewrite Z.add_0_l in Hj.
  rewrite (loop_iters_timeout _ _ _ _ (iters_trans _ _ _ _ _ _ Hj (iters_one _ _ _ Hsys)));
    [done|]. intros fuel'. apply loop_stuck.
  unfold l1_jump_step. cbn [ps_pc ps_rdc ps_os]. rewrite (proj2 (Z.eqb_neq _ _)) by lia.
  rewrite Hop. res_cbn. rewrite rd8_in by lia. res_cbn.
  assert (Hc : classify (api / 256) = CNop ∨ classify (api / 256) = CUnknown).
  { assert (Hb : 0 ≤ api / 256 < 8).
    { split; [apply Z.div_pos; lia|apply Z.div_lt_upper_bound; lia]. }
    assert (Hin : In (api / 256) (seqZ 0 8)) by (apply list_elem_of_In, elem_of_seqZ; lia).
    cbv [seqZ seq fmap list_fmap] in Hin. repeat destruct Hin as [<-|Hin]; auto; done. }
  destruct Hc as [-> | ->]; res_cbn; by rewrite l1_after_nop.
Qed.

Lemma l1_extended_syscall_hangs_witness :
  let s := mkIS (bstore ∅ 0 (encode_prog [I2 INS_OBJPUSH 0; ISys 1 300; I1 INS_RET])) ∅ 0 7 [] ∅ in
  ∀ fuel, is_l1_optimize fuel 7 (mkOS s [] []) = Timeout.
Proof.
  cbv zeta. refine (l1_extended_syscall_hangs [I2 INS_OBJPUSH 0] 1 300 [I1 INS_RET] _ _ _ _ _ _ _ _ _).
  - by repeat (apply Forall_cons; split); try apply Forall_nil.
  - by repeat (apply Forall_cons; split); try apply Forall_nil.
  - reflexivity.
  - lia.
  - reflexivity.
  - reflexivity.
  - apply region_bstore. by repeat (apply Forall_cons; split); try apply Forall_nil.
  - by vm_compute.
Defined.

(** A transfer to the next instruction is deleted, whichever it is. When
    the operand of a jump, a call, a conditional jump or an [INS_F2O] is the
    address behind it, the three bytes go, the rest of the code moves down and
    the reduction is recorded. For [INS_JMP] this is the purpose; [INS_JFALSE]
    and [INS_JTRUE] would have popped the stack, [INS_F2O] pushed a function
    object and [INS_CALL] two words, and those effects are lost. *)
Theorem l1_deletes_next_transfer size op w pc rdc o :
  let c := code (ist o) in
  region c pc (encode (I3 op w)) → instr_wf (I3 op w) = true → w = pc + 3 + rdc →
  0 ≤ pc → 0 ≤ rdc → pc + 3 ≤ size - rdc → size + 3 ≤ MAX_BUFFER_SIZE →
  buf_ok c → (∀ j, size - rdc ≤ j → bget c j = 0) →
  ∃ c', l1_jump size op (mkPS pc rdc o) =
          Ret (mkPS pc (rdc + 3) (is_l1_push_coderec (pc + rdc) 3 (upd_code c' o)).1) ∧
        (∀ j, j < pc → bget c' j = bget c j) ∧ (∀ j, pc ≤ j → bget c' j = bget c (j + 3)).
Proof.
  intros c Hr Hwf Hw H0 Hrdc Hsz Hm Hok Hz.
  destruct (shift_down c pc 3 (size - rdc - pc) (size - rdc)) as (c' & Hc & _ & Hlo & Hhi);
    try done; try lia.
  exists c'. split; [|done]. unfold l1_jump. cbn [ps_pc ps_rdc ps_os]. fold c.
  rewrite (fetch_word _ _ _ Hwf Hr H0 ltac:(unfold isize; cbn; lia) op w eq_refl). res_cbn.
  rewrite (proj2 (Z.eqb_eq _ _)) by done. rewrite Hc. res_cbn. by rewrite Z.add_0_r.
Qed.

Lemma l1_deletes_next_transfer_witness :
  let c := bstore ∅ 0 (encode_prog [I3 INS_JFALSE 3; I1 INS_RET]) in
  let o := mkOS (mkIS c ∅ 0 4 [] ∅) [] [] in
  ∃ c', l1_jump 4 INS_JFALSE (mkPS 0 0 o) =
          Ret (mkPS 0 3 (is_l1_push_coderec (0 + 0) 3 (upd_code c' o)).1) ∧
        (∀ j, j < 0 → bget c' j = bget c j) ∧ (∀ j, 0 ≤ j → bget c' j = bget c (j + 3)).
Proof.
  cbv zeta. refine (l1_deletes_next_transfer 4 INS_JFALSE 3 0 0 _ _ _ _ _ _ _ _ _ _); try lia.
  - apply (region_app _ 0 _ (encode_prog [I1 INS_RET])). apply region_bstore.
    by repeat (apply Forall_cons; split); try apply Forall_nil.
  - reflexivity.
  - by vm_compute.
  - apply buf_ok_bstore, buf_ok_empty.
  - intros j Hj.
    exact (bget_bstore_out ∅ 0 (encode_prog [I3 INS_JFALSE 3; I1 INS_RET]) j (or_intror Hj)).
Defined.

(** Two runs of the whole optimiser that show what the passes share badly. *)
Definition run_l1 (p : list instr) (d : list Z) (l : list lblrec) : res (list Z * list Z * list Z) :=
  let s := mkIS (bstore ∅ 0 (encode_prog p)) (bstore ∅ 0 d) (Z.of_nat (length d)) (psize p) l ∅ in
  r ← is_l1_optimize 100 (psize p) (mkOS s [] []);
  Ret (bslice (code (ist r.1)) 0 (Z.to_nat r.2), bslice (data (ist r.1)) 0 (length d),
       lb_offset <$> lbls (ist r.1)).

(** [0: push 1; 2: push 1; 4: pop 2; L6: push 2; 8: add; 9: add; 10: jmp L6] *)
Definition loop_demo : list instr :=
  [I2 INS_OBJPUSH 1; I2 INS_OBJPUSH 1; I2 INS_OBJPOP 2; I2 INS_OBJPUSH 2; I1 INS_ADD;
   I1 INS_ADD; I3 INS_JMP 6].

(** A store is merged across the head of a loop. After one reduction the
    peephole asks for a label at the new address of the next instruction while
    the label still has its old one: [pop 2; L: push 2] with a jump back to
    [L] becomes [store 2], and the jump goes to the store: the loop no longer
    pushes. *)
Theorem l1_merges_across_label :
  run_l1 loop_demo [] [mkLbl 6 0 None "loop"] =
    Ret (encode_prog [I2 INS_OBJPUSH 1; I1 INS_OBJDUP; I2 INS_OBJSTORE 2;
                      I1 INS_ADD; I1 INS_ADD; I3 INS_JMP 3],
         [], [6]).
Proof. by vm_compute. Qed.

(** [0: jmp 3; 3: switch table 0; 6: ret], every case of the table to 6 *)
Definition switch_demo : list instr := [I3 INS_JMP 3; I3 INS_SWITCH 0; I1 INS_RET].

(** Jump tables miss the first peephole. The reductions of the jump
    peephole are cleared before the pass over the tables: the deleted jump
    moves the code of every case down by three, the targets in the table stay. *)
Theorem l1_switch_targets_stale :
  run_l1 switch_demo (6 :: word 6 ++ word 20 ++ word 6) [] =
    Ret (encode_prog [I3 INS_SWITCH 0; I1 INS_RET], 6 :: word 6 ++ word 20 ++ word 6, []).
Proof. by vm_compute. Qed.
