(* ===== verification/L2.v ===== *)
(** * The level-2 optimiser (StackLib/Stack/il2_optimizer.c)

    Three passes over the code buffer: removal of variables that are never
    loaded together with jump threading, compaction of the [INS_NOP] left
    behind, and the translation of jump tables. The records are those of
    il_streamer.h; the file has its own lists and its own copies of the list
    functions. *)
From S2P Require Import Prelude Isa Streamer Linker L1.

(** ** Records *)
Definition is_l2_create_optrec (offset opt_offset ins index : Z) : optrec :=
  mkOpt (u8 ins) (u16 index) (u16 offset) (u16 opt_offset).

Definition is_l2_add_optrec (r : optrec) (l : list optrec) : list optrec := l ++ [r].

Definition is_l2_push_jump (offset opt_offset ins index : Z) (o : optstate) : optstate :=
  mkOS (ist o) (is_l2_add_optrec (is_l2_create_optrec offset opt_offset ins index) (opts o))
       (cdrs o).

Fixpoint is_l2_backpatch_walk (offset opt_offset : Z) (l : list optrec) (c : buf)
    : res (buf * option optrec) :=
  match l with
  | [] => Ret (c, None)
  | r :: l' =>
      c1 ← (if o_index r =? offset then
              c' ← wr8 c (o_opt_offset r) (o_ins r);
              st16 c' (o_opt_offset r + 1) opt_offset
            else Ret c);
      is_l2_backpatch_walk offset opt_offset l' c1
  end.

(** [return iterator->offset] behind the loop dereferences the iterator. *)
Definition is_l2_backpatch (offset opt_offset : Z) (o : optstate) : res (optstate * Z) :=
  match opts o with
  | [] => Ret (o, 0)
  | l =>
      w ← is_l2_backpatch_walk (u16 offset) (u16 opt_offset) l (code (ist o));
      iterator ← from_option_ub w.2;
      Ret (upd_code w.1 o, o_offset iterator)
  end.

Definition is_l2_create_coderec (offset rdc : Z) : coderec := mkCode (u16 offset) (u16 rdc).

Definition is_l2_add_coderec (r : coderec) (l : list coderec) : list coderec := l ++ [r].

Definition is_l2_push_coderec (offset rdc : Z) (o : optstate) : optstate * Z :=
  (mkOS (ist o) (opts o) (is_l2_add_coderec (is_l2_create_coderec offset rdc) (cdrs o)),
   u16 rdc).

Fixpoint is_l2_translate_walk (offset l_offset rdc : Z) (l : list coderec) : Z :=
  match l with
  | [] => l_offset
  | r :: l' =>
      let rdc := rdc + c_rdc r in
      let moved := u16 (u16 (c_offset r - rdc) + (offset - c_offset r)) in
      match l' with
      | next :: _ =>
          if (c_offset r <=? offset) && (offset <? c_offset next) then moved
          else is_l2_translate_walk offset l_offset rdc l'
      | [] => if c_offset r <=? offset then moved else l_offset
      end
  end.

Definition is_l2_translate (offset : Z) (l : list coderec) : Z :=
  is_l2_translate_walk (u16 offset) (u16 offset) 0 l.

(** The jump tables go through [is_l1_translate], over the list of the
    level-1 optimiser: [l1] is that list. *)
Definition is_l2_jumptable_step (l1 : list coderec) (jt_offset cp_size : Z) (st : Z * buf)
    : res ((Z * buf) + (Z * buf)) :=
  let i := st.1 in
  if i <? cp_size then
    index ← ld16 st.2 (jt_offset + i + 2);
    d ← st16 st.2 (jt_offset + i + 2) (is_l1_translate index l1);
    Ret (inl (i + 4, d))
  else Ret (inr st).

Definition is_l2_jumptable_reloc (l1 : list coderec) (jt_offset : Z) (d : buf) : res (buf * Z) :=
  cp_size ← rd8 d jt_offset;
  let jt_offset := jt_offset + 1 in
  index ← ld16 d jt_offset;
  d1 ← st16 d jt_offset (is_l1_translate index l1);
  r ← loop 65 (is_l2_jumptable_step l1 jt_offset cp_size) (2, d1);
  Ret (r.2, r.1).

Definition is_l2_clear_coderec (o : optstate) : optstate := mkOS (ist o) (opts o) [].
Definition is_l2_clear_optrec (o : optstate) : optstate := mkOS (ist o) [] (cdrs o).

(** ** Variables of a function

    The three walks start at an [INS_SCTX] and stop at the first [INS_RET]. *)
Definition l2_remove_step (var_id size : Z) (st : Z * buf) : res ((Z * buf) + buf) :=
  let pc := st.1 in let c := st.2 in
  if pc =? size then Ret (inr c)
  else
    opcode ← rd8 c pc;
    operand ← rd8 c (pc + 1);
    match classify opcode with
    | CLbl => Ret (inl (pc + (operand + 2), c))
    | CPlain | CNop => Ret (inl (pc + 1, c))
    | CRet => Ret (inr c)
    | CSys | CSctx | CRctx => Ret (inl (pc + 2, c))
    | CPop | CStore | CPush =>
        c1 ← (if operand =? var_id then
                c' ← wr8 c pc INS_NOP; wr8 c' (pc + 1) INS_NOP
              else Ret c);
        Ret (inl (pc + 2, c1))
    | CSwitch | CCall | CNew | CExt | CConst => Ret (inl (pc + 3, c))
    | CF2O | CJtrue | CJfalse | CJmp => Ret (inl (pc + 3, c))
    | CF2On | CUnknown => Ret (inl (pc, c))
    end.

Definition is_l2_remove_var (fuel : nat) (start_offset var_id size : Z) (c : buf) : res buf :=
  loop fuel (l2_remove_step (u8 var_id) size) (u16 start_offset, c).

Definition l2_replace_step (var_id new_id size : Z) (st : Z * buf) : res ((Z * buf) + buf) :=
  let pc := st.1 in let c := st.2 in
  if pc =? size then Ret (inr c)
  else
    opcode ← rd8 c pc;
    operand ← rd8 c (pc + 1);
    match classify opcode with
    | CLbl => Ret (inl (pc + (operand + 2), c))
    | CPlain | CNop => Ret (inl (pc + 1, c))
    | CRet => Ret (inr c)
    | CSys | CSctx | CRctx => Ret (inl (pc + 2, c))
    | CPop | CStore | CPush =>
        c1 ← (if operand =? var_id then wr8 c (pc + 1) new_id else Ret c);
        Ret (inl (pc + 2, c1))
    | CSwitch | CCall | CNew | CExt | CConst => Ret (inl (pc + 3, c))
    | CF2O | CJtrue | CJfalse | CJmp => Ret (inl (pc + 3, c))
    | CF2On | CUnknown => Ret (inl (pc, c))
    end.

Definition is_l2_replace_var (fuel : nat) (start_offset var_id new_id size : Z) (c : buf)
    : res buf :=
  loop fuel (l2_replace_step (u8 var_id) (u8 new_id) size) (u16 start_offset, c).

(** Leaving the loop at [size] runs off the end of the function without a
    [return]; the caller uses the value. *)
Definition l2_count_step (c : buf) (var_id size : Z) (st : Z * Z) : res ((Z * Z) + Z) :=
  let pc := st.1 in let var_count := st.2 in
  if pc =? size then Undef
  else
    opcode ← rd8 c pc;
    operand ← rd8 c (pc + 1);
    match classify opcode with
    | CLbl => Ret (inl (pc + (operand + 2), var_count))
    | CPlain | CNop => Ret (inl (pc + 1, var_count))
    | CRet => Ret (inr var_count)
    | CSys | CSctx | CRctx | CPop | CStore => Ret (inl (pc + 2, var_count))
    | CPush => Ret (inl (pc + 2, if operand =? var_id then var_count + 1 else var_count))
    | CSwitch | CCall | CNew | CExt | CConst => Ret (inl (pc + 3, var_count))
    | CF2O | CJtrue | CJfalse | CJmp => Ret (inl (pc + 3, var_count))
    | CF2On | CUnknown => Ret (inl (pc, var_count))
    end.

Definition is_l2_count_var_load (fuel : nat) (start_offset var_id size : Z) (c : buf) : res Z :=
  loop fuel (l2_count_step c (u8 var_id) size) (u16 start_offset, 0).

(** ** Pass 1 *)

(** [for (d_index = index + 1; d_index < sctx_count; d_index++)
       is_l2_replace_var(pc, d_index, index - 1, size)] *)
Fixpoint l2_renumber (fuel : nat) (pc index size : Z) (ds : list Z) (c : buf) : res buf :=
  match ds with
  | [] => Ret c
  | d_index :: ds' =>
      c1 ← is_l2_replace_var fuel pc d_index (index - 1) size c;
      l2_renumber fuel pc index size ds' c1
  end.

(** [for (index = operand; index > 0; index--)]: [index] is the [nat]; the
    result holds [sctx_count] and the code. *)
Fixpoint l2_sctx_vars (fuel : nat) (pc size : Z) (index : nat) (sctx_count : Z) (c : buf)
    : res (Z * buf) :=
  match index with
  | O => Ret (sctx_count, c)
  | S index' =>
      let i := Z.of_nat index in
      var_count ← is_l2_count_var_load fuel pc (i - 1) size c;
      if var_count =? 0 then
        c1 ← is_l2_remove_var fuel pc (i - 1) size c;
        c2 ← l2_renumber fuel pc i size (seqZ (i + 1) (sctx_count - (i + 1))) c1;
        l2_sctx_vars fuel pc size index' (u8 (sctx_count - 1)) c2
      else l2_sctx_vars fuel pc size index' sctx_count c
  end.

(** the two stores behind it: [NOP NOP], or the new count *)
Definition l2_set_count (pc sctx_count : Z) (c : buf) : res buf :=
  if sctx_count =? 0 then c1 ← wr8 c pc INS_NOP; wr8 c1 (pc + 1) INS_NOP
  else wr8 c (pc + 1) sctx_count.

Record flow2 := mkF2 { f_pc : Z; f_sctx : Z; f_code : buf }.

Definition l2_flow_step (fuel : nat) (size : Z) (f : flow2) : res (flow2 + flow2) :=
  let pc := f_pc f in let sctx_count := f_sctx f in let c := f_code f in
  if pc =? size then Ret (inr f)
  else
    opcode ← rd8 c pc;
    operand ← rd8 c (pc + 1);
    match classify opcode with
    | CLbl => Ret (inl (mkF2 (pc + (operand + 2)) sctx_count c))
    | CPlain | CRet | CNop => Ret (inl (mkF2 (pc + 1) sctx_count c))
    | CSys => if operand <? 254 then Ret (inl (mkF2 (pc + 2) sctx_count c))
              else Ret (inl (mkF2 (pc + 4) sctx_count c))
    | CSctx =>
        v ← l2_sctx_vars fuel pc size (Z.to_nat operand) operand c;
        c1 ← l2_set_count pc v.1 v.2;
        Ret (inl (mkF2 (pc + 2) v.1 c1))
    | CRctx =>
        c1 ← l2_set_count pc sctx_count c;
        Ret (inl (mkF2 (pc + 2) 0 c1))
    | CPush | CPop | CStore => Ret (inl (mkF2 (pc + 2) sctx_count c))
    | CSwitch | CCall | CNew | CExt | CConst => Ret (inl (mkF2 (pc + 3) sctx_count c))
    | CF2O | CJtrue | CJfalse | CJmp =>
        index ← loop fuel (loop_next_jump_step c) pc;
        c1 ← st16 c (pc + 1) index;
        Ret (inl (mkF2 (pc + 3) sctx_count c1))
    | CF2On | CUnknown => Ret (inl f)
    end.

(** ** Pass 2 *)
Definition l2_after (p : peepstate) : res peepstate :=
  let pc := ps_pc p in let rdc := ps_rdc p in
  b ← is_l2_backpatch (pc + rdc) pc (ps_os p);
  let s := ist b.1 in
  let s1 := match is_get_lblrec (pc + rdc) s with Some k => lbl_set_offset k pc s | None => s end in
  Ret (mkPS pc rdc (set_ist s1 b.1)).

(** [case INS_NOP] *)
Definition l2_drop_nop (size : Z) (p : peepstate) : res peepstate :=
  let (o, r) := is_l2_push_coderec (ps_pc p + ps_rdc p) 1 (ps_os p) in
  let rdc := ps_rdc p + r in
  let c := code (ist o) in
  c1 ← memcpy_buf c c (ps_pc p) (ps_pc p + 1) (size - rdc - ps_pc p);
  Ret (mkPS (ps_pc p) rdc (upd_code c1 o)).

Definition l2_jump (size opcode : Z) (p : peepstate) : res peepstate :=
  let pc := ps_pc p in let rdc := ps_rdc p in let o := ps_os p in
  let c := code (ist o) in
  index ← ld16 c (pc + 1);
  if index =? pc + 3 + rdc then
    c1 ← memcpy_buf c c pc (pc + 3) (size - rdc - pc);
    let (o1, r) := is_l2_push_coderec (pc + rdc) 3 (upd_code c1 o) in
    Ret (mkPS (pc + 0) (rdc + r) o1)
  else if pc <? index then
    Ret (mkPS (pc + 3) rdc (is_l2_push_jump (pc + rdc) pc opcode index o))
  else if index <? pc then
    c1 ← st16 c (pc + 1) (is_l2_translate index (cdrs o));
    Ret (mkPS (pc + 3) rdc (upd_code c1 o))
  else Ret p.

(** the loop condition compares with [(uint16)(size - rdc)] *)
Definition l2_compact_step (size : Z) (p : peepstate) : res (peepstate + peepstate) :=
  let pc := ps_pc p in
  if pc =? u16 (size - ps_rdc p) then Ret (inr p)
  else
    let c := code (ist (ps_os p)) in
    opcode ← rd8 c pc;
    operand ← rd8 c (pc + 1);
    p1 ← match classify opcode with
         | CLbl => Ret (ps_skip (operand + 2) p)
         | CNop => l2_drop_nop size p
         | CNew | CExt | CConst | CSwitch => Ret (ps_skip 3 p)
         | CPlain | CRet => Ret (ps_skip 1 p)
         | CSys | CSctx | CRctx | CStore | CPush | CPop => Ret (ps_skip 2 p)
         | CF2O | CCall | CJtrue | CJfalse | CJmp => l2_jump size opcode p
         | CF2On | CUnknown => Ret p
         end;
    p2 ← l2_after p1;
    Ret (inl p2).

(** ** Pass 3 *)
Definition l2_switch_step (l1 : list coderec) (limit : Z) (st : Z * optstate)
    : res ((Z * optstate) + (Z * optstate)) :=
  let pc := st.1 in let o := st.2 in
  if pc =? limit then Ret (inr st)
  else
    opcode ← rd8 (code (ist o)) pc;
    operand ← rd8 (code (ist o)) (pc + 1);
    match classify opcode with
    | CLbl => Ret (inl (pc + (operand + 2), o))
    | CPlain | CRet | CNop => Ret (inl (pc + 1, o))
    | CSys | CSctx | CRctx | CPush | CPop | CStore => Ret (inl (pc + 2, o))
    | CCall | CNew | CExt | CConst => Ret (inl (pc + 3, o))
    | CF2O | CJtrue | CJfalse | CJmp => Ret (inl (pc + 3, o))
    | CSwitch =>
        index ← ld16 (code (ist o)) (pc + 1);
        d ← is_l2_jumptable_reloc l1 index (data (ist o));
        Ret (inl (pc + 3, set_ist (set_data d.1 (ist o)) o))
    | CF2On | CUnknown => Ret (inl (pc, o))
    end.

(** ** The optimiser; [l1] is the record list of the level-1 optimiser. *)
Definition is_l2_optimize (fuel : nat) (l1 : list coderec) (size : Z) (o : optstate)
    : res (optstate * Z) :=
  f ← loop fuel (l2_flow_step fuel size) (mkF2 0 0 (code (ist o)));
  p ← loop fuel (l2_compact_step size) (mkPS 0 0 (upd_code (f_code f) o));
  r ← loop fuel (l2_switch_step l1 (u16 (size - ps_rdc p))) (0, ps_os p);
  Ret (is_l2_clear_optrec (is_l2_clear_coderec r.2), r.1).

(** ** Straight-line code with [INS_NOP] *)
Definition nopb (i : instr) : bool := bool_decide (class_of i = CNop).

Definition straight2 (i : instr) : bool := straight i || nopb i.

Definition prog2 (p : list instr) : Prop :=
  Forall (λ i, instr_wf i = true ∧ straight2 i = true) p.

Lemma prog2_wf p : prog2 p → prog_wf p.
Proof. intros H. eapply Forall_impl; [exact H|]. by intros ? [? _]. Qed.

Lemma prog2_app p q : prog2 (p ++ q) ↔ prog2 p ∧ prog2 q.
Proof. unfold prog2. by rewrite Forall_app. Qed.

Lemma prog2_cons i p : prog2 (i :: p) ↔ (instr_wf i = true ∧ straight2 i = true) ∧ prog2 p.
Proof. unfold prog2. by rewrite Forall_cons. Qed.

Lemma straight2_size i :
  instr_wf i = true → straight2 i = true →
  isize i = match class_of i with
            | CPlain | CRet | CNop => 1 | CNew | CExt | CConst => 3 | _ => 2 end.
Proof.
  intros Hwf Hst. unfold straight2 in Hst. apply orb_true_iff in Hst as [Hst|Hn].
  - rewrite straight_size by done. unfold straight in Hst. by destruct (class_of i).
  - apply bool_decide_eq_true in Hn. rewrite isize_class, Hn by done. done.
Qed.

(** The classes a straight-line instruction can have. *)
Lemma straight2_class i :
  straight2 i = true →
  match class_of i with
  | CPlain | CNop | CRet | CSys | CSctx | CRctx | CPush | CPop | CStore | CNew | CExt | CConst => True
  | _ => False
  end.
Proof.
  unfold straight2, straight, nopb. intros H. destruct (class_of i); try done.
Qed.

Section read2.
Context (c : buf) (pc size : Z) (i : instr).
Context (Hwf : instr_wf i = true) (Hst : straight2 i = true).
Context (Hr : region c pc (encode i)) (H0 : 0 ≤ pc) (Hsz : pc + isize i ≤ size).
Context (Hm : size < MAX_BUFFER_SIZE).

Lemma read2_opcode : rd8 c pc = Ret (opcode_of i).
Proof using Hr H0 Hsz Hm. pose proof (isize_pos i). apply fetch_opcode; [done..|lia]. Qed.

Lemma read2_operand :
  ∃ x, rd8 c (pc + 1) = Ret x ∧ (class_of i = CSys → x <? 254 = true) ∧
       (∀ op a, i = I2 op a → x = a).
Proof using Hwf Hst Hr H0 Hsz Hm.
  destruct (straight i) eqn:E; [by apply (read_operand _ _ size)|].
  unfold straight2 in Hst. rewrite E in Hst. cbn in Hst. apply bool_decide_eq_true in Hst.
  pose proof (isize_pos i). rewrite rd8_in by lia. eexists. split; [done|].
  rewrite Hst. split; [done|]. intros op a ->. unfold class_of in Hst. cbn in Hst.
  apply andb_true_iff in Hwf as [[_ Hc]%andb_true_iff _]. by rewrite Hst in Hc.
Qed.
End read2.

(** ** Reference: variables of straight-line functions *)
Definition var_class (c : opclass) : bool :=
  match c with CPush | CPop | CStore => true | _ => false end.

Definition uses (v : Z) (i : instr) : bool :=
  match i with I2 op a => var_class (classify op) && (a =? v) | _ => false end.

Definition loads_var (v : Z) (i : instr) : bool :=
  match i with I2 op a => bool_decide (classify op = CPush) && (a =? v) | _ => false end.

Definition loads (v : Z) (p : list instr) : Z := Z.of_nat (length (filter (λ i, loads_var v i = true) p)).

Definition remove1 (v : Z) (i : instr) : list instr :=
  if uses v i then [I1 INS_NOP; I1 INS_NOP] else [i].

Definition rename1 (v w : Z) (i : instr) : list instr :=
  match i with I2 op a => if uses v i then [I2 op w] else [i] | _ => [i] end.

Definition remove_var (v : Z) (p : list instr) : list instr := concat (remove1 v <$> p).
Definition rename_var (v w : Z) (p : list instr) : list instr := concat (rename1 v w <$> p).

(** A body: straight-line code without a return. *)
Definition no_ret (i : instr) : bool := negb (bool_decide (class_of i = CRet)).

Definition fn_body (p : list instr) : Prop :=
  Forall (λ i, instr_wf i = true ∧ straight2 i = true ∧ no_ret i = true) p.

Lemma fn_body_prog2 p : fn_body p → prog2 p.
Proof. intros H. eapply Forall_impl; [exact H|]. by intros ? (? & ? & _). Qed.

Lemma no_ret_class i : no_ret i = true → class_of i ≠ CRet.
Proof. unfold no_ret. intros H E. by rewrite bool_decide_true in H. Qed.

Lemma straight2_view i :
  instr_wf i = true → straight2 i = true → no_ret i = true →
  (∃ op a, i = I2 op a ∧ var_class (classify op) = true ∧ is_byte a) ∨
  (∀ v, uses v i = false ∧ loads_var v i = false) ∧ var_class (class_of i) = false.
Proof.
  intros Hwf Hst Hnr. destruct i as [op|op a|n api|op w].
  - right. split; [done|]. unfold class_of. cbn in *. apply andb_true_iff in Hwf as [_ Hc].
    by destruct (classify op).
  - unfold class_of. cbn in *. destruct (var_class (classify op)) eqn:E.
    + left. exists op, a. split; [done|]. split; [done|].
      apply andb_true_iff in Hwf as [_ Hb]. by apply byteb_true.
    + right. split; [|done]. intros v. split; [done|].
      by rewrite bool_decide_false by (intros Hp; by rewrite Hp in E).
  - right. split; [done|]. unfold class_of. cbn in Hwf |- *.
    apply andb_true_iff in Hwf as [[? ?]%andb_true_iff _]. rewrite classify_syscall by lia. done.
  - right. split; [done|]. unfold class_of. cbn in *. apply andb_true_iff in Hwf as [[_ Hc]%andb_true_iff _].
    by destruct (classify op).
Qed.

(** *** A walk that rewrites each instruction in place *)
Lemma walk_rewrite {A} (step : Z * buf → res ((Z * buf) + A)) (f : instr → list instr) size body pc c :
  (∀ i, psize (f i) = isize i) →
  (∀ pc c i, instr_wf i = true → straight2 i = true → no_ret i = true →
     region c pc (encode i) → 0 ≤ pc → pc + isize i < size →
     ∃ c', step (pc, c) = Ret (inl (pc + isize i, c')) ∧ patched c c' pc (encode_prog (f i))) →
  fn_body body → region c pc (encode_prog body) → 0 ≤ pc → pc + psize body < size →
  ∃ c', iters step (length body) (pc, c) (pc + psize body, c') ∧
        patched c c' pc (encode_prog (concat (f <$> body))).
Proof.
  intros Hf Hstep Hb. revert pc c.
  induction Hb as [|i body (Hwf & Hst & Hnr) Hb IH]; intros pc c Hr H0 Hsz.
  { exists c. rewrite psize_nil, Z.add_0_r. split; [constructor|]. apply patched_refl, region_nil. }
  rewrite psize_cons in *. rewrite encode_prog_cons in Hr. apply region_app in Hr as [Hr1 Hr2].
  pose proof (psize_nonneg body). pose proof (isize_pos i).
  destruct (Hstep pc c i) as (c1 & Hs & Hp1); try done; [lia|].
  pose proof (Hf i) as Hfi.
  destruct (IH (pc + isize i) c1) as (c' & Hi & Hp2); try lia.
  { eapply patched_region; [exact Hp1|done|]. right. unfold psize, isize in *. lia. }
  exists c'. rewrite Z.add_assoc. split; [by econstructor|].
  cbn [fmap list_fmap concat]. rewrite encode_prog_app. eapply patched_app; [exact Hp1|].
  rewrite length_psize, Hf. exact Hp2.
Qed.

Lemma remove1_psize v i : psize (remove1 v i) = isize i.
Proof.
  unfold remove1. destruct i as [|op a| |]; cbn [uses];
    try (rewrite psize_cons, psize_nil; apply Z.add_0_r).
  destruct (_ && _); [done|]. rewrite psize_cons, psize_nil. apply Z.add_0_r.
Qed.

Lemma rename1_psize v w i : psize (rename1 v w i) = isize i.
Proof.
  destruct i as [|op a| |]; cbn [rename1];
    try (rewrite psize_cons, psize_nil; apply Z.add_0_r).
  destruct (uses _ _); rewrite psize_cons, psize_nil, Z.add_0_r; done.
Qed.

Lemma concat_psize (f : instr → list instr) p :
  (∀ i, psize (f i) = isize i) → psize (concat (f <$> p)) = psize p.
Proof.
  intros Hf. induction p as [|i p IH]; [done|].
  cbn [fmap list_fmap concat]. by rewrite psize_app, psize_cons, Hf, IH.
Qed.

Lemma encode_prog_one i : encode_prog [i] = encode i.
Proof. unfold encode_prog. cbn. by rewrite app_nil_r. Qed.

(** *** The steps on one instruction *)
Section step2.
Context (c : buf) (pc size v : Z) (i : instr).
Context (Hwf : instr_wf i = true) (Hst : straight2 i = true) (Hnr : no_ret i = true).
Context (Hr : region c pc (encode i)) (H0 : 0 ≤ pc) (Hsz : pc + isize i < size).
Context (Hm : size < MAX_BUFFER_SIZE) (Hv : is_byte v).

Lemma l2_remove_instr :
  ∃ c', l2_remove_step v size (pc, c) = Ret (inl (pc + isize i, c')) ∧
        patched c c' pc (encode_prog (remove1 v i)).
Proof using Hwf Hst Hnr Hr H0 Hsz Hm.
  pose proof (isize_pos i). assert (Hsz' : pc + isize i ≤ size) by lia.
  destruct (read2_operand _ _ _ _ Hwf Hst Hr H0 Hsz' Hm) as (x & Hx & _ & Hxa).
  unfold l2_remove_step. cbn [fst snd]. rewrite (proj2 (Z.eqb_neq _ _)) by lia.
  rewrite (read2_opcode _ _ _ _ Hr H0 Hsz' Hm). res_cbn. rewrite Hx. res_cbn.
  fold (class_of i). rewrite (straight2_size i Hwf Hst). unfold remove1.
  destruct (straight2_view i Hwf Hst Hnr) as [(op & a & -> & Hc & Ha)|[Hu Hc]].
  - rewrite (Hxa _ _ eq_refl). unfold class_of in *. cbn [opcode_of uses] in *. rewrite Hc.
    cbn [andb]. unfold isize in *. cbn [encode length] in *.
    destruct (Z.eqb_spec a v) as [->|Hne].
    + wr. eexists. split; [destruct (classify op); (discriminate Hc || done)|].
      split; [|cbn; intros; bsolve]. change (encode_prog _) with [INS_NOP; INS_NOP].
      region_solve.
    + rewrite encode_prog_one. exists c. split; [destruct (classify op); (discriminate Hc || done)|].
      by apply patched_refl.
  - rewrite (proj1 (Hu v)), encode_prog_one. exists c. split; [|by apply patched_refl].
    pose proof (straight2_class i Hst). pose proof (no_ret_class i Hnr).
    by destruct (class_of i).
Qed.

Lemma l2_replace_instr w :
  is_byte w →
  ∃ c', l2_replace_step v w size (pc, c) = Ret (inl (pc + isize i, c')) ∧
        patched c c' pc (encode_prog (rename1 v w i)).
Proof using Hwf Hst Hnr Hr H0 Hsz Hm.
  intros Hw. pose proof (isize_pos i). assert (Hsz' : pc + isize i ≤ size) by lia.
  destruct (read2_operand _ _ _ _ Hwf Hst Hr H0 Hsz' Hm) as (x & Hx & _ & Hxa).
  unfold l2_replace_step. cbn [fst snd]. rewrite (proj2 (Z.eqb_neq _ _)) by lia.
  rewrite (read2_opcode _ _ _ _ Hr H0 Hsz' Hm). res_cbn. rewrite Hx. res_cbn.
  fold (class_of i). rewrite (straight2_size i Hwf Hst).
  destruct (straight2_view i Hwf Hst Hnr) as [(op & a & -> & Hc & Ha)|[Hu Hc]].
  - rewrite (Hxa _ _ eq_refl). unfold class_of in *. cbn [opcode_of uses rename1] in *.
    rewrite Hc. cbn [andb]. unfold isize in *. cbn [encode length] in *.
    apply region_cons in Hr as [Ho Hra].
    destruct (Z.eqb_spec a v) as [->|Hne]; rewrite encode_prog_one.
    + wr. eexists. split; [destruct (classify op); (discriminate Hc || done)|]. cbn [encode].
      split; [|cbn; intros; bsolve]. region_solve.
    + exists c. split; [destruct (classify op); (discriminate Hc || done)|]. apply patched_refl, region_cons. done.
  - replace (rename1 v w i) with [i].
    2: { destruct i; cbn [rename1]; try done. by rewrite (proj1 (Hu v)). }
    rewrite encode_prog_one. exists c. split; [|by apply patched_refl].
    pose proof (straight2_class i Hst). pose proof (no_ret_class i Hnr).
    by destruct (class_of i).
Qed.

Lemma l2_count_instr n :
  l2_count_step c v size (pc, n) =
    Ret (inl (pc + isize i, n + (if loads_var v i then 1 else 0))).
Proof using Hwf Hst Hnr Hr H0 Hsz Hm.
  pose proof (isize_pos i). assert (Hsz' : pc + isize i ≤ size) by lia.
  destruct (read2_operand _ _ _ _ Hwf Hst Hr H0 Hsz' Hm) as (x & Hx & _ & Hxa).
  unfold l2_count_step. cbn [fst snd]. rewrite (proj2 (Z.eqb_neq _ _)) by lia.
  rewrite (read2_opcode _ _ _ _ Hr H0 Hsz' Hm). res_cbn. rewrite Hx. res_cbn.
  fold (class_of i). rewrite (straight2_size i Hwf Hst).
  destruct (straight2_view i Hwf Hst Hnr) as [(op & a & -> & Hc & Ha)|[Hu Hc]].
  - rewrite (Hxa _ _ eq_refl). unfold class_of in *. cbn [opcode_of loads_var] in *.
    destruct (classify op); try done; cbn [bool_decide andb];
      rewrite ?Z.add_0_r; try done. by destruct (a =? v); rewrite ?Z.add_0_r.
  - rewrite (proj2 (Hu v)), Z.add_0_r.
    pose proof (straight2_class i Hst). pose proof (no_ret_class i Hnr).
    by destruct (class_of i).
Qed.
End step2.

(** *** The walks on a function *)

(** [body], then a return, at [pc]. *)
Record fn_at (c : buf) (pc size : Z) (body : list instr) : Prop := {
  fa_body : fn_body body;
  fa_region : region c pc (encode_prog (body ++ [I1 INS_RET]));
  fa_pc : is_u16 pc;
  fa_size : pc + psize body < size;
  fa_max : size < MAX_BUFFER_SIZE
}.

Lemma fn_at_regions c pc size body :
  fn_at c pc size body →
  region c pc (encode_prog body) ∧ bget c (pc + psize body) = INS_RET.
Proof.
  intros H. pose proof (fa_region _ _ _ _ H) as Hr. rewrite encode_prog_app in Hr.
  apply region_app in Hr as [Hr1 Hr2]. rewrite length_psize in Hr2.
  by apply region_cons in Hr2 as [Hret _].
Qed.

Lemma remove_var_spec fuel c pc size body v :
  fn_at c pc size body → is_byte v → (length body < fuel)%nat →
  ∃ c', is_l2_remove_var fuel pc v size c = Ret c' ∧
        patched c c' pc (encode_prog (remove_var v body)).
Proof.
  intros Hf Hv Hfu. destruct (fn_at_regions _ _ _ _ Hf) as [Hr Hret].
  destruct Hf as [Hb _ Hpc Hsz Hm]. pose proof (psize_nonneg body).
  destruct (walk_rewrite (l2_remove_step v size) (remove1 v) size body pc c)
    as (c' & Hi & Hp); try done; try (unfold is_u16 in *; lia).
  { apply remove1_psize. }
  { intros. by apply l2_remove_instr. }
  exists c'. split; [|done]. unfold is_l2_remove_var. rewrite u8_id, u16_id by done.
  apply (loop_exit _ _ _ _ _ _ Hi); [|done].
  destruct Hp as [_ Ho]. rewrite length_psize, concat_psize in Ho by apply remove1_psize.
  unfold l2_remove_step. cbn [fst snd]. rewrite (proj2 (Z.eqb_neq _ _)) by lia.
  unfold is_u16 in *. rewrite !rd8_in by lia. res_cbn. rewrite Ho by lia. by rewrite Hret.
Qed.

Lemma replace_var_spec fuel c pc size body v w :
  fn_at c pc size body → is_byte v → is_byte w → (length body < fuel)%nat →
  ∃ c', is_l2_replace_var fuel pc v w size c = Ret c' ∧
        patched c c' pc (encode_prog (rename_var v w body)).
Proof.
  intros Hf Hv Hw Hfu. destruct (fn_at_regions _ _ _ _ Hf) as [Hr Hret].
  destruct Hf as [Hb _ Hpc Hsz Hm]. pose proof (psize_nonneg body).
  destruct (walk_rewrite (l2_replace_step v w size) (rename1 v w) size body pc c)
    as (c' & Hi & Hp); try done; try (unfold is_u16 in *; lia).
  { apply rename1_psize. }
  { intros. by apply l2_replace_instr. }
  exists c'. split; [|done]. unfold is_l2_replace_var. rewrite !u8_id, u16_id by done.
  apply (loop_exit _ _ _ _ _ _ Hi); [|done].
  destruct Hp as [_ Ho]. rewrite length_psize, concat_psize in Ho by apply rename1_psize.
  unfold l2_replace_step. cbn [fst snd]. rewrite (proj2 (Z.eqb_neq _ _)) by lia.
  unfold is_u16 in *. rewrite !rd8_in by lia. res_cbn. rewrite Ho by lia. by rewrite Hret.
Qed.

Lemma loads_cons v i p : loads v (i :: p) = (if loads_var v i then 1 else 0) + loads v p.
Proof.
  unfold loads. rewrite filter_cons. destruct (decide _) as [E|E].
  - rewrite E. cbn [length]. lia.
  - by destruct (loads_var v i).
Qed.

Lemma count_iters c size v body pc n :
  fn_body body → region c pc (encode_prog body) → 0 ≤ pc → pc + psize body < size →
  size < MAX_BUFFER_SIZE →
  iters (l2_count_step c v size) (length body) (pc, n) (pc + psize body, n + loads v body).
Proof.
  intros Hb. revert pc n. induction Hb as [|i body (Hwf & Hst & Hnr) Hb IH]; intros pc n Hr H0 Hsz Hm.
  { rewrite psize_nil, !Z.add_0_r. constructor. }
  rewrite psize_cons, loads_cons in *. rewrite encode_prog_cons in Hr.
  apply region_app in Hr as [Hr1 Hr2]. pose proof (psize_nonneg body). pose proof (isize_pos i).
  econstructor; [apply l2_count_instr; try done; lia|].
  rewrite !Z.add_assoc. apply IH; try done; lia.
Qed.

Lemma count_var_spec fuel c pc size body v :
  fn_at c pc size body → is_byte v → (length body < fuel)%nat →
  is_l2_count_var_load fuel pc v size c = Ret (loads v body).
Proof.
  intros Hf Hv Hfu. destruct (fn_at_regions _ _ _ _ Hf) as [Hr Hret].
  destruct Hf as [Hb _ Hpc Hsz Hm]. pose proof (psize_nonneg body). unfold is_u16 in *.
  unfold is_l2_count_var_load. rewrite u8_id, u16_id by done.
  apply (loop_exit _ _ _ _ _ _ (count_iters c size v body pc 0 Hb Hr ltac:(lia) Hsz Hm)); [|done].
  unfold l2_count_step. cbn [fst snd]. rewrite (proj2 (Z.eqb_neq _ _)) by lia.
  rewrite !rd8_in by lia. res_cbn. by rewrite Hret.
Qed.

(** The variable walks do what their names say on straight-line
    functions. Started at a function that runs to its return,
    [is_l2_count_var_load] returns the number of loads of the variable,
    [is_l2_remove_var] overwrites exactly its loads and stores with two
    [INS_NOP] each, and [is_l2_replace_var] renumbers exactly those; neither
    touches a byte outside the function. *)
Theorem l2_variable_walks fuel c pc size body v w :
  fn_at c pc size body → is_byte v → is_byte w → (length body < fuel)%nat →
  is_l2_count_var_load fuel pc v size c = Ret (loads v body) ∧
  (∃ c', is_l2_remove_var fuel pc v size c = Ret c' ∧
         patched c c' pc (encode_prog (remove_var v body))) ∧
  (∃ c', is_l2_replace_var fuel pc v w size c = Ret c' ∧
         patched c c' pc (encode_prog (rename_var v w body))).
Proof.
  intros Hf Hv Hw Hfu. split; [by apply count_var_spec|].
  split; [by apply remove_var_spec | by apply replace_var_spec].
Qed.

Lemma remove_var_psize v p : psize (remove_var v p) = psize p.
Proof. apply concat_psize, remove1_psize. Qed.

Lemma rename_var_psize v w p : psize (rename_var v w p) = psize p.
Proof. apply concat_psize, rename1_psize. Qed.

Lemma remove_var_body v p : fn_body p → fn_body (remove_var v p).
Proof.
  induction 1 as [|i p (Hwf & Hst & Hnr) Hb IH]; [apply Forall_nil; exact I|].
  apply Forall_app. split; [|exact IH]. unfold remove1.
  destruct (uses v i); repeat (apply Forall_cons; split); try apply Forall_nil; done.
Qed.

Lemma rename_var_body v w p : is_byte w → fn_body p → fn_body (rename_var v w p).
Proof.
  intros Hw. induction 1 as [|i p (Hwf & Hst & Hnr) Hb IH]; [apply Forall_nil; exact I|].
  apply Forall_app. split; [|exact IH].
  destruct i as [|op a| |]; cbn [rename1]; try by (apply Forall_cons; split; [done|by apply Forall_nil]).
  destruct (uses v (I2 op a)); (apply Forall_cons; split; [|by apply Forall_nil]); [|done].
  split; [|done]. cbn in *. apply andb_true_iff in Hwf as [Hwf _]. by rewrite Hwf, (proj2 (byteb_true w)).
Qed.

Lemma body_length p : Z.of_nat (length p) ≤ psize p.
Proof. apply prog_length. Qed.

(** ** Reference: elimination of the variables nobody loads *)
Definition renumber (index : Z) (ds : list Z) (body : list instr) : list instr :=
  fold_left (λ b d, rename_var d (index - 1) b) ds body.

Fixpoint elim (index : nat) (count : Z) (body : list instr) : Z * list instr :=
  match index with
  | O => (count, body)
  | S index' =>
      let i := Z.of_nat index in
      if loads (i - 1) body =? 0 then
        elim index' (count - 1) (renumber i (seqZ (i + 1) (count - (i + 1))) (remove_var (i - 1) body))
      else elim index' count body
  end.

Lemma renumber_psize index ds body : psize (renumber index ds body) = psize body.
Proof.
  revert body. induction ds as [|d ds IH]; intros body; [done|].
  cbn. unfold renumber in IH. by rewrite IH, rename_var_psize.
Qed.

Lemma renumber_body index ds body : is_byte (index - 1) → fn_body body → fn_body (renumber index ds body).
Proof.
  intros Hi. revert body. induction ds as [|d ds IH]; intros body Hb; [done|].
  cbn. apply IH. by apply rename_var_body.
Qed.

Lemma elim_spec_body k count body :
  (k ≤ 256)%nat → fn_body body →
  fn_body (elim k count body).2 ∧ psize (elim k count body).2 = psize body.
Proof.
  revert count body. induction k as [|k IH]; intros count body Hk Hb; [done|].
  cbn [elim]. destruct (_ =? 0); [|apply IH; [lia|done]].
  edestruct IH as [H1 H2]; [| |split; [exact H1|]]; [lia| |].
  - apply renumber_body; [unfold is_byte; lia|]. by apply remove_var_body.
  - by rewrite H2, renumber_psize, remove_var_psize.
Qed.

(** a function keeps its place when its body is rewritten *)
Lemma fn_at_patched c c' pc size body body' :
  fn_at c pc size body → patched c c' pc (encode_prog body') → fn_body body' →
  psize body' = psize body → fn_at c' pc size body'.
Proof.
  intros Hf [Hr Ho] Hb Hs. destruct (fn_at_regions _ _ _ _ Hf) as [_ Hret].
  destruct Hf as [_ _ Hpc Hsz Hm]. constructor; try done; [|lia].
  rewrite encode_prog_app. apply region_app. split; [done|]. rewrite length_psize, Hs.
  apply region_cons. split; [|apply region_nil]. rewrite length_psize, Hs in Ho.
  by rewrite Ho by lia.
Qed.

Lemma patched_trans c c1 c2 off l1 l2 :
  length l1 = length l2 → patched c c1 off l1 → patched c1 c2 off l2 → patched c c2 off l2.
Proof.
  intros Hl [_ H1] [Hr H2]. split; [done|]. intros j Hj. rewrite H2, H1 by (rewrite ?Hl; lia). done.
Qed.

Lemma renumber_spec fuel c pc size index ds body :
  fn_at c pc size body → is_byte (index - 1) → Forall is_byte ds → psize body < Z.of_nat fuel →
  ∃ c', l2_renumber fuel pc index size ds c = Ret c' ∧
        patched c c' pc (encode_prog (renumber index ds body)).
Proof.
  intros Hf Hi Hds. revert c body Hf. induction Hds as [|d ds Hd Hds IH]; intros c body Hf Hfu.
  { exists c. split; [done|]. apply patched_refl. by destruct (fn_at_regions _ _ _ _ Hf). }
  pose proof (body_length body).
  destruct (replace_var_spec fuel c pc size body d (index - 1)) as (c1 & H1 & Hp1); try done; [lia|].
  cbn [l2_renumber renumber fold_left]. rewrite H1. res_cbn.
  destruct (IH c1 (rename_var d (index - 1) body)) as (c' & H2 & Hp2).
  - eapply fn_at_patched; [done..| |apply rename_var_psize].
    apply rename_var_body; [done|]. by destruct Hf.
  - by rewrite rename_var_psize.
  - exists c'. split; [done|]. eapply patched_trans; [|exact Hp1|exact Hp2].
    apply Nat2Z.inj. change (psize (rename_var d (index - 1) body) =
      psize (renumber index ds (rename_var d (index - 1) body))). by rewrite renumber_psize.
Qed.

Lemma sctx_vars_spec fuel pc size k count c body :
  fn_at c pc size body → Z.of_nat k ≤ count → count < 256 → psize body < Z.of_nat fuel →
  ∃ c', l2_sctx_vars fuel pc size k count c = Ret ((elim k count body).1, c') ∧
        patched c c' pc (encode_prog (elim k count body).2) ∧
        0 ≤ (elim k count body).1 ≤ count.
Proof.
  revert count c body. induction k as [|k IH]; intros count c body Hf Hk Hc Hfu.
  { exists c. split; [done|]. split; [|cbn; lia]. apply patched_refl.
    by destruct (fn_at_regions _ _ _ _ Hf). }
  pose proof (body_length body). cbn [l2_sctx_vars elim]. set (i := Z.of_nat (S k)) in *.
  assert (Hb : is_byte (i - 1)) by (unfold is_byte; lia).
  rewrite (count_var_spec fuel c pc size body) by (done || lia). res_cbn.
  destruct (loads (i - 1) body =? 0); [|apply IH; [done|lia..]].
  destruct (remove_var_spec fuel c pc size body (i - 1)) as (c1 & H1 & Hp1); try done; [lia|].
  rewrite H1. res_cbn.
  pose proof (remove_var_body (i - 1) body (fa_body _ _ _ _ Hf)) as Hb1.
  pose proof (fn_at_patched _ _ _ _ _ _ Hf Hp1 Hb1 (remove_var_psize _ _)) as Hf1.
  destruct (renumber_spec fuel c1 pc size i (seqZ (i + 1) (count - (i + 1))) (remove_var (i - 1) body))
    as (c2 & H2 & Hp2); try done.
  { apply Forall_forall. intros x Hx%elem_of_seqZ. unfold is_byte. lia. }
  { by rewrite remove_var_psize. }
  rewrite H2. res_cbn. rewrite u8_id by (unfold is_byte; lia).
  set (body2 := renumber _ _ _) in *.
  assert (Hs2 : psize body2 = psize body).
  { unfold body2. by rewrite renumber_psize, remove_var_psize. }
  assert (Hb2 : fn_body body2) by (by apply renumber_body).
  assert (Hs2' : psize body2 = psize (remove_var (i - 1) body)) by (by rewrite remove_var_psize).
  destruct (IH (count - 1) c2 body2) as (c3 & H3 & Hp3 & Hc3); [|lia..|].
  { by eapply fn_at_patched. }
  exists c3. split; [done|]. split; [|lia].
  eapply patched_trans; [|exact Hp1|]; [|eapply patched_trans; [|exact Hp2|exact Hp3]].
  - apply Nat2Z.inj. fold (psize (remove_var (i - 1) body)).
    destruct (elim_spec_body k (count - 1) body2) as [_ He]; [lia|done|].
    fold (psize (elim k (count - 1) body2).2). lia.
  - apply Nat2Z.inj. destruct (elim_spec_body k (count - 1) body2) as [_ He]; [lia|done|].
    fold (psize body2). fold (psize (elim k (count - 1) body2).2). lia.
Qed.

(** *** Frames

    A function body lies between [INS_SCTX n] and [INS_RCTX m]; neither is
    touched by the variable walks. *)
Definition not_var (i : instr) : Prop := ∀ v, uses v i = false ∧ loads_var v i = false.

Lemma remove1_not_var v i : not_var i → remove1 v i = [i].
Proof. intros H. unfold remove1. by rewrite (proj1 (H v)). Qed.

Lemma rename1_not_var v w i : not_var i → rename1 v w i = [i].
Proof. intros H. destruct i; cbn [rename1]; try done. by rewrite (proj1 (H v)). Qed.

Lemma concat_frame (f : instr → list instr) a z body :
  f a = [a] → f z = [z] → concat (f <$> (a :: body ++ [z])) = a :: concat (f <$> body) ++ [z].
Proof.
  intros Ha Hz. cbn [fmap list_fmap concat]. fold (fmap (M := list) f). rewrite Ha.
  cbn [app]. f_equal. rewrite fmap_app, concat_app. cbn. by rewrite Hz.
Qed.

Lemma loads_frame v a z body : not_var a → not_var z → loads v (a :: body ++ [z]) = loads v body.
Proof.
  intros Ha Hz. rewrite loads_cons, (proj2 (Ha v)), Z.add_0_l.
  induction body as [|i body IH]; cbn [app]; rewrite !loads_cons; [|by rewrite IH].
  by rewrite (proj2 (Hz v)).
Qed.

Lemma renumber_frame index ds a z body :
  not_var a → not_var z → renumber index ds (a :: body ++ [z]) = a :: renumber index ds body ++ [z].
Proof.
  intros Ha Hz. revert body. induction ds as [|d ds IH]; intros body; [done|].
  unfold renumber in *. cbn [fold_left]. unfold rename_var at 2.
  rewrite concat_frame by (by apply rename1_not_var). apply IH.
Qed.

Lemma elim_frame k count a z body :
  not_var a → not_var z →
  elim k count (a :: body ++ [z]) =
    ((elim k count body).1, a :: (elim k count body).2 ++ [z]).
Proof.
  intros Ha Hz. revert count body. induction k as [|k IH]; intros count body; [done|].
  cbn [elim]. rewrite loads_frame by done. destruct (_ =? 0); [|apply IH].
  unfold remove_var at 1. rewrite concat_frame by (by apply remove1_not_var).
  rewrite renumber_frame by done. apply IH.
Qed.

Lemma elim_Forall (P : instr → Prop) k count body :
  P (I1 INS_NOP) → (∀ op a w, P (I2 op a) → P (I2 op w)) →
  Forall P body → Forall P (elim k count body).2.
Proof.
  intros Hn Hw. revert count body.
  assert (Hrm : ∀ v body, Forall P body → Forall P (remove_var v body)).
  { intros v body. induction 1 as [|i p Hi Hp IH]; [by apply Forall_nil|].
    apply Forall_app. split; [|exact IH]. unfold remove1.
    destruct (uses v i); repeat (apply Forall_cons; split); try apply Forall_nil; done. }
  assert (Hrn : ∀ v w body, Forall P body → Forall P (rename_var v w body)).
  { intros v w body. induction 1 as [|i p Hi Hp IH]; [by apply Forall_nil|].
    apply Forall_app. split; [|exact IH].
    destruct i as [|op a| |]; cbn [rename1]; try (apply Forall_cons; split; [done|by apply Forall_nil]).
    destruct (uses v (I2 op a)); (apply Forall_cons; split; [|by apply Forall_nil]); eauto. }
  assert (Hrr : ∀ index ds body, Forall P body → Forall P (renumber index ds body)).
  { intros index ds. induction ds as [|d ds IH]; intros body Hb; [done|].
    change (Forall P (renumber index ds (rename_var d (index - 1) body))). auto. }
  induction k as [|k IH]; intros count body Hb; [done|].
  cbn [elim]. destruct (_ =? 0); auto.
Qed.

Definition frame (op count : Z) : list instr :=
  if count =? 0 then [I1 INS_NOP; I1 INS_NOP] else [I2 op count].

Lemma frame_psize op count : psize (frame op count) = 2.
Proof. unfold frame. by destruct (count =? 0). Qed.

Lemma set_count_spec op n count c pc :
  region c pc (encode (I2 op n)) → 0 ≤ pc → pc + 2 ≤ MAX_BUFFER_SIZE → is_byte count →
  ∃ c', l2_set_count pc count c = Ret c' ∧ patched c c' pc (encode_prog (frame op count)).
Proof.
  intros Hr H0 Hm Hc. apply region_cons in Hr as [Hop _]. unfold l2_set_count, frame.
  destruct (count =? 0).
  - wr. eexists. split; [done|]. split; [|cbn; intros; bsolve].
    change (encode_prog _) with [INS_NOP; INS_NOP]. region_solve.
  - wr. eexists. split; [done|]. rewrite encode_prog_one. cbn [encode].
    split; [|cbn; intros; bsolve]. region_solve.
Qed.

(** ** Pass 1 on a function *)
Definition no_frame (i : instr) : Prop := class_of i ≠ CSctx ∧ class_of i ≠ CRctx.

Lemma flow2_instr fuel size pc n c i :
  instr_wf i = true → straight2 i = true → no_frame i → region c pc (encode i) → 0 ≤ pc →
  pc + isize i ≤ size → size < MAX_BUFFER_SIZE →
  l2_flow_step fuel size (mkF2 pc n c) = Ret (inl (mkF2 (pc + isize i) n c)).
Proof.
  intros Hwf Hst [Hns Hnr] Hr H0 Hsz Hm. pose proof (isize_pos i).
  destruct (read2_operand _ _ _ _ Hwf Hst Hr H0 Hsz Hm) as (x & Hx & Hsys & _).
  unfold l2_flow_step. cbn [f_pc f_sctx f_code]. rewrite (proj2 (Z.eqb_neq _ _)) by lia.
  rewrite (read2_opcode _ _ _ _ Hr H0 Hsz Hm). res_cbn. rewrite Hx. res_cbn.
  fold (class_of i). rewrite (straight2_size i Hwf Hst).
  pose proof (straight2_class i Hst).
  destruct (class_of i); try done; by rewrite Hsys.
Qed.

Lemma flow2_iters fuel size body pc n c :
  prog2 body → Forall no_frame body → region c pc (encode_prog body) → 0 ≤ pc →
  pc + psize body ≤ size → size < MAX_BUFFER_SIZE →
  iters (l2_flow_step fuel size) (length body) (mkF2 pc n c) (mkF2 (pc + psize body) n c).
Proof.
  intros Hb. revert pc. induction Hb as [|i body [Hwf Hst] Hb IH]; intros pc Hnf Hr H0 Hsz Hm.
  { rewrite psize_nil, Z.add_0_r. constructor. }
  apply Forall_cons in Hnf as [Hi Hnf]. rewrite psize_cons in *. rewrite encode_prog_cons in Hr.
  apply region_app in Hr as [Hr1 Hr2]. pose proof (psize_nonneg body). pose proof (isize_pos i).
  econstructor; [apply flow2_instr; try done; lia|]. rewrite Z.add_assoc. apply IH; try done; lia.
Qed.

Section function.
Context (fuel : nat) (n m : Z) (body : list instr).
Context (Hn : is_byte n) (Hm : is_byte m) (Hb : fn_body body) (Hnf : Forall no_frame body).

Definition l2_function : list instr := I2 INS_SCTX n :: body ++ [I2 INS_RCTX m; I1 INS_RET].

Definition l2_elim : Z * list instr := elim (Z.to_nat n) n body.

(** the function after pass 1 *)
Definition l2_flowed : list instr :=
  frame INS_SCTX l2_elim.1 ++ l2_elim.2 ++ frame INS_RCTX l2_elim.1 ++ [I1 INS_RET].

Context (c : buf) (Hr : region c 0 (encode_prog l2_function)).
Context (Hs : psize l2_function < MAX_BUFFER_SIZE) (Hfu : psize l2_function < Z.of_nat fuel).

Let size := psize l2_function.

Lemma l2_function_size : size = 2 + (psize body + 3).
Proof using.
  unfold size, l2_function. by rewrite psize_cons, psize_app.
Qed.

Lemma l2_elim_body :
  prog2 l2_elim.2 ∧ Forall no_frame l2_elim.2 ∧ psize l2_elim.2 = psize body ∧
  0 ≤ l2_elim.1 ≤ n.
Proof using Hb Hn Hnf m size.
  clear Hm Hr Hs Hfu. pose proof Hn as Hn'. unfold is_byte in Hn'. unfold l2_elim.
  destruct (elim_spec_body (Z.to_nat n) n body ltac:(lia) Hb) as [H1 H2].
  split; [by apply fn_body_prog2|]. split; [by apply elim_Forall|]. split; [done|].
  assert (H : ∀ k count b, Z.of_nat k ≤ count → 0 ≤ (elim k count b).1 ≤ count); [|apply H; lia].
  clear. intros k. induction k as [|k IH]; intros count b Hk; cbn; [lia|].
  destruct (_ =? 0); [|apply IH; lia].
  match goal with |- 0 ≤ (elim k ?q ?b').1 ≤ _ => pose proof (IH q b' ltac:(lia)) end. lia.
Qed.

Lemma not_var_frame op x : op = INS_SCTX ∨ op = INS_RCTX → not_var (I2 op x).
Proof using. intros [-> | ->] v; done. Qed.

(** [INS_SCTX] *)
Lemma l2_flow_sctx :
  ∃ c', l2_flow_step fuel size (mkF2 0 0 c) = Ret (inl (mkF2 2 l2_elim.1 c')) ∧
        patched c c' 0 (encode_prog (frame INS_SCTX l2_elim.1 ++ l2_elim.2 ++ [I2 INS_RCTX m])).
Proof using Hn Hm Hb Hnf Hr Hs Hfu.
  pose proof l2_function_size as Hsz. pose proof (psize_nonneg body).
  set (full := I2 INS_SCTX n :: body ++ [I2 INS_RCTX m]).
  assert (Hff : fn_at c 0 size full).
  { constructor; unfold is_u16, full; try lia.
    - apply Forall_cons. split.
      { split; [|done]. cbn. by apply byteb_true. }
      apply Forall_app. split; [done|]. apply Forall_cons. split; [|by apply Forall_nil].
      split; [|done]. cbn. by apply byteb_true.
    - cbn [app]. rewrite <- app_assoc. exact Hr.
    - rewrite psize_cons, psize_app. change (isize (I2 INS_SCTX n)) with 2.
      change (psize [I2 INS_RCTX m]) with 2. lia. }
  unfold is_byte in *.
  destruct (sctx_vars_spec fuel 0 size (Z.to_nat n) n c full) as (c1 & H1 & Hp1 & _); try lia; [done| |].
  { unfold full. rewrite psize_cons, psize_app. change (isize (I2 INS_SCTX n)) with 2.
    change (psize [I2 INS_RCTX m]) with 2. lia. }
  unfold full in H1, Hp1. rewrite elim_frame in H1, Hp1 by (apply not_var_frame; auto).
  cbn [fst snd] in H1, Hp1. fold l2_elim in H1, Hp1.
  pose proof Hp1 as [Hr1 _]. rewrite encode_prog_cons in Hr1. apply region_app in Hr1 as [Hr1 _].
  destruct l2_elim_body as (_ & _ & _ & Hcnt).
  destruct (set_count_spec INS_SCTX n l2_elim.1 c1 0 Hr1) as (c2 & H2 & Hp2);
    [lia|unfold MAX_BUFFER_SIZE; lia|unfold is_byte; lia|].
  unfold l2_function in Hr. rewrite encode_prog_cons in Hr. apply region_app in Hr as [Hr0 _].
  apply region_cons in Hr0 as [Hop Hr0]. apply region_cons in Hr0 as [Harg _].
  exists c2. split.
  - unfold l2_flow_step. cbn [f_pc f_sctx f_code]. rewrite (proj2 (Z.eqb_neq _ _)) by lia.
    rewrite !rd8_in by (unfold MAX_BUFFER_SIZE in *; lia). res_cbn. rewrite Hop, Harg.
    change (classify INS_SCTX) with CSctx. cbn iota. rewrite H1. res_cbn. by rewrite H2.
  - rewrite encode_prog_cons in Hp1. rewrite encode_prog_app.
    pose proof (frame_psize INS_SCTX l2_elim.1) as Hfs. unfold psize in Hfs.
    destruct Hp1 as [Hra Hoa]. destruct Hp2 as [Hrb Hob]. split.
    + apply region_app. split; [done|]. apply region_app in Hra as [_ Hra].
      eapply region_agree; [rewrite Hfs; exact Hra|]. intros j Hj. apply Hob. lia.
    + rewrite length_app in *. cbn [encode length] in Hoa. intros j Hj. rewrite Hob, Hoa by lia. done.
Qed.
(** The whole of pass 1. *)
Lemma l2_flow_function :
  ∃ k c', iters (l2_flow_step fuel size) k (mkF2 0 0 c) (mkF2 size 0 c') ∧
          Z.of_nat k < size ∧
          patched c c' 0 (encode_prog l2_flowed).
Proof using Hn Hm Hb Hnf Hr Hs Hfu.
  destruct l2_flow_sctx as (c1 & Hs1 & Hp1). pose proof l2_function_size as Hsz.
  destruct l2_elim_body as (He1 & He2 & He3 & Hcnt). pose proof (psize_nonneg body).
  pose proof (frame_psize INS_SCTX l2_elim.1) as Hfs.
  pose proof Hp1 as [Hr1 Ho1]. rewrite !encode_prog_app in Hr1.
  apply region_app in Hr1 as [Hra Hr1]. apply region_app in Hr1 as [Hrb Hrc].
  rewrite !length_psize, Hfs, Z.add_0_l in *. rewrite He3 in Hrc.
  pose proof (flow2_iters fuel size l2_elim.2 2 l2_elim.1 c1 He1 He2 Hrb ltac:(lia) ltac:(lia) Hs) as Hi2.
  rewrite He3 in Hi2. unfold is_byte in Hn.
  pose proof Hrc as Hrc0. rewrite encode_prog_one in Hrc0.
  destruct (set_count_spec INS_RCTX m l2_elim.1 c1 (2 + psize body) Hrc0) as (c2 & H2 & Hp2);
    [lia|unfold MAX_BUFFER_SIZE in *; lia|unfold is_byte; lia|].
  assert (Hret : bget c (size - 1) = INS_RET).
  { unfold l2_function in Hr. rewrite encode_prog_cons, encode_prog_app in Hr.
    apply region_app in Hr as [_ Hr']. apply region_app in Hr' as [_ Hr'].
    rewrite length_psize in Hr'. cbn [encode length] in Hr'.
    change (encode_prog [I2 INS_RCTX m; I1 INS_RET]) with [INS_RCTX; m; INS_RET] in Hr'.
    do 2 apply region_cons in Hr' as [_ Hr']. apply region_cons in Hr' as [Hr' _].
    rewrite <- Hr'. f_equal. lia. }
  assert (Hl1 : psize (frame INS_SCTX l2_elim.1 ++ l2_elim.2 ++ [I2 INS_RCTX m]) = size - 1).
  { rewrite !psize_app, Hfs, He3. change (psize [I2 INS_RCTX m]) with 2. lia. }
  pose proof (frame_psize INS_RCTX l2_elim.1) as Hfr.
  destruct Hp2 as [Hr2 Ho2]. rewrite Hl1 in Ho1. rewrite length_psize, Hfr in Ho2.
  assert (Hret2 : bget c2 (size - 1) = INS_RET) by (rewrite Ho2, Ho1 by lia; done).
  exists (1 + (length l2_elim.2 + (1 + 1)))%nat, c2. split; [|split].
  - eapply iters_trans; [apply iters_one, Hs1|]. eapply iters_trans; [exact Hi2|].
    eapply iters_trans; apply iters_one.
    + unfold l2_flow_step. cbn [f_pc f_sctx f_code]. rewrite (proj2 (Z.eqb_neq _ _)) by lia.
      apply region_cons in Hrc0 as [Hop Hrc0]. apply region_cons in Hrc0 as [Harg _].
      rewrite !rd8_in by (unfold MAX_BUFFER_SIZE in *; lia). res_cbn. rewrite Hop, Harg.
      change (classify INS_RCTX) with CRctx. cbn iota. rewrite H2. res_cbn. done.
    + unfold l2_flow_step. cbn [f_pc f_sctx f_code]. rewrite (proj2 (Z.eqb_neq _ _)) by lia.
      rewrite !rd8_in by (unfold MAX_BUFFER_SIZE in *; lia). res_cbn.
      replace (2 + psize body + 2) with (size - 1) by lia. rewrite Hret2.
      change (classify INS_RET) with CRet. cbn iota. do 3 f_equal. lia.
  - pose proof (body_length l2_elim.2). lia.
  - split.
    + unfold l2_flowed. rewrite !encode_prog_app. apply region_app. rewrite length_psize, Hfs.
      split; [|apply region_app; rewrite length_psize, He3; split; [|apply region_app; split]].
      * eapply region_agree; [exact Hra|]. rewrite length_psize, Hfs. intros j Hj. apply Ho2. lia.
      * rewrite Z.add_0_l. eapply region_agree; [exact Hrb|]. rewrite length_psize, He3.
        intros j Hj. apply Ho2. lia.
      * rewrite Z.add_0_l. exact Hr2.
      * rewrite length_psize, Hfr. apply region_cons. split; [|apply region_nil].
        rewrite <- Hret2. f_equal. lia.
    + assert (Hl2 : psize l2_flowed = size).
      { unfold l2_flowed. rewrite !psize_app, Hfs, Hfr, He3. change (psize [I1 INS_RET]) with 1. lia. }
      rewrite length_psize, Hl2. intros j Hj. rewrite Ho2, Ho1 by lia. done.
Qed.
End function.

(** ** Pass 2: compaction *)
Definition drop_nops (p : list instr) : list instr := filter (λ i, nopb i = false) p.

Lemma drop_nops_cons i p :
  drop_nops (i :: p) = if nopb i then drop_nops p else i :: drop_nops p.
Proof.
  unfold drop_nops. rewrite filter_cons. destruct (decide _) as [E|E].
  - by rewrite E.
  - by destruct (nopb i).
Qed.

Lemma nop_view i : instr_wf i = true → nopb i = true → i = I1 INS_NOP.
Proof.
  intros Hwf Hn. apply bool_decide_eq_true in Hn. unfold class_of in Hn.
  assert (Hop : opcode_of i = INS_NOP).
  { revert Hn. generalize (opcode_of i). intros op. unfold classify.
    destruct (Z.eqb_spec op INS_NOP); [done|]. repeat (case_match; try discriminate). }
  destruct (instr_wf_view i Hwf) as [op _ Hc|op a _ Hc _|k api _ _ Hc|op w _ Hc _];
    cbn in *; subst; try done. unfold INS_SYSCALL0, INS_NOP in *. lia.
Qed.

Lemma l2_after_nop p :
  lbls (ist (ps_os p)) = [] → opts (ps_os p) = [] → l2_after p = Ret p.
Proof.
  intros Hl Ho. unfold l2_after, is_l2_backpatch. rewrite Ho. res_cbn.
  unfold is_get_lblrec. rewrite Hl. cbn. by destruct p as [? ? [? ? ?]].
Qed.

(** [memcpy(b + d, b + d + k, n)]: [n] bytes move down, the rest stays. *)
Lemma shift_exact b d k n :
  buf_ok b → 0 ≤ d → 0 ≤ k → 0 ≤ n → d + k + n ≤ MAX_BUFFER_SIZE →
  ∃ b', memcpy_buf b b d (d + k) n = Ret b' ∧ buf_ok b' ∧
        (∀ j, j < d ∨ d + n ≤ j → bget b' j = bget b j) ∧
        (∀ j, d ≤ j < d + n → bget b' j = bget b (j + k)).
Proof.
  intros Hb Hd Hk Hn Hm. exists (bstore b d (bslice b (d + k) (Z.to_nat n))).
  split; [apply memcpy_buf_in; lia|]. split; [by apply buf_ok_bstore|].
  split; intros j Hj; rewrite bget_bstore, length_bslice; case_decide; try lia; try done.
  rewrite lookup_bslice by lia. cbn. rewrite u8_id by apply Hb. f_equal. lia.
Qed.

Record compact_inv (size : Z) (p : peepstate) (rest : list instr) : Prop := {
  ci_region : region (code (ist (ps_os p))) (ps_pc p) (encode_prog rest);
  ci_end : ps_pc p + psize rest = size - ps_rdc p;
  ci_ok : buf_ok (code (ist (ps_os p)));
  ci_pc : 0 ≤ ps_pc p;
  ci_rdc : 0 ≤ ps_rdc p;
  ci_lbls : lbls (ist (ps_os p)) = [];
  ci_opts : opts (ps_os p) = []
}.

Definition compact_next (p p' : peepstate) (hd : list instr) : Prop :=
  ps_pc p' = ps_pc p + psize hd ∧
  region (code (ist (ps_os p'))) (ps_pc p) (encode_prog hd) ∧
  (∀ j, j < ps_pc p → bget (code (ist (ps_os p'))) j = bget (code (ist (ps_os p))) j) ∧
  ist (ps_os p') = set_code (code (ist (ps_os p'))) (ist (ps_os p)).

Lemma l2_compact_step_ok size p i t :
  compact_inv size p (i :: t) → prog2 (i :: t) → size < MAX_BUFFER_SIZE →
  ∃ p', l2_compact_step size p = Ret (inl p') ∧ compact_inv size p' t ∧
        compact_next p p' (if nopb i then [] else [i]).
Proof.
  intros [Hr He Hok H0 Hrdc Hl Ho] Hp Hm. apply prog2_cons in Hp as [[Hwf Hst] _].
  rewrite psize_cons in He. pose proof (psize_nonneg t). pose proof (isize_pos i).
  rewrite encode_prog_cons in Hr. apply region_app in Hr as [Hr1 Hr2].
  assert (Hsz : ps_pc p + isize i ≤ size - ps_rdc p) by lia.
  assert (Hm' : size - ps_rdc p < MAX_BUFFER_SIZE) by lia.
  destruct (read2_operand _ _ _ _ Hwf Hst Hr1 H0 Hsz Hm') as (x & Hx & _).
  assert (Hhd : l2_compact_step size p =
    (p1 ← (if nopb i then l2_drop_nop size p else Ret (ps_skip (isize i) p));
     p2 ← l2_after p1; Ret (inl p2))).
  { unfold l2_compact_step. rewrite u16_id by (unfold is_u16, MAX_BUFFER_SIZE in *; lia).
    rewrite (proj2 (Z.eqb_neq _ _)) by lia.
    rewrite (read2_opcode _ _ _ _ Hr1 H0 Hsz Hm'). res_cbn. rewrite Hx. res_cbn.
    fold (class_of i). rewrite (straight2_size i Hwf Hst). unfold nopb.
    pose proof (straight2_class i Hst). by destruct (class_of i). }
  rewrite Hhd. destruct (nopb i) eqn:En.
  - apply nop_view in En as ->; [|done]. change (isize (I1 INS_NOP)) with 1 in *.
    destruct (shift_exact (code (ist (ps_os p))) (ps_pc p) 1 (size - (ps_rdc p + 1) - ps_pc p))
      as (c' & Hc & Hok' & Hout & Hin); try done; try lia.
    unfold l2_drop_nop, is_l2_push_coderec. cbn [ist]. change (u16 1) with 1. rewrite Hc. res_cbn.
    rewrite l2_after_nop by done. eexists. split; [done|].
    split; [constructor; cbn; try done; try lia|].
    + cbn [encode length] in Hr2. intros j y Hj. rewrite <- (Hr2 j y Hj).
      pose proof (lookup_lt_Some _ _ _ Hj). pose proof (length_psize t). rewrite Hin by lia.
      f_equal. lia.
    + unfold compact_next. cbn. rewrite psize_nil. split; [lia|]. split; [apply region_nil|].
      split; [|done]. intros j Hj. apply Hout. lia.
  - res_cbn. rewrite l2_after_nop by done. eexists. split; [done|].
    split; [constructor; cbn; try done; lia|].
    unfold compact_next. rewrite psize_cons, psize_nil, Z.add_0_r, encode_prog_one. cbn [ps_skip ps_pc ps_os].
    split; [done|]. split; [done|]. split; [done|]. by destruct (ps_os p) as [[]].
Qed.

Lemma l2_compact_iters size p prog :
  compact_inv size p prog → prog2 prog → size < MAX_BUFFER_SIZE →
  ∃ p', iters (l2_compact_step size) (length prog) p p' ∧ compact_inv size p' [] ∧
        compact_next p p' (drop_nops prog).
Proof.
  intros Hi Hp Hm. revert p Hi. induction Hp as [|i t Hit Ht IH]; intros p Hi.
  { exists p. split; [constructor|]. split; [done|]. split; [cbn; rewrite psize_nil; lia|].
    split; [apply region_nil|]. split; [done|]. by destruct (ist (ps_os p)). }
  destruct (l2_compact_step_ok size p i t Hi) as (p1 & Hs & Hi1 & (Hpc1 & Hr1 & Hlo1 & Hs1));
    [by apply prog2_cons|done|].
  destruct (IH p1 Hi1) as (p2 & Hit2 & Hi2 & (Hpc2 & Hr2 & Hlo2 & Hs2)).
  exists p2. split; [by econstructor|]. split; [done|].
  assert (Hd : drop_nops (i :: t) = (if nopb i then [] else [i]) ++ drop_nops t).
  { rewrite drop_nops_cons. by destruct (nopb i). }
  rewrite Hd. unfold compact_next. rewrite psize_app. split; [lia|].
  set (hd := if nopb i then [] else [i]) in *. pose proof (psize_nonneg hd). split; [|split].
  - rewrite encode_prog_app. apply region_app. rewrite length_psize, <- Hpc1. split; [|done].
    eapply region_agree; [exact Hr1|]. intros j Hj. rewrite length_psize in Hj. apply Hlo2. lia.
  - intros j Hj. rewrite Hlo2, Hlo1 by lia. done.
  - rewrite Hs2 at 1. by rewrite Hs1.
Qed.

Lemma drop_nops_straight p : prog2 p → straight_prog (drop_nops p).
Proof.
  induction 1 as [|i p [Hwf Hst] Hp IH]; [by apply Forall_nil|].
  rewrite drop_nops_cons. unfold straight2 in Hst. destruct (nopb i); [done|].
  rewrite orb_false_r in Hst. by apply Forall_cons.
Qed.

Lemma drop_nops_length p : (length (drop_nops p) ≤ length p)%nat.
Proof. induction p as [|i p IH]; [done|]. rewrite drop_nops_cons. destruct (nopb i); cbn; lia. Qed.

Lemma drop_nops_psize p : psize (drop_nops p) ≤ psize p.
Proof.
  induction p as [|i p IH]; [done|]. rewrite drop_nops_cons, psize_cons. pose proof (isize_pos i).
  destruct (nopb i); rewrite ?psize_cons; lia.
Qed.

Lemma l2_switch_straight l1 size o pc i :
  size < MAX_BUFFER_SIZE →
  instr_wf i = true → straight i = true → region (code (ist o)) pc (encode i) → 0 ≤ pc →
  pc + isize i ≤ size →
  l2_switch_step l1 size (pc, o) = Ret (inl (pc + isize i, o)).
Proof.
  intros Hm Hwf Hst Hr H0 Hsz. pose proof (isize_pos i).
  destruct (read_operand _ _ _ _ Hwf Hst Hr H0 Hsz Hm) as (x & Hx & _).
  unfold l2_switch_step. cbn [fst snd]. rewrite (proj2 (Z.eqb_neq _ _)) by lia.
  rewrite (read_opcode _ _ _ _ Hr H0 Hsz Hm). res_cbn. rewrite Hx. res_cbn.
  fold (class_of i). rewrite (straight_size i Hwf Hst). unfold straight in Hst.
  by destruct (class_of i).
Qed.

Lemma l2_function_spec fuel l1 n m body o :
  is_byte n → is_byte m → fn_body body → Forall no_frame body →
  region (code (ist o)) 0 (encode_prog (l2_function n m body)) → buf_ok (code (ist o)) →
  psize (l2_function n m body) < MAX_BUFFER_SIZE →
  psize (l2_function n m body) < Z.of_nat fuel →
  lbls (ist o) = [] → opts o = [] →
  let out := drop_nops (l2_flowed n body) in
  ∃ o', is_l2_optimize fuel l1 (psize (l2_function n m body)) o = Ret (o', psize out) ∧
        bslice (code (ist o')) 0 (Z.to_nat (psize out)) = encode_prog out ∧
        ist o' = set_code (code (ist o')) (ist o) ∧ cdrs o' = [] ∧ opts o' = [] ∧
        psize out ≤ psize (l2_function n m body).
Proof.
  intros Hn Hm Hb Hnf Hr Hok Hs Hfu Hl Ho out. set (size := psize (l2_function n m body)) in *.
  destruct (l2_flow_function fuel n m body Hn Hm Hb Hnf (code (ist o)) Hr Hs Hfu)
    as (k & c1 & Hit & Hk & [Hr1 Ho1]). fold size in Hit, Hk.
  destruct (l2_elim_body n m body Hn Hb Hnf) as (He1 & He2 & He3 & Hcnt).
  pose proof (psize_nonneg body). pose proof (l2_function_size n m body) as Hsz. fold size in Hsz.
  assert (Hps : psize (l2_flowed n body) = size).
  { unfold l2_flowed. rewrite !psize_app, !frame_psize, He3. change (psize [I1 INS_RET]) with 1. lia. }
  rewrite length_psize, Hps, Z.add_0_l in Ho1.
  assert (Hp2 : prog2 (l2_flowed n body)).
  { assert (Hfr : ∀ op, op = INS_SCTX ∨ op = INS_RCTX → prog2 (frame op (l2_elim n body).1)).
    { intros op Hop. unfold frame. destruct (_ =? 0).
      - by repeat (apply Forall_cons; split); try apply Forall_nil.
      - apply Forall_cons. split; [|by apply Forall_nil]. unfold is_byte in *.
        assert (Hc : byteb (l2_elim n body).1 = true) by (apply byteb_true; unfold is_byte; lia).
        destruct Hop as [-> | ->]; cbn; by rewrite Hc. }
    unfold l2_flowed. rewrite !prog2_app. split; [by apply Hfr; left|]. split; [done|].
    split; [by apply Hfr; right|]. apply Forall_cons. split; [done|by apply Forall_nil]. }
  unfold is_l2_optimize.
  assert (Hok1 : buf_ok c1).
  { intros j. destruct (decide (0 ≤ j < size)) as [Hj|Hj].
    - pose proof (encode_prog_bytes _ (prog2_wf _ Hp2)) as Hby.
      destruct (lookup_lt_is_Some_2 (encode_prog (l2_flowed n body)) (Z.to_nat j)) as [x Hx].
      { unfold psize in Hps. lia. }
      pose proof (Hr1 _ _ Hx) as Hg. rewrite Z.add_0_l, Z2Nat.id in Hg by lia. rewrite Hg.
      exact (Forall_lookup_1 _ _ _ _ Hby Hx).
    - rewrite Ho1 by lia. apply Hok. }
  rewrite (loop_exit _ _ fuel _ _ (mkF2 size 0 c1) Hit); [|unfold l2_flow_step; cbn; by rewrite Z.eqb_refl|lia].
  res_cbn. cbn [f_code].
  destruct (l2_compact_iters size (mkPS 0 0 (upd_code c1 o)) (l2_flowed n body))
    as (p & Hit2 & [_ Hend _ _ Hrdc Hlp Hop] & (Hpc & Hrp & _ & Hsp)); try done.
  fold out in Hpc, Hrp. cbn [ps_pc ps_os ps_rdc] in *. rewrite Z.add_0_l in Hpc.
  rewrite psize_nil, Z.add_0_r in Hend. pose proof (psize_nonneg out).
  pose proof (prog_length (l2_flowed n body)).
  pose proof (drop_nops_psize (l2_flowed n body)) as Hdp. fold out in Hdp.
  assert (Hu : u16 (size - ps_rdc p) = psize out).
  { rewrite u16_id; [lia|unfold is_u16, MAX_BUFFER_SIZE in *; lia]. }
  rewrite (loop_exit _ _ fuel _ _ p Hit2);
    [|unfold l2_compact_step; rewrite Hu, Hpc; by rewrite Z.eqb_refl|lia].
  res_cbn. rewrite Hu.
  pose proof (walk_iters (l2_switch_step l1 (psize out)) (λ pc, (pc, ps_os p))
    (code (ist (ps_os p))) (psize out) out 0
    ltac:(intros; apply l2_switch_straight; try done; lia) (drop_nops_straight _ Hp2) Hrp
    ltac:(lia) ltac:(lia)) as Hit3.
  pose proof (drop_nops_length (l2_flowed n body)) as Hdl. fold out in Hdl.
  rewrite (loop_exit _ _ fuel _ _ (0 + psize out, ps_os p) Hit3);
    [|unfold l2_switch_step; cbn [fst]; by rewrite Z.add_0_l, Z.eqb_refl|lia].
  res_cbn. rewrite Z.add_0_l. eexists. split; [done|]. cbn [ist cdrs opts is_l2_clear_optrec
    is_l2_clear_coderec].
  split; [|split; [exact Hsp|]].
  - replace (Z.to_nat (psize out)) with (length (encode_prog out)) by (unfold psize; lia).
    by apply region_to_bslice.
  - split; [done|]. split; [done|]. lia.
Qed.

(** C8: on a straight-line function the level-2 optimiser computes its
    reference. For [INS_SCTX n; body; INS_RCTX m; INS_RET] it ends, and leaves
    the function in which [elim] has removed and renumbered the variables
    nobody loads, both frame instructions carry the remaining count (or are
    gone when it is zero) and every [INS_NOP] has been squeezed out; nothing
    else of the stream changes and the result is not longer. *)
Theorem l2_optimize_function fuel l1 n m body o :
  is_byte n → is_byte m → fn_body body → Forall no_frame body →
  region (code (ist o)) 0 (encode_prog (l2_function n m body)) → buf_ok (code (ist o)) →
  psize (l2_function n m body) < MAX_BUFFER_SIZE →
  psize (l2_function n m body) < Z.of_nat fuel →
  lbls (ist o) = [] → opts o = [] →
  let out := drop_nops (l2_flowed n body) in
  ∃ o', is_l2_optimize fuel l1 (psize (l2_function n m body)) o = Ret (o', psize out) ∧
        bslice (code (ist o')) 0 (Z.to_nat (psize out)) = encode_prog out ∧
        ist o' = set_code (code (ist o')) (ist o) ∧ cdrs o' = [] ∧ opts o' = [] ∧
        psize out ≤ psize (l2_function n m body).
Proof. intros. by apply l2_function_spec. Qed.

Definition l2_demo_body : list instr :=
  [I3 INS_OBJCONST 0; I2 INS_OBJSTORE 1; I2 INS_OBJPOP 0; I2 INS_OBJPUSH 0; I1 INS_ADD].

Lemma l2_optimize_function_witness :
  let c := bstore ∅ 0 (encode_prog (l2_function 2 2 l2_demo_body)) in
  let s := mkIS c ∅ 0 15 [] ∅ in
  let out := [I2 INS_SCTX 1; I3 INS_OBJCONST 0; I2 INS_OBJPOP 0; I2 INS_OBJPUSH 0; I1 INS_ADD;
              I2 INS_RCTX 1; I1 INS_RET] in
  ∃ o', is_l2_optimize 20 [] 15 (mkOS s [] []) = Ret (o', 13) ∧
        bslice (code (ist o')) 0 13 = encode_prog out ∧
        ist o' = set_code (code (ist o')) s ∧ cdrs o' = [] ∧ opts o' = [] ∧ 13 ≤ 15.
Proof.
  cbv zeta. refine (l2_optimize_function 20 [] 2 2 l2_demo_body _ _ _ _ _ _ _ _ _ _ _);
    try (by vm_compute).
  - by repeat (apply Forall_cons; split); try apply Forall_nil.
  - by repeat (apply Forall_cons; split); try apply Forall_nil.
  - apply region_bstore. by repeat (apply Forall_cons; split); try apply Forall_nil.
  - apply buf_ok_bstore, buf_ok_empty.
Defined.

Lemma elim_live k count body :
  (∀ v, 0 ≤ v < Z.of_nat k → loads v body ≠ 0) → elim k count body = (count, body).
Proof.
  induction k as [|k IH]; intros H; [done|]. cbn [elim].
  rewrite (proj2 (Z.eqb_neq _ _)) by (apply H; lia). apply IH. intros v Hv. apply H. lia.
Qed.

Lemma drop_nops_id p : Forall (λ i, nopb i = false) p → drop_nops p = p.
Proof. induction 1 as [|i p Hi Hp IH]; [done|]. by rewrite drop_nops_cons, Hi, IH. Qed.

(** Live functions are left alone. When every variable of the frame is
    loaded somewhere and there is no [INS_NOP], the level-2 optimiser returns
    the same instructions, with the frame's count in [INS_RCTX]. *)
Theorem l2_keeps_live_function fuel l1 n m body o :
  is_byte n → 0 < n → is_byte m → fn_body body → Forall no_frame body →
  (∀ v, 0 ≤ v < n → loads v body ≠ 0) → Forall (λ i, nopb i = false) body →
  region (code (ist o)) 0 (encode_prog (l2_function n m body)) → buf_ok (code (ist o)) →
  psize (l2_function n m body) < MAX_BUFFER_SIZE →
  psize (l2_function n m body) < Z.of_nat fuel →
  lbls (ist o) = [] → opts o = [] →
  ∃ o', is_l2_optimize fuel l1 (psize (l2_function n m body)) o =
          Ret (o', psize (l2_function n m body)) ∧
        bslice (code (ist o')) 0 (Z.to_nat (psize (l2_function n m body))) =
          encode_prog (l2_function n n body).
Proof.
  intros Hn Hn0 Hm Hb Hnf Hlive Hnn Hr Hok Hs Hf Hl Ho.
  assert (Hout : drop_nops (l2_flowed n body) = l2_function n n body).
  { unfold l2_flowed, l2_elim. rewrite elim_live by (intros v Hv; apply Hlive; lia).
    cbn [fst snd]. unfold frame. rewrite (proj2 (Z.eqb_neq n 0)) by lia.
    apply drop_nops_id. apply Forall_cons. split; [done|]. apply Forall_app. split; [done|].
    by repeat (apply Forall_cons; split); try apply Forall_nil. }
  destruct (l2_function_spec fuel l1 n m body o) as (o' & H1 & H2 & _); try done.
  rewrite Hout in *. exists o'.
  assert (Hsz : psize (l2_function n n body) = psize (l2_function n m body)).
  { unfold l2_function. by rewrite !psize_cons, !psize_app. }
  by rewrite <- Hsz in *.
Qed.

Lemma l2_keeps_live_function_witness :
  let body := [I3 INS_OBJCONST 0; I2 INS_OBJPOP 0; I2 INS_OBJPUSH 0] in
  let s := mkIS (bstore ∅ 0 (encode_prog (l2_function 1 1 body))) ∅ 0 12 [] ∅ in
  ∃ o', is_l2_optimize 20 [] 12 (mkOS s [] []) = Ret (o', 12) ∧
        bslice (code (ist o')) 0 12 = encode_prog (l2_function 1 1 body).
Proof.
  cbv zeta. refine (l2_keeps_live_function 20 [] 1 1 [I3 INS_OBJCONST 0; I2 INS_OBJPOP 0; I2 INS_OBJPUSH 0]
    _ _ _ _ _ _ _ _ _ _ _ _ _ _); try (by vm_compute).
  - by repeat (apply Forall_cons; split); try apply Forall_nil.
  - by repeat (apply Forall_cons; split); try apply Forall_nil.
  - intros v Hv. assert (v = 0) as -> by lia. by vm_compute.
  - by repeat (apply Forall_cons; split); try apply Forall_nil.
  - apply region_bstore. by repeat (apply Forall_cons; split); try apply Forall_nil.
  - apply buf_ok_bstore, buf_ok_empty.
Defined.

Lemma l2_variable_walks_witness :
  let body := [I2 INS_OBJPUSH 3; I2 INS_OBJPOP 3; I2 INS_OBJPUSH 1] in
  let c := bstore ∅ 0 (encode_prog (body ++ [I1 INS_RET])) in
  is_l2_count_var_load 9 0 3 7 c = Ret 1 ∧
  (∃ c', is_l2_remove_var 9 0 3 7 c = Ret c' ∧
         patched c c' 0 (encode_prog [I1 0; I1 0; I1 0; I1 0; I2 INS_OBJPUSH 1])) ∧
  (∃ c', is_l2_replace_var 9 0 3 2 7 c = Ret c' ∧
         patched c c' 0 (encode_prog [I2 INS_OBJPUSH 2; I2 INS_OBJPOP 2; I2 INS_OBJPUSH 1])).
Proof.
  cbv zeta.
  refine (l2_variable_walks 9 _ 0 7 [I2 INS_OBJPUSH 3; I2 INS_OBJPOP 3; I2 INS_OBJPUSH 1] 3 2 _ _ _ _);
    [constructor|..]; try (by vm_compute).
  - by repeat (apply Forall_cons; split); try apply Forall_nil.
  - apply region_bstore. by repeat (apply Forall_cons; split); try apply Forall_nil.
  - vm_compute. lia.
Defined.

(** ** Jump tables are not translated *)
Lemma ld16_inv b i w :
  buf_ok b → ld16 b i = Ret w →
  0 ≤ i ∧ i + 1 < MAX_BUFFER_SIZE ∧ w = 256 * bget b i + bget b (i + 1).
Proof.
  intros Hb H. pose proof H as H'. unfold ld16 in H. res_inv H. unfold rd16 in E.
  do 2 res_inv E. apply rd8_inv in E0 as [Hi _]. apply rd8_inv in E1 as [Hi1 _].
  rewrite ld16_in in H' by (try lia; apply Hb). simplify_eq. split; [lia|]. split; [lia|done].
Qed.

(** Storing back the word that was read changes nothing. *)
Lemma st16_same b i w b' :
  buf_ok b → ld16 b i = Ret w → st16 b i w = Ret b' → beq b' b.
Proof.
  intros Hb Hl Hs. destruct (ld16_inv _ _ _ Hb Hl) as (H0 & H1 & ->).
  rewrite st16_in in Hs by lia. simplify_eq. intros j. rewrite bget_bput16.
  pose proof (Hb i). pose proof (Hb (i + 1)). unfold is_byte in *.
  repeat case_decide; subst; [|rewrite Z.mul_comm, Z.div_add_l by lia|done].
  - rewrite Z.add_comm, Z.mul_comm, Z.mod_add by lia. by apply Z.mod_small.
  - rewrite (Z.div_small (bget b (i + 1))) by lia. rewrite Z.add_0_r. by apply Z.mod_small.
Qed.

Lemma ld16_range b i w : ld16 b i = Ret w → is_u16 w.
Proof.
  unfold ld16. intros H. res_inv H. simplify_eq. apply end_swap16_range.
Qed.

Lemma translate_nil w : is_u16 w → is_l1_translate w [] = w.
Proof. intros H. unfold is_l1_translate. cbn. by apply u16_id. Qed.

(** The level-2 optimiser never moves a jump table. Its table pass asks
    [is_l1_translate], which reads the record list of the other optimiser;
    that list is empty whenever the level-1 optimiser has not run or has
    finished, and then every default and target is stored back unchanged,
    whatever code was removed. *)
Theorem l2_jumptable_unchanged jt d d' r :
  buf_ok d → is_l2_jumptable_reloc [] jt d = Ret (d', r) → beq d' d.
Proof.
  intros Hd H. unfold is_l2_jumptable_reloc in H. res_inv H. res_inv H. rename a0 into w.
  pose proof (ld16_range _ _ _ E0) as Hw. rewrite translate_nil in H by done.
  res_inv H. rename a0 into d1. pose proof (st16_same _ _ _ _ Hd E0 E1) as H1.
  assert (Hd1 : buf_ok d1) by (by rewrite H1). res_inv H. simplify_eq/=.
  eapply (loop_inv _ (λ st, beq st.2 d1 ∧ buf_ok st.2)) in E2 as (st & [Hst _] & Hx).
  - unfold is_l2_jumptable_step in Hx. destruct (_ <? _).
    + repeat res_inv Hx.
    + simplify_eq. by rewrite Hst.
  - intros st st' [Hs Hok] Hstep. unfold is_l2_jumptable_step in Hstep.
    destruct (_ <? _); [|simplify_eq]. res_inv Hstep.
    rewrite translate_nil in Hstep by (by eapply ld16_range).
    res_inv Hstep. simplify_eq/=. pose proof (st16_same _ _ _ _ Hok E3 E4) as Hb.
    split; [by rewrite Hb|by rewrite Hb].
  - cbn. done.
Qed.

Lemma l2_jumptable_unchanged_witness :
  let d := bstore ∅ 0 (6 :: word 6 ++ word 20 ++ word 6) in
  ∃ d' r, is_l2_jumptable_reloc [] 0 d = Ret (d', r) ∧ beq d' d.
Proof.
  cbv zeta. destruct (is_l2_jumptable_reloc [] 0 _) as [[d' r]| |] eqn:E;
    [|vm_compute in E; discriminate..].
  exists d', r. split; [done|].
  apply (l2_jumptable_unchanged 0 _ d' r); [apply buf_ok_bstore, buf_ok_empty|done].
Defined.

(** ** Functions the optimiser breaks *)
Definition run_l2 (p : list instr) : res (list Z) :=
  let s := mkIS (bstore ∅ 0 (encode_prog p)) ∅ 0 (psize p) [] ∅ in
  r ← is_l2_optimize 100 [] (psize p) (mkOS s [] []);
  Ret (bslice (code (ist r.1)) 0 (Z.to_nat r.2)).

(** Variables leave their frame or merge. (1) With variable 0 dead and
    variable 1 live, the frame shrinks to one variable while the code still
    uses number 1, the word below the frame. (2) With variable 0 dead in a
    frame of four, variables 2 and 3 both become 0: two live variables share
    a cell. *)
Theorem l2_renumbering_wrong :
  run_l2 [I2 INS_SCTX 2; I3 INS_OBJCONST 0; I2 INS_OBJPOP 1; I2 INS_OBJPUSH 1; I2 INS_RCTX 2;
          I1 INS_RET] =
    Ret (encode_prog [I2 INS_SCTX 1; I3 INS_OBJCONST 0; I2 INS_OBJPOP 1; I2 INS_OBJPUSH 1;
                      I2 INS_RCTX 1; I1 INS_RET]) ∧
  run_l2 [I2 INS_SCTX 4; I2 INS_OBJPUSH 1; I2 INS_OBJPUSH 2; I2 INS_OBJPUSH 3; I2 INS_RCTX 4;
          I1 INS_RET] =
    Ret (encode_prog [I2 INS_SCTX 3; I2 INS_OBJPUSH 1; I2 INS_OBJPUSH 0; I2 INS_OBJPUSH 0;
                      I2 INS_RCTX 3; I1 INS_RET]).
Proof. by vm_compute. Qed.

(** Dead stores take their pop with them, and loads behind the first
    return do not count. (1) The [INS_OBJPOP] of a variable nobody loads is
    deleted, and the value it would have popped stays on the stack. (2) A
    variable stored and loaded only behind an early return is taken for dead:
    the frame, and the second [INS_RCTX], are deleted although the load
    stays. *)
Theorem l2_dead_store_wrong :
  run_l2 [I2 INS_SCTX 1; I3 INS_OBJCONST 0; I2 INS_OBJPOP 0; I2 INS_RCTX 1; I1 INS_RET] =
    Ret (encode_prog [I3 INS_OBJCONST 0; I1 INS_RET]) ∧
  run_l2 [I2 INS_SCTX 1; I2 INS_RCTX 1; I1 INS_RET; I3 INS_OBJCONST 0; I2 INS_OBJSTORE 0;
          I2 INS_OBJPUSH 0; I2 INS_RCTX 1; I1 INS_RET] =
    Ret (encode_prog [I1 INS_RET; I3 INS_OBJCONST 0; I2 INS_OBJSTORE 0; I2 INS_OBJPUSH 0;
                      I1 INS_RET]).
Proof. by vm_compute. Qed.
