(* ===== verification/Vm.v ===== *)
(** * The stack machine (StackLib/StackVM/vm_stack.c), its variable and
      control instructions

    The evaluation stack grows down from the top of [vm_stacks] ([sp]), the
    frames grow up from the bottom ([bp]); both are [uint16]. The cells hold
    pointers to reference-counted objects, and the words that calls push. The
    handlers here are those of [vm_decode] that move values between stack and
    frame, transfer control, and check for the collision of the two stacks;
    they are what the peephole optimiser has to preserve. *)
From S2P Require Import Prelude Isa Streamer Linker L1.

Definition VM_MAX_STACK_SIZE : Z := 2000.
Definition VM_STATE_RUN : Z := 1.
Definition VM_STATE_EXCEPTION : Z := 4.
Definition VX_STACK_OVERFLOW : Z := 3.

(** A [void *] of the stack: NULL, an object, a package, or the program
    counter [INS_CALL] casts to a pointer. *)
Inductive cell : Type :=
  | CNull
  | CObj (o : nat)
  | CPkg (p : nat)
  | CWord (z : Z).

#[export] Instance cell_eq_dec : EqDecision cell.
Proof. solve_decision. Defined.

(** [vm_instance]; [refs] holds [mgc_refcount] of the live objects. *)
Record vm := mkVm {
  stacks : gmap Z cell;
  sp : Z;
  bp : Z;
  pc : Z;
  base_address : cell;
  refs : gmap nat Z;
  vm_state : Z;
  exception_code : Z
}.

Definition set_stacks (m : gmap Z cell) (s : vm) : vm :=
  mkVm m (sp s) (bp s) (pc s) (base_address s) (refs s) (vm_state s) (exception_code s).
Definition set_sp (z : Z) (s : vm) : vm :=
  mkVm (stacks s) (u16 z) (bp s) (pc s) (base_address s) (refs s) (vm_state s) (exception_code s).
Definition set_bp (z : Z) (s : vm) : vm :=
  mkVm (stacks s) (sp s) (u16 z) (pc s) (base_address s) (refs s) (vm_state s) (exception_code s).
Definition set_pc (z : Z) (s : vm) : vm :=
  mkVm (stacks s) (sp s) (bp s) (u16 z) (base_address s) (refs s) (vm_state s) (exception_code s).
Definition set_package (c : cell) (s : vm) : vm :=
  mkVm (stacks s) (sp s) (bp s) (pc s) c (refs s) (vm_state s) (exception_code s).
Definition set_refs (m : gmap nat Z) (s : vm) : vm :=
  mkVm (stacks s) (sp s) (bp s) (pc s) (base_address s) m (vm_state s) (exception_code s).

(** [vm_invoke_exception] *)
Definition vm_invoke_exception (excp : Z) (s : vm) : vm :=
  mkVm (stacks s) (sp s) (bp s) (pc s) (base_address s) (refs s) VM_STATE_EXCEPTION excp.

(** ** The macros of vm_stack.h *)
Definition in_stack (i : Z) : bool := (0 <=? i) && (i <? VM_MAX_STACK_SIZE).

Definition sget (s : vm) (i : Z) : cell := default CNull (stacks s !! i).

Definition rd_stack (i : Z) (s : vm) : res cell :=
  if in_stack i then Ret (sget s i) else Undef.

Definition wr_stack (i : Z) (c : cell) (s : vm) : res vm :=
  if in_stack i then Ret (set_stacks (<[i := c]> (stacks s)) s) else Undef.

(** [ctx->vm_stacks[ctx->sp--] = x] *)
Definition vm_push_stack (x : cell) (s : vm) : res vm :=
  s1 ← wr_stack (sp s) x s; Ret (set_sp (sp s - 1) s1).

(** [ctx->vm_stacks[ctx->bp++] = x] and [ctx->vm_stacks[--ctx->bp]] *)
Definition vm_push_base (x : cell) (s : vm) : res vm :=
  s1 ← wr_stack (bp s) x s; Ret (set_bp (bp s + 1) s1).

Definition vm_pop_base (s : vm) : res (cell * vm) :=
  let s1 := set_bp (bp s - 1) s in c ← rd_stack (bp s1) s1; Ret (c, s1).

Definition vm_get_base (i : Z) (s : vm) : res cell := rd_stack (bp s - i) s.
Definition vm_set_base (i : Z) (x : cell) (s : vm) : res vm := wr_stack (bp s - i) x s.

(** [if (obj != NULL) obj->mgc_refcount += d], an 8-bit counter; a cell that
    is not an object is dereferenced as one. *)
Definition add_ref (d : Z) (c : cell) (s : vm) : res vm :=
  match c with
  | CNull => Ret s
  | CObj o =>
      match refs s !! o with
      | Some r => Ret (set_refs (<[o := u8 (r + d)]> (refs s)) s)
      | None => Undef
      end
  | _ => Undef
  end.

Definition vm_push_stack_arc (obj : cell) (s : vm) : res vm :=
  s1 ← vm_push_stack obj s; add_ref 1 obj s1.

(** [++sp] may leave the array: the read does. The exception branch behind it
    needs [sp >= VM_MAX_STACK_SIZE], after that read. *)
Definition vm_pop_stack_arc (s : vm) : res (cell * vm) :=
  let s1 := set_sp (sp s + 1) s in
  obj ← rd_stack (sp s1) s1;
  if VM_MAX_STACK_SIZE <=? sp s1 then Ret (CNull, vm_invoke_exception VX_STACK_OVERFLOW s1)
  else
    s2 ← add_ref (-1) obj s1;
    s3 ← wr_stack (sp s2) CNull s2;
    Ret (obj, s3).

(** ** Handlers of [vm_decode] *)
Definition vmd_objpush (operand : Z) (s : vm) : res vm :=
  let index := u16 (operand + 1) in
  obj ← vm_get_base index s;
  s1 ← add_ref 1 obj s;
  s2 ← vm_push_stack obj s1;
  Ret (set_pc (pc s2 + 2) s2).

(** [vmd_store_variable:] *)
Definition vmd_store_variable (index : Z) (obj : cell) (s : vm) : res vm :=
  op1 ← vm_get_base index s;
  s1 ← (if decide (op1 = obj) then Ret s
        else
          s2 ← add_ref (-1) op1 s;
          s3 ← vm_set_base index obj s2;
          add_ref 1 obj s3);
  Ret (set_pc (pc s1 + 2) s1).

Definition vmd_objstore (operand : Z) (s : vm) : res vm :=
  obj ← rd_stack (sp s + 1) s;
  vmd_store_variable (u16 (operand + 1)) obj s.

Definition vmd_objpop (operand : Z) (s : vm) : res vm :=
  r ← vm_pop_stack_arc s;
  vmd_store_variable (u16 (operand + 1)) r.1 r.2.

Definition vmd_objdup (s : vm) : res vm :=
  op1 ← rd_stack (sp s + 1) s;
  s1 ← vm_push_stack_arc op1 s;
  Ret (set_pc (pc s1 + 1) s1).

(** [index] is the operand; [new_base_addr] the package in force. *)
Definition vmd_jmp (index : Z) (s : vm) : res vm :=
  let s1 := set_package (base_address s) s in
  Ret (set_pc (index + pc s1) s1).

Definition vmd_call (index : Z) (s : vm) : res vm :=
  s1 ← vm_push_base (base_address s) s;
  s2 ← vm_push_base (CWord (pc s1 + 3)) s1;
  vmd_jmp index s2.

(** [index = (uint16)vm_pop_base()] of a pointer the code did not put there
    as a number is not a defined value. *)
Definition vmd_ret (s : vm) : res vm :=
  r ← vm_pop_base s;
  match r.1 with
  | CWord z =>
      let s1 := set_pc (u16 z) r.2 in
      p ← vm_pop_base s1;
      Ret (set_package p.1 p.2)
  | CNull =>
      let s1 := set_pc 0 r.2 in
      p ← vm_pop_base s1;
      Ret (set_package p.1 p.2)
  | _ => Undef
  end.

(** [if (vm_get_bp() >= vm_get_sp())], behind the switch *)
Definition vmd_check (s : vm) : vm :=
  if sp s <=? bp s then vm_invoke_exception VX_STACK_OVERFLOW s else s.

(** One iteration on an instruction of the fragment. *)
Definition vm_step (i : instr) (s : vm) : res vm :=
  s1 ← match i with
       | I2 op a =>
           match classify op with
           | CPush => vmd_objpush a s
           | CStore => vmd_objstore a s
           | CPop => vmd_objpop a s
           | _ => Undef
           end
       | I1 op => if op =? INS_OBJDUP then vmd_objdup s
                  else if op =? INS_RET then vmd_ret s else Undef
       | I3 op w =>
           match classify op with CJmp => vmd_jmp w s | CCall => vmd_call w s | _ => Undef end
       | ISys _ _ => Undef
       end;
  Ret (vmd_check s1).

(** [while (vm_state == RUN)] over straight-line code *)
Fixpoint vm_run (p : list instr) (s : vm) : res vm :=
  match p with
  | [] => Ret s
  | i :: p' => if vm_state s =? VM_STATE_RUN then s1 ← vm_step i s; vm_run p' s1 else Ret s
  end.

(** ** Equal machines

    The same to every later instruction but for the program counter, which
    straight-line code does not read. *)
Record veq (s1 s2 : vm) : Prop := {
  veq_stacks : ∀ i, sget s1 i = sget s2 i;
  veq_sp : sp s1 = sp s2;
  veq_bp : bp s1 = bp s2;
  veq_base : base_address s1 = base_address s2;
  veq_refs : ∀ o, refs s1 !! o = refs s2 !! o;
  veq_state : vm_state s1 = vm_state s2;
  veq_exc : exception_code s1 = exception_code s2
}.

#[export] Instance veq_equivalence : Equivalence veq.
Proof.
  split.
  - intros s. by constructor.
  - intros s1 s2 []. constructor; intros; by symmetry.
  - intros s1 s2 s3 [] []. constructor; intros; etrans; eauto.
Qed.

(** [rsim R m1 m2]: when [m1] returns, so does [m2], with related results. *)
Definition rsim {A B} (R : A → B → Prop) (m1 : res A) (m2 : res B) : Prop :=
  ∀ a, m1 = Ret a → ∃ b, m2 = Ret b ∧ R a b.

Lemma rsim_ret {A B} (R : A → B → Prop) a b : R a b → rsim R (Ret a) (Ret b).
Proof. intros H x [= <-]. eauto. Qed.

Lemma rsim_undef {A B} (R : A → B → Prop) m : rsim R Undef m.
Proof. by intros a. Qed.

Lemma rsim_bind {A B C D} (R : A → B → Prop) (S : C → D → Prop) m1 m2 f1 f2 :
  rsim R m1 m2 → (∀ a b, R a b → rsim S (f1 a) (f2 b)) → rsim S (m1 ≫= f1) (m2 ≫= f2).
Proof.
  intros Hm Hf c H. destruct m1 as [a| |]; try done.
  destruct (Hm a eq_refl) as (b & -> & Hab). by apply (Hf a b Hab).
Qed.

#[export] Hint Resolve rsim_ret rsim_undef : orb.

Lemma sget_wr i c s j : sget (set_stacks (<[i := c]> (stacks s)) s) j = if decide (i = j) then c else sget s j.
Proof. unfold sget. cbn. rewrite lookup_insert. by case_decide. Qed.

Section veq.
Context (s1 s2 : vm) (H : veq s1 s2).

Lemma rd_stack_veq i : rd_stack i s1 = rd_stack i s2.
Proof using H. unfold rd_stack. by rewrite (veq_stacks _ _ H). Qed.

Lemma wr_stack_veq i c : rsim veq (wr_stack i c s1) (wr_stack i c s2).
Proof using H.
  unfold wr_stack. destruct (in_stack i); [|apply rsim_undef]. apply rsim_ret.
  destruct H. constructor; try done. intros j. rewrite !sget_wr. by case_decide.
Qed.

Lemma set_sp_veq z : veq (set_sp z s1) (set_sp z s2).
Proof using H. by destruct H. Qed.
Lemma set_bp_veq z : veq (set_bp z s1) (set_bp z s2).
Proof using H. by destruct H. Qed.
Lemma set_pc_veq z z' : veq (set_pc z s1) (set_pc z' s2).
Proof using H. by destruct H. Qed.

Lemma add_ref_veq d c : rsim veq (add_ref d c s1) (add_ref d c s2).
Proof using H.
  destruct c as [|o| |]; cbn; auto with orb. rewrite (veq_refs _ _ H).
  destruct (refs s2 !! o); auto with orb. apply rsim_ret.
  destruct H. constructor; try done. cbn. intros o'. rewrite !lookup_insert.
  by case_decide.
Qed.

Lemma vmd_check_veq : veq (vmd_check s1) (vmd_check s2).
Proof using H.
  unfold vmd_check. rewrite (veq_sp _ _ H), (veq_bp _ _ H).
  destruct (_ <=? _); [|done]. destruct H. by constructor.
Qed.
End veq.

Lemma push_stack_veq s1 s2 c : veq s1 s2 → rsim veq (vm_push_stack c s1) (vm_push_stack c s2).
Proof.
  intros H. unfold vm_push_stack. rewrite (veq_sp _ _ H).
  eapply rsim_bind; [by apply wr_stack_veq|]. intros a b Hab. by apply rsim_ret, set_sp_veq.
Qed.

Lemma rsim_rd {B} s1 s2 i (R : vm → B → Prop) f1 f2 :
  veq s1 s2 → (∀ c, rsim R (f1 c) (f2 c)) → rsim R (rd_stack i s1 ≫= f1) (rd_stack i s2 ≫= f2).
Proof.
  intros H Hf. rewrite (rd_stack_veq _ _ H). eapply (rsim_bind eq); [|by intros a b ->].
  intros a Ha. eauto.
Qed.

Lemma store_variable_veq s1 s2 i c :
  veq s1 s2 → rsim veq (vmd_store_variable i c s1) (vmd_store_variable i c s2).
Proof.
  intros H. unfold vmd_store_variable, vm_get_base. rewrite (veq_bp _ _ H).
  apply rsim_rd; [done|]. intros op1.
  eapply (rsim_bind veq); [|intros a b Hab; by apply rsim_ret, set_pc_veq].
  destruct (decide (op1 = c)); [by apply rsim_ret|].
  eapply rsim_bind; [by apply add_ref_veq|]. intros a b Hab.
  eapply rsim_bind; [|intros a' b' Hab'; by apply add_ref_veq].
  unfold vm_set_base. rewrite (veq_bp _ _ Hab). by apply wr_stack_veq.
Qed.

Lemma pop_stack_veq s1 s2 :
  veq s1 s2 → rsim (λ a b, a.1 = b.1 ∧ veq a.2 b.2) (vm_pop_stack_arc s1) (vm_pop_stack_arc s2).
Proof.
  intros H. unfold vm_pop_stack_arc. rewrite (veq_sp _ _ H).
  pose proof (set_sp_veq _ _ H (sp s2 + 1)) as H'.
  set (t1 := set_sp _ s1) in *. set (t2 := set_sp _ s2) in *.
  rewrite (veq_sp _ _ H'), (rd_stack_veq _ _ H').
  eapply (rsim_bind eq); [intros a Ha; eauto|]. intros c ? <-.
  destruct (_ <=? _); [apply rsim_ret; split; [done|]; destruct H'; by constructor|].
  eapply rsim_bind; [by apply add_ref_veq|]. intros a b Hab. rewrite (veq_sp _ _ Hab).
  eapply rsim_bind; [by apply wr_stack_veq|]. intros a' b' Hab'. by apply rsim_ret.
Qed.

(** The instructions that only move values. *)
Definition var_instr (i : instr) : bool :=
  match i with
  | I1 op => op =? INS_OBJDUP
  | I2 op _ => match classify op with CPush | CPop | CStore => true | _ => false end
  | _ => false
  end.

Lemma vm_step_veq i s1 s2 :
  var_instr i = true → veq s1 s2 → rsim veq (vm_step i s1) (vm_step i s2).
Proof.
  intros Hi H. unfold vm_step.
  eapply (rsim_bind veq); [|intros a b Hab; by apply rsim_ret, vmd_check_veq].
  destruct i as [op|op a| |]; try done; cbn in Hi.
  - rewrite Hi. unfold vmd_objdup, vm_push_stack_arc. rewrite (veq_sp _ _ H).
    apply rsim_rd; [done|]. intros c. eapply (rsim_bind veq); [|intros; by apply rsim_ret, set_pc_veq].
    eapply rsim_bind; [by apply push_stack_veq|]. intros; by apply add_ref_veq.
  - destruct (classify op); try done.
    + unfold vmd_objpush, vm_get_base. rewrite (veq_bp _ _ H). apply rsim_rd; [done|]. intros c.
      eapply rsim_bind; [by apply add_ref_veq|]. intros t1 t2 Ht.
      eapply rsim_bind; [by apply push_stack_veq|]. intros; by apply rsim_ret, set_pc_veq.
    + unfold vmd_objpop. eapply rsim_bind; [by apply pop_stack_veq|].
      intros [c t1] [c' t2] [Hc Ht]. cbn in *. subst. by apply store_variable_veq.
    + unfold vmd_objstore. rewrite (veq_sp _ _ H). apply rsim_rd; [done|]. intros c.
      by apply store_variable_veq.
Qed.

Lemma vm_run_veq p s1 s2 :
  forallb var_instr p = true → veq s1 s2 → rsim veq (vm_run p s1) (vm_run p s2).
Proof.
  revert s1 s2. induction p as [|i p IH]; intros s1 s2 Hp H; cbn [vm_run].
  { by apply rsim_ret. }
  cbn in Hp. apply andb_true_iff in Hp as [Hi Hp]. rewrite (veq_state _ _ H).
  destruct (_ =? _); [|by apply rsim_ret].
  eapply rsim_bind; [by apply vm_step_veq|]. intros; by apply IH.
Qed.

(** ** Reference counts *)
Definition refs_ok (m : gmap nat Z) : Prop := map_Forall (λ _ r, is_byte r) m.

Definition delta (d : Z) (c : cell) (o : nat) : Z := if decide (c = CObj o) then d else 0.

(** [m'] is [m] with [f o] added, in 8 bits, to the count of [o]. *)
Definition refs_add (m m' : gmap nat Z) (f : nat → Z) : Prop :=
  ∀ o, m' !! o = (λ r, u8 (r + f o)) <$> m !! o.

Lemma refs_add_zero m : refs_ok m → refs_add m m (λ _, 0).
Proof.
  intros Hm o. destruct (m !! o) as [r|] eqn:E; [|done]. cbn. f_equal.
  rewrite Z.add_0_r, u8_id; [done|]. by apply (Hm o).
Qed.

Lemma u8_add_l a b : u8 (u8 a + b) = u8 (a + b).
Proof. unfold u8. by rewrite Zplus_mod_idemp_l. Qed.

Lemma add_ref_inv m0 s s' d c f :
  add_ref d c s = Ret s' → refs_add m0 (refs s) f → refs_ok m0 →
  s' = set_refs (refs s') s ∧ refs_add m0 (refs s') (λ o, f o + delta d c o).
Proof.
  intros H Hf Hm. destruct c as [|o| |]; cbn in H; try done.
  - simplify_eq. split; [by destruct s'|]. intros o. rewrite Hf.
    destruct (m0 !! o); [|done]. cbn. unfold delta. rewrite decide_False by done. by rewrite Z.add_0_r.
  - destruct (refs s !! o) as [r|] eqn:E; [|done]. simplify_eq. split; [done|].
    intros o'. cbn. rewrite lookup_insert. rewrite Hf in E. unfold delta. case_decide as Ho; subst.
    + rewrite decide_True by done. destruct (m0 !! o'); [|done]. cbn in *. simplify_eq.
      by rewrite u8_add_l, Z.add_assoc.
    + rewrite decide_False by congruence. rewrite Hf. destruct (m0 !! o'); [|done]. cbn.
      by rewrite Z.add_0_r.
Qed.

Lemma add_ref_ok d c s m0 f :
  refs_add m0 (refs s) f → (∀ o, c = CObj o → is_Some (m0 !! o)) → (c = CNull ∨ ∃ o, c = CObj o) →
  ∃ s', add_ref d c s = Ret s'.
Proof.
  intros Hf Hl [-> | [o ->]]; [by eexists|]. cbn. rewrite Hf.
  destruct (Hl o eq_refl) as [r ->]. by eexists.
Qed.

Lemma add_ref_valid d c s s' m0 f :
  add_ref d c s = Ret s' → refs_add m0 (refs s) f →
  (∀ o, c = CObj o → is_Some (m0 !! o)) ∧ (c = CNull ∨ ∃ o, c = CObj o).
Proof.
  intros H Hf. destruct c as [|o| |]; cbn in H; try done; [split; [done|by left]|].
  split; [|right; by eexists]. intros o' [= <-]. rewrite Hf in H.
  destruct (m0 !! o); [by eexists|done].
Qed.

(** A machine between two instructions. *)
Record vm_ok (s : vm) : Prop := {
  ok_stacks : 0 ≤ bp s < sp s ∧ sp s < VM_MAX_STACK_SIZE;
  ok_refs : refs_ok (refs s);
  ok_run : vm_state s = VM_STATE_RUN
}.

Lemma in_stack_true i : in_stack i = true ↔ 0 ≤ i < VM_MAX_STACK_SIZE.
Proof. unfold in_stack. rewrite andb_true_iff, Z.leb_le, Z.ltb_lt. lia. Qed.

Lemma rd_stack_inv i s c : rd_stack i s = Ret c → 0 ≤ i < VM_MAX_STACK_SIZE ∧ c = sget s i.
Proof.
  unfold rd_stack. destruct (in_stack i) eqn:E; [|done]. intros [= <-].
  by apply in_stack_true in E.
Qed.

Lemma wr_stack_inv i c s s' :
  wr_stack i c s = Ret s' →
  0 ≤ i < VM_MAX_STACK_SIZE ∧ s' = set_stacks (<[i := c]> (stacks s)) s.
Proof.
  unfold wr_stack. destruct (in_stack i) eqn:E; [|done]. intros [= <-].
  by apply in_stack_true in E.
Qed.

Lemma wr_stack_ok i c s :
  0 ≤ i < VM_MAX_STACK_SIZE → wr_stack i c s = Ret (set_stacks (<[i := c]> (stacks s)) s).
Proof. intros H. unfold wr_stack. by rewrite (proj2 (in_stack_true i) H). Qed.

Lemma rd_stack_ok i s : 0 ≤ i < VM_MAX_STACK_SIZE → rd_stack i s = Ret (sget s i).
Proof. intros H. unfold rd_stack. by rewrite (proj2 (in_stack_true i) H). Qed.

(** What [INS_OBJPUSH] does when it returns. *)
Lemma objpush_inv x s s' :
  vm_ok s → vmd_objpush x s = Ret s' →
  let obj := sget s (bp s - u16 (x + 1)) in
  0 ≤ bp s - u16 (x + 1) ∧
  (∀ i, sget s' i = if decide (sp s = i) then obj else sget s i) ∧
  sp s' = sp s - 1 ∧ bp s' = bp s ∧ base_address s' = base_address s ∧
  vm_state s' = vm_state s ∧ exception_code s' = exception_code s ∧
  refs_add (refs s) (refs s') (delta 1 obj) ∧
  (∀ o, obj = CObj o → is_Some (refs s !! o)) ∧ (obj = CNull ∨ ∃ o, obj = CObj o).
Proof.
  intros [Hs Hr _] H obj. unfold vmd_objpush, vm_get_base, vm_push_stack in H.
  res_inv H. apply rd_stack_inv in E as [Hi ->]. res_inv H. res_inv H. rename a into s1, a0 into s2.
  pose proof (refs_add_zero _ Hr) as Hz.
  destruct (add_ref_valid _ _ _ _ _ _ E Hz) as [Hv1 Hv2].
  apply (add_ref_inv _ _ _ _ _ _ E) in Hz as [E1 Hf]; [|done].
  res_inv E0. apply wr_stack_inv in E2 as [Hi2 ->]. simplify_eq/=. rewrite E1 in *. cbn in *.
  assert (Hu : u16 (sp s - 1) = sp s - 1).
  { apply u16_id. unfold is_u16, VM_MAX_STACK_SIZE in *. lia. }
  split; [lia|]. split; [|split; [exact Hu|]].
  - intros i. unfold sget. cbn. rewrite lookup_insert. by case_decide.
  - do 4 (split; [done|]). split; [|done]. intros o. rewrite Hf. done.
Qed.

Lemma vmd_check_run s : vm_state (vmd_check s) = VM_STATE_RUN → vmd_check s = s ∧ bp s < sp s.
Proof. unfold vmd_check. destruct (Z.leb_spec (sp s) (bp s)); [done|]. intros _. split; [done|lia]. Qed.

Lemma refs_add_ok m m' f : refs_ok m → refs_add m m' f → refs_ok m'.
Proof.
  intros Hm Hf o r Hr. rewrite Hf in Hr. destruct (m !! o); simplify_eq/=. apply u8_range.
Qed.

Lemma refs_add_ext m m1 m2 f1 f2 :
  refs_add m m1 f1 → refs_add m m2 f2 → (∀ o, f1 o = f2 o) → ∀ o, m1 !! o = m2 !! o.
Proof. intros H1 H2 Hf o. by rewrite H1, H2, Hf. Qed.

(** [push x] leaves a machine where a second [push x] and [dup] agree. *)
Lemma push_then_dup x s s' t :
  vm_ok s → vmd_objpush x s = Ret s' → vm_ok s' → vmd_objpush x s' = Ret t →
  ∃ t', vmd_objdup s' = Ret t' ∧ veq t t'.
Proof.
  intros Hok H1 Hok' H2.
  pose proof (objpush_inv _ _ _ Hok H1) as (Hi & Hg & Hsp & Hbp & _ & _ & _ & _ & Hv & Hv').
  pose proof (objpush_inv _ _ _ Hok' H2) as (_ & Hg' & Hsp' & Hbp' & Hba & Hst & Hex & Hf & Hw & Hw').
  rewrite Hbp in *. set (obj := sget s (bp s - u16 (x + 1))) in *.
  destruct (ok_stacks _ Hok) as [Hb1 Hb2]. destruct (ok_stacks _ Hok') as [Hb1' Hb2'].
  pose proof (u16_range (x + 1)) as Hx. unfold is_u16 in Hx.
  assert (Hobj : sget s' (bp s - u16 (x + 1)) = obj) by (rewrite Hg, decide_False by lia; done).
  assert (Htop : sget s' (sp s' + 1) = obj) by (rewrite Hg, decide_True by lia; done).
  rewrite Hobj in *. unfold vmd_objdup. rewrite rd_stack_ok, Htop by lia. res_cbn.
  unfold vm_push_stack_arc, vm_push_stack. rewrite wr_stack_ok by lia. res_cbn.
  set (s1 := set_sp _ _).
  pose proof (refs_add_zero _ (ok_refs _ Hok')) as Hz.
  destruct (add_ref_ok 1 obj s1 (refs s') (λ _, 0)) as [s2 H3]; [exact Hz|done|done|].
  rewrite H3. res_cbn. eexists. split; [done|].
  destruct (add_ref_inv _ _ _ _ _ _ H3 Hz (ok_refs _ Hok')) as [E Hf2]. rewrite E.
  constructor; cbn; try done.
  - intros i. rewrite Hg'. unfold sget. cbn. rewrite lookup_insert. by case_decide.
  - rewrite Hsp'. symmetry. apply u16_id. unfold is_u16, VM_MAX_STACK_SIZE in *. lia.
  - congruence.
  - by eapply refs_add_ext.
Qed.

(** The frame update that [pop] and [store] share. *)
Lemma store_variable_inv i obj s t f m0 :
  vmd_store_variable i obj s = Ret t → refs_add m0 (refs s) f → refs_ok m0 →
  let old := sget s (bp s - i) in
  0 ≤ bp s - i < VM_MAX_STACK_SIZE ∧
  (∀ j, sget t j = if decide (bp s - i = j) then obj else sget s j) ∧
  sp t = sp s ∧ bp t = bp s ∧ base_address t = base_address s ∧ vm_state t = vm_state s ∧
  exception_code t = exception_code s ∧
  refs_add m0 (refs t)
    (λ o, f o + if decide (old = obj) then 0 else delta (-1) old o + delta 1 obj o) ∧
  (old ≠ obj → (∀ o, old = CObj o → is_Some (m0 !! o)) ∧ (old = CNull ∨ ∃ o, old = CObj o)).
Proof.
  intros H Hf Hm old. unfold vmd_store_variable, vm_get_base in H. res_inv H.
  apply rd_stack_inv in E as [Hi ->]. res_inv H. rename a into s1. simplify_eq/=.
  fold old in E. split; [done|]. destruct (decide (old = obj)) as [Ho|Ho].
  - simplify_eq. split; [|do 5 (split; [done|]); split; [|done]].
    + intros j. cbn. case_decide; [by subst|done].
    + intros o. cbn. rewrite Hf. by rewrite Z.add_0_r.
  - res_inv E. rename a into s2. destruct (add_ref_valid _ _ _ _ _ _ E0 Hf) as [Hv Hv'].
    destruct (add_ref_inv _ _ _ _ _ _ E0 Hf Hm) as [E2 Hf2]. rewrite E2 in E.
    res_inv E. unfold vm_set_base in E1. apply wr_stack_inv in E1 as [_ ->].
    destruct (add_ref_inv _ _ _ _ _ _ E Hf2 Hm) as [E3 Hf3]. rewrite E3. cbn.
    split; [|do 5 (split; [done|]); split; [|done]].
    + intros j. unfold sget. cbn. rewrite lookup_insert. by case_decide.
    + intros o. rewrite Hf3. by rewrite Z.add_assoc.
Qed.

Lemma store_variable_ok i obj s f m0 :
  refs_add m0 (refs s) f → refs_ok m0 → 0 ≤ bp s - i < VM_MAX_STACK_SIZE →
  let old := sget s (bp s - i) in
  (old ≠ obj → (∀ o, old = CObj o → is_Some (m0 !! o)) ∧ (old = CNull ∨ ∃ o, old = CObj o)) →
  (old ≠ obj → (∀ o, obj = CObj o → is_Some (m0 !! o)) ∧ (obj = CNull ∨ ∃ o, obj = CObj o)) →
  ∃ t, vmd_store_variable i obj s = Ret t.
Proof.
  intros Hf Hm Hi old Ho Hn. unfold vmd_store_variable, vm_get_base, vm_set_base.
  rewrite rd_stack_ok by lia. res_cbn. fold old.
  destruct (decide (old = obj)) as [E|E]; [by eexists|].
  destruct (Ho E) as [Ho1 Ho2]. destruct (Hn E) as [Hn1 Hn2].
  destruct (add_ref_ok (-1) old s m0 f Hf Ho1 Ho2) as [s2 H2]. rewrite H2. res_cbn.
  destruct (add_ref_inv _ _ _ _ _ _ H2 Hf Hm) as [E2 Hf2]. rewrite E2. cbn [bp set_refs].
  rewrite wr_stack_ok by done. res_cbn.
  destruct (add_ref_ok 1 obj (set_stacks (<[bp s - i := obj]> (stacks s2)) s2) m0 _ Hf2 Hn1 Hn2) as [s3 H3].
  rewrite E2 in H3. cbn in H3 |- *. rewrite H3. by eexists.
Qed.

Lemma refs_add_trans m m1 m2 f g :
  refs_add m m1 f → refs_add m1 m2 g → refs_add m m2 (λ o, f o + g o).
Proof.
  intros H1 H2 o. rewrite H2, H1. destruct (m !! o); [|done]. cbn.
  by rewrite u8_add_l, Z.add_assoc.
Qed.

(** What [vm_pop_stack_arc] does when it returns. *)
Lemma pop_stack_inv s r :
  vm_ok s → vm_pop_stack_arc s = Ret r →
  sp s + 1 < VM_MAX_STACK_SIZE ∧ r.1 = sget s (sp s + 1) ∧
  (∀ j, sget r.2 j = if decide (sp s + 1 = j) then CNull else sget s j) ∧
  sp r.2 = sp s + 1 ∧ bp r.2 = bp s ∧ base_address r.2 = base_address s ∧
  vm_state r.2 = vm_state s ∧ exception_code r.2 = exception_code s ∧
  refs_add (refs s) (refs r.2) (delta (-1) r.1) ∧
  (∀ o, r.1 = CObj o → is_Some (refs s !! o)) ∧ (r.1 = CNull ∨ ∃ o, r.1 = CObj o).
Proof.
  intros [Hs Hr _] H. unfold vm_pop_stack_arc in H.
  assert (Hu : u16 (sp s + 1) = sp s + 1).
  { apply u16_id. unfold is_u16, VM_MAX_STACK_SIZE in *. lia. }
  res_inv H. apply rd_stack_inv in E as [Hi ->]. cbn in Hi, H. rewrite Hu in *.
  rewrite (proj2 (Z.leb_gt _ _)) in H by lia. res_inv H. rename a into s2.
  set (s1 := set_sp (sp s + 1) s) in *. change (sget s1 (sp s + 1)) with (sget s (sp s + 1)) in *.
  assert (Hz : refs_add (refs s) (refs s1) (λ _, 0)) by (by apply refs_add_zero).
  destruct (add_ref_valid _ _ _ _ _ _ E Hz) as [Hv Hv'].
  destruct (add_ref_inv _ _ _ _ _ _ E Hz Hr) as [E2 Hf]. rewrite E2 in H.
  res_inv H. apply wr_stack_inv in E0 as [_ ->]. simplify_eq/=. rewrite Hu.
  split; [lia|]. split; [done|]. split.
  - intros j. unfold sget. cbn. rewrite lookup_insert. by case_decide.
  - do 5 (split; [done|]). split; [|done]. intros o. rewrite Hf. done.
Qed.

(** [pop x; push x] and [store x] agree. *)
Lemma pop_then_push x s s1 t :
  vm_ok s → vmd_objpop x s = Ret s1 → vmd_check s1 = s1 → vmd_objpush x s1 = Ret t →
  ∃ t', vmd_objstore x s = Ret t' ∧ veq t t'.
Proof.
  intros Hok H1 Hchk H2. unfold vmd_objpop in H1. res_inv H1. rename a into r.
  destruct (pop_stack_inv _ _ Hok E) as (Hlt & Hobj & Hg & Hsp & Hbp & Hba & Hst & Hex & Hf & Hv & Hv').
  destruct (ok_stacks _ Hok) as [Hb1 Hb2]. pose proof (ok_refs _ Hok) as Hm.
  set (idx := u16 (x + 1)) in *. set (obj := r.1) in *.
  pose proof (u16_range (x + 1)) as Hx. fold idx in Hx. unfold is_u16 in Hx.
  destruct (store_variable_inv _ _ _ _ _ _ H1 Hf Hm)
    as (Hi & Hg1 & Hsp1 & Hbp1 & Hba1 & Hst1 & Hex1 & Hf1 & Hov).
  rewrite Hbp in *.
  assert (Hold : sget r.2 (bp s - idx) = sget s (bp s - idx)) by (rewrite Hg, decide_False by lia; done).
  rewrite Hold in *. set (old := sget s (bp s - idx)) in *.
  assert (Hok1 : vm_ok s1).
  { constructor.
    - unfold vmd_check in Hchk. destruct (Z.leb_spec (sp s1) (bp s1)); [|lia].
      rewrite <- Hchk in *. cbn in *. lia.
    - by eapply refs_add_ok.
    - rewrite Hst1, Hst. apply (ok_run _ Hok). }
  destruct (objpush_inv _ _ _ Hok1 H2) as (_ & Hg2 & Hsp2 & Hbp2 & Hba2 & Hst2 & Hex2 & Hf2 & _).
  fold idx in Hg2, Hf2. rewrite Hbp1 in *.
  assert (Hobj1 : sget s1 (bp s - idx) = obj) by (rewrite Hg1, decide_True by done; done).
  rewrite Hobj1 in *.
  pose proof (refs_add_zero _ Hm) as Hz.
  destruct (store_variable_ok idx obj s (λ _, 0) (refs s) Hz Hm Hi Hov) as [t' Ht']; [done|].
  exists t'. split.
  { unfold vmd_objstore. rewrite rd_stack_ok by lia. res_cbn. rewrite <- Hobj. exact Ht'. }
  destruct (store_variable_inv _ _ _ _ _ _ Ht' Hz Hm)
    as (_ & Hg3 & Hsp3 & Hbp3 & Hba3 & Hst3 & Hex3 & Hf3 & _). fold old in Hf3.
  constructor; try congruence; try lia.
  - intros j. rewrite Hg2, Hg1, Hg3, Hg, Hsp1, Hsp.
    repeat case_decide; subst; try done; try lia.
  - eapply refs_add_ext; [eapply refs_add_trans; [exact Hf1|exact Hf2]|exact Hf3|].
    intros o. cbn. unfold delta. repeat case_decide; lia.
Qed.

(** ** Runs *)
Lemma vm_run_state p s t : vm_run p s = Ret t → vm_state t = VM_STATE_RUN → vm_state s = VM_STATE_RUN.
Proof.
  destruct p as [|i p]; cbn [vm_run]; [by intros [= ->]|].
  destruct (Z.eqb_spec (vm_state s) VM_STATE_RUN); [done|]. by intros [= ->].
Qed.

Lemma vm_run_cons i p s t :
  vm_run (i :: p) s = Ret t → vm_state t = VM_STATE_RUN →
  ∃ s1, vm_step i s = Ret s1 ∧ vm_state s1 = VM_STATE_RUN ∧ vm_run p s1 = Ret t.
Proof.
  intros H Ht. pose proof (vm_run_state _ _ _ H Ht) as Hs. cbn [vm_run] in H.
  rewrite Hs in H. cbn in H. res_inv H. eexists. split; [done|]. split; [|done].
  by eapply vm_run_state.
Qed.

Lemma objdup_inv s s' :
  vm_ok s → vmd_objdup s = Ret s' →
  sp s' = sp s - 1 ∧ bp s' = bp s ∧ vm_state s' = vm_state s ∧ refs_ok (refs s').
Proof.
  intros [Hs Hr _] H. unfold vmd_objdup, vm_push_stack_arc, vm_push_stack in H.
  res_inv H. res_inv H. simplify_eq/=. res_inv E0. res_inv E1. apply wr_stack_inv in E2 as [_ ->].
  simplify_eq. pose proof (refs_add_zero _ Hr) as Hz.
  destruct (add_ref_inv _ _ _ _ _ _ E0 Hz Hr) as [E2 Hf]. rewrite E2. cbn.
  split; [|split; [done|]; split; [done|]; by eapply refs_add_ok].
  apply u16_id. unfold is_u16, VM_MAX_STACK_SIZE in *. lia.
Qed.

Lemma vm_step_ok i s s' :
  var_instr i = true → vm_ok s → vm_step i s = Ret s' → vm_state s' = VM_STATE_RUN → vm_ok s'.
Proof.
  intros Hi Hok H Hrun. unfold vm_step in H. res_inv H. rename a into s1. simplify_eq.
  destruct (vmd_check_run _ Hrun) as [Hc Hlt]. rewrite Hc in *.
  destruct (ok_stacks _ Hok) as [Hb1 Hb2]. pose proof (ok_refs _ Hok) as Hm.
  pose proof (refs_add_zero _ Hm) as Hz.
  destruct i as [op|op x| |]; try done; cbn in Hi.
  - rewrite Hi in E. destruct (objdup_inv _ _ Hok E) as (? & ? & ? & ?).
    constructor; [lia|done|done].
  - destruct (classify op); try done.
    + destruct (objpush_inv _ _ _ Hok E) as (_ & _ & ? & ? & _ & _ & _ & Hf & _).
      constructor; [lia| |done]. by eapply refs_add_ok.
    + unfold vmd_objpop in E. res_inv E.
      destruct (pop_stack_inv _ _ Hok E0) as (? & _ & _ & ? & ? & _ & _ & _ & Hf & _).
      destruct (store_variable_inv _ _ _ _ _ _ E Hf Hm) as (_ & _ & ? & ? & _ & _ & _ & Hf1 & _).
      constructor; [lia| |done]. by eapply refs_add_ok.
    + unfold vmd_objstore in E. res_inv E.
      destruct (store_variable_inv _ _ _ _ _ _ E Hz Hm) as (_ & _ & ? & ? & _ & _ & _ & Hf1 & _).
      constructor; [lia| |done]. by eapply refs_add_ok.
Qed.

Lemma peep_var p : forallb var_instr p = true → forallb var_instr (peep p) = true.
Proof.
  remember (length p) as k eqn:Ek. revert p Ek.
  induction (lt_wf k) as [k _ IH]. intros p -> Hp.
  destruct p as [|i t]; [done|]. rewrite peep_cons. cbn in Hp. apply andb_true_iff in Hp as [Hi Ht].
  destruct (merges_with i t) as [r|] eqn:Em.
  - apply merges_with_spec in Em as (a & x & -> & Ha & ->). cbn in Ht.
    assert (Hr : forallb var_instr (peep r) = true) by (eapply IH; [|done|done]; cbn; lia).
    rewrite forallb_app, Hr, andb_true_r. by destruct Ha as [-> | ->].
  - cbn. rewrite Hi. eapply IH; [|done|done]. cbn. lia.
Qed.

Lemma peep_run p s t :
  forallb var_instr p = true → vm_ok s → vm_run p s = Ret t → vm_state t = VM_STATE_RUN →
  ∃ t', vm_run (peep p) s = Ret t' ∧ veq t t'.
Proof.
  remember (length p) as k eqn:Ek. revert p s Ek.
  induction (lt_wf k) as [k _ IH]. intros p s -> Hp Hok Hrun Hst.
  destruct p as [|i u]; [exists t; split; [done|reflexivity]|].
  destruct (vm_run_cons _ _ _ _ Hrun Hst) as (s1 & Hs1 & Hr1 & Hu).
  cbn in Hp. apply andb_true_iff in Hp as [Hi Hpu].
  pose proof (vm_step_ok _ _ _ Hi Hok Hs1 Hr1) as Hok1.
  rewrite peep_cons. destruct (merges_with i u) as [r|] eqn:Em.
  - apply merges_with_spec in Em as (a & x & -> & Ha & ->).
    destruct (vm_run_cons _ _ _ _ Hu Hst) as (s2 & Hs2 & Hr2 & Hr).
    cbn in Hpu. pose proof (vm_step_ok (I2 INS_OBJPUSH x) _ _ eq_refl Hok1 Hs2 Hr2) as Hok2.
    destruct (IH (length r) ltac:(cbn; lia) r s2 eq_refl Hpu Hok2 Hr Hst) as (t1 & Ht1 & Hv1).
    pose proof (peep_var r Hpu) as Hpv.
    assert (Hgoal : ∀ s2', veq s2 s2' → ∃ t', vm_run (peep r) s2' = Ret t' ∧ veq t t').
    { intros s2' Hv. destruct (vm_run_veq (peep r) s2 s2' Hpv Hv t1 Ht1) as (t' & Ht' & Hv').
      exists t'. split; [done|]. by etrans. }
    unfold vm_step in Hs1, Hs2. res_inv Hs1. res_inv Hs2. simplify_eq.
    destruct (vmd_check_run _ Hr1) as [Hc1 _]. destruct (vmd_check_run _ Hr2) as [Hc2 _].
    rewrite Hc1 in *. rewrite Hc2 in *.
    destruct Ha as [-> | ->]; cbn in E; cbn in E0; cbn [merged Z.eqb app].
    + destruct (push_then_dup x s a0 a1 Hok E Hok1 E0) as (d & Hd & Hvd).
      destruct (Hgoal (vmd_check d)) as (t' & Ht' & Hvt).
      { rewrite <- Hc2. by apply vmd_check_veq. }
      exists t'. split; [|done].
      change (vm_run (I2 INS_OBJPUSH x :: I1 INS_OBJDUP :: peep r) s = Ret t').
      assert (Ep : vm_step (I2 INS_OBJPUSH x) s = Ret a0) by (unfold vm_step; cbn; by rewrite E; res_cbn; rewrite Hc1).
      assert (Ed : vm_step (I1 INS_OBJDUP) a0 = Ret (vmd_check d)) by (unfold vm_step; cbn; by rewrite Hd).
      cbn [vm_run]. rewrite (ok_run _ Hok), Ep. res_cbn. by rewrite Hr1, Ed.
    + destruct (pop_then_push x s a0 a1 Hok E Hc1 E0) as (d & Hd & Hvd).
      destruct (Hgoal (vmd_check d)) as (t' & Ht' & Hvt).
      { rewrite <- Hc2. by apply vmd_check_veq. }
      exists t'. split; [|done]. change (vm_run (I2 INS_OBJSTORE x :: peep r) s = Ret t').
      assert (Es : vm_step (I2 INS_OBJSTORE x) s = Ret (vmd_check d)) by (unfold vm_step; cbn; by rewrite Hd).
      cbn [vm_run]. by rewrite (ok_run _ Hok), Es.
  - destruct (IH (length u) ltac:(cbn; lia) u s1 eq_refl Hpu Hok1 Hu Hst) as (t' & Ht' & Hv').
    exists t'. split; [|done]. cbn [vm_run]. rewrite (ok_run _ Hok). cbn [Z.eqb VM_STATE_RUN].
    change (1 =? 1) with true. cbn iota. by rewrite Hs1.
Qed.

Lemma var_straight p : prog_wf p → forallb var_instr p = true → straight_prog p.
Proof.
  induction 1 as [|i p Hi Hp IH]; intros Hv; [by apply Forall_nil|].
  cbn in Hv. apply andb_true_iff in Hv as [Hvi Hv]. apply Forall_cons. split; [|by apply IH].
  split; [done|]. destruct i as [op|op a| |]; try done; cbn in Hvi.
  - apply Z.eqb_eq in Hvi as ->. done.
  - unfold straight, class_of. cbn. by destruct (classify op).
Qed.

(** C6: the load/store peephole is sound. Take code that moves values between
    stack and variables ([INS_OBJPUSH], [INS_OBJPOP], [INS_OBJSTORE],
    [INS_OBJDUP]): whatever machine it runs on without an exception, the bytes
    [is_l1_optimize] leaves decode to a program that runs as well and ends in
    the same machine: same stack cells, frame, stack pointers, reference
    counts and state. *)
Theorem l1_preserves_runs prog o fuel s t :
  prog_wf prog → forallb var_instr prog = true →
  region (code (ist o)) 0 (encode_prog prog) →
  (∀ j, psize prog ≤ j → bget (code (ist o)) j = 0) → buf_ok (code (ist o)) →
  psize prog + 3 < MAX_BUFFER_SIZE → lbls (ist o) = [] → opts o = [] →
  (length prog < fuel)%nat →
  vm_ok s → vm_run prog s = Ret t → vm_state t = VM_STATE_RUN →
  ∃ o' n q t', is_l1_optimize fuel (psize prog) o = Ret (o', n) ∧ n ≤ psize prog ∧
    decode_prog (length q) (bslice (code (ist o')) 0 (Z.to_nat n)) = Some q ∧
    vm_run q s = Ret t' ∧ veq t t'.
Proof.
  intros Hwf Hv Hr Hz Hok Hm Hl Ho Hf Hs Hrun Hst.
  pose proof (var_straight _ Hwf Hv) as Hp.
  destruct (l1_optimize_spec prog o fuel Hp Hr Hz Hok Hm Hl Ho Hf)
    as (o' & H1 & H2 & _ & _ & _ & _ & H3 & _).
  destruct (peep_run prog s t Hv Hs Hrun Hst) as (t' & Ht' & Hveq).
  exists o', (psize (peep prog)), (peep prog), t'.
  split; [done|]. split; [done|]. split; [|done]. rewrite H2.
  apply decode_prog_encode; [|done]. by apply straight_wf, peep_straight.
Qed.

(** a machine with two variables and an object on the stack *)
Definition vm_demo : vm :=
  mkVm {[ 0 := CObj 1; 1 := CNull; 1999 := CObj 2 ]} 1998 2 0 CNull {[ 1%nat := 0x81; 2%nat := 0x81 ]}
       VM_STATE_RUN 0.

Lemma vm_demo_ok : vm_ok vm_demo.
Proof.
  constructor; [cbn; unfold VM_MAX_STACK_SIZE; lia| |done].
  intros o r Hr. cbn in Hr. apply lookup_insert_Some in Hr as [[_ <-]|[_ Hr]]; [unfold is_byte; lia|].
  apply lookup_singleton_Some in Hr as [_ <-]. unfold is_byte. lia.
Qed.

Lemma l1_preserves_runs_witness :
  let p := [I2 INS_OBJPOP 0; I2 INS_OBJPUSH 0; I2 INS_OBJPUSH 1; I2 INS_OBJPUSH 1] in
  let o := mkOS (mkIS (bstore ∅ 0 (encode_prog p)) ∅ 0 8 [] ∅) [] [] in
  ∃ t, vm_run p vm_demo = Ret t ∧
  ∃ o' n q t', is_l1_optimize 20 8 o = Ret (o', n) ∧ n ≤ 8 ∧
    decode_prog (length q) (bslice (code (ist o')) 0 (Z.to_nat n)) = Some q ∧
    vm_run q vm_demo = Ret t' ∧ veq t t'.
Proof.
  cbv zeta. set (p := [I2 INS_OBJPOP 0; I2 INS_OBJPUSH 0; I2 INS_OBJPUSH 1; I2 INS_OBJPUSH 1]).
  destruct (vm_run p vm_demo) as [t| |] eqn:E; [|vm_compute in E; discriminate..].
  exists t. split; [done|].
  refine (l1_preserves_runs p _ 20 vm_demo t _ _ _ _ _ _ _ _ _ vm_demo_ok E _).
  - by repeat (apply Forall_cons; split); try apply Forall_nil.
  - reflexivity.
  - apply region_bstore. by repeat (apply Forall_cons; split); try apply Forall_nil.
  - intros j Hj. exact (bget_bstore_out ∅ 0 (encode_prog p) j (or_intror Hj)).
  - apply buf_ok_bstore, buf_ok_empty.
  - by vm_compute.
  - reflexivity.
  - reflexivity.
  - vm_compute. lia.
  - vm_compute in E. injection E as <-. reflexivity.
Defined.

(** ** Calls *)

(** A call returns to the next instruction. [INS_CALL] jumps to operand
    plus program counter in 16 bits; whatever the callee does, when it reaches
    [INS_RET] with the frame pointer and the two frame words as the call left
    them, the machine is back at the address behind the call, in the caller's
    package, with the caller's frame pointer. *)
Theorem vm_call_return w s :
  0 ≤ bp s → bp s + 1 < VM_MAX_STACK_SIZE → 0 ≤ pc s →
  ∃ s1, vmd_call w s = Ret s1 ∧ pc s1 = u16 (w + pc s) ∧ base_address s1 = base_address s ∧
  bp s1 = bp s + 2 ∧
  ∀ s2, bp s2 = bp s1 → sget s2 (bp s) = sget s1 (bp s) →
        sget s2 (bp s + 1) = sget s1 (bp s + 1) →
  ∃ s3, vmd_ret s2 = Ret s3 ∧ pc s3 = u16 (pc s + 3) ∧ base_address s3 = base_address s ∧
        bp s3 = bp s ∧ sp s3 = sp s2.
Proof.
  intros Hb Hm Hpc. unfold vmd_call, vm_push_base.
  assert (H1 : u16 (bp s + 1) = bp s + 1 ∧ u16 (bp s + 2) = bp s + 2).
  { split; apply u16_id; unfold is_u16, VM_MAX_STACK_SIZE in *; lia. }
  destruct H1 as [H1 H2]. rewrite wr_stack_ok by lia. res_cbn. cbn [bp pc set_bp set_stacks].
  rewrite H1, wr_stack_ok by (cbn; lia). res_cbn. unfold vmd_jmp. eexists. split; [done|].
  cbn. replace (bp s + 1 + 1) with (bp s + 2) by lia. rewrite H2.
  split; [done|]. split; [done|]. split; [done|]. intros s2 Hbp2 Hc1 Hc2.
  unfold sget in Hc1, Hc2. cbn in Hc1, Hc2. rewrite lookup_insert_eq in Hc2.
  rewrite lookup_insert_ne, lookup_insert_eq in Hc1 by lia. fold (sget s2 (bp s)) in Hc1.
  fold (sget s2 (bp s + 1)) in Hc2. cbn in Hc1, Hc2.
  unfold vmd_ret, vm_pop_base. rewrite Hbp2. replace (bp s + 2 - 1) with (bp s + 1) by lia.
  cbn [bp set_bp]. rewrite H1, rd_stack_ok by lia. res_cbn.
  change (sget (set_bp (bp s + 1) s2) (bp s + 1)) with (sget s2 (bp s + 1)). rewrite Hc2. cbn iota.
  cbn [bp set_pc set_bp]. rewrite H1. replace (bp s + 1 - 1) with (bp s) by lia.
  assert (H0 : u16 (bp s) = bp s) by (apply u16_id; unfold is_u16, VM_MAX_STACK_SIZE in *; lia).
  rewrite H0, rd_stack_ok by lia. res_cbn. eexists. split; [done|]. cbn. rewrite H0.
  split; [|by split; [exact Hc1|]]. apply u16_id, u16_range.
Qed.

Lemma vm_call_return_witness :
  ∃ s1, vmd_call 40 vm_demo = Ret s1 ∧ pc s1 = 40 ∧ base_address s1 = CNull ∧ bp s1 = 4 ∧
  ∀ s2, bp s2 = bp s1 → sget s2 2 = sget s1 2 → sget s2 3 = sget s1 3 →
  ∃ s3, vmd_ret s2 = Ret s3 ∧ pc s3 = 3 ∧ base_address s3 = CNull ∧ bp s3 = 2 ∧ sp s3 = sp s2.
Proof. apply (vm_call_return 40 vm_demo); cbn; unfold VM_MAX_STACK_SIZE; lia. Defined.

(** ** The reference counter *)
Lemma objdup_spec s o r :
  vm_ok s → sget s (sp s + 1) = CObj o → sp s + 1 < VM_MAX_STACK_SIZE → refs s !! o = Some r →
  bp s + 1 < sp s →
  ∃ s', vm_step (I1 INS_OBJDUP) s = Ret s' ∧ vm_ok s' ∧ sp s' = sp s - 1 ∧ bp s' = bp s ∧
        sget s' (sp s) = CObj o ∧ (∀ j, j ≠ sp s → sget s' j = sget s j) ∧
        refs s' !! o = Some (u8 (r + 1)).
Proof.
  intros [Hs Hm Hrun] Ht Hlt Hr Hb. unfold vm_step, vmd_objdup, vm_push_stack_arc, vm_push_stack.
  change (INS_OBJDUP =? INS_OBJDUP) with true. cbn iota.
  rewrite rd_stack_ok, Ht by lia. res_cbn. rewrite wr_stack_ok by lia. res_cbn. cbn [add_ref refs set_sp set_stacks].
  rewrite Hr. res_cbn.
  assert (Hu : u16 (sp s - 1) = sp s - 1).
  { apply u16_id. unfold is_u16, VM_MAX_STACK_SIZE in *. lia. }
  unfold vmd_check. cbn. rewrite Hu, (proj2 (Z.leb_gt _ _)) by lia. eexists. split; [done|].
  cbn. rewrite ?Hu. split.
  { constructor; cbn; rewrite ?Hu; [lia| |done]. apply map_Forall_insert_2; [apply u8_range|done]. }
  split; [done|]. split; [done|]. split; [|split].
  - unfold sget. cbn. by rewrite lookup_insert_eq.
  - intros j Hj. unfold sget. cbn. by rewrite lookup_insert_ne.
  - by rewrite lookup_insert_eq.
Qed.

Lemma dup_run n s o r :
  vm_ok s → sget s (sp s + 1) = CObj o → sp s + 1 < VM_MAX_STACK_SIZE → refs s !! o = Some r →
  bp s + Z.of_nat n < sp s →
  ∃ t, vm_run (replicate n (I1 INS_OBJDUP)) s = Ret t ∧ sp t = sp s - Z.of_nat n ∧
       (∀ j, sp t < j ≤ sp s → sget t j = CObj o) ∧ (∀ j, sp s < j → sget t j = sget s j) ∧
       refs t !! o = Some (u8 (r + Z.of_nat n)).
Proof.
  revert s r. induction n as [|n IH]; intros s r Hok Ht Hlt Hr Hb.
  { exists s. rewrite Z.sub_0_r, Z.add_0_r. split; [done|]. split; [done|]. split; [lia|].
    split; [done|]. rewrite u8_id; [done|]. by apply (ok_refs _ Hok o). }
  destruct (objdup_spec s o r Hok Ht Hlt Hr ltac:(lia))
    as (s1 & H1 & Hok1 & Hsp & Hbp & Htop & Hother & Hr1).
  destruct (IH s1 (u8 (r + 1)) Hok1) as (t & Hrun & Hspt & Hc & Ho & Hrt); try lia; try done.
  { by replace (sp s1 + 1) with (sp s) by lia. }
  exists t. cbn [replicate vm_run]. rewrite (ok_run _ Hok).
  change (VM_STATE_RUN =? VM_STATE_RUN) with true. cbn iota. rewrite H1. res_cbn.
  split; [done|]. split; [lia|]. split; [|split].
  - intros j Hj. destruct (decide (j = sp s)) as [->|Hne]; [|apply Hc; lia].
    rewrite Ho by lia. done.
  - intros j Hj. rewrite Ho by lia. apply Hother. lia.
  - rewrite Hrt, u8_add_l. do 2 f_equal. lia.
Qed.

(** Duplication counts references, in eight bits. [n] duplications of the
    object on top of the stack leave [n] more cells with it, touch no other
    cell above, and raise [mgc_refcount] by [n] modulo 256. *)
Theorem vm_dup_count n s o r :
  vm_ok s → sget s (sp s + 1) = CObj o → sp s + 1 < VM_MAX_STACK_SIZE → refs s !! o = Some r →
  bp s + Z.of_nat n < sp s →
  ∃ t, vm_run (replicate n (I1 INS_OBJDUP)) s = Ret t ∧ sp t = sp s - Z.of_nat n ∧
       (∀ j, sp t < j ≤ sp s → sget t j = CObj o) ∧ (∀ j, sp s < j → sget t j = sget s j) ∧
       refs t !! o = Some (u8 (r + Z.of_nat n)).
Proof. apply dup_run. Qed.

Lemma vm_dup_count_witness :
  ∃ t, vm_run (replicate 3 (I1 INS_OBJDUP)) vm_demo = Ret t ∧ sp t = 1995 ∧
       (∀ j, sp t < j ≤ 1998 → sget t j = CObj 2) ∧
       (∀ j, 1998 < j → sget t j = sget vm_demo j) ∧ refs t !! 2%nat = Some 0x84.
Proof.
  apply (vm_dup_count 3 vm_demo 2 0x81 vm_demo_ok); try reflexivity; cbn;
    unfold VM_MAX_STACK_SIZE; lia.
Defined.

Definition VM_MAGIC_MASK : Z := 0xF0.
Definition VM_MAGIC : Z := 0x80.

(** The counter runs into the type tag. vm_stack.h keeps the magic number
    in the high four bits of [mgc_refcount] and the counter in the low four,
    but the handlers only ever add one: fifteen more references to an object
    with one reference turn its magic 0x80 into 0x90, which names no kind of
    object, without an exception. *)
Theorem vm_refcount_overflows_magic :
  ∃ t r, vm_run (replicate 15 (I1 INS_OBJDUP)) vm_demo = Ret t ∧ vm_state t = VM_STATE_RUN ∧
         refs t !! 2%nat = Some r ∧ Z.land 0x81 VM_MAGIC_MASK = VM_MAGIC ∧
         Z.land r VM_MAGIC_MASK ≠ VM_MAGIC.
Proof. do 2 eexists. split; [vm_compute; reflexivity|]. by vm_compute. Qed.
