(* ===== verification/Driver.v ===== *)
(** * Optimising and linking (StackLib/Stack/il_streamer.c,
      [is_link_optimize])

    The entry point of the compiler's back end: the optimisers selected by
    [mode], one after the other, then the linker. The record lists of the two
    optimisers are static variables that outlive a call. *)
From S2P Require Import Prelude Isa Streamer Linker L1 L2.

Definition IS_OPTIMIZE_L1 : Z := 1.
Definition IS_OPTIMIZE_L2 : Z := 2.

Record backend := mkBE {
  be_is : istream;
  be_l1 : list optrec * list coderec;
  be_l2 : list optrec * list coderec
}.

Definition run_mode_l1 (fuel : nat) (b : backend) : res backend :=
  let s := be_is b in
  r ← is_l1_optimize fuel (code_size s) (mkOS s (be_l1 b).1 (be_l1 b).2);
  Ret (mkBE (set_code_size r.2 (ist r.1)) (opts r.1, cdrs r.1) (be_l2 b)).

Definition run_mode_l2 (fuel : nat) (b : backend) : res backend :=
  let s := be_is b in
  r ← is_l2_optimize fuel (be_l1 b).2 (code_size s) (mkOS s (be_l2 b).1 (be_l2 b).2);
  Ret (mkBE (set_code_size r.2 (ist r.1)) (be_l1 b) (opts r.1, cdrs r.1)).

Definition is_link_optimize (fuel : nat) (mode : Z) (b : backend) : res (backend * Z) :=
  b1 ← (if Z.land mode IS_OPTIMIZE_L1 =? 0 then Ret b else run_mode_l1 fuel b);
  b2 ← (if Z.land mode IS_OPTIMIZE_L2 =? 0 then Ret b1 else run_mode_l2 fuel b1);
  r ← is_link_code (code_size (be_is b2)) (be_is b2);
  Ret (mkBE (set_code_size r.2 r.1) (be_l1 b2) (be_l2 b2), r.2).

Lemma straight_no_switch p : straight_prog p → no_switch p.
Proof.
  intros H. eapply Forall_impl; [exact H|]. intros i [_ Hs] Hc. unfold straight in Hs.
  by rewrite Hc in Hs.
Qed.

(** The image that linking leaves for a straight-line program. *)
Lemma link_image p s :
  straight_prog p → region (code s) 0 (encode_prog p) → istream_wf s →
  psize p + cpindex s ≤ MAX_BUFFER_SIZE →
  ∃ s', is_link_code (psize p) s = Ret (s', psize p + cpindex s) ∧
        decode_prog (length p) (bslice (code s') 0 (Z.to_nat (psize p))) =
          Some (reloc_prog (psize p) 0 p) ∧
        bslice (code s') (psize p) (Z.to_nat (cpindex s)) =
          bslice (data s) 0 (Z.to_nat (cpindex s)).
Proof.
  intros Hp Hr Hwf Hm.
  destruct (link_spec p s (data s)) as (s' & Hl & Hr1 & Hr2 & _); try done.
  { by apply straight_wf. }
  { by apply reloc_pool_no_switch, straight_no_switch. }
  exists s'. split; [done|]. split.
  - replace (Z.to_nat (psize p)) with (length (encode_prog (reloc_prog (psize p) 0 p)))
      by (pose proof (reloc_prog_psize (psize p) 0 p); unfold psize in *; lia).
    rewrite region_to_bslice by done.
    apply decode_prog_encode; [by apply reloc_prog_wf, straight_wf|].
    clear. generalize (psize p) 0. induction p as [|i p IH]; cbn; intros; [lia|].
    specialize (IH z (z0 + isize i)). lia.
  - rewrite <- (region_to_bslice _ _ _ Hr2) at 1. by rewrite length_bslice.
Qed.

(** C5: the whole back end at level 1. For straight-line code the image
    [is_link_optimize] leaves is the relocation of the peephole-optimised
    program, whose constants still point at the pool, which follows the
    shortened code unchanged; the returned size is code plus pool. *)
Theorem link_optimize_l1 fuel prog b :
  let s := be_is b in
  straight_prog prog → code_size s = psize prog → region (code s) 0 (encode_prog prog) →
  (∀ j, psize prog ≤ j → bget (code s) j = 0) → istream_wf s → lbls s = [] →
  (be_l1 b).1 = [] → psize prog + 3 < MAX_BUFFER_SIZE →
  psize prog + cpindex s ≤ MAX_BUFFER_SIZE → (length prog < fuel)%nat →
  let q := peep prog in
  ∃ b', is_link_optimize fuel IS_OPTIMIZE_L1 b = Ret (b', psize q + cpindex s) ∧
        decode_prog (length q) (bslice (code (be_is b')) 0 (Z.to_nat (psize q))) =
          Some (reloc_prog (psize q) 0 q) ∧
        bslice (code (be_is b')) (psize q) (Z.to_nat (cpindex s)) =
          bslice (data s) 0 (Z.to_nat (cpindex s)).
Proof.
  intros s Hp Hcs Hr Hz Hwf Hl Ho Hm Hm2 Hf q.
  destruct (l1_optimize_spec prog (mkOS s (be_l1 b).1 (be_l1 b).2) fuel) as
    (o' & H1 & H2 & H3 & H4 & _ & _ & H5 & H6); try done; [by destruct Hwf|].
  fold q in H1, H2, H3, H5. cbn [ist] in H4.
  set (s1 := set_code_size (psize q) (ist o')).
  assert (Hcode : code s1 = code (ist o')) by done.
  assert (Hrq : region (code s1) 0 (encode_prog q)).
  { rewrite Hcode, <- H2. apply region_bslice. }
  assert (Hcp : cpindex s1 = cpindex s) by (unfold s1; rewrite H4; done).
  assert (Hda : data s1 = data s) by (unfold s1; rewrite H4; done).
  pose proof (psize_nonneg q).
  assert (Hwf1 : istream_wf s1).
  { destruct Hwf as [Hc Hd Hcpi]. constructor; rewrite ?Hcp, ?Hda; try done. }
  unfold is_link_optimize, run_mode_l1. change (Z.land IS_OPTIMIZE_L1 IS_OPTIMIZE_L1 =? 0) with false.
  change (Z.land IS_OPTIMIZE_L1 IS_OPTIMIZE_L2 =? 0) with true. cbn iota. fold s. rewrite Hcs, H1.
  res_cbn. cbn [be_is]. fold s1. change (code_size s1) with (psize q).
  destruct (link_image q s1) as (s' & Hl' & Hi & Hp2); try done.
  { by apply peep_straight. }
  { rewrite Hcp. lia. }
  rewrite Hl'. res_cbn. rewrite Hcp in *. eexists. split; [done|]. cbn [be_is].
  split; [exact Hi|]. rewrite <- Hda. exact Hp2.
Qed.

Lemma link_optimize_l1_witness :
  let p := [I3 INS_OBJCONST 0; I2 INS_OBJPOP 0; I2 INS_OBJPUSH 0; I1 INS_RET] in
  let s := mkIS (bstore ∅ 0 (encode_prog p)) (bstore ∅ 0 [2; 104; 105]) 3 8 [] ∅ in
  ∃ b', is_link_optimize 20 IS_OPTIMIZE_L1 (mkBE s ([], []) ([], [])) = Ret (b', 6 + 3) ∧
        decode_prog 3 (bslice (code (be_is b')) 0 6) =
          Some [I3 INS_OBJCONST 6; I2 INS_OBJSTORE 0; I1 INS_RET] ∧
        bslice (code (be_is b')) 6 3 = [2; 104; 105].
Proof.
  cbv zeta. set (p := [I3 INS_OBJCONST 0; I2 INS_OBJPOP 0; I2 INS_OBJPUSH 0; I1 INS_RET]).
  refine (link_optimize_l1 20 p (mkBE (mkIS (bstore ∅ 0 (encode_prog p)) (bstore ∅ 0 [2; 104; 105])
    3 8 [] ∅) ([], []) ([], [])) _ _ _ _ _ _ _ _ _ _).
  - by repeat (apply Forall_cons; split); try apply Forall_nil.
  - reflexivity.
  - apply region_bstore. by repeat (apply Forall_cons; split); try apply Forall_nil.
  - intros j Hj. exact (bget_bstore_out ∅ 0 (encode_prog p) j (or_intror Hj)).
  - split; [apply buf_ok_bstore, buf_ok_empty..|done].
  - reflexivity.
  - reflexivity.
  - by vm_compute.
  - by vm_compute.
  - vm_compute. lia.
Defined.
