(* ===== verification/Heap.v ===== *)
(** * The object heap (StackLib/StackVM/midgard.c, midgard_apis.c)

    A first-fit allocator over one block of memory: a chain of headers in
    address order, each followed by its payload. The build modelled is the one
    of config.h: 64-bit [size] and [next], no [prev] ([sizeof(alloc_chain)] is
    16). *)
From S2P Require Import Prelude.

(** ** Memory

    The headers that are intact: a header written at an address destroys
    every other one it overlaps, and reading where no intact header lies, or a
    field never written, is undefined. [h_size] is [None] until written. *)
Definition HDR : Z := 16.

Record header := mkHdr { h_size : option Z; h_next : option Z }.

Abbreviation mem := (gmap Z header).

Definition clear_of (a b : Z) : bool := (b + HDR <=? a) || (a + HDR <=? b).

Definition put (a : Z) (h : header) (m : mem) : mem :=
  <[a := h]> (filter (λ p, clear_of a p.1 = true) m).

Definition get_hdr (a : Z) (m : mem) : res header := from_option_ub (m !! a).
Definition get_size (a : Z) (m : mem) : res Z := h ← get_hdr a m; from_option_ub (h_size h).

(** field assignments; [next] of fresh memory has no value, and is only ever
    assigned after or together with a first header *)
Definition put_size (a sz : Z) (m : mem) : mem :=
  put a (mkHdr (Some sz) (match m !! a with Some h => h_next h | None => None end)) m.
Definition put_next (a : Z) (nx : option Z) (m : mem) : mem :=
  put a (mkHdr (match m !! a with Some h => h_size h | None => None end) nx) m.

(** [heap_manager] *)
Record heap := mkHeap { root : Z; heap_size : Z; hm : mem }.

Definition set_hm (m : mem) (h : heap) : heap := mkHeap (root h) (heap_size h) m.

(** ** Operations *)

(** [m_heap_create]: [block] is what [malloc] returns, [hdr_size] is
    [sizeof(heap_manager)]. *)
Definition m_heap_create (block : option Z) (hdr_size size : Z) : option heap :=
  match block with
  | Some h => Some (mkHeap (h + hdr_size) size ∅)
  | None => None
  end.

Definition m_init_alloc (h : heap) : heap :=
  let first := root h + (HDR + HDR mod 4) in
  set_hm (put_next first None (put_next (root h) (Some first) (put_size (root h) 0 (hm h)))) h.

(** One turn of [while (TRUE)]: [alloc_ptr] is the state, the result the
    pointer ([None] for NULL) and the memory. A pointer past the end of the
    address space is undefined. *)
Definition m_alloc_step (h : heap) (size : Z) (alloc_ptr : Z) : res (Z + option Z * mem) :=
  let m := hm h in
  hd ← get_hdr alloc_ptr m;
  match h_next hd with
  | None =>
      guardb (alloc_ptr + size + (HDR + HDR) <? 2 ^ 64) ≫= λ _,
      if root h + heap_size h <=? alloc_ptr + size + (HDR + HDR) then Ret (inr (None, m))
      else
        let next := alloc_ptr + (HDR + size) in
        let m1 := put_next alloc_ptr (Some next) (put_size alloc_ptr size m) in
        let m2 := put_size next 0 (put_next next None m1) in
        Ret (inr (Some (alloc_ptr + HDR), m2))
  | Some next =>
      tsize ← from_option_ub (h_size hd);
      guardb (alloc_ptr + (tsize + (HDR + HDR)) + size <? 2 ^ 64) ≫= λ _,
      if alloc_ptr + (tsize + (HDR + HDR)) + size <=? next then
        let candidate := alloc_ptr + (tsize + HDR) in
        let m1 := put_size candidate size m in
        let m2 := put_next alloc_ptr (Some candidate) m1 in
        let m3 := put_next candidate (Some next) m2 in
        Ret (inr (Some (candidate + HDR), m3))
      else Ret (inl next)
  end.

Definition m_alloc (fuel : nat) (h : heap) (size : Z) : res (heap * option Z) :=
  r ← loop fuel (m_alloc_step h size) (root h);
  Ret (set_hm r.2 h, r.1).

(** [m_get_allocated_space]: [alloc_space] is a [uint32] *)
Definition m_allocated_step (m : mem) (st : Z * Z) : res (Z * Z + Z) :=
  hd ← get_hdr st.1 m;
  sz ← from_option_ub (h_size hd);
  match h_next hd with
  | None => Ret (inr (u64 (st.2 + (sz + HDR))))
  | Some next => Ret (inl (next, u64 (st.2 + sz)))
  end.

Definition m_get_allocated_space (fuel : nat) (h : heap) : res Z :=
  loop fuel (m_allocated_step (hm h)) (root h, 0).

(** One turn of the loop of [m_free]: [alloc_ptr] may be NULL. *)
Definition m_free_compact (alloc_ptr : Z) (m : mem) : res mem :=
  hd ← get_hdr alloc_ptr m;
  sz ← from_option_ub (h_size hd);
  match h_next hd with
  | Some next =>
      if sz =? 0 then
        nsize ← get_size next m;
        if nsize =? 0 then nh ← get_hdr next m; Ret (put_next alloc_ptr (h_next nh) m) else Ret m
      else Ret m
  | None => Ret m
  end.

Definition m_free_step (ptr : Z) (st : option Z * mem) : res (option Z * mem + mem) :=
  match st.1 with
  | None => Ret (inr st.2)
  | Some alloc_ptr =>
      m ← m_free_compact alloc_ptr st.2;
      hd ← get_hdr alloc_ptr m;
      match h_next hd with
      | Some temp =>
          if temp =? ptr - HDR then
            th ← get_hdr temp m;
            let m1 := put_next alloc_ptr (h_next th) m in
            match h_next th with
            | Some _ => Ret (inr (put_next temp None (put_size temp 0 m1)))
            | None =>
                sz ← get_size alloc_ptr m1;
                let temp2 := alloc_ptr + (sz + HDR) in
                let m2 := put_next alloc_ptr (Some temp2) m1 in
                Ret (inr (put_next temp2 None (put_size temp2 0 m2)))
            end
          else Ret (inl (Some temp, m))
      | None => if ptr - HDR =? 0 then Undef else Ret (inl (None, m))
      end
  end.

Definition m_free (fuel : nat) (h : heap) (ptr : Z) : res heap :=
  m ← loop fuel (m_free_step ptr) (Some (root h), hm h);
  Ret (set_hm m h).

Definition m_first_chunk (h : heap) : Z := root h + HDR.

Definition m_next_chunk (h : heap) (chunk : Z) : res (option Z) :=
  hd ← get_hdr (chunk - HDR) (hm h);
  next ← from_option_ub (h_next hd);
  sz ← get_size next (hm h);
  Ret (if sz =? 0 then None else Some (next + HDR)).

Definition m_size_chunk (h : heap) (chunk : Z) : res Z := get_size (chunk - HDR) (hm h).

(** [m_shift_next_chunk]: the [memcpy] moves header and payload of the next
    chunk down to the end of this one (as [memmove] would, should the two
    regions overlap). *)
Definition m_shift_next_chunk (h : heap) (chunk : option Z) : res (heap * option Z) :=
  match chunk with
  | None => Ret (h, None)
  | Some c =>
      let alloc_ptr := c - HDR in
      hd ← get_hdr alloc_ptr (hm h);
      sz ← from_option_ub (h_size hd);
      next_ptr ← from_option_ub (h_next hd);
      let dst := alloc_ptr + HDR + sz in
      let gap := next_ptr - dst in
      nh ← get_hdr next_ptr (hm h);
      nsz ← from_option_ub (h_size nh);
      let m := if 0 <? gap then put dst nh (put_next alloc_ptr (Some dst) (hm h)) else hm h in
      let np := if 0 <? gap then dst else next_ptr in
      Ret (set_hm m h, if nsz =? 0 then None else Some (np + HDR))
  end.

(** ** Memory lemmas *)
Lemma lookup_put_eq a h m : put a h m !! a = Some h.
Proof. unfold put. by rewrite lookup_insert_eq. Qed.

Lemma lookup_put_ne a h m b : b + HDR ≤ a ∨ a + HDR ≤ b → put a h m !! b = m !! b.
Proof.
  intros H. unfold put. rewrite lookup_insert_ne by (unfold HDR in *; lia).
  destruct (m !! b) as [x|] eqn:E.
  - apply map_lookup_filter_Some. split; [done|]. cbn. unfold clear_of.
    apply orb_true_iff. rewrite !Z.leb_le. lia.
  - apply map_lookup_filter_None. by left.
Qed.

Lemma put_size_eq a sz m nx s0 :
  m !! a = Some (mkHdr s0 nx) → put_size a sz m !! a = Some (mkHdr (Some sz) nx).
Proof. intros H. unfold put_size. by rewrite lookup_put_eq, H. Qed.

Lemma put_next_eq a nx m s0 n0 :
  m !! a = Some (mkHdr s0 n0) → put_next a nx m !! a = Some (mkHdr s0 nx).
Proof. intros H. unfold put_next. by rewrite lookup_put_eq, H. Qed.

Lemma put_size_ne a sz m b : b + HDR ≤ a ∨ a + HDR ≤ b → put_size a sz m !! b = m !! b.
Proof. apply lookup_put_ne. Qed.

Lemma put_next_ne a nx m b : b + HDR ≤ a ∨ a + HDR ≤ b → put_next a nx m !! b = m !! b.
Proof. apply lookup_put_ne. Qed.

(** reads through a sequence of field writes to disjoint headers *)
Ltac hdr := repeat first
  [ rewrite put_size_ne by (unfold HDR in *; lia)
  | rewrite put_next_ne by (unfold HDR in *; lia)
  | rewrite lookup_put_ne by (unfold HDR in *; lia) ].

(** ** The chain

    [chain m a l t]: from the header at [a], the blocks [l] (address and size)
    follow in address order, without overlap, up to the last header, at [t]. *)
Inductive chain (m : mem) : Z → list (Z * Z) → Z → Prop :=
  | chain_end t s : m !! t = Some (mkHdr s None) → chain m t [] t
  | chain_cons a sz b l t :
      m !! a = Some (mkHdr (Some sz) (Some b)) → 0 ≤ sz → a + HDR + sz ≤ b →
      chain m b l t → chain m a ((a, sz) :: l) t.

Lemma chain_frame m m' a l t :
  chain m a l t → (∀ x, a ≤ x → m' !! x = m !! x) → chain m' a l t.
Proof.
  induction 1 as [t s Ht|a sz b l t Ha Hsz Hb Hc IH]; intros Hf.
  - eapply chain_end. by rewrite Hf by lia.
  - eapply chain_cons; [by rewrite Hf by lia|done|done|]. apply IH.
    intros x Hx. apply Hf. unfold HDR in *. lia.
Qed.

Lemma chain_bounds m a l t :
  chain m a l t →
  a ≤ t ∧ Forall (λ b, a ≤ b.1 ∧ 0 ≤ b.2 ∧ b.1 + HDR + b.2 ≤ t) l.
Proof.
  induction 1 as [t s Ht|a sz b l t Ha Hsz Hb Hc [IH1 IH2]]; [split; [lia|by apply Forall_nil]|].
  unfold HDR in *. split; [lia|]. apply Forall_cons. split; [cbn; lia|].
  eapply Forall_impl; [exact IH2|]. cbn. lia.
Qed.

(** Two blocks of a chain do not overlap. *)
Definition disjoint_blocks (x y : Z * Z) : Prop :=
  x.1 + HDR + x.2 ≤ y.1 ∨ y.1 + HDR + y.2 ≤ x.1.

Lemma chain_disjoint m a l t :
  chain m a l t → StronglySorted (λ x y, x.1 + HDR + x.2 ≤ y.1) l.
Proof.
  induction 1 as [t s Ht|a sz b l t Ha Hsz Hb Hc IH]; [constructor|].
  constructor; [done|]. destruct (chain_bounds _ _ _ _ Hc) as [_ Hf].
  eapply Forall_impl; [exact Hf|]. cbn. lia.
Qed.

(** The state of a heap in use: the root, which has size 0 and is never
    handed out, then the allocated blocks [l], then the last header. *)
Record heap_inv (h : heap) (l : list (Z * Z)) (t : Z) : Prop := {
  hi_chain : chain (hm h) (root h) ((root h, 0) :: l) t;
  hi_end : t + HDR ≤ root h + heap_size h;
  hi_low : 0 < root h;
  hi_high : root h + heap_size h < 2 ^ 63
}.

(** Initialisation gives an empty heap. *)
Theorem m_init_alloc_inv h :
  0 < root h → 2 * HDR ≤ heap_size h → root h + heap_size h < 2 ^ 63 →
  heap_inv (m_init_alloc h) [] (root h + HDR).
Proof.
  intros H0 Hs Hm. unfold m_init_alloc. change (HDR + HDR mod 4) with HDR. constructor; cbn; [|unfold HDR in *; lia..].
  econstructor; [|lia|reflexivity|]; [|rewrite Z.add_0_r; eapply chain_end].
  - hdr. erewrite put_next_eq; [by rewrite Z.add_0_r|]. unfold put_size. apply lookup_put_eq.
  - unfold put_next. apply lookup_put_eq.
Qed.

Lemma m_init_alloc_inv_witness :
  heap_inv (m_init_alloc (mkHeap 16 64 ∅)) [] (16 + HDR).
Proof. apply (m_init_alloc_inv (mkHeap 16 64 ∅)); cbn; unfold HDR; lia. Defined.

(** ** Allocation *)
Section alloc.
Context (h : heap) (n : Z) (Hn : 0 ≤ n) (Hn62 : n < 2 ^ 62).
Let limit : Z := root h + heap_size h.
Context (Hlim : limit < 2 ^ 63).

(** What one successful allocation did to a chain. *)
Definition alloc_done (a : Z) (l : list (Z * Z)) (t : Z) (r : option Z) (m' : mem) : Prop :=
  (r = None ∧ m' = hm h ∧ limit ≤ t + n + (HDR + HDR)) ∨
  ∃ l1 l2 p t', r = Some (p + HDR) ∧ l = l1 ++ l2 ∧ (l ≠ [] → l1 ≠ []) ∧
    chain m' a (l1 ++ (p, n) :: l2) t' ∧ (∀ x, x + HDR ≤ a → m' !! x = hm h !! x) ∧
    (l ≠ [] → m' !! a = hm h !! a ∨ ∃ sz nx, hm h !! a = Some (mkHdr (Some sz) nx) ∧
                                    ∃ nx', m' !! a = Some (mkHdr (Some sz) nx')) ∧
    t ≤ t' ∧ (t' = t ∨ t' + HDR < limit) ∧ a ≤ p.

Lemma alloc_at_end t s :
  hm h !! t = Some (mkHdr s None) → 0 ≤ t < limit →
  ∃ r m', m_alloc_step h n t = Ret (inr (r, m')) ∧ alloc_done t [] t r m'.
Proof using Hn Hn62 Hlim.
  intros Ht Hb. unfold m_alloc_step, get_hdr. rewrite Ht. res_cbn. cbn [h_next h_size].
  rewrite (proj2 (Z.ltb_lt _ _)) by (unfold HDR in *; lia). res_cbn.
  change (root h + heap_size h) with limit.
  destruct (Z.leb_spec limit (t + n + (HDR + HDR))) as [Hle|Hlt].
  - eexists _, _. split; [done|]. left. done.
  - eexists _, _. split; [done|]. right. exists [], [], t, (t + (HDR + n)).
    split; [done|]. split; [done|]. split; [done|]. split; [|split; [|split; [done|unfold HDR in *; lia]]].
    + econstructor; [| done | |].
      * hdr. apply put_next_eq with (n0 := None). by eapply put_size_eq.
      * lia.
      * eapply chain_end. eapply put_size_eq. unfold put_next at 1. apply lookup_put_eq.
    + intros x Hx. by hdr.
Qed.

Lemma alloc_in_gap a sz b l t :
  hm h !! a = Some (mkHdr (Some sz) (Some b)) → 0 ≤ sz → chain (hm h) b l t →
  0 ≤ a → a + (sz + (HDR + HDR)) + n ≤ b → t < limit →
  ∃ r m', m_alloc_step h n a = Ret (inr (r, m')) ∧ alloc_done a ((a, sz) :: l) t r m'.
Proof using Hn Hn62 Hlim.
  intros Ha Hsz Hc H0 Hgap Ht. destruct (chain_bounds _ _ _ _ Hc) as [Hbt _].
  unfold m_alloc_step, get_hdr. rewrite Ha. res_cbn. cbn [h_next h_size]. res_cbn.
  rewrite (proj2 (Z.ltb_lt _ _)) by (unfold HDR in *; lia). res_cbn.
  rewrite (proj2 (Z.leb_le _ _)) by lia. eexists _, _. split; [done|].
  right. exists [(a, sz)], l, (a + (sz + HDR)), t.
  assert (Ha' : put_size (a + (sz + HDR)) n (hm h) !! a = Some (mkHdr (Some sz) (Some b))) by (by hdr).
  split; [done|]. split; [done|]. split; [done|]. split; [|split; [|split]].
  - econstructor; [|done| |econstructor; [|done| |]].
    + hdr. by eapply put_next_eq.
    + lia.
    + unfold put_next at 1. hdr. rewrite lookup_put_eq. hdr. unfold put_size at 1.
      rewrite lookup_put_eq. done.
    + lia.
    + eapply chain_frame; [exact Hc|]. intros x Hx. by hdr.
  - intros x Hx. by hdr.
  - intros _. right. exists sz, (Some b). split; [done|]. exists (Some (a + (sz + HDR))).
    hdr. by eapply put_next_eq.
  - unfold HDR in *. lia.
Qed.

Lemma alloc_chain a l t :
  chain (hm h) a l t → 0 ≤ a → t < limit →
  ∃ k a' r m', iters (m_alloc_step h n) k a a' ∧ m_alloc_step h n a' = Ret (inr (r, m')) ∧
    (k ≤ length l)%nat ∧ alloc_done a l t r m'.
Proof using Hn Hn62 Hlim.
  intros Hc. induction Hc as [t s Ht|a sz b l t Ha Hsz Hb Hc IH]; intros H0 Hlt.
  { destruct (alloc_at_end t s Ht) as (r & m' & Hs & Hd); [lia|].
    exists 0%nat, t, r, m'. split; [constructor|]. split; [done|]. split; [cbn; lia|done]. }
  destruct (decide (a + (sz + (HDR + HDR)) + n ≤ b)) as [Hfit|Hfit].
  { destruct (alloc_in_gap a sz b l t) as (r & m' & Hs & Hd); try done.
    exists 0%nat, a, r, m'. split; [constructor|]. split; [done|]. split; [cbn; lia|done]. }
  destruct (chain_bounds _ _ _ _ Hc) as [Hbt _].
  destruct IH as (k & a' & r & m' & Hit & Hs & Hk & Hd); [unfold HDR in *; lia|done|].
  exists (S k), a', r, m'. split; [|split; [done|split; [cbn; lia|]]].
  { econstructor; [|exact Hit]. unfold m_alloc_step, get_hdr. rewrite Ha. res_cbn.
    cbn [h_next h_size]. res_cbn. rewrite (proj2 (Z.ltb_lt _ _)) by (unfold HDR in *; lia). res_cbn.
    by rewrite (proj2 (Z.leb_gt _ _)) by lia. }
  destruct Hd as [Hd|(l1 & l2 & p & t' & -> & -> & Hne & Hc' & Hf & _ & Htt & Ht' & Hp)]; [by left|].
  right. exists ((a, sz) :: l1), l2, p, t'. split; [done|]. split; [done|]. split; [done|].
  assert (Ha' : m' !! a = hm h !! a) by (apply Hf; unfold HDR in *; lia).
  split; [|split; [|split; [by left|]]].
  - cbn [app]. econstructor; [by rewrite Ha'|done|done|done].
  - intros x Hx. apply Hf. unfold HDR in *. lia.
  - unfold HDR in *. lia.
Qed.
End alloc.

(** C28: allocation. On a heap in use, with fuel for one pass over the blocks,
    [m_alloc] returns. Either it returns NULL, the heap is unchanged and the
    block did not fit behind the last one; or it returns a block of the size
    asked for, inserted in the chain in address order, inside the heap and
    behind the root; every other block keeps its place and size, so no two
    blocks of the new heap overlap. *)
Theorem m_alloc_spec fuel h l t n :
  heap_inv h l t → 0 ≤ n → n < 2 ^ 62 → (S (length l) < fuel)%nat →
  ∃ h' r, m_alloc fuel h n = Ret (h', r) ∧
    match r with
    | None => h' = h ∧ root h + heap_size h ≤ t + n + 2 * HDR
    | Some ptr =>
        ∃ l1 l2 t', l = l1 ++ l2 ∧ heap_inv h' (l1 ++ (ptr - HDR, n) :: l2) t' ∧
          root h + 2 * HDR ≤ ptr ∧ ptr + n ≤ root h + heap_size h ∧
          Forall (disjoint_blocks (ptr - HDR, n)) l
    end.
Proof.
  intros [Hc He H0 Hm] Hn Hn62 Hf.
  destruct (alloc_chain h n Hn Hn62 Hm (root h) _ t Hc) as (k & a' & r & m' & Hit & Hs & Hk & Hd);
    [lia|unfold HDR in *; lia|].
  unfold m_alloc. rewrite (loop_exit _ _ fuel _ _ (r, m') Hit); [|done|cbn in Hk; lia].
  res_cbn. eexists _, _. split; [done|].
  destruct Hd as [(-> & -> & Hle)|(l1 & l2 & p & t' & -> & Hl & Hne & Hc' & _ & _ & Htt & Ht' & Hp)].
  { split; [by destruct h|unfold HDR in *; lia]. }
  specialize (Hne ltac:(done)). destruct l1 as [|x l1]; [done|]. simplify_eq/=.
  replace (p + HDR - HDR) with p by lia.
  assert (Hinv : heap_inv (set_hm m' h) (l1 ++ (p, n) :: l2) t').
  { constructor; cbn; try done. lia. }
  destruct (chain_bounds _ _ _ _ Hc') as [_ Hb]. apply Forall_cons in Hb as [_ Hb].
  apply Forall_app in Hb as [_ Hb]. apply Forall_cons in Hb as [Hbp _]. cbn in Hbp.
  pose proof (chain_disjoint _ _ _ _ Hc') as Hsort.
  inversion Hsort as [|? ? Hsort1 Hroot]; subst. apply Forall_app in Hroot as [_ Hroot].
  apply Forall_cons in Hroot as [Hroot _]. cbn in Hroot.
  exists l1, l2, t'. split; [done|]. split; [done|]. split; [unfold HDR in *; lia|].
  split; [unfold HDR in *; lia|].
  clear -Hsort1. induction l1 as [|y l1 IH]; cbn in *.
  - inversion Hsort1 as [|? ? _ Hall]; subst. eapply Forall_impl; [exact Hall|]. intros z Hz. by left.
  - inversion Hsort1 as [|? ? Hs Hall]; subst. apply Forall_cons. split; [|by apply IH].
    apply Forall_app in Hall as [_ Hall]. apply Forall_cons in Hall as [Hy _]. by right.
Qed.

(** Allocation of 8 bytes in a heap with one block of 4. *)
Definition sample_heap : heap :=
  mkHeap 16 256 (put_next 52 None (put_size 52 0 (put_next 32 (Some 52) (put_size 32 4
    (put_next 16 (Some 32) (put_size 16 0 ∅)))))).

Lemma sample_heap_inv : heap_inv sample_heap [(32, 4)] 52.
Proof.
  constructor; [|cbn; unfold HDR; lia..].
  econstructor; [by vm_compute|done|by vm_compute|]. econstructor; [by vm_compute|done|by vm_compute|].
  eapply chain_end. by vm_compute.
Defined.

Lemma m_alloc_spec_witness :
  ∃ h' r, m_alloc 3 sample_heap 8 = Ret (h', r) ∧
    match r with
    | None => h' = sample_heap ∧ root sample_heap + heap_size sample_heap ≤ 52 + 8 + 2 * HDR
    | Some ptr =>
        ∃ l1 l2 t', [(32, 4)] = l1 ++ l2 ∧ heap_inv h' (l1 ++ (ptr - HDR, 8) :: l2) t' ∧
          root sample_heap + 2 * HDR ≤ ptr ∧ ptr + 8 ≤ root sample_heap + heap_size sample_heap ∧
          Forall (disjoint_blocks (ptr - HDR, 8)) [(32, 4)]
    end.
Proof. apply (m_alloc_spec 3 sample_heap [(32, 4)] 52 8 sample_heap_inv); cbn; lia. Defined.

(** ** Release *)

(** A chain can be changed from one of its blocks on. *)
Lemma chain_from m r l1 a sz l t :
  chain m r (l1 ++ (a, sz) :: l) t →
  chain m a ((a, sz) :: l) t ∧
  ∀ m' l' t', chain m' a ((a, sz) :: l') t' → (∀ x, x + HDR ≤ a → m' !! x = m !! x) →
    chain m' r (l1 ++ (a, sz) :: l') t'.
Proof.
  revert r. induction l1 as [|[b s] l1 IH]; intros r H; cbn in *.
  - inversion H; subst. split; [done|]. by intros.
  - inversion H as [|? ? c ? ? Hb Hs Hle Hc]; subst. destruct (IH _ Hc) as [H1 H2].
    split; [done|]. intros m' l' t' Hc' Hf.
    assert (Hba : c ≤ a).
    { destruct (chain_bounds _ _ _ _ Hc) as [_ Hall]. apply Forall_app in Hall as [_ Hall].
      by apply Forall_cons in Hall as [[? _] _]. }
    eapply chain_cons; [rewrite Hf by (unfold HDR in *; lia); exact Hb|done|done|]. by apply H2.
Qed.

(** No block of the chain is compacted away. *)
Lemma free_no_compact m a sz b n nb :
  m !! a = Some (mkHdr (Some sz) (Some b)) → m !! b = Some (mkHdr (Some n) nb) → 0 < n →
  m_free_compact a m = Ret m.
Proof.
  intros Ha Hb Hn. unfold m_free_compact, get_size, get_hdr. rewrite Ha. res_cbn. cbn [h_next h_size].
  res_cbn. destruct (sz =? 0); [|done]. rewrite Hb. res_cbn. cbn [h_size]. res_cbn.
  by rewrite (proj2 (Z.eqb_neq _ _)) by lia.
Qed.

Lemma free_walk m ptr p n l2 t l1 a sz :
  chain m a ((a, sz) :: l1 ++ (p, n) :: l2) t → ptr = p + HDR →
  Forall (λ b, 0 < b.2) (l1 ++ (p, n) :: l2) →
  ∃ k l0 a' sz', iters (m_free_step ptr) k (Some a, m) (Some a', m) ∧ (k ≤ length l1)%nat ∧
    (a, sz) :: l1 = l0 ++ [(a', sz')] ∧
    m !! a' = Some (mkHdr (Some sz') (Some p)).
Proof.
  intros Hc ->. revert a sz Hc. induction l1 as [|[b s] l1 IH]; intros a sz Hc Hpos; cbn in *.
  - inversion Hc as [|? ? b ? ? Ha Hs Hle Hc']; subst. inversion Hc'; subst.
    exists 0%nat, [], a, sz. split; [constructor|]. done.
  - inversion Hc as [|? ? b' ? ? Ha Hs Hle Hc']; subst.
    pose proof Hc' as Hc2. inversion Hc' as [|? ? c ? ? Hb Hsb Hleb Hc'']; subst.
    apply Forall_cons in Hpos as [Hsp Hpos]. cbn in Hsp.
    destruct (IH b s Hc2 Hpos) as (k & l0 & a' & sz' & Hit & Hk & Hl & Ha').
    exists (S k), ((a, sz) :: l0), a', sz'. split; [|split; [lia|split; [by rewrite Hl|done]]].
    econstructor; [|exact Hit]. unfold m_free_step. cbn [fst snd].
    rewrite (free_no_compact m a sz b s (Some c)) by done. res_cbn.
    unfold get_hdr. rewrite Ha. res_cbn. cbn [h_next].
    destruct (Z.eqb_spec b (p + HDR - HDR)) as [E|_]; [|done]. exfalso.
    assert (b < p); [|lia].
    destruct (chain_bounds _ _ _ _ Hc'') as [_ Hall]. apply Forall_app in Hall as [_ Hall].
    apply Forall_cons in Hall as [Hall _]. cbn in Hall. unfold HDR in *. lia.
Qed.

(** the chain without a block, and every header behind the block *)
Lemma m_free_chain fuel h l1 p n l2 t :
  heap_inv h (l1 ++ (p, n) :: l2) t → Forall (λ b, 0 < b.2) (l1 ++ (p, n) :: l2) →
  (S (length l1) < fuel)%nat →
  ∃ h', m_free fuel h (p + HDR) = Ret h' ∧ heap_inv h' (l1 ++ l2) t ∧ root h' = root h ∧
    (∀ x, p + HDR ≤ x → hm h' !! x = hm h !! x).
Proof.
  intros [Hc He H0 Hm] Hpos Hf.
  destruct (free_walk _ (p + HDR) p n l2 t l1 _ _ Hc eq_refl Hpos)
    as (k & l0 & a & sz & Hit & Hk & Hl & Ha).
  rewrite app_comm_cons, Hl, <-app_assoc in Hc. cbn in Hc.
  destruct (chain_from _ _ _ _ _ _ _ Hc) as [Hca Hre].
  inversion Hca as [|? ? p' ? ? Ha2 Hs Hle Hcp]; subst.
  inversion Hcp as [|? ? b ? ? Hp Hsn Hlep Hcb]; subst.
  apply Forall_app in Hpos as [_ Hpos]. apply Forall_cons in Hpos as [Hn _]. cbn in Hn.
  unfold m_free. erewrite (loop_exit _ _ fuel _ _ _ Hit); [|unfold m_free_step; cbn [fst snd]|lia].
  2:{ rewrite (free_no_compact _ a sz p n (Some b)) by done. res_cbn. unfold get_hdr. rewrite Ha. res_cbn.
      cbn [h_next]. rewrite (proj2 (Z.eqb_eq _ _)) by lia. rewrite Hp. res_cbn.
      cbn [h_next]. reflexivity. }
  res_cbn. eexists. split; [done|]. split; [constructor; cbn; [|done..]|split; [done|]].
  - rewrite app_comm_cons, Hl, <-app_assoc. cbn. apply Hre.
    + econstructor; [|done| |eapply chain_frame; [exact Hcb|]].
      * hdr. by eapply put_next_eq.
      * unfold HDR in *. lia.
      * intros x Hx. by hdr.
    + intros x Hx. by hdr.
  - cbn [hm set_hm]. intros x Hx. by hdr.
Qed.

(** Release. Freeing a block of a heap in use whose blocks are not empty
    takes that block, and no other, out of the chain: the heap stays well
    formed, with the end where it was. *)
Theorem m_free_spec fuel h l1 p n l2 t :
  heap_inv h (l1 ++ (p, n) :: l2) t → Forall (λ b, 0 < b.2) (l1 ++ (p, n) :: l2) →
  (S (length l1) < fuel)%nat →
  ∃ h', m_free fuel h (p + HDR) = Ret h' ∧ heap_inv h' (l1 ++ l2) t.
Proof.
  intros Hi Hpos Hf. destruct (m_free_chain fuel h l1 p n l2 t Hi Hpos Hf) as (h' & E & Hi' & _). by exists h'.
Qed.

Lemma m_free_spec_witness :
  ∃ h', m_free 3 sample_heap (32 + HDR) = Ret h' ∧ heap_inv h' ([] ++ []) 52.
Proof.
  apply (m_free_spec 3 sample_heap [] 32 4 [] 52 sample_heap_inv).
  - apply Forall_cons. split; [cbn; lia|by apply Forall_nil].
  - cbn. lia.
Defined.

(** A heap that has been used and emptied. *)
Definition emptied (base size : Z) : heap :=
  mkHeap base size (put_next (base + HDR) None (put_size (base + HDR) 0
    (put_next base (Some (base + HDR)) (put_size base 0 ∅)))).

(** Allocate a block, release it, and ask for the allocated space. *)
Definition alloc_free (h : heap) (n : Z) : res (Z * Z) :=
  a ← m_alloc 5 h n;
  ptr ← from_option_ub a.2;
  h' ← m_free 5 a.1 ptr;
  s ← m_get_allocated_space 5 h';
  Ret (ptr, s).

(** A second release in an emptied heap. Allocating and releasing in an
    emptied heap leaves it empty. But releasing any other address first (a
    double release, a stale pointer) drops the last header: the next block
    handed out is the root's own payload, and its release does nothing, so its
    space stays taken. *)
Theorem m_free_empty_loses_root :
  alloc_free (emptied 16 256) 8 = Ret (32 + HDR, HDR) ∧
  (h ← m_free 5 (emptied 16 256) (32 + HDR); alloc_free h 8) = Ret (16 + HDR, 8 + HDR).
Proof. split; by vm_compute. Qed.

(** ** Walking and compacting *)
Definition total (l : list (Z * Z)) : Z := foldr (λ b s, b.2 + s) 0 l.

Lemma allocated_walk m a l t acc s :
  chain m a l t → m !! t = Some (mkHdr (Some s) None) →
  ∀ fuel, (length l < fuel)%nat →
  loop fuel (m_allocated_step m) (a, u64 acc) = Ret (u64 (acc + total l + s + HDR)).
Proof.
  intros Hc Ht. revert acc. induction Hc as [t s' _|a sz b l t Ha _ _ Hc IH]; intros acc [|fuel] Hf;
    try (cbn in Hf; lia).
  - apply loop_inr. unfold m_allocated_step, get_hdr. cbn [fst snd]. rewrite Ht. res_cbn.
    cbn [h_next h_size]. res_cbn. do 2 f_equal. unfold u64, HDR. cbn [total foldr].
    rewrite Zplus_mod_idemp_l. f_equal. lia.
  - erewrite loop_inl; [rewrite IH with (acc := acc + sz); [|done|cbn in Hf; lia]|].
    + cbn [total foldr snd]. unfold total. do 2 f_equal. lia.
    + unfold m_allocated_step, get_hdr. cbn [fst snd]. rewrite Ha. res_cbn. cbn [h_next h_size]. res_cbn.
      do 3 f_equal. unfold u64. by rewrite Zplus_mod_idemp_l.
Qed.

(** The statistics. On a heap in use that has been allocated from, the
    allocated space reported is the sum of the sizes of the blocks and of one
    header. *)
Theorem m_get_allocated_space_spec fuel h l t :
  heap_inv h l t → hm h !! t = Some (mkHdr (Some 0) None) → (S (length l) < fuel)%nat →
  m_get_allocated_space fuel h = Ret (total l + HDR).
Proof.
  intros [Hc He H0 Hm] Ht Hf. unfold m_get_allocated_space.
  rewrite (allocated_walk _ _ _ _ 0 0 Hc Ht) by (cbn; lia). cbn [total foldr snd]. fold (total l).
  rewrite u64_id; [f_equal; lia|].
  assert (Hle : ∀ m a l t, chain m a l t → 0 ≤ total l ∧ a + total l ≤ t).
  { clear. induction 1 as [t s _|a sz b l t _ Hsz Hb _ IH]; cbn; [lia|]. fold (total l).
    unfold HDR in *. lia. }
  apply Hle in Hc. cbn in Hc. fold (total l) in Hc. unfold HDR in *. lia.
Qed.

Lemma m_get_allocated_space_witness : m_get_allocated_space 3 sample_heap = Ret (total [(32, 4)] + HDR).
Proof. apply (m_get_allocated_space_spec 3 sample_heap [(32, 4)] 52 sample_heap_inv); [by vm_compute|cbn; lia]. Defined.

(** the chunk behind a header, the root's included, moves to its end *)
Lemma shift_chain h r l1 a sz b n l2 t :
  chain (hm h) r (l1 ++ (a, sz) :: (b, n) :: l2) t → 0 < n →
  ∃ h', m_shift_next_chunk h (Some (a + HDR)) = Ret (h', Some (a + HDR + sz + HDR)) ∧
    chain (hm h') r (l1 ++ (a, sz) :: (a + HDR + sz, n) :: l2) t ∧ root h' = root h ∧ heap_size h' = heap_size h ∧
    (∀ x, b + HDR ≤ x → hm h' !! x = hm h !! x).
Proof.
  intros Hc Hn. destruct (chain_from _ _ _ _ _ _ _ Hc) as [Hca Hre].
  inversion Hca as [|? ? ? ? ? Ha Hs Hle Hcb]; subst.
  inversion Hcb as [|? ? c ? ? Hb Hsn Hleb Hcc]; subst.
  unfold m_shift_next_chunk, get_hdr. replace (a + HDR - HDR) with a by lia. rewrite Ha.
  res_cbn. cbn [h_next h_size]. res_cbn. rewrite Hb. res_cbn. cbn [h_next h_size]. res_cbn.
  rewrite (proj2 (Z.eqb_neq _ _)) by lia.
  destruct (Z.ltb_spec 0 (b - (a + HDR + sz))) as [Hgap|Hgap].
  - eexists. split; [done|]. cbn [hm set_hm root heap_size]. split; [|split; [done|split; [done|]]].
    + apply Hre.
      * econstructor; [|done| |econstructor; [apply lookup_put_eq|done| |eapply chain_frame; [exact Hcc|]]].
        -- hdr. by eapply put_next_eq.
        -- lia.
        -- unfold HDR in *. lia.
        -- intros x Hx. by hdr.
      * intros x Hx. by hdr.
    + intros x Hx. by hdr.
  - replace b with (a + HDR + sz) in * by lia. by eexists.
Qed.

(** Compaction. Shifting the chunk behind a block moves it to the end of
    that block, closing the gap between them, and returns its new address;
    the other blocks stay where they are. *)
Theorem m_shift_next_chunk_spec h l1 a sz b n l2 t :
  heap_inv h (l1 ++ (a, sz) :: (b, n) :: l2) t → 0 < n →
  ∃ h', m_shift_next_chunk h (Some (a + HDR)) = Ret (h', Some (a + HDR + sz + HDR)) ∧
        heap_inv h' (l1 ++ (a, sz) :: (a + HDR + sz, n) :: l2) t.
Proof.
  intros [Hc He H0 Hm] Hn. destruct (shift_chain h (root h) ((root h, 0) :: l1) a sz b n l2 t Hc Hn)
    as (h' & E & Hc' & Er & Es & _).
  exists h'. split; [done|]. constructor; rewrite ?Er, ?Es; done.
Qed.

(** a heap with a gap of 8 bytes behind its first block *)
Definition gap_heap : heap :=
  mkHeap 16 256 (put_next 84 None (put_size 84 0 (put_next 60 (Some 84) (put_size 60 8
    (put_next 32 (Some 60) (put_size 32 4 (put_next 16 (Some 32) (put_size 16 0 ∅)))))))).

Lemma m_shift_next_chunk_witness :
  ∃ h', m_shift_next_chunk gap_heap (Some (32 + HDR)) = Ret (h', Some (32 + HDR + 4 + HDR)) ∧
        heap_inv h' ([] ++ (32, 4) :: (32 + HDR + 4, 8) :: []) 84.
Proof.
  apply (m_shift_next_chunk_spec gap_heap [] 32 4 60 8 [] 84); [|lia].
  constructor; [|cbn; unfold HDR; lia..].
  econstructor; [by vm_compute|done|by vm_compute|]. econstructor; [by vm_compute|done|by vm_compute|].
  econstructor; [by vm_compute|done|by vm_compute|]. eapply chain_end. by vm_compute.
Defined.
