(* ===== verification/Links.v ===== *)
(** * Singly linked records in a store

    The pages of a stream, the symbols of a table and the jumps of a label are
    C structures chained by a [next] pointer. This file holds what they share:
    a store of structures ([malloc], [free], dereference), the predicate
    [lseg] that relates a chain of pointers to the list of its structures, and
    the walks that the code makes along a chain. A structure is any type with
    an instance of [Node]. *)
From S2P Require Import Prelude.

(** What a linked structure offers: its [next] field. *)
Class Node (N : Type) := {
  nx : N → option Z;
  set_nx : option Z → N → N;
  nx_set_nx : ∀ p n, nx (set_nx p n) = p;
}.

(** ** The store

    [brk] is the next address that [malloc] returns; [malloc] does not fail. *)
Record store (N : Type) := mkStore { cells : gmap Z N; brk : Z }.
Arguments mkStore {N}.
Arguments cells {N}.
Arguments brk {N}.

Section store.
Context {N : Type} `{!Node N}.

Definition set_cells (m : gmap Z N) (s : store N) : store N := mkStore m (brk s).
Definition malloc (n : N) (s : store N) : Z * store N :=
  (brk s, mkStore (<[brk s := n]> (cells s)) (brk s + 1)).
Definition deref (s : store N) (a : Z) : res N := from_option_ub (cells s !! a).
Definition upd (a : Z) (f : N → N) (s : store N) : res (store N) :=
  n ← deref s a; Ret (set_cells (<[a := f n]> (cells s)) s).
Definition free (a : Z) (s : store N) : res (store N) :=
  _ ← deref s a; Ret (set_cells (delete a (cells s)) s).

(** one turn of [while (p->next != NULL) p = p->next;] *)
Definition last_step (s : store N) (a : Z) : res (Z + Z) :=
  n ← deref s a; Ret (match nx n with Some b => inl b | None => inr a end).

(** every structure lies below [brk] *)
Definition store_ok (s : store N) : Prop := ∀ a, is_Some (cells s !! a) → a < brk s.

Inductive lseg (s : store N) : option Z → list (Z * N) → option Z → Prop :=
  | lseg_nil p : lseg s p [] p
  | lseg_cons a n l q : cells s !! a = Some n → lseg s (nx n) l q → lseg s (Some a) ((a, n) :: l) q.

Lemma lseg_nil_inv s p q : lseg s p [] q → p = q.
Proof. by inversion 1. Qed.

Lemma deref_some s a n : cells s !! a = Some n → deref s a = Ret n.
Proof. unfold deref. by intros ->. Qed.

Lemma upd_some s a n f : cells s !! a = Some n → upd a f s = Ret (set_cells (<[a := f n]> (cells s)) s).
Proof. intros H. unfold upd. by rewrite (deref_some _ _ _ H). Qed.

Lemma free_some s a n : cells s !! a = Some n → free a s = Ret (set_cells (delete a (cells s)) s).
Proof. intros H. unfold free. by rewrite (deref_some _ _ _ H). Qed.

Lemma store_fresh s : store_ok s → cells s !! brk s = None.
Proof.
  intros H. destruct (cells s !! brk s) eqn:E; [|done].
  assert (brk s < brk s) by (apply H; eauto). lia.
Qed.

Lemma store_ok_empty : store_ok (mkStore ∅ 1).
Proof. intros a [n H]. cbn in H. by rewrite lookup_empty in H. Qed.

Lemma store_ok_malloc s n : store_ok s → store_ok (malloc n s).2.
Proof.
  intros H a [n' Ha]. cbn in *. apply lookup_insert_Some in Ha as [[<- _]|[_ Ha]]; [lia|].
  assert (a < brk s) by (apply H; eauto). lia.
Qed.

Lemma store_ok_upd s a n f : store_ok s → cells s !! a = Some n → store_ok (set_cells (<[a := f n]> (cells s)) s).
Proof.
  intros H Ha b [n' Hb]. cbn in *. apply H. apply lookup_insert_Some in Hb as [[<- _]|[_ Hb]]; eauto.
Qed.

Lemma store_ok_free s a : store_ok s → store_ok (set_cells (delete a (cells s)) s).
Proof. intros H b [n' Hb]. cbn in *. apply H. apply lookup_delete_Some in Hb as [_ Hb]. eauto. Qed.

(** ** Chains *)
Lemma lseg_lookup s p l q a n : lseg s p l q → (a, n) ∈ l → cells s !! a = Some n.
Proof.
  induction 1 as [|b n' l q Hb _ IH]; [by intros ?%elem_of_nil|].
  intros [[= -> ->]|Hin]%elem_of_cons; [done|by apply IH].
Qed.

Lemma lseg_app s p l1 l2 q : lseg s p (l1 ++ l2) q ↔ ∃ r, lseg s p l1 r ∧ lseg s r l2 q.
Proof.
  split.
  - revert p. induction l1 as [|[a n] l1 IH]; intros p H; cbn in H.
    + exists p. split; [constructor|done].
    + inversion H; subst. edestruct IH as (r & H1 & H2); [eassumption|].
      exists r. split; [by constructor|done].
  - intros (r & H1 & H2). induction H1; [done|]. cbn. constructor; [done|]. by apply IHlseg.
Qed.

(** A chain to NULL is determined by its first pointer, hence has no cycle. *)
Lemma lseg_det s p l l' : lseg s p l None → lseg s p l' None → l = l'.
Proof.
  revert p l'. induction l as [|[a n] l IH]; intros p l' H H'; inversion H; subst; inversion H'; subst; try done.
  simplify_eq. f_equal. by eapply IH.
Qed.

Lemma lseg_nodup s p l : lseg s p l None → NoDup l.*1.
Proof.
  revert p. induction l as [|[a n] l IH]; intros p H; [constructor|].
  inversion H; subst. cbn. apply NoDup_cons. split; [|by eapply IH].
  intros ([a' n'] & Heq & Hin)%list_elem_of_fmap. cbn in Heq. subst a'.
  apply list_elem_of_split in Hin as (l1 & l2 & ->).
  match goal with H : lseg _ (nx n) _ _ |- _ => apply lseg_app in H as (r & _ & H2) end.
  inversion H2; subst. pose proof (lseg_det _ _ _ _ H H2) as E.
  apply (f_equal length) in E. cbn in E. rewrite length_app in E. cbn in E. lia.
Qed.

(** A chain only depends on its own structures. *)
Lemma lseg_frame s s' p l q :
  lseg s p l q → (∀ a, a ∈ l.*1 → cells s' !! a = cells s !! a) → lseg s' p l q.
Proof.
  induction 1 as [|a n l q Ha Hl IH]; intros Hf; [constructor|].
  constructor; [rewrite Hf; [done|cbn; set_solver]|]. apply IH. intros b Hb. apply Hf. cbn. set_solver.
Qed.

Lemma lseg_frame_insert s p l q a n :
  lseg s p l q → a ∉ l.*1 → lseg (set_cells (<[a := n]> (cells s)) s) p l q.
Proof.
  intros H Ha. eapply lseg_frame; [exact H|]. intros b Hb. cbn. apply lookup_insert_ne. set_solver.
Qed.

Lemma lseg_frame_delete s p l q a :
  lseg s p l q → a ∉ l.*1 → lseg (set_cells (delete a (cells s)) s) p l q.
Proof.
  intros H Ha. eapply lseg_frame; [exact H|]. intros b Hb. cbn. apply lookup_delete_ne. set_solver.
Qed.

Lemma lseg_below s p l q a : store_ok s → lseg s p l q → a ∈ l.*1 → a < brk s.
Proof.
  intros Hok Hl ([b n] & -> & Hin)%list_elem_of_fmap. apply Hok. exists n. by eapply lseg_lookup.
Qed.

Lemma lseg_fresh s p l q : store_ok s → lseg s p l q → brk s ∉ l.*1.
Proof. intros Hok Hl Hin. pose proof (lseg_below _ _ _ _ _ Hok Hl Hin). lia. Qed.

Lemma lseg_malloc s p l q n : store_ok s → lseg s p l q → lseg (malloc n s).2 p l q.
Proof.
  intros Hok H. eapply lseg_frame; [exact H|]. intros b Hb. cbn. apply lookup_insert_ne.
  pose proof (lseg_below _ _ _ _ _ Hok H Hb). lia.
Qed.

(** the walk to the last structure *)
Lemma walk_last s p l b n fuel :
  lseg s p (l ++ [(b, n)]) None → (length l < fuel)%nat →
  ∃ a, p = Some a ∧ loop fuel (last_step s) a = Ret b.
Proof.
  revert p fuel. induction l as [|[a n'] l IH]; intros p fuel H Hf; (destruct fuel as [|fuel]; [cbn in Hf; lia|]);
    inversion H as [|? ? ? ? Ha Hl]; subst; eexists; (split; [done|]).
  - apply loop_inr. unfold last_step. rewrite (deref_some _ _ _ Ha). res_cbn.
    by rewrite (lseg_nil_inv _ _ _ Hl).
  - destruct (IH _ fuel Hl) as (a' & Ea & Hr); [cbn in Hf; lia|].
    erewrite loop_inl; [exact Hr|]. unfold last_step. rewrite (deref_some _ _ _ Ha). res_cbn.
    by rewrite Ea.
Qed.

(** changing the structures of a chain, not their [next] fields: [f] at [b] *)
Lemma lseg_update s p l1 b n l2 q f :
  lseg s p (l1 ++ (b, n) :: l2) q → nx (f n) = nx n → b ∉ l1.*1 → b ∉ l2.*1 →
  lseg (set_cells (<[b := f n]> (cells s)) s) p (l1 ++ (b, f n) :: l2) q.
Proof.
  intros H Hf H1 H2. apply lseg_app in H as (r & Hl1 & Hl2).
  inversion Hl2 as [|? ? ? ? Hb Hr]; subst. apply lseg_app. exists (Some b). split.
  - by apply lseg_frame_insert.
  - constructor; [cbn; by rewrite lookup_insert_eq|]. rewrite Hf. by apply lseg_frame_insert.
Qed.

(** pointing the last structure of a chain elsewhere *)
Lemma lseg_relink s p l b n q q' :
  lseg s p (l ++ [(b, n)]) q → b ∉ l.*1 →
  lseg (set_cells (<[b := set_nx q' n]> (cells s)) s) p (l ++ [(b, set_nx q' n)]) q'.
Proof.
  intros H Hin. apply lseg_app in H as (r & H1 & H2). inversion H2 as [|? ? ? ? Hb Hr]; subst.
  apply lseg_app. exists (Some b). split; [by apply lseg_frame_insert|].
  constructor; [cbn; by rewrite lookup_insert_eq|]. rewrite nx_set_nx. constructor.
Qed.

Lemma lseg_last_notin s p l b n : lseg s p (l ++ [(b, n)]) None → b ∉ l.*1.
Proof.
  intros H. pose proof (lseg_nodup _ _ _ H) as Hnd. rewrite fmap_app in Hnd.
  apply NoDup_app in Hnd as (_ & Hd & _). intros Hb. apply (Hd b Hb). cbn. set_solver.
Qed.

(** linking a structure [c] behind the last one *)
Lemma lseg_snoc s p l b n c nc :
  lseg s p (l ++ [(b, n)]) None → cells s !! c = Some nc → nx nc = None → c ∉ (l ++ [(b, n)]).*1 →
  lseg (set_cells (<[b := set_nx (Some c) n]> (cells s)) s) p (l ++ [(b, set_nx (Some c) n); (c, nc)]) None.
Proof.
  intros H Hc Hn Hin. pose proof (lseg_last_notin _ _ _ _ _ H) as Hb. rewrite fmap_app in Hin. cbn in Hin.
  change [(b, set_nx (Some c) n); (c, nc)] with ([(b, set_nx (Some c) n)] ++ [(c, nc)]).
  rewrite app_assoc. apply lseg_app. exists (Some c). split; [by eapply lseg_relink|].
  constructor; [|rewrite Hn; constructor]. cbn. rewrite lookup_insert_ne; [done|]. set_solver.
Qed.

(** linking a whole chain behind the last structure *)
Lemma lseg_join s p l b n q k :
  lseg s p (l ++ [(b, n)]) None → lseg s q k None → b ∉ k.*1 →
  lseg (set_cells (<[b := set_nx q n]> (cells s)) s) p (l ++ (b, set_nx q n) :: k) None.
Proof.
  intros H Hk Hb. pose proof (lseg_last_notin _ _ _ _ _ H) as Hl. rewrite cons_middle, app_assoc. apply lseg_app.
  exists q. split; [by eapply lseg_relink|by apply lseg_frame_insert].
Qed.

(** ** The record in front of another *)
(** one turn of [while (p->next != rel)] *)
Definition prev_step (s : store N) (rel : option Z) (iterator : option Z) : res (option Z + Z) :=
  a ← from_option_ub iterator;
  r ← deref s a;
  Ret (if decide (nx r = rel) then inr a else inl (nx r)).

Lemma prev_last s h l b r fuel :
  lseg s h (l ++ [(b, r)]) None → (length l < fuel)%nat → loop fuel (prev_step s None) h = Ret b.
Proof.
  revert h fuel. induction l as [|[a r'] l IH]; intros h fuel H Hf; (destruct fuel as [|fuel]; [cbn in Hf; lia|]);
    inversion H as [|? ? ? ? Ha Hl]; subst.
  - apply loop_inr. unfold prev_step. cbn [from_option_ub]. res_cbn. rewrite (deref_some _ _ _ Ha). res_cbn.
    by rewrite decide_True by apply (lseg_nil_inv _ _ _ Hl).
  - erewrite loop_inl; [apply (IH _ fuel Hl); cbn in Hf; lia|].
    unfold prev_step. cbn [from_option_ub]. res_cbn. rewrite (deref_some _ _ _ Ha). res_cbn.
    rewrite decide_False; [done|]. intros E. rewrite E in Hl.
    destruct l as [|[c rc] l]; inversion Hl.
Qed.

Lemma lseg_inner s h l b rb q x :
  lseg s h (l ++ [(b, rb)]) q → x ∈ l → ∃ a, a ∈ tail ((l ++ [(b, rb)]).*1) ∧ nx x.2 = Some a.
Proof.
  revert h. induction l as [|[a r] l IH]; intros h H Hx; [by apply elem_of_nil in Hx|].
  inversion H as [|? ? ? ? Ha Hl]; subst. apply elem_of_cons in Hx as [->|Hx].
  - destruct l as [|[c rc] l]; inversion Hl as [|? ? ? ? ? ? Hc E]; subst; cbn in *; eexists; (split; [|by symmetry]); set_solver.
  - destruct (IH _ Hl Hx) as (c & Hc & E). exists c. split; [|done]. cbn.
    destruct l as [|y l]; [by apply elem_of_nil in Hx|]. cbn in *. set_solver.
Qed.

Lemma prev_found s h l b r q fuel :
  lseg s h (l ++ [(b, r)]) q → (∀ x, x ∈ l → nx x.2 ≠ q) → (length l < fuel)%nat →
  loop fuel (prev_step s q) h = Ret b.
Proof.
  revert h fuel. induction l as [|[a r'] l IH]; intros h [|fuel] H Hq Hf; try (cbn in Hf; lia);
    inversion H as [|? ? ? ? Ha Hl]; subst.
  - apply loop_inr. unfold prev_step. cbn [from_option_ub]. res_cbn. rewrite (deref_some _ _ _ Ha). res_cbn.
    by rewrite decide_True by apply (lseg_nil_inv _ _ _ Hl).
  - erewrite loop_inl; [apply (IH _ fuel Hl); [|cbn in Hf; lia]|].
    + intros x Hx. apply Hq. set_solver.
    + unfold prev_step. cbn [from_option_ub]. res_cbn. rewrite (deref_some _ _ _ Ha). res_cbn.
      rewrite decide_False; [done|]. apply (Hq (a, r')). set_solver.
Qed.

Lemma prev_never s h l c fuel :
  lseg s h l None → c ∉ tail l.*1 → (length l < fuel)%nat → loop fuel (prev_step s (Some c)) h = Undef.
Proof.
  revert h fuel. induction l as [|[a r] l IH]; intros h [|fuel] H Hc Hf; try (cbn in Hf; lia);
    inversion H as [|? ? ? ? Ha Hl]; subst.
  - by apply loop_undef.
  - erewrite loop_inl; [apply (IH _ fuel Hl); [|cbn in Hf; lia]|].
    + cbn in Hc. destruct l; cbn in *; set_solver.
    + unfold prev_step. cbn [from_option_ub]. res_cbn. rewrite (deref_some _ _ _ Ha). res_cbn.
      rewrite decide_False; [done|]. intros E. rewrite E in Hl. cbn in Hc.
      inversion Hl; subst. set_solver.
Qed.

(** freeing a whole chain *)
Definition free_step (st : option Z * store N) : res (option Z * store N + store N) :=
  match st.1 with
  | None => Ret (inr st.2)
  | Some a => n ← deref st.2 a; s' ← free a st.2; Ret (inl (nx n, s'))
  end.

Lemma free_chain s p l fuel :
  lseg s p l None → (length l < fuel)%nat →
  loop fuel free_step (p, s) = Ret (set_cells (foldl (λ m a, delete a m) (cells s) l.*1) s).
Proof.
  revert s p fuel. induction l as [|[a n] l IH]; intros s p fuel H Hf; (destruct fuel as [|fuel]; [cbn in Hf; lia|]);
    pose proof (lseg_nodup _ _ _ H) as Hnd; inversion H as [|? ? ? ? Ha Hl]; subst.
  - apply loop_inr. unfold free_step. cbn. do 2 f_equal. by destruct s.
  - erewrite loop_inl; [apply IH with (s := set_cells (delete a (cells s)) s) (p := nx n)|].
    + apply lseg_frame_delete; [done|]. cbn in Hnd. by apply NoDup_cons in Hnd as [? _].
    + cbn in Hf. lia.
    + unfold free_step. cbn [fst snd]. rewrite (deref_some _ _ _ Ha). res_cbn.
      by rewrite (free_some _ _ _ Ha).
Qed.

Lemma foldl_delete_lookup (m : gmap Z N) l a :
  foldl (λ m a, delete a m) m l !! a = if decide (a ∈ l) then None else m !! a.
Proof.
  revert m. induction l as [|b l IH]; intros m; cbn; [by rewrite decide_False by set_solver|].
  rewrite IH. destruct (decide (a ∈ l)) as [Hin|Hin]; [by rewrite decide_True by set_solver|].
  destruct (decide (a = b)) as [->|Hab].
  - rewrite decide_True by set_solver. by rewrite lookup_delete_eq.
  - rewrite decide_False by set_solver. by rewrite lookup_delete_ne.
Qed.

Lemma Forall2_zip {A B} (P : A → B → Prop) l k :
  Forall2 P l k ↔ length l = length k ∧ Forall (λ x, P x.1 x.2) (zip l k).
Proof.
  split.
  - induction 1 as [|a b l k Hab _ [IH1 IH2]]; [by split; [|apply Forall_nil]|].
    split; [by cbn; f_equal|]. cbn. by apply Forall_cons.
  - revert k. induction l as [|a l IH]; intros [|b k] [Hl Hf]; [constructor|done|done|].
    cbn in Hf. apply Forall_cons in Hf as [Hab Hf]. constructor; [done|]. apply IH. by injection Hl.
Qed.

(** ** Several chains, none of which shares a structure with another *)
Definition chains (s : store N) (hs : list (option Z)) (ls : list (list (Z * N))) : Prop :=
  Forall2 (λ h l, lseg s h l None) hs ls ∧ NoDup (concat ls).*1.

Lemma in_chains (ls : list (list (Z * N))) l a : l ∈ ls → a ∈ l.*1 → a ∈ (concat ls).*1.
Proof. intros Hl Ha. induction Hl as [l ls|l k ls _ IH]; cbn; rewrite fmap_app; set_solver. Qed.

(** the first chains change, with the structures they have or new ones *)
Lemma chains_top s s' hs hs' hr ls ls' lr :
  chains s (hs ++ hr) (ls ++ lr) → length hs = length ls →
  Forall2 (λ h l, lseg s' h l None) hs' ls' → NoDup (concat ls').*1 →
  (∀ b, b ∈ (concat ls').*1 → b ∈ (concat ls).*1 ∨ b ∉ (concat lr).*1) →
  (∀ b, b ∈ (concat lr).*1 → cells s' !! b = cells s !! b) →
  chains s' (hs' ++ hr) (ls' ++ lr).
Proof.
  intros [Hf Hn] Hlen Hf' Hn' Hsub Hfr.
  assert (Hr : Forall2 (λ h l, lseg s h l None) hr lr).
  { apply Forall2_app_inv in Hf as [_ Hf]; done. }
  rewrite concat_app, fmap_app in Hn. apply NoDup_app in Hn as (_ & Hd & Hnr). split.
  - apply Forall2_app; [done|]. rewrite Forall2_lookup in Hr |- *. intros i. specialize (Hr i).
    inversion Hr as [h l Hl E1 E2|E1 E2]; constructor. eapply lseg_frame; [exact Hl|]. intros a Ha. apply Hfr.
    eapply in_chains; [by eapply list_elem_of_lookup_2|done].
  - rewrite concat_app, fmap_app. apply NoDup_app. split; [done|]. split; [|done].
    intros a Ha Ha'. destruct (Hsub a Ha) as [Hb|Hb]; [by apply (Hd a Hb)|done].
Qed.

Lemma chains_below s hs ls a : store_ok s → chains s hs ls → a ∈ (concat ls).*1 → a < brk s.
Proof.
  intros Hok [Hf _] Ha. induction Hf as [|h l hs ls Hl _ IH]; cbn in Ha; [by apply elem_of_nil in Ha|].
  rewrite fmap_app in Ha. apply elem_of_app in Ha as [Ha|Ha]; [by eapply lseg_below|by apply IH].
Qed.

Lemma chains_head s a r l hs ls :
  chains s (Some a :: hs) (((a, r) :: l) :: ls) → cells s !! a = Some r ∧ lseg s (nx r) l None.
Proof. intros [Hf _]. apply Forall2_cons in Hf as [Hl _]. by inversion Hl; subst. Qed.

(** Chains may be listed in any order. *)
Lemma chains_perm s hs ls hs' ls' :
  chains s hs ls → zip hs ls ≡ₚ zip hs' ls' → length hs' = length ls' → chains s hs' ls'.
Proof.
  intros [Hf Hn] Hp Hlen. pose proof (Forall2_length _ _ _ Hf) as Hlen0.
  assert (Hl : ls ≡ₚ ls').
  { rewrite <-(snd_zip hs ls), <-(snd_zip hs' ls') by lia. by rewrite Hp. }
  split.
  - apply Forall2_zip. split; [done|]. apply Forall2_zip in Hf as [_ Hf]. by rewrite <-Hp.
  - rewrite <-Hl. done.
Qed.

(** The first chain goes. *)
Lemma chains_tail s h l hs ls : chains s (h :: hs) (l :: ls) → chains s hs ls.
Proof.
  intros [Hf Hn]. apply Forall2_cons in Hf as [_ Hf]. split; [done|]. cbn in Hn. rewrite fmap_app in Hn.
  by apply NoDup_app in Hn as (_ & _ & Hn).
Qed.

(** Structures outside the chains may change. *)
Lemma chains_frame s s' hs ls :
  chains s hs ls → (∀ a, a ∈ (concat ls).*1 → cells s' !! a = cells s !! a) → chains s' hs ls.
Proof.
  intros H Hf. apply (chains_top s s' [] [] hs [] [] ls); [done|done|by constructor|by constructor| |done].
  intros b Hb. by apply elem_of_nil in Hb.
Qed.

Lemma chains_notin s h l hs ls a : chains s (h :: hs) (l :: ls) → a ∈ l.*1 → a ∉ (concat ls).*1.
Proof.
  intros [_ Hn] Ha. cbn in Hn. rewrite fmap_app in Hn. apply NoDup_app in Hn as (_ & Hd & _). by apply Hd.
Qed.

(** the second structure of a chain is unlinked and freed *)
Lemma chains_unlink s a r b nb ns hs ls :
  chains s (Some a :: hs) (((a, r) :: (b, nb) :: ns) :: ls) →
  chains (set_cells (delete b (<[a := set_nx (nx nb) r]> (cells s))) s) (Some a :: hs)
    (((a, set_nx (nx nb) r) :: ns) :: ls).
Proof.
  intros Hch. pose proof (chains_head _ _ _ _ _ _ Hch) as (Ha & Hl1). inversion Hl1 as [|? ? ? ? Hb Hl2 E1]; subst.
  pose proof Hch as [_ Hnd]. cbn in Hnd. apply NoDup_cons in Hnd as [Hn1 Hnd]. apply NoDup_cons in Hnd as [Hn2 Hnd].
  cbn in Hn1. rewrite fmap_app in Hn1, Hn2, Hnd. apply NoDup_app in Hnd as [Hnd _].
  assert (Hab : a ≠ b) by set_solver.
  apply (chains_top s _ [Some a] [Some a] hs [(a, r) :: (b, nb) :: ns] [(a, set_nx (nx nb) r) :: ns] ls Hch); [done| | | |].
  - apply Forall2_cons. split; [|constructor]. constructor; [cbn; rewrite lookup_delete_ne by done; by rewrite lookup_insert_eq|].
    rewrite nx_set_nx. eapply lseg_frame; [exact Hl2|]. intros c Hc. cbn.
    rewrite lookup_delete_ne, lookup_insert_ne by set_solver. done.
  - cbn. rewrite app_nil_r. apply NoDup_cons. split; [set_solver|done].
  - intros c Hc. left. cbn in Hc |- *. rewrite app_nil_r in Hc |- *. set_solver.
  - intros c Hc. cbn. rewrite lookup_delete_ne, lookup_insert_ne by set_solver. done.
Qed.

Lemma chains_swap s h1 h2 hs l1 l2 ls :
  chains s (h1 :: h2 :: hs) (l1 :: l2 :: ls) → chains s (h2 :: h1 :: hs) (l2 :: l1 :: ls).
Proof.
  intros [Hf Hn]. apply Forall2_cons in Hf as [H1 Hf]. apply Forall2_cons in Hf as [H2 Hf]. split.
  - apply Forall2_cons. split; [done|]. by apply Forall2_cons.
  - cbn in Hn |- *. rewrite app_assoc, fmap_app in Hn |- *. rewrite fmap_app in Hn |- *.
    by rewrite (Permutation_app_comm l2.*1 l1.*1).
Qed.

(** the first structure changes, not its [next] field *)
Lemma chains_update s a r f l hs ls :
  chains s (Some a :: hs) (((a, r) :: l) :: ls) → nx (f r) = nx r →
  chains (set_cells (<[a := f r]> (cells s)) s) (Some a :: hs) (((a, f r) :: l) :: ls).
Proof.
  intros Hch Hf. pose proof Hch as [Hfa Hnd]. apply Forall2_cons in Hfa as [Hl _].
  cbn in Hnd. apply NoDup_cons in Hnd as [Hn Hnd]. cbn in Hn. rewrite fmap_app in Hn, Hnd. apply NoDup_app in Hnd as [Hnd _].
  apply (chains_top s _ [Some a] [Some a] hs [(a, r) :: l] [(a, f r) :: l] ls Hch); [done| | | |].
  - apply Forall2_cons. split; [|constructor]. apply (lseg_update s (Some a) [] a r l None f Hl Hf); cbn; set_solver.
  - cbn. rewrite app_nil_r. apply NoDup_cons. split; [set_solver|done].
  - intros b Hb. by left.
  - intros b Hb. cbn. apply lookup_insert_ne. intros <-. set_solver.
Qed.

(** what is behind [a] is moved behind the last structure [p] of the first chain *)
Lemma chains_move s h l p x a r k hs ls :
  chains s (h :: Some a :: hs) ((l ++ [(p, x)]) :: ((a, r) :: k) :: ls) →
  chains (set_cells (<[a := set_nx None r]> (<[p := set_nx (nx r) x]> (cells s))) s) (h :: Some a :: hs)
    ((l ++ (p, set_nx (nx r) x) :: k) :: [(a, set_nx None r)] :: ls).
Proof.
  intros Hch. pose proof Hch as [Hf Hnd]. apply Forall2_cons in Hf as [Hl Hf]. apply Forall2_cons in Hf as [Hk _].
  inversion Hk as [|? ? ? ? Ha Hk']; subst. cbn in Hnd. rewrite !fmap_app in Hnd. cbn in Hnd.
  apply NoDup_app in Hnd as (Hn1 & Hd & Hnd). apply NoDup_cons in Hnd as [Hna Hnd]. rewrite fmap_app in Hna, Hnd, Hd.
  apply NoDup_app in Hn1 as (Hn1 & Hd1 & _). apply NoDup_app in Hnd as (Hnk & Hdk & _).
  assert (Hpa : p ≠ a ∧ p ∉ k.*1 ∧ p ∉ (concat ls).*1).
  { assert (Hp : p ∈ l.*1 ++ [p]) by set_solver. pose proof (Hd p Hp) as H. clear -H. set_solver. }
  assert (Hla : ∀ b, b ∈ l.*1 → b ≠ a ∧ b ∉ k.*1 ∧ b ≠ p).
  { intros b Hb. assert (Hb' : b ∈ l.*1 ++ [p]) by set_solver. pose proof (Hd b Hb') as H. pose proof (Hd1 b Hb) as H'. clear -H H'. set_solver. }
  apply (chains_top s _ [h; Some a] [h; Some a] hs [l ++ [(p, x)]; (a, r) :: k] [l ++ (p, set_nx (nx r) x) :: k; [(a, set_nx None r)]] ls Hch); [done| | | |].
  - apply Forall2_cons. split; [|apply Forall2_cons; split; [|constructor]].
    + refine (lseg_frame_insert (set_cells (<[p := set_nx (nx r) x]> (cells s)) s) h _ None a (set_nx None r) _ _).
      * apply lseg_join; [done|done|apply Hpa].
      * rewrite fmap_app. cbn. intros Hin. apply elem_of_app in Hin as [Hin|Hin]; [by apply Hla in Hin as []|].
        apply elem_of_cons in Hin as [Hin|Hin]; [by destruct Hpa|]. clear -Hna Hin. set_solver.
    + constructor; [cbn; by rewrite lookup_insert_eq|]. rewrite nx_set_nx. constructor.
  - cbn. rewrite !fmap_app. cbn. apply NoDup_app. split; [|split; [|repeat constructor; set_solver]].
    + apply NoDup_app. split; [done|]. split; [|apply NoDup_cons; split; [apply Hpa|done]].
      intros b Hb. destruct (Hla b Hb) as (_ & H1 & H2). clear -H1 H2. set_solver.
    + intros b Hb. clear -Hb Hla Hpa Hna. set_solver.
  - intros b Hb. left. cbn in Hb |- *. rewrite !fmap_app in Hb |- *. cbn in Hb |- *. clear -Hb. set_solver.
  - intros b Hb. cbn. rewrite !lookup_insert_ne; [done| |]; intros <-; [by destruct Hpa as (_ & _ & ?)|clear -Hna Hb; set_solver].
Qed.

(** the structure [b] is linked behind the last one of the first chain *)
Lemma chains_append s h l p x b nb hs ls :
  chains s (h :: Some b :: hs) ((l ++ [(p, x)]) :: [(b, nb)] :: ls) → nx nb = None →
  chains (set_cells (<[p := set_nx (Some b) x]> (cells s)) s) (h :: hs) ((l ++ [(p, set_nx (Some b) x); (b, nb)]) :: ls).
Proof.
  intros Hch Hb. pose proof Hch as [Hf Hnd]. apply Forall2_cons in Hf as [Hl Hf]. apply Forall2_cons in Hf as [Hk _].
  inversion Hk as [|? ? ? ? Hcb _]; subst. cbn in Hnd. rewrite fmap_app in Hnd. cbn in Hnd.
  apply NoDup_app in Hnd as (Hn1 & Hd & _).
  assert (Hpb : ∀ a, a ∈ (l ++ [(p, x)]).*1 → a ≠ b ∧ a ∉ (concat ls).*1) by (intros a Ha; specialize (Hd a Ha); clear -Hd; set_solver).
  apply (chains_top s _ [h; Some b] [h] hs [l ++ [(p, x)]; [(b, nb)]] [l ++ [(p, set_nx (Some b) x); (b, nb)]] ls Hch); [done| | | |].
  - apply Forall2_cons. split; [|constructor]. apply lseg_snoc; [done|done|done|]. intros H. by destruct (Hpb b H).
  - cbn. rewrite app_nil_r. rewrite fmap_app in Hn1 |- *. cbn in Hn1 |- *. rewrite (app_assoc _ [p] [b]).
    apply NoDup_app. split; [done|]. split; [|apply NoDup_singleton].
    intros a Ha. destruct (Hpb a) as [H _]; [|clear -H; set_solver].
    rewrite fmap_app. exact Ha.
  - intros a Ha. left. cbn in Ha |- *. rewrite ?app_nil_r, ?fmap_app in Ha |- *. cbn in Ha |- *. rewrite ?fmap_app. cbn. clear -Ha. set_solver.
  - intros a Ha. cbn. apply lookup_insert_ne. intros <-. destruct (Hpb p) as [_ H]; [rewrite fmap_app; cbn; set_solver|done].
Qed.

(** what is behind [a] is put between [n] and what is behind [n]; [a] goes *)
Lemma chains_splice s a ra k p x n rn kn hs ls :
  chains s (Some a :: Some n :: hs) (((a, ra) :: k ++ [(p, x)]) :: ((n, rn) :: kn) :: ls) →
  chains (set_cells (<[p := set_nx (nx rn) x]> (<[n := set_nx (nx ra) rn]> (cells s))) s) (Some n :: hs)
    (((n, set_nx (nx ra) rn) :: k ++ (p, set_nx (nx rn) x) :: kn) :: ls).
Proof.
  intros Hch. apply chains_swap in Hch as Hch2. pose proof (chains_head _ _ _ _ _ _ Hch) as (Ha & Hk).
  pose proof (chains_head _ _ _ _ _ _ Hch2) as (Hn & Hkn). apply chains_tail in Hch2 as Hch0.
  assert (Hd : a ∉ n :: kn.*1 ∧ ∀ b, b ∈ k.*1 ∨ b = p → b ≠ n ∧ b ∉ kn.*1 ∧ b ∉ (concat ls).*1).
  { split.
    - pose proof (chains_notin _ _ _ _ _ a Hch ltac:(cbn; set_solver)) as H. cbn in H. rewrite fmap_app in H. clear -H. set_solver.
    - intros b Hb. pose proof (chains_notin _ _ _ _ _ b Hch) as H. cbn in H. rewrite !fmap_app in H. cbn in H.
      clear -H Hb. set_solver. }
  destruct Hd as [Hda Hd]. destruct (Hd p (or_intror eq_refl)) as (Hpn & Hpk & Hpl).
  pose proof Hch as [_ Hnd]. cbn in Hnd. apply NoDup_cons in Hnd as [_ Hnd]. rewrite !fmap_app in Hnd. cbn in Hnd.
  apply NoDup_app in Hnd as (Hnd1 & _ & Hnd). apply NoDup_cons in Hnd as [Hnn Hnd]. rewrite fmap_app in Hnn, Hnd.
  apply NoDup_app in Hnd as (Hndk & Hnkl & _). apply NoDup_app in Hnd1 as (Hndk1 & Hpk1 & _).
  apply (chains_top s _ [Some a; Some n] [Some n] hs [(a, ra) :: k ++ [(p, x)]; (n, rn) :: kn] [(n, set_nx (nx ra) rn) :: k ++ (p, set_nx (nx rn) x) :: kn] ls Hch); [done| | | |].
  - apply Forall2_cons. split; [|constructor]. constructor; [cbn; rewrite lookup_insert_ne by done; by rewrite lookup_insert_eq|].
    rewrite nx_set_nx. refine (lseg_join (set_cells (<[n := set_nx (nx ra) rn]> (cells s)) s) (nx ra) k p x (nx rn) kn _ _ Hpk).
    + apply lseg_frame_insert; [done|]. rewrite fmap_app. cbn. clear -Hd. set_solver.
    + apply lseg_frame_insert; [done|]. clear -Hnn. set_solver.
  - cbn. rewrite app_nil_r, fmap_app. cbn. apply NoDup_cons. split; [clear -Hnn Hd Hpn; set_solver|].
    apply NoDup_app. split; [done|]. split; [|by apply NoDup_cons].
    intros b Hb. destruct (Hd b (or_introl Hb)) as (_ & H1 & _). pose proof (Hpk1 b Hb) as H2. clear -H1 H2. set_solver.
  - intros b Hb. left. cbn in Hb |- *. rewrite ?app_nil_r, ?fmap_app in Hb |- *. cbn in Hb |- *. rewrite ?fmap_app. cbn. clear -Hb. set_solver.
  - intros b Hb. cbn. rewrite !lookup_insert_ne; [done| |]; intros <-; [clear -Hnn Hb; set_solver|done].
Qed.

(** what is behind [a] replaces what is behind [n]; [a] goes *)
Lemma chains_steal s a ra k n rn kn hs ls :
  chains s (Some a :: Some n :: hs) (((a, ra) :: k) :: ((n, rn) :: kn) :: ls) →
  chains (set_cells (<[n := set_nx (nx ra) rn]> (cells s)) s) (Some n :: hs) (((n, set_nx (nx ra) rn) :: k) :: ls).
Proof.
  intros Hch. pose proof (chains_head _ _ _ _ _ _ Hch) as (Ha & Hk).
  pose proof Hch as [_ Hnd]. cbn in Hnd. apply NoDup_cons in Hnd as [_ Hnd]. rewrite !fmap_app in Hnd. cbn in Hnd.
  apply NoDup_app in Hnd as (Hndk & Hd & Hnd). apply NoDup_cons in Hnd as [Hnn _]. rewrite fmap_app in Hnn, Hd.
  assert (Hnk : n ∉ k.*1) by (intros H; specialize (Hd n H); clear -Hd; set_solver).
  apply (chains_top s _ [Some a; Some n] [Some n] hs [(a, ra) :: k; (n, rn) :: kn] [(n, set_nx (nx ra) rn) :: k] ls Hch); [done| | | |].
  - apply Forall2_cons. split; [|constructor]. constructor; [cbn; by rewrite lookup_insert_eq|].
    rewrite nx_set_nx. by apply lseg_frame_insert.
  - cbn. rewrite app_nil_r. by apply NoDup_cons.
  - intros b Hb. left. cbn in Hb |- *. rewrite ?app_nil_r, ?fmap_app in Hb |- *. cbn in Hb |- *. rewrite ?fmap_app. cbn. clear -Hb. set_solver.
  - intros b Hb. cbn. rewrite lookup_insert_ne; [done|]. intros <-. clear -Hnn Hb. set_solver.
Qed.

End store.
