(* ===== verification/Gc.v ===== *)
(** * The garbage collector (StackLib/StackVM/vm_stack.c, vm_garbage_collect)

    After every instruction the machine walks the chunks of its heap, frees the
    objects whose reference counter is zero and moves those of them that lie
    behind a gap. The chunks are those of the first-fit heap of Heap; a chunk
    holds a [vm_object], of which the collector reads the counter, the lock and
    the destructor. The walk starts at the root of the heap, which holds no
    object: what is read there as one are the bytes of the header behind it. *)
From S2P Require Import Prelude Vm Heap Links.

(** ** State *)
(** [mgc_refcount], [lock], and whether [release] is set *)
Record vobj := mkObj { mgc : Z; lock : Z; destructor : bool }.

(** the heap, the object of every chunk, [vm_stacks] as addresses, and the
    calls of destructors so far *)
Record gcs := mkGc { gheap : heap; objs : gmap Z vobj; ptrs : gmap Z Z; calls : list Z }.

Definition VM_MAGIC_MASK_ZERO : Z := Z.lor VM_MAGIC 0x0F.

(** reference counter zero *)
Definition dead (m : Z) : bool := Z.land m VM_MAGIC_MASK_ZERO =? VM_MAGIC.

(** byte [k] of a chunk that holds no object, as long as a header lies there *)
Definition header_byte (s : gcs) (c k : Z) : res Z := sz ← get_size c (hm (gheap s)); Ret (u8 (Z.shiftr sz (8 * k))).

Definition rd_mgc (s : gcs) (c : Z) : res Z :=
  match objs s !! c with Some o => Ret (mgc o) | None => header_byte s c 0 end.

Definition rd_lock (s : gcs) (c : Z) : res Z :=
  match objs s !! c with Some o => Ret (lock o) | None => header_byte s c 1 end.

(** [vm_update_mutator]: every cell of the stack that holds the old address *)
Definition vm_update_mutator (old_addr new_addr : Z) (s : gcs) : gcs :=
  mkGc (gheap s) (objs s) ((λ p, if p =? old_addr then new_addr else p) <$> ptrs s) (calls s).

(** the chunk behind [iterator] moved to its end *)
Definition gc_shift (iterator nextchunk : Z) (s : gcs) : res (gcs * option Z) :=
  r ← m_shift_next_chunk (gheap s) (Some iterator);
  let '(h, shifted) := r in
  if decide (shifted = Some nextchunk) then Ret (mkGc h (objs s) (ptrs s) (calls s), Some nextchunk)
  else
    let to := default 0 shifted in
    let objs' := match objs s !! nextchunk with Some o => <[to := o]> (delete nextchunk (objs s)) | None => objs s end in
    Ret (vm_update_mutator nextchunk to (mkGc h objs' (ptrs s) (calls s)), shifted).

(** the destructor is called, the chunk cleared and freed; where no object is,
    [release] is read from the chunk behind and called *)
Definition gc_free (fuel : nat) (candidate : Z) (s : gcs) : res gcs :=
  o ← from_option_ub (objs s !! candidate);
  let calls' := if destructor o then calls s ++ [candidate] else calls s in
  _ ← m_size_chunk (gheap s) candidate;
  h ← m_free fuel (gheap s) candidate;
  Ret (mkGc h (delete candidate (objs s)) (ptrs s) calls').

(** one turn of the loop *)
Definition gc_step (fuel : nat) (x : option Z * gcs) : res (option Z * gcs + gcs) :=
  match x.1 with
  | None => Ret (inr x.2)
  | Some iterator =>
      let s := x.2 in
      m ← rd_mgc s iterator;
      next ← m_next_chunk (gheap s) iterator;
      match next with
      | None => Ret (inr s)
      | Some nextchunk =>
          m' ← rd_mgc s nextchunk;
          y ← (if dead m' then
                 l ← rd_lock s nextchunk;
                 if l =? 0 then gc_shift iterator nextchunk s else Ret (s, Some nextchunk)
               else Ret (s, Some nextchunk));
          s' ← (if dead m then gc_free fuel iterator y.1 else Ret y.1);
          Ret (inl (y.2, s'))
      end
  end.

(** the part of [vm_garbage_collect] that works on the heap *)
Definition vm_garbage_collect (fuel : nat) (s : gcs) : res gcs :=
  loop fuel (gc_step fuel) (Some (m_first_chunk (gheap s)), s).

(** ** What one collection does to the list of blocks

    A block is an address, a size and an object. *)
Abbreviation blk := (Z * Z * vobj)%type.

Definition is_dead (b : blk) : bool := dead (mgc b.2).

(** the block behind [x] is moved when it is dead and not locked *)
Definition slide (x : Z * Z) (y : blk) : blk :=
  if is_dead y && (lock y.2 =? 0) then (x.1 + HDR + x.2, y.1.2, y.2) else y.

(** the blocks that stay, and the destructors called *)
Fixpoint sweep (x : blk) (R : list blk) : list blk * list Z :=
  match R with
  | [] => ([x], [])
  | y :: R' =>
      let z := sweep (slide x.1 y) R' in
      if is_dead x then (z.1, (if destructor x.2 then [x.1.1 + HDR] else []) ++ z.2) else (x :: z.1, z.2)
  end.

Definition sweep_heap (root : Z) (L : list blk) : list blk * list Z :=
  match L with [] => ([], []) | y :: R => sweep (slide (root, 0) y) R end.

Lemma slide_same x y : is_dead (slide x y) = is_dead y ∧ (slide x y).2 = y.2 ∧ (is_dead y = false → slide x y = y).
Proof. unfold slide. destruct (is_dead y) eqn:E; cbn; [destruct (lock y.2 =? 0)|]; done. Qed.

(** ** Invariant *)
Record gc_ok (s : gcs) (L : list blk) (t : Z) : Prop := {
  go_heap : heap_inv (gheap s) L.*1 t;
  go_tail : hm (gheap s) !! t = Some (mkHdr (Some 0) None);
  go_pos : Forall (λ b : Z * Z, 0 < b.2) L.*1;
  go_objs : ∀ c o, objs s !! c = Some o ↔ ∃ b, b ∈ L ∧ b.1.1 + HDR = c ∧ b.2 = o
}.

Lemma chain_split m r l1 a sz l2 t :
  chain m r (l1 ++ (a, sz) :: l2) t →
  Forall (λ b, b.1 + HDR + b.2 ≤ a) l1 ∧ Forall (λ b, a + HDR + sz ≤ b.1) l2 ∧ a + HDR + sz ≤ t.
Proof.
  revert r. induction l1 as [|[b s] l1 IH]; intros r H; cbn [app] in H.
  - inversion H as [|? ? c ? ? Ha Hs Hle Hc]; subst. destruct (chain_bounds _ _ _ _ Hc) as [Hb Hf].
    split; [by apply Forall_nil|]. split; [|lia]. eapply Forall_impl; [exact Hf|]. cbn. lia.
  - inversion H as [|? ? c ? ? Hb Hs Hle Hc]; subst. destruct (IH _ Hc) as (H1 & H2 & H3). split; [|done].
    apply Forall_cons. split; [|done]. cbn.
    assert (c ≤ a); [|lia]. destruct (chain_bounds _ _ _ _ Hc) as [_ Hf]. apply Forall_app in Hf as [_ Hf].
    apply Forall_cons in Hf as [[Hf _] _]. exact Hf.
Qed.

(** the header of a block and of what follows *)
Lemma chain_at m r l1 a sz l2 t :
  chain m r (l1 ++ (a, sz) :: l2) t →
  ∃ b, m !! a = Some (mkHdr (Some sz) (Some b)) ∧ b = match l2 with [] => t | y :: _ => y.1 end ∧ chain m b l2 t.
Proof.
  revert r. induction l1 as [|[c s] l1 IH]; intros r H; cbn [app] in H; inversion H as [|? ? b ? ? Ha Hs Hle Hc]; subst; [|by apply (IH _ Hc)].
  exists b. split; [done|]. split; [|done]. by inversion Hc.
Qed.

(** blocks in address order *)
Lemma ok_order s K y R t :
  gc_ok s (K ++ y :: R) t →
  Forall (λ b : blk, b.1.1 + HDR + b.1.2 ≤ y.1.1) K ∧ root (gheap s) + HDR ≤ y.1.1 ∧
  Forall (λ b : blk, y.1.1 + HDR + y.1.2 ≤ b.1.1) R ∧ 0 < y.1.2 ∧ Forall (λ b : blk, 0 < b.1.2) K ∧ y.1.1 + HDR + y.1.2 ≤ t.
Proof.
  intros [[Hc _ _ _] _ Hp _]. rewrite fmap_app, fmap_cons in Hc, Hp. rewrite app_comm_cons in Hc.
  destruct y as [[b n] oy]. cbn [fst snd] in *.
  destruct (chain_split _ _ _ _ _ _ _ Hc) as (H1 & H2 & H3). apply Forall_cons in H1 as [H0 H1]. cbn [fst snd] in H0.
  apply Forall_app in Hp as [HpK Hp]. apply Forall_cons in Hp as [Hpy _].
  rewrite Forall_fmap in H1, H2, HpK. split; [done|]. split; [lia|]. done.
Qed.

(** what a block is read as *)
Lemma ok_obj s K y R t : gc_ok s (K ++ y :: R) t → objs s !! (y.1.1 + HDR) = Some y.2.
Proof. intros [_ _ _ Ho]. apply Ho. exists y. split; [|done]. apply elem_of_app. right. by constructor. Qed.

Lemma ok_next s K a sz l1 y R t :
  gc_ok s (K ++ y :: R) t → (root (gheap s), 0) :: K.*1 = l1 ++ [(a, sz)] →
  m_next_chunk (gheap s) (a + HDR) = Ret (Some (y.1.1 + HDR)).
Proof.
  intros Hok HK. destruct (ok_order _ _ _ _ _ Hok) as (_ & _ & _ & Hpos & _). destruct Hok as [[Hc _ _ _] _ _ _].
  rewrite fmap_app, fmap_cons, app_comm_cons, HK, <-app_assoc in Hc. cbn [app] in Hc. destruct y as [[b n] oy]. cbn [fst snd] in *.
  destruct (chain_at _ _ _ _ _ _ _ Hc) as (b' & E & -> & Hc'). cbn [fst] in *. inversion Hc' as [|? ? c ? ? Hb Hs Hle Hc'']; subst.
  unfold m_next_chunk, get_size, get_hdr. replace (a + HDR - HDR) with a by lia. rewrite E. res_cbn. cbn [h_next]. res_cbn.
  rewrite Hb. res_cbn. cbn [h_size]. res_cbn. by rewrite (proj2 (Z.eqb_neq _ _)) by lia.
Qed.

Lemma ok_last s K a sz l1 t :
  gc_ok s K t → (root (gheap s), 0) :: K.*1 = l1 ++ [(a, sz)] → m_next_chunk (gheap s) (a + HDR) = Ret None.
Proof.
  intros [[Hc _ _ _] Ht _ _] HK. rewrite HK in Hc. destruct (chain_at _ _ _ _ _ _ _ Hc) as (b & E & -> & _).
  unfold m_next_chunk, get_size, get_hdr. replace (a + HDR - HDR) with a by lia. rewrite E. res_cbn. cbn [h_next]. res_cbn.
  rewrite Ht. res_cbn. cbn [h_size]. res_cbn. done.
Qed.

(** ** What a turn keeps *)
Record keeps (s s' : gcs) : Prop := {
  k_root : root (gheap s') = root (gheap s);
  k_size : heap_size (gheap s') = heap_size (gheap s);
  k_objs : ∀ p o, objs s !! p = Some o → dead (mgc o) = false → objs s' !! p = Some o;
  k_ptrs : ∀ i p, ptrs s !! i = Some p →
    (∃ o, objs s !! p = Some o ∧ dead (mgc o) = false) ∨ p < root (gheap s) ∨ root (gheap s) + heap_size (gheap s) ≤ p →
    ptrs s' !! i = Some p
}.

#[export] Instance keeps_preorder : PreOrder keeps.
Proof.
  split.
  - intros s. by constructor.
  - intros s1 s2 s3 [R1 S1 O1 P1] [R2 S2 O2 P2]. constructor; [congruence|congruence|by eauto|].
    intros i p Hp Hl. apply P2; [by apply P1|]. rewrite R1, S1. destruct Hl as [(o & Ho & Hd)|Hl]; [|by right].
    left. exists o. split; [by apply O1|done].
Qed.

(** ** Moving a dead block *)
Lemma shift_turn s K a sz l1 y R t :
  gc_ok s (K ++ y :: R) t → (root (gheap s), 0) :: K.*1 = l1 ++ [(a, sz)] →
  let nextchunk := y.1.1 + HDR in
  ∃ s', (if dead (mgc y.2) then
           l ← rd_lock s nextchunk; if l =? 0 then gc_shift (a + HDR) nextchunk s else Ret (s, Some nextchunk)
         else Ret (s, Some nextchunk)) = Ret (s', Some ((slide (a, sz) y).1.1 + HDR)) ∧
    gc_ok s' (K ++ slide (a, sz) y :: R) t ∧ calls s' = calls s ∧ keeps s s'.
Proof.
  intros Hok HK. cbv zeta. unfold slide, is_dead. destruct (dead (mgc y.2)) eqn:Ed; [|by exists s].
  unfold rd_lock. rewrite (ok_obj _ _ _ _ _ Hok). res_cbn. cbn [andb]. destruct (lock y.2 =? 0) eqn:El; [|by exists s].
  destruct (ok_order _ _ _ _ _ Hok) as (HlK & Hroot & HlR & Hpos & HpK & Hle).
  destruct Hok as [[Hc He H0 Hm] Ht Hp Ho]. pose proof Hc as Hc0. rewrite fmap_app, fmap_cons, app_comm_cons, HK, <-app_assoc in Hc. cbn [app] in Hc.
  destruct y as [[b n] oy]. cbn [fst snd] in *.
  destruct (shift_chain (gheap s) _ l1 a sz b n _ t Hc Hpos) as (h' & E & Hc' & Er & Es & Hf).
  assert (Hab : a + HDR + sz ≤ b ∧ root (gheap s) ≤ a ∧ 0 ≤ sz).
  { destruct (chain_split _ _ _ _ _ _ _ Hc) as (H1 & H2 & _). apply Forall_cons in H2 as [H2 _]. split; [exact H2|].
    destruct (chain_bounds _ _ _ _ Hc) as [_ Hb]. apply Forall_app in Hb as [_ Hb]. apply Forall_cons in Hb as [(Hb1 & Hb2 & _) _]. done. }
  unfold gc_shift. rewrite E. res_cbn. cbv zeta. set (s1 := mkGc h' _ _ _).
  destruct (decide (Some (a + HDR + sz + HDR) = Some (b + HDR))) as [Eq|Ne].
  - injection Eq as Eq. assert (Eb : a + HDR + sz = b) by lia. rewrite Eb. exists (mkGc h' (objs s) (ptrs s) (calls s)).
    split; [done|]. split; [|split; [done|by constructor]]. constructor; cbn [gheap objs].
    + rewrite fmap_app, fmap_cons. constructor; rewrite ?Er, ?Es; [|done..]. rewrite app_comm_cons, HK, <-app_assoc. rewrite <-Eb. exact Hc'.
    + rewrite Hf by lia. exact Ht.
    + by rewrite fmap_app, fmap_cons in *.
    + done.
  - assert (Hgap : a + HDR + sz < b). { assert (a + HDR + sz ≠ b) by (intros ?; apply Ne; f_equal; lia). lia. }
    assert (HKa : ∀ x, x ∈ K → x.1.1 ≤ a).
    { intros x Hx. assert (Hin : x.1 ∈ l1 ++ [(a, sz)]).
      { rewrite <-HK. right. apply list_elem_of_fmap. by exists x. }
      apply elem_of_app in Hin as [Hin|Hin]; [|apply list_elem_of_singleton in Hin; rewrite Hin; cbn; lia].
      destruct (chain_split _ _ _ _ _ _ _ Hc) as (H1 & _ & _). rewrite Forall_forall in H1. rewrite Forall_forall in HpK.
      specialize (H1 _ Hin). specialize (HpK _ Hx). unfold HDR in *. lia. }
    assert (HRb : ∀ x, x ∈ R → b + HDR + n ≤ x.1.1) by (rewrite Forall_forall in HlR; done).
    rewrite (proj2 (Ho (b + HDR) oy)); [|exists (b, n, oy); split; [|done]; apply elem_of_app; right; by constructor].
    eexists. split; [reflexivity|]. unfold default, id. cbn [from_option]. split; [|split; [done|]].
    + constructor; cbn [gheap objs vm_update_mutator].
      * rewrite fmap_app, fmap_cons. constructor; rewrite ?Er, ?Es; [|done..]. rewrite app_comm_cons, HK, <-app_assoc. exact Hc'.
      * rewrite Hf by lia. exact Ht.
      * rewrite fmap_app, fmap_cons in *. cbn [fst snd] in *. apply Forall_app in Hp as [H1 H2]. apply Forall_cons in H2 as [_ H2].
        apply Forall_app. split; [done|]. by apply Forall_cons.
      * intros c o. rewrite lookup_insert_Some, lookup_delete_Some, Ho. split.
        -- intros [[<- <-]|(Hne & Hd & x & Hx & <- & <-)].
           ++ exists (a + HDR + sz, n, oy). split; [apply elem_of_app; right; by constructor|done].
           ++ exists x. split; [|done]. apply elem_of_app in Hx as [Hx|Hx]; [apply elem_of_app; by left|].
              apply elem_of_cons in Hx as [->|Hx]; [by cbn in Hd|]. apply elem_of_app. right. by right.
        -- intros (x & Hx & <- & <-). apply elem_of_app in Hx as [Hx|Hx].
           ++ right. specialize (HKa _ Hx). split; [unfold HDR in *; lia|]. split; [unfold HDR in *; lia|]. exists x. split; [apply elem_of_app; by left|done].
           ++ apply elem_of_cons in Hx as [->|Hx]; [by left|]. right. specialize (HRb _ Hx).
              split; [unfold HDR in *; lia|]. split; [unfold HDR in *; lia|]. exists x. split; [apply elem_of_app; right; by right|done].
    + assert (Hby : objs s !! (b + HDR) = Some oy) by (apply Ho; exists (b, n, oy); split; [apply elem_of_app; right; by constructor|done]).
      constructor; cbn [gheap objs ptrs vm_update_mutator]; [done|done| |].
      * intros p o Hp' Hd. assert (Hpb : p ≠ b + HDR) by (intros ->; rewrite Hby in Hp'; injection Hp' as <-; cbn in Ed; congruence).
        assert (Hne : a + HDR + sz + HDR ≠ p).
        { apply Ho in Hp' as (x & Hx & <- & _). apply elem_of_app in Hx as [Hx|Hx]; [specialize (HKa _ Hx)|
          apply elem_of_cons in Hx as [->|Hx]; [cbn [fst snd]|specialize (HRb _ Hx)]]; unfold HDR in *; lia. }
        by rewrite lookup_insert_ne, lookup_delete_ne.
      * intros i p Hp' Hl. rewrite lookup_fmap, Hp'. cbn. f_equal. destruct (Z.eqb_spec p (b + HDR)) as [->|]; [|done]. exfalso.
        destruct Hl as [(o & Hob & Hd)|Hl]; [rewrite Hby in Hob; injection Hob as <-; cbn in Ed; congruence|]. unfold HDR in *. lia.
Qed.

(** ** Freeing a dead block *)
Lemma free_turn fuel s K x R t :
  gc_ok s (K ++ x :: R) t → is_dead x = true → (S (length K) < fuel)%nat →
  ∃ s', gc_free fuel (x.1.1 + HDR) s = Ret s' ∧ gc_ok s' (K ++ R) t ∧
    calls s' = calls s ++ (if destructor x.2 then [x.1.1 + HDR] else []) ∧ keeps s s'.
Proof.
  intros Hok Hd Hf. pose proof (ok_obj _ _ _ _ _ Hok) as Hx.
  destruct (ok_order _ _ _ _ _ Hok) as (HlK & Hroot & HlR & Hpos & HpK & Hle).
  destruct Hok as [Hi Ht Hp Ho]. rewrite fmap_app, fmap_cons in Hi, Hp. destruct x as [[p n] o]. cbn [fst snd] in *.
  destruct (m_free_chain fuel _ _ p n _ t Hi Hp) as (h' & E & Hi' & Er & Hm); [by rewrite length_fmap|].
  assert (Es : heap_size h' = heap_size (gheap s)).
  { unfold m_free in E. destruct (loop _ _ _) as [m| |]; [|done..]. injection E as <-. done. }
  unfold gc_free. rewrite Hx. res_cbn. unfold m_size_chunk, get_size, get_hdr. replace (p + HDR - HDR) with p by lia.
  destruct Hi as [Hc _ _ _]. rewrite app_comm_cons in Hc. destruct (chain_at _ _ _ _ _ _ _ Hc) as (b & Eb & _ & _).
  rewrite Eb. res_cbn. cbn [h_size]. res_cbn. rewrite E. res_cbn. eexists. split; [reflexivity|].
  split; [|split; [cbn; destruct (destructor o); [done|by rewrite app_nil_r]|]].
  - constructor; cbn [gheap objs].
    + rewrite fmap_app. exact Hi'.
    + rewrite Hm by lia. exact Ht.
    + rewrite fmap_app. apply Forall_app in Hp as [H1 H2]. apply Forall_cons in H2 as [_ H2]. apply Forall_app. done.
    + intros c o'. rewrite lookup_delete_Some, Ho. split.
      * intros (Hne & x & Hx' & <- & <-). exists x. split; [|done]. apply elem_of_app in Hx' as [Hx'|Hx']; [apply elem_of_app; by left|].
        apply elem_of_cons in Hx' as [->|Hx']; [done|]. apply elem_of_app. by right.
      * intros (x & Hx' & <- & <-). split.
        -- rewrite Forall_forall in HlK. rewrite Forall_forall in HlR. rewrite Forall_forall in HpK.
           apply elem_of_app in Hx' as [Hx'|Hx']; [specialize (HlK _ Hx'); specialize (HpK _ Hx')|specialize (HlR _ Hx')]; unfold HDR in *; lia.
        -- exists x. split; [|done]. apply elem_of_app in Hx' as [Hx'|Hx']; apply elem_of_app; [by left|right; by right].
  - constructor; cbn [gheap objs ptrs]; [done|done| |done].
    intros q o' Hq Hd'. rewrite lookup_delete_ne; [done|]. intros <-. rewrite Hx in Hq. injection Hq as <-. unfold is_dead in Hd. cbn in Hd. congruence.
Qed.

(** ** The walk *)
Lemma gc_walk fuel t R : ∀ n s K x,
  gc_ok s (K ++ x :: R) t → (length K + length R + 2 ≤ fuel)%nat → (length R < n)%nat →
  ∃ s', loop n (gc_step fuel) (Some (x.1.1 + HDR), s) = Ret s' ∧
    gc_ok s' (K ++ (sweep x R).1) t ∧ calls s' = calls s ++ (sweep x R).2 ∧ keeps s s'.
Proof.
  induction R as [|y R IH]; intros n s K x Hok Hf Hn; (destruct n as [|n]; [lia|]); pose proof (ok_obj _ _ _ _ _ Hok) as Hx;
    destruct x as [[a sz] o] eqn:Ex; rewrite <-Ex in *; (assert (E1 : x.1.1 = a) by by rewrite Ex); (assert (E2 : x.1 = (a, sz)) by by rewrite Ex).
  - exists s. split; [|split; [done|split; [by rewrite app_nil_r|done]]]. apply loop_inr. unfold gc_step. cbn [fst snd].
    unfold rd_mgc. rewrite Hx. res_cbn. rewrite E1. rewrite (ok_last s (K ++ [x]) a sz ((root (gheap s), 0) :: K.*1) t Hok).
    + done.
    + by rewrite fmap_app, <-app_comm_cons, <-E2.
  - assert (Hok2 : gc_ok s ((K ++ [x]) ++ y :: R) t) by by rewrite <-app_assoc.
    assert (HK : (root (gheap s), 0) :: (K ++ [x]).*1 = ((root (gheap s), 0) :: K.*1) ++ [(a, sz)]).
    { by rewrite fmap_app, <-app_comm_cons, <-E2. }
    destruct (shift_turn s (K ++ [x]) a sz _ y R t Hok2 HK) as (s1 & Es & Hok1 & Hc1 & Hk1).
    rewrite <-app_assoc in Hok1. cbn [app] in Hok1. cbn [sweep].
    assert (E3 : slide x.1 y = slide (a, sz) y) by by rewrite E2. rewrite E3. clear E3. set (y' := slide (a, sz) y) in *.
    assert (Hstep : gc_step fuel (Some (x.1.1 + HDR), s) =
      (s' ← (if is_dead x then gc_free fuel (x.1.1 + HDR) s1 else Ret s1); Ret (inl (Some (y'.1.1 + HDR), s')))).
    { unfold gc_step, rd_mgc. cbn [fst snd]. rewrite Hx. res_cbn. rewrite E1, (ok_next s _ a sz _ y R t Hok2 HK). res_cbn.
      rewrite (ok_obj _ _ _ _ _ Hok2). res_cbn. rewrite Es. res_cbn. done. }
    destruct (is_dead x) eqn:Ed.
    + destruct (free_turn fuel s1 K x (y' :: R) t Hok1 Ed) as (s2 & E & Hok3 & Hc2 & Hk2); [cbn in Hf; lia|].
      rewrite E in Hstep. destruct (IH n s2 K y' Hok3) as (s' & El & Hok' & Hc' & Hk'); [cbn in Hf; lia|cbn in Hn; lia|].
      exists s'. split; [by rewrite (loop_inl _ _ _ _ Hstep)|]. cbn [fst snd]. split; [done|].
      split; [by rewrite Hc', Hc2, Hc1, <-app_assoc|]. etrans; [exact Hk1|]. by etrans.
    + destruct (IH n s1 (K ++ [x]) y') as (s' & El & Hok' & Hc' & Hk'); [by rewrite <-app_assoc|rewrite length_app; cbn in *; lia|cbn in Hn; lia|].
      rewrite <-app_assoc in Hok'. exists s'. split; [by rewrite (loop_inl _ _ _ _ Hstep)|]. cbn [fst snd]. split; [done|].
      split; [by rewrite Hc', Hc1|]. by etrans.
Qed.

(** [sweep] keeps the live blocks, in order, and at most the last dead one *)
Lemma filter_slide (P : blk → Prop) `{!∀ b, Decision (P b)} x y R :
  (∀ b c : blk, b.2 = c.2 → P b → P c) → (∀ b, P b → is_dead b = false) → filter P (slide x y :: R) = filter P (y :: R).
Proof.
  intros H2 HP. destruct (slide_same x y) as (E1 & E2 & E3). destruct (is_dead y) eqn:E.
  - rewrite !filter_cons_False; [done|intros Hp; apply HP in Hp; congruence..].
  - by rewrite E3.
Qed.

Definition live_blocks (L : list blk) : list blk := filter (λ b, is_dead b = false) L.

(** the dead blocks that are not the last of the heap *)
Definition garbage (L : list blk) : list blk := filter (λ b, is_dead b = true) (removelast L).

Lemma sweep_live R : ∀ x, live_blocks (sweep x R).1 = live_blocks (x :: R).
Proof.
  induction R as [|y R IH]; intros x; [done|]. cbn [sweep]. unfold live_blocks in *. destruct (is_dead x) eqn:E; cbn [fst].
  - rewrite IH, filter_slide by (done || (intros b c; unfold is_dead; by intros ->)). rewrite (filter_cons_False _ x) by congruence. done.
  - rewrite !(filter_cons_True _ x), IH by done. f_equal. apply filter_slide; [|done]. intros b c. unfold is_dead. by intros ->.
Qed.

Lemma sweep_dead_last R : ∀ x l1 b l2, (sweep x R).1 = l1 ++ b :: l2 → is_dead b = true → l2 = [].
Proof.
  induction R as [|y R IH]; intros x l1 b l2 E Hd; cbn [sweep] in E.
  - destruct l1 as [|? l1]; [by injection E as _ <-|]. destruct l1; done.
  - destruct (is_dead x) eqn:Ex; cbn [fst] in E; [by apply (IH _ _ _ _ E)|].
    destruct l1 as [|c l1]; injection E as -> E; [congruence|]. by apply (IH _ _ _ _ E).
Qed.

(** the destructors that one collection calls *)
Definition destructions (L : list blk) : nat := length (filter (λ b, destructor b.2 = true) (garbage L)).

Lemma destructions_cons x y R :
  destructions (x :: y :: R) = (if is_dead x && destructor x.2 then S (destructions (y :: R)) else destructions (y :: R)).
Proof.
  unfold destructions, garbage. change (removelast (x :: y :: R)) with (x :: removelast (y :: R)).
  destruct (is_dead x) eqn:E; [rewrite filter_cons_True by done|by rewrite filter_cons_False by congruence].
  destruct (destructor x.2) eqn:Ed; [by rewrite filter_cons_True|by rewrite filter_cons_False by congruence].
Qed.

Lemma destructions_slide x y R : destructions (slide x y :: R) = destructions (y :: R).
Proof.
  destruct R as [|z R]; [done|]. rewrite !destructions_cons. destruct (slide_same x y) as (-> & -> & _). done.
Qed.

Lemma sweep_calls R : ∀ x, length (sweep x R).2 = destructions (x :: R).
Proof.
  induction R as [|y R IH]; intros x; [done|]. cbn [sweep]. rewrite destructions_cons, <-(destructions_slide x.1 y), <-IH.
  destruct (is_dead x); cbn [snd andb]; [|done]. rewrite length_app. by destruct (destructor x.2).
Qed.

(** the byte behind the root, the counter of an object that is not there *)
Definition root_safe (s : gcs) : bool :=
  match header_byte s (m_first_chunk (gheap s)) 0 with Ret m => negb (dead m) | _ => false end.

Lemma gc_from_root (n fuel : nat) (s : gcs) (L : list blk) (t : Z) :
  gc_ok s L t → root_safe s = true → (length L + 2 ≤ fuel)%nat → (length L < n)%nat →
  ∃ s', loop n (gc_step fuel) (Some (m_first_chunk (gheap s)), s) = Ret s' ∧
    gc_ok s' (sweep_heap (root (gheap s)) L).1 t ∧ calls s' = calls s ++ (sweep_heap (root (gheap s)) L).2 ∧ keeps s s'.
Proof.
  intros Hok Hr Hf Hn. assert (Hroot : objs s !! m_first_chunk (gheap s) = None).
  { destruct (objs s !! _) as [o|] eqn:E; [|done]. exfalso. apply (go_objs _ _ _ Hok) in E as (b & Hb & Ea & _).
    apply list_elem_of_split in Hb as (l1 & l2 & ->). destruct (ok_order _ _ _ _ _ Hok) as (_ & H & _).
    unfold m_first_chunk, HDR in *. lia. }
  unfold root_safe in Hr. destruct n as [|n]; [lia|].
  assert (Hm : rd_mgc s (m_first_chunk (gheap s)) = header_byte s (m_first_chunk (gheap s)) 0) by (unfold rd_mgc; by rewrite Hroot).
  destruct (header_byte s (m_first_chunk (gheap s)) 0) as [m| |] eqn:Eh; [|done..]. apply negb_true_iff in Hr.
  destruct L as [|y R].
  - exists s. split; [|split; [done|split; [by rewrite app_nil_r|done]]]. apply loop_inr. unfold gc_step. cbn [fst snd].
    rewrite Hm. res_cbn. unfold m_first_chunk. rewrite (ok_last s [] (root (gheap s)) 0 [] t Hok eq_refl). done.
  - cbn [sweep_heap]. set (y' := slide (root (gheap s), 0) y).
    destruct (shift_turn s [] (root (gheap s)) 0 [] y R t Hok eq_refl) as (s1 & Es & Hok1 & Hc1 & Hk1). fold y' in Es, Hok1. cbn [app] in Hok1.
    assert (Hstep : gc_step fuel (Some (m_first_chunk (gheap s)), s) = Ret (inl (Some (y'.1.1 + HDR), s1))).
    { pose proof (ok_next s [] (root (gheap s)) 0 [] y R t Hok eq_refl) as Hnx. fold (m_first_chunk (gheap s)) in Hnx, Es.
      unfold gc_step. cbn [fst snd]. rewrite Hm. res_cbn. rewrite Hnx. res_cbn. unfold rd_mgc.
      rewrite (ok_obj s [] y R t Hok). res_cbn. rewrite Es. res_cbn. by rewrite Hr. }
    cbn [length] in Hf, Hn. destruct (gc_walk fuel t R n s1 [] y' Hok1) as (s' & El & Hok' & Hc' & Hk'); [cbn; lia|lia|].
    exists s'. split; [by rewrite (loop_inl _ _ _ _ Hstep)|]. split; [exact Hok'|]. split; [by rewrite Hc', Hc1|]. by etrans.
Qed.

(** C29: The garbage collector. On a heap in use whose first size does not look
    like a counter, the walk ends. It frees every object with reference counter
    zero but the last one of the heap, and calls the destructor of each that has
    one; live objects keep their place, their contents and the cells that point
    to them, as do all cells that hold no address of the heap; the heap stays
    well formed. *)
Theorem garbage_collect_spec (fuel : nat) (s : gcs) (L : list blk) (t : Z) :
  gc_ok s L t → root_safe s = true → (length L + 2 < fuel)%nat →
  ∃ s' L', vm_garbage_collect fuel s = Ret s' ∧ gc_ok s' L' t ∧ keeps s s' ∧
    live_blocks L' = live_blocks L ∧ (∀ l1 b l2, L' = l1 ++ b :: l2 → is_dead b = true → l2 = []) ∧
    ∃ cs, calls s' = calls s ++ cs ∧ length cs = destructions L.
Proof.
  intros Hok Hr Hf. destruct (gc_from_root fuel fuel s L t Hok Hr ltac:(lia) ltac:(lia)) as (s' & E & Hok' & Hc & Hk).
  exists s', (sweep_heap (root (gheap s)) L).1. split; [exact E|]. split; [done|]. split; [done|].
  destruct L as [|y R]; [split; [done|split; [by intros []|by eexists]]|]. unfold sweep_heap in *.
  set (y' := slide (root (gheap s), 0) y) in *. destruct (slide_same (root (gheap s), 0) y) as (E1 & E2 & E3). fold y' in E1, E2, E3.
  split; [|split; [apply sweep_dead_last|]].
  - rewrite sweep_live. apply filter_slide; [|done]. intros b c. unfold is_dead. by intros ->.
  - eexists. split; [exact Hc|]. rewrite sweep_calls. apply destructions_slide.
Qed.

(** ** Samples *)
Lemma objs_of_list (L : list blk) (c : Z) (o : vobj) :
  NoDup ((λ b : blk, b.1.1 + HDR) <$> L) →
  (list_to_map ((λ b : blk, (b.1.1 + HDR, b.2)) <$> L) : gmap Z vobj) !! c = Some o ↔ ∃ b, b ∈ L ∧ b.1.1 + HDR = c ∧ b.2 = o.
Proof.
  intros Hn. rewrite <-elem_of_list_to_map.
  - rewrite list_elem_of_fmap. split; [intros (b & [= -> ->] & Hb); by exists b|intros (b & Hb & <- & <-); by exists b].
  - rewrite <-list_fmap_compose. exact Hn.
Qed.

(** a heap with two blocks; the second starts eight bytes behind the first *)
Definition two_blocks (n : Z) : heap :=
  mkHeap 16 1000 (put_next 300 None (put_size 300 0 (put_next 200 (Some 300) (put_size 200 48
    (put_next 32 (Some 200) (put_size 32 n (put_next 16 (Some 32) (put_size 16 0 ∅)))))))).

Definition sample_blocks (n : Z) : list blk := [(32, n, mkObj 0x80 0 true); (200, 48, mkObj 0x81 0 true)].

Definition sample_gc (n : Z) : gcs :=
  mkGc (two_blocks n) (list_to_map ((λ b : blk, (b.1.1 + HDR, b.2)) <$> sample_blocks n)) {[ 1999 := 216 ]} [].

Lemma sample_gc_ok n : 0 < n ≤ 152 → gc_ok (sample_gc n) (sample_blocks n) 300.
Proof.
  intros Hn. constructor.
  - constructor; [|vm_compute; congruence|vm_compute; congruence|vm_compute; congruence]. cbn [sample_gc gheap].
    econstructor; [vm_compute; reflexivity|lia|cbn; unfold HDR; lia|]. econstructor; [vm_compute; reflexivity|lia|unfold HDR; lia|].
    econstructor; [vm_compute; reflexivity|lia|unfold HDR; lia|]. eapply chain_end. vm_compute. reflexivity.
  - vm_compute. reflexivity.
  - repeat (apply Forall_cons; split; [cbn; lia|]). by apply Forall_nil.
  - intros c o. apply objs_of_list. cbn. apply NoDup_cons. split; [|apply NoDup_singleton]. rewrite list_elem_of_singleton. vm_compute. congruence.
Qed.

Lemma garbage_collect_spec_witness :
  ∃ s' L', vm_garbage_collect 5 (sample_gc 48) = Ret s' ∧ gc_ok s' L' 300 ∧ keeps (sample_gc 48) s' ∧
    live_blocks L' = live_blocks (sample_blocks 48) ∧ (∀ l1 b l2, L' = l1 ++ b :: l2 → is_dead b = true → l2 = []) ∧
    ∃ cs, calls s' = calls (sample_gc 48) ++ cs ∧ length cs = destructions (sample_blocks 48).
Proof.
  apply (garbage_collect_spec 5 (sample_gc 48) (sample_blocks 48) 300).
  - apply sample_gc_ok. lia.
  - vm_compute. reflexivity.
  - cbn. lia.
Defined.

(** An object of eighty-eight bytes at the front of the heap (with its header
    128 bytes): the size is taken for the counter of a dead object, whose
    destructor is called at an address that lies in the first object. *)
Lemma collector_calls_data : vm_garbage_collect 5 (sample_gc 128) = Undef.
Proof. vm_compute. reflexivity. Qed.

(** a heap that nothing was allocated from yet: the size of its last header was
    never set *)
Lemma collector_on_new_heap : vm_garbage_collect 5 (mkGc (m_init_alloc (mkHeap 16 1000 ∅)) ∅ ∅ []) = Undef.
Proof. vm_compute. reflexivity. Qed.

(** ** Immutable objects (vm_stack_apis.c, vm_stack.c)

    Large results of system calls are allocated with [malloc] and chained from
    [object_list]. *)
Record immutable := mkImm { imgc : Z; inext : option Z }.

#[export] Instance immutable_node : Node immutable := {
  nx := inext;
  set_nx p n := mkImm (imgc n) p;
  nx_set_nx _ _ := eq_refl
}.

Definition vm_add_immutable_object (fuel : nat) (obj : Z) (x : option Z * store immutable) : res (option Z * store immutable) :=
  let '(object_list, s) := x in
  match object_list with
  | None => Ret (Some obj, s)
  | Some head =>
      iterator ← loop fuel (last_step s) head;
      s' ← upd iterator (set_nx (Some obj)) s;
      Ret (object_list, s')
  end.

(** one turn of the loop of [vm_gc_immutable_object]; the assignment to
    [prev_iterator] instead of its [next] field changes nothing *)
Definition immutable_step (x : option Z * bool * option Z * store immutable)
    : res (option Z * bool * option Z * store immutable + option Z * store immutable) :=
  let '(object_list, first, iterator, s) := x in
  match iterator with
  | None => Ret (inr (object_list, s))
  | Some it =>
      n ← deref s it;
      let object_list := if dead (imgc n) && first then nx n else object_list in
      s' ← (if dead (imgc n) then free it s else Ret s);
      Ret (inl (object_list, false, nx n, s'))
  end.

Definition vm_gc_immutable_object (fuel : nat) (x : option Z * store immutable) : res (option Z * store immutable) :=
  loop fuel immutable_step (x.1, true, x.1, x.2).

(** nothing happens while all are referenced *)
Lemma gc_immutable_live fuel s h l :
  lseg s h l None → Forall (λ x, dead (imgc x.2) = false) l → (length l < fuel)%nat →
  vm_gc_immutable_object fuel (h, s) = Ret (h, s).
Proof.
  intros Hl Hf Hn. unfold vm_gc_immutable_object. cbn [fst snd].
  assert (H : ∀ b k p, lseg s p k None → Forall (λ x, dead (imgc x.2) = false) k → ∀ n, (length k < n)%nat →
    loop n immutable_step (h, b, p, s) = Ret (h, s)); [|by apply (H true l h)].
  clear. intros b k p Hk. revert b. remember None as q eqn:Eq. induction Hk as [p|a n k q Ha Hk IH]; intros b Hf m Hm; subst.
  - destruct m as [|m]; [cbn in Hm; lia|]. by apply loop_inr.
  - destruct m as [|m]; [cbn in Hm; lia|]. apply Forall_cons in Hf as [Hd Hf]. cbn in Hd.
    rewrite (loop_inl _ _ _ (h, false, nx n, s)); [apply IH; [done|done|cbn in Hm; lia]|].
    unfold immutable_step, deref. rewrite Ha. res_cbn. by rewrite Hd.
Qed.

(** Two objects, the second one dead: it is freed and stays in the list, so the
    next collection reads freed memory. *)
Lemma immutable_dangles :
  let s := mkStore {[ 1 := mkImm 0x81 (Some 2); 2 := mkImm 0x80 None ]} 3 in
  (∃ s', vm_gc_immutable_object 3 (Some 1, s) = Ret (Some 1, s') ∧ vm_gc_immutable_object 3 (Some 1, s') = Undef).
Proof. eexists. split; vm_compute; reflexivity. Qed.
