(* ===== verification/Stream.v ===== *)
(** * Byte streams (StackLib/StackVM/vm_stream.c)

    A stream of the VM: a chain of pages of 4096 bytes, written at its last
    page and read back as one block. Pages live in a store (Links.v); the
    [stream_file] and what the console type prints are carried beside it. *)
From S2P Require Import Prelude Links.

Definition MAX_PAGE_SIZE : Z := 4096.
Definition STREAM_TYPE_CONSOLE : Z := 1.
Definition STREAM_TYPE_MEMORY : Z := 2.

(** [stream_page]; [bytes] holds [MAX_PAGE_SIZE] bytes *)
Record page := mkPage { p_size : Z; page_size : Z; p_next : option Z; bytes : buf }.

#[export] Instance page_node : Node page := {
  nx := p_next;
  set_nx q p := mkPage (p_size p) (page_size p) q (bytes p);
  nx_set_nx _ _ := eq_refl;
}.

Record stream_file := mkFile {
  ftype : Z; first : option Z; current : option Z; foffset : Z }.

(** The memory a stream works on: its pages, the file [file] points to (NULL
    is [None]) and the lines printed. *)
Record world := mkWorld { pages : store page; file : option stream_file; out : list (list Z) }.

(** ** Operations *)
Definition vm_stream_create (fuel : nat) (stream : option Z) (s : store page) : res (Z * store page) :=
  let r := malloc (mkPage 0 MAX_PAGE_SIZE None ∅) s in
  match stream with
  | None => Ret r
  | Some iterator =>
      b ← loop fuel (last_step r.2) iterator;
      s' ← upd b (set_nx (Some r.1)) r.2;
      Ret (r.1, s')
  end.

Definition vm_stream_release (fuel : nat) (stream : option Z) (s : store page) : res (store page) :=
  loop fuel free_step (stream, s).

Definition vm_stream_open (fuel : nat) (type : Z) (w : world) : res world :=
  r ← vm_stream_create fuel None (pages w);
  Ret (mkWorld r.2 (Some (mkFile type (Some r.1) (Some r.1) 0)) (out w)).

(** [memcpy(current->bytes + current->size, ...)] and the advance of [size] *)
Definition page_write (l : list Z) (p : page) : res page :=
  guardb (p_size p + Z.of_nat (length l) <=? MAX_PAGE_SIZE) ≫= λ _,
  Ret (mkPage (u64 (p_size p + Z.of_nat (length l))) (page_size p) (p_next p) (bstore (bytes p) (p_size p) l)).

Definition write_at (a : Z) (l : list Z) (s : store page) : res (store page) :=
  p ← deref s a; p' ← page_write l p; Ret (set_cells (<[a := p']> (cells s)) s).

(** the source operand of a [memcpy] of [n] bytes at [buffer + off] *)
Definition src_bytes (buffer : list Z) (off n : Z) : res (list Z) :=
  guardb (off + n <=? Z.of_nat (length buffer)) ≫= λ _, Ret (take (Z.to_nat n) (drop (Z.to_nat off) buffer)).

Definition advance (f : stream_file) (c n : Z) : stream_file :=
  mkFile (ftype f) (first f) (Some c) (u64 (foffset f + n)).

(** one turn of the loop that writes page by page *)
Definition write_chunk (fuel : nat) (buffer : list Z) (size : Z) (st : Z * Z * stream_file * store page)
    : res (Z * Z * stream_file * store page + stream_file * store page) :=
  let '(offset, cur, f, s) := st in
  if offset <? size then
    r ← vm_stream_create fuel (Some cur) s;
    let wlen := if MAX_PAGE_SIZE <? u64 (size - offset) then MAX_PAGE_SIZE else u64 (size - offset) in
    l ← src_bytes buffer offset wlen;
    s' ← write_at r.1 l r.2;
    Ret (inl (u64 (offset + MAX_PAGE_SIZE), r.1, advance f r.1 wlen, s'))
  else Ret (inr (f, s)).

Definition vm_stream_write (fuel : nat) (w : world) (buffer : list Z) (size : Z) : res world :=
  match file w with
  | None => Ret w
  | Some f =>
      match current f with
      | None => Ret w
      | Some cur =>
          if ftype f =? STREAM_TYPE_CONSOLE then
            s ← from_option_ub (c_string buffer); Ret (mkWorld (pages w) (file w) (out w ++ [s]))
          else if ftype f =? STREAM_TYPE_MEMORY then
            p ← deref (pages w) cur;
            if size <? u64 (page_size p - p_size p) then
              l ← src_bytes buffer 0 size;
              s ← write_at cur l (pages w);
              Ret (mkWorld s (Some (advance f cur size)) (out w))
            else
              r ← loop fuel (write_chunk fuel buffer size) (0, cur, f, pages w);
              Ret (mkWorld r.2 (Some r.1) (out w))
          else Ret w
      end
  end.

Definition vm_stream_get_count (w : world) : res Z :=
  f ← from_option_ub (file w); Ret (foffset f).

(** one turn of the copying loop: iterator, offset and destination *)
Definition get_bytes_step (s : store page) (st : option Z * Z * buf) : res (option Z * Z * buf + Z * buf) :=
  let '(iterator, offset, dst) := st in
  match iterator with
  | None => Ret (inr (offset, dst))
  | Some a =>
      p ← deref s a;
      Ret (inl (p_next p, u64 (offset + p_size p),
                bstore dst offset (bslice (bytes p) 0 (Z.to_nat (p_size p)))))
  end.

Definition vm_stream_get_bytes (fuel : nat) (w : world) (dst : buf) : res (Z * buf) :=
  f ← from_option_ub (file w);
  loop fuel (get_bytes_step (pages w)) (first f, 0, dst).

Definition vm_stream_close (fuel : nat) (w : world) : res world :=
  match file w with
  | None => Ret w
  | Some f => s ← vm_stream_release fuel (first f) (pages w); Ret (mkWorld s None (out w))
  end.

(** ** The contents of a stream *)
Definition content (p : page) : list Z := bslice (bytes p) 0 (Z.to_nat (p_size p)).

Record page_ok (p : page) : Prop := {
  po_size : 0 ≤ p_size p ≤ MAX_PAGE_SIZE;
  po_page : page_size p = MAX_PAGE_SIZE;
  po_bytes : buf_ok (bytes p)
}.

(** The memory stream [w], whose pages are at the addresses of [ps] and [a]
    (the current one), holds the bytes [l]. *)
Record stream_at (w : world) (f : stream_file) (ps : list (Z * page)) (a : Z) (p : page) (l : list Z) : Prop := {
  sa_file : file w = Some f;
  sa_type : ftype f = STREAM_TYPE_MEMORY;
  sa_chain : lseg (pages w) (first f) (ps ++ [(a, p)]) None;
  sa_current : current f = Some a;
  sa_pages : Forall (λ x, page_ok x.2) (ps ++ [(a, p)]);
  sa_content : concat ((λ x, content x.2) <$> ps ++ [(a, p)]) = l;
  sa_count : foffset f = Z.of_nat (length l);
  sa_store : store_ok (pages w)
}.

Definition stream_ok (w : world) (l : list Z) : Prop := ∃ f ps a p, stream_at w f ps a p l.

(** A page never used. *)
Definition new_page : page := mkPage 0 MAX_PAGE_SIZE None ∅.

Lemma new_page_ok : page_ok new_page.
Proof. constructor; cbn; [unfold MAX_PAGE_SIZE; lia|done|apply buf_ok_empty]. Qed.

(** writing to a page that has room *)
Lemma page_write_ok p l :
  page_ok p → Forall is_byte l → p_size p + Z.of_nat (length l) ≤ MAX_PAGE_SIZE →
  ∃ p', page_write l p = Ret p' ∧ page_ok p' ∧ p_next p' = p_next p ∧ content p' = content p ++ l.
Proof.
  intros [Hs Hp Hb] Hl Hle. unfold page_write. rewrite (proj2 (Z.leb_le _ _)) by lia. res_cbn.
  eexists. split; [done|]. rewrite u64_id by (unfold MAX_PAGE_SIZE in *; lia).
  split; [|split; [done|]].
  - constructor; cbn; [lia|done|by apply buf_ok_bstore].
  - unfold content. cbn [bytes p_size].
    replace (Z.to_nat (p_size p + Z.of_nat (length l)))
      with (length (bslice (bytes p) 0 (Z.to_nat (p_size p)) ++ l))
      by (rewrite length_app, length_bslice; lia).
    apply region_to_bslice, region_app. split.
    + apply region_bstore_ne; [apply region_bslice|]. rewrite length_bslice. lia.
    + rewrite length_bslice. replace (0 + Z.of_nat (Z.to_nat (p_size p))) with (p_size p) by lia.
      by apply region_bstore.
Qed.

Lemma src_bytes_all buffer : src_bytes buffer 0 (Z.of_nat (length buffer)) = Ret buffer.
Proof.
  unfold src_bytes. rewrite (proj2 (Z.leb_le _ _)) by lia. res_cbn. change (Z.to_nat 0) with 0%nat.
  by rewrite drop_0, Nat2Z.id, firstn_all.
Qed.

(** writing at the current page of a stream *)
Lemma write_current s p0 ps a p l :
  lseg s p0 (ps ++ [(a, p)]) None → page_ok p → Forall is_byte l → store_ok s →
  p_size p + Z.of_nat (length l) ≤ MAX_PAGE_SIZE →
  ∃ p' s', write_at a l s = Ret s' ∧ lseg s' p0 (ps ++ [(a, p')]) None ∧ page_ok p' ∧
    content p' = content p ++ l ∧ store_ok s' ∧ brk s' = brk s ∧
    (∀ b, b ∉ (ps ++ [(a, p)]).*1 → cells s' !! b = cells s !! b).
Proof.
  intros Hc Hp Hl Hok Hle. destruct (page_write_ok p l Hp Hl Hle) as (p' & Hw & Hp' & Hn & Hcont).
  pose proof (lseg_lookup _ _ _ _ a p Hc ltac:(set_solver)) as Ha.
  exists p', (set_cells (<[a := p']> (cells s)) s). unfold write_at. rewrite (deref_some _ _ _ Ha). res_cbn.
  rewrite Hw. res_cbn. split; [done|]. split; [|split; [done|split; [done|split; [|split; [done|]]]]].
  - pose proof (lseg_nodup _ _ _ Hc) as Hnd. rewrite fmap_app in Hnd.
    apply NoDup_app in Hnd as (_ & Hd & _). apply lseg_app in Hc as (r & H1 & H2).
    inversion H2 as [|? ? ? ? _ Hr]; subst. apply lseg_app. exists (Some a). split.
    + apply lseg_frame_insert; [done|]. intros Hin. apply (Hd a Hin). cbn. set_solver.
    + constructor; [cbn; by rewrite lookup_insert_eq|]. cbn. rewrite Hn.
      pose proof (lseg_nil_inv _ _ _ Hr) as E. cbn in E. rewrite E. constructor.
  - by apply (store_ok_upd s a p (λ _, p')).
  - intros b Hb. cbn. apply lookup_insert_ne. intros <-. apply Hb. rewrite fmap_app. cbn. set_solver.
Qed.

(** a new page behind the current one *)
Lemma create_behind fuel s p0 ps a p :
  lseg s p0 (ps ++ [(a, p)]) None → store_ok s → (0 < fuel)%nat →
  ∃ p' s', vm_stream_create fuel (Some a) s = Ret (brk s, s') ∧
    lseg s' p0 ((ps ++ [(a, p')]) ++ [(brk s, new_page)]) None ∧ content p' = content p ∧
    (page_ok p → page_ok p') ∧ store_ok s' ∧ brk s' = brk s + 1 ∧
    (∀ b, b ∉ (ps ++ [(a, p)]).*1 → b ≠ brk s → cells s' !! b = cells s !! b).
Proof.
  intros Hc Hok Hf. exists (set_nx (Some (brk s)) p).
  pose proof (lseg_lookup _ _ _ _ a p Hc ltac:(set_solver)) as Ha.
  assert (Hab : a < brk s) by (apply Hok; eauto).
  pose proof (lseg_malloc s _ _ _ new_page Hok Hc) as Hc'.
  eexists. unfold vm_stream_create. cbn [malloc fst snd].
  assert (Ha' : cells (malloc new_page s).2 !! a = Some p) by (cbn; rewrite lookup_insert_ne by lia; done).
  destruct fuel as [|fuel]; [lia|]. pose proof Hc' as Hca. apply lseg_app in Hca as (r & _ & H2).
  inversion H2 as [|? ? ? ? _ Hr]; subst. pose proof (lseg_nil_inv _ _ _ Hr) as Hn.
  fold new_page. change (mkStore (<[brk s:=new_page]> (cells s)) (brk s + 1)) with (malloc new_page s).2.
  rewrite (loop_inr _ _ _ a) by (unfold last_step; rewrite (deref_some _ _ _ Ha'); res_cbn; by rewrite Hn).
  res_cbn. rewrite (upd_some _ _ _ _ Ha'). split; [done|].
  rewrite <-app_assoc. split; [|split; [done|split; [|split; [|split; [done|]]]]].
  - apply lseg_snoc; [done|cbn; by rewrite lookup_insert_eq|done|]. by eapply lseg_fresh.
  - intros [H1 H3 H4]. by constructor.
  - by apply store_ok_upd with (n := p); [apply store_ok_malloc|].
  - intros b Hb Hbn. cbn. rewrite lookup_insert_ne by (intros <-; apply Hb; rewrite fmap_app; cbn; set_solver).
    by rewrite lookup_insert_ne.
Qed.

(** The chunks still to write, from [offset] on. *)
Lemma write_chunks fuel0 buffer p0 l f0 fuel offset s a p ps f :
  (0 < fuel0)%nat → Forall is_byte buffer → Z.of_nat (length l + length buffer) < 2 ^ 63 →
  first f = p0 → ftype f = f0 → current f = Some a →
  lseg s p0 (ps ++ [(a, p)]) None → Forall (λ x, page_ok x.2) (ps ++ [(a, p)]) → store_ok s →
  concat ((λ x, content x.2) <$> ps ++ [(a, p)]) = l ++ take (Z.to_nat offset) buffer →
  foffset f = Z.of_nat (length l + length (take (Z.to_nat offset) buffer)) →
  0 ≤ offset < 2 ^ 63 + MAX_PAGE_SIZE → (length buffer - Z.to_nat offset < fuel)%nat →
  ∃ f' s' ps' a' p',
    loop fuel (write_chunk fuel0 buffer (Z.of_nat (length buffer))) (offset, a, f, s) = Ret (f', s') ∧
    first f' = p0 ∧ ftype f' = f0 ∧ current f' = Some a' ∧
    lseg s' p0 (ps' ++ [(a', p')]) None ∧ Forall (λ x, page_ok x.2) (ps' ++ [(a', p')]) ∧ store_ok s' ∧
    concat ((λ x, content x.2) <$> ps' ++ [(a', p')]) = l ++ buffer ∧
    foffset f' = Z.of_nat (length l + length buffer).
Proof.
  intros Hf0 Hb Hlen. revert offset s a p ps f. induction fuel as [|fuel IH];
    intros offset s a p ps f Hf1 Hf2 Hf3 Hc Hps Hok Hcont Hoff Ho Hfuel; [lia|].
  destruct (Z.ltb_spec offset (Z.of_nat (length buffer))) as [Hlt|Hge].
  2:{ rewrite firstn_all2 in Hcont, Hoff by lia. exists f, s, ps, a, p. split; [|by repeat split].
      apply loop_inr. unfold write_chunk. by rewrite (proj2 (Z.ltb_ge _ _)) by lia. }
  set (n := if MAX_PAGE_SIZE <? Z.of_nat (length buffer) - offset then MAX_PAGE_SIZE
            else Z.of_nat (length buffer) - offset).
  assert (Hn : 0 ≤ n ≤ MAX_PAGE_SIZE ∧ offset + n ≤ Z.of_nat (length buffer) ∧
               (n = MAX_PAGE_SIZE ∨ offset + n = Z.of_nat (length buffer))).
  { unfold n, MAX_PAGE_SIZE. destruct (Z.ltb_spec 4096 (Z.of_nat (length buffer) - offset)); lia. }
  set (chunk := take (Z.to_nat n) (drop (Z.to_nat offset) buffer)).
  assert (Hcl : Z.of_nat (length chunk) = n).
  { unfold chunk. rewrite length_take, length_drop. lia. }
  destruct (create_behind fuel0 s p0 ps a p Hc Hok Hf0)
    as (p1 & s1 & Hcr & Hc1 & Hcont1 & Hp1 & Hok1 & _ & _).
  destruct (write_current s1 p0 (ps ++ [(a, p1)]) (brk s) new_page chunk Hc1 new_page_ok)
    as (p2 & s2 & Hw & Hc2 & Hp2 & Hcont2 & Hok2 & _ & _); [|done|cbn; lia|].
  { unfold chunk. by apply Forall_take, Forall_drop. }
  assert (Htake : take (Z.to_nat offset) buffer ++ chunk = take (Z.to_nat (offset + n)) buffer).
  { unfold chunk. rewrite <-(firstn_skipn (Z.to_nat offset) buffer) at 3.
    rewrite firstn_app, length_take, firstn_firstn. replace (Nat.min (Z.to_nat (offset + n)) (Z.to_nat offset)) with (Z.to_nat offset) by lia.
    do 2 f_equal. lia. }
  assert (Htake' : take (Z.to_nat (offset + n)) buffer = take (Z.to_nat (offset + MAX_PAGE_SIZE)) buffer).
  { clear -Hn. clearbody n. destruct Hn as (H1 & H2 & [H3|H3]); [by rewrite H3|].
    by rewrite !firstn_all2 by lia. }
  edestruct (IH (offset + MAX_PAGE_SIZE) s2 (brk s) p2 (ps ++ [(a, p1)]) (advance f (brk s) n))
    as (f' & s' & ps' & a' & p' & Hl & Hrest); [..|exists f', s', ps', a', p'; split; [|exact Hrest]]; try done.
  - apply Forall_app in Hps as [Hps1 Hps2]. rewrite <-app_assoc. apply Forall_app. split; [done|].
    apply Forall_cons in Hps2 as [Hpa _]. cbn in Hpa. repeat (apply Forall_cons; split; [by auto|]). by apply Forall_nil.
  - rewrite fmap_app, concat_app. cbn. rewrite Hcont2, app_nil_r. change (content new_page) with ([] : list Z).
    rewrite fmap_app, concat_app in *. cbn in *. rewrite Hcont1. rewrite !app_nil_r in *. rewrite Hcont, <-app_assoc. cbn.
    by rewrite Htake, Htake'.
  - cbn. rewrite Hoff, <-Htake', <-Htake, length_app. rewrite u64_id; rewrite ?length_take; unfold MAX_PAGE_SIZE in *; lia.
  - unfold MAX_PAGE_SIZE in *. lia.
  - unfold MAX_PAGE_SIZE in *. lia.
  - erewrite loop_inl; [exact Hl|]. unfold write_chunk. rewrite (proj2 (Z.ltb_lt _ _)) by lia. rewrite Hcr. res_cbn.
    rewrite (u64_id (Z.of_nat (length buffer) - offset)) by lia. fold n. unfold src_bytes.
    rewrite (proj2 (Z.leb_le _ _)) by lia. res_cbn. fold chunk. rewrite Hw. res_cbn.
    rewrite (u64_id (offset + MAX_PAGE_SIZE)) by (unfold MAX_PAGE_SIZE in *; lia). done.
Qed.

Lemma vm_stream_write_ok fuel w l buffer :
  stream_ok w l → Forall is_byte buffer → Z.of_nat (length l + length buffer) < 2 ^ 63 →
  (length buffer < fuel)%nat →
  ∃ w', vm_stream_write fuel w buffer (Z.of_nat (length buffer)) = Ret w' ∧ stream_ok w' (l ++ buffer) ∧ out w' = out w.
Proof.
  intros (f & ps & a & p & [Hf Ht Hc Hcur Hps Hcont Hcnt Hok]) Hb Hlen Hfuel.
  unfold vm_stream_write. rewrite Hf, Hcur, Ht. cbn [Z.eqb STREAM_TYPE_CONSOLE STREAM_TYPE_MEMORY Pos.eqb].
  pose proof (lseg_lookup _ _ _ _ a p Hc ltac:(set_solver)) as Ha. rewrite (deref_some _ _ _ Ha). res_cbn.
  pose proof Hps as Hps'. apply Forall_app in Hps' as [Hps1 Hpa]. apply Forall_cons in Hpa as [Hpa _]. cbn in Hpa.
  pose proof Hpa as [Hsz Hpsz _]. rewrite Hpsz, u64_id by (unfold MAX_PAGE_SIZE in *; lia).
  destruct (Z.ltb_spec (Z.of_nat (length buffer)) (MAX_PAGE_SIZE - p_size p)) as [Hlt|Hge].
  - rewrite src_bytes_all. res_cbn.
    destruct (write_current (pages w) _ ps a p buffer Hc Hpa Hb Hok)
      as (p' & s' & -> & Hc' & Hp' & Hcont' & Hok' & _ & _); [lia|]. res_cbn.
    eexists. split; [done|]. split; [|done]. exists (advance f a (Z.of_nat (length buffer))), ps, a, p'.
    constructor; cbn; try done.
    + apply Forall_app. split; [done|]. apply Forall_cons. split; [done|by apply Forall_nil].
    + rewrite fmap_app, concat_app in *. cbn in *. rewrite app_nil_r in *. by rewrite Hcont', app_assoc, Hcont.
    + rewrite Hcnt, length_app, u64_id; lia.
  - edestruct (write_chunks fuel buffer (first f) l STREAM_TYPE_MEMORY fuel 0 (pages w) a p ps f)
      as (f' & s' & ps' & a' & p' & -> & H1 & H2 & H3 & H4 & H5 & H6 & H7 & H8); try done; try lia.
    + rewrite Hcont. by rewrite app_nil_r.
    + rewrite Hcnt. f_equal. apply plus_n_O.
    + res_cbn. eexists. split; [done|]. split; [|done]. exists f', ps', a', p'.
      constructor; cbn; try done. { by rewrite H1. } { rewrite H8, length_app. lia. }
Qed.

Lemma vm_stream_open_ok fuel w :
  store_ok (pages w) → ∃ w', vm_stream_open fuel STREAM_TYPE_MEMORY w = Ret w' ∧ stream_ok w' [] ∧ out w' = out w.
Proof.
  intros Hok. eexists. split; [reflexivity|]. split; [|done].
  eexists _, [], (brk (pages w)), new_page. constructor; cbn; try done.
  - constructor; [cbn; by rewrite lookup_insert_eq|constructor].
  - apply Forall_cons. split; [apply new_page_ok|by apply Forall_nil].
  - by apply (store_ok_malloc (pages w)).
Qed.

Lemma get_bytes_walk s p l fuel off dst :
  lseg s p l None → Forall (λ x, page_ok x.2) l → (length l < fuel)%nat → 0 ≤ off →
  off + Z.of_nat (length (concat ((λ x, content x.2) <$> l))) < 2 ^ 63 →
  ∃ dst', loop fuel (get_bytes_step s) (p, off, dst) =
    Ret (off + Z.of_nat (length (concat ((λ x, content x.2) <$> l))), dst') ∧
    region dst' off (concat ((λ x, content x.2) <$> l)) ∧ (∀ j, j < off → bget dst' j = bget dst j).
Proof.
  revert p fuel off dst. induction l as [|[a pg] l IH]; intros p fuel off dst Hc Hok Hf Ho Hlen;
    (destruct fuel as [|fuel]; [cbn in Hf; lia|]); inversion Hc as [|? ? ? ? Ha Hl]; subst.
  { exists dst. split; [|split; [apply region_nil|done]]. apply loop_inr. cbn. do 2 f_equal. f_equal. lia. }
  apply Forall_cons in Hok as [[Hsz _ Hbytes] Hok]. cbn in Hsz, Hbytes.
  cbn [fmap list_fmap concat fst snd] in *. rewrite length_app in *.
  assert (Hcl : Z.of_nat (length (content pg)) = p_size pg) by (unfold content; rewrite length_bslice; lia).
  destruct (IH _ fuel (off + p_size pg) (bstore dst off (content pg)) Hl Hok) as (dst' & Hlp & Hr & Hbelow);
    [cbn in Hf; lia|lia|lia|].
  exists dst'. split; [|split].
  - erewrite loop_inl; [|unfold get_bytes_step; rewrite (deref_some _ _ _ Ha); res_cbn; reflexivity].
    rewrite u64_id by lia. fold (content pg). cbn [nx page_node] in Hlp. rewrite Hlp. do 2 f_equal. lia.
  - apply region_app. rewrite Hcl. split; [|done]. eapply region_agree; [apply region_bstore with (b := dst)|].
    + unfold content. by apply bslice_bytes.
    + intros j Hj. apply Hbelow. lia.
  - intros j Hj. rewrite Hbelow by lia. apply bget_bstore_out. lia.
Qed.

(** ** Sessions *)

(** A list of writes, each of a whole buffer. *)
Fixpoint writes (fuel : nat) (w : world) (bs : list (list Z)) : res world :=
  match bs with
  | [] => Ret w
  | b :: bs' => w' ← vm_stream_write fuel w b (Z.of_nat (length b)); writes fuel w' bs'
  end.

Lemma writes_ok fuel w l bs :
  stream_ok w l → Forall (Forall is_byte) bs → Forall (λ b, (length b < fuel)%nat) bs →
  Z.of_nat (length l + length (concat bs)) < 2 ^ 63 →
  ∃ w', writes fuel w bs = Ret w' ∧ stream_ok w' (l ++ concat bs).
Proof.
  revert w l. induction bs as [|b bs IH]; intros w l Hw Hb Hf Hlen; cbn.
  { exists w. by rewrite app_nil_r. }
  apply Forall_cons in Hb as [Hb Hbs]. apply Forall_cons in Hf as [Hf Hfs]. cbn in Hlen.
  rewrite length_app in Hlen.
  destruct (vm_stream_write_ok fuel w l b Hw Hb) as (w1 & -> & Hw1 & _); [lia|done|]. res_cbn.
  destruct (IH w1 (l ++ b) Hw1 Hbs Hfs) as (w2 & -> & Hw2); [rewrite length_app; lia|].
  exists w2. by rewrite app_assoc.
Qed.

(** A stream gives back what was written. After opening a memory stream
    and any sequence of writes, of any sizes, the count is the number of bytes
    written and [vm_stream_get_bytes] copies exactly these bytes, in order, to
    its destination; nothing is lost or repeated at the page boundaries. *)
Theorem stream_roundtrip fuel w0 bs dst :
  store_ok (pages w0) → Forall (Forall is_byte) bs → Forall (λ b, (length b < fuel)%nat) bs →
  Z.of_nat (length (concat bs)) < 2 ^ 63 →
  ∃ w1 w2, vm_stream_open fuel STREAM_TYPE_MEMORY w0 = Ret w1 ∧ writes fuel w1 bs = Ret w2 ∧
    vm_stream_get_count w2 = Ret (Z.of_nat (length (concat bs))) ∧
    ∃ n, ∀ fuel', (n ≤ fuel')%nat → ∃ dst',
      vm_stream_get_bytes fuel' w2 dst = Ret (Z.of_nat (length (concat bs)), dst') ∧
      region dst' 0 (concat bs).
Proof.
  intros Hok Hb Hf Hlen. destruct (vm_stream_open_ok fuel w0 Hok) as (w1 & -> & Hw1 & _).
  destruct (writes_ok fuel w1 [] bs Hw1 Hb Hf Hlen) as (w2 & Hws & f & ps & a & p & Hw2).
  exists w1, w2. split; [done|]. split; [done|]. destruct Hw2 as [Hfile _ Hc _ Hps Hcont Hcnt _].
  unfold vm_stream_get_count, vm_stream_get_bytes. rewrite Hfile. res_cbn. split; [by rewrite Hcnt|].
  exists (S (length (ps ++ [(a, p)]))). intros fuel' Hfuel'.
  destruct (get_bytes_walk (pages w2) _ _ fuel' 0 dst Hc Hps) as (dst' & -> & Hr & _);
    [lia|lia|rewrite Hcont; cbn in Hlen |- *; lia|].
  rewrite Hcont in *. by exists dst'.
Qed.

Lemma stream_roundtrip_witness :
  ∃ w1 w2, vm_stream_open 4 STREAM_TYPE_MEMORY (mkWorld (mkStore ∅ 1) None []) = Ret w1 ∧
    writes 4 w1 [[1; 2]; [3]] = Ret w2 ∧
    vm_stream_get_count w2 = Ret (Z.of_nat (length (concat [[1; 2]; [3]]))) ∧
    ∃ n, ∀ fuel', (n ≤ fuel')%nat → ∃ dst',
      vm_stream_get_bytes fuel' w2 ∅ = Ret (Z.of_nat (length (concat [[1; 2]; [3]])), dst') ∧
      region dst' 0 (concat [[1; 2]; [3]]).
Proof.
  apply (stream_roundtrip 4 (mkWorld (mkStore ∅ 1) None []) [[1; 2]; [3]] ∅).
  - apply store_ok_empty.
  - repeat (apply Forall_cons; split); try (by apply Forall_nil); unfold is_byte; try lia;
      repeat (apply Forall_cons; split); try (by apply Forall_nil); lia.
  - repeat (apply Forall_cons; split); try (by apply Forall_nil); cbn; lia.
  - cbn. lia.
Defined.

(** Closing a memory stream frees every page of it, and nothing else. *)
Theorem stream_close_frees fuel w f ps a p l :
  stream_at w f ps a p l → (length ps + 1 < fuel)%nat →
  ∃ w', vm_stream_close fuel w = Ret w' ∧ file w' = None ∧
    ∀ b, cells (pages w') !! b = if decide (b ∈ (ps ++ [(a, p)]).*1) then None else cells (pages w) !! b.
Proof.
  intros [Hf Ht Hc Hcur Hps Hcont Hcnt Hok] Hfuel. unfold vm_stream_close, vm_stream_release. rewrite Hf.
  rewrite (free_chain _ _ _ _ Hc) by (rewrite length_app; cbn; lia). res_cbn.
  eexists. split; [done|]. split; [done|]. intros b. cbn. apply foldl_delete_lookup.
Qed.

(** an open memory stream of one page *)
Definition one_page : world :=
  mkWorld (mkStore {[1 := new_page]} 2) (Some (mkFile STREAM_TYPE_MEMORY (Some 1) (Some 1) 0)) [].

Lemma stream_close_frees_witness :
  ∃ w', vm_stream_close 3 one_page = Ret w' ∧ file w' = None ∧
    ∀ b, cells (pages w') !! b =
      if decide (b ∈ ([] ++ [(1, new_page)]).*1) then None else cells (pages one_page) !! b.
Proof.
  apply (stream_close_frees 3 one_page (mkFile STREAM_TYPE_MEMORY (Some 1) (Some 1) 0) [] 1 new_page []); [|cbn; lia].
  constructor; cbn; try done.
  - constructor; [done|constructor].
  - apply Forall_cons. split; [apply new_page_ok|by apply Forall_nil].
  - intros b [n Hb]. cbn in Hb. apply lookup_singleton_Some in Hb as [<- _]. cbn. lia.
Defined.
