(* ===== verification/SymTable.v ===== *)
(** * The compiler's symbol table (StackLib/Stack/sym_table.c)

    A linked list of symbols, a stack of saved lists for nested scopes, and for
    each symbol a linked list of the jumps that wait for its address. Symbols
    and jumps live in two stores (Links.v), so that what two lists share is
    shared in the model too. *)
From S2P Require Import Prelude Links.

Definition SYM_TYPE_CONST : Z := 0x01.
Definition SYM_TYPE_VAR : Z := 0x02.
Definition SYM_TYPE_FUNCTION : Z := 0x04.
Definition SYM_TYPE_LABEL : Z := 0x08.
Definition SYM_TYPE_CLASS : Z := 0x10.
Definition SYM_TYPE_ARRAY : Z := 0x20.
Definition SYM_TYPE_EXTERNAL : Z := 0x80.
Definition MAX_LIST_DEPTH : nat := 32.

(** [symrec]. [name] holds the bytes written from the field [name] on (zeros
    follow), [room] how many bytes the allocation has from there: 776 inside
    [sizeof(symrec)] and those [malloc]ed behind it. [ext] and [param_types],
    which this file does not read, are part of that space. *)
Record symrec := mkSym {
  parent : option Z; s_next : option Z; type : Z; slength : Z; offset : Z;
  jlist : option Z; pcount : Z; ptotal : Z; sa_currec : option Z;
  name : list Z; room : Z }.

Definition NAME_SPACE : Z := 776.

#[export] Instance sym_node : Node symrec := {
  nx := s_next;
  set_nx q r := mkSym (parent r) q (type r) (slength r) (offset r) (jlist r) (pcount r) (ptotal r)
                  (sa_currec r) (name r) (room r);
  nx_set_nx _ _ := eq_refl;
}.

(** [jmprec] *)
Record jmprec := mkJmp { j_next : option Z; ins : Z; j_offset : Z }.

#[export] Instance jmp_node : Node jmprec := {
  nx := j_next;
  set_nx q j := mkJmp q (ins j) (j_offset j);
  nx_set_nx _ _ := eq_refl;
}.

(** What the table reports: [st_vardump]'s lines and [sp_error]'s messages. *)
Inductive dump := CONSTANT | VARIABLE | FUNCTION | LABEL | EXTERNAL.
Inductive unref := UNREF_VARIABLE | UNREF_FUNCTION | UNREF_LABEL | UNREF_SYMBOL.
Inductive event :=
  | Info (d : dump) (n : list Z) (off : Z)
  | Error (e : unref) (n : list Z).

(** The globals [_symhead], [_symstack] (up to [_symindex], the top first), the
    two stores, and what was reported so far. *)
Record table := mkTable {
  symhead : option Z; symstack : list (option Z);
  syms : store symrec; jmps : store jmprec; log : list event }.

Definition set_head (h : option Z) (t : table) : table := mkTable h (symstack t) (syms t) (jmps t) (log t).
Definition set_syms (s : store symrec) (t : table) : table := mkTable (symhead t) (symstack t) s (jmps t) (log t).
Definition set_jmps (s : store jmprec) (t : table) : table := mkTable (symhead t) (symstack t) (syms t) s (log t).
Definition log_events (e : list event) (t : table) : table :=
  mkTable (symhead t) (symstack t) (syms t) (jmps t) (log t ++ e).

(** ** Scopes *)

(** one turn of the copying loop: iterator, [_symhead], [previtr], store *)
Definition push_step (st : option Z * option Z * option Z * store symrec)
    : res (option Z * option Z * option Z * store symrec + option Z * store symrec) :=
  let '(iterator, hd, previtr, s) := st in
  match iterator with
  | None => Ret (inr (hd, s))
  | Some a =>
      r ← deref s a;
      if negb (Z.land (type r) SYM_TYPE_EXTERNAL =? 0) then
        let copy := mkSym (parent r) None (type r) (slength r) (offset r) (jlist r) (pcount r) (ptotal r)
                      (sa_currec r) (take (Z.to_nat NAME_SPACE) (name r)) NAME_SPACE in
        let m := malloc copy s in
        match hd with
        | None => Ret (inl (s_next r, Some m.1, Some m.1, m.2))
        | Some _ =>
            p ← from_option_ub previtr;
            s' ← upd p (set_nx (Some m.1)) m.2;
            Ret (inl (s_next r, hd, Some m.1, s'))
        end
      else Ret (inl (s_next r, hd, previtr, s))
  end.

Definition st_push_table (fuel : nat) (t : table) : res table :=
  if (length (symstack t) =? MAX_LIST_DEPTH)%nat then Ret t
  else
    r ← loop fuel push_step (symhead t, None, None, syms t);
    Ret (mkTable r.1 (symhead t :: symstack t) r.2 (jmps t) (log t)).

Definition st_pop_table (t : table) : table :=
  match symstack t with
  | [] => t
  | h :: st => mkTable h st (syms t) (jmps t) (log t)
  end.

(** ** Lookup and insertion *)

Definition st_sym_get_prev_record (fuel : nat) (rel : option Z) (t : table) : res (option Z) :=
  match symhead t with
  | None => Ret None
  | Some h => a ← loop fuel (prev_step (syms t) rel) (Some h); Ret (Some a)
  end.

Definition st_sym_add_record (fuel : nat) (newrec : Z) (t : table) : res (table * Z) :=
  prevrec ← st_sym_get_prev_record fuel None t;
  match prevrec with
  | None => Ret (set_head (Some newrec) t, newrec)
  | Some p =>
      if decide (newrec = p) then Ret (t, newrec)
      else s ← upd p (set_nx (Some newrec)) (syms t); Ret (set_syms s t, newrec)
  end.

(** [memcmp(a, rec->name, n) == 0] *)
Definition name_eq (a : list Z) (r : symrec) (n : Z) : res bool :=
  guardb ((n <=? Z.of_nat (length a)) && (n <=? room r)) ≫= λ _,
  let k := Z.to_nat n in
  Ret (bool_decide (take k a = take k (name r ++ replicate k 0))).

(** one turn of the search loops; [exact] when they compare the lengths *)
Definition select_step (s : store symrec) (exact : bool) (ty : Z) (nm : list Z) (len : Z) (iterator : option Z)
    : res (option Z + option Z) :=
  match iterator with
  | None => Ret (inr None)
  | Some a =>
      r ← deref s a;
      if negb (Z.land (Z.land (type r) 0x7F) ty =? 0) then
        if negb exact || (len =? slength r) then
          b ← name_eq nm r len;
          Ret (if (b : bool) then inr (Some a) else inl (s_next r))
        else Ret (inl (s_next r))
      else Ret (inl (s_next r))
  end.

Definition st_sym_select_s (fuel : nat) (ty : Z) (nm : list Z) (len : Z) (t : table) : res (option Z) :=
  loop fuel (select_step (syms t) true (Z.land ty 0x7F) nm len) (symhead t).

Definition st_sym_select (fuel : nat) (ty : Z) (cstr : list Z) (t : table) : res (option Z) :=
  nm ← from_option_ub (c_string cstr);
  st_sym_select_s fuel ty nm (u16 (Z.of_nat (length nm))) t.

Definition st_sym_select_array (fuel : nat) (arrval : list Z) (len : Z) (t : table) : res (option Z) :=
  loop fuel (select_step (syms t) false (Z.land SYM_TYPE_ARRAY 0x7F) arrval len) (symhead t).

(** [st_sym_create_s] allocates and fills a symbol; [st_sym_create_array] is
    the same with its own type. *)
Definition st_sym_create_s (ty : Z) (nm : list Z) (len off : Z) (t : table) : res (table * Z) :=
  guardb (len <=? Z.of_nat (length nm)) ≫= λ _,
  let m := malloc (mkSym None None ty len off None 0 0 None (take (Z.to_nat len) nm) (NAME_SPACE + len)) (syms t) in
  Ret (set_syms m.2 t, m.1).

Definition st_sym_create_array (arrval : list Z) (len off : Z) (t : table) : res (table * Z) :=
  st_sym_create_s SYM_TYPE_ARRAY arrval len off t.

Definition st_sym_insert_s (fuel : nat) (ty : Z) (nm : list Z) (len off : Z) (t : table) : res (table * Z) :=
  r ← st_sym_create_s ty nm len off t; st_sym_add_record fuel r.2 r.1.

Definition st_sym_insert (fuel : nat) (ty : Z) (cstr : list Z) (off : Z) (t : table) : res (table * Z) :=
  nm ← from_option_ub (c_string cstr); st_sym_insert_s fuel ty nm (u16 (Z.of_nat (length nm))) off t.

Definition st_sym_insert_array (fuel : nat) (arrval : list Z) (len off : Z) (t : table) : res (table * Z) :=
  r ← st_sym_create_array arrval len off t; st_sym_add_record fuel r.2 r.1.

(** ** Deletion *)
Definition st_sym_dispose (a : Z) (t : table) : res table :=
  s ← free a (syms t); Ret (set_syms s t).

Definition st_sym_delete (fuel : nat) (ty : Z) (cstr : list Z) (t : table) : res table :=
  candidate ← st_sym_select fuel ty cstr t;
  match candidate with
  | None => Ret t
  | Some c =>
      prevrec ← st_sym_get_prev_record fuel (Some c) t;
      r ← deref (syms t) c;
      t' ← match prevrec with
           | None => Ret (set_head (s_next r) t)
           | Some p => s ← upd p (set_nx (s_next r)) (syms t); Ret (set_syms s t)
           end;
      st_sym_dispose c t'
  end.

(** ** Pending jumps *)
Definition set_jlist (q : option Z) (r : symrec) : symrec :=
  mkSym (parent r) (s_next r) (type r) (slength r) (offset r) q (pcount r) (ptotal r)
    (sa_currec r) (name r) (room r).

Definition st_jmp_get_last_record (fuel : nat) (r : symrec) (t : table) : res (option Z) :=
  match jlist r with
  | None => Ret None
  | Some a => b ← loop fuel (last_step (jmps t)) a; Ret (Some b)
  end.

Definition st_jmp_add (fuel : nat) (rec : Z) (op off : Z) (t : table) : res (table * Z) :=
  let m := malloc (mkJmp None op off) (jmps t) in
  let t1 := set_jmps m.2 t in
  r ← deref (syms t) rec;
  prevrec ← st_jmp_get_last_record fuel r t1;
  match prevrec with
  | None => s ← upd rec (set_jlist (Some m.1)) (syms t1); Ret (set_syms s t1, m.1)
  | Some p => j ← upd p (set_nx (Some m.1)) (jmps t1); Ret (set_jmps j t1, m.1)
  end.

Definition st_jmp_clear (fuel : nat) (rec : Z) (t : table) : res table :=
  r ← deref (syms t) rec;
  match jlist r with
  | None => Ret t
  | Some a =>
      j ← loop fuel free_step (Some a, jmps t);
      s ← upd rec (set_jlist None) (syms t);
      Ret (set_syms s (set_jmps j t))
  end.

(** ** Clearing *)
Definition vardump (r : symrec) : list event :=
  if type r =? SYM_TYPE_CONST then [Info CONSTANT (name r) (offset r)]
  else if type r =? SYM_TYPE_VAR then [Info VARIABLE (name r) (offset r)]
  else if type r =? SYM_TYPE_FUNCTION then [Info FUNCTION (name r) (offset r)]
  else if type r =? SYM_TYPE_LABEL then [Info LABEL (name r) (offset r)]
  else if type r =? Z.lor SYM_TYPE_EXTERNAL SYM_TYPE_FUNCTION then [Info EXTERNAL (name r) (offset r)]
  else [].

(** the [switch] on the type of a symbol with pending jumps *)
Definition unref_local (r : symrec) : unref :=
  let k := Z.land (type r) 0x0F in
  if k =? SYM_TYPE_VAR then UNREF_VARIABLE else if k =? SYM_TYPE_LABEL then UNREF_LABEL else UNREF_SYMBOL.

Definition unref_global (r : symrec) : unref :=
  let k := Z.land (type r) 0x0F in
  if k =? SYM_TYPE_VAR then UNREF_VARIABLE
  else if k =? SYM_TYPE_FUNCTION then UNREF_FUNCTION
  else if k =? SYM_TYPE_LABEL then UNREF_LABEL else UNREF_SYMBOL.

(** what both loops do to the candidate, once it is unlinked *)
Definition drop_symbol (fuel : nat) (err : symrec → unref) (c : Z) (t : table) : res table :=
  r ← deref (syms t) c;
  t1 ← match jlist r with
       | Some _ => t' ← st_jmp_clear fuel c t; Ret (log_events [Error (err r) (name r)] t')
       | None => Ret t
       end;
  s ← free c (syms t1);
  Ret (set_syms s (log_events (vardump r) t1)).

Definition clear_locals_step (fuel : nat) (par : option Z) (st : option Z * option Z * table)
    : res (option Z * option Z * table + table) :=
  let '(previtr, iterator, t) := st in
  match iterator with
  | None => Ret (inr t)
  | Some a =>
      r ← deref (syms t) a;
      if decide (parent r = par) then
        t1 ← match previtr with
             | Some p => s ← upd p (set_nx (s_next r)) (syms t); Ret (set_syms s t)
             | None => Ret (set_head (s_next r) t)
             end;
        t2 ← drop_symbol fuel unref_local a t1;
        Ret (inl (previtr, s_next r, t2))
      else Ret (inl (Some a, s_next r, t))
  end.

Definition st_sym_clear_locals (fuel : nat) (par : option Z) (t : table) : res table :=
  loop fuel (clear_locals_step fuel par) (None, symhead t, t).

Definition clear_globals_step (fuel : nat) (st : option Z * table) : res (option Z * table + table) :=
  match st.1 with
  | None => Ret (inr (set_head None st.2))
  | Some a =>
      r ← deref (syms st.2) a;
      t1 ← drop_symbol fuel unref_global a st.2;
      Ret (inl (s_next r, set_head (s_next r) t1))
  end.

Definition st_sym_clear_globals (fuel : nat) (t : table) : res table :=
  match symhead t with
  | None => Ret t
  | Some h => loop fuel (clear_globals_step fuel) (Some h, t)
  end.

Definition set_parent (q : option Z) (r : symrec) : symrec :=
  mkSym q (s_next r) (type r) (slength r) (offset r) (jlist r) (pcount r) (ptotal r)
    (sa_currec r) (name r) (room r).

Definition update_parent_step (old newp : option Z) (st : option Z * store symrec)
    : res (option Z * store symrec + store symrec) :=
  match st.1 with
  | None => Ret (inr st.2)
  | Some a =>
      r ← deref st.2 a;
      s ← (if decide (parent r = old) then upd a (set_parent newp) st.2 else Ret st.2);
      Ret (inl (s_next r, s))
  end.

Definition st_sym_update_parent (fuel : nat) (old newp : option Z) (t : table) : res table :=
  s ← loop fuel (update_parent_step old newp) (symhead t, syms t); Ret (set_syms s t).

(** ** The table as a list

    [strip] forgets the [next] field: the symbols of the table [t], with their
    addresses and in order, are the list [v]. *)
Definition strip (x : Z * symrec) : Z * symrec := (x.1, set_nx None x.2).

Definition tab_at (s : store symrec) (h : option Z) (v : list (Z * symrec)) : Prop :=
  ∃ l, lseg s h l None ∧ strip <$> l = v.

Definition tab (t : table) (v : list (Z * symrec)) : Prop :=
  tab_at (syms t) (symhead t) v ∧ store_ok (syms t).

Lemma strip_fst (l : list (Z * symrec)) : (strip <$> l).*1 = l.*1.
Proof. rewrite <-list_fmap_compose. by apply list_fmap_ext. Qed.

(** ** Lookup *)

(** What the searches look for. *)
Definition sym_is (ty : Z) (nm : list Z) (r : symrec) : bool :=
  negb (Z.land (Z.land (type r) 0x7F) (Z.land ty 0x7F) =? 0) && bool_decide (name r = nm).

(** A symbol whose name is as long as it says, with a terminator inside its
    allocation. *)
Definition named (r : symrec) : Prop := slength r = Z.of_nat (length (name r)) ∧ slength r < room r.

Lemma name_eq_named r nm :
  named r → Z.of_nat (length nm) = slength r →
  name_eq nm r (Z.of_nat (length nm)) = Ret (bool_decide (name r = nm)).
Proof.
  intros [Hn Hr] Hl. unfold name_eq. rewrite (proj2 (Z.leb_le _ _)) by lia.
  rewrite (proj2 (Z.leb_le _ _)) by lia. res_cbn. cbn [andb]. res_cbn. f_equal.
  rewrite Nat2Z.id, firstn_all. rewrite take_app_le by lia. rewrite firstn_all2 by lia.
  apply bool_decide_ext. split; congruence.
Qed.

Lemma select_step_sym s ty nm a r :
  cells s !! a = Some r → named r →
  select_step s true (Z.land ty 0x7F) nm (Z.of_nat (length nm)) (Some a) =
    Ret (if sym_is ty nm r then inr (Some a) else inl (s_next r)).
Proof.
  intros Ha Hr. unfold select_step, sym_is. rewrite (deref_some _ _ _ Ha). res_cbn.
  destruct (negb _); [|done]. cbn [negb orb andb].
  destruct (Z.eqb_spec (Z.of_nat (length nm)) (slength r)) as [Hl|Hl].
  - rewrite name_eq_named by done. done.
  - rewrite bool_decide_false; [done|]. intros <-. by destruct Hr.
Qed.

Lemma select_list s h l ty nm fuel :
  lseg s h l None → Forall (λ x, named x.2) l → (length l < fuel)%nat →
  loop fuel (select_step s true (Z.land ty 0x7F) nm (Z.of_nat (length nm))) h =
    Ret (option_map fst (find (λ x, sym_is ty nm x.2) l)).
Proof.
  intros Hc. revert fuel. remember None as q eqn:Hq. revert Hq.
  induction Hc as [p|a r l q Ha Hl IH]; intros ->; intros fuel Hn Hf; (destruct fuel as [|fuel]; [cbn in Hf; lia|]).
  - by apply loop_inr.
  - apply Forall_cons in Hn as [Hr Hn]. cbn in Hr, Hf. pose proof (select_step_sym s ty nm a r Ha Hr) as Hs.
    cbn [find]. cbn [snd]. destruct (sym_is ty nm r).
    + by apply loop_inr.
    + erewrite loop_inl by exact Hs. apply IH; [done|done|lia].
Qed.

Lemma find_strip ty nm l :
  option_map fst (find (λ x, sym_is ty nm x.2) (strip <$> l)) = option_map fst (find (λ x, sym_is ty nm x.2) l).
Proof. induction l as [|[a r] l IH]; cbn; [done|]. unfold sym_is at 1 3. cbn. by destruct (_ && _). Qed.

Lemma select_tab t v ty nm fuel :
  tab t v → Forall (λ x, named x.2) v → (length v < fuel)%nat →
  st_sym_select_s fuel ty nm (Z.of_nat (length nm)) t = Ret (option_map fst (find (λ x, sym_is ty nm x.2) v)).
Proof.
  intros [(l & Hl & <-) _] Hn Hf. rewrite find_strip. unfold st_sym_select_s.
  rewrite length_fmap in Hf. apply select_list; [done| |done].
  apply (Forall_fmap strip) in Hn. exact Hn.
Qed.

(** ** Insertion *)
(** The symbol that [st_sym_create_s] fills in. *)
Definition new_sym (ty : Z) (nm : list Z) (off : Z) : symrec :=
  mkSym None None ty (Z.of_nat (length nm)) off None 0 0 None nm (NAME_SPACE + Z.of_nat (length nm)).

Lemma new_sym_named ty nm off : named (new_sym ty nm off).
Proof. split; cbn; unfold NAME_SPACE; lia. Qed.

(** the record at an address that an insertion may touch: the last of the table *)
Lemma add_record_tab t v a r fuel :
  tab t v → cells (syms t) !! a = Some r → s_next r = None → a ∉ v.*1 → (length v < fuel)%nat →
  ∃ t', st_sym_add_record fuel a t = Ret (t', a) ∧ tab t' (v ++ [strip (a, r)]) ∧
    symstack t' = symstack t ∧ jmps t' = jmps t ∧ log t' = log t ∧ brk (syms t') = brk (syms t) ∧
    (∀ b, b ∉ v.*1 → cells (syms t') !! b = cells (syms t) !! b).
Proof.
  intros [(l & Hl & <-) Hok] Ha Hr Hin Hf. rewrite strip_fst in Hin. rewrite length_fmap in Hf.
  unfold st_sym_add_record, st_sym_get_prev_record.
  destruct l as [|[b rb] l _] using rev_ind.
  - pose proof (lseg_nil_inv _ _ _ Hl) as ->. res_cbn. eexists. split; [done|].
    split; [|by repeat split]. split; [|done]. exists [(a, r)]. split; [|done].
    cbn. constructor; [done|]. cbn. rewrite Hr. constructor.
  - rewrite length_app in Hf. cbn in Hf. pose proof (prev_last _ _ _ _ _ fuel Hl ltac:(lia)) as Hp.
    destruct (symhead t) as [h|] eqn:Eh; [|destruct l as [|[]]; inversion Hl].
    rewrite Hp. res_cbn. rewrite fmap_app in Hin.
    rewrite decide_False by (intros ->; apply Hin; cbn; set_solver).
    pose proof (lseg_lookup _ _ _ _ b rb Hl ltac:(set_solver)) as Hb.
    rewrite (upd_some _ _ _ _ Hb). res_cbn. eexists. split; [done|].
    split; [|split; [done|split; [done|split; [done|split; [done|]]]]].
    + split; [|by apply store_ok_upd with (n := rb)]. exists (l ++ [(b, set_nx (Some a) rb); (a, r)]). split.
      * cbn [syms symhead set_syms]. rewrite Eh. apply lseg_snoc; [done|done|done|]. by rewrite fmap_app.
      * rewrite !fmap_app, <-app_assoc. done.
    + intros c Hc. cbn. rewrite strip_fst, fmap_app in Hc. apply lookup_insert_ne. set_solver.
Qed.

Lemma insert_tab t v ty nm off fuel :
  tab t v → (length v < fuel)%nat →
  ∃ t', st_sym_insert_s fuel ty nm (Z.of_nat (length nm)) off t = Ret (t', brk (syms t)) ∧
    tab t' (v ++ [(brk (syms t), new_sym ty nm off)]) ∧
    symstack t' = symstack t ∧ jmps t' = jmps t ∧ log t' = log t ∧ brk (syms t') = brk (syms t) + 1 ∧
    (∀ b, b ∉ v.*1 → b < brk (syms t) → cells (syms t') !! b = cells (syms t) !! b).
Proof.
  intros [(l & Hl & <-) Hok] Hf. unfold st_sym_insert_s, st_sym_create_s.
  rewrite (proj2 (Z.leb_le _ _)) by lia. res_cbn. rewrite Nat2Z.id, firstn_all.
  fold (new_sym ty nm off).
  set (t1 := set_syms (malloc (new_sym ty nm off) (syms t)).2 t).
  assert (Ht1 : tab t1 (strip <$> l)).
  { split; [|by apply (store_ok_malloc (syms t))]. exists l. split; [|done]. by apply (lseg_malloc (syms t)). }
  destruct (add_record_tab t1 _ (brk (syms t)) (new_sym ty nm off) fuel Ht1) as (t' & Hadd & Htab & H1 & H2 & H3 & H4 & H5).
  - cbn. by rewrite lookup_insert_eq.
  - done.
  - rewrite strip_fst. by eapply lseg_fresh.
  - done.
  - exists t'. split; [exact Hadd|]. split; [exact Htab|]. repeat (split; [done|]).
    intros b Hb Hlt. rewrite H5 by done. cbn. apply lookup_insert_ne. lia.
Qed.

(** Insertion and lookup. Inserting a symbol appends it to the table, at a
    new address; afterwards every lookup gives the first symbol of the table
    whose type shares a bit and whose name is the one asked for: an older one
    if there is one, else the new symbol if it is such. *)
Theorem insert_select fuel t v ty nm off :
  tab t v → Forall (λ x, named x.2) v → (S (length v) < fuel)%nat →
  ∃ t' a, st_sym_insert_s fuel ty nm (Z.of_nat (length nm)) off t = Ret (t', a) ∧
    tab t' (v ++ [(a, new_sym ty nm off)]) ∧
    ∀ ty' nm', st_sym_select_s fuel ty' nm' (Z.of_nat (length nm')) t' =
      Ret (match find (λ x, sym_is ty' nm' x.2) v with
           | Some x => Some x.1
           | None => if sym_is ty' nm' (new_sym ty nm off) then Some a else None
           end).
Proof.
  intros Ht Hn Hf. destruct (insert_tab t v ty nm off fuel Ht) as (t' & Hi & Ht' & _); [lia|].
  exists t', (brk (syms t)). split; [done|]. split; [done|]. intros ty' nm'.
  erewrite select_tab; [|exact Ht'| |rewrite length_app; cbn; lia].
  - f_equal. clear. induction v as [|x v IH]; cbn; [by destruct (sym_is _ _ _)|].
    destruct (sym_is ty' nm' x.2); [done|exact IH].
  - apply Forall_app. split; [done|]. apply Forall_cons. split; [apply new_sym_named|by apply Forall_nil].
Qed.

(** A table with one variable, named [v], of the function at address 9. *)
Definition one_symbol : table :=
  mkTable (Some 1) []
    (mkStore {[1 := mkSym (Some 9) None SYM_TYPE_VAR 1 0 None 0 0 None [118] 777]} 2) (mkStore ∅ 1) [].

Lemma one_symbol_tab :
  tab one_symbol [(1, mkSym (Some 9) None SYM_TYPE_VAR 1 0 None 0 0 None [118] 777)].
Proof.
  split.
  - exists [(1, mkSym (Some 9) None SYM_TYPE_VAR 1 0 None 0 0 None [118] 777)]. split; [|reflexivity]. constructor; [done|]. constructor.
  - intros a [r Ha]. cbn in Ha. apply lookup_singleton_Some in Ha as [<- _]. cbn. lia.
Defined.

Lemma insert_select_witness :
  ∃ t' a, st_sym_insert_s 4 SYM_TYPE_VAR [119] (Z.of_nat (length [119])) 1 one_symbol = Ret (t', a) ∧
    tab t' ([(1, mkSym (Some 9) None SYM_TYPE_VAR 1 0 None 0 0 None [118] 777)] ++
            [(a, new_sym SYM_TYPE_VAR [119] 1)]) ∧
    ∀ ty' nm', st_sym_select_s 4 ty' nm' (Z.of_nat (length nm')) t' =
      Ret (match find (λ x, sym_is ty' nm' x.2) [(1, mkSym (Some 9) None SYM_TYPE_VAR 1 0 None 0 0 None [118] 777)] with
           | Some x => Some x.1
           | None => if sym_is ty' nm' (new_sym SYM_TYPE_VAR [119] 1) then Some a else None
           end).
Proof.
  apply (insert_select 4 one_symbol _ SYM_TYPE_VAR [119] 1 one_symbol_tab); [|cbn; lia].
  apply Forall_cons. split; [split; cbn; lia|by apply Forall_nil].
Defined.

(** ** Dropping a symbol *)

(** the reports of a symbol that is dropped *)
Definition report (err : symrec → unref) (r : symrec) : list event :=
  (match jlist r with Some _ => [Error (err r) (name r)] | None => [] end) ++ vardump r.

(** a store without the structures of a chain *)
Definition freed {N} (l : list (Z * N)) (s : store N) : store N :=
  set_cells (foldl (λ m a, delete a m) (cells s) l.*1) s.

Lemma freed_nil {N} (s : store N) : freed [] s = s.
Proof. by destruct s. Qed.

Lemma freed_lookup {N} (l : list (Z * N)) s a :
  cells (freed l s) !! a = if decide (a ∈ l.*1) then None else cells s !! a.
Proof. apply foldl_delete_lookup. Qed.

Lemma freed_app {N} (l1 l2 : list (Z * N)) s : freed (l1 ++ l2) s = freed l2 (freed l1 s).
Proof. unfold freed. cbn. by rewrite fmap_app, foldl_app. Qed.

Lemma freed_lseg {N} `{!Node N} (l : list (Z * N)) s p l' q :
  lseg s p l' q → (∀ a, a ∈ l'.*1 → a ∉ l.*1) → lseg (freed l s) p l' q.
Proof.
  intros H Hd. eapply lseg_frame; [exact H|]. intros a Ha. rewrite freed_lookup.
  by rewrite decide_False by auto.
Qed.

Lemma freed_ok {N} (l : list (Z * N)) (s : store N) : store_ok s → store_ok (freed l s).
Proof.
  intros H a [n Ha]. apply H. rewrite freed_lookup in Ha. case_decide; [done|]. eauto.
Qed.

Lemma drop_symbol_ok fuel err t c r js :
  cells (syms t) !! c = Some r → lseg (jmps t) (jlist r) js None → (length js < fuel)%nat →
  drop_symbol fuel err c t =
    Ret (mkTable (symhead t) (symstack t) (freed [(c, r)] (syms t)) (freed js (jmps t)) (log t ++ report err r)).
Proof.
  intros Hc Hj Hf. unfold drop_symbol, report. rewrite (deref_some _ _ _ Hc). res_cbn.
  destruct (jlist r) as [q|] eqn:Er.
  - unfold st_jmp_clear. rewrite (deref_some _ _ _ Hc). res_cbn. rewrite Er.
    rewrite (free_chain _ _ _ _ Hj) by done. res_cbn. rewrite (upd_some _ _ _ _ Hc). res_cbn.
    unfold log_events. cbn [syms set_syms set_jmps jmps log symhead symstack].
    erewrite free_some by (cbn; apply lookup_insert_eq). res_cbn.
    unfold set_syms, freed, set_cells. cbn. rewrite delete_insert_eq. by rewrite <-app_assoc.
  - inversion Hj; subst. rewrite freed_nil. res_cbn. rewrite (free_some _ _ _ Hc). res_cbn. done.
Qed.

(** Symbols with their pending jumps [x.2], which no two of them share. *)
Abbreviation symj := ((Z * symrec) * list (Z * jmprec))%type.

Definition jumps_at (jm : store jmprec) (l : list symj) : Prop :=
  Forall (λ x, lseg jm (jlist x.1.2) x.2 None) l ∧ NoDup (concat l.*2).*1.

Definition stripj (x : symj) : symj := (strip x.1, x.2).

(** the table [t] holds the symbols [v], with their pending jumps *)
Definition tabj (t : table) (v : list symj) : Prop :=
  (∃ l, lseg (syms t) (symhead t) l.*1 None ∧ jumps_at (jmps t) l ∧ stripj <$> l = v) ∧ store_ok (syms t).

Lemma jumps_at_drop jm l1 x l2 : jumps_at jm (l1 ++ x :: l2) → jumps_at (freed x.2 jm) (l1 ++ l2).
Proof.
  intros [H Hnd]. rewrite fmap_app, concat_app, fmap_app in Hnd. cbn in Hnd. rewrite fmap_app in Hnd.
  apply NoDup_app in Hnd as (Hn1 & Hd1 & Hn2). apply NoDup_app in Hn2 as (Hn2 & Hd2 & Hn3).
  apply Forall_app in H as [H1 H2]. apply Forall_cons in H2 as [_ H2].
  assert (Hin : ∀ (l : list symj) y a, y ∈ l → a ∈ y.2.*1 → a ∈ (concat l.*2).*1).
  { intros l y a Hy Ha. induction Hy as [y l|y z l _ IH]; cbn; rewrite fmap_app; set_solver. }
  split.
  - apply Forall_app. split; apply Forall_forall; intros y Hy.
    + rewrite Forall_forall in H1. apply freed_lseg; [by apply H1|]. intros a Ha Hax.
      apply (Hd1 a); [by eapply Hin|]. set_solver.
    + rewrite Forall_forall in H2. apply freed_lseg; [by apply H2|]. intros a Ha Hax.
      apply (Hd2 a); [done|]. by eapply Hin.
  - rewrite fmap_app, concat_app, fmap_app. apply NoDup_app. repeat split; [done| |done].
    intros a Ha Ha'. apply (Hd1 a Ha). set_solver.
Qed.

(** ** Clearing the symbols of a function *)

(** the address of the last symbol before the iterator *)
Definition prev_of (l : list symj) : option Z := fst ∘ fst <$> last l.

Definition same_shape (l l' : list symj) : Prop := stripj <$> l' = stripj <$> l.

Lemma same_shape_addr l l' : same_shape l l' → l'.*1.*1 = l.*1.*1.
Proof.
  intros H. unfold same_shape in H. apply (f_equal (λ k, k.*1.*1)) in H.
  revert l' H. induction l as [|x l IH]; intros [|x' l'] H; try done. cbn in *.
  injection H as -> H. f_equal. by apply IH.
Qed.

Lemma jumps_at_shape jm l l' : same_shape l l' → jumps_at jm l → jumps_at jm l'.
Proof.
  intros H [Hf Hn]. unfold same_shape in H.
  assert (H2 : l'.*2 = l.*2).
  { apply (f_equal (fmap snd)) in H. by rewrite <-!list_fmap_compose in H. }
  split; [|by rewrite H2]. clear Hn H2. revert l' H.
  induction l as [|[[a r] js] l IH]; intros [|[[a' r'] js'] l'] H; try done.
  apply Forall_cons in Hf as [Hx Hf]. pose proof (f_equal tail H) as Ht.
  pose proof (f_equal (λ k, (λ x : symj, (jlist x.1.2, x.2)) <$> head k) H) as Hh. cbn in Ht, Hh, Hx.
  injection Hh as E ->. apply Forall_cons. split; [cbn; by rewrite E|by apply IH].
Qed.

(** unlinking the symbol at the iterator *)
Lemma unlink_ok t l1 a r l2 :
  lseg (syms t) (symhead t) l1.*1 (Some a) → lseg (syms t) (Some a) ((a, r) :: l2) None →
  NoDup (l1.*1 ++ (a, r) :: l2).*1 → store_ok (syms t) →
  ∃ t1 l1', match prev_of l1 with
            | Some p => s ← upd p (set_nx (s_next r)) (syms t); Ret (set_syms s t)
            | None => Ret (set_head (s_next r) t)
            end = Ret t1 ∧ same_shape l1 l1' ∧ prev_of l1' = prev_of l1 ∧
    lseg (syms t1) (symhead t1) l1'.*1 (s_next r) ∧ lseg (syms t1) (s_next r) l2 None ∧
    cells (syms t1) !! a = Some r ∧ store_ok (syms t1) ∧ brk (syms t1) = brk (syms t) ∧
    symstack t1 = symstack t ∧ jmps t1 = jmps t ∧ log t1 = log t ∧
    (∀ b, b ∉ l1.*1.*1 → cells (syms t1) !! b = cells (syms t) !! b).
Proof.
  intros H1 H2 Hnd Hok. inversion H2 as [|? ? ? ? Ha Hl2]; subst.
  rewrite fmap_app in Hnd. apply NoDup_app in Hnd as (Hn1 & Hd & Hn2).
  cbn [fmap list_fmap fst] in Hd, Hn2. apply NoDup_cons in Hn2 as [Hal2 Hn2].
  destruct l1 as [|x l1 _] using rev_ind.
  - eexists _, []. split; [done|]. repeat (split; [done|]). split; [constructor|]. by repeat split.
  - destruct x as [[p rp] js]. unfold prev_of. rewrite last_snoc. cbn [fmap option_fmap option_map compose fst].
    rewrite fmap_app in H1, Hd, Hn1. cbn [fmap list_fmap fst] in H1, Hd, Hn1.
    rewrite fmap_app in Hn1, Hd. cbn [fmap list_fmap fst] in Hn1, Hd.
    apply NoDup_app in Hn1 as (_ & Hp & _).
    assert (Hpr : cells (syms t) !! p = Some rp) by (eapply lseg_lookup; [exact H1|set_solver]).
    rewrite (upd_some _ _ _ _ Hpr). res_cbn. eexists _, (l1 ++ [((p, set_nx (s_next r) rp), js)]).
    assert (Hpn : p ∉ l1.*1.*1) by (intros Hin; apply (Hp p Hin); set_solver).
    assert (Hpa : p ≠ a) by (intros ->; apply (Hd a); set_solver).
    split; [done|]. split; [|split; [by rewrite last_snoc|]].
    { unfold same_shape. by rewrite !fmap_app. }
    split; [|split; [|split; [|split; [|do 4 (split; [done|])]]]].
    + rewrite fmap_app. cbn [fmap list_fmap fst symhead set_syms syms]. by eapply lseg_relink.
    + apply lseg_frame_insert; [done|]. intros Hin. apply (Hd p); set_solver.
    + cbn. by rewrite lookup_insert_ne.
    + by apply store_ok_upd with (n := rp).
    + intros b Hb. cbn. apply lookup_insert_ne. rewrite !fmap_app in Hb. set_solver.
Qed.

Definition local_of (par : option Z) (x : symj) : Prop := parent x.1.2 = par.
#[export] Instance local_of_dec par x : Decision (local_of par x).
Proof. unfold local_of. solve_decision. Defined.

Lemma clear_walk fuelj par l2 : ∀ fuel t l1 it,
  lseg (syms t) (symhead t) l1.*1 it → lseg (syms t) it l2.*1 None → NoDup (l1.*1 ++ l2.*1).*1 →
  store_ok (syms t) → jumps_at (jmps t) (l1 ++ l2) → Forall (λ x, (length x.2 < fuelj)%nat) l2 →
  (length l2 < fuel)%nat →
  ∃ t' l', loop fuel (clear_locals_step fuelj par) (prev_of l1, it, t) = Ret t' ∧
    lseg (syms t') (symhead t') l'.*1 None ∧ jumps_at (jmps t') l' ∧ store_ok (syms t') ∧
    same_shape (l1 ++ filter (λ x, ¬ local_of par x) l2) l' ∧
    log t' = log t ++ concat ((λ x, report unref_local x.1.2) <$> filter (local_of par) l2) ∧
    symstack t' = symstack t ∧ brk (syms t') = brk (syms t) ∧
    (∀ b, b ∉ (l1.*1 ++ l2.*1).*1 → cells (syms t') !! b = cells (syms t) !! b).
Proof.
  induction l2 as [|[[a r] js] l2 IH]; intros [|fuel] t l1 it H1 H2 Hnd Hok Hj Hfj Hf; try (cbn in Hf; lia).
  { pose proof (lseg_nil_inv _ _ _ H2) as ->. rewrite app_nil_r in Hj. exists t, l1.
    rewrite !filter_nil. cbn [fmap list_fmap concat]. rewrite !app_nil_r.
    split; [by apply loop_inr|]. by do 7 (split; [done|]). }
  cbn [fmap list_fmap fst] in H2, Hnd. inversion H2 as [|? ? ? ? Ha Hl2]; subst.
  apply Forall_cons in Hfj as [Hfx Hfj]. cbn in Hfx, Hf.
  assert (Hdef : clear_locals_step fuelj par (prev_of l1, Some a, t) =
    if decide (parent r = par) then
      t1 ← match prev_of l1 with
           | Some p => s ← upd p (set_nx (s_next r)) (syms t); Ret (set_syms s t)
           | None => Ret (set_head (s_next r) t)
           end;
      t2 ← drop_symbol fuelj unref_local a t1;
      Ret (inl (prev_of l1, s_next r, t2))
    else Ret (inl (Some a, s_next r, t))).
  { unfold clear_locals_step. rewrite (deref_some _ _ _ Ha). res_cbn. done. }
  destruct (decide (parent r = par)) as [Hp|Hp].
  - rewrite (filter_cons_True (local_of par)) by done.
    rewrite (filter_cons_False (λ x, ¬ local_of par x)) by (by intros ?).
    destruct (unlink_ok t l1 a r l2.*1 H1 H2 Hnd Hok)
      as (t1 & l1' & Hu & Hs & Hprev & G1 & G2 & G3 & G4 & G5 & G6 & G7 & G8 & G9).
    assert (Hl1' : l1'.*1.*1 = l1.*1.*1).
    { by apply same_shape_addr. }
    pose proof Hj as Hj'. destruct Hj' as [Hjf _]. apply Forall_app in Hjf as [_ Hjx].
    apply Forall_cons in Hjx as [Hjx _]. cbn in Hjx. rewrite <-G7 in Hjx.
    pose proof (drop_symbol_ok fuelj unref_local t1 a r js G3 Hjx Hfx) as Hd.
    rewrite fmap_app in Hnd. cbn [fmap list_fmap fst] in Hnd.
    apply NoDup_app in Hnd as (Hn1 & Hdis & Hn2). apply NoDup_cons in Hn2 as [Ha2 Hn2].
    edestruct (IH fuel (mkTable (symhead t1) (symstack t1) (freed [(a, r)] (syms t1)) (freed js (jmps t1))
                 (log t1 ++ report unref_local r)) l1' (s_next r))
      as (t' & l' & Hl & R1 & R2 & R3 & R4 & R5 & R6 & R7 & R8); cbn [syms symhead symstack jmps log].
    + apply freed_lseg; [done|]. rewrite Hl1'. intros b Hb Hba. apply (Hdis b Hb). cbn in Hba. set_solver.
    + apply freed_lseg; [done|]. intros b Hb Hba. cbn in Hba. set_solver.
    + rewrite fmap_app. change (list_fmap _ _ fst l1'.*1) with (l1'.*1.*1). rewrite Hl1'.
      apply NoDup_app. repeat split; [done| |done]. intros b Hb. specialize (Hdis b Hb). set_solver.
    + by apply freed_ok.
    + rewrite G7. apply jumps_at_shape with (l := l1 ++ l2); [|by apply (jumps_at_drop (jmps t) l1 ((a, r), js))].
      unfold same_shape in *. by rewrite !fmap_app, Hs.
    + done.
    + lia.
    + cbn [syms symhead symstack jmps log] in *. exists t', l'. split.
      { rewrite Hprev in Hl. erewrite loop_inl; [exact Hl|]. rewrite Hdef, Hu. res_cbn. rewrite Hd. res_cbn. done. }
      split; [done|]. split; [done|]. split; [done|]. split; [|split; [|split; [|split]]].
      * unfold same_shape in *. rewrite R4, !fmap_app. by rewrite Hs.
      * rewrite R5, G8. rewrite <-app_assoc. done.
      * by rewrite R6.
      * by rewrite R7.
      * intros b Hb. rewrite !fmap_app in *. cbn in Hb. rewrite R8.
        -- rewrite freed_lookup. rewrite decide_False by (cbn; set_solver). apply G9. set_solver.
        -- rewrite Hl1'. set_solver.
  - rewrite (filter_cons_False (local_of par)) by done.
    rewrite (filter_cons_True (λ x, ¬ local_of par x)) by done.
    destruct (IH fuel t (l1 ++ [((a, r), js)]) (s_next r))
      as (t' & l' & Hl & R1 & R2 & R3 & R4 & R5 & R6 & R7 & R8); try done.
    + rewrite fmap_app. apply lseg_app. exists (Some a). split; [done|]. constructor; [done|constructor].
    + rewrite (fmap_app fst l1 [_]), <-app_assoc. done.
    + by rewrite <-app_assoc.
    + lia.
    + exists t', l'. split.
      { erewrite loop_inl; [exact Hl|]. rewrite Hdef. unfold prev_of. by rewrite last_snoc. }
      rewrite <-app_assoc in R4. repeat (split; [done|]).
      intros b Hb. apply R8. rewrite (fmap_app fst l1 [_]), <-app_assoc. done.
Qed.

Lemma stripj_filter (P : symj → Prop) `{!∀ x, Decision (P x)} (l : list symj) :
  (∀ x, P (stripj x) ↔ P x) → stripj <$> filter P l = filter P (stripj <$> l).
Proof.
  intros HP. induction l as [|x l IH]; [done|]. rewrite fmap_cons, !filter_cons. specialize (HP x).
  destruct (decide (P x)), (decide (P (stripj x))); try tauto. by rewrite fmap_cons, IH.
Qed.

Lemma local_of_strip par x : local_of par (stripj x) ↔ local_of par x.
Proof. done. Qed.

(** The end of a function. [st_sym_clear_locals] takes exactly the symbols
    of the function out of the table, the others stay, in order and with their
    pending jumps; each symbol taken out is reported, as an error when jumps
    still wait for it. *)
Theorem clear_locals_spec fuel par t v :
  tabj t v → Forall (λ x, (length x.2 < fuel)%nat) v → (length v < fuel)%nat →
  ∃ t', st_sym_clear_locals fuel par t = Ret t' ∧
    tabj t' (filter (λ x, ¬ local_of par x) v) ∧
    log t' = log t ++ concat ((λ x, report unref_local x.1.2) <$> filter (local_of par) v) ∧
    symstack t' = symstack t.
Proof.
  intros [(l & Hl & Hj & <-) Hok] Hfj Hf. apply (Forall_fmap stripj) in Hfj. rewrite length_fmap in Hf.
  destruct (clear_walk fuel par l fuel t [] (symhead t)) as (t' & l' & Hr & R1 & R2 & R3 & R4 & R5 & R6 & _);
    try done.
  - constructor.
  - cbn. by eapply lseg_nodup.
  - exists t'. split; [exact Hr|]. split; [|split; [|done]].
    + split; [|done]. exists l'. split; [done|]. split; [done|]. unfold same_shape in R4. rewrite R4. cbn [app].
      by apply stripj_filter.
    + rewrite R5. f_equal. f_equal. rewrite <-(stripj_filter (local_of par)) by done.
      rewrite <-list_fmap_compose. by apply list_fmap_ext.
Qed.

Lemma clear_locals_witness :
  ∃ t', st_sym_clear_locals 3 (Some 9) one_symbol = Ret t' ∧
    tabj t' (filter (λ x, ¬ local_of (Some 9) x)
      [((1, mkSym (Some 9) None SYM_TYPE_VAR 1 0 None 0 0 None [118] 777), [])]) ∧
    log t' = log one_symbol ++ concat ((λ x, report unref_local x.1.2) <$> filter (local_of (Some 9))
      [((1, mkSym (Some 9) None SYM_TYPE_VAR 1 0 None 0 0 None [118] 777), [])]) ∧
    symstack t' = symstack one_symbol.
Proof.
  apply (clear_locals_spec 3 (Some 9) one_symbol); [| |cbn; lia].
  - split; [|apply one_symbol_tab].
    exists [((1, mkSym (Some 9) None SYM_TYPE_VAR 1 0 None 0 0 None [118] 777), [])].
    split; [|split; [|reflexivity]].
    + constructor; [done|constructor].
    + split; [|constructor]. apply Forall_cons. split; [constructor|by apply Forall_nil].
  - apply Forall_cons. split; [cbn; lia|by apply Forall_nil].
Defined.

(** ** Deletion *)
(** Deletion. Deleting a symbol by name removes the first match from the
    table when it is not the first symbol of the table. When it is the first,
    the search for its predecessor runs past the end of the list and
    dereferences NULL, although the code after it means to handle that case. *)
Theorem st_sym_delete_spec fuel ty cstr nm t x v :
  c_string cstr = Some nm → Z.of_nat (length nm) < 2 ^ 16 →
  tab t v → Forall (λ y, named y.2) v → (length v < fuel)%nat →
  find (λ y, sym_is ty nm y.2) v = Some x →
  (head v = Some x → st_sym_delete fuel ty cstr t = Undef) ∧
  (∀ v1 y v2, v = v1 ++ y :: x :: v2 →
     ∃ t', st_sym_delete fuel ty cstr t = Ret t' ∧ tab t' (v1 ++ y :: v2)).
Proof.
  intros Hcs Hlen Ht Hn Hf Hx. unfold st_sym_delete, st_sym_select. rewrite Hcs. res_cbn.
  rewrite u16_id by (split; lia). rewrite (select_tab t v ty nm fuel Ht Hn Hf), Hx. cbn [option_map]. res_cbn.
  destruct Ht as [(l & Hl & <-) Hok]. rewrite length_fmap in Hf. pose proof (lseg_nodup _ _ _ Hl) as Hnd.
  split.
  - intros Hh. destruct l as [|y l]; [done|]. injection Hh as <-. unfold st_sym_get_prev_record.
    destruct y as [a r]. destruct (symhead t) as [h|]; [|inversion Hl].
    assert (h = a) as -> by (by inversion Hl). cbn [fst strip].
    rewrite (prev_never (syms t) _ ((a, r) :: l) a fuel Hl); [done| |done].
    cbn in Hnd |- *. by apply NoDup_cons in Hnd as [? _].
  - intros v1 y v2 Hv. apply fmap_app_inv in Hv as (l1 & l2 & -> & Hl2 & ->).
    destruct l2 as [|[b rb] [|[c rc] l2]]; try done. cbn in Hl2. simplify_eq Hl2. intros -> -> ->.
    rewrite fmap_app in Hnd. cbn [fmap list_fmap fst] in Hnd.
    apply NoDup_app in Hnd as (Hn1 & Hd & Hn2). apply NoDup_cons in Hn2 as [Hb Hn2].
    apply NoDup_cons in Hn2 as [Hc Hn2].
    assert (Hlc : cells (syms t) !! c = Some rc) by (eapply lseg_lookup; [exact Hl|set_solver]).
    assert (Hlb : cells (syms t) !! b = Some rb) by (eapply lseg_lookup; [exact Hl|set_solver]).
    change ((b, rb) :: (c, rc) :: l2) with ([(b, rb)] ++ (c, rc) :: l2) in Hl. rewrite app_assoc in Hl.
    apply lseg_app in Hl as (q & Hl1 & Hlq). inversion Hlq as [|? ? ? ? _ Hlr]; subst.
    cbn [strip fst]. unfold st_sym_get_prev_record.
    destruct (symhead t) as [h|] eqn:Eh; [|destruct l1 as [|[]]; inversion Hl1].
    rewrite (prev_found (syms t) (Some h) l1 b rb (Some c) fuel Hl1).
    2:{ intros z Hz. destruct (lseg_inner _ _ _ _ _ _ _ Hl1 Hz) as (d & Hdin & ->). intros [= ->].
        assert (c ∈ (l1 ++ [(b, rb)]).*1) as Hin by (destruct l1; cbn in *; set_solver).
        rewrite fmap_app in Hin. apply elem_of_app in Hin as [Hin|Hin]; [|cbn in Hin; set_solver].
        apply (Hd c Hin). set_solver. }
    2:{ rewrite length_app in Hf. cbn in Hf. lia. }
    res_cbn. rewrite (deref_some _ _ _ Hlc). res_cbn. rewrite (upd_some _ _ _ _ Hlb). res_cbn.
    unfold st_sym_dispose. erewrite free_some.
    2:{ cbn. rewrite lookup_insert_ne by set_solver. exact Hlc. }
    res_cbn. eexists. split; [done|]. split.
    + exists (l1 ++ (b, set_nx (s_next rc) rb) :: l2). split; [|by rewrite fmap_app].
      cbn [symhead set_syms syms]. rewrite Eh.
      apply lseg_frame_delete; [|rewrite fmap_app; cbn; intros Hin; apply elem_of_app in Hin as [Hin|Hin]].
      * change ((b, set_nx (s_next rc) rb) :: l2) with ([(b, set_nx (s_next rc) rb)] ++ l2). rewrite app_assoc.
        apply lseg_app. exists (s_next rc). split.
        -- eapply lseg_relink; [exact Hl1|]. intros Hin. apply (Hd b Hin). set_solver.
        -- apply lseg_frame_insert; [done|]. set_solver.
      * apply (Hd c Hin). set_solver.
      * set_solver.
    + apply store_ok_free. by apply store_ok_upd with (n := rb).
Qed.

(** A table with the variable [v] and the label [w], in this order. *)
Definition var_v : symrec := mkSym (Some 9) None SYM_TYPE_VAR 1 0 None 0 0 None [118] 777.
Definition label_w : symrec := mkSym (Some 9) None SYM_TYPE_LABEL 1 0 None 0 0 None [119] 777.

Definition two_symbols : table :=
  mkTable (Some 1) [] (mkStore (<[1 := set_nx (Some 2) var_v]> {[2 := label_w]}) 3) (mkStore ∅ 1) [].

Lemma two_symbols_tab : tab two_symbols [(1, var_v); (2, label_w)].
Proof.
  split.
  - exists [(1, set_nx (Some 2) var_v); (2, label_w)]. split; [|reflexivity].
    constructor; [done|]. constructor; [done|]. constructor.
  - intros a [r Ha]. cbn in Ha. apply lookup_insert_Some in Ha as [[<- _]|[_ Ha]]; [cbn; lia|].
    apply lookup_singleton_Some in Ha as [<- _]. cbn. lia.
Defined.

Lemma st_sym_delete_witness :
  (head [(1, var_v); (2, label_w)] = Some (2, label_w) →
     st_sym_delete 3 SYM_TYPE_LABEL [119; 0] two_symbols = Undef) ∧
  (∀ v1 y v2, [(1, var_v); (2, label_w)] = v1 ++ y :: (2, label_w) :: v2 →
     ∃ t', st_sym_delete 3 SYM_TYPE_LABEL [119; 0] two_symbols = Ret t' ∧ tab t' (v1 ++ y :: v2)).
Proof.
  apply (st_sym_delete_spec 3 SYM_TYPE_LABEL [119; 0] [119] two_symbols (2, label_w) [(1, var_v); (2, label_w)]);
    [reflexivity|cbn; lia|apply two_symbols_tab| |cbn; lia|reflexivity].
  repeat (apply Forall_cons; split); try (by apply Forall_nil); split; cbn; lia.
Defined.

(** ** Scopes *)
Definition is_external (r : symrec) : bool := negb (Z.land (type r) SYM_TYPE_EXTERNAL =? 0).

Definition copy_of (r : symrec) : symrec :=
  mkSym (parent r) None (type r) (slength r) (offset r) (jlist r) (pcount r) (ptotal r)
    (sa_currec r) (take (Z.to_nat NAME_SPACE) (name r)) NAME_SPACE.

(** the copies of the external symbols, allocated from address [a] on *)
Fixpoint copies (a : Z) (v : list (Z * symrec)) : list (Z * symrec) :=
  match v with
  | [] => []
  | x :: v' => if is_external x.2 then (a, copy_of x.2) :: copies (a + 1) v' else copies a v'
  end.

Lemma copies_strip a l : copies a (strip <$> l) = copies a l.
Proof.
  revert a. induction l as [|x l IH]; intros a; [done|]. cbn. unfold is_external. cbn.
  destruct (negb _); [by rewrite IH|by rewrite IH].
Qed.

Lemma push_walk b0 s0 l2 : ∀ fuel s it hd prev ln,
  lseg s0 it l2 None → (∀ x, x ∈ l2 → x.1 < b0) →
  (∀ a, a < b0 → cells s !! a = cells s0 !! a) → b0 ≤ brk s →
  lseg s hd ln None → prev = fst <$> last ln → Forall (λ x, b0 ≤ x.1) ln → store_ok s → (length l2 < fuel)%nat →
  ∃ hd' s' ln', loop fuel push_step (it, hd, prev, s) = Ret (hd', s') ∧
    lseg s' hd' ln' None ∧ strip <$> ln' = (strip <$> ln) ++ copies (brk s) l2 ∧
    Forall (λ x, b0 ≤ x.1) ln' ∧ store_ok s' ∧ (∀ a, a < b0 → cells s' !! a = cells s0 !! a) ∧ b0 ≤ brk s'.
Proof.
  induction l2 as [|[a r] l2 IH]; intros [|fuel] s it hd prev ln H2 Hlow Hfr Hb Hln -> Hhigh Hok Hf;
    try (cbn in Hf; lia).
  { pose proof (lseg_nil_inv _ _ _ H2) as ->. exists hd, s, ln. rewrite app_nil_r.
    split; [by apply loop_inr|]. by do 5 (split; [done|]). }
  inversion H2 as [|? ? ? ? Ha Hl2]; subst.
  assert (Ha' : cells s !! a = Some r) by (rewrite Hfr; [done|apply (Hlow (a, r)); set_solver]).
  assert (Hlow' : ∀ x, x ∈ l2 → x.1 < b0) by (intros; apply Hlow; set_solver).
  cbn [copies snd]. destruct (is_external r) eqn:Ex.
  - set (m := malloc (copy_of r) s). assert (Hm : store_ok m.2) by by apply store_ok_malloc.
    assert (Hmfr : ∀ c, c < b0 → cells m.2 !! c = cells s0 !! c).
    { intros c Hc. cbn. rewrite lookup_insert_ne by lia. by apply Hfr. }
    assert (Hmb : cells m.2 !! brk s = Some (copy_of r)) by (cbn; by rewrite lookup_insert_eq).
    destruct ln as [|y ln _] using rev_ind.
    + pose proof (lseg_nil_inv _ _ _ Hln) as ->.
      destruct (IH fuel m.2 (s_next r) (Some (brk s)) (Some (brk s)) [(brk s, copy_of r)])
        as (hd' & s' & ln' & Hr & R1 & R2 & Rest); try done; [cbn; lia| | |cbn in Hf; lia|].
      * constructor; [done|constructor].
      * apply Forall_cons. split; [done|by apply Forall_nil].
      * exists hd', s', ln'. split; [|split; [done|split; [by rewrite R2|exact Rest]]].
        erewrite loop_inl; [exact Hr|]. unfold push_step. rewrite (deref_some _ _ _ Ha'). res_cbn.
        fold (is_external r). by rewrite Ex.
    + destruct y as [p rp]. apply Forall_app in Hhigh as [Hh1 Hh2]. apply Forall_cons in Hh2 as [Hhp _]. cbn in Hhp.
      pose proof (lseg_malloc s _ _ _ (copy_of r) Hok Hln) as Hln'. fold m in Hln'.
      assert (Hp : cells m.2 !! p = Some rp) by (eapply lseg_lookup; [exact Hln'|set_solver]).
      destruct (IH fuel (set_cells (<[p := set_nx (Some (brk s)) rp]> (cells m.2)) m.2) (s_next r) hd
                  (Some (brk s)) ((ln ++ [(p, set_nx (Some (brk s)) rp)]) ++ [(brk s, copy_of r)]))
        as (hd' & s' & ln' & Hr & R1 & R2 & Rest); try done.
      * intros c Hc. cbn. rewrite lookup_insert_ne by lia. by apply Hmfr.
      * cbn. lia.
      * rewrite <-app_assoc. apply lseg_snoc; [done|done|done|]. by eapply lseg_fresh.
      * by rewrite last_snoc.
      * repeat (apply Forall_app; split); [done|by apply Forall_cons; split; [|apply Forall_nil]|].
        apply Forall_cons. split; [done|by apply Forall_nil].
      * by apply store_ok_upd with (n := rp).
      * cbn in Hf. lia.
      * exists hd', s', ln'. split; [|split; [done|split; [|exact Rest]]].
        -- erewrite loop_inl; [exact Hr|]. unfold push_step. rewrite (deref_some _ _ _ Ha'). res_cbn.
           fold (is_external r). rewrite Ex. destruct hd as [h|]; [|destruct ln as [|[]]; inversion Hln].
           rewrite last_snoc. cbn [fmap option_fmap option_map fst]. res_cbn. fold (copy_of r). fold m.
           by rewrite (upd_some _ _ _ _ Hp).
        -- rewrite R2, !fmap_app, <-!app_assoc. done.
  - destruct (IH fuel s (s_next r) hd (fst <$> last ln) ln) as (hd' & s' & ln' & Hr & Rest); try done; [cbn in Hf; lia|].
    exists hd', s', ln'. split; [|exact Rest]. erewrite loop_inl; [exact Hr|]. unfold push_step.
    rewrite (deref_some _ _ _ Ha'). res_cbn. fold (is_external r). by rewrite Ex.
Qed.

Lemma push_tab fuel t v :
  tab t v → (length (symstack t) < MAX_LIST_DEPTH)%nat → (length v < fuel)%nat →
  ∃ t1, st_push_table fuel t = Ret t1 ∧ tab t1 (copies (brk (syms t)) v) ∧
    Forall (λ x, brk (syms t) ≤ x.1) (copies (brk (syms t)) v) ∧ brk (syms t) ≤ brk (syms t1) ∧
    symstack t1 = symhead t :: symstack t ∧
    (∀ a, a < brk (syms t) → cells (syms t1) !! a = cells (syms t) !! a).
Proof.
  intros [(l & Hl & <-) Hok] Hst Hf. rewrite length_fmap in Hf. unfold st_push_table.
  rewrite (proj2 (Nat.eqb_neq _ _)) by lia.
  destruct (push_walk (brk (syms t)) (syms t) l fuel (syms t) (symhead t) None None []) 
    as (hd' & s' & ln' & Hr & R1 & R2 & R3 & R4 & R5 & R6); try done; try lia.
  - intros x Hx. apply Hok. exists x.2. destruct x. by eapply lseg_lookup.
  - constructor.
  - rewrite Hr. res_cbn. eexists. split; [done|]. rewrite copies_strip. cbn [fmap list_fmap app] in R2.
    split; [|split; [|by do 2 (split; [done|])]].
    + split; [|done]. by exists ln'.
    + rewrite <-R2. by apply (Forall_fmap strip).
Qed.

(** declarations: type, name and offset of each symbol *)
Fixpoint declare (fuel : nat) (t : table) (ds : list (Z * list Z * Z)) : res table :=
  match ds with
  | [] => Ret t
  | (ty, nm, off) :: ds' =>
      r ← st_sym_insert_s fuel ty nm (Z.of_nat (length nm)) off t; declare fuel r.1 ds'
  end.

Lemma declare_tab fuel b0 ds : ∀ t v,
  tab t v → Forall (λ x, b0 ≤ x.1) v → b0 ≤ brk (syms t) → (length v + length ds < fuel)%nat →
  ∃ t' v', declare fuel t ds = Ret t' ∧ tab t' (v ++ v') ∧
    snd <$> v' = (λ d, new_sym d.1.1 d.1.2 d.2) <$> ds ∧ symstack t' = symstack t ∧
    (∀ a, a < b0 → cells (syms t') !! a = cells (syms t) !! a).
Proof.
  induction ds as [|[[ty nm] off] ds IH]; intros t v Ht Hv Hb Hf; cbn [declare].
  { exists t, []. rewrite app_nil_r. by do 4 (split; [done|]). }
  cbn in Hf. destruct (insert_tab t v ty nm off fuel Ht) as (t1 & Hi & Ht1 & Hs & _ & _ & Hbrk & Hfr); [lia|].
  rewrite Hi. res_cbn.
  destruct (IH t1 (v ++ [(brk (syms t), new_sym ty nm off)]) Ht1) as (t' & v' & Hd & Ht' & Hv' & Hs' & Hfr').
  - apply Forall_app. split; [done|]. apply Forall_cons. split; [cbn; lia|by apply Forall_nil].
  - lia.
  - rewrite length_app. cbn. lia.
  - exists t', ((brk (syms t), new_sym ty nm off) :: v'). split; [done|]. split; [by rewrite <-app_assoc in Ht'|].
    split; [cbn; by rewrite Hv'|]. split; [by rewrite Hs'|]. intros a Ha. rewrite Hfr' by done. apply Hfr; [|lia].
    intros (x & -> & Hx)%list_elem_of_fmap. rewrite Forall_forall in Hv. specialize (Hv x Hx). cbn in Hv. lia.
Qed.

(** C30: nested scopes. Inside a scope opened by [st_push_table] the table has
    copies of the external symbols and nothing else; symbols declared there are
    added behind them; and whatever was declared, [st_pop_table] brings back
    exactly the table of before. *)
Theorem scope_roundtrip fuel t v ds :
  tab t v → (length (symstack t) < MAX_LIST_DEPTH)%nat → (length v + length ds < fuel)%nat →
  ∃ t1 t2 v2, st_push_table fuel t = Ret t1 ∧ tab t1 (copies (brk (syms t)) v) ∧
    declare fuel t1 ds = Ret t2 ∧ tab t2 (copies (brk (syms t)) v ++ v2) ∧
    snd <$> v2 = (λ d, new_sym d.1.1 d.1.2 d.2) <$> ds ∧
    tab (st_pop_table t2) v ∧ symstack (st_pop_table t2) = symstack t.
Proof.
  intros Ht Hst Hf. destruct (push_tab fuel t v Ht Hst) as (t1 & Hp & Ht1 & Hhigh & Hb & Hs & Hfr); [lia|].
  assert (Hlen : ∀ a, (length (copies a v) ≤ length v)%nat).
  { clear. induction v as [|x v IH]; intros a; [done|]. cbn.
    destruct (is_external x.2); cbn; [specialize (IH (a + 1))|specialize (IH a)]; lia. }
  destruct (declare_tab fuel (brk (syms t)) ds t1 _ Ht1 Hhigh Hb) as (t2 & v2 & Hd & Ht2 & Hv2 & Hs2 & Hfr2).
  { specialize (Hlen (brk (syms t))). lia. }
  exists t1, t2, v2. do 5 (split; [done|]). unfold st_pop_table. rewrite Hs2, Hs. split; [|done].
  destruct Ht as [(l & Hl & Hlv) Hok]. split; [|exact (proj2 Ht2)]. exists l. split; [|done].
  cbn [syms symhead]. eapply lseg_frame; [exact Hl|]. intros a Ha.
  assert (a < brk (syms t)) by by eapply lseg_below. by rewrite Hfr2, Hfr.
Qed.

Lemma scope_roundtrip_witness :
  ∃ t1 t2 v2, st_push_table 4 two_symbols = Ret t1 ∧ tab t1 (copies 3 [(1, var_v); (2, label_w)]) ∧
    declare 4 t1 [(SYM_TYPE_VAR, [118], 7)] = Ret t2 ∧ tab t2 (copies 3 [(1, var_v); (2, label_w)] ++ v2) ∧
    snd <$> v2 = (λ d, new_sym d.1.1 d.1.2 d.2) <$> [(SYM_TYPE_VAR, [118], 7)] ∧
    tab (st_pop_table t2) [(1, var_v); (2, label_w)] ∧ symstack (st_pop_table t2) = [].
Proof.
  apply (scope_roundtrip 4 two_symbols [(1, var_v); (2, label_w)] [(SYM_TYPE_VAR, [118], 7)]);
    [apply two_symbols_tab|cbn; unfold MAX_LIST_DEPTH; lia|cbn; lia].
Defined.

(** ** Constants *)

(** a table whose only symbol is the array constant [abc] *)
Definition array_abc : table :=
  mkTable (Some 1) [] (mkStore {[1 := new_sym SYM_TYPE_ARRAY [97; 98; 99] 5]} 2) (mkStore ∅ 1) [].

(** Constants by prefix. [st_sym_select_array] compares only the bytes of
    the array it is given, never the lengths: with the constant [abc] in the
    table, the search for [ab] (or for the empty array) finds [abc]; and one
    for [abc] followed by a zero byte finds it too. [sp_load_array] then loads
    that other constant. *)
Theorem select_array_prefix :
  tab array_abc [(1, new_sym SYM_TYPE_ARRAY [97; 98; 99] 5)] ∧
  st_sym_select_array 5 [97; 98] 2 array_abc = Ret (Some 1) ∧
  st_sym_select_array 5 [] 0 array_abc = Ret (Some 1) ∧
  st_sym_select_array 5 [97; 98; 99; 0] 4 array_abc = Ret (Some 1) ∧
  st_sym_select_s 5 SYM_TYPE_ARRAY [97; 98] 2 array_abc = Ret None.
Proof.
  split; [|by repeat split; vm_compute]. split.
  - exists [(1, new_sym SYM_TYPE_ARRAY [97; 98; 99] 5)]. split; [|reflexivity].
    constructor; [done|constructor].
  - intros a [r Ha]. cbn in Ha. apply lookup_singleton_Some in Ha as [<- _]. cbn. lia.
Qed.

(** ** Pending jumps *)

(** The jumps [q] (instruction and address) wait for the symbol at [rec]. *)
Definition queue (t : table) (rec : Z) (q : list (Z * Z)) : Prop :=
  store_ok (jmps t) ∧ ∃ r js, cells (syms t) !! rec = Some r ∧ lseg (jmps t) (jlist r) js None ∧
    (λ j, (ins j.2, j_offset j.2)) <$> js = q.

Lemma jmp_add_queue fuel t rec q op off :
  queue t rec q → (length q < fuel)%nat →
  ∃ t', st_jmp_add fuel rec op off t = Ret (t', brk (jmps t)) ∧ queue t' rec (q ++ [(op, off)]).
Proof.
  intros (Hok & r & js & Hr & Hj & <-) Hf. rewrite length_fmap in Hf. unfold st_jmp_add, st_jmp_get_last_record.
  rewrite (deref_some _ _ _ Hr). res_cbn. set (m := malloc (mkJmp None op off) (jmps t)).
  assert (Hmok : store_ok m.2) by by apply store_ok_malloc.
  assert (Hm : cells m.2 !! brk (jmps t) = Some (mkJmp None op off)) by (cbn; by rewrite lookup_insert_eq).
  pose proof (lseg_malloc _ _ _ _ (mkJmp None op off) Hok Hj) as Hj'. fold m in Hj'.
  destruct js as [|[p j] js _] using rev_ind.
  - pose proof (lseg_nil_inv _ _ _ Hj) as ->. res_cbn. cbn [syms set_jmps].
    rewrite (upd_some _ _ _ _ Hr). res_cbn. eexists. split; [done|]. split; [done|].
    eexists _, [(brk (jmps t), mkJmp None op off)]. split; [cbn; by rewrite lookup_insert_eq|].
    split; [|done]. constructor; [done|constructor].
  - rewrite length_app in Hf. cbn in Hf. destruct (jlist r) as [a|] eqn:Er; [|destruct js as [|[]]; inversion Hj].
    destruct (walk_last m.2 (Some a) js p j fuel Hj' ltac:(lia)) as (a' & [= <-] & Hw).
    cbn [jmps set_jmps]. rewrite Hw. res_cbn. 
    assert (Hp : cells m.2 !! p = Some j) by (eapply lseg_lookup; [exact Hj'|set_solver]).
    rewrite (upd_some _ _ _ _ Hp). res_cbn. eexists. split; [done|].
    split; [by apply store_ok_upd with (n := j)|].
    exists r, (js ++ [(p, set_nx (Some (brk (jmps t))) j); (brk (jmps t), mkJmp None op off)]).
    split; [done|]. split.
    + rewrite Er. apply lseg_snoc; [done|done|done|]. by eapply lseg_fresh.
    + rewrite !fmap_app, <-app_assoc. done.
Qed.

Lemma jmp_clear_queue fuel t rec q :
  queue t rec q → (length q < fuel)%nat → ∃ t', st_jmp_clear fuel rec t = Ret t' ∧ queue t' rec [].
Proof.
  intros (Hok & r & js & Hr & Hj & <-) Hf. rewrite length_fmap in Hf. unfold st_jmp_clear.
  rewrite (deref_some _ _ _ Hr). res_cbn. destruct (jlist r) as [a|] eqn:Er.
  - rewrite (free_chain _ _ _ _ Hj) by done. res_cbn. rewrite (upd_some _ _ _ _ Hr). res_cbn.
    eexists. split; [done|]. split; [by apply (freed_ok js)|].
    eexists _, []. split; [cbn; by rewrite lookup_insert_eq|]. split; [constructor|done].
  - exists t. split; [done|]. split; [done|]. exists r, []. rewrite Er. split; [done|]. split; [constructor|done].
Qed.

(** the forward jumps to a label, in the order the compiler emits them *)
Fixpoint add_jumps (fuel : nat) (t : table) (rec : Z) (q : list (Z * Z)) : res table :=
  match q with
  | [] => Ret t
  | (op, off) :: q' => r ← st_jmp_add fuel rec op off t; add_jumps fuel r.1 rec q'
  end.

(** Backpatching queues. Jumps added for a symbol wait in the order they
    were added, none is lost, until [st_jmp_clear] empties the queue. *)
Theorem jump_queue fuel t rec q q' :
  queue t rec q → (length q + length q' < fuel)%nat →
  ∃ t1 t2, add_jumps fuel t rec q' = Ret t1 ∧ queue t1 rec (q ++ q') ∧
    st_jmp_clear fuel rec t1 = Ret t2 ∧ queue t2 rec [].
Proof.
  revert t q. induction q' as [|[op off] q' IH]; intros t q Hq Hf; cbn [add_jumps].
  - destruct (jmp_clear_queue fuel t rec q Hq) as (t' & Hc & Hq'); [cbn in Hf; lia|].
    exists t, t'. rewrite app_nil_r. done.
  - cbn in Hf. destruct (jmp_add_queue fuel t rec q op off Hq) as (t1 & -> & Hq1); [lia|]. res_cbn.
    destruct (IH t1 (q ++ [(op, off)]) Hq1) as (t2 & t3 & H1 & H2 & H3 & H4).
    { rewrite length_app. cbn. lia. }
    exists t2, t3. by rewrite <-app_assoc in H2.
Qed.

Lemma jump_queue_witness :
  ∃ t1 t2, add_jumps 5 two_symbols 2 [(101, 10); (102, 20)] = Ret t1 ∧ queue t1 2 ([] ++ [(101, 10); (102, 20)]) ∧
    st_jmp_clear 5 2 t1 = Ret t2 ∧ queue t2 2 [].
Proof.
  apply (jump_queue 5 two_symbols 2 [] [(101, 10); (102, 20)]); [|cbn; lia].
  split; [apply store_ok_empty|]. exists label_w, []. split; [done|]. split; [constructor|done].
Defined.
