(* ===== verification/Package.v ===== *)
(** * Packages: objects and encoder (StackLib/Stack/pkg_encoder_apis.c,
    pkg_encoder.c)

    The classes, interfaces, methods and try-catch blocks of a compiled script
    are structures chained by [next] (Links.v); the encoder writes them as
    tag-length-value records into [_pkg_buffer], whose 65536 bytes are the
    bound of Prelude's buffers. *)
From S2P Require Import Prelude Links.

Definition ASN_TAG_CONSTRUCTED : Z := 0x20.
Definition ASN_TAG_INTEGER : Z := 2.
Definition ASN_TAG_OCTSTRING : Z := 4.
Definition ASN_TAG_OBJDESC : Z := 7.
Definition ASN_TAG_ENUM : Z := 10.
Definition ASN_TAG_SEQ : Z := 16.
Definition ASN_TAG_IA5STRING : Z := 22.
Definition ASN_TAG_CHSTRING : Z := 29.
Definition ASN_TAG_BMPSTRING : Z := 30.

(** ** Objects *)

(** [pk_method]: strings are their characters; [param_types] holds the entries
    that were written, [call_type] and [ret_type] are [None] until assigned. *)
Record method := mkMethod {
  m_parent : option Z; m_name : list Z; numargs : Z; m_offset : Z; m_event : Z;
  m_alias : list Z; call_type : option Z; ret_type : option Z;
  param_types : gmap Z Z; callback : option Z }.

(** [pk_class], [pk_interface] (a class and the name of its library),
    [pk_method], [pk_tcblock], by their tag. The field [parent] of a class is
    [None] until written. *)
Inductive pkbody :=
  | PK_TAG_CLASS (parent : option (option Z)) (properties : option Z) (name : list Z)
  | PK_TAG_INTERFACE (parent : option (option Z)) (properties : option Z) (name libname : list Z)
  | PK_TAG_METHOD (m : method)
  | PK_TAG_TCBLOCK (start cblock num_args : Z).

Record pkobj := mkObj { codebase : option Z; o_next : option Z; body : pkbody }.

#[export] Instance pk_node : Node pkobj := {
  nx := o_next;
  set_nx q o := mkObj (codebase o) q (body o);
  nx_set_nx _ _ := eq_refl;
}.

Definition set_body (b : pkbody) (o : pkobj) : pkobj := mkObj (codebase o) (o_next o) b.
Definition set_codebase (c : option Z) (o : pkobj) : pkobj := mkObj c (o_next o) (body o).

(** what a cast to [pk_class *] gives: parent, properties and name. A cast of
    another structure reads outside or across its fields. *)
Definition class_view (o : pkobj) : res (option (option Z) * option Z * list Z) :=
  match body o with
  | PK_TAG_CLASS p ps n | PK_TAG_INTERFACE p ps n _ => Ret (p, ps, n)
  | _ => Undef
  end.

Definition set_properties (q : option Z) (o : pkobj) : pkobj :=
  match body o with
  | PK_TAG_CLASS p _ n => set_body (PK_TAG_CLASS p q n) o
  | PK_TAG_INTERFACE p _ n l => set_body (PK_TAG_INTERFACE p q n l) o
  | _ => o
  end.

Definition method_view (o : pkobj) : res method :=
  match body o with PK_TAG_METHOD m => Ret m | _ => Undef end.

Definition is_class (o : pkobj) : bool :=
  match body o with PK_TAG_CLASS _ _ _ | PK_TAG_INTERFACE _ _ _ _ => true | _ => false end.

(** a string copied into a field of [n] characters *)
Definition fits (n : Z) (s : list Z) : res unit := guardb (Z.of_nat (length s) <? n).

(** ** Constructors and lists *)
Definition pk_create_method (name : list Z) (nargs off : Z) (s : store pkobj) : res (Z * store pkobj) :=
  _ ← fits 256 name;
  Ret (malloc (mkObj None None (PK_TAG_METHOD (mkMethod None name nargs off 0xFF [] None None ∅ None))) s).

Definition pk_create_class (name : list Z) (s : store pkobj) : res (Z * store pkobj) :=
  _ ← fits 256 name;
  Ret (malloc (mkObj None None (PK_TAG_CLASS None None name)) s).

Definition pk_create_interface (name libname : list Z) (base : option Z) (s : store pkobj) : res (Z * store pkobj) :=
  _ ← fits 256 name; _ ← fits 256 libname;
  Ret (malloc (mkObj None None (PK_TAG_INTERFACE (Some base) None name libname)) s).

Definition pk_create_tcblock (start cblock nargs : Z) (s : store pkobj) : Z * store pkobj :=
  malloc (mkObj None None (PK_TAG_TCBLOCK start cblock nargs)) s.

(** [pk_add_object]: the new value of [*root], and the store *)
Definition pk_add_object (fuel : nat) (root : option Z) (obj : Z) (s : store pkobj) : res (option Z * store pkobj) :=
  match root with
  | None => Ret (Some obj, s)
  | Some r => l ← loop fuel (last_step s) r; s' ← upd l (set_nx (Some obj)) s; Ret (root, s')
  end.

Definition pk_get_last_root (fuel : nat) (root : option Z) (s : store pkobj) : res (option Z) :=
  match root with None => Ret None | Some r => l ← loop fuel (last_step s) r; Ret (Some l) end.

Definition pk_merge_root (fuel : nat) (root new_root : option Z) (s : store pkobj) : res (store pkobj) :=
  match root with
  | None => Ret s
  | Some r => l ← loop fuel (last_step s) r; upd l (set_nx new_root) s
  end.

(** [pk_install_class], [pk_install_interface], [pk_install_tcblock]: the
    object, the new root, the store *)
Definition pk_install (fuel : nat) (root : option Z) (m : Z * store pkobj) : res (Z * option Z * store pkobj) :=
  r ← pk_add_object fuel root m.1 m.2; Ret (m.1, r.1, r.2).

Definition pk_install_class (fuel : nat) (root : option Z) (name : list Z) (s : store pkobj) :=
  m ← pk_create_class name s; pk_install fuel root m.
Definition pk_install_interface (fuel : nat) (root : option Z) (name libname : list Z) (s : store pkobj) :=
  m ← pk_create_interface name libname None s; pk_install fuel root m.
Definition pk_install_tcblock (fuel : nat) (root : option Z) (start cblock nargs : Z) (s : store pkobj) :=
  pk_install fuel root (pk_create_tcblock start cblock nargs s).

(** ** Lookup *)
Definition select_class_step (s : store pkobj) (name : list Z) (iterator : option Z) : res (option Z + option Z) :=
  match iterator with
  | None => Ret (inr None)
  | Some a =>
      o ← deref s a;
      v ← class_view o;
      Ret (if bool_decide (v.2 = name) then inr (Some a) else inl (o_next o))
  end.

Definition pk_select_class (fuel : nat) (root : option Z) (name : list Z) (s : store pkobj) : res (option Z) :=
  loop fuel (select_class_step s name) root.

Definition find_method_step (s : store pkobj) (name : list Z) (iterator : option Z) : res (option Z + option Z) :=
  match iterator with
  | None => Ret (inr None)
  | Some a =>
      o ← deref s a;
      m ← method_view o;
      Ret (if bool_decide (m_name m = name) then inr (Some a) else inl (o_next o))
  end.

(** the search in a class, then in its base classes; the return for an empty
    list comes before the search in the base *)
Fixpoint pk_select_method (fuel : nat) (parent : option Z) (name : list Z) (s : store pkobj) : res (option Z) :=
  match fuel with
  | O => Timeout
  | S fuel' =>
      match parent with
      | None => Ret None
      | Some p =>
          o ← deref s p;
          if is_class o then
            v ← class_view o;
            match v.1.2 with
            | None => Ret None
            | Some ps =>
                r ← loop fuel (find_method_step s name) (Some ps);
                match r with
                | Some a => Ret (Some a)
                | None =>
                    base ← from_option_ub v.1.1;
                    match base with
                    | Some _ => pk_select_method fuel' base name s
                    | None => Ret None
                    end
                end
            end
          else Ret None
      end
  end.

(** ** Methods *)
Definition upd_method (a : Z) (f : method → method) (s : store pkobj) : res (store pkobj) :=
  o ← deref s a; m ← method_view o; upd a (set_body (PK_TAG_METHOD (f m))) s.

Definition pk_register_method (fuel : nat) (parent : option Z) (name : list Z) (nargs ct rt off : Z)
    (cb : option Z) (s : store pkobj) : res (option Z * store pkobj) :=
  match parent with
  | None => Ret (None, s)
  | Some p =>
      r ← pk_create_method name nargs (u16 off) s;
      s1 ← upd_method r.1 (λ m, mkMethod parent (m_name m) (numargs m) (m_offset m) (m_event m) (m_alias m)
                                  (Some ct) (Some rt) (param_types m) cb) r.2;
      o ← deref s1 p;
      v ← class_view o;
      match v.1.2 with
      | None => s2 ← upd p (set_properties (Some r.1)) s1; Ret (Some r.1, s2)
      | Some ps => l ← loop fuel (last_step s1) ps; s2 ← upd l (set_nx (Some r.1)) s1; Ret (Some r.1, s2)
      end
  end.

Definition pk_set_arg (mtd : option Z) (id type : Z) (s : store pkobj) : res (store pkobj) :=
  match mtd with
  | None => Ret s
  | Some a =>
      if 15 <? id then Ret s
      else upd_method a (λ m, mkMethod (m_parent m) (m_name m) (numargs m) (m_offset m) (m_event m) (m_alias m)
             (call_type m) (ret_type m) (<[id := u8 type]> (param_types m)) (callback m)) s
  end.

Definition pk_set_callback (mtd : option Z) (cb : option Z) (s : store pkobj) : res (store pkobj) :=
  match mtd with
  | None => Ret s
  | Some a => upd_method a (λ m, mkMethod (m_parent m) (m_name m) (numargs m) (m_offset m) (m_event m) (m_alias m)
                (call_type m) (ret_type m) (param_types m) cb) s
  end.

Definition pk_register_method_args (fuel : nat) (parent : option Z) (name : list Z) (nargs : Z) (s : store pkobj)
    : res (option Z * store pkobj) :=
  pkm ← pk_select_method fuel parent name s;
  match pkm with
  | None => Ret (None, s)
  | Some a => s' ← upd_method a (λ m, mkMethod (m_parent m) (m_name m) nargs (m_offset m) (m_event m) (m_alias m)
                (call_type m) (ret_type m) (param_types m) (callback m)) s; Ret (pkm, s')
  end.

(** the build without [STANDALONE_COMPILER] *)
Definition pk_register_menu (fuel : nat) (parent : option Z) (name aliasname : list Z) (s : store pkobj)
    : res (option Z * store pkobj) :=
  pkm ← pk_select_method fuel parent name s;
  match pkm with
  | None => Ret (None, s)
  | Some a =>
      _ ← fits 64 aliasname;
      s' ← upd_method a (λ m, mkMethod (m_parent m) (m_name m) (numargs m) (m_offset m) (m_event m) aliasname
             (call_type m) (ret_type m) (param_types m) (callback m)) s; Ret (pkm, s')
  end.

Definition pk_register_event (fuel : nat) (parent : option Z) (name : list Z) (id : Z) (s : store pkobj)
    : res (option Z * store pkobj) :=
  pkm ← pk_select_method fuel parent name s;
  match pkm with
  | None => Ret (None, s)
  | Some a => s' ← upd_method a (λ m, mkMethod (m_parent m) (m_name m) (numargs m) (m_offset m) id (m_alias m)
                (call_type m) (ret_type m) (param_types m) (callback m)) s; Ret (pkm, s')
  end.

(** ** The encoder *)

(** the bytes of a 16-bit and of a 32-bit integer in memory, low byte first *)
Definition le16 (x : Z) : list Z := [x mod 256; x / 256 mod 256].
Definition le32 (x : Z) : list Z := le16 x ++ le16 (x / 65536).

(** [end_swap32] of defs.h on an [int] *)
Definition end_swap32 (x : Z) : Z :=
  Z.lor (Z.lor (Z.shiftr (Z.land x 0xff000000) 24) (Z.shiftr (Z.land x 0x00ff0000) 8))
        (Z.lor (Z.shiftl (Z.land x 0x0000ff00) 8) (Z.shiftl (Z.land x 0xff) 24)).

(** [pk_push_tlv]: the value is in other memory ([inl], from address 0) or in
    the same buffer ([inr], its address); [l] is a [uint16]. *)
Definition pk_push_tlv (t l : Z) (v : buf + Z) (b : buf) (at_ : Z) : res (buf * Z) :=
  b1 ← wr8 b at_ t;
  h ← (if l <? 127 then b2 ← wr8 b1 (at_ + 1) l; Ret (b2, 2)
       else
         b2 ← wr8 b1 (at_ + 1) 0x82;
         b3 ← wr8 b2 (at_ + 2) (Z.shiftr l 8);
         b4 ← wr8 b3 (at_ + 3) l;
         Ret (b4, 4));
  b5 ← match v with
       | inl src => memcpy_buf h.1 src (at_ + h.2) 0 l
       | inr a => memcpy_buf h.1 h.1 (at_ + h.2) a l
       end;
  Ret (b5, l + h.2).

Definition push_bytes (t : Z) (v : list Z) (b : buf) (at_ : Z) : res (buf * Z) :=
  pk_push_tlv t (u16 (Z.of_nat (length v))) (inl (bstore ∅ 0 v)) b at_.

(** the menu and event entries of a method *)
Definition flush_entry (m : method) (b : buf) (at_ : Z) : res (buf * Z) :=
  let offset := end_swap16 (m_offset m) in
  r1 ← match m_alias m with
       | [] => Ret (b, 0)
       | _ => push_bytes ASN_TAG_OCTSTRING (le16 offset ++ m_alias m) b at_
       end;
  r2 ← (if m_event m =? 0xFF then Ret (r1.1, 0)
        else push_bytes ASN_TAG_INTEGER (le16 offset ++ [m_event m]) r1.1 (at_ + r1.2));
  Ret (r2.1, r1.2 + r2.2).

(** [pk_flush_entries]: the objects from [object] on, written from address
    [at_]; the loop over them is the second recursive call *)
Fixpoint pk_flush_entries (fuel : nat) (s : store pkobj) (object : option Z) (b : buf) (at_ : Z) : res (buf * Z) :=
  match fuel with
  | O => Timeout
  | S fuel' =>
      match object with
      | None => Ret (b, 0)
      | Some a =>
          o ← deref s a;
          r ← match body o with
              | PK_TAG_CLASS _ ps _ | PK_TAG_INTERFACE _ ps _ _ =>
                  match ps with
                  | Some _ => pk_flush_entries fuel' s ps b at_
                  | None => Ret (b, 0)
                  end
              | PK_TAG_METHOD m => flush_entry m b at_
              | PK_TAG_TCBLOCK _ _ _ => Ret (b, 0)
              end;
          r' ← pk_flush_entries fuel' s (o_next o) r.1 (at_ + r.2);
          Ret (r'.1, r.2 + r'.2)
      end
  end.

(** the types of the first [n] arguments *)
Fixpoint arg_types (n : nat) (k : Z) (p : gmap Z Z) : res (list Z) :=
  match n with
  | O => Ret []
  | S n' => x ← from_option_ub (p !! k); l ← arg_types n' (k + 1) p; Ret (x :: l)
  end.

(** the tag and the value of a method's record: of an interface method, or of
    a method with code *)
Definition method_record (s : store pkobj) (m : method) : res (Z * list Z) :=
  p ← from_option_ub (m_parent m);
  po ← deref s p;
  match body po with
  | PK_TAG_INTERFACE _ _ _ _ =>
      ct ← from_option_ub (call_type m);
      rt ← from_option_ub (ret_type m);
      guardb (numargs m <=? 16) ≫= λ _,
      ts ← arg_types (Z.to_nat (numargs m)) 0 (param_types m);
      Ret (ASN_TAG_OBJDESC, [ct; rt; numargs m] ++ ts ++ m_name m)
  | _ => Ret (ASN_TAG_OCTSTRING, le16 (end_swap16 (m_offset m)) ++ [numargs m] ++ m_name m)
  end.

(** [pk_flush_objects]; the record of a class moves down over the room left
    for its header *)
Fixpoint pk_flush_objects (fuel : nat) (s : store pkobj) (object : option Z) (b : buf) (at_ : Z) : res (buf * Z) :=
  match fuel with
  | O => Timeout
  | S fuel' =>
      match object with
      | None => Ret (b, 0)
      | Some a =>
          o ← deref s a;
          r ← match body o with
              | PK_TAG_CLASS _ ps _ | PK_TAG_INTERFACE _ ps _ _ =>
                  r1 ← match body o with
                       | PK_TAG_INTERFACE _ _ _ lib => push_bytes ASN_TAG_CHSTRING lib b (at_ + 4)
                       | _ => Ret (b, 0)
                       end;
                  v ← class_view o;
                  r2 ← push_bytes ASN_TAG_IA5STRING v.2 r1.1 (at_ + r1.2 + 4);
                  let csz := r1.2 + r2.2 in
                  r3 ← match ps with
                       | Some _ => pk_flush_objects fuel' s ps r2.1 (at_ + csz + 2)
                       | None => Ret (r2.1, 0)
                       end;
                  pk_push_tlv (Z.lor ASN_TAG_SEQ ASN_TAG_CONSTRUCTED) (u16 (csz + r3.2)) (inr (at_ + 4)) r3.1 at_
              | PK_TAG_METHOD m =>
                  tv ← method_record s m; push_bytes tv.1 tv.2 b (at_ + 2)
              | PK_TAG_TCBLOCK start cblock nargs =>
                  push_bytes ASN_TAG_ENUM (le32 (end_swap32 start) ++ le32 (end_swap32 cblock) ++ [0; nargs]) b at_
              end;
          r' ← pk_flush_objects fuel' s (o_next o) r.1 (at_ + r.2);
          Ret (r'.1, r.2 + r'.2)
      end
  end.

(** [pk_flush_root]: [_pk_root] and [_pkg_buffer] *)
Definition pk_flush_root (fuel : nat) (s : store pkobj) (root : option Z) (b : buf) : res (buf * Z) :=
  r1 ← pk_flush_entries fuel s root b 6;
  r2 ← pk_flush_objects fuel s root r1.1 (r1.2 + 6);
  pk_push_tlv (Z.lor ASN_TAG_SEQ ASN_TAG_CONSTRUCTED) (u16 (r1.2 + r2.2)) (inr 6) r2.1 0.

(** [pk_file_flush] to an open file: what is written to it *)
Definition pk_file_flush (fuel : nat) (s : store pkobj) (root : option Z) (b : buf) (codes : buf) (csize : Z)
    : res (list Z) :=
  r ← pk_flush_root fuel s root b;
  r' ← pk_push_tlv ASN_TAG_BMPSTRING (u16 csize) (inl codes) r.1 r.2;
  Ret (bslice r'.1 0 (Z.to_nat (r.2 + r'.2))).

(** [pk_set_codebase]: the objects of a list, and those they contain *)
Definition set_codebase_step (c : option Z) (st : option Z * store pkobj) : res (option Z * store pkobj + store pkobj) :=
  match st.1 with
  | None => Ret (inr st.2)
  | Some a => o ← deref st.2 a; s ← upd a (set_codebase c) st.2; Ret (inl (o_next o, s))
  end.

Definition set_codebase_class (fuel : nat) (c : option Z) (st : option Z * store pkobj)
    : res (option Z * store pkobj + store pkobj) :=
  match st.1 with
  | None => Ret (inr st.2)
  | Some a =>
      o ← deref st.2 a;
      s1 ← match body o with
           | PK_TAG_CLASS _ ps _ | PK_TAG_INTERFACE _ ps _ _ => loop fuel (set_codebase_step c) (ps, st.2)
           | PK_TAG_METHOD _ => Undef
           | PK_TAG_TCBLOCK _ _ _ => Ret st.2
           end;
      s2 ← upd a (set_codebase c) s1;
      Ret (inl (o_next o, s2))
  end.

Definition pk_set_codebase (fuel : nat) (root : option Z) (c : option Z) (s : store pkobj) : res (store pkobj) :=
  loop fuel (set_codebase_class fuel c) (root, s).

(** [pk_dispatch_tc_entries]: iterator, previous object, [root[0]],
    [entries[0]], store. A block that is not at the head of the list is not
    unlinked from the object before it. *)
Definition dispatch_step (fuel : nat) (st : option Z * option Z * option Z * option Z * store pkobj)
    : res (option Z * option Z * option Z * option Z * store pkobj + option Z * option Z * store pkobj) :=
  let '(iterator, prev, root, entries, s) := st in
  match iterator with
  | None => Ret (inr (root, entries, s))
  | Some a =>
      o ← deref s a;
      match body o with
      | PK_TAG_TCBLOCK _ _ _ =>
          let root' := match prev with None => o_next o | Some _ => root end in
          s1 ← upd a (set_nx None) s;
          r ← pk_add_object fuel entries a s1;
          Ret (inl (o_next o, prev, root', r.1, r.2))
      | _ => Ret (inl (o_next o, Some a, root, entries, s))
      end
  end.

Definition pk_dispatch_tc_entries (fuel : nat) (root entries : option Z) (s : store pkobj)
    : res (option Z * option Z * store pkobj) :=
  loop fuel (dispatch_step fuel) (root, None, root, entries, s).

(** ** The reference encoding *)
Definition enc_len (l : Z) : list Z := if l <? 127 then [l] else [0x82; l / 256; l mod 256].

Definition tlv (t : Z) (v : list Z) : list Z := t :: enc_len (Z.of_nat (length v)) ++ v.

Lemma enc_len_length l : Z.of_nat (length (enc_len l)) = if l <? 127 then 1 else 3.
Proof. unfold enc_len. by destruct (l <? 127). Qed.

Lemma enc_len_bytes l : 0 ≤ l < 65536 → Forall is_byte (enc_len l).
Proof.
  intros H. unfold enc_len. destruct (Z.ltb_spec l 127).
  - apply Forall_cons. split; [unfold is_byte; lia|by apply Forall_nil].
  - repeat (apply Forall_cons; split); try (by apply Forall_nil); unfold is_byte;
      [lia|pose proof (Z.div_lt_upper_bound l 256 256); pose proof (Z.div_pos l 256); lia
      |pose proof (Z.mod_pos_bound l 256); lia].
Qed.

(** the bytes of a method's menu and event entries *)
Definition entry_bytes (m : method) : list Z :=
  (match m_alias m with [] => [] | _ => tlv ASN_TAG_OCTSTRING (word (u16 (m_offset m)) ++ m_alias m) end) ++
  (if m_event m =? 0xFF then [] else tlv ASN_TAG_INTEGER (word (u16 (m_offset m)) ++ [m_event m])).

(** what a class record starts with *)
Definition class_prefix (o : pkobj) : option (list Z * option Z) :=
  match body o with
  | PK_TAG_CLASS _ ps n => Some (tlv ASN_TAG_IA5STRING n, ps)
  | PK_TAG_INTERFACE _ ps n lib => Some (tlv ASN_TAG_CHSTRING lib ++ tlv ASN_TAG_IA5STRING n, ps)
  | _ => None
  end.

Definition be32 (x : Z) : list Z := word (u16 (x / 65536)) ++ word (u16 x).

Definition method_bytes (m : method) : Prop :=
  Forall is_byte (m_name m) ∧ Forall is_byte (m_alias m) ∧ is_byte (m_event m) ∧
  Z.of_nat (length (m_alias m)) < 64.

(** [methods_enc s p ee eo]: the methods from [p] on have the entries [ee] and
    the records [eo]; [objects_enc] the same for a root list. *)
Inductive methods_enc (s : store pkobj) : option Z → list Z → list Z → Prop :=
  | me_nil : methods_enc s None [] []
  | me_cons a o m t v ee eo :
      cells s !! a = Some o → body o = PK_TAG_METHOD m → method_bytes m →
      method_record s m = Ret (t, v) → Forall is_byte v →
      methods_enc s (o_next o) ee eo →
      methods_enc s (Some a) (entry_bytes m ++ ee) (tlv t v ++ eo).

Inductive objects_enc (s : store pkobj) : option Z → list Z → list Z → Prop :=
  | oe_nil : objects_enc s None [] []
  | oe_class a o pre ps ee eo ee' eo' :
      cells s !! a = Some o → class_prefix o = Some (pre, ps) → Forall is_byte pre →
      methods_enc s ps ee eo → objects_enc s (o_next o) ee' eo' →
      objects_enc s (Some a) (ee ++ ee') (tlv 0x30 (pre ++ eo) ++ eo')
  | oe_tcblock a o start cblock nargs ee eo :
      cells s !! a = Some o → body o = PK_TAG_TCBLOCK start cblock nargs → is_byte nargs →
      objects_enc s (o_next o) ee eo →
      objects_enc s (Some a) ee (tlv ASN_TAG_ENUM (be32 start ++ be32 cblock ++ [0; nargs]) ++ eo).

(** ** The encoder writes the reference encoding *)

(** [written b at l b']: [b'] has the bytes [l] at [at], and what [b] has
    below [at]; [exactly] when nothing above has changed either. *)
Definition written (b : buf) (at_ : Z) (l : list Z) (b' : buf) : Prop :=
  region b' at_ l ∧ ∀ j, j < at_ → bget b' j = bget b j.

Definition exactly (b : buf) (at_ : Z) (l : list Z) (b' : buf) : Prop :=
  region b' at_ l ∧ ∀ j, j < at_ ∨ at_ + Z.of_nat (length l) ≤ j → bget b' j = bget b j.

Lemma exactly_written b at_ l b' : exactly b at_ l b' → written b at_ l b'.
Proof. intros [H1 H2]. split; [done|]. intros j Hj. apply H2. by left. Qed.

Lemma exactly_bstore b at_ l : Forall is_byte l → exactly b at_ l (bstore b at_ l).
Proof. intros Hl. split; [by apply region_bstore|]. intros j Hj. by apply bget_bstore_out. Qed.

Lemma exactly_app b at_ l1 b1 l2 b2 :
  exactly b at_ l1 b1 → exactly b1 (at_ + Z.of_nat (length l1)) l2 b2 → exactly b at_ (l1 ++ l2) b2.
Proof.
  intros [H1 F1] [H2 F2]. split.
  - apply region_app. split; [|done]. eapply region_agree; [exact H1|]. intros j Hj. apply F2. lia.
  - intros j Hj. rewrite length_app in Hj. rewrite F2, F1 by lia. done.
Qed.

Lemma exactly_nil b at_ : exactly b at_ [] b.
Proof. split; [apply region_nil|done]. Qed.

Lemma written_app b at_ l1 b1 l2 b2 :
  written b at_ l1 b1 → written b1 (at_ + Z.of_nat (length l1)) l2 b2 → written b at_ (l1 ++ l2) b2.
Proof.
  intros [H1 F1] [H2 F2]. split.
  - apply region_app. split; [|done]. eapply region_agree; [exact H1|]. intros j Hj. apply F2. lia.
  - intros j Hj. rewrite F2, F1 by lia. done.
Qed.

(** the header of a record *)
Definition put_header (t l : Z) (b : buf) (at_ : Z) : res (buf * Z) :=
  b1 ← wr8 b at_ t;
  if l <? 127 then b2 ← wr8 b1 (at_ + 1) l; Ret (b2, 2)
  else
    b2 ← wr8 b1 (at_ + 1) 0x82;
    b3 ← wr8 b2 (at_ + 2) (Z.shiftr l 8);
    b4 ← wr8 b3 (at_ + 3) l;
    Ret (b4, 4).

Lemma push_tlv_header t l v b at_ :
  pk_push_tlv t l v b at_ =
    (h ← put_header t l b at_;
     b5 ← match v with
          | inl src => memcpy_buf h.1 src (at_ + h.2) 0 l
          | inr a => memcpy_buf h.1 h.1 (at_ + h.2) a l
          end;
     Ret (b5, l + h.2)).
Proof. unfold pk_push_tlv, put_header. by destruct (wr8 b at_ t). Qed.

Lemma put_header_ok t l b at_ :
  is_byte t → 0 ≤ l < 65536 → 0 ≤ at_ → at_ + 4 ≤ MAX_BUFFER_SIZE →
  ∃ h, put_header t l b at_ = Ret (h, 1 + Z.of_nat (length (enc_len l))) ∧ exactly b at_ (t :: enc_len l) h.
Proof.
  intros Ht Hl Hat Hmax. unfold put_header, enc_len. rewrite wr8_in by lia. res_cbn.
  destruct (Z.ltb_spec l 127) as [Hlt|Hge].
  - rewrite wr8_in by lia. res_cbn. eexists. split; [done|].
    change (<[at_+1:=u8 l]> (<[at_:=u8 t]> b)) with (bstore b at_ [t; l]). apply exactly_bstore.
    repeat (apply Forall_cons; split); try (by apply Forall_nil); [done|unfold is_byte; lia].
  - rewrite !wr8_in by lia. res_cbn. rewrite !wr8_in by lia. res_cbn. rewrite !wr8_in by lia. res_cbn.
    eexists. split; [done|].
    replace (u8 (Z.shiftr l 8)) with (u8 (l / 256)) by (by rewrite Z.shiftr_div_pow2 by lia).
    replace (u8 l) with (u8 (l mod 256)) by (unfold u8; change (2 ^ 8) with 256; by rewrite Zmod_mod).
    replace (at_ + 2) with (at_ + 1 + 1) by lia. replace (at_ + 3) with (at_ + 1 + 1 + 1) by lia.
    match goal with |- exactly _ _ ?l ?x => change x with (bstore b at_ l) end. apply exactly_bstore.
    apply Forall_cons. split; [done|]. pose proof (enc_len_bytes l Hl) as H. unfold enc_len in H.
    by rewrite (proj2 (Z.ltb_ge _ _)) in H by lia.
Qed.

Lemma tlv_length t v : Z.of_nat (length (tlv t v)) =
  Z.of_nat (length v) + (1 + Z.of_nat (length (enc_len (Z.of_nat (length v))))).
Proof. unfold tlv. cbn [length]. rewrite length_app. lia. Qed.

(** a record whose value is in other memory *)
Lemma push_bytes_ok t v b at_ :
  is_byte t → Forall is_byte v → 0 ≤ at_ → at_ + Z.of_nat (length (tlv t v)) ≤ MAX_BUFFER_SIZE →
  at_ + 4 ≤ MAX_BUFFER_SIZE →
  ∃ b', push_bytes t v b at_ = Ret (b', Z.of_nat (length (tlv t v))) ∧ exactly b at_ (tlv t v) b'.
Proof.
  intros Ht Hv Hat Hmax Hmax4. rewrite tlv_length in Hmax. unfold MAX_BUFFER_SIZE in *.
  unfold push_bytes. rewrite u16_id by (unfold is_u16; lia). rewrite push_tlv_header.
  destruct (put_header_ok t (Z.of_nat (length v)) b at_ Ht) as (h & -> & Hh); unfold MAX_BUFFER_SIZE in *; [lia..|].
  res_cbn. rewrite memcpy_buf_in by (unfold MAX_BUFFER_SIZE; lia). res_cbn.
  rewrite Nat2Z.id. rewrite (region_to_bslice (bstore ∅ 0 v) 0 v) by by apply region_bstore.
  eexists. split; [by rewrite tlv_length|]. unfold tlv. rewrite app_comm_cons.
  eapply exactly_app; [exact Hh|]. cbn [length].
  replace (at_ + Z.of_nat (S (length (enc_len (Z.of_nat (length v))))))
    with (at_ + (1 + Z.of_nat (length (enc_len (Z.of_nat (length v)))))) by lia.
  by apply exactly_bstore.
Qed.

(** a record whose value is already in the buffer, behind the header *)
Lemma push_here_ok t v b at_ a :
  is_byte t → Forall is_byte v → 0 ≤ at_ → at_ + 4 ≤ a → a + Z.of_nat (length v) ≤ MAX_BUFFER_SIZE →
  region b a v →
  ∃ b', pk_push_tlv t (u16 (Z.of_nat (length v))) (inr a) b at_ = Ret (b', Z.of_nat (length (tlv t v))) ∧
        written b at_ (tlv t v) b'.
Proof.
  intros Ht Hv Hat Ha Hmax Hr. unfold MAX_BUFFER_SIZE in *.
  rewrite u16_id by (unfold is_u16; lia). rewrite push_tlv_header.
  destruct (put_header_ok t (Z.of_nat (length v)) b at_ Ht) as (h & -> & Hh); unfold MAX_BUFFER_SIZE in *; [lia..|].
  pose proof (enc_len_length (Z.of_nat (length v))) as Hel.
  assert (Hel3 : Z.of_nat (length (enc_len (Z.of_nat (length v)))) ≤ 3) by (destruct (_ <? _) in Hel; lia).
  res_cbn. rewrite memcpy_buf_in by (unfold MAX_BUFFER_SIZE; lia). res_cbn. rewrite Nat2Z.id.
  assert (Hrh : region h a v).
  { eapply region_agree; [exact Hr|]. intros j Hj. destruct Hh as [_ Hf]. apply Hf. right. cbn [length]. lia. }
  rewrite (region_to_bslice _ _ _ Hrh).
  eexists. split; [by rewrite tlv_length|]. apply exactly_written. unfold tlv. rewrite app_comm_cons.
  eapply exactly_app; [exact Hh|]. cbn [length].
  replace (at_ + Z.of_nat (S (length (enc_len (Z.of_nat (length v))))))
    with (at_ + (1 + Z.of_nat (length (enc_len (Z.of_nat (length v)))))) by lia.
  by apply exactly_bstore.
Qed.

(** the two digits of a number in base 256 *)
Lemma digits256 y lo hi : y = lo + 256 * hi → 0 ≤ lo < 256 → y mod 256 = lo ∧ y / 256 = hi.
Proof.
  intros -> Hlo. rewrite (Z.mul_comm 256), Z.mod_add, Z.div_add, Z.mod_small, Z.div_small by lia. lia.
Qed.

Lemma mod256 y : 0 ≤ y mod 256 < 256.
Proof. apply Z.mod_pos_bound. lia. Qed.

Lemma le16_swap x : le16 (end_swap16 x) = word (u16 x).
Proof.
  unfold le16, word. pose proof (mod256 (x / 256)). pose proof (mod256 x).
  destruct (digits256 (end_swap16 x) (x / 256 mod 256) (x mod 256)) as [-> ->];
    [apply end_swap16_spec|done|].
  destruct (digits256 (u16 x) (x mod 256) (x / 256 mod 256)) as [-> ->]; [|done|].
  - unfold u16. change (2 ^ 16) with (256 * 256). by rewrite Z.rem_mul_r by lia.
  - by rewrite Zmod_mod.
Qed.

Lemma land_shiftl y m n : 0 ≤ n → Z.land y (Z.shiftl m n) = Z.shiftl (Z.land (Z.shiftr y n) m) n.
Proof.
  intros Hn. apply Z.bits_inj'. intros k Hk.
  rewrite Z.land_spec, !Z.shiftl_spec, Z.land_spec by lia.
  destruct (Z.ltb_spec k n).
  - rewrite !(Z.testbit_neg_r _ (k - n)) by lia. by rewrite !andb_false_r.
  - rewrite Z.shiftr_spec by lia. do 2 f_equal. lia.
Qed.

Lemma land_byte y n : 0 ≤ n → Z.land (Z.shiftr y n) (Z.ones 8) = y / 2 ^ n mod 256.
Proof. intros Hn. rewrite Z.land_ones, Z.shiftr_div_pow2 by lia. done. Qed.

Lemma end_swap32_spec x :
  end_swap32 x = x / 2 ^ 24 mod 256 + 2 ^ 8 * (x / 2 ^ 16 mod 256) + 2 ^ 16 * (x / 2 ^ 8 mod 256) + 2 ^ 24 * (x mod 256).
Proof.
  unfold end_swap32.
  change 0xff000000 with (Z.shiftl (Z.ones 8) 24). change 0x00ff0000 with (Z.shiftl (Z.ones 8) 16).
  change 0x0000ff00 with (Z.shiftl (Z.ones 8) 8). change 0xff with (Z.ones 8).
  rewrite !land_shiftl, !land_byte by lia.
  rewrite (Z.shiftr_shiftl_l _ 24 24), (Z.shiftr_shiftl_l _ 16 8) by lia.
  rewrite (Z.shiftl_shiftl _ 8 8) by lia. rewrite Z.land_ones by lia.
  change (24 - 24) with 0. change (16 - 8) with 8. change (8 + 8) with 16. rewrite Z.shiftl_0_r.
  change (x mod 2 ^ 8) with (x mod 256). rewrite Z.lor_assoc.
  pose proof (mod256 (x / 2 ^ 24)). pose proof (mod256 (x / 2 ^ 16)). pose proof (mod256 (x / 2 ^ 8)).
  rewrite (lor_shiftl_add (x / 2 ^ 24 mod 256) _ 8), (Z.shiftl_mul_pow2 _ 8) by lia.
  rewrite (lor_shiftl_add _ _ 16), (Z.shiftl_mul_pow2 _ 16) by lia.
  rewrite (lor_shiftl_add _ _ 24), (Z.shiftl_mul_pow2 _ 24) by lia. lia.
Qed.

Lemma le32_swap x : le32 (end_swap32 x) = be32 x.
Proof.
  unfold le32, be32. rewrite <-!le16_swap. rewrite end_swap32_spec. unfold le16.
  rewrite !end_swap16_spec.
  replace (x / 65536 / 256) with (x / 2 ^ 24) by (rewrite Z.div_div by lia; done).
  change (x / 65536) with (x / 2 ^ 16). change (x / 256) with (x / 2 ^ 8).
  pose proof (mod256 (x / 2 ^ 24)). pose proof (mod256 (x / 2 ^ 16)).
  pose proof (mod256 (x / 2 ^ 8)). pose proof (mod256 x).
  set (a := x / 2 ^ 24 mod 256) in *. set (b := x / 2 ^ 16 mod 256) in *.
  set (c := x / 2 ^ 8 mod 256) in *. set (d := x mod 256) in *.
  assert (E2 : (a + 2 ^ 8 * b + 2 ^ 16 * c + 2 ^ 24 * d) / 65536 = c + 256 * d).
  { symmetry. apply Z.div_unique_pos with (a + 2 ^ 8 * b); lia. }
  rewrite E2.
  destruct (digits256 (a + 2 ^ 8 * b + 2 ^ 16 * c + 2 ^ 24 * d) a (b + 256 * (c + 256 * d))) as [-> ->]; [lia|done|].
  destruct (digits256 (b + 256 * (c + 256 * d)) b (c + 256 * d)) as [-> _]; [lia|done|].
  destruct (digits256 (c + 256 * d) c d) as [-> ->]; [lia|done|].
  destruct (digits256 (a + 256 * b) a b) as [-> ->]; [lia|done|].
  by rewrite !Z.mod_small by lia.
Qed.

(** ** Entries *)
Lemma word_bytes x : Forall is_byte (word (u16 x)).
Proof.
  pose proof (u16_range x) as H. unfold is_u16 in H.
  repeat (apply Forall_cons; split); try (by apply Forall_nil); unfold is_byte;
    [pose proof (Z.div_lt_upper_bound (u16 x) 256 256); pose proof (Z.div_pos (u16 x) 256); lia
    |pose proof (Z.mod_pos_bound (u16 x) 256); lia].
Qed.

Lemma flush_entry_ok m b at_ :
  method_bytes m → 0 ≤ at_ → at_ + Z.of_nat (length (entry_bytes m)) + 4 ≤ MAX_BUFFER_SIZE →
  ∃ b', flush_entry m b at_ = Ret (b', Z.of_nat (length (entry_bytes m))) ∧ exactly b at_ (entry_bytes m) b'.
Proof.
  intros (Hn & Ha & He & Hal) Hat Hmax. unfold flush_entry, entry_bytes in *. rewrite !le16_swap.
  set (e1 := match m_alias m with [] => [] | _ => tlv ASN_TAG_OCTSTRING (word (u16 (m_offset m)) ++ m_alias m) end) in *.
  rewrite length_app in *.
  assert (H1 : ∃ b1, match m_alias m with
                     | [] => Ret (b, 0)
                     | _ => push_bytes ASN_TAG_OCTSTRING (word (u16 (m_offset m)) ++ m_alias m) b at_
                     end = Ret (b1, Z.of_nat (length e1)) ∧ exactly b at_ e1 b1).
  { destruct (m_alias m) as [|c al]; [exists b; split; [done|apply exactly_nil]|].
    apply push_bytes_ok; [unfold is_byte, ASN_TAG_OCTSTRING; lia| |done|unfold e1 in *; lia|lia].
    apply Forall_app. split; [apply word_bytes|done]. }
  destruct H1 as (b1 & -> & H1). res_cbn.
  destruct (m_event m =? 0xFF).
  - res_cbn. rewrite app_nil_r, Nat.add_0_r, Z.add_0_r. by exists b1.
  - edestruct (push_bytes_ok ASN_TAG_INTEGER (word (u16 (m_offset m)) ++ [m_event m]) b1 (at_ + Z.of_nat (length e1)))
      as (b2 & -> & H2); [unfold is_byte, ASN_TAG_INTEGER; lia| |lia|lia|lia|].
    { apply Forall_app. split; [apply word_bytes|]. apply Forall_cons. split; [done|by apply Forall_nil]. }
    res_cbn. eexists. split; [rewrite Nat2Z.inj_add; done|]. by eapply exactly_app.
Qed.

Lemma flush_entries_methods s p ee eo :
  methods_enc s p ee eo → ∃ n, ∀ fuel b at_, (n ≤ fuel)%nat → 0 ≤ at_ →
    at_ + Z.of_nat (length ee) + 4 ≤ MAX_BUFFER_SIZE →
    ∃ b', pk_flush_entries fuel s p b at_ = Ret (b', Z.of_nat (length ee)) ∧ exactly b at_ ee b'.
Proof.
  induction 1 as [|a o m t v ee eo Ha Hb Hm Ht Hv _ [n IH]].
  { exists 1%nat. intros [|fuel] b at_ Hf; [lia|]. intros _ _. exists b. split; [done|apply exactly_nil]. }
  exists (S n). intros [|fuel] b at_ Hf Hat Hmax; [lia|]. rewrite length_app in Hmax. cbn [pk_flush_entries].
  rewrite (deref_some _ _ _ Ha). res_cbn. rewrite Hb.
  destruct (flush_entry_ok m b at_ Hm Hat ltac:(lia)) as (b1 & -> & H1). res_cbn.
  destruct (IH fuel b1 (at_ + Z.of_nat (length (entry_bytes m)))) as (b2 & -> & H2); [lia..|].
  res_cbn. eexists. split; [by rewrite length_app, Nat2Z.inj_add|]. by eapply exactly_app.
Qed.

Lemma flush_entries_objects s p ee eo :
  objects_enc s p ee eo → ∃ n, ∀ fuel b at_, (n ≤ fuel)%nat → 0 ≤ at_ →
    at_ + Z.of_nat (length ee) + 4 ≤ MAX_BUFFER_SIZE →
    ∃ b', pk_flush_entries fuel s p b at_ = Ret (b', Z.of_nat (length ee)) ∧ exactly b at_ ee b'.
Proof.
  induction 1 as [|a o pre ps ee eo ee' eo' Ha Hp Hpre Hm _ [n IH]|a o st cb na ee eo Ha Hb Hna _ [n IH]].
  { exists 1%nat. intros [|fuel] b at_ Hf; [lia|]. intros _ _. exists b. split; [done|apply exactly_nil]. }
  - destruct (flush_entries_methods _ _ _ _ Hm) as [n' IHm].
    exists (S (n + n')). intros [|fuel] b at_ Hf Hat Hmax; [lia|]. rewrite length_app in Hmax. cbn [pk_flush_entries].
    rewrite (deref_some _ _ _ Ha). res_cbn.
    destruct (IHm fuel b at_) as (b1 & Hr & H1); [lia..|].
    assert (Hbody : match body o with
              | PK_TAG_CLASS _ ps _ | PK_TAG_INTERFACE _ ps _ _ =>
                  match ps with Some _ => pk_flush_entries fuel s ps b at_ | None => Ret (b, 0) end
              | PK_TAG_METHOD m => flush_entry m b at_
              | PK_TAG_TCBLOCK _ _ _ => Ret (b, 0)
              end = Ret (b1, Z.of_nat (length ee))).
    { unfold class_prefix in Hp. destruct (body o); simplify_eq; destruct ps; try exact Hr;
        (destruct fuel; [discriminate Hr|exact Hr]). }
    rewrite Hbody. res_cbn.
    destruct (IH fuel b1 (at_ + Z.of_nat (length ee))) as (b2 & -> & H2); [lia..|].
    res_cbn. eexists. split; [by rewrite length_app, Nat2Z.inj_add|]. by eapply exactly_app.
  - exists (S n). intros [|fuel] b at_ Hf Hat Hmax; [lia|]. cbn [pk_flush_entries].
    rewrite (deref_some _ _ _ Ha). res_cbn. rewrite Hb. res_cbn. rewrite Z.add_0_r.
    destruct (IH fuel b at_) as (b2 & -> & H2); [lia..|]. res_cbn. eexists. by split.
Qed.

(** ** Records *)
Lemma method_record_tag s m t v : method_record s m = Ret (t, v) → is_byte t.
Proof.
  unfold method_record. intros H.
  destruct (from_option_ub (m_parent m)) as [q| |]; [|discriminate..]. cbn in H.
  destruct (deref s q) as [po| |]; [|discriminate..]. cbn in H.
  destruct (body po); [by simplify_eq| |by simplify_eq..].
  destruct (from_option_ub (call_type m)); [|discriminate..]. cbn in H.
  destruct (from_option_ub (ret_type m)); [|discriminate..]. cbn in H.
  destruct (numargs m <=? 16); [|discriminate]. cbn in H.
  destruct (arg_types _ _ _); [|discriminate..]. by cbn in H; simplify_eq.
Qed.

Lemma flush_methods s p ee eo :
  methods_enc s p ee eo → ∃ n, ∀ fuel b at_, (n ≤ fuel)%nat → 0 ≤ at_ →
    at_ + Z.of_nat (length eo) + 6 ≤ MAX_BUFFER_SIZE →
    ∃ b', pk_flush_objects fuel s p b at_ = Ret (b', Z.of_nat (length eo)) ∧ exactly b (at_ + 2) eo b'.
Proof.
  induction 1 as [|a o m t v ee eo Ha Hb Hm Ht Hv _ [n IH]].
  { exists 1%nat. intros [|fuel] b at_ Hf; [lia|]. intros _ _. exists b. split; [done|apply exactly_nil]. }
  exists (S n). intros [|fuel] b at_ Hf Hat Hmax; [lia|]. rewrite length_app in Hmax. cbn [pk_flush_objects].
  rewrite (deref_some _ _ _ Ha). res_cbn. rewrite Hb, Ht. res_cbn.
  destruct (push_bytes_ok t v b (at_ + 2)) as (b1 & -> & H1); [by eapply method_record_tag|done|lia..|].
  res_cbn. destruct (IH fuel b1 (at_ + Z.of_nat (length (tlv t v)))) as (b2 & -> & H2); [lia..|].
  res_cbn. eexists. split; [by rewrite length_app, Nat2Z.inj_add|]. eapply exactly_app; [exact H1|].
  by replace (at_ + 2 + Z.of_nat (length (tlv t v))) with (at_ + Z.of_nat (length (tlv t v)) + 2) by lia.
Qed.

(** what precedes the methods in the record of a class *)
Definition flush_prefix (o : pkobj) (b : buf) (at_ : Z) : res (buf * Z) :=
  r1 ← match body o with
       | PK_TAG_INTERFACE _ _ _ lib => push_bytes ASN_TAG_CHSTRING lib b (at_ + 4)
       | _ => Ret (b, 0)
       end;
  v ← class_view o;
  r2 ← push_bytes ASN_TAG_IA5STRING v.2 r1.1 (at_ + r1.2 + 4);
  Ret (r2.1, r1.2 + r2.2).

Lemma tlv_bytes_inv t v : Forall is_byte (tlv t v) → Forall is_byte v.
Proof. intros H. unfold tlv in H. apply Forall_cons in H as [_ H]. by apply Forall_app in H as [_ H]. Qed.

Lemma flush_prefix_ok o pre ps b at_ :
  class_prefix o = Some (pre, ps) → Forall is_byte pre → 0 ≤ at_ →
  at_ + Z.of_nat (length pre) + 8 ≤ MAX_BUFFER_SIZE →
  ∃ b', flush_prefix o b at_ = Ret (b', Z.of_nat (length pre)) ∧ exactly b (at_ + 4) pre b'.
Proof.
  intros Hp Hb Hat Hmax. unfold class_prefix in Hp. unfold flush_prefix, class_view.
  destruct (body o) as [q ps' nm|q ps' nm lib|m|st cb na]; simplify_eq; res_cbn; cbn [snd].
  - destruct (push_bytes_ok ASN_TAG_IA5STRING nm b (at_ + 0 + 4)) as (b1 & -> & H1);
      [unfold is_byte, ASN_TAG_IA5STRING; lia|by eapply tlv_bytes_inv|lia..|].
    res_cbn. eexists. split; [done|]. by replace (at_ + 4) with (at_ + 0 + 4) by lia.
  - rewrite length_app in Hmax. apply Forall_app in Hb as [Hb1 Hb2].
    destruct (push_bytes_ok ASN_TAG_CHSTRING lib b (at_ + 4)) as (b1 & -> & H1);
      [unfold is_byte, ASN_TAG_CHSTRING; lia|by eapply tlv_bytes_inv|lia..|].
    res_cbn.
    destruct (push_bytes_ok ASN_TAG_IA5STRING nm b1 (at_ + Z.of_nat (length (tlv ASN_TAG_CHSTRING lib)) + 4))
      as (b2 & -> & H2); [unfold is_byte, ASN_TAG_IA5STRING; lia|by eapply tlv_bytes_inv|lia..|].
    res_cbn. eexists. split; [by rewrite length_app, Nat2Z.inj_add|]. eapply exactly_app; [exact H1|].
    by replace (at_ + 4 + Z.of_nat (length (tlv ASN_TAG_CHSTRING lib)))
      with (at_ + Z.of_nat (length (tlv ASN_TAG_CHSTRING lib)) + 4) by lia.
Qed.

(** the branch of [pk_flush_objects] for a class or an interface *)
Lemma flush_class_eq fuel s a o pre ps b at_ :
  cells s !! a = Some o → class_prefix o = Some (pre, ps) →
  pk_flush_objects (S fuel) s (Some a) b at_ =
    (r2 ← flush_prefix o b at_;
     r3 ← match ps with
          | Some _ => pk_flush_objects fuel s ps r2.1 (at_ + r2.2 + 2)
          | None => Ret (r2.1, 0)
          end;
     r ← pk_push_tlv 0x30 (u16 (r2.2 + r3.2)) (inr (at_ + 4)) r3.1 at_;
     r' ← pk_flush_objects fuel s (o_next o) r.1 (at_ + r.2);
     Ret (r'.1, r.2 + r'.2)).
Proof.
  intros Ha Hp. cbn [pk_flush_objects]. rewrite (deref_some _ _ _ Ha). res_cbn.
  unfold class_prefix in Hp. unfold flush_prefix, class_view.
  destruct (body o) as [q ps' nm|q ps' nm lib|m|st cb na]; simplify_eq; res_cbn.
  - destruct (push_bytes ASN_TAG_IA5STRING _ _ _) as [[b1 n1]| |]; res_cbn; [|done..]. by rewrite res_bind_assoc.
  - destruct (push_bytes ASN_TAG_CHSTRING _ _ _) as [[b1 n1]| |]; res_cbn; [|done..].
    destruct (push_bytes ASN_TAG_IA5STRING _ _ _) as [[b2 n2]| |]; res_cbn; [|done..]. by rewrite res_bind_assoc.
Qed.

Lemma methods_enc_bytes s p ee eo : methods_enc s p ee eo →
  Z.of_nat (length eo) < 65536 → Forall is_byte eo.
Proof.
  induction 1 as [|a o m t v ee eo Ha Hb Hm Ht Hv _ IH]; intros Hl; [by apply Forall_nil|].
  rewrite length_app, Nat2Z.inj_add, tlv_length in Hl. apply Forall_app. split; [|apply IH; lia].
  unfold tlv. apply Forall_cons. split; [by eapply method_record_tag|].
  apply Forall_app. split; [apply enc_len_bytes; lia|done].
Qed.

Lemma flush_objects_ok s p ee eo :
  objects_enc s p ee eo → ∃ n, ∀ fuel b at_, (n ≤ fuel)%nat → 0 ≤ at_ →
    at_ + Z.of_nat (length eo) + 8 ≤ MAX_BUFFER_SIZE →
    ∃ b', pk_flush_objects fuel s p b at_ = Ret (b', Z.of_nat (length eo)) ∧ written b at_ eo b'.
Proof.
  induction 1 as [|a o pre ps ee eo ee' eo' Ha Hp Hpre Hm _ [n IH]|a o st cb na ee eo Ha Hb Hna _ [n IH]].
  { exists 1%nat. intros [|fuel] b at_ Hf; [lia|]. intros _ _. exists b. split; [done|].
    by split; [apply region_nil|]. }
  - destruct (flush_methods _ _ _ _ Hm) as [n' IHm].
    exists (S (S (n + n'))). intros [|fuel] b at_ Hf Hat Hmax; [lia|].
    rewrite length_app, Nat2Z.inj_add, tlv_length, length_app in Hmax.
    rewrite (flush_class_eq _ _ _ _ _ _ _ _ Ha Hp).
    destruct (flush_prefix_ok o pre ps b at_ Hp Hpre Hat) as (b1 & -> & H1); [lia|]. res_cbn.
    destruct (IHm fuel b1 (at_ + Z.of_nat (length pre) + 2)) as (b2 & Hr & H2); [lia..|].
    assert (Hps : match ps with
                  | Some _ => pk_flush_objects fuel s ps b1 (at_ + Z.of_nat (length pre) + 2)
                  | None => Ret (b1, 0)
                  end = Ret (b2, Z.of_nat (length eo))).
    { destruct ps; [exact Hr|]. destruct fuel; [lia|exact Hr]. }
    rewrite Hps. res_cbn. rewrite <-Nat2Z.inj_add, <-length_app.
    assert (H12 : exactly b (at_ + 4) (pre ++ eo) b2).
    { eapply exactly_app; [exact H1|].
      by replace (at_ + 4 + Z.of_nat (length pre)) with (at_ + Z.of_nat (length pre) + 2 + 2) by lia. }
    unfold MAX_BUFFER_SIZE in Hmax.
    destruct (push_here_ok 0x30 (pre ++ eo) b2 at_ (at_ + 4)) as (b3 & -> & H3);
      [unfold is_byte; lia| |done|lia|rewrite length_app; unfold MAX_BUFFER_SIZE; lia|apply H12|].
    { apply Forall_app. split; [done|]. eapply methods_enc_bytes; [exact Hm|lia]. }
    res_cbn. destruct (IH fuel b3 (at_ + Z.of_nat (length (tlv 0x30 (pre ++ eo))))) as (b4 & -> & H4);
      [lia|lia|rewrite tlv_length, length_app; unfold MAX_BUFFER_SIZE; lia|].
    res_cbn. eexists. split; [by rewrite length_app, Nat2Z.inj_add|]. eapply written_app; [|exact H4].
    destruct H3 as [H3 F3]. split; [done|]. intros j Hj. rewrite F3 by lia. apply H12. lia.
  - exists (S n). intros [|fuel] b at_ Hf Hat Hmax; [lia|]. rewrite length_app in Hmax. cbn [pk_flush_objects].
    rewrite (deref_some _ _ _ Ha). res_cbn. rewrite Hb, !le32_swap.
    destruct (push_bytes_ok ASN_TAG_ENUM (be32 st ++ be32 cb ++ [0; na]) b at_) as (b1 & -> & H1);
      [unfold is_byte, ASN_TAG_ENUM; lia| |lia..|].
    { unfold be32. repeat (apply Forall_app; split); try apply word_bytes.
      repeat (apply Forall_cons; split); try (by apply Forall_nil); [unfold is_byte; lia|done]. }
    res_cbn. destruct (IH fuel b1 (at_ + Z.of_nat (length (tlv ASN_TAG_ENUM (be32 st ++ be32 cb ++ [0; na])))))
      as (b2 & -> & H2); [lia..|].
    res_cbn. eexists. split; [by rewrite length_app, Nat2Z.inj_add|].
    eapply written_app; [by apply exactly_written|exact H2].
Qed.

(** C26: the package header. For any list of classes, interfaces, methods and
    try-catch blocks whose header fits the buffer, [pk_flush_root] writes, at
    the start of [_pkg_buffer], the reference encoding: one sequence of all
    menu and event entries and then of all records, with every length and
    every 16- and 32-bit number big-endian. The moves of the records over the
    room left for their headers lose nothing. *)
Theorem flush_root_encodes s root ee eo b :
  objects_enc s root ee eo → Forall is_byte (ee ++ eo) →
  Z.of_nat (length (ee ++ eo)) + 16 ≤ MAX_BUFFER_SIZE →
  ∃ n, ∀ fuel, (n ≤ fuel)%nat → ∃ b',
    pk_flush_root fuel s root b = Ret (b', Z.of_nat (length (tlv 0x30 (ee ++ eo)))) ∧
    region b' 0 (tlv 0x30 (ee ++ eo)).
Proof.
  intros H Hb Hmax. destruct (flush_entries_objects _ _ _ _ H) as [n1 H1].
  destruct (flush_objects_ok _ _ _ _ H) as [n2 H2]. exists (n1 + n2)%nat. intros fuel Hf.
  pose proof Hmax as Hmax'. rewrite length_app in Hmax'. unfold pk_flush_root.
  destruct (H1 fuel b 6) as (b1 & -> & [R1 F1]); [lia..|]. res_cbn.
  destruct (H2 fuel b1 (Z.of_nat (length ee) + 6)) as (b2 & -> & [R2 F2]); [lia..|]. res_cbn.
  rewrite <-Nat2Z.inj_add, <-length_app.
  destruct (push_here_ok 0x30 (ee ++ eo) b2 0 6) as (b3 & Hp & [R3 _]); [unfold is_byte; lia|done|lia..| |].
  - apply region_app. split.
    + eapply region_agree; [exact R1|]. intros j Hj. apply F2. lia.
    + by replace (6 + Z.of_nat (length ee)) with (Z.of_nat (length ee) + 6) by lia.
  - exists b3. by split.
Qed.

(** A package with the class [C], its method [m] at 0x102, and a try-catch
    block. *)
Definition method_m : method := mkMethod (Some 1) [109] 2 0x102 0xFF [] (Some 0) (Some 0) ∅ None.
Definition sample_pkg : store pkobj :=
  mkStore (<[1 := mkObj None (Some 3) (PK_TAG_CLASS None (Some 2) [67])]>
          (<[2 := mkObj None None (PK_TAG_METHOD method_m)]>
          {[3 := mkObj None None (PK_TAG_TCBLOCK 10 20 1)]})) 4.

Definition sample_records : list Z :=
  tlv 0x30 (tlv ASN_TAG_IA5STRING [67] ++ tlv ASN_TAG_OCTSTRING [1; 2; 2; 109] ++ []) ++
  tlv ASN_TAG_ENUM (be32 10 ++ be32 20 ++ [0; 1]) ++ [].

Lemma sample_enc : objects_enc sample_pkg (Some 1) ((entry_bytes method_m ++ []) ++ []) sample_records.
Proof.
  eapply oe_class with (pre := tlv ASN_TAG_IA5STRING [67]) (ps := Some 2); [done|done| | |].
  - by apply byteb_list.
  - eapply me_cons with (t := ASN_TAG_OCTSTRING) (v := [1; 2; 2; 109]) (m := method_m); [done|done| |done| |constructor].
    + repeat split; cbn; try lia; by apply byteb_list.
    + by apply byteb_list.
  - eapply oe_tcblock; [done|done|unfold is_byte; lia|constructor].
Defined.

Lemma flush_root_encodes_witness :
  ∃ n, ∀ fuel, (n ≤ fuel)%nat → ∃ b',
    pk_flush_root fuel sample_pkg (Some 1) ∅ =
      Ret (b', Z.of_nat (length (tlv 0x30 (((entry_bytes method_m ++ []) ++ []) ++ sample_records)))) ∧
    region b' 0 (tlv 0x30 (((entry_bytes method_m ++ []) ++ []) ++ sample_records)).
Proof.
  apply (flush_root_encodes sample_pkg (Some 1) _ sample_records ∅ sample_enc); [|by vm_compute].
  by apply byteb_list.
Defined.

(** ** Lookup of methods *)
Definition is_method (o : pkobj) : Prop := ∃ m, body o = PK_TAG_METHOD m.
Definition method_named (name : list Z) (o : pkobj) : bool :=
  match body o with PK_TAG_METHOD m => bool_decide (m_name m = name) | _ => false end.

Lemma find_method_ok s name p l fuel :
  lseg s p l None → Forall (λ x, is_method x.2) l → (length l < fuel)%nat →
  loop fuel (find_method_step s name) p = Ret (fst <$> find (λ x, method_named name x.2) l).
Proof.
  revert p fuel. induction l as [|[a o] l IH]; intros p [|fuel] H Hm Hf; try (cbn in Hf; lia);
    inversion H as [|? ? ? ? Ha Hl]; subst; [by apply loop_inr|].
  apply Forall_cons in Hm as [[m Hm] Hms]. cbn in Hm.
  assert (Hs : find_method_step s name (Some a) =
    Ret (if method_named name o then inr (Some a) else inl (o_next o))).
  { unfold find_method_step, method_view, method_named. rewrite (deref_some _ _ _ Ha). res_cbn. rewrite Hm. res_cbn.
    by repeat case_bool_decide. }
  cbn [find]. cbn [snd]. destruct (method_named name o).
  - by apply loop_inr.
  - erewrite loop_inl by exact Hs. apply IH; [done|done|cbn in Hf; lia].
Qed.

(** Lookup of a method. In a class or interface with methods,
    [pk_select_method] gives the first method of that name, else searches the
    base class; but in a class made by [pk_create_class], whose [parent] field
    nothing assigns, a name that is not found makes it read that field
    uninitialised. *)
Theorem select_method_spec fuel s p o par ps nm l name :
  cells s !! p = Some o → class_view o = Ret (par, Some ps, nm) →
  lseg s (Some ps) l None → Forall (λ x, is_method x.2) l → (length l < fuel)%nat →
  pk_select_method (S fuel) (Some p) name s =
    match find (λ x, method_named name x.2) l with
    | Some x => Ret (Some x.1)
    | None =>
        match par with
        | None => Undef
        | Some None => Ret None
        | Some (Some base) => pk_select_method fuel (Some base) name s
        end
    end.
Proof.
  intros Hp Hv Hl Hm Hf. cbn [pk_select_method]. rewrite (deref_some _ _ _ Hp). res_cbn.
  assert (Hc : is_class o = true).
  { unfold class_view in Hv. unfold is_class. by destruct (body o). }
  rewrite Hc, Hv. res_cbn. rewrite (find_method_ok s name (Some ps) l (S fuel)) by (done || lia). res_cbn.
  destruct (find _ l) as [x|]; [done|]. cbn [fmap option_fmap option_map].
  by destruct par as [[base|]|].
Qed.

Lemma select_method_spec_witness :
  pk_select_method 3 (Some 1) [110] sample_pkg = Undef.
Proof.
  apply (select_method_spec 2 sample_pkg 1 (mkObj None (Some 3) (PK_TAG_CLASS None (Some 2) [67])) None 2 [67]
           [(2, mkObj None None (PK_TAG_METHOD method_m))] [110]); try done.
  - constructor; [done|constructor].
  - apply Forall_cons. split; [by exists method_m|by apply Forall_nil].
  - cbn. lia.
Defined.

(** ** Registration *)

Lemma register_method_ok fuel s p o par ps nm l name nargs ct rt off cb :
  store_ok s → cells s !! p = Some o → class_view o = Ret (par, ps, nm) →
  lseg s ps l None → Forall (λ x, is_method x.2) l → (length l < fuel)%nat →
  Z.of_nat (length name) < 256 →
  let m := mkMethod (Some p) name nargs (u16 off) 0xFF [] (Some ct) (Some rt) ∅ cb in
  ∃ s' ps' l', pk_register_method fuel (Some p) name nargs ct rt off cb s = Ret (Some (brk s), s') ∧
    (∃ f, cells s' !! p = Some (f o) ∧ class_view (f o) = Ret (par, ps', nm) ∧ nx (f o) = nx o ∧
          codebase (f o) = codebase o ∧ (∀ b, body o = PK_TAG_CLASS par ps b → body (f o) = PK_TAG_CLASS par ps' b)) ∧
    lseg s' ps' (l' ++ [(brk s, mkObj None None (PK_TAG_METHOD m))]) None ∧
    (λ x : Z * pkobj, (x.1, codebase x.2, body x.2)) <$> l' = (λ x, (x.1, codebase x.2, body x.2)) <$> l ∧
    store_ok s' ∧ brk s' = brk s + 1 ∧
    (∀ a, a < brk s → a ≠ p → a ∉ l.*1 → cells s' !! a = cells s !! a).
Proof.
  intros Hok Hp Hv Hl Hm Hf Hname m. unfold pk_register_method, pk_create_method, fits.
  rewrite (proj2 (Z.ltb_lt _ _)) by lia. res_cbn.
  set (s0 := (malloc (mkObj None None (PK_TAG_METHOD (mkMethod None name nargs (u16 off) 0xFF [] None None ∅ None))) s)).
  assert (Hok0 : store_ok s0.2) by by apply store_ok_malloc.
  assert (Hn : cells s0.2 !! brk s = Some (mkObj None None (PK_TAG_METHOD (mkMethod None name nargs (u16 off) 0xFF [] None None ∅ None))))
    by (cbn; by rewrite lookup_insert_eq).
  assert (Hpb : p < brk s) by (apply Hok; eauto).
  assert (Hup : upd_method s0.1 (λ m, mkMethod (Some p) (m_name m) (numargs m) (m_offset m) (m_event m) (m_alias m)
                                  (Some ct) (Some rt) (param_types m) cb) s0.2 =
                Ret (set_cells (<[brk s := mkObj None None (PK_TAG_METHOD m)]> (cells s0.2)) s0.2)).
  { unfold upd_method. change s0.1 with (brk s). rewrite (deref_some _ _ _ Hn). res_cbn.
    unfold method_view. cbn [body]. res_cbn. by rewrite (upd_some _ _ _ _ Hn). }
  rewrite Hup. res_cbn. set (s1 := set_cells _ s0.2).
  assert (Hs1 : ∀ a, a < brk s → cells s1 !! a = cells s !! a).
  { intros a Ha. cbn. by rewrite !lookup_insert_ne by lia. }
  assert (Hs1n : cells s1 !! brk s = Some (mkObj None None (PK_TAG_METHOD m))) by (cbn; by rewrite lookup_insert_eq).
  assert (Hl1 : lseg s1 ps l None).
  { eapply lseg_frame; [exact Hl|]. intros a Ha. apply Hs1. by eapply lseg_below. }
  assert (Hfresh : brk s ∉ l.*1) by by eapply lseg_fresh.
  assert (Hp1 : cells s1 !! p = Some o) by by rewrite Hs1.
  rewrite (deref_some _ _ _ Hp1). res_cbn. rewrite Hv. res_cbn. 
  assert (Hpl : p ∉ l.*1).
  { intros (x & -> & Hx)%list_elem_of_fmap. rewrite Forall_forall in Hm. destruct (Hm x Hx) as [m' Hm'].
    destruct x as [a ox]. pose proof (lseg_lookup _ _ _ _ _ _ Hl Hx) as Hax. cbn in *. rewrite Hp in Hax. simplify_eq.
    unfold class_view in Hv. by rewrite Hm' in Hv. }
  destruct ps as [q|].
  - destruct l as [|[b rb] l _] using rev_ind; [inversion Hl|].
    rewrite length_app in Hf. cbn in Hf.
    destruct (walk_last s1 (Some q) l b rb fuel Hl1 ltac:(lia)) as (q' & [= <-] & Hw). rewrite Hw. res_cbn.
    assert (Hb : cells s1 !! b = Some rb) by (eapply lseg_lookup; [exact Hl1|set_solver]).
    rewrite (upd_some _ _ _ _ Hb). res_cbn.
    rewrite fmap_app in Hpl, Hfresh. cbn in Hpl, Hfresh.
    eexists _, (Some q), (l ++ [(b, set_nx (Some (brk s)) rb)]). split; [done|].
    assert (Hpb' : p ≠ b) by set_solver.
    split; [|split; [|split; [|split; [|split; [done|]]]]].
    + exists (λ o, o). split; [|split; [done|split; [done|split; [done|by intros b' Hb']]]].
      cbn [set_cells cells]. rewrite lookup_insert_ne by done. exact Hp1.
    + rewrite <-app_assoc. apply lseg_snoc; [done|done|done|]. rewrite fmap_app. cbn. set_solver.
    + by rewrite !fmap_app.
    + apply store_ok_upd with (n := rb); [|done].
      by apply store_ok_upd with (n := mkObj None None (PK_TAG_METHOD (mkMethod None name nargs (u16 off) 0xFF [] None None ∅ None)))
        (f := λ _, mkObj None None (PK_TAG_METHOD m)).
    + intros a Ha _ Hal. rewrite fmap_app in Hal. cbn in Hal. cbn [set_cells cells].
      rewrite lookup_insert_ne by set_solver. by apply Hs1.
  - assert (l = []) as -> by (inversion Hl; done). rewrite (upd_some _ _ _ _ Hp1). res_cbn.
    eexists _, (Some (brk s)), []. split; [done|].
    split; [|split; [|split; [done|split; [|split; [done|]]]]].
    + exists (set_properties (Some (brk s))). split; [cbn; by rewrite lookup_insert_eq|].
      unfold class_view, set_properties, set_body in *. destruct o as [co no bo]. cbn in *.
      destruct bo; simplify_eq; repeat split; intros b' Hb'; by simplify_eq.
    + constructor; [|constructor]. cbn [set_cells cells]. rewrite lookup_insert_ne by lia. exact Hs1n.
    + apply store_ok_upd with (n := o); [|done].
      by apply store_ok_upd with (n := mkObj None None (PK_TAG_METHOD (mkMethod None name nargs (u16 off) 0xFF [] None None ∅ None)))
        (f := λ _, mkObj None None (PK_TAG_METHOD m)).
    + intros a Ha Hap _. cbn [set_cells cells]. rewrite lookup_insert_ne by done. by apply Hs1.
Qed.

(** Registration and lookup. A method registered in a class with room for
    its name is the last of the class's methods, with the arguments given and
    its offset as a 16-bit number; the methods already there stay. *)
Theorem register_method_appends fuel s p o par ps nm l name nargs ct rt off cb :
  store_ok s → cells s !! p = Some o → class_view o = Ret (par, ps, nm) →
  lseg s ps l None → Forall (λ x, is_method x.2) l → (length l < fuel)%nat →
  Z.of_nat (length name) < 256 →
  ∃ s' ps' l' a m, pk_register_method fuel (Some p) name nargs ct rt off cb s = Ret (Some a, s') ∧
    (∃ o', cells s' !! p = Some o' ∧ class_view o' = Ret (par, ps', nm)) ∧
    lseg s' ps' (l' ++ [(a, mkObj None None (PK_TAG_METHOD m))]) None ∧
    (λ x : Z * pkobj, (x.1, body x.2)) <$> l' = (λ x, (x.1, body x.2)) <$> l ∧
    m = mkMethod (Some p) name nargs (u16 off) 0xFF [] (Some ct) (Some rt) ∅ cb.
Proof.
  intros Hok Hp Hv Hl Hm Hf Hname.
  destruct (register_method_ok fuel s p o par ps nm l name nargs ct rt off cb Hok Hp Hv Hl Hm Hf Hname)
    as (s' & ps' & l' & Hr & (f & Hp' & Hv' & _) & Hl' & Hsame & _).
  eexists s', ps', l', (brk s), _. split; [exact Hr|]. split; [by eexists|]. split; [exact Hl'|]. split; [|done].
  apply (f_equal (fmap (λ y : Z * option Z * pkbody, (y.1.1, y.2)))) in Hsame.
  rewrite <-!list_fmap_compose in Hsame. exact Hsame.
Qed.

Lemma register_method_witness :
  ∃ s' ps' l' a m, pk_register_method 3 (Some 1) [110] 0 0 0 7 None sample_pkg = Ret (Some a, s') ∧
    (∃ o', cells s' !! 1 = Some o' ∧ class_view o' = Ret (None, ps', [67])) ∧
    lseg s' ps' (l' ++ [(a, mkObj None None (PK_TAG_METHOD m))]) None ∧
    (λ x : Z * pkobj, (x.1, body x.2)) <$> l' =
      (λ x, (x.1, body x.2)) <$> [(2, mkObj None None (PK_TAG_METHOD method_m))] ∧
    m = mkMethod (Some 1) [110] 0 (u16 7) 0xFF [] (Some 0) (Some 0) ∅ None.
Proof.
  apply (register_method_appends 3 sample_pkg 1 (mkObj None (Some 3) (PK_TAG_CLASS None (Some 2) [67])) None (Some 2) [67]
           [(2, mkObj None None (PK_TAG_METHOD method_m))]); try done.
  - intros a [r Ha]. cbn in Ha. apply lookup_insert_Some in Ha as [[<- _]|[_ Ha]]; [cbn; lia|].
    apply lookup_insert_Some in Ha as [[<- _]|[_ Ha]]; [cbn; lia|].
    apply lookup_singleton_Some in Ha as [<- _]. cbn. lia.
  - constructor; [done|constructor].
  - apply Forall_cons. split; [by exists method_m|by apply Forall_nil].
  - cbn. lia.
Defined.

(** ** Try-catch blocks *)

(** Moving the try-catch blocks out of the list of objects. A block at the
    head of the list is moved to [entries] and the rest stays. A block behind a
    class is not unlinked from it: the class then points to the block, whose
    [next] was cleared, and every object behind the block is lost. *)
Theorem dispatch_loses_objects :
  ∃ c1 c2 tc : pkobj,
    c1 = mkObj None (Some 2) (PK_TAG_CLASS None None [65]) ∧
    tc = mkObj None (Some 3) (PK_TAG_TCBLOCK 10 20 1) ∧
    c2 = mkObj None None (PK_TAG_CLASS None None [66]) ∧
    (r ← pk_dispatch_tc_entries 5 (Some 2) None (mkStore (<[2 := tc]> {[3 := c2]}) 4);
     f ← pk_select_class 5 r.1.1 [66] r.2; Ret (r.1.1, r.1.2, f)) = Ret (Some 3, Some 2, Some 3) ∧
    (r ← pk_dispatch_tc_entries 5 (Some 1) None (mkStore (<[1 := c1]> (<[2 := tc]> {[3 := c2]})) 4);
     l ← pk_get_last_root 5 r.1.1 r.2; Ret (r.1.1, r.1.2, l)) = Ret (Some 1, Some 2, Some 2).
Proof. do 3 eexists. do 3 (split; [reflexivity|]). split; by vm_compute. Qed.
