(* ===== verification/PkgLinker.v ===== *)
(** * Packages: decoder (StackLib/Stack/pkg_linker.c)

    Reads the records that Package.v's encoder writes back into classes,
    interfaces and methods. A file is the list of its bytes and a position;
    [fread] at the end of the file reads nothing and leaves its target as it
    was. Offsets are [uint16]. *)
From S2P Require Import Prelude Links Package.

(** ** Files *)
Definition fread (f : list Z) (pos n : Z) : list Z := take (Z.to_nat n) (drop (Z.to_nat pos) f).

Definition nread (l : list Z) : Z := Z.of_nat (length l).

(** a [uchar] and a [uint16] that may have been read only in part *)
Definition byte_of (l : list Z) (old : option Z) : option Z := match l with [] => old | b :: _ => Some b end.
Definition word_of (l : list Z) (old : Z) : Z :=
  match l with
  | [] => old
  | [a] => a + 256 * (old / 256)
  | a :: b :: _ => a + 256 * b
  end.

(** the characters in a buffer that was zeroed before [l] was read into it *)
Definition cstr (l : list Z) : list Z := default [] (c_string (l ++ [0])).

(** What the decoder works on: file position, objects, [_pk_iroot], and the
    memory for code. *)
Record dst := mkD { fpos : Z; objs : store pkobj; iroot : option Z; codes : store (list Z) }.

Definition seek (p : Z) (d : dst) : dst := mkD p (objs d) (iroot d) (codes d).
Definition skip (n : Z) (d : dst) : dst := seek (fpos d + n) d.
Definition set_objs (s : store pkobj) (d : dst) : dst := mkD (fpos d) s (iroot d) (codes d).

(** The length of a record, as every function here reads it: [t] and [l] are
    its variables, [swap] tells whether it applies [end_swap16]; the result is
    [t], [l], the advance of the offset and the state. *)
Definition read_len (swap : bool) (f : list Z) (t l : Z) (d : dst) : Z * Z * Z * dst :=
  let r := fread f (fpos d) 1 in
  let t' := default t (byte_of r (Some t)) in
  let d1 := skip (nread r) d in
  if negb (Z.land t' 0x80 =? 0) then
    let r2 := fread f (fpos d1) 2 in
    let l1 := word_of r2 l in
    (t', if swap then end_swap16 l1 else l1, nread r + nread r2, skip (nread r2) d1)
  else (t', t', nread r, d1).

(** ** The code *)

(** [lk_decode_data_seq]: the code block ([codebase]), its size, the state *)
Definition lk_decode_data_seq (f : list Z) (offset : Z) (d : dst) : res (option Z * Z * dst) :=
  let d0 := seek offset d in
  let r := fread f (fpos d0) 1 in
  t ← from_option_ub (byte_of r None);
  let d1 := skip (nread r) d0 in
  if Z.land t 0x1f =? ASN_TAG_BMPSTRING then
    let '(t, l, _, d2) := read_len true f t 0 d1 in
    let bytes := fread f (fpos d2) l in
    let m := malloc bytes (codes d2) in
    let d3 := skip (nread bytes) d2 in
    Ret (Some m.1, l, mkD (fpos d3) (objs d3) (iroot d3) m.2)
  else Ret (None, 0, d1).

(** ** The classes *)

(** the variables of [lk_decode_class_header] *)
Record locals := mkL {
  v_off : Z; v_t : option Z; v_l : Z; v_numargs : Z; v_moff : Z;
  v_call : option Z; v_ret : option Z; v_parent : option Z }.

Definition set_name (n : list Z) (o : pkobj) : pkobj :=
  match body o with
  | PK_TAG_CLASS p ps _ => set_body (PK_TAG_CLASS p ps n) o
  | PK_TAG_INTERFACE p ps _ lib => set_body (PK_TAG_INTERFACE p ps n lib) o
  | _ => o
  end.

(** an object is installed as the new [parent], with its code *)
Definition install_parent (c : option Z) (r : Z * option Z * store pkobj) (d : dst) : res (dst * Z) :=
  s ← upd r.1.1 (set_codebase c) r.2; Ret (mkD (fpos d) s r.1.2 (codes d), r.1.1).

(** [pk_register_method] and the assignment of the method's code *)
Definition install_method (fuel : nat) (c : option Z) (parent : option Z) (name : list Z) (nargs ct rt off : Z)
    (d : dst) : res (dst * Z) :=
  r ← pk_register_method fuel parent name nargs ct rt off None (objs d);
  a ← from_option_ub r.1;
  s ← upd a (set_codebase c) r.2;
  Ret (set_objs s d, a).

Definition header_library (fuel : nat) (f : list Z) (c : option Z) (v : locals) (t : Z) (d : dst)
    : res (locals * dst) :=
  let '(t, l, n, d1) := read_len false f t (v_l v) d in
  let bytes := fread f (fpos d1) l in
  guardb (l <? 4096) ≫= λ _,
  r ← pk_install_interface fuel (iroot d1) [] (cstr bytes) (objs d1);
  p ← install_parent c r (skip (nread bytes) d1);
  Ret (mkL (u16 (v_off v + n + nread bytes)) (Some t) l (v_numargs v) (v_moff v) (v_call v) (v_ret v) (Some p.2), p.1).

Definition header_name (fuel : nat) (f : list Z) (c : option Z) (v : locals) (t : Z) (d : dst)
    : res (locals * dst) :=
  let '(t, l, n, d1) := read_len false f t (v_l v) d in
  let bytes := fread f (fpos d1) l in
  let d2 := skip (nread bytes) d1 in
  guardb (l <? 4096) ≫= λ _,
  p ← match v_parent v with
      | Some a => _ ← fits 256 (cstr bytes); s ← upd a (set_name (cstr bytes)) (objs d2); Ret (set_objs s d2, a)
      | None => r ← pk_install_class fuel (iroot d2) (cstr bytes) (objs d2); install_parent c r d2
      end;
  Ret (mkL (u16 (v_off v + n + nread bytes)) (Some t) l (v_numargs v) (v_moff v) (v_call v) (v_ret v) (Some p.2), p.1).

(** [inr]: the function returns *)
Definition header_method (fuel : nat) (f : list Z) (c : option Z) (v : locals) (t : Z) (d : dst)
    : res (locals * dst + Z * dst) :=
  let '(t, l, n, d1) := read_len false f t (v_l v) d in
  if l <=? 3 then Ret (inr (u16 (v_off v + n), d1))
  else
    let r1 := fread f (fpos d1) 2 in
    let d2 := skip (nread r1) d1 in
    let moff := word_of r1 (v_moff v) in
    let r2 := fread f (fpos d2) 1 in
    let d3 := skip (nread r2) d2 in
    let nargs := default (v_numargs v) (byte_of r2 (Some (v_numargs v))) in
    guardb (l - 3 <? 4096) ≫= λ _,
    let bytes := fread f (fpos d3) (l - 3) in
    let d4 := skip (nread bytes) d3 in
    m ← install_method fuel c (v_parent v) (cstr bytes) nargs 0 0 moff d4;
    Ret (inl (mkL (u16 (v_off v + n + nread r1 + nread r2 + nread bytes)) (Some t) l nargs moff
                (v_call v) (v_ret v) (v_parent v), m.1)).

Definition header_imethod (fuel : nat) (f : list Z) (c : option Z) (v : locals) (t : Z) (d : dst)
    : res (locals * dst + Z * dst) :=
  let '(t, l, n, d1) := read_len false f t (v_l v) d in
  if l <=? 3 then Ret (inr (u16 (v_off v + n), d1))
  else
    let r1 := fread f (fpos d1) 1 in
    let d2 := skip (nread r1) d1 in
    let r2 := fread f (fpos d2) 1 in
    let d3 := skip (nread r2) d2 in
    let r3 := fread f (fpos d3) 1 in
    let d4 := skip (nread r3) d3 in
    let ct := byte_of r1 (v_call v) in
    let rt := byte_of r2 (v_ret v) in
    let nargs := default (v_numargs v) (byte_of r3 (Some (v_numargs v))) in
    let args := fread f (fpos d4) nargs in
    let d5 := skip (nread args) d4 in
    let off := v_off v + n + nread r1 + nread r2 + nread r3 + nread args in
    guardb (nread args <=? 16) ≫= λ _,
    if l <=? 3 + nargs then Ret (inr (u16 off, d5))
    else
      let bytes := fread f (fpos d5) (l - (3 + nargs)) in
      let d6 := skip (nread bytes) d5 in
      guardb (l - 3 <? 4096) ≫= λ _,
      cv ← from_option_ub ct;
      rv ← from_option_ub rt;
      m ← install_method fuel c (v_parent v) (cstr bytes) nargs cv rv (v_moff v) d6;
      guardb (nargs <=? 16) ≫= λ _,
      let types := args ++ replicate (Z.to_nat nargs - length args) 0 in
      s ← upd_method m.2 (λ x, mkMethod (m_parent x) (m_name x) (numargs x) (m_offset x) (m_event x) (m_alias x)
             (call_type x) (ret_type x) (bstore (param_types x) 0 types) (callback x)) (objs m.1);
      Ret (inl (mkL (u16 (off + nread bytes)) (Some t) l nargs (v_moff v) ct rt (v_parent v), set_objs s m.1)).

(** one turn of the loop of [lk_decode_class_header] *)
Definition class_header_step (fuel : nat) (f : list Z) (c : option Z) (e_offset : Z) (st : locals * dst)
    : res (locals * dst + Z * dst) :=
  let '(v, d) := st in
  if v_off v <? e_offset then
    let r := fread f (fpos d) 1 in
    let d1 := skip (nread r) d in
    let v1 := mkL (u16 (v_off v + nread r)) (byte_of r (v_t v)) (v_l v) (v_numargs v) (v_moff v)
                (v_call v) (v_ret v) (v_parent v) in
    t ← from_option_ub (v_t v1);
    let k := Z.land t 0x1f in
    if k =? ASN_TAG_CHSTRING then x ← header_library fuel f c v1 t d1; Ret (inl x)
    else if k =? ASN_TAG_IA5STRING then x ← header_name fuel f c v1 t d1; Ret (inl x)
    else if k =? ASN_TAG_OCTSTRING then header_method fuel f c v1 t d1
    else if k =? ASN_TAG_OBJDESC then header_imethod fuel f c v1 t d1
    else Ret (inl (mkL 0 (v_t v1) (v_l v1) (v_numargs v1) (v_moff v1) (v_call v1) (v_ret v1) (v_parent v1), d1))
  else Ret (inr (v_off v, d)).

Definition lk_decode_class_header (fuel : nat) (f : list Z) (offset len : Z) (c : option Z) (d : dst)
    : res (Z * dst) :=
  loop fuel (class_header_step fuel f c (u16 (offset + len)))
    (mkL offset None 0 0 0 None None None, seek offset d).

Definition lk_decode_class_seq (fuel : nat) (f : list Z) (offset : Z) (c : option Z) (d : dst) : res (Z * dst) :=
  let d0 := seek offset d in
  let r := fread f (fpos d0) 1 in
  let d1 := skip (nread r) d0 in
  t ← from_option_ub (byte_of r None);
  let off := offset + nread r in
  let k := Z.land t 0x1f in
  if k =? ASN_TAG_SEQ then
    let '(_, l, n, d2) := read_len false f t 0 d1 in
    lk_decode_class_header fuel f (u16 (off + n)) l c d2
  else if (k =? ASN_TAG_OCTSTRING) || (k =? ASN_TAG_INTEGER) then
    let '(_, l, n, d2) := read_len false f t 0 d1 in
    Ret (u16 (off + n + l), d2)
  else Ret (0, d1).

Definition header_seq_step (fuel : nat) (f : list Z) (c : option Z) (e_offset : Z) (st : Z * dst)
    : res (Z * dst + Z * dst) :=
  if st.1 <? e_offset then r ← lk_decode_class_seq fuel f st.1 c st.2; Ret (inl r) else Ret (inr st).

Definition lk_decode_header_seq (fuel : nat) (f : list Z) (offset : Z) (c : option Z) (d : dst) : res (Z * dst) :=
  let d0 := seek offset d in
  let r := fread f (fpos d0) 1 in
  let d1 := skip (nread r) d0 in
  t ← from_option_ub (byte_of r None);
  if Z.land t 0x1f =? ASN_TAG_SEQ then
    let '(_, l, n, d2) := read_len false f t 0 d1 in
    let off := u16 (offset + nread r + n) in
    loop fuel (header_seq_step fuel f c (u16 (off + l))) (off, d2)
  else Ret (0, d1).

(** [lk_decode_file] of a file that opens: the code block, its size *)
Definition lk_decode_file (fuel : nat) (f : list Z) (d : dst) : res (option Z * Z * dst) :=
  let d0 := seek 0 d in
  let r := fread f (fpos d0) 1 in
  let d1 := skip (nread r) d0 in
  t ← from_option_ub (byte_of r None);
  let '(l, n, d2) := if Z.land t 0x1f =? ASN_TAG_SEQ
                     then let '(_, l, n, d2) := read_len true f t 0 d1 in (l, n, d2) else (0, 0, d1) in
  let offset := u16 (nread r + n + l) in
  x ← (if negb (offset =? 0) then lk_decode_data_seq f offset d2 else Ret (None, 0, d2));
  h ← lk_decode_header_seq fuel f 0 x.1.1 x.2;
  Ret (x.1, h.2).

(** [lk_clear_entries]: every object, and those of each class *)
Definition clear_entries_step (fuel : nat) (st : option Z * store pkobj) : res (option Z * store pkobj + store pkobj) :=
  match st.1 with
  | None => Ret (inr st.2)
  | Some a =>
      o ← deref st.2 a;
      v ← class_view o;
      s ← loop fuel free_step (v.1.2, st.2);
      s' ← free a s;
      Ret (inl (o_next o, s'))
  end.

Definition lk_clear_entries (fuel : nat) (d : dst) : res dst :=
  s ← loop fuel (clear_entries_step fuel) (iroot d, objs d);
  Ret (mkD (fpos d) s None (codes d)).

(** ** Reading what was written *)
Lemma fread_at f pos x r n :
  0 ≤ pos → drop (Z.to_nat pos) f = x ++ r → n = Z.of_nat (length x) →
  fread f pos n = x ∧ drop (Z.to_nat (pos + n)) f = r.
Proof.
  intros Hp Hd ->. unfold fread. rewrite Hd, Nat2Z.id, take_app_length. split; [done|].
  replace (Z.to_nat (pos + Z.of_nat (length x))) with (Z.to_nat pos + length x)%nat by lia.
  by rewrite <-drop_drop, Hd, drop_app_length.
Qed.

(** at a position inside the file *)
Definition at_ (f : list Z) (d : dst) (r : list Z) : Prop := 0 ≤ fpos d ∧ drop (Z.to_nat (fpos d)) f = r.

(** arithmetic on the position after reads of known length *)
Ltac pos := unfold skip, seek, nread in *; cbn [fpos length objs] in *; lia.

Lemma skip_skip m n d : skip n (skip m d) = skip (m + n) d.
Proof. unfold skip, seek. cbn. f_equal. lia. Qed.

Lemma read_len_ok swap f t l0 l rest d :
  0 ≤ l < 65536 → at_ f d (enc_len l ++ rest) →
  ∃ t', read_len swap f t l0 d =
      (t', if swap || (l <? 127) then l else end_swap16 l, nread (enc_len l), skip (nread (enc_len l)) d) ∧
    at_ f (skip (nread (enc_len l)) d) rest.
Proof.
  intros Hl [Hp Hd]. unfold read_len, enc_len in *. destruct (Z.ltb_spec l 127) as [Hlt|Hge].
  - destruct (fread_at f (fpos d) [l] rest 1 Hp Hd eq_refl) as [-> Hr]. cbn [byte_of default from_option id nread length].
    exists l. assert (Hb : Z.land l 0x80 = 0).
    { assert (H : ∀ k, (k < 127)%nat → Z.land (Z.of_nat k) 0x80 = 0).
      { intros k Hk. do 127 (destruct k as [|k]; [by vm_compute|]). lia. }
      rewrite <-(Z2Nat.id l) by lia. apply H. lia. }
    rewrite Hb, orb_true_r. split; [done|]. split; [pos|]. exact Hr.
  - destruct (fread_at f (fpos d) [0x82] ([l / 256; l mod 256] ++ rest) 1 Hp Hd eq_refl) as [-> Hr].
    cbn [byte_of default from_option id nread length].
    destruct (fread_at f (fpos (skip (Z.of_nat 1) d)) [l / 256; l mod 256] rest 2) as [Hr2 Hd2];
      [pos|exact Hr|done|].
    change (nread [0x82]) with (Z.of_nat 1). rewrite Hr2. exists 0x82. rewrite orb_false_r.
    assert (Hw : l / 256 + 256 * (l mod 256) = end_swap16 l).
    { rewrite end_swap16_spec. rewrite (Z.mod_small (l / 256)); [done|].
      split; [apply Z.div_pos; lia|apply Z.div_lt_upper_bound; lia]. }
    cbn [word_of]. rewrite Hw, end_swap16_swap, u16_id by done.
    split; [|split; [pos|]].
    + rewrite skip_skip. by destruct swap.
    + replace (fpos (skip (nread [130; l / 256; l mod 256]) d)) with (fpos (skip (Z.of_nat 1) d) + 2)
        by pos. exact Hd2.
Qed.

(** ** Installing a class *)
Definition shape (l : list (Z * pkobj)) : list (Z * option Z * pkbody) :=
  (λ x, (x.1, codebase x.2, body x.2)) <$> l.

Lemma shape_addr l l' : shape l = shape l' → l.*1 = l'.*1.
Proof.
  intros H. apply (f_equal (fmap (fst ∘ fst))) in H. unfold shape in H.
  rewrite <-!list_fmap_compose in H. exact H.
Qed.

Lemma install_class_ok fuel c nm d L :
  store_ok (objs d) → lseg (objs d) (iroot d) L None → (length L < fuel)%nat → Z.of_nat (length nm) < 256 →
  ∃ d' L', (r ← pk_install_class fuel (iroot d) nm (objs d); install_parent c r d) = Ret (d', brk (objs d)) ∧
    lseg (objs d') (iroot d') (L' ++ [(brk (objs d), mkObj c None (PK_TAG_CLASS None None nm))]) None ∧
    shape L' = shape L ∧ store_ok (objs d') ∧ brk (objs d') = brk (objs d) + 1 ∧
    fpos d' = fpos d ∧ codes d' = codes d.
Proof.
  intros Hok HL Hf Hnm. unfold pk_install_class, pk_create_class, fits. rewrite (proj2 (Z.ltb_lt _ _)) by lia. res_cbn.
  set (o := mkObj None None (PK_TAG_CLASS None None nm)). set (m := malloc o (objs d)).
  assert (Hmok : store_ok m.2) by by apply store_ok_malloc.
  pose proof (lseg_malloc _ _ _ _ o Hok HL) as HL1. fold m in HL1.
  assert (Hmo : cells m.2 !! brk (objs d) = Some o) by (cbn; by rewrite lookup_insert_eq).
  assert (Hfr : brk (objs d) ∉ L.*1) by by eapply lseg_fresh.
  unfold pk_install, pk_add_object.
  destruct L as [|[b ob] L _] using rev_ind.
  - pose proof (lseg_nil_inv _ _ _ HL) as Hn. rewrite Hn. res_cbn. unfold install_parent. cbn [fst snd m malloc].
    fold m. change (mkStore (<[brk (objs d):=o]> (cells (objs d))) (brk (objs d) + 1)) with m.2.
    rewrite (upd_some _ _ _ _ Hmo). res_cbn. eexists _, []. split; [done|].
    split; [|split; [done|split; [|by repeat split]]].
    + constructor; [cbn; by rewrite lookup_insert_eq|]. constructor.
    + by apply store_ok_upd with (n := o).
  - rewrite length_app in Hf. cbn in Hf. destruct (iroot d) as [h|] eqn:Eh; [|destruct L as [|[]]; inversion HL].
    destruct (walk_last m.2 (Some h) L b ob fuel HL1 ltac:(lia)) as (h' & [= <-] & Hw). rewrite Hw. res_cbn.
    assert (Hb : cells m.2 !! b = Some ob) by (eapply lseg_lookup; [exact HL1|set_solver]).
    rewrite (upd_some _ _ _ _ Hb). res_cbn. unfold install_parent. cbn [fst snd]. change m.1 with (brk (objs d)).
    rewrite fmap_app in Hfr. cbn in Hfr.
    pose proof (lseg_snoc m.2 (Some h) L b ob (brk (objs d)) o HL1 Hmo eq_refl) as HL2.
    rewrite fmap_app in HL2. cbn [fmap list_fmap fst] in HL2. specialize (HL2 Hfr).
    set (s2 := set_cells (<[b := set_nx (Some (brk (objs d))) ob]> (cells m.2)) m.2) in *.
    assert (Hs2 : cells s2 !! brk (objs d) = Some o).
    { cbn [s2 set_cells cells]. rewrite lookup_insert_ne by set_solver. exact Hmo. }
    rewrite (upd_some _ _ _ _ Hs2). res_cbn. eexists _, (L ++ [(b, set_nx (Some (brk (objs d))) ob)]).
    split; [done|]. split; [|split; [by unfold shape; rewrite !fmap_app|split; [|by repeat split]]].
    + cbn [objs iroot]. apply (lseg_update s2 (Some h) _ (brk (objs d)) o [] None (set_codebase c)).
      * by rewrite <-app_assoc.
      * done.
      * rewrite fmap_app. cbn. set_solver.
      * cbn. set_solver.
    + apply store_ok_upd with (n := o); [|done]. by apply store_ok_upd with (n := ob).
Qed.

(** ** Installing a method *)

(** [parsed b0 c nm L ms d]: behind the objects [L] of the root list stands the
    class [nm], at [b0], with the methods [ms]; all of it has the code [c]. *)
Definition parsed (b0 : Z) (c : option Z) (nm : list Z) (L : list (Z * pkobj)) (ms : list method) (d : dst) : Prop :=
  ∃ L' o ps l, lseg (objs d) (iroot d) (L' ++ [(b0, o)]) None ∧ shape L' = shape L ∧
    body o = PK_TAG_CLASS None ps nm ∧ codebase o = c ∧
    lseg (objs d) ps l None ∧ Forall (λ x, b0 < x.1) l ∧
    (λ x, (codebase x.2, body x.2)) <$> l = (λ m, (c, PK_TAG_METHOD m)) <$> ms ∧
    store_ok (objs d) ∧ b0 < brk (objs d).

Lemma install_method_ok fuel b0 c nm L ms d name nargs off :
  parsed b0 c nm L ms d → Forall (λ x, x.1 < b0) L → (length ms < fuel)%nat → Z.of_nat (length name) < 256 →
  ∃ d', install_method fuel c (Some b0) name nargs 0 0 off d = Ret (d', brk (objs d)) ∧
    parsed b0 c nm L (ms ++ [mkMethod (Some b0) name nargs (u16 off) 0xFF [] (Some 0) (Some 0) ∅ None]) d' ∧
    fpos d' = fpos d ∧ codes d' = codes d.
Proof.
  intros (L' & o & ps & l & HL & Hsh & Hbo & Hco & Hl & Hhi & Hms & Hok & Hb0) Hlow Hf Hname.
  assert (Hlen : length l = length ms).
  { apply (f_equal length) in Hms. by rewrite !length_fmap in Hms. }
  assert (Ho : cells (objs d) !! b0 = Some o) by (eapply lseg_lookup; [exact HL|set_solver]).
  assert (Hmeth : Forall (λ x, is_method x.2) l).
  { apply Forall_forall. intros x Hx. assert (Hin : (codebase x.2, body x.2) ∈ (λ m, (c, PK_TAG_METHOD m)) <$> ms).
    { rewrite <-Hms. by apply (list_elem_of_fmap_2 (λ x : Z * pkobj, (codebase x.2, body x.2))). }
    apply list_elem_of_fmap in Hin as (m & E & _). injection E as _ E. by exists m. }
  destruct (register_method_ok fuel (objs d) b0 o None ps nm l name nargs 0 0 off None Hok Ho)
    as (s' & ps' & l' & Hr & (g & Hg & Hgv & Hgn & Hgc & Hgb) & Hl' & Hl's & Hok' & Hbrk & Hfr);
    [by unfold class_view; rewrite Hbo|done|done|lia|done|].
  specialize (Hgb _ Hbo).
  assert (Hl'a : l'.*1 = l.*1) by by apply shape_addr.
  assert (HL'a : L'.*1 = L.*1) by by apply shape_addr.
  assert (HlowL : ∀ a, a ∈ L'.*1 → a < b0).
  { rewrite HL'a. intros a (x & -> & Hx)%list_elem_of_fmap. rewrite Forall_forall in Hlow. by apply Hlow. }
  assert (Hhil : ∀ a, a ∈ l.*1 → b0 < a).
  { intros a (x & -> & Hx)%list_elem_of_fmap. rewrite Forall_forall in Hhi. by apply Hhi. }
  unfold install_method. rewrite Hr. res_cbn.
  assert (Hnew : cells s' !! brk (objs d) =
    Some (mkObj None None (PK_TAG_METHOD (mkMethod (Some b0) name nargs (u16 off) 0xFF [] (Some 0) (Some 0) ∅ None))))
    by (eapply lseg_lookup; [exact Hl'|set_solver]).
  rewrite (upd_some _ _ _ _ Hnew). res_cbn. eexists. split; [done|]. split; [|done].
  assert (HL2 : lseg s' (iroot d) (L' ++ [(b0, g o)]) None).
  { apply lseg_app in HL as (q & HL1 & HL2). inversion HL2 as [|? ? ? ? _ Hq]; subst.
    apply lseg_app. exists (Some b0). split.
    - eapply lseg_frame; [exact HL1|]. intros a Ha. pose proof (HlowL a Ha). apply Hfr; [lia|lia|].
      intros Hal. pose proof (Hhil a Hal). lia.
    - constructor; [done|]. rewrite Hgn. pose proof (lseg_nil_inv _ _ _ Hq) as ->. constructor. }
  exists L', (g o), ps', (l' ++ [(brk (objs d), mkObj c None (PK_TAG_METHOD
    (mkMethod (Some b0) name nargs (u16 off) 0xFF [] (Some 0) (Some 0) ∅ None)))]).
  assert (Hbl : brk (objs d) ∉ l'.*1) by (rewrite Hl'a; by eapply lseg_fresh).
  split; [|split; [done|split; [done|split; [by rewrite Hgc|split; [|split; [|split; [|split]]]]]]].
  - apply lseg_frame_insert; [done|]. rewrite fmap_app. cbn. intros Hin. apply elem_of_app in Hin as [Hin|Hin].
    + pose proof (HlowL _ Hin). lia.
    + apply list_elem_of_singleton in Hin. lia.
  - exact (lseg_update s' ps' l' (brk (objs d))
      (mkObj None None (PK_TAG_METHOD (mkMethod (Some b0) name nargs (u16 off) 0xFF [] (Some 0) (Some 0) ∅ None)))
      [] None (set_codebase c) Hl' eq_refl Hbl (not_elem_of_nil _)).
  - apply Forall_app. split.
    + apply Forall_forall. intros x Hx. apply Hhil. rewrite <-Hl'a. by apply list_elem_of_fmap_2.
    + apply Forall_cons. split; [cbn; lia|by apply Forall_nil].
  - rewrite !fmap_app. f_equal. rewrite <-Hms.
    apply (f_equal (fmap (λ y : Z * option Z * pkbody, (y.1.2, y.2)))) in Hl's.
    rewrite <-!list_fmap_compose in Hl's. exact Hl's.
  - by apply store_ok_upd with (n := mkObj None None (PK_TAG_METHOD (mkMethod (Some b0) name nargs (u16 off) 0xFF [] (Some 0) (Some 0) ∅ None))) (f := set_codebase c).
  - cbn. lia.
Qed.

(** ** The records of a class *)

(** the record of a method with code, as the encoder writes it *)
Definition method_rec (m : method) : list Z :=
  tlv ASN_TAG_OCTSTRING (word (u16 (m_offset m)) ++ [numargs m] ++ m_name m).

Definition class_rec (nm : list Z) (ms : list method) : list Z :=
  tlv 0x30 (tlv ASN_TAG_IA5STRING nm ++ concat (method_rec <$> ms)).

(** what the decoder makes of it *)
Definition decoded (b0 : Z) (m : method) : method :=
  mkMethod (Some b0) (m_name m) (numargs m) (end_swap16 (m_offset m)) 0xFF [] (Some 0) (Some 0) ∅ None.

(** a name without NUL characters, short enough for the buffers and for a
    one-byte length *)
Definition short_name (nm : list Z) : Prop := Forall (λ x, x ≠ 0) nm ∧ Z.of_nat (length nm) < 124.

Lemma cstr_name nm : Forall (λ x, x ≠ 0) nm → cstr nm = nm.
Proof.
  intros H. unfold cstr. assert (E : c_string (nm ++ [0]) = Some nm); [|by rewrite E].
  induction H as [|x l Hx _ IH]; [done|]. cbn. rewrite IH. by rewrite (proj2 (Z.eqb_neq _ _)).
Qed.

Lemma short_len (v : list Z) : Z.of_nat (length v) < 127 → enc_len (Z.of_nat (length v)) = [Z.of_nat (length v)].
Proof. intros H. unfold enc_len. by rewrite (proj2 (Z.ltb_lt _ _)). Qed.

Lemma tlv_short_length t (v : list Z) : Z.of_nat (length v) < 127 → Z.of_nat (length (tlv t v)) = 2 + Z.of_nat (length v).
Proof. intros H. rewrite tlv_length, short_len by done. cbn [length]. lia. Qed.

(** the tag and the length of a record with a one-byte length *)
Lemma read_header_short f t v rest l0 d :
  Z.of_nat (length v) < 127 → at_ f d (tlv t v ++ rest) →
  fread f (fpos d) 1 = [t] ∧
  ∃ t', read_len false f t l0 (skip 1 d) = (t', Z.of_nat (length v), 1, skip 2 d) ∧
        at_ f (skip 2 d) (v ++ rest).
Proof.
  intros Hv [Hp Hd]. unfold tlv in Hd.
  destruct (fread_at f (fpos d) [t] ((enc_len (Z.of_nat (length v)) ++ v) ++ rest) 1 Hp Hd eq_refl) as [Hr Hr'].
  split; [done|]. rewrite <-app_assoc in Hr'.
  destruct (read_len_ok false f t l0 (Z.of_nat (length v)) (v ++ rest) (skip 1 d)) as (t' & Hl & Hat);
    [lia|split; [pos|exact Hr']|].
  rewrite short_len in Hl, Hat by done. rewrite (proj2 (Z.ltb_lt _ _)) in Hl by done.
  rewrite skip_skip in Hl, Hat. exists t'. by split.
Qed.

Lemma method_step fuel f c nm L ms b0 m rest v d e :
  parsed b0 c nm L ms d → Forall (λ x, x.1 < b0) L → (length ms < fuel)%nat →
  m_name m ≠ [] → short_name (m_name m) →
  v_off v = fpos d → v_parent v = Some b0 → v_off v < e →
  at_ f d (method_rec m ++ rest) → fpos d + Z.of_nat (length (method_rec m)) < 65536 →
  ∃ v' d', class_header_step fuel f c e (v, d) = Ret (inl (v', d')) ∧
    v_off v' = fpos d' ∧ fpos d' = fpos d + Z.of_nat (length (method_rec m)) ∧ v_parent v' = Some b0 ∧
    at_ f d' rest ∧ parsed b0 c nm L (ms ++ [decoded b0 m]) d' ∧ codes d' = codes d.
Proof.
  intros Hpar Hlow Hf Hne [Hnz Hlen] Hoff Hvp Hlt Hat Hmax. unfold method_rec in Hat, Hmax |- *.
  set (val := word (u16 (m_offset m)) ++ [numargs m] ++ m_name m) in *.
  assert (Hval : Z.of_nat (length val) = 3 + Z.of_nat (length (m_name m))) by (unfold val; rewrite !length_app; cbn; lia).
  rewrite tlv_short_length in * by lia. rewrite Hval in *.
  assert (Hne' : 0 < Z.of_nat (length (m_name m))) by (destruct (m_name m); [done|cbn; lia]).
  unfold class_header_step. rewrite (proj2 (Z.ltb_lt _ _)) by lia.
  destruct (read_header_short f ASN_TAG_OCTSTRING val rest (v_l v) d ltac:(lia) Hat) as [Hr (t' & Hrl & Hat2)].
  rewrite Hr. cbn [byte_of]. change (nread [ASN_TAG_OCTSTRING]) with 1. cbn [v_t v_l v_off v_numargs v_moff v_call v_ret v_parent].
  res_cbn. change (Z.land ASN_TAG_OCTSTRING 0x1f) with 4. cbn [Z.eqb Pos.eqb ASN_TAG_CHSTRING ASN_TAG_IA5STRING ASN_TAG_OCTSTRING].
  unfold header_method. cbn [v_t v_l v_off v_numargs v_moff v_call v_ret v_parent]. 
  change 4 with ASN_TAG_OCTSTRING. rewrite Hrl. rewrite Hval. rewrite (proj2 (Z.leb_gt _ _)) by lia.
  destruct Hat2 as [Hp2 Hd2]. unfold val in Hd2. rewrite <-!app_assoc in Hd2.
  destruct (fread_at f _ (word (u16 (m_offset m))) _ 2 Hp2 Hd2 eq_refl) as [-> Hd3].
  change (nread (word (u16 (m_offset m)))) with 2. rewrite skip_skip.
  destruct (fread_at f (fpos (skip (2 + 2) d)) [numargs m] (m_name m ++ rest) 1) as [-> Hd4];
    [pos| |done|].
  { rewrite <-Hd3. f_equal. f_equal. pos. }
  change (nread [numargs m]) with 1. rewrite skip_skip. cbn [byte_of default from_option id].
  rewrite (proj2 (Z.ltb_lt _ 4096)) by lia. res_cbn.
  replace (3 + Z.of_nat (length (m_name m)) - 3) with (Z.of_nat (length (m_name m))) by lia.
  destruct (fread_at f (fpos (skip (2 + 2 + 1) d)) (m_name m) rest (Z.of_nat (length (m_name m)))) as [-> Hd5];
    [pos| |done|].
  { rewrite <-Hd4. f_equal. f_equal. pos. }
  rewrite skip_skip, cstr_name by done. rewrite Hvp.
  assert (Hw : word_of (word (u16 (m_offset m))) (v_moff v) = end_swap16 (m_offset m)).
  { unfold word, word_of. pose proof (u16_range (m_offset m)) as Hu. unfold is_u16 in Hu.
    rewrite <-(end_swap16_u16 (m_offset m)), end_swap16_spec. rewrite (Z.mod_small (_ / 256)); [done|].
    split; [apply Z.div_pos; lia|apply Z.div_lt_upper_bound; lia]. }
  rewrite Hw.
  destruct (install_method_ok fuel b0 c nm L ms (skip (2 + 2 + 1 + nread (m_name m)) d) (m_name m) (numargs m)
              (end_swap16 (m_offset m)) Hpar Hlow Hf) as (d' & Hi & Hpar' & Hpos & Hcodes); [lia|].
  rewrite Hi. res_cbn. eexists _, d'. split; [done|]. cbn [v_off v_parent].
  rewrite u16_id in Hpar' by apply end_swap16_range.
  assert (Hpos' : fpos d' = fpos d + (2 + (3 + Z.of_nat (length (m_name m))))) by (rewrite Hpos; pos).
  split; [|split; [done|split; [done|split; [|split; [done|by rewrite Hcodes]]]]].
  - rewrite Hpos', Hoff. rewrite (u16_id (fpos d + 1)) by (destruct Hat; unfold is_u16; lia).
    rewrite u16_id by (destruct Hat; unfold is_u16, nread; lia). unfold nread. lia.
  - split; [destruct Hat; lia|]. rewrite Hpos', <-Hd5. f_equal. f_equal. pos.
Qed.

Lemma methods_loop fuel0 f c nm L b0 ms' : ∀ fuel ms v d e rest,
  parsed b0 c nm L ms d → Forall (λ x, x.1 < b0) L → (length ms + length ms' < fuel0)%nat →
  Forall (λ m, m_name m ≠ [] ∧ short_name (m_name m)) ms' →
  v_off v = fpos d → v_parent v = Some b0 →
  at_ f d (concat (method_rec <$> ms') ++ rest) →
  e = fpos d + Z.of_nat (length (concat (method_rec <$> ms'))) → e < 65536 → (length ms' < fuel)%nat →
  ∃ d', loop fuel (class_header_step fuel0 f c e) (v, d) = Ret (e, d') ∧
    parsed b0 c nm L (ms ++ (decoded b0 <$> ms')) d' ∧ codes d' = codes d.
Proof.
  induction ms' as [|m ms' IH]; intros [|fuel] ms v d e rest Hpar Hlow Hf0 Hms Hoff Hvp Hat He Hmax Hf;
    try (cbn in Hf; lia).
  - cbn in He. exists d. rewrite app_nil_r. split; [|done]. apply loop_inr. unfold class_header_step.
    rewrite (proj2 (Z.ltb_ge _ _)) by lia. by rewrite Hoff, He, Z.add_0_r.
  - apply Forall_cons in Hms as [[Hne Hnm] Hms]. cbn [fmap list_fmap concat] in *.
    rewrite length_app in He. rewrite <-app_assoc in Hat.
    assert (Hpos : 0 < Z.of_nat (length (method_rec m))) by (unfold method_rec; rewrite tlv_length; lia).
    cbn [length] in Hf0, Hf.
    destruct (method_step fuel0 f c nm L ms b0 m _ v d e Hpar Hlow ltac:(lia) Hne Hnm Hoff Hvp ltac:(lia) Hat ltac:(lia))
      as (v' & d' & Hs & Hoff' & Hpos' & Hvp' & Hat' & Hpar' & Hc').
    destruct (IH fuel (ms ++ [decoded b0 m]) v' d' e rest Hpar' Hlow) as (d2 & Hl & Hpar2 & Hc2);
      [rewrite length_app; cbn; lia|done|done|done|done|lia|done|lia|].
    exists d2. split; [erewrite loop_inl by exact Hs; exact Hl|]. rewrite <-app_assoc in Hpar2.
    split; [exact Hpar2|by rewrite Hc2].
Qed.

Lemma name_step fuel f c nm L rest v d e :
  store_ok (objs d) → lseg (objs d) (iroot d) L None → (length L < fuel)%nat → short_name nm →
  v_off v = fpos d → v_parent v = None → v_off v < e →
  at_ f d (tlv ASN_TAG_IA5STRING nm ++ rest) → fpos d + Z.of_nat (length (tlv ASN_TAG_IA5STRING nm)) < 65536 →
  ∃ v' d', class_header_step fuel f c e (v, d) = Ret (inl (v', d')) ∧
    v_off v' = fpos d' ∧ fpos d' = fpos d + Z.of_nat (length (tlv ASN_TAG_IA5STRING nm)) ∧
    v_parent v' = Some (brk (objs d)) ∧ at_ f d' rest ∧ parsed (brk (objs d)) c nm L [] d' ∧ codes d' = codes d.
Proof.
  intros Hok HL Hf [Hnz Hlen] Hoff Hvp Hlt Hat Hmax. rewrite tlv_short_length in * by lia.
  unfold class_header_step. rewrite (proj2 (Z.ltb_lt _ _)) by lia.
  destruct (read_header_short f ASN_TAG_IA5STRING nm rest (v_l v) d ltac:(lia) Hat) as [Hr (t' & Hrl & Hat2)].
  rewrite Hr. cbn [byte_of]. change (nread [ASN_TAG_IA5STRING]) with 1. cbn [v_t v_l v_off v_numargs v_moff v_call v_ret v_parent].
  res_cbn. change (Z.land ASN_TAG_IA5STRING 0x1f) with 22. cbn [Z.eqb Pos.eqb ASN_TAG_CHSTRING ASN_TAG_IA5STRING].
  unfold header_name. cbn [v_t v_l v_off v_numargs v_moff v_call v_ret v_parent].
  change 22 with ASN_TAG_IA5STRING. rewrite Hrl, Hvp.
  destruct Hat2 as [Hp2 Hd2]. destruct (fread_at f _ nm _ (Z.of_nat (length nm)) Hp2 Hd2 eq_refl) as [-> Hd3].
  rewrite (proj2 (Z.ltb_lt _ 4096)) by lia. res_cbn. rewrite skip_skip, cstr_name by done.
  destruct (install_class_ok fuel c nm (skip (2 + nread nm) d) L Hok HL Hf ltac:(lia))
    as (d' & L' & Hi & HL' & Hsh & Hok' & Hbrk & Hpos & Hcodes).
  cbn [objs skip seek iroot] in Hi. cbn [objs skip seek iroot]. rewrite Hi. res_cbn.
  eexists _, d'. split; [done|]. cbn [v_off v_parent].
  assert (Hpos' : fpos d' = fpos d + (2 + Z.of_nat (length nm))) by (rewrite Hpos; pos).
  split; [|split; [done|split; [done|split; [|split; [|by rewrite Hcodes]]]]].
  - rewrite Hpos', Hoff. rewrite (u16_id (fpos d + 1)) by (destruct Hat; unfold is_u16; lia).
    rewrite u16_id by (destruct Hat; unfold is_u16, nread; lia). unfold nread. lia.
  - split; [destruct Hat; lia|]. rewrite Hpos', <-Hd3. f_equal. f_equal. pos.
  - eexists L', _, None, []. split; [exact HL'|]. split; [done|]. split; [done|]. split; [done|].
    split; [constructor|]. split; [by apply Forall_nil|]. split; [done|]. split; [done|].
    rewrite Hbrk. cbn [objs skip seek]. lia.
Qed.

(** C31: reading a class back. From the record of a class whose contents fit a
    one-byte length (less than 127 bytes), the decoder makes exactly that
    class, behind the objects there were, with exactly its methods, in order,
    with their names and numbers of arguments, and the code block it was
    given; it stops at the end of the record. But it stores the two bytes of
    an offset, written big-endian, without swapping them: the offset of every
    method is [end_swap16] of the one encoded. *)
Theorem class_roundtrip fuel f off c d L nm ms rest :
  store_ok (objs d) → lseg (objs d) (iroot d) L None → (length L + length ms + 1 < fuel)%nat →
  short_name nm → Forall (λ m, m_name m ≠ [] ∧ short_name (m_name m)) ms →
  Z.of_nat (length (tlv ASN_TAG_IA5STRING nm ++ concat (method_rec <$> ms))) < 127 →
  0 ≤ off → off + Z.of_nat (length (class_rec nm ms)) < 65536 →
  drop (Z.to_nat off) f = class_rec nm ms ++ rest →
  ∃ d', lk_decode_class_seq fuel f off c d = Ret (off + Z.of_nat (length (class_rec nm ms)), d') ∧
    parsed (brk (objs d)) c nm L (decoded (brk (objs d)) <$> ms) d' ∧ codes d' = codes d.
Proof.
  intros Hok HL Hf Hnm Hms Hlen Hoff Hmax Hd.
  assert (Hlow : Forall (λ x, x.1 < brk (objs d)) L).
  { apply Forall_forall. intros x Hx. eapply lseg_below; [exact Hok|exact HL|]. by apply list_elem_of_fmap_2. }
  unfold class_rec in *. rewrite tlv_short_length in * by done.
  set (val := tlv ASN_TAG_IA5STRING nm ++ concat (method_rec <$> ms)) in *.
  unfold lk_decode_class_seq.
  destruct (read_header_short f 0x30 val rest 0 (seek off d) Hlen) as [Hr (t' & Hrl & Hat)]; [by split|].
  rewrite Hr. cbn [byte_of]. res_cbn. change (nread [48]) with 1.
  change (Z.land 48 0x1f =? ASN_TAG_SEQ) with true. cbn [orb]. rewrite Hrl. unfold lk_decode_class_header.
  rewrite (u16_id (off + 1 + 1)) by (unfold is_u16; lia). rewrite u16_id by (unfold is_u16; lia).
  set (e := off + 1 + 1 + Z.of_nat (length val)).
  replace (seek (off + 1 + 1) (skip 2 (seek off d))) with (skip 2 (seek off d))
    by (unfold skip, seek; cbn; f_equal; lia).
  unfold val in Hat, Hlen. rewrite <-app_assoc in Hat. rewrite length_app in Hlen.
  assert (He : e = off + 2 + Z.of_nat (length (tlv ASN_TAG_IA5STRING nm)) +
                   Z.of_nat (length (concat (method_rec <$> ms)))).
  { unfold e, val. rewrite length_app. lia. }
  assert (Hnl : 0 < Z.of_nat (length (tlv ASN_TAG_IA5STRING nm))) by (rewrite tlv_length; lia).
  destruct (name_step fuel f c nm L (concat (method_rec <$> ms) ++ rest)
              (mkL (off + 1 + 1) None 0 0 0 None None None) (skip 2 (seek off d)) e)
    as (v' & d1 & Hs & Hoff1 & Hpos1 & Hvp1 & Hat1 & Hpar1 & Hc1); try done.
  - lia.
  - cbn [v_off]. pos.
  - cbn [v_off]. lia.
  - pos.
  - cbn [objs skip seek] in *.
    destruct fuel as [|fuel]; [lia|]. erewrite loop_inl by exact Hs.
    destruct (methods_loop (S fuel) f c nm L (brk (objs d)) ms fuel [] v' d1 e rest Hpar1 Hlow)
      as (d2 & Hl & Hpar2 & Hc2); try done; [cbn; lia| |lia|lia|].
    + rewrite Hpos1, He. pos.
    + exists d2. rewrite Hl. split; [|by split; [|rewrite Hc2]]. f_equal. f_equal. unfold e. lia.
Qed.

(** A file with one class [C] and its method [m] at 0x102, read at its start. *)
Definition empty_dst : dst := mkD 0 (mkStore ∅ 1) None (mkStore ∅ 1).

Lemma class_roundtrip_witness :
  ∃ d', lk_decode_class_seq 5 (class_rec [67] [method_m]) 0 None empty_dst =
      Ret (0 + Z.of_nat (length (class_rec [67] [method_m])), d') ∧
    parsed 1 None [67] [] (decoded 1 <$> [method_m]) d' ∧ codes d' = mkStore ∅ 1.
Proof.
  apply (class_roundtrip 5 (class_rec [67] [method_m]) 0 None empty_dst [] [67] [method_m] []).
  - apply store_ok_empty.
  - constructor.
  - cbn. lia.
  - split; [by repeat constructor|by vm_compute].
  - repeat constructor; done.
  - by vm_compute.
  - done.
  - by vm_compute.
  - done.
Defined.

Definition package (records : list Z) : list Z := tlv 0x30 records ++ tlv ASN_TAG_BMPSTRING [7; 8; 9].

Definition method_n (n : nat) : method :=
  mkMethod (Some 1) (replicate n 109) 2 0x102 0xFF [] (Some 0) (Some 0) ∅ None.

(** Packages that cannot be read back. [lk_decode_header_seq] and the
    functions below it read two-byte lengths without swapping them, and they
    know no record for a try-catch block. A package with a class of one method
    is decoded when the method's name has 3 letters; not when it has 130, nor
    when a try-catch block stands behind the class: the decoder loses its place
    and reaches undefined behaviour. The code block is found in all three. *)
Theorem package_not_read_back :
  (r ← lk_decode_file 200 (package (class_rec [67] [method_n 3])) empty_dst;
   m ← pk_select_class 5 (iroot r.2) [67] (objs r.2); Ret (r.1.2, m)) = Ret (3, Some 1) ∧
  lk_decode_file 200 (package (class_rec [67] [method_n 130])) empty_dst = Undef ∧
  lk_decode_file 200 (package (class_rec [67] [method_n 3] ++
    tlv ASN_TAG_ENUM (be32 10 ++ be32 20 ++ [0; 1]))) empty_dst = Undef.
Proof. repeat split; by vm_compute. Qed.
