(* ===== verification/Mem.v ===== *)
(** * Byte memory

    Memory that C functions read and write through [char *] parameters: a
    finite map from addresses to bytes. An address outside every object is not
    in the map, and reading or writing it is undefined behaviour. Two pointers
    may name the same object, so a function that is called in place is the
    same definition at two equal addresses. *)
From S2P Require Import Prelude.

Abbreviation mem := (gmap Z Z).

Definition ld (m : mem) (a : Z) : res Z := from_option_ub (m !! a).

Definition st (m : mem) (a v : Z) : res mem :=
  match m !! a with Some _ => Ret (<[a := u8 v]> m) | None => Undef end.

(** [n] bytes from [a] can be read and written. *)
Definition room (m : mem) (a n : Z) : Prop := ∀ i, a ≤ i < a + n → is_Some (m !! i).

(** The bytes [l] lie in memory from [a]. *)
Definition bytes_at (m : mem) (a : Z) (l : list Z) : Prop :=
  ∀ k x, l !! k = Some x → m !! (a + Z.of_nat k) = Some x.

(** A C string: its bytes and a NUL. *)
Definition cstr_at (m : mem) (a : Z) (l : list Z) : Prop :=
  bytes_at m a (l ++ [0]) ∧ Forall (λ x, is_byte x ∧ x ≠ 0) l.

(** [n] zero bytes from [a]; the first [length l] of them hold [l]. *)
Definition alloc (a : Z) (n : nat) (l : list Z) (m : mem) : mem :=
  list_to_map ((λ k, (a + Z.of_nat k, default 0 (l !! k))) <$> seq 0 n) ∪ m.

Lemma ld_some m a x : m !! a = Some x → ld m a = Ret x.
Proof. unfold ld. by intros ->. Qed.

Lemma st_some m a v : is_Some (m !! a) → st m a v = Ret (<[a := u8 v]> m).
Proof. unfold st. by intros [x ->]. Qed.

Lemma room_insert m a n b v : room m a n → room (<[b := v]> m) a n.
Proof. intros H i Hi. rewrite lookup_insert_is_Some. destruct (decide (b = i)); [by left|right; auto]. Qed.

Lemma room_sub m a n b k : room m a n → a ≤ b → b + k ≤ a + n → room m b k.
Proof. intros H Hb Hk i Hi. apply H. lia. Qed.

Lemma bytes_at_nil m a : bytes_at m a [].
Proof. intros k x H. by rewrite lookup_nil in H. Qed.

Lemma bytes_at_cons m a x l : bytes_at m a (x :: l) ↔ m !! a = Some x ∧ bytes_at m (a + 1) l.
Proof.
  split.
  - intros H. split.
    + rewrite <-(H 0%nat x) by done. f_equal. lia.
    + intros k y Hk. rewrite <-(H (S k) y) by done. f_equal. lia.
  - intros [Hx Hl] [|k] y Hk; cbn in Hk.
    + simplify_eq. rewrite <-Hx. f_equal. lia.
    + rewrite <-(Hl k y) by done. f_equal. lia.
Qed.

Lemma bytes_at_app m a l1 l2 :
  bytes_at m a (l1 ++ l2) ↔ bytes_at m a l1 ∧ bytes_at m (a + Z.of_nat (length l1)) l2.
Proof.
  revert a. induction l1 as [|x l1 IH]; intros a; cbn [app length].
  - rewrite Z.add_0_r. pose proof (bytes_at_nil m a). tauto.
  - rewrite !bytes_at_cons, IH.
    replace (a + 1 + Z.of_nat (length l1)) with (a + Z.of_nat (S (length l1))) by lia. tauto.
Qed.

(** Writing outside some bytes leaves them. *)
Lemma bytes_at_insert m a l b v :
  bytes_at m a l → b < a ∨ a + Z.of_nat (length l) ≤ b → bytes_at (<[b := v]> m) a l.
Proof.
  intros H Hb k x Hk. pose proof (lookup_lt_Some _ _ _ Hk). rewrite lookup_insert_ne by lia. by apply H.
Qed.

Lemma bytes_at_room m a l : bytes_at m a l → room m a (Z.of_nat (length l)).
Proof.
  intros H i Hi. destruct (lookup_lt_is_Some_2 l (Z.to_nat (i - a))) as [x Hx]; [lia|].
  exists x. rewrite <-(H _ _ Hx). f_equal. lia.
Qed.

(** Appending one byte behind the bytes already there. *)
Lemma bytes_at_snoc m a l v :
  bytes_at m a l → is_byte v → bytes_at (<[a + Z.of_nat (length l) := u8 v]> m) a (l ++ [v]).
Proof.
  intros H Hv. apply bytes_at_app. split; [apply bytes_at_insert; [done|lia]|].
  apply bytes_at_cons. split; [|apply bytes_at_nil]. rewrite lookup_insert_eq. by rewrite u8_id.
Qed.

Lemma lookup_alloc a n l m i :
  alloc a n l m !! i =
    if decide (a ≤ i < a + Z.of_nat n) then Some (default 0 (l !! Z.to_nat (i - a))) else m !! i.
Proof.
  unfold alloc. rewrite lookup_union.
  assert (Hnd : NoDup (((λ k, (a + Z.of_nat k, default 0 (l !! k))) <$> seq 0 n).*1)).
  { rewrite <-list_fmap_compose. apply NoDup_fmap_2; [intros x y; cbn; lia|]. apply NoDup_ListNoDup, seq_NoDup. }
  case_decide as Hi.
  - assert ((list_to_map ((λ k, (a + Z.of_nat k, default 0 (l !! k))) <$> seq 0 n) : mem) !! i =
              Some (default 0 (l !! Z.to_nat (i - a)))) as ->; [|by destruct (m !! i)].
    apply elem_of_list_to_map_1; [done|]. apply list_elem_of_fmap. exists (Z.to_nat (i - a)). split.
    + f_equal. lia.
    + apply elem_of_seq. lia.
  - assert ((list_to_map ((λ k, (a + Z.of_nat k, default 0 (l !! k))) <$> seq 0 n) : mem) !! i = None) as ->;
      [|by destruct (m !! i)].
    apply not_elem_of_list_to_map_1. rewrite <-list_fmap_compose. intros (k & -> & Hk)%list_elem_of_fmap.
    apply elem_of_seq in Hk. cbn in Hi. lia.
Qed.

Lemma alloc_room a n l m : room (alloc a n l m) a (Z.of_nat n).
Proof. intros i Hi. rewrite lookup_alloc, decide_True by done. eauto. Qed.

Lemma alloc_bytes a n l m : (length l ≤ n)%nat → bytes_at (alloc a n l m) a l.
Proof.
  intros Hn k x Hk. pose proof (lookup_lt_Some _ _ _ Hk). rewrite lookup_alloc, decide_True by lia.
  replace (Z.to_nat _) with k by lia. by rewrite Hk.
Qed.

(** [m'] differs from [m] at most in the [n] bytes from [a], and has the same
    addresses. *)
Definition changed (m m' : mem) (a n : Z) : Prop :=
  (∀ b, is_Some (m !! b) → is_Some (m' !! b)) ∧ ∀ b, b < a ∨ a + n ≤ b → m' !! b = m !! b.

Lemma changed_refl m a n : changed m m a n.
Proof. by split. Qed.

Lemma changed_trans m m1 m2 a n : changed m m1 a n → changed m1 m2 a n → changed m m2 a n.
Proof. intros [H1 H2] [H3 H4]. split; [auto|]. intros b Hb. by rewrite H4, H2. Qed.

Lemma changed_insert m a n b v : a ≤ b < a + n → changed m (<[b := v]> m) a n.
Proof.
  intros Hb. split.
  - intros c Hc. apply lookup_insert_is_Some. destruct (decide (b = c)); [by left|by right].
  - intros c Hc. apply lookup_insert_ne. lia.
Qed.

Lemma changed_room m m' a n b k : changed m m' a n → room m b k → room m' b k.
Proof. intros [H _] Hr i Hi. by apply H, Hr. Qed.

Lemma changed_bytes m m' a n b l :
  changed m m' a n → bytes_at m b l → b + Z.of_nat (length l) ≤ a ∨ a + n ≤ b → bytes_at m' b l.
Proof.
  intros [_ H] Hl Hb k x Hk. pose proof (lookup_lt_Some _ _ _ Hk). rewrite H by lia. by apply Hl.
Qed.

Lemma changed_sub m m' a n b k : changed m m' a n → b ≤ a → a + n ≤ b + k → changed m m' b k.
Proof. intros [H1 H2] Hb Hk. split; [done|]. intros c Hc. apply H2. lia. Qed.

(** ** Lists of bytes *)
Fixpoint ld_list (m : mem) (a : Z) (n : nat) : res (list Z) :=
  match n with
  | O => Ret []
  | S n' => x ← ld m a; l ← ld_list m (a + 1) n'; Ret (x :: l)
  end.

Fixpoint st_list (m : mem) (a : Z) (l : list Z) : res mem :=
  match l with
  | [] => Ret m
  | x :: l' => m' ← st m a x; st_list m' (a + 1) l'
  end.

Lemma ld_list_ok m a l : bytes_at m a l → ld_list m a (length l) = Ret l.
Proof.
  revert a. induction l as [|x l IH]; intros a H; [done|]. apply bytes_at_cons in H as [Hx Hl].
  cbn [ld_list length]. rewrite (ld_some _ _ _ Hx). res_cbn. by rewrite IH.
Qed.

Lemma st_list_ok m a l : room m a (Z.of_nat (length l)) → Forall is_byte l →
  ∃ m', st_list m a l = Ret m' ∧ bytes_at m' a l ∧ changed m m' a (Z.of_nat (length l)).
Proof.
  revert m a. induction l as [|x l IH]; intros m a Hr Hl.
  - exists m. split; [done|]. split; [apply bytes_at_nil|apply changed_refl].
  - apply Forall_cons in Hl as [Hx Hl]. cbn [length st_list] in *. rewrite st_some by (apply Hr; lia). res_cbn.
    destruct (IH (<[a := u8 x]> m) (a + 1)) as (m' & E & Hm' & Hch); [|done|].
    { apply room_insert. eapply room_sub; [exact Hr|lia|lia]. }
    exists m'. split; [done|]. split.
    + apply bytes_at_cons. split; [|done]. destruct Hch as [_ Hch]. rewrite Hch by lia.
      by rewrite lookup_insert_eq, u8_id.
    + eapply changed_trans; [apply changed_insert|eapply changed_sub; [exact Hch|lia|lia]]. lia.
Qed.


