(* ===== verification/Lex.v ===== *)
(** * Lexer helpers (StackLib/Stack/lex_proto.c)

    What the generated scanner calls: hexadecimal numbers, escape sequences in
    string literals, the table of preprocessor constants and the evaluation of
    a [#if] line. Characters are [uchar]; the scanner unescapes some strings in
    place, so the strings live in a byte memory (Mem.v) and the functions take
    addresses. *)
From S2P Require Import Prelude Links Mem.

(** ** Hexadecimal numbers *)
Definition lp_getdec (hex : Z) : Z :=
  if (hex =? 70) || (hex =? 102) then 15
  else if (hex =? 69) || (hex =? 101) then 14
  else if (hex =? 68) || (hex =? 100) then 13
  else if (hex =? 67) || (hex =? 99) then 12
  else if (hex =? 66) || (hex =? 98) then 11
  else if (hex =? 65) || (hex =? 97) then 10
  else if (49 <=? hex) && (hex <=? 57) then hex - 48
  else 0.

(** an [int]: overflow is undefined *)
Definition int32 (z : Z) : res Z := guardb ((- 2 ^ 31 <=? z) && (z <? 2 ^ 31)) ≫= λ _, Ret z.

(** one turn of [lp_hex2integer]'s loop; [strlen] at every turn reads the
    terminator again *)
Fixpoint hex2integer_loop (l : list Z) (ret : Z) : res Z :=
  match l with
  | [] => Ret (u64 ret)
  | c :: l' => r ← int32 (ret * 16); r' ← int32 (r + lp_getdec c); hex2integer_loop l' r'
  end.

Definition lp_hex2integer (strin : list Z) : res Z :=
  s ← from_option_ub (c_string strin); hex2integer_loop s 0.

(** [lp_hex2dec] of the two characters at [a]; a NUL adds no digit *)
Definition hex_digit (ret c : Z) : Z := if c =? 0 then ret else ret * 16 + lp_getdec c.

Definition lp_hex2dec (m : mem) (a : Z) : res Z :=
  c0 ← ld m a; c1 ← ld m (a + 1); Ret (hex_digit (hex_digit 0 c0) c1).

(** [strlen] *)
Definition strlen (fuel : nat) (m : mem) (a : Z) : res Z :=
  loop fuel (λ i, c ← ld m (a + i); Ret (if c =? 0 then inr i else inl (i + 1))) 0.

Fixpoint hex2bytes_loop (n : nat) (i strin p : Z) (m : mem) : res mem :=
  match n with
  | O => Ret m
  | S n' =>
      d ← lp_hex2dec m (strin + i * 2);
      m' ← st m (p + i) d;
      hex2bytes_loop n' (i + 1) strin p m'
  end.

Definition lp_hex2bytes (fuel : nat) (strin p : Z) (m : mem) : res (mem * Z) :=
  n ← strlen fuel m strin;
  m' ← hex2bytes_loop (Z.to_nat (n / 2)) 0 strin p m;
  Ret (m', n / 2).

(** ** Escape sequences *)

(** The letter that stands for a character after a backslash. *)
Definition escape_letter (c : Z) : option Z :=
  if c =? 10 then Some 110          (* newline *)
  else if c =? 9 then Some 116      (* tab *)
  else if c =? 7 then Some 97       (* bell *)
  else if c =? 8 then Some 98       (* backspace *)
  else if c =? 12 then Some 102     (* form feed *)
  else if c =? 13 then Some 114     (* return *)
  else if c =? 11 then Some 118     (* vertical tab *)
  else if c =? 92 then Some 92      (* backslash *)
  else if c =? 34 then Some 34      (* quote *)
  else None.

(** one turn of [lp_escape]'s loop: memory, [i], [j] *)
Definition escape_step (s t : Z) (x : mem * Z * Z) : res (mem * Z * Z + mem) :=
  let '(m, i, j) := x in
  c ← ld m (t + i);
  if c =? 0 then m' ← st m (s + j) c; Ret (inr m')
  else
    match escape_letter c with
    | Some l =>
        m1 ← st m (s + j) 92;
        m2 ← st m1 (s + (j + 1)) l;
        Ret (inl (m2, i + 1, j + 1 + 1))
    | None => m1 ← st m (s + j) c; Ret (inl (m1, i + 1, j + 1))
    end.

Definition lp_escape (fuel : nat) (s t : Z) (m : mem) : res mem :=
  loop fuel (escape_step s t) (m, 0, 0).

(** The character that a letter after a backslash stands for. *)
Definition unescape_letter (c : Z) : option Z :=
  if c =? 110 then Some 10
  else if c =? 116 then Some 9
  else if c =? 97 then Some 7
  else if c =? 98 then Some 8
  else if c =? 102 then Some 12
  else if c =? 114 then Some 13
  else if c =? 118 then Some 11
  else if c =? 92 then Some 92
  else if c =? 34 then Some 34
  else None.

(** [s[j] = lp_getdec(t[++i])], then times [base] plus the next digit, [n] times *)
Fixpoint unescape_digits (n : nat) (base t a i : Z) (m : mem) : res (mem * Z) :=
  match n with
  | O => Ret (m, i)
  | S n' =>
      v ← ld m a; m1 ← st m a (v * base);
      d ← ld m1 (t + (i + 1)); w ← ld m1 a; m2 ← st m1 a (w + lp_getdec d);
      unescape_digits n' base t a (i + 1) m2
  end.

Definition unescape_number (n : nat) (base t a i : Z) (m : mem) : res (mem * Z) :=
  d ← ld m (t + (i + 1)); m1 ← st m a (lp_getdec d);
  unescape_digits n base t a (i + 1) m1.

(** one turn of [lp_unescape]'s loop *)
Definition unescape_step (s t : Z) (x : mem * Z * Z) : res (mem * Z * Z + mem * Z) :=
  let '(m, i, j) := x in
  c ← ld m (t + i);
  if c =? 0 then m' ← st m (s + j) c; Ret (inr (m', u16 j))
  else if c =? 92 then
    let i := i + 1 in
    e ← ld m (t + i);
    match unescape_letter e with
    | Some v => m1 ← st m (s + j) v; Ret (inl (m1, i + 1, j + 1))
    | None =>
        if e =? 120 then
          r ← unescape_number 1 16 t (s + j) i m; Ret (inl (r.1, r.2 + 1, j + 1))
        else if (48 <=? e) && (e <=? 57) then
          r ← unescape_number 2 8 t (s + j) i m; Ret (inl (r.1, r.2 + 1, j + 1))
        else
          m1 ← st m (s + j) 92;
          e' ← ld m1 (t + i);
          m2 ← st m1 (s + (j + 1)) e';
          Ret (inl (m2, i + 1, j + 1 + 1))
    end
  else m1 ← st m (s + j) c; Ret (inl (m1, i + 1, j + 1)).

Definition lp_unescape (fuel : nat) (s t : Z) (m : mem) : res (mem * Z) :=
  loop fuel (unescape_step s t) (m, 0, 0).

(** *** The round trip *)

(** The escaped text of a character and of a string. *)
Definition escape1 (c : Z) : list Z :=
  match escape_letter c with Some l => [92; l] | None => [c] end.

Definition escaped (l : list Z) : list Z := concat (escape1 <$> l).

Lemma escape_unescape_letter c l :
  escape_letter c = Some l → unescape_letter l = Some c ∧ is_byte l ∧ l ≠ 0.
Proof.
  unfold escape_letter. intros H.
  repeat (case_match; [simplify_eq; match goal with E : (c =? _) = true |- _ => apply Z.eqb_eq in E as -> end;
                       by split; [|split] |]). done.
Qed.

Lemma escape_letter_none c : escape_letter c = None → c ≠ 92.
Proof. by intros H ->. Qed.

Lemma escaped_app l1 l2 : escaped (l1 ++ l2) = escaped l1 ++ escaped l2.
Proof. unfold escaped. by rewrite fmap_app, concat_app. Qed.

Lemma escaped_cons c l : escaped (c :: l) = escape1 c ++ escaped l.
Proof. done. Qed.

Lemma escape_letter_spec c l : escape_letter c = Some l → is_byte l ∧ l ≠ 0 ∧ unescape_letter l = Some c.
Proof. intros H. destruct (escape_unescape_letter _ _ H) as (? & ? & ?). done. Qed.

(** one character of the text: what is written, where the indices go *)
Lemma escape_one m s t i j c :
  m !! (t + i) = Some c → c ≠ 0 → is_byte c → room m (s + j) (Z.of_nat (length (escape1 c))) →
  ∃ m', escape_step s t (m, i, j) = Ret (inl (m', i + 1, j + Z.of_nat (length (escape1 c)))) ∧
    bytes_at m' (s + j) (escape1 c) ∧ changed m m' (s + j) (Z.of_nat (length (escape1 c))).
Proof.
  intros Hc H0 Hb Hr. unfold escape_step, escape1 in *. rewrite (ld_some _ _ _ Hc). res_cbn.
  rewrite (proj2 (Z.eqb_neq _ _) H0). destruct (escape_letter c) as [l|] eqn:El; cbn [length] in Hr |- *.
  - destruct (escape_letter_spec _ _ El) as (Hl & _ & _).
    rewrite st_some by (apply Hr; lia). res_cbn.
    rewrite st_some by (apply lookup_insert_is_Some; right; split; [lia|apply Hr; lia]). res_cbn.
    eexists. split; [do 3 f_equal; lia|]. split.
    + apply bytes_at_cons. split; [rewrite lookup_insert_ne by lia; by rewrite lookup_insert_eq|].
      apply bytes_at_cons. split; [|apply bytes_at_nil].
      replace (s + j + 1) with (s + (j + 1)) by lia. rewrite lookup_insert_eq. by rewrite u8_id.
    + eapply changed_trans; apply changed_insert; lia.
  - rewrite st_some by (apply Hr; lia). res_cbn. eexists. split; [done|]. split.
    + apply bytes_at_cons. split; [|apply bytes_at_nil]. rewrite lookup_insert_eq. by rewrite u8_id.
    + apply changed_insert. lia.
Qed.

Lemma escape_walk s t l2 : ∀ fuel m l1,
  bytes_at m t (l1 ++ l2 ++ [0]) → Forall (λ x, is_byte x ∧ x ≠ 0) l2 → bytes_at m s (escaped l1) →
  let n := Z.of_nat (length (escaped (l1 ++ l2))) + 1 in
  room m s n → s + n ≤ t ∨ t + Z.of_nat (length (l1 ++ l2)) + 1 ≤ s → (length l2 < fuel)%nat →
  ∃ m', loop fuel (escape_step s t) (m, Z.of_nat (length l1), Z.of_nat (length (escaped l1))) = Ret m' ∧
    bytes_at m' s (escaped (l1 ++ l2) ++ [0]) ∧ changed m m' s n.
Proof.
  induction l2 as [|c l2 IH]; intros fuel m l1 Ht Hok Hs n Hr Hd Hf; (destruct fuel as [|fuel]; [cbn in Hf; lia|]).
  - subst n. rewrite app_nil_r in *. cbn [app] in Ht. apply bytes_at_app in Ht as [_ Ht].
    apply bytes_at_cons in Ht as [Ht _]. eexists. split; [|split].
    + apply loop_inr. unfold escape_step. rewrite (ld_some _ _ _ Ht). res_cbn.
      change (0 =? 0) with true. cbv iota. rewrite st_some by (apply Hr; lia). done.
    + apply (bytes_at_snoc _ _ _ 0); [done|]. unfold is_byte. lia.
    + apply changed_insert. lia.
  - apply Forall_cons in Hok as [[Hb H0] Hok]. pose proof Ht as Ht'.
    apply bytes_at_app in Ht' as [_ Ht']. cbn [app] in Ht'. apply bytes_at_cons in Ht' as [Hc _].
    subst n. rewrite !length_app in Hd. rewrite !escaped_app, escaped_cons, !length_app in *. cbn [length] in Hd, Hf.
    destruct (escape_one m s t (Z.of_nat (length l1)) (Z.of_nat (length (escaped l1))) c Hc H0 Hb) as (m1 & E & Hw & Hch).
    { eapply room_sub; [exact Hr|lia|lia]. }
    assert (Hch' : changed m m1 s (Z.of_nat (length (escaped l1) + (length (escape1 c) + length (escaped l2))) + 1)).
    { destruct Hch as [H1 H2]. split; [done|]. intros b Hb'. apply H2. lia. }
    assert (Hl1 : Z.of_nat (length l1) + 1 = Z.of_nat (length (l1 ++ [c]))) by (rewrite length_app; cbn; lia).
    assert (He1 : escaped (l1 ++ [c]) = escaped l1 ++ escape1 c) by (rewrite escaped_app, escaped_cons; cbn; by rewrite app_nil_r).
    assert (Hl2 : Z.of_nat (length (escaped l1)) + Z.of_nat (length (escape1 c)) = Z.of_nat (length (escaped (l1 ++ [c]))))
      by (rewrite He1, length_app; lia).
    destruct (IH fuel m1 (l1 ++ [c])) as (m' & E' & Hw' & Hch2).
    + rewrite <-app_assoc. eapply changed_bytes; [exact Hch'|exact Ht|]. rewrite !length_app. cbn [length]. lia.
    + done.
    + rewrite He1. apply bytes_at_app. split; [|done]. eapply changed_bytes; [exact Hch|done|lia].
    + eapply changed_room; [exact Hch'|]. rewrite escaped_app, He1, !length_app. eapply room_sub; [exact Hr|lia|lia].
    + rewrite escaped_app, He1, !length_app. cbn [length]. lia.
    + lia.
    + exists m'. rewrite Hl1, Hl2 in E. split; [by erewrite loop_inl by exact E|].
      assert (Hall : escaped ((l1 ++ [c]) ++ l2) = escaped l1 ++ escape1 c ++ escaped l2)
        by (by rewrite escaped_app, He1, <-app_assoc).
      rewrite Hall in Hw', Hch2. rewrite !length_app in Hch2. split; [done|].
      by eapply changed_trans.
Qed.

Lemma unescape_one m s t i j c :
  bytes_at m (t + i) (escape1 c) → c ≠ 0 → is_Some (m !! (s + j)) →
  unescape_step s t (m, i, j) =
    Ret (inl (<[s + j := u8 c]> m, i + Z.of_nat (length (escape1 c)), j + 1)).
Proof.
  intros Ht H0 Hr. unfold unescape_step, escape1 in *. destruct (escape_letter c) as [l|] eqn:El.
  - apply bytes_at_cons in Ht as [Hb Ht]. apply bytes_at_cons in Ht as [Hl _].
    destruct (escape_letter_spec _ _ El) as (_ & _ & Hu).
    rewrite (ld_some _ _ _ Hb). res_cbn. change (92 =? 0) with false. change (92 =? 92) with true. cbv iota.
    replace (t + (i + 1)) with (t + i + 1) by lia. rewrite (ld_some _ _ _ Hl). res_cbn. rewrite Hu.
    rewrite st_some by done. res_cbn. cbn [length]. do 4 f_equal. lia.
  - apply bytes_at_cons in Ht as [Hc _]. rewrite (ld_some _ _ _ Hc). res_cbn.
    rewrite (proj2 (Z.eqb_neq _ _) H0). rewrite (proj2 (Z.eqb_neq _ _) (escape_letter_none _ El)).
    rewrite st_some by done. done.
Qed.

Lemma escape1_pos c : (0 < length (escape1 c))%nat.
Proof. unfold escape1. destruct (escape_letter c); cbn; lia. Qed.

Lemma unescape_walk s t e l2 : ∀ fuel m i l1,
  bytes_at m (t + i) (escaped l2 ++ [0]) → Forall (λ x, is_byte x ∧ x ≠ 0) l2 → bytes_at m s l1 →
  t + i + Z.of_nat (length (escaped l2)) < e →
  let n := Z.of_nat (length (l1 ++ l2)) + 1 in
  room m s n → (s ≤ t ∧ Z.of_nat (length l1) ≤ i) ∨ e ≤ s → (length l2 < fuel)%nat →
  ∃ m', loop fuel (unescape_step s t) (m, i, Z.of_nat (length l1)) =
          Ret (m', u16 (Z.of_nat (length (l1 ++ l2)))) ∧
    bytes_at m' s (l1 ++ l2 ++ [0]) ∧ changed m m' s n.
Proof.
  induction l2 as [|c l2 IH]; intros fuel m i l1 Ht Hok Hs He n Hr Hd Hf; (destruct fuel as [|fuel]; [cbn in Hf; lia|]).
  - subst n. rewrite app_nil_r in *. cbn [app escaped] in Ht. apply bytes_at_cons in Ht as [Ht _].
    eexists. split; [|split].
    + apply loop_inr. unfold unescape_step. rewrite (ld_some _ _ _ Ht). res_cbn.
      change (0 =? 0) with true. cbv iota. rewrite st_some by (apply Hr; lia). done.
    + apply (bytes_at_snoc _ _ _ 0); [done|]. unfold is_byte. lia.
    + apply changed_insert. lia.
  - apply Forall_cons in Hok as [[Hb H0] Hok]. rewrite escaped_cons, <-app_assoc in Ht.
    apply bytes_at_app in Ht as [Hc Ht]. rewrite escaped_cons, length_app in He. pose proof (escape1_pos c).
    subst n. rewrite length_app in Hr |- *. cbn [length] in Hr, Hf |- *.
    assert (Hch : changed m (<[s + Z.of_nat (length l1) := u8 c]> m) s
              (Z.of_nat (length l1 + S (length l2)) + 1)) by (apply changed_insert; lia).
    edestruct (IH fuel (<[s + Z.of_nat (length l1) := u8 c]> m) (i + Z.of_nat (length (escape1 c))) (l1 ++ [c]))
      as (m' & E & Hw & Hch2).
    + replace (t + (i + Z.of_nat (length (escape1 c)))) with (t + i + Z.of_nat (length (escape1 c))) by lia.
      apply bytes_at_insert; [exact Ht|]. rewrite length_app. cbn [length]. lia.
    + done.
    + by apply bytes_at_snoc.
    + lia.
    + rewrite !length_app. cbn [length]. apply room_insert. eapply room_sub; [exact Hr|lia|lia].
    + rewrite length_app. cbn [length]. lia.
    + lia.
    + exists m'. rewrite !length_app in E, Hch2. cbn [length] in E, Hch2. split; [|split].
      * erewrite loop_inl; [|apply unescape_one; [done|done|apply Hr; lia]].
        replace (Z.of_nat (length l1) + 1) with (Z.of_nat (length l1 + 1)) by lia. rewrite E.
        rewrite !length_app. cbn [length]. do 3 f_equal. lia.
      * by rewrite <-app_assoc in Hw.
      * eapply changed_trans; [exact Hch|].
        by replace (length l1 + S (length l2))%nat with (length l1 + 1 + length l2)%nat by lia.
Qed.

(** C33: escape sequences round-trip. [lp_escape] writes the escaped text of a
    string into a buffer with room for it, and [lp_unescape] turns that text
    back into the string and returns its length in 16 bits: also in place, as
    the scanner calls it, or into any buffer below the text or behind it. *)
Theorem escape_roundtrip fuel m t b d l :
  cstr_at m t l → (length l < fuel)%nat →
  let n := Z.of_nat (length (escaped l)) + 1 in
  room m b n → b + n ≤ t ∨ t + Z.of_nat (length l) + 1 ≤ b →
  room m d (Z.of_nat (length l) + 1) → d ≤ b ∨ b + n ≤ d →
  ∃ m1 m2, lp_escape fuel b t m = Ret m1 ∧ bytes_at m1 b (escaped l ++ [0]) ∧
    lp_unescape fuel d b m1 = Ret (m2, u16 (Z.of_nat (length l))) ∧ cstr_at m2 d l ∧
    changed m1 m2 d (Z.of_nat (length l) + 1).
Proof.
  intros [Ht Hok] Hf n Hb Hbt Hd Hdb.
  destruct (escape_walk b t l fuel m [] Ht Hok (bytes_at_nil _ _) Hb Hbt Hf) as (m1 & E1 & H1 & Hc1).
  edestruct (unescape_walk d b (b + n) l fuel m1 0 []) as (m2 & E2 & H2 & Hc2).
  - rewrite Z.add_0_r. exact H1.
  - done.
  - apply bytes_at_nil.
  - lia.
  - eapply changed_room; [exact Hc1|exact Hd].
  - cbn. lia.
  - done.
  - exists m1, m2. split; [exact E1|]. split; [exact H1|]. split; [exact E2|]. split; [|exact Hc2]. by split.
Qed.

(** A line with a quote, a backslash and a newline, unescaped in place. *)
Definition sample_string : list Z := [97; 34; 92; 98; 10].

Lemma escape_roundtrip_witness :
  let m := alloc 100 6 sample_string (alloc 200 20 [] ∅) in
  ∃ m1 m2, lp_escape 10 200 100 m = Ret m1 ∧ bytes_at m1 200 (escaped sample_string ++ [0]) ∧
    lp_unescape 10 200 200 m1 = Ret (m2, u16 (Z.of_nat (length sample_string))) ∧
    cstr_at m2 200 sample_string ∧ changed m1 m2 200 (Z.of_nat (length sample_string) + 1).
Proof.
  cbv zeta. apply escape_roundtrip.
  - split; [by apply (alloc_bytes 100 6 (sample_string ++ [0]))|].
    unfold sample_string, is_byte. repeat (apply Forall_cons; split; [lia|]). by apply Forall_nil.
  - cbn. lia.
  - intros i Hi. rewrite lookup_alloc. case_decide; [eauto|]. apply alloc_room. cbn in *. lia.
  - cbn. lia.
  - intros i Hi. rewrite lookup_alloc. case_decide; [eauto|]. apply alloc_room. cbn in *. lia.
  - lia.
Defined.

(** ** Hexadecimal numbers, their value *)
Definition hex_value (l : list Z) : Z := foldl (λ v c, v * 16 + lp_getdec c) 0 l.

Lemma lp_getdec_range c : 0 ≤ lp_getdec c < 16.
Proof. unfold lp_getdec. repeat case_match; try lia. Qed.

Lemma hex_value_ge l v : 0 ≤ v → v ≤ foldl (λ v c, v * 16 + lp_getdec c) v l.
Proof.
  revert v. induction l as [|c l IH]; intros v Hv; cbn; [lia|].
  pose proof (lp_getdec_range c). specialize (IH (v * 16 + lp_getdec c) ltac:(lia)). lia.
Qed.

Lemma int32_in z : - 2 ^ 31 ≤ z < 2 ^ 31 → int32 z = Ret z.
Proof. intros H. unfold int32. by rewrite (proj2 (Z.leb_le _ _)), (proj2 (Z.ltb_lt _ _)) by lia. Qed.

Lemma int32_out z : 2 ^ 31 ≤ z → int32 z = Undef.
Proof. intros H. unfold int32. rewrite (proj2 (Z.ltb_ge _ _)) by lia. by rewrite andb_false_r. Qed.

Lemma hex2integer_walk l v :
  0 ≤ v < 2 ^ 31 →
  hex2integer_loop l v =
    (let n := foldl (λ v c, v * 16 + lp_getdec c) v l in if n <? 2 ^ 31 then Ret n else Undef).
Proof.
  revert v. induction l as [|c l IH]; intros v Hv; cbn [hex2integer_loop foldl]; cbv zeta.
  - rewrite (proj2 (Z.ltb_lt _ _)) by lia. rewrite u64_id by lia. done.
  - pose proof (lp_getdec_range c). pose proof (hex_value_ge l (v * 16 + lp_getdec c) ltac:(lia)).
    destruct (Z.ltb_spec (v * 16) (2 ^ 31)) as [H1|H1].
    + rewrite int32_in by lia. res_cbn. destruct (Z.ltb_spec (v * 16 + lp_getdec c) (2 ^ 31)) as [H2|H2].
      * rewrite int32_in by lia. res_cbn. apply IH. lia.
      * rewrite int32_out by lia. by rewrite (proj2 (Z.ltb_ge _ _)) by lia.
    + rewrite int32_out by lia. by rewrite (proj2 (Z.ltb_ge _ _)) by lia.
Qed.

(** A hexadecimal literal is read as the number it denotes when that is below
    2 ^ 31; from there on the [int] that accumulates it overflows. *)
Theorem hex2integer_spec strin l :
  c_string strin = Some l →
  lp_hex2integer strin = if hex_value l <? 2 ^ 31 then Ret (hex_value l) else Undef.
Proof. intros H. unfold lp_hex2integer. rewrite H. apply hex2integer_walk. lia. Qed.
