(* ===== verification/Preproc.v ===== *)
(** * Preprocessor constants and conditions (StackLib/Stack/lex_proto.c)

    [#define] keeps its constants in a linked list (Links.v); [#if] pushes the
    constants and the operators of its line on two stacks and evaluates them
    at the end of the line. Opening an included file calls [fopen], which is a
    parameter. *)
From S2P Require Import Prelude Links.

Definition LEX_STATE_NONE : Z := 0.
Definition LEX_STATE_INCLUDE : Z := 3.
Definition LEX_STATE_PRAGMA : Z := 5.
Definition LEX_STATE_DEFINE : Z := 7.
Definition LEX_STATE_DEFINE_CONST : Z := 9.
Definition LEX_STATE_IF : Z := 13.
Definition LEX_STATE_ELSE : Z := 15.
Definition LEX_STATE_ENDIF : Z := 16.
Definition LEX_STATE_IFDEF : Z := 17.
Definition LEX_STATE_INVALID : Z := 255.

Definition LEX_OP_NEG : Z := 0x80.
Definition LEX_OP_EQ : Z := 0x50.
Definition LEX_OP_GT : Z := 0x60.
Definition LEX_OP_LT : Z := 0x40.
Definition LEX_OP_GTEQ : Z := 0x66.
Definition LEX_OP_LTEQ : Z := 0x44.
Definition LEX_OP_OR : Z := 0xAA.
Definition LEX_OP_AND : Z := 0xDD.

(** [pp_const]: [name] without its terminator, [value] the bytes written so
    far (zeros follow, up to 4096). *)
Record pp_const := mkPP { p_next : option Z; p_name : list Z; p_length : Z; p_value : list Z }.

#[export] Instance pp_node : Node pp_const := {
  nx := p_next;
  set_nx q c := mkPP q (p_name c) (p_length c) (p_value c);
  nx_set_nx _ _ := eq_refl;
}.

Definition NAME_SIZE : Z := 256.
Definition VALUE_SIZE : Z := 4096.
Definition STACK_SIZE : nat := 20.

(** [pp_config], as far as [sp_open] sets it *)
Record pp_config := mkConf { filename : list Z; file : option Z; line : Z; mode : Z }.

(** The globals of lex_proto.c; a stack is a list, its top first. *)
Record pp := mkPre {
  pphead : option Z; consts : store pp_const;
  conf_stack : list pp_config; config : pp_config;
  opc_stack : list Z; opr_stack : list (option Z);
  lex_state : Z; const_name : list Z }.

Definition set_consts (h : option Z) (c : store pp_const) (s : pp) : pp :=
  mkPre h c (conf_stack s) (config s) (opc_stack s) (opr_stack s) (lex_state s) (const_name s).
Definition set_state (z : Z) (s : pp) : pp :=
  mkPre (pphead s) (consts s) (conf_stack s) (config s) (opc_stack s) (opr_stack s) z (const_name s).
Definition set_stacks (c : list Z) (r : list (option Z)) (s : pp) : pp :=
  mkPre (pphead s) (consts s) (conf_stack s) (config s) c r (lex_state s) (const_name s).
Definition set_const_name (n : list Z) (s : pp) : pp :=
  mkPre (pphead s) (consts s) (conf_stack s) (config s) (opc_stack s) (opr_stack s) (lex_state s) n.
Definition set_config (cs : list pp_config) (c : pp_config) (s : pp) : pp :=
  mkPre (pphead s) (consts s) cs c (opc_stack s) (opr_stack s) (lex_state s) (const_name s).

(** ** The table of constants *)
Definition lp_get_prev_record (fuel : nat) (rel : option Z) (s : pp) : res (option Z) :=
  match pphead s with
  | None => Ret None
  | Some h => a ← loop fuel (prev_step (consts s) rel) (Some h); Ret (Some a)
  end.

Definition lp_add_record (fuel : nat) (newrec : Z) (s : pp) : res pp :=
  prevrec ← lp_get_prev_record fuel None s;
  match prevrec with
  | None => Ret (set_consts (Some newrec) (consts s) s)
  | Some p => c ← upd p (set_nx (Some newrec)) (consts s); Ret (set_consts (pphead s) c s)
  end.

Definition lp_select_step (s : store pp_const) (nm : list Z) (iterator : option Z)
    : res (option Z + option Z) :=
  match iterator with
  | None => Ret (inr None)
  | Some a =>
      c ← deref s a;
      Ret (if decide (nm = p_name c) then inr (Some a) else inl (p_next c))
  end.

Definition lp_select (fuel : nat) (cstr : list Z) (s : pp) : res (option Z) :=
  match pphead s with
  | None => Ret None
  | Some h =>
      nm ← from_option_ub (c_string cstr);
      loop fuel (lp_select_step (consts s) nm) (Some h)
  end.

(** [memcpy(rec->value, value, length)] over the bytes there *)
Definition put_value (value : list Z) (length_ : Z) (old : list Z) : res (list Z) :=
  guardb ((length_ <=? Z.of_nat (length value)) && (length_ <=? VALUE_SIZE)) ≫= λ _,
  Ret (take (Z.to_nat length_) value ++ drop (Z.to_nat length_) old).

Definition lp_insert (fuel : nat) (cstr value : list Z) (length_ : Z) (s : pp) : res (pp * Z) :=
  nm ← from_option_ub (c_string cstr);
  guardb (Z.of_nat (length nm) + 1 <=? NAME_SIZE) ≫= λ _,
  v ← put_value value length_ [];
  let m := malloc (mkPP None nm length_ v) (consts s) in
  s' ← lp_add_record fuel m.1 (set_consts (pphead s) m.2 s);
  Ret (s', m.1).

Definition lp_update (fuel : nat) (cstr value : list Z) (length_ : Z) (s : pp) : res (pp * Z) :=
  rec ← lp_select fuel cstr s;
  match rec with
  | Some a =>
      c ← deref (consts s) a;
      v ← put_value value length_ (p_value c);
      cs ← upd a (λ c, mkPP (p_next c) (p_name c) length_ v) (consts s);
      Ret (set_consts (pphead s) cs s, a)
  | None => lp_insert fuel cstr value length_ s
  end.

Definition lp_delete (fuel : nat) (cstr : list Z) (s : pp) : res pp :=
  candidate ← lp_select fuel cstr s;
  match candidate with
  | None => Ret s
  | Some a =>
      prevrec ← lp_get_prev_record fuel (Some a) s;
      c ← deref (consts s) a;
      s1 ← match prevrec with
           | None => Ret (set_consts (p_next c) (consts s) s)
           | Some p => cs ← upd p (set_nx (p_next c)) (consts s); Ret (set_consts (pphead s) cs s)
           end;
      cs ← free a (consts s1);
      Ret (set_consts (pphead s1) cs s1)
  end.

Definition lp_clear_globals (fuel : nat) (s : pp) : res pp :=
  match pphead s with
  | None => Ret s
  | Some h => cs ← loop fuel free_step (Some h, consts s); Ret (set_consts None cs s)
  end.

(** ** The stacks of a condition *)
Definition lp_push_opcode (opcode : Z) (s : pp) : res pp :=
  guardb (length (opc_stack s) <? STACK_SIZE)%nat ≫= λ _,
  Ret (set_stacks (opcode :: opc_stack s) (opr_stack s) s).

Definition lp_push_operand (operand : option Z) (s : pp) : res pp :=
  guardb (length (opr_stack s) <? STACK_SIZE)%nat ≫= λ _,
  Ret (set_stacks (opc_stack s) (operand :: opr_stack s) s).

(** the empty stacks give 0 and NULL *)
Definition lp_pop_opcode (opcs : list Z) : Z * list Z :=
  match opcs with [] => (0, []) | o :: l => (o, l) end.

Definition lp_pop_operand (oprs : list (option Z)) : option Z * list (option Z) :=
  match oprs with [] => (None, []) | o :: l => (o, l) end.

(** [atoi]: white space, a sign, digits; a number that is no [int] is
    undefined. *)
Fixpoint atoi_digits (v : Z) (l : list Z) : Z :=
  match l with
  | c :: l' => if (48 <=? c) && (c <=? 57) then atoi_digits (v * 10 + (c - 48)) l' else v
  | [] => v
  end.

Fixpoint atoi_skip (l : list Z) : list Z :=
  match l with
  | c :: l' => if (c =? 32) || ((9 <=? c) && (c <=? 13)) then atoi_skip l' else l
  | [] => []
  end.

Definition atoi (l : list Z) : res Z :=
  let n := match atoi_skip l with
           | c :: l' => if c =? 45 then - atoi_digits 0 l' else if c =? 43 then atoi_digits 0 l' else atoi_digits 0 (c :: l')
           | [] => 0
           end in
  guardb ((- 2 ^ 31 <=? n) && (n <? 2 ^ 31)) ≫= λ _, Ret n.

(** [atoi(op->value)] as a [uint32]: zeros follow the bytes written *)
Definition const_value (s : pp) (a : Z) : res Z :=
  c ← deref (consts s) a;
  t ← from_option_ub (c_string (p_value c ++ [0]));
  n ← atoi t;
  Ret (u64 n).

Definition of_bool (b : bool) : Z := if b then 1 else 0.

(** the [switch] of [lp_flush_token], but for [LEX_OP_NEG] *)
Definition apply_op (opc i j : Z) : Z :=
  if opc =? LEX_OP_EQ then of_bool (i =? j)
  else if opc =? LEX_OP_GT then of_bool (j <? i)
  else if opc =? LEX_OP_LT then of_bool (i <? j)
  else if opc =? LEX_OP_GTEQ then of_bool (j <=? i)
  else if opc =? LEX_OP_LTEQ then of_bool (i <=? j)
  else if opc =? LEX_OP_OR then of_bool (negb (i =? 0) || negb (j =? 0))
  else if opc =? LEX_OP_AND then of_bool (negb (i =? 0) && negb (j =? 0))
  else i.

(** from [pop_opcode_again] on: the new [i] and the opcodes left *)
Fixpoint pop_opcode_again (i j : Z) (opcs : list Z) : Z * list Z :=
  match opcs with
  | [] => (i, [])
  | opc :: l => if opc =? LEX_OP_NEG then pop_opcode_again i (of_bool (j =? 0)) l else (apply_op opc i j, l)
  end.

(** [while((op2 = lp_pop_operand()) != NULL)] *)
Fixpoint flush_operands (s : pp) (i : Z) (oprs : list (option Z)) (opcs : list Z)
    : res (Z * list (option Z) * list Z) :=
  match oprs with
  | [] => Ret (i, [], opcs)
  | None :: l => Ret (i, l, opcs)
  | Some b :: l =>
      j ← const_value s b;
      let r := pop_opcode_again i j opcs in
      flush_operands s r.1 l r.2
  end.

Definition lp_flush_token (s : pp) : res pp :=
  let '(op1, oprs) := lp_pop_operand (opr_stack s) in
  let s1 := set_stacks (opc_stack s) oprs s in
  if negb (lex_state s =? LEX_STATE_IF) then Ret s1
  else
    match op1 with
    | None => Ret (set_state LEX_STATE_INVALID s1)
    | Some a =>
        i ← const_value s a;
        r ← flush_operands s i oprs (opc_stack s);
        let '(i, oprs, opcs) := r in
        let '(opc, opcs) := lp_pop_opcode opcs in
        let i := if opc =? LEX_OP_NEG then of_bool (i =? 0) else i in
        let s2 := set_stacks opcs oprs s in
        Ret (if i =? 0 then set_state LEX_STATE_INVALID s2 else s2)
    end.

Definition lp_preprocessor_state (state : Z) (s : pp) : pp :=
  if state =? LEX_STATE_ELSE then
    set_state (if lex_state s =? LEX_STATE_INVALID then LEX_STATE_NONE else LEX_STATE_INVALID) s
  else if state =? LEX_STATE_ENDIF then set_state LEX_STATE_NONE s
  else if negb (state =? LEX_STATE_INVALID) then set_state state s else s.

Section files.
Context (fopen : list Z → option Z).

Definition sp_open (cstr : list Z) : res pp_config :=
  nm ← from_option_ub (c_string cstr);
  guardb (Z.of_nat (length nm) + 1 <=? NAME_SIZE) ≫= λ _,
  Ret (mkConf nm (fopen nm) 0 0).

Definition lp_push_config (c : pp_config) (s : pp) : res pp :=
  guardb (length (conf_stack s) <? STACK_SIZE)%nat ≫= λ _,
  Ret (set_config (c :: conf_stack s) (config s) s).

Definition lp_process_token (fuel : nat) (token : list Z) (length_ : Z) (s : pp) : res pp :=
  let st := lex_state s in
  if st =? LEX_STATE_INCLUDE then
    s1 ← lp_push_config (config s) s;
    c ← sp_open token;
    Ret (set_state LEX_STATE_NONE (set_config (conf_stack s1) c s1))
  else if st =? LEX_STATE_DEFINE then
    nm ← from_option_ub (c_string token);
    guardb (Z.of_nat (length nm) + 1 <=? NAME_SIZE) ≫= λ _,
    r ← lp_update fuel (nm ++ [0]) [0] 0 (set_const_name (nm ++ [0]) s);
    Ret (set_state LEX_STATE_DEFINE_CONST r.1)
  else if st =? LEX_STATE_DEFINE_CONST then
    r ← lp_update fuel (const_name s) token length_ s;
    Ret (set_state LEX_STATE_NONE r.1)
  else if st =? LEX_STATE_IFDEF then
    r ← lp_select fuel token s;
    Ret (match r with None => set_state LEX_STATE_INVALID s | Some _ => s end)
  else if st =? LEX_STATE_IF then
    pvar ← lp_select fuel token s;
    lp_push_operand pvar s
  else Ret s.
End files.

(** ** The table as a finite map

    [models s M]: the constants of [s] are those of [M], each name with the
    length and the bytes of its value. *)
Definition entry (x : Z * pp_const) : list Z * (Z * list Z) := (p_name x.2, (p_length x.2, p_value x.2)).

Definition models (s : pp) (M : gmap (list Z) (Z * list Z)) : Prop :=
  ∃ l, lseg (consts s) (pphead s) l None ∧ store_ok (consts s) ∧
    NoDup (entry <$> l).*1 ∧ M = list_to_map (entry <$> l).

Lemma models_size s M : models s M → ∃ l, lseg (consts s) (pphead s) l None ∧ length l = size M.
Proof.
  intros (l & Hl & _ & Hnd & ->). exists l. split; [done|].
  rewrite map_size_list_to_map by done. by rewrite length_fmap.
Qed.

Lemma select_walk s h l nm fuel :
  lseg s h l None → (length l < fuel)%nat →
  loop fuel (lp_select_step s nm) h = Ret (option_map fst (find (λ x, bool_decide (nm = p_name x.2)) l)).
Proof.
  intros Hc. revert fuel. remember None as q eqn:Hq. revert Hq.
  induction Hc as [p|a r l q Ha Hl IH]; intros -> [|fuel] Hf; try (cbn in Hf; lia).
  - by apply loop_inr.
  - cbn [find]. cbn [snd]. assert (Hs : lp_select_step s nm (Some a) =
      Ret (if decide (nm = p_name r) then inr (Some a) else inl (p_next r))).
    { unfold lp_select_step. by rewrite (deref_some _ _ _ Ha). }
    case_decide as Hn; [rewrite bool_decide_true by done|rewrite bool_decide_false by done].
    + by apply loop_inr.
    + erewrite loop_inl by exact Hs. apply IH; [done|cbn in Hf; lia].
Qed.

Lemma find_entry nm l :
  match find (λ x, bool_decide (nm = p_name x.2)) l with
  | Some x => ∃ l1 l2, l = l1 ++ x :: l2 ∧ p_name x.2 = nm
  | None => nm ∉ (entry <$> l).*1
  end.
Proof.
  induction l as [|y l IH]; cbn; [by intros ?%elem_of_nil|].
  case_bool_decide as Hn; [by exists [], l|].
  destruct (find _ l) as [x|].
  - destruct IH as (l1 & l2 & -> & Hx). by exists (y :: l1), l2.
  - intros [?|?]%elem_of_cons; done.
Qed.

Lemma select_ok fuel cstr nm s l :
  lseg (consts s) (pphead s) l None → (length l < fuel)%nat → c_string cstr = Some nm →
  lp_select fuel cstr s = Ret (option_map fst (find (λ x, bool_decide (nm = p_name x.2)) l)).
Proof.
  intros Hl Hf Hc. unfold lp_select. destruct (pphead s) as [h|] eqn:Eh.
  - rewrite Hc. res_cbn. by apply select_walk.
  - by inversion Hl.
Qed.

Lemma put_value_ok value len old :
  0 ≤ len ≤ Z.of_nat (length value) → len ≤ VALUE_SIZE →
  put_value value len old = Ret (take (Z.to_nat len) value ++ drop (Z.to_nat len) old).
Proof.
  intros H1 H2. unfold put_value. by rewrite (proj2 (Z.leb_le _ _)), (proj2 (Z.leb_le _ _)) by lia.
Qed.

Lemma entry_split l1 x l2 nm v :
  NoDup (entry <$> l1 ++ x :: l2).*1 → (entry x).1 = nm →
  <[nm := v]> (list_to_map (entry <$> l1 ++ x :: l2) : gmap (list Z) (Z * list Z)) =
    list_to_map ((entry <$> l1) ++ (nm, v) :: (entry <$> l2)) ∧
  NoDup ((entry <$> l1) ++ (nm, v) :: (entry <$> l2)).*1 ∧
  (list_to_map (entry <$> l1 ++ x :: l2) : gmap (list Z) (Z * list Z)) !! nm = Some (entry x).2.
Proof.
  intros Hnd Hx. rewrite fmap_app, fmap_cons in Hnd |- *.
  destruct (entry x) as [n w] eqn:E. cbn in Hx. subst n. cbn [snd].
  assert (Hnd' : NoDup ((entry <$> l1) ++ (nm, v) :: (entry <$> l2)).*1).
  { rewrite fmap_app, fmap_cons in Hnd |- *. exact Hnd. }
  assert (Hin : nm ∉ (entry <$> l1).*1).
  { rewrite fmap_app in Hnd. apply NoDup_app in Hnd as (_ & Hd & _). intros Hin. apply (Hd nm Hin). cbn. set_solver. }
  split; [|split; [done|]].
  - apply map_eq. intros k. destruct (decide (k = nm)) as [->|Hk].
    + rewrite lookup_insert_eq. symmetry. apply elem_of_list_to_map_1; [done|]. set_solver.
    + rewrite lookup_insert_ne by done. rewrite !list_to_map_app, !lookup_union. f_equal. cbn.
      by rewrite !lookup_insert_ne by done.
  - apply elem_of_list_to_map_1; [done|]. set_solver.
Qed.

Lemma add_record_models fuel s M a c :
  models s M → cells (consts s) !! a = Some c → p_next c = None → M !! p_name c = None →
  (∀ l, lseg (consts s) (pphead s) l None → a ∉ l.*1) → (size M < fuel)%nat →
  ∃ s', lp_add_record fuel a s = Ret s' ∧ models s' (<[p_name c := (p_length c, p_value c)]> M) ∧
    set_consts (pphead s') (consts s') s = s'.
Proof.
  intros (l & Hl & Hok & Hnd & ->) Ha Hc Hno Hfresh Hf. specialize (Hfresh _ Hl).
  rewrite map_size_list_to_map, length_fmap in Hf by done. apply not_elem_of_list_to_map_2 in Hno.
  assert (Hnd' : NoDup (entry <$> l ++ [(a, c)]).*1).
  { rewrite !fmap_app. apply NoDup_app. split; [done|]. split; [|cbn; apply NoDup_singleton].
    intros x Hx. cbn. rewrite list_elem_of_singleton. by intros ->. }
  assert (HM : <[p_name c := (p_length c, p_value c)]> (list_to_map (entry <$> l)) =
                 (list_to_map (entry <$> l ++ [(a, c)]) : gmap (list Z) (Z * list Z))).
  { rewrite fmap_app. symmetry. apply (list_to_map_snoc (M := gmap (list Z)) (entry <$> l) (p_name c) (p_length c, p_value c)). done. }
  unfold lp_add_record, lp_get_prev_record.
  destruct l as [|[b rb] l _] using rev_ind.
  - pose proof (lseg_nil_inv _ _ _ Hl) as E. rewrite E. res_cbn. eexists. split; [done|]. split; [|done].
    exists [(a, c)]. split; [|done]. cbn. constructor; [done|]. cbn. rewrite Hc. constructor.
  - rewrite length_app in Hf. cbn in Hf. pose proof (prev_last _ _ _ _ _ fuel Hl ltac:(lia)) as Hp.
    destruct (pphead s) as [h|] eqn:Eh; [|destruct l as [|[]]; inversion Hl].
    rewrite Hp. res_cbn. pose proof (lseg_lookup _ _ _ _ b rb Hl ltac:(set_solver)) as Hb.
    rewrite (upd_some _ _ _ _ Hb). res_cbn. eexists. split; [done|]. split; [|done].
    exists (l ++ [(b, set_nx (Some a) rb); (a, c)]). cbn [consts pphead set_consts]. split; [|split; [|split]].
    + apply lseg_snoc; [done|done|done|]. by rewrite fmap_app in Hfresh |- *.
    + by apply store_ok_upd with (n := rb).
    + rewrite <-app_assoc, fmap_app in Hnd'. by rewrite fmap_app.
    + rewrite HM, <-app_assoc, !fmap_app. done.
Qed.

(** The bytes of a value after [length] bytes of [value] were copied over it. *)
Definition overwrite (value : list Z) (len : Z) (old : option (Z * list Z)) : Z * list Z :=
  (len, take (Z.to_nat len) value ++ drop (Z.to_nat len) (default [] (snd <$> old))).

Lemma update_ok fuel cstr nm value len s M :
  models s M → (size M < fuel)%nat → c_string cstr = Some nm → Z.of_nat (length nm) < 256 →
  0 ≤ len ≤ Z.of_nat (length value) → len ≤ VALUE_SIZE →
  ∃ s' a, lp_update fuel cstr value len s = Ret (s', a) ∧
    models s' (<[nm := overwrite value len (M !! nm)]> M) ∧ set_consts (pphead s') (consts s') s = s'.
Proof.
  intros Hm Hf Hc Hn H1 H2. pose proof Hm as (l & Hl & Hok & Hnd & HM).
  assert (Hfl : (length l < fuel)%nat).
  { rewrite HM, map_size_list_to_map, length_fmap in Hf by done. done. }
  unfold lp_update. rewrite (select_ok _ _ _ _ _ Hl Hfl Hc). res_cbn.
  pose proof (find_entry nm l) as Hfe. destruct (find _ l) as [[a c]|]; cbn [option_map fst].
  - destruct Hfe as (l1 & l2 & -> & Hcn). cbn in Hcn.
    pose proof (lseg_lookup _ _ _ _ a c Hl ltac:(set_solver)) as Ha.
    rewrite (deref_some _ _ _ Ha). res_cbn. rewrite put_value_ok by done. res_cbn.
    rewrite (upd_some _ _ _ _ Ha). res_cbn. eexists _, a. split; [done|]. split; [|done].
    destruct (entry_split l1 (a, c) l2 nm (overwrite value len (Some (p_length c, p_value c))) Hnd Hcn) as (E1 & E2 & E3).
    cbn [snd entry] in E3. rewrite HM, E3. cbn [snd entry].
    exists (l1 ++ (a, mkPP (p_next c) (p_name c) len (overwrite value len (Some (p_length c, p_value c))).2) :: l2).
    cbn [consts pphead set_consts]. pose proof (lseg_nodup _ _ _ Hl) as Hna. rewrite fmap_app in Hna. cbn in Hna.
    apply NoDup_app in Hna as (_ & Hd & Hna). apply NoDup_cons in Hna as [Hna _].
    assert (E : entry <$> l1 ++ (a, mkPP (p_next c) (p_name c) len (overwrite value len (Some (p_length c, p_value c))).2) :: l2 =
                (entry <$> l1) ++ (nm, overwrite value len (Some (p_length c, p_value c))) :: (entry <$> l2)).
    { rewrite fmap_app, fmap_cons. f_equal. f_equal. unfold entry. cbn. by rewrite Hcn. }
    rewrite E. split; [|split; [|by split]].
    2:{ apply (store_ok_upd (consts s) a c (λ _, mkPP (p_next c) (p_name c) len (overwrite value len (Some (p_length c, p_value c))).2) Hok Ha). }
    pose proof (lseg_update (consts s) (pphead s) l1 a c l2 None
      (λ _, mkPP (p_next c) (p_name c) len (overwrite value len (Some (p_length c, p_value c))).2)) as Hu.
    apply Hu; [done|done| |done]. intros Hin. apply (Hd a Hin). set_solver.
  - unfold lp_insert. rewrite Hc. res_cbn. rewrite (proj2 (Z.leb_le _ _)) by (unfold NAME_SIZE; lia). res_cbn.
    rewrite put_value_ok by done. res_cbn. rewrite drop_nil, app_nil_r.
    assert (HMn : M !! nm = None) by (rewrite HM; by apply not_elem_of_list_to_map_1).
    set (c := mkPP None nm len (take (Z.to_nat len) value)).
    destruct (add_record_models fuel (set_consts (pphead s) (malloc c (consts s)).2 s) M (malloc c (consts s)).1 c)
      as (s' & E & Hm' & Hs').
    + exists l. split; [by apply lseg_malloc|]. split; [by apply store_ok_malloc|done].
    + cbn. by rewrite lookup_insert_eq.
    + done.
    + done.
    + intros l' Hl'. cbn [pphead consts set_consts] in Hl'.
      pose proof (lseg_det _ _ _ _ Hl' (lseg_malloc _ _ _ _ c Hok Hl)) as ->. by eapply lseg_fresh.
    + done.
    + rewrite E. res_cbn. eexists s', _. split; [done|]. split; [|by rewrite <-Hs'].
      unfold overwrite. rewrite HMn. cbn [fmap option_fmap option_map default]. rewrite drop_nil, app_nil_r. exact Hm'.
Qed.

(** C35: the preprocessor's constants are a finite map. [lp_select] finds a
    constant exactly when the map has one of that name, and the record it
    returns has the map's value; [lp_update] with a value of at most 4096 bytes
    changes that name and no other, but only the bytes it copies: what a longer
    old value had behind them stays; [lp_clear_globals] empties the map. *)
Theorem constants_map fuel cstr nm value len s M :
  models s M → (size M < fuel)%nat → c_string cstr = Some nm → Z.of_nat (length nm) < 256 →
  0 ≤ len ≤ Z.of_nat (length value) → len ≤ VALUE_SIZE →
  (∃ r, lp_select fuel cstr s = Ret r ∧
     match r, M !! nm with
     | Some a, Some v => ∃ c, cells (consts s) !! a = Some c ∧ p_name c = nm ∧ (p_length c, p_value c) = v
     | None, None => True
     | _, _ => False
     end) ∧
  (∃ s' a, lp_update fuel cstr value len s = Ret (s', a) ∧
     models s' (<[nm := overwrite value len (M !! nm)]> M)) ∧
  (∃ s', lp_clear_globals fuel s = Ret s' ∧ models s' ∅).
Proof.
  intros Hm Hf Hc Hn H1 H2. split; [|split].
  - destruct Hm as (l & Hl & Hok & Hnd & ->). rewrite map_size_list_to_map, length_fmap in Hf by done.
    rewrite (select_ok _ _ _ _ _ Hl Hf Hc). eexists. split; [done|].
    pose proof (find_entry nm l) as Hfe. destruct (find _ l) as [[a c]|]; cbn [option_map fst].
    + destruct Hfe as (l1 & l2 & -> & Hcn). cbn in Hcn.
      destruct (entry_split l1 (a, c) l2 nm (0, []) Hnd Hcn) as (_ & _ & ->). cbn [snd entry].
      exists c. split; [|done]. eapply lseg_lookup; [exact Hl|set_solver].
    + by rewrite not_elem_of_list_to_map_1.
  - destruct (update_ok _ _ _ _ _ _ _ Hm Hf Hc Hn H1 H2) as (s' & a & E & Hm' & _). by exists s', a.
  - destruct Hm as (l & Hl & Hok & Hnd & ->). rewrite map_size_list_to_map, length_fmap in Hf by done.
    unfold lp_clear_globals. destruct (pphead s) as [h|] eqn:Eh.
    + rewrite (free_chain _ _ _ _ Hl Hf). res_cbn. eexists. split; [done|].
      exists []. split; [constructor|]. split; [|split; [constructor|done]].
      intros b [x Hb]. cbn in Hb. rewrite foldl_delete_lookup in Hb. case_decide; [done|]. apply Hok. eauto.
    + inversion Hl; subst. exists s. split; [done|]. exists []. rewrite Eh. split; [constructor|]. by split.
Qed.

(** [#define X 123] on a fresh table. *)
Definition empty_pp : pp := mkPre None (mkStore ∅ 1) [] (mkConf [] None 0 0) [] [] LEX_STATE_NONE [].

Lemma empty_models : models empty_pp ∅.
Proof. exists []. split; [constructor|]. split; [apply store_ok_empty|]. split; [constructor|done]. Qed.

Lemma constants_map_witness :
  (∃ r, lp_select 3 [88; 0] empty_pp = Ret r ∧
     match r, (∅ : gmap (list Z) (Z * list Z)) !! [88] with
     | Some a, Some v => ∃ c, cells (consts empty_pp) !! a = Some c ∧ p_name c = [88] ∧ (p_length c, p_value c) = v
     | None, None => True
     | _, _ => False
     end) ∧
  (∃ s' a, lp_update 3 [88; 0] [49; 50; 51; 0] 3 empty_pp = Ret (s', a) ∧
     models s' (<[ [88] := overwrite [49; 50; 51; 0] 3 ((∅ : gmap (list Z) (Z * list Z)) !! [88])]> ∅)) ∧
  (∃ s', lp_clear_globals 3 empty_pp = Ret s' ∧ models s' ∅).
Proof. apply constants_map; [exact empty_models|rewrite map_size_empty; lia|done|cbn; lia|cbn; lia|unfold VALUE_SIZE; lia]. Defined.

(** [#define X 123] and then [#define X 4]: the value evaluated in conditions
    is 423. *)
Example redefined_constant_keeps_tail :
  (r ← lp_update 3 [88; 0] [49; 50; 51; 0] 3 empty_pp;
   r' ← lp_update 3 [88; 0] [52; 0] 1 r.1;
   const_value r'.1 r'.2) = Ret 423.
Proof. by vm_compute. Qed.

(** ** Conditions *)

(** What the operator of a condition says of its two sides. *)
Definition op_holds (op x y : Z) : option bool :=
  if op =? LEX_OP_EQ then Some (x =? y)
  else if op =? LEX_OP_GT then Some (y <? x)
  else if op =? LEX_OP_LT then Some (x <? y)
  else if op =? LEX_OP_GTEQ then Some (y <=? x)
  else if op =? LEX_OP_LTEQ then Some (x <=? y)
  else if op =? LEX_OP_OR then Some (negb (x =? 0) || negb (y =? 0))
  else if op =? LEX_OP_AND then Some (negb (x =? 0) && negb (y =? 0))
  else None.

(** The number that the bytes of a value stand for. *)
Definition value_number (v : list Z) : res Z :=
  t ← from_option_ub (c_string (v ++ [0])); n ← atoi t; Ret (u64 n).

(** What the scanner does for the line [#if a op b]. *)
Definition if_line (fopen : list Z → option Z) (fuel : nat) (a : list Z) (op : Z) (b : list Z) (s : pp) : res pp :=
  s1 ← lp_process_token fopen fuel (a ++ [0]) (Z.of_nat (length a)) (lp_preprocessor_state LEX_STATE_IF s);
  s2 ← lp_push_opcode op s1;
  s3 ← lp_process_token fopen fuel (b ++ [0]) (Z.of_nat (length b)) s2;
  lp_flush_token s3.

Lemma op_holds_apply op x y b :
  op_holds op x y = Some b → op ≠ LEX_OP_NEG ∧ apply_op op x y = of_bool b.
Proof.
  intros H. split; [by intros ->|]. unfold op_holds, apply_op in *. repeat case_match; by simplify_eq.
Qed.

Lemma token_pushes fopen fuel nm len v M s :
  models s M → (size M < fuel)%nat → c_string (nm ++ [0]) = Some nm → M !! nm = Some v →
  lex_state s = LEX_STATE_IF → (length (opr_stack s) < STACK_SIZE)%nat →
  ∃ a, lp_process_token fopen fuel (nm ++ [0]) len s = Ret (set_stacks (opc_stack s) (Some a :: opr_stack s) s) ∧
    const_value s a = value_number v.2.
Proof.
  intros (l & Hl & Hok & Hnd & ->) Hf Hc Hv Hst Hlen. rewrite map_size_list_to_map, length_fmap in Hf by done.
  unfold lp_process_token. rewrite Hst. cbv zeta.
  rewrite !(proj2 (Z.eqb_neq LEX_STATE_IF _)) by done. rewrite Z.eqb_refl.
  rewrite (select_ok _ _ _ _ _ Hl Hf Hc). res_cbn. unfold lp_push_operand.
  rewrite (proj2 (Nat.ltb_lt _ _)) by done. res_cbn.
  pose proof (find_entry nm l) as Hfe. destruct (find _ l) as [[a c]|]; cbn [option_map fst].
  - destruct Hfe as (l1 & l2 & -> & Hcn). cbn in Hcn. exists a. split; [done|].
    destruct (entry_split l1 (a, c) l2 nm (0, []) Hnd Hcn) as (_ & _ & E). rewrite E in Hv. simplify_eq. cbn [snd entry].
    unfold const_value. rewrite (deref_some _ _ _ (lseg_lookup _ _ _ _ a c Hl ltac:(set_solver))). done.
  - by rewrite not_elem_of_list_to_map_1 in Hv.
Qed.

Lemma const_value_consts s s' a : consts s = consts s' → const_value s a = const_value s' a.
Proof. unfold const_value. by intros ->. Qed.

(** Conditions are evaluated with their sides exchanged. For two constants
    with numeric values, the line [#if a op b] leaves the scanner in the text
    that follows, or skips it, according to [b op a]; both stacks are empty
    again. For [==], [||] and [&&] that is the condition written; a comparison
    by size is turned around. *)
Theorem if_exchanges_sides fopen fuel a op b s M va vb x y r :
  models s M → (size M < fuel)%nat → opc_stack s = [] → opr_stack s = [] →
  c_string (a ++ [0]) = Some a → c_string (b ++ [0]) = Some b →
  M !! a = Some va → M !! b = Some vb → value_number va.2 = Ret x → value_number vb.2 = Ret y →
  op_holds op y x = Some r →
  ∃ s', if_line fopen fuel a op b s = Ret s' ∧ opc_stack s' = [] ∧ opr_stack s' = [] ∧
    lex_state s' = (if r then LEX_STATE_IF else LEX_STATE_INVALID) ∧
    consts s' = consts s ∧ pphead s' = pphead s.
Proof.
  intros Hm Hf Ho Hr Ha Hb Hva Hvb Hx Hy Hop. destruct (op_holds_apply _ _ _ _ Hop) as [Hneg Happ].
  unfold if_line. change (lp_preprocessor_state LEX_STATE_IF s) with (set_state LEX_STATE_IF s).
  set (s0 := set_state LEX_STATE_IF s). assert (Hm0 : models s0 M) by exact Hm.
  destruct (token_pushes fopen fuel a (Z.of_nat (length a)) va M s0 Hm0 Hf Ha Hva eq_refl) as (pa & E1 & V1).
  { cbn. rewrite Hr. cbn. unfold STACK_SIZE. lia. }
  rewrite E1. res_cbn. cbn [opc_stack opr_stack set_state s0]. rewrite Ho, Hr. unfold lp_push_opcode.
  cbn [opc_stack opr_stack set_stacks length]. change (0 <? STACK_SIZE)%nat with true. res_cbn. set (s1 := set_stacks [op] _ _).
  destruct (token_pushes fopen fuel b (Z.of_nat (length b)) vb M s1 Hm Hf Hb Hvb eq_refl) as (pb & E2 & V2).
  { cbn. unfold STACK_SIZE. lia. }
  rewrite E2. res_cbn. cbn [opc_stack opr_stack set_stacks s1]. unfold lp_flush_token.
  cbn [opr_stack opc_stack set_stacks lp_pop_operand lex_state set_state s0]. rewrite Z.eqb_refl. cbn [negb].
  rewrite Hx, (const_value_consts _ s) in V1 by done. rewrite Hy, (const_value_consts _ s) in V2 by done.
  cbn [flush_operands]. rewrite (const_value_consts _ s pb), V2 by done. res_cbn.
  cbn [flush_operands]. rewrite (const_value_consts _ s pa), V1 by done. res_cbn.
  cbn [pop_opcode_again]. rewrite (proj2 (Z.eqb_neq _ _) Hneg). cbn [fst snd flush_operands lp_pop_opcode]. res_cbn.
  rewrite Happ. change (0 =? LEX_OP_NEG) with false. cbv iota.
  destruct r; cbn [of_bool]; [change (1 =? 0) with false|change (0 =? 0) with true]; cbv iota;
    (eexists; split; [reflexivity|]); done.
Qed.

(** [#define A 5], [#define B 2]; [#if A > B] skips its text. *)
Definition two_constants : pp :=
  mkPre (Some 1) (mkStore (<[1 := mkPP (Some 2) [65] 1 [53] ]> {[2 := mkPP None [66] 1 [50] ]}) 3)
    [] (mkConf [] None 0 0) [] [] LEX_STATE_NONE [].

Lemma if_exchanges_sides_witness :
  value_number [53] = Ret 5 ∧
  ∃ s', if_line (λ _, None) 5 [65] LEX_OP_GT [66] two_constants = Ret s' ∧ opc_stack s' = [] ∧ opr_stack s' = [] ∧
    lex_state s' = LEX_STATE_INVALID ∧ consts s' = consts two_constants ∧ pphead s' = pphead two_constants.
Proof.
  split; [reflexivity|].
  apply (if_exchanges_sides (λ _, None) 5 [65] LEX_OP_GT [66] two_constants
           (list_to_map [([65], (1, [53])); ([66], (1, [50]))]) (1, [53]) (1, [50]) 5 2 false).
  - exists [(1, mkPP (Some 2) [65] 1 [53]); (2, mkPP None [66] 1 [50])].
    split; [repeat (constructor; [done|]); constructor|]. split; [|split; [|done]].
    + intros k [c Hk]. cbn in Hk. apply lookup_insert_Some in Hk as [[<- _]|[_ Hk]]; [cbn; lia|].
      apply lookup_singleton_Some in Hk as [<- _]. cbn. lia.
    + cbn. repeat constructor; set_solver.
  - by vm_compute; lia.
  - done.
  - done.
  - done.
  - done.
  - by vm_compute.
  - by vm_compute.
  - done.
  - done.
  - done.
Defined.
