(* ===== verification/Pandora.v ===== *)
(** * Key derivation (StackLib/crypto/src/cr_pandora.c)

    Sixteen boxes that permute bits of, or add constants to, blocks of eight
    bytes; [cr_generate_key] runs a key through them, driven by the key itself,
    and shuffles the table of boxes on the way; [cr_finalize_key] permutes the
    bits of a key by a seed, and [cr_calculate_key] finds the seed again from
    the check sum. A key is the list of its bytes, as unsigned numbers: every
    use of a [char] in the code masks it or stores it back. The [register]
    variables of the dummy operations do not reach any result and are left
    out. *)
From S2P Require Import Prelude.

(** ** Boxes *)

(** the masks of [bmask] at the bytes of [buffer] that have a bit of [mask] *)
Definition gather (mask : Z) (bmask buffer : list Z) : Z :=
  foldl Z.lor 0 (zip_with (λ m b, if Z.land b mask =? 0 then 0 else m) bmask buffer).

Definition sbox_permutate (bmask buffer : list Z) : list Z :=
  (λ mask, gather mask bmask buffer) <$> [1; 2; 4; 8; 16; 32; 64; 128].

Definition sbox_xor (xtable buffer : list Z) : list Z := zip_with Z.lxor buffer xtable.

Definition sbox_not (buffer : list Z) : list Z :=
  (Z.lxor 255 <$> take 4 buffer) ++ drop 4 buffer.

Inductive box := Permute (bmask : list Z) | Xor (xtable : list Z) | NotNibble.

Definition run_box (b : box) (buffer : list Z) : list Z :=
  match b with
  | Permute m => sbox_permutate m buffer
  | Xor x => sbox_xor x buffer
  | NotNibble => sbox_not buffer
  end.

(** [sbox_0] to [sbox_15], the entries of [sbox_table] *)
Definition sbox_table : list box := [
  Permute [0x10; 0x01; 0x8; 0x80; 0x40; 0x20; 0x02; 0x04];
  Xor [219; 137; 7; 224; 99; 62; 187; 231];
  Xor [232; 190; 186; 126; 241; 177; 59; 254];
  Permute [0x40; 0x80; 0x20; 0x08; 0x4; 0x01; 0x02; 0x10];
  Permute [0x20; 0x80; 0x40; 0x10; 0x4; 0x01; 0x02; 0x08];
  Xor [223; 19; 86; 176; 218; 45; 62; 205];
  Xor [120; 165; 243; 143; 252; 222; 86; 201];
  Permute [0x80; 0x10; 0x01; 0x20; 0x10; 0x2; 0x04; 0x08];
  Permute [0x10; 0x40; 0x02; 0x04; 0x08; 0x80; 0x20; 0x01];
  Xor [221; 231; 188; 167; 243; 66; 210; 197];
  Permute [0x01; 0x02; 0x4; 0x10; 0x08; 0x20; 0x40; 0x80];
  Permute [0x04; 0x20; 0x80; 0x01; 0x10; 0x08; 0x02; 0x40];
  Xor [236; 240; 197; 246; 160; 224; 253; 237];
  NotNibble;
  Xor [234; 105; 102; 91; 122; 211; 176; 215];
  Xor [180; 187; 192; 169; 244; 52; 227; 161] ].

(** [ptable_1] to [ptable_8] *)
Definition ptable : list (list Z) := [
  [0x01; 0x02; 0x4; 0x08; 0x10; 0x20; 0x40; 0x80];
  [0x04; 0x08; 0x1; 0x10; 0x20; 0x80; 0x02; 0x40];
  [0x08; 0x04; 0x2; 0x01; 0x80; 0x40; 0x20; 0x10];
  [0x02; 0x08; 0x40; 0x10; 0x4; 0x01; 0x80; 0x20];
  [0x80; 0x20; 0x10; 0x01; 0x10; 0x2; 0x04; 0x08];
  [0x40; 0x01; 0x20; 0x80; 0x8; 0x04; 0x08; 0x02];
  [0x20; 0x40; 0x80; 0x04; 0x8; 0x01; 0x02; 0x10];
  [0x10; 0x02; 0x40; 0x08; 0x04; 0x80; 0x20; 0x01] ].

(** ** Keys in memory: eight bytes from [key + i] *)
Definition block (i : Z) (key : list Z) : res (list Z) :=
  guardb ((0 <=? i) && (i + 8 <=? Z.of_nat (length key))) ≫= λ _,
  Ret (take 8 (drop (Z.to_nat i) key)).

Definition put_block (i : Z) (b key : list Z) : list Z :=
  take (Z.to_nat i) key ++ b ++ drop (Z.to_nat i + 8) key.

Definition key_at (key : list Z) (index : Z) : res Z := from_option_ub (key !! Z.to_nat index).

Definition lo (x : Z) : nat := Z.to_nat (Z.land x 0x0F).
Definition hi (x : Z) : nat := Z.to_nat (Z.land (Z.shiftr x 4) 0x0F).

(** ** [pbox], a table of function pointers: NULL before [cr_init_pandora] *)
Abbreviation boxes := (list (option nat)).

Definition cr_init_pandora : boxes := Some <$> seq 0 16.

Definition pbox_at (pbox : boxes) (n : nat) : res (option nat) := from_option_ub (pbox !! n).

(** [pbox[n](key + i)] *)
Definition call_box (pbox : boxes) (n : nat) (i : Z) (key : list Z) : res (list Z) :=
  f ← pbox_at pbox n;
  k ← from_option_ub f;
  b ← from_option_ub (sbox_table !! k);
  buffer ← block i key;
  Ret (put_block i (run_box b buffer) key).

(** [temp = pbox[a]; pbox[a] = pbox[b]; pbox[b] = temp;] and [temp] *)
Definition swap_boxes (a b : nat) (pbox : boxes) : res (boxes * option nat) :=
  temp ← pbox_at pbox a;
  other ← pbox_at pbox b;
  Ret (<[b := temp]> (<[a := other]> pbox), temp).

(** [for(k=16;k>0;k--)]: the table moves down by one *)
Definition rotate_step (x : option nat * boxes) (k : nat) : option nat * boxes :=
  (default None (x.2 !! k), <[k := x.1]> x.2).

Definition rotate_boxes (pbox : boxes) : boxes :=
  (foldl rotate_step (default None (pbox !! 0%nat), pbox) (rev (seq 0 16))).2.

(** one turn of the loop on [j] *)
Definition key_step (i : Z) (j : Z) (x : list Z * boxes) : res (list Z * boxes) :=
  let '(key, pbox) := x in
  let index := u8 (i + j) in
  k0 ← key_at key index;
  key1 ← call_box pbox (lo k0) i key;
  k1 ← key_at key1 index;
  s1 ← swap_boxes (lo k1) (hi k1) pbox;
  key2 ← call_box s1.1 (hi k1) i key1;
  k2 ← key_at key2 index;
  s2 ← swap_boxes (lo k2) (hi k2) s1.1;
  Ret (key2, if decide (s2.2 = s1.2) then rotate_boxes s2.1 else s2.1).

(** one turn of the loop on [i], a [uint8] *)
Definition generate_step (len : Z) (x : Z * (list Z * boxes)) : res (Z * (list Z * boxes) + list Z * boxes) :=
  if x.1 <? len then
    y ← foldM (key_step x.1) (Z.of_nat <$> seq 0 8) x.2;
    Ret (inl (u8 (x.1 + 8), y))
  else Ret (inr x.2).

Definition cr_generate_key (fuel : nat) (random : list Z) (len : Z) (pbox : boxes) : res (list Z * boxes * Z) :=
  guardb (len <=? Z.of_nat (length random)) ≫= λ _,
  y ← loop fuel (generate_step len) (0, (take (Z.to_nat len) random, pbox));
  Ret (y.1, y.2, len).

(** ** The check sum and the final permutation *)
Fixpoint gen_lrc (key : list Z) (crc : Z) : res Z :=
  match key with
  | [] => Ret crc
  | x :: y :: l =>
      let t := Z.lor (Z.land (Z.shiftl x 8) 0xFF00) (Z.land y 0xFF) in
      gen_lrc l (Z.lxor crc t)
  | _ => Undef
  end.

Definition cr_gen_lrc (key : list Z) : res Z := gen_lrc key 0.

Definition finalize_block (bmask b : list Z) : list Z :=
  (λ mask, gather mask bmask b) <$> [128; 64; 32; 16; 8; 4; 2; 1].

Definition finalize_step (bmask : list Z) (len : Z) (x : Z * list Z) : res (Z * list Z + list Z) :=
  if x.1 <? len then
    b ← block x.1 x.2;
    Ret (inl (u8 (x.1 + 8), put_block x.1 (finalize_block bmask b) x.2))
  else Ret (inr x.2).

Definition cr_finalize_key (fuel : nat) (key : list Z) (seed : Z) : res (list Z * Z) :=
  bmask ← from_option_ub (ptable !! Z.to_nat (Z.land seed 7));
  key' ← loop fuel (finalize_step bmask (Z.of_nat (length key))) (0, key);
  lrc ← cr_gen_lrc key';
  Ret (key', lrc).

(** [for(i=0;i<8;i++)] of [cr_calculate_key], from [i]; [tbuf] has 16 bytes *)
Fixpoint calculate_from (fuel : nat) (seeds : list Z) (key : list Z) (lrc : Z) : res Z :=
  match seeds with
  | [] => Ret (u8 (-1))
  | i :: seeds' =>
      r ← cr_finalize_key fuel key i;
      if lrc =? r.2 then Ret i else calculate_from fuel seeds' key lrc
  end.

Definition cr_calculate_key (fuel : nat) (key : list Z) (lrc : Z) : res Z :=
  guardb (Z.of_nat (length key) <=? 16) ≫= λ _,
  calculate_from fuel (Z.of_nat <$> seq 0 8) key lrc.


(** ** Blocks and boxes keep their shape *)
Definition bytes8 (b : list Z) : Prop := length b = 8%nat ∧ Forall is_byte b.

Lemma lor_bytes l acc : Forall is_byte l → is_byte acc → is_byte (foldl Z.lor acc l).
Proof. intros H. revert acc. induction H; intros acc Ha; cbn; [done|]. auto using byte_lor. Qed.

Lemma gather_byte mask bmask b : Forall is_byte bmask → is_byte (gather mask bmask b).
Proof.
  intros H. unfold gather. apply lor_bytes; [|unfold is_byte; lia].
  revert b. induction H as [|m bm Hm _ IH]; intros [|x b]; cbn; try (by apply Forall_nil).
  apply Forall_cons. split; [|apply IH]. case_match; [unfold is_byte; lia|done].
Qed.

Lemma run_box_bytes k bx b : sbox_table !! k = Some bx → bytes8 b → bytes8 (run_box bx b).
Proof.
  intros Hk [Hl Hb].
  assert (Ht : ∃ t, length t = 8%nat ∧ Forall is_byte t ∧ (bx = Permute t ∨ bx = Xor t ∨ bx = NotNibble)).
  { do 16 (destruct k as [|k]; [injection Hk as <-; first
      [ eexists; split; [|split; [|by left]]; [reflexivity|by apply byteb_list]
      | eexists; split; [|split; [|by right; left]]; [reflexivity|by apply byteb_list]
      | exists [0;0;0;0;0;0;0;0]; split; [reflexivity|split; [by apply byteb_list|by right; right]] ]|]).
    discriminate Hk. }
  destruct Ht as (t & Htl & Ht & [->|[-> | ->]]); split; cbn [run_box].
  - done.
  - apply Forall_fmap, Forall_true. intros m. cbn. by apply gather_byte.
  - unfold sbox_xor. rewrite length_zip_with. lia.
  - unfold sbox_xor. clear Hl Htl Hk. revert t Ht. induction Hb as [|x b Hx _ IH]; intros [|y t] Ht; cbn; try done.
    apply Forall_cons in Ht as [Hy Ht]. apply Forall_cons. split; [by apply byte_lxor|by apply IH].
  - unfold sbox_not. rewrite length_app, length_fmap, length_take, length_drop. lia.
  - unfold sbox_not. apply Forall_app. split; [|by apply Forall_drop].
    apply Forall_fmap. eapply Forall_impl; [by apply Forall_take|]. intros x Hx. cbn. apply byte_lxor; [unfold is_byte; lia|done].
Qed.

(** A key of [n] blocks. *)
Definition key_ok (n : nat) (key : list Z) : Prop := length key = (8 * n)%nat ∧ Forall is_byte key.

Lemma block_ok n m key : key_ok n key → (m < n)%nat →
  ∃ b, block (8 * Z.of_nat m) key = Ret b ∧ bytes8 b ∧
    ∀ b', bytes8 b' → key_ok n (put_block (8 * Z.of_nat m) b' key).
Proof.
  intros [Hl Hb] Hm. unfold block. rewrite (proj2 (Z.leb_le _ _)), (proj2 (Z.leb_le _ _)) by lia. res_cbn.
  eexists. split; [done|]. split.
  - split; [rewrite length_take, length_drop; lia|by apply Forall_take, Forall_drop].
  - intros b' [Hl' Hb']. unfold put_block. split.
    + rewrite !length_app, length_take, length_drop. lia.
    + apply Forall_app. split; [by apply Forall_take|]. apply Forall_app. split; [done|by apply Forall_drop].
Qed.

(** ** The table of boxes *)
Definition boxes_ok (pbox : boxes) : Prop := Permutation pbox cr_init_pandora.

Lemma boxes_length pbox : boxes_ok pbox → length pbox = 16%nat.
Proof. intros H. by rewrite (Permutation_length H). Qed.

Lemma boxes_lookup pbox n : boxes_ok pbox → (n < 16)%nat →
  ∃ k b, pbox !! n = Some (Some k) ∧ sbox_table !! k = Some b.
Proof.
  intros H Hn. destruct (lookup_lt_is_Some_2 pbox n) as [x Hx]; [by rewrite (boxes_length _ H)|].
  assert (Hin : x ∈ cr_init_pandora) by (unfold boxes_ok in H; rewrite <-H; by eapply list_elem_of_lookup_2).
  apply list_elem_of_fmap in Hin as (k & -> & Hk). apply elem_of_seq in Hk.
  destruct (lookup_lt_is_Some_2 sbox_table k) as [b Hb]; [cbn; lia|]. by exists k, b.
Qed.

Lemma lo_lt x : (lo x < 16)%nat.
Proof. unfold lo. change 15 with (Z.ones 4). rewrite Z.land_ones by lia. pose proof (Z.mod_pos_bound x (2 ^ 4)). lia. Qed.

Lemma hi_lt x : (hi x < 16)%nat.
Proof. unfold hi. change 15 with (Z.ones 4). rewrite Z.land_ones by lia. pose proof (Z.mod_pos_bound (Z.shiftr x 4) (2 ^ 4)). lia. Qed.

Lemma call_box_ok n m pbox b key :
  boxes_ok pbox → (b < 16)%nat → key_ok n key → (m < n)%nat →
  ∃ key', call_box pbox b (8 * Z.of_nat m) key = Ret key' ∧ key_ok n key'.
Proof.
  intros Hp Hb Hk Hm. destruct (boxes_lookup _ _ Hp Hb) as (k & bx & Hpb & Hs).
  destruct (block_ok n m key Hk Hm) as (bl & E & Hbl & Hput).
  unfold call_box, pbox_at. rewrite Hpb. res_cbn. rewrite Hs. res_cbn. rewrite E. res_cbn.
  eexists. split; [done|]. apply Hput. by eapply run_box_bytes.
Qed.

Lemma swap_boxes_ok a b pbox : boxes_ok pbox → (a < 16)%nat → (b < 16)%nat →
  ∃ pbox' t, swap_boxes a b pbox = Ret (pbox', t) ∧ boxes_ok pbox'.
Proof.
  intros Hp Ha Hb. pose proof (boxes_length _ Hp) as Hl. unfold swap_boxes, pbox_at.
  destruct (lookup_lt_is_Some_2 pbox a) as [x Hx]; [lia|]. destruct (lookup_lt_is_Some_2 pbox b) as [y Hy]; [lia|].
  rewrite Hx, Hy. res_cbn. eexists _, _. split; [done|]. unfold boxes_ok in *. rewrite <-Hp. symmetry.
  destruct (decide (a = b)) as [->|Hab].
  { simplify_eq. rewrite list_insert_insert_eq, list_insert_id by done. done. }
  apply (Permutation_inj). split; [by rewrite !length_insert|].
  exists (λ k, if decide (k = a) then b else if decide (k = b) then a else k). split.
  - intros i j. repeat case_decide; lia.
  - intros k. destruct (decide (k = a)) as [->|Hka].
    + rewrite Hx. rewrite list_lookup_insert_eq; [done|rewrite length_insert; lia].
    + destruct (decide (k = b)) as [->|Hkb].
      * rewrite list_lookup_insert_ne by done. rewrite list_lookup_insert_eq by lia. done.
      * rewrite !list_lookup_insert_ne by done. done.
Qed.

Lemma rotate_boxes_eq pbox : length pbox = 16%nat → rotate_boxes pbox = drop 1 pbox ++ take 1 pbox.
Proof.
  intros H. do 16 (destruct pbox as [|? pbox]; [done|]). destruct pbox; [|done]. reflexivity.
Qed.

Lemma rotate_boxes_ok pbox : boxes_ok pbox → boxes_ok (rotate_boxes pbox).
Proof.
  intros H. unfold boxes_ok. rewrite rotate_boxes_eq by by apply boxes_length.
  rewrite Permutation_app_comm, take_drop. exact H.
Qed.

(** ** [cr_generate_key] *)
Lemma key_at_ok n key i : key_ok n key → 0 ≤ i < 8 * Z.of_nat n → ∃ x, key_at key i = Ret x.
Proof.
  intros [Hl _] Hi. unfold key_at. destruct (lookup_lt_is_Some_2 key (Z.to_nat i)) as [x Hx]; [lia|].
  exists x. by rewrite Hx.
Qed.

Definition gen_ok (n : nat) (x : list Z * boxes) : Prop := key_ok n x.1 ∧ boxes_ok x.2.

Lemma key_step_ok n m j x :
  gen_ok n x → (m < n)%nat → (n ≤ 31)%nat → 0 ≤ j < 8 →
  ∃ y, key_step (8 * Z.of_nat m) j x = Ret y ∧ gen_ok n y.
Proof.
  destruct x as [key pbox]. intros [Hk Hp] Hm Hn Hj. cbn in Hk, Hp. unfold key_step.
  rewrite u8_id by (unfold is_byte; lia).
  assert (Hat : ∀ key, key_ok n key → ∃ x, key_at key (8 * Z.of_nat m + j) = Ret x)
    by (intros k' Hk'; apply (key_at_ok n); [done|lia]).
  destruct (Hat _ Hk) as [k0 ->]. res_cbn.
  destruct (call_box_ok n m pbox (lo k0) key Hp (lo_lt _) Hk Hm) as (key1 & -> & Hk1). res_cbn.
  destruct (Hat _ Hk1) as [k1 ->]. res_cbn.
  destruct (swap_boxes_ok (lo k1) (hi k1) pbox Hp (lo_lt _) (hi_lt _)) as (p1 & t1 & -> & Hp1). res_cbn.
  destruct (call_box_ok n m p1 (hi k1) key1 Hp1 (hi_lt _) Hk1 Hm) as (key2 & -> & Hk2). res_cbn.
  destruct (Hat _ Hk2) as [k2 ->]. res_cbn.
  destruct (swap_boxes_ok (lo k2) (hi k2) p1 Hp1 (lo_lt _) (hi_lt _)) as (p2 & t2 & -> & Hp2). res_cbn.
  eexists. split; [done|]. split; [done|]. cbn. case_decide; [by apply rotate_boxes_ok|done].
Qed.

Lemma generate_walk n k : ∀ fuel m x,
  gen_ok n x → (m + k = n)%nat → (n ≤ 31)%nat → (k < fuel)%nat →
  ∃ y, loop fuel (generate_step (8 * Z.of_nat n)) (8 * Z.of_nat m, x) = Ret y ∧ gen_ok n y.
Proof.
  induction k as [|k IH]; intros [|fuel] m x Hx Hmk Hn Hf; try lia.
  - exists x. split; [|done]. apply loop_inr. unfold generate_step. cbn [fst snd].
    by rewrite (proj2 (Z.ltb_ge _ _)) by lia.
  - destruct (foldM_inv (gen_ok n) (key_step (8 * Z.of_nat m)) (Z.of_nat <$> seq 0 8) x Hx) as (y & E & Hy).
    { intros j z Hj Hz. apply list_elem_of_fmap in Hj as (j' & -> & Hj'). apply elem_of_seq in Hj'.
      apply key_step_ok; [done|lia|lia|lia]. }
    destruct (IH fuel (S m) y Hy ltac:(lia) Hn ltac:(lia)) as (y' & E' & Hy'). exists y'. split; [|done].
    erewrite loop_inl; [exact E'|]. unfold generate_step. cbn [fst snd].
    rewrite (proj2 (Z.ltb_lt _ _)) by lia. rewrite E. res_cbn. rewrite u8_id by (unfold is_byte; lia).
    do 4 f_equal. lia.
Qed.

(** Key generation never leaves its tables. From a table that holds every
    box once, in any order, and random bytes of at most 31 whole blocks,
    [cr_generate_key] returns: no call goes through a null pointer, no byte
    outside the key is touched. It writes a key of the same length, and the
    swaps and rotations leave a table that again holds every box once, so the
    next key can be generated from it. *)
Theorem generate_key_keeps_boxes fuel n random pbox :
  boxes_ok pbox → key_ok n random → (n ≤ 31)%nat → (n < fuel)%nat →
  ∃ key pbox', cr_generate_key fuel random (8 * Z.of_nat n) pbox = Ret (key, pbox', 8 * Z.of_nat n) ∧
    key_ok n key ∧ boxes_ok pbox'.
Proof.
  intros Hp Hr Hn Hf. unfold cr_generate_key. destruct (id Hr) as [Hl _].
  rewrite (proj2 (Z.leb_le _ _)) by lia. res_cbn. rewrite firstn_all2 by lia.
  destruct (generate_walk n n fuel 0 (random, pbox) ltac:(by split) ltac:(lia) Hn Hf) as ([key pbox'] & E & Hk & Hb).
  change (8 * Z.of_nat 0) with 0 in E. rewrite E. res_cbn. by exists key, pbox'.
Qed.

Lemma generate_key_keeps_boxes_witness :
  boxes_ok cr_init_pandora ∧
  ∃ key pbox', cr_generate_key 4 [1; 2; 3; 4; 5; 6; 7; 8; 1; 2; 3; 4; 5; 6; 7; 8] 16 cr_init_pandora = Ret (key, pbox', 16) ∧
    key_ok 2 key ∧ boxes_ok pbox'.
Proof.
  split; [exact (Permutation_refl _)|]. apply (generate_key_keeps_boxes 4 2).
  - exact (Permutation_refl _).
  - split; [reflexivity|by apply byteb_list].
  - lia.
  - lia.
Defined.

(** Before [cr_init_pandora] the table holds null pointers, and the first call
    goes through one. *)
Example generate_key_needs_init :
  cr_generate_key 4 [1; 2; 3; 4; 5; 6; 7; 8] 8 (replicate 16 None) = Undef.
Proof. by vm_compute. Qed.

(** ** [cr_calculate_key] *)
Lemma gen_lrc_ok n key crc : length key = (2 * n)%nat → ∃ r, gen_lrc key crc = Ret r.
Proof.
  revert key crc. induction n as [|n IH]; intros [|x [|y key]] crc Hl; try (cbn in Hl; lia).
  - by exists crc.
  - cbn [gen_lrc]. apply IH. cbn in Hl. lia.
Qed.

Lemma ptable_ok seed : ∃ bmask, ptable !! Z.to_nat (Z.land seed 7) = Some bmask ∧ Forall is_byte bmask.
Proof.
  assert (H : (Z.to_nat (Z.land seed 7) < 8)%nat).
  { change 7 with (Z.ones 3). rewrite Z.land_ones by lia. pose proof (Z.mod_pos_bound seed (2 ^ 3)). lia. }
  revert H. generalize (Z.to_nat (Z.land seed 7)) as k. intros k Hk.
  do 8 (destruct k as [|k]; [eexists; split; [reflexivity|by apply byteb_list]|]). lia.
Qed.

Lemma finalize_walk bmask n k : ∀ fuel m key,
  Forall is_byte bmask → key_ok n key → (m + k = n)%nat → (n ≤ 31)%nat → (k < fuel)%nat →
  ∃ key', loop fuel (finalize_step bmask (8 * Z.of_nat n)) (8 * Z.of_nat m, key) = Ret key' ∧ key_ok n key'.
Proof.
  induction k as [|k IH]; intros [|fuel] m key Hb Hk Hmk Hn Hf; try lia.
  - exists key. split; [|done]. apply loop_inr. unfold finalize_step. cbn [fst snd].
    by rewrite (proj2 (Z.ltb_ge _ _)) by lia.
  - destruct (block_ok n m key Hk ltac:(lia)) as (b & E & Hbl & Hput).
    assert (Hfb : bytes8 (finalize_block bmask b)).
    { split; [done|]. apply Forall_fmap, Forall_true. intros mask. cbn. by apply gather_byte. }
    destruct (IH fuel (S m) _ Hb (Hput _ Hfb) ltac:(lia) Hn ltac:(lia)) as (y' & E' & Hy'). exists y'. split; [|done].
    erewrite loop_inl; [exact E'|]. unfold finalize_step. cbn [fst snd].
    rewrite (proj2 (Z.ltb_lt _ _)) by lia. rewrite E. res_cbn. rewrite u8_id by (unfold is_byte; lia).
    do 4 f_equal. lia.
Qed.

Lemma finalize_ok fuel n key seed :
  key_ok n key → (n ≤ 31)%nat → (n < fuel)%nat →
  ∃ key' lrc, cr_finalize_key fuel key seed = Ret (key', lrc) ∧ key_ok n key'.
Proof.
  intros Hk Hn Hf. unfold cr_finalize_key. destruct (ptable_ok seed) as (bmask & -> & Hb). res_cbn.
  destruct (id Hk) as [Hl _]. replace (Z.of_nat (length key)) with (8 * Z.of_nat n) by lia.
  destruct (finalize_walk bmask n n fuel 0 key Hb Hk ltac:(lia) Hn Hf) as (key' & E & Hk').
  change (8 * Z.of_nat 0) with 0 in E. rewrite E. res_cbn. destruct (gen_lrc_ok (4 * n) key' 0) as [r Hr]; [destruct Hk'; lia|].
  unfold cr_gen_lrc. rewrite Hr. res_cbn. by exists key', r.
Qed.

(** The check sum of a key finished with a seed. *)
Definition has_lrc (fuel : nat) (key : list Z) (lrc seed : Z) : Prop :=
  ∃ key', cr_finalize_key fuel key seed = Ret (key', lrc).

Lemma calculate_walk fuel n key lrc k : ∀ s,
  key_ok n key → (n ≤ 31)%nat → (n < fuel)%nat → (s + k = 8)%nat →
  (∀ seed, 0 ≤ seed < Z.of_nat s → ¬ has_lrc fuel key lrc seed) →
  ∃ r, calculate_from fuel (Z.of_nat <$> seq s k) key lrc = Ret r ∧
    ((0 ≤ r < 8 ∧ has_lrc fuel key lrc r ∧ ∀ seed, 0 ≤ seed < r → ¬ has_lrc fuel key lrc seed) ∨
     (r = 255 ∧ ∀ seed, 0 ≤ seed < 8 → ¬ has_lrc fuel key lrc seed)).
Proof.
  induction k as [|k IH]; intros s Hk Hn Hf Hs Hno; cbn [seq fmap list_fmap calculate_from].
  - exists 255. split; [done|]. right. split; [done|]. intros seed Hseed. apply Hno. lia.
  - destruct (finalize_ok fuel n key (Z.of_nat s) Hk Hn Hf) as (key' & l & E & _). rewrite E. res_cbn.
    destruct (Z.eqb_spec lrc l) as [->|Hl].
    + eexists. split; [done|]. left. split; [lia|]. split; [by exists key'|done].
    + apply IH; [done..|lia|]. intros seed Hseed. destruct (Z.eq_dec seed (Z.of_nat s)) as [->|Hsd].
      * intros [k' Hk']. congruence.
      * apply Hno. lia.
Qed.

(** The seed is found again. For a key of one or two blocks and any check
    sum, [cr_calculate_key] returns the first of the eight seeds with which
    [cr_finalize_key] gives this check sum, and 255 when there is none; in
    particular it finds a seed for every check sum that [cr_finalize_key] has
    computed. *)
Theorem calculate_key_finds_seed fuel n key lrc :
  key_ok n key → (n ≤ 2)%nat → (n < fuel)%nat →
  ∃ r, cr_calculate_key fuel key lrc = Ret r ∧
    ((0 ≤ r < 8 ∧ has_lrc fuel key lrc r ∧ ∀ seed, 0 ≤ seed < r → ¬ has_lrc fuel key lrc seed) ∨
     (r = 255 ∧ ∀ seed, 0 ≤ seed < 8 → ¬ has_lrc fuel key lrc seed)).
Proof.
  intros Hk Hn Hf. unfold cr_calculate_key. destruct (id Hk) as [Hl _].
  rewrite (proj2 (Z.leb_le _ _)) by lia. res_cbn.
  apply (calculate_walk fuel n key lrc 8 0); [done|lia|done|lia|]. intros. lia.
Qed.

Lemma calculate_key_finds_seed_witness :
  has_lrc 3 [1; 2; 3; 4; 5; 6; 7; 8] 59731 3 ∧
  ∃ r, cr_calculate_key 3 [1; 2; 3; 4; 5; 6; 7; 8] 59731 = Ret r ∧
    ((0 ≤ r < 8 ∧ has_lrc 3 [1; 2; 3; 4; 5; 6; 7; 8] 59731 r ∧
       ∀ seed, 0 ≤ seed < r → ¬ has_lrc 3 [1; 2; 3; 4; 5; 6; 7; 8] 59731 seed) ∨
     (r = 255 ∧ ∀ seed, 0 ≤ seed < 8 → ¬ has_lrc 3 [1; 2; 3; 4; 5; 6; 7; 8] 59731 seed)).
Proof.
  split; [eexists; by vm_compute|].
  apply (calculate_key_finds_seed 3 1); [split; [reflexivity|by apply byteb_list]|lia|lia].
Defined.

(** [ptable_5] has the bit 0x10 for two bytes: with seed 4, keys that differ in
    them become the same key. *)
Example ptable_5_loses_bits :
  cr_finalize_key 3 [0; 0; 255; 0; 0; 0; 0; 0] 4 = cr_finalize_key 3 [0; 0; 0; 0; 255; 0; 0; 0] 4.
Proof. by vm_compute. Qed.
