(* ===== verification/Crc.v ===== *)
(** * Check sums (StackLib/crypto/src/cr_crc.c, cr_core.c)

    The CRC-32 and the LRC that the script function [digest] offers, and the
    byte-wise exclusive or of the block modes. Both check sums read the message
    in pieces of sixteen bytes through the context's [read], here
    [cr_mem_read]; the last piece reads on behind the message, so the memory
    must be that much longer. *)
From S2P Require Import Prelude Package.

(** ** Reading *)
Definition cr_mem_read (handle : list Z) (offset : Z) (len : Z) : res (list Z) :=
  guardb (offset + len <=? Z.of_nat (length handle)) ≫= λ _,
  Ret (take (Z.to_nat len) (drop (Z.to_nat offset) handle)).

(** The loop that both check sums share, [ii] and the sum so far: [f] takes in
    one byte. *)
Definition calc_step (f : Z → Z → Z) (handle : list Z) (offset length_ : Z) (x : Z * Z) : res (Z * Z + Z) :=
  let '(ii, sum) := x in
  if ii <? length_ then
    buffer ← cr_mem_read handle (u16 (offset + ii)) 16;
    Ret (inl (u16 (ii + 16), foldl f sum (take (Z.to_nat (Z.min 16 (length_ - ii))) buffer)))
  else Ret (inr sum).

(** ** CRC-32 *)
Definition crc_shift (TabVal : Z) : Z :=
  if negb (Z.land TabVal 1 =? 0) then Z.lxor (Z.shiftr TabVal 1) 0xEDB88320 else Z.shiftr TabVal 1.

Definition lGenCRC32 (lOldCRC ByteVal : Z) : Z :=
  let TabVal := Z.land (Z.lxor lOldCRC ByteVal) 0xFF in
  Z.lxor (Nat.iter 8 crc_shift TabVal) (Z.land (Z.shiftr lOldCRC 8) 0x00FFFFFF).

(** the four bytes of [result] and the value returned *)
Definition cr_calc_crc (fuel : nat) (handle : list Z) (offset length_ : Z) : res (list Z * Z) :=
  crc32 ← loop fuel (calc_step lGenCRC32 handle offset length_) (0, 0xFFFFFFFF);
  let crc32 := end_swap32 (u64 (Z.lnot crc32)) in
  Ret (le32 crc32, crc32).

(** ** LRC *)
Definition cr_calc_lrc (fuel : nat) (handle : list Z) (offset length_ : Z) : res (list Z * Z) :=
  b ← loop fuel (calc_step (λ b x, u8 (Z.lxor b x)) handle offset length_) (0, 0);
  Ret ([b], 1).

(** ** [cr_xor], whose counter is a [uint8] *)
Definition xor_step (mask : list Z) (len : Z) (x : Z * list Z) : res (Z * list Z + list Z) :=
  let '(i, buffer) := x in
  if i <? len then
    b ← from_option_ub (buffer !! Z.to_nat i);
    m ← from_option_ub (mask !! Z.to_nat i);
    Ret (inl (u8 (i + 1), <[Z.to_nat i := Z.lxor b m]> buffer))
  else Ret (inr buffer).

Definition cr_xor (fuel : nat) (mask buffer : list Z) (len : Z) : res (list Z) :=
  loop fuel (xor_step mask len) (0, buffer).

(** ** The reference: one shift of the whole register per bit *)
Definition crc_byte (crc b : Z) : Z := Nat.iter 8 crc_shift (Z.lxor crc b).

Definition crc32_of (l : list Z) : Z := Z.lxor (foldl crc_byte 0xFFFFFFFF l) 0xFFFFFFFF.

Example crc32_check_value : crc32_of [49; 50; 51; 52; 53; 54; 55; 56; 57] = 0xCBF43926.
Proof. reflexivity. Qed.

(** ** The shift is linear *)
Lemma crc_shift_spec x :
  crc_shift x = Z.lxor (Z.shiftr x 1) (if Z.testbit x 0 then 0xEDB88320 else 0).
Proof.
  unfold crc_shift. change 1 with (Z.ones 1) at 1. rewrite Z.land_ones by lia.
  change (2 ^ 1) with 2. rewrite Z.bit0_odd, Zmod_odd. destruct (Z.odd x); cbn; [done|]. by rewrite Z.lxor_0_r.
Qed.

Lemma crc_shift_lxor x y : crc_shift (Z.lxor x y) = Z.lxor (crc_shift x) (crc_shift y).
Proof.
  rewrite !crc_shift_spec, Z.shiftr_lxor, Z.lxor_spec.
  apply Z.bits_inj'. intros n Hn. rewrite !Z.lxor_spec.
  destruct (Z.testbit x 0), (Z.testbit y 0); cbn [xorb]; rewrite ?Z.bits_0;
    repeat match goal with |- context [Z.testbit ?a n] => destruct (Z.testbit a n) end; done.
Qed.

Lemma crc_shift_even k x : 0 < k → crc_shift (Z.shiftl x k) = Z.shiftl x (k - 1).
Proof.
  intros Hk. rewrite crc_shift_spec. rewrite Z.shiftl_spec_low by lia. rewrite Z.lxor_0_r.
  rewrite Z.shiftr_shiftl_l by lia. done.
Qed.

Lemma iter_shift_lxor n x y :
  Nat.iter n crc_shift (Z.lxor x y) = Z.lxor (Nat.iter n crc_shift x) (Nat.iter n crc_shift y).
Proof. induction n as [|n IH]; [done|]. by rewrite !Nat.iter_succ, IH, crc_shift_lxor. Qed.

Lemma iter_shift_high n x : Nat.iter n crc_shift (Z.shiftl x (Z.of_nat n)) = x.
Proof.
  revert x. induction n as [|n IH]; intros x; [apply Z.shiftl_0_r|].
  rewrite Nat.iter_succ_r, crc_shift_even by lia.
  replace (Z.of_nat (S n) - 1) with (Z.of_nat n) by lia. apply IH.
Qed.

(** A number is its low byte and the rest. *)
Lemma split_byte x : x = Z.lxor (Z.land x 255) (Z.shiftl (Z.shiftr x 8) 8).
Proof.
  apply Z.bits_inj'. intros n Hn. rewrite Z.lxor_spec. change 255 with (Z.ones 8). rewrite Z.land_spec.
  destruct (Z.ltb_spec n 8).
  - rewrite Z.ones_spec_low by lia. rewrite Z.shiftl_spec_low by lia. by rewrite andb_true_r, xorb_false_r.
  - rewrite Z.ones_spec_high by lia. rewrite Z.shiftl_spec, Z.shiftr_spec by lia.
    rewrite andb_false_r, xorb_false_l. f_equal. lia.
Qed.

Definition is_u32 (x : Z) : Prop := 0 ≤ x < 2 ^ 32.

Lemma shiftr8_mask x : is_u32 x → Z.land (Z.shiftr x 8) 0xFFFFFF = Z.shiftr x 8.
Proof.
  intros H. change 0xFFFFFF with (Z.ones 24). rewrite Z.land_ones, Z.shiftr_div_pow2 by lia. unfold is_u32 in H.
  apply Z.mod_small. split; [apply Z.div_pos; lia|apply Z.div_lt_upper_bound; lia].
Qed.

Lemma shiftr_byte b : is_byte b → Z.shiftr b 8 = 0.
Proof. intros H. rewrite Z.shiftr_div_pow2 by lia. apply Z.div_small. exact H. Qed.

(** The code's table step, on the low byte only, is the reference step. *)
Lemma lGenCRC32_ref crc b : is_u32 crc → is_byte b → lGenCRC32 crc b = crc_byte crc b.
Proof.
  intros Hc Hb. unfold lGenCRC32, crc_byte. rewrite shiftr8_mask by done.
  rewrite (split_byte (Z.lxor crc b)) at 2. rewrite iter_shift_lxor, (iter_shift_high 8).
  by rewrite Z.shiftr_lxor, (shiftr_byte b), Z.lxor_0_r.
Qed.

(** ** Both sums over a whole message *)
Section sum.
Context (f : Z → Z → Z) (P : Z → Prop).
Context (Hf : ∀ s b, P s → is_byte b → P (f s b)).

Lemma sum_keeps l s : P s → Forall is_byte l → P (foldl f s l).
Proof using Hf. intros Hs H. revert s Hs. induction H; intros s Hs; cbn; auto. Qed.

(** [handle] holds the message [l] from [offset], and the last piece can be
    read in full. *)
Lemma calc_walk handle offset l : ∀ fuel done_ rest s,
  l = done_ ++ rest → Z.of_nat (length l) ≤ 65520 → (16 | Z.of_nat (length done_)) →
  take (length l) (drop (Z.to_nat offset) handle) = l → 0 ≤ offset →
  offset + Z.of_nat (length l) + 15 ≤ Z.of_nat (length handle) → Z.of_nat (length handle) < 65536 →
  (length rest < fuel)%nat →
  loop fuel (calc_step f handle offset (Z.of_nat (length l))) (Z.of_nat (length done_), s) = Ret (foldl f s rest).
Proof using Type.
  induction fuel as [|fuel IH]; intros done_ rest s Hl Hmax Hdiv Hmem Ho Hlen H16 Hf'; [lia|].
  destruct rest as [|x rest].
  - apply loop_inr. unfold calc_step. rewrite app_nil_r in Hl. subst done_.
    by rewrite (proj2 (Z.ltb_ge _ _)) by lia.
  - set (n := Nat.min 16 (length (x :: rest))).
    assert (Hll : length l = (length done_ + length (x :: rest))%nat) by (by rewrite Hl, length_app).
    assert (Hstep : calc_step f handle offset (Z.of_nat (length l)) (Z.of_nat (length done_), s) =
      Ret (inl (u16 (Z.of_nat (length done_) + 16), foldl f s (take n (x :: rest))))).
    { unfold calc_step. rewrite (proj2 (Z.ltb_lt _ _)) by (cbn [length] in Hll; lia).
      rewrite (u16_id (offset + _)) by (unfold is_u16; cbn [length] in Hll; lia). unfold cr_mem_read.
      rewrite (proj2 (Z.leb_le _ _)) by (cbn [length] in Hll; destruct Hdiv; lia). res_cbn.
      do 3 f_equal. f_equal. rewrite Hl in Hmem at 2.
      replace (Z.to_nat (Z.min 16 (Z.of_nat (length l) - Z.of_nat (length done_)))) with n by lia.
      rewrite take_take. replace (n `min` Z.to_nat 16)%nat with n by lia.
      replace (Z.to_nat (offset + Z.of_nat (length done_))) with (Z.to_nat offset + length done_)%nat by lia.
      rewrite <-drop_drop.
      assert (E : x :: rest = drop (length done_) (take (length l) (drop (Z.to_nat offset) handle))).
      { by rewrite Hmem, drop_app_length. }
      rewrite E. rewrite skipn_firstn_comm, take_take. f_equal. lia. }
    assert (Hn' : (n ≤ 16)%nat ∧ (n ≤ length (x :: rest))%nat ∧ (n = 16%nat ∨ n = length (x :: rest))) by (unfold n; lia).
    clearbody n. rewrite (loop_inl _ _ _ _ Hstep). destruct (decide (n = length (x :: rest))) as [Hn|Hn].
    + rewrite firstn_all2 by lia. destruct fuel as [|fuel']; [cbn in Hf'; lia|].
      apply loop_inr. unfold calc_step. destruct (Z.ltb_spec (u16 (Z.of_nat (length done_) + 16)) (Z.of_nat (length l))) as [Hlt|]; [|done].
      rewrite u16_id in Hlt by (unfold is_u16; cbn [length] in *; lia). lia.
    + rewrite u16_id by (unfold is_u16; cbn [length] in Hll; lia).
      assert (Hn16 : n = 16%nat) by lia. rewrite Hn16.
      assert (Hl16 : length (take 16 (x :: rest)) = 16%nat) by (rewrite length_take; lia).
      replace (Z.of_nat (length done_) + 16) with (Z.of_nat (length (done_ ++ take 16 (x :: rest))))
        by (rewrite length_app; lia).
      rewrite (IH _ (drop 16 (x :: rest))); try done.
      * by rewrite <-foldl_app, take_drop.
      * by rewrite <-app_assoc, take_drop.
      * rewrite length_app, Hl16, Nat2Z.inj_add. apply Z.divide_add_r; [done|by exists 1].
      * rewrite length_drop. cbn [length] in Hf' |- *. lia.
Qed.
End sum.

Lemma crc_byte_u32 crc b : is_u32 crc → is_byte b → is_u32 (crc_byte crc b).
Proof.
  intros Hc Hb. assert (H : is_u32 (Z.lxor crc b)).
  { apply (lxor_range 32); [lia|done|]. unfold is_byte in Hb. lia. }
  unfold crc_byte. revert H. generalize (Z.lxor crc b) as x. generalize 8%nat as n. induction n as [|n IH]; intros x Hx; [done|].
  rewrite Nat.iter_succ_r. apply IH. rewrite crc_shift_spec. apply (lxor_range 32); [lia| |by case_match].
  unfold is_u32 in Hx. rewrite Z.shiftr_div_pow2 by lia. split; [apply Z.div_pos; lia|apply Z.div_lt_upper_bound; lia].
Qed.

Lemma crc_fold l : Forall is_byte l → foldl lGenCRC32 0xFFFFFFFF l = foldl crc_byte 0xFFFFFFFF l ∧
  is_u32 (foldl crc_byte 0xFFFFFFFF l).
Proof.
  intros H. assert (H0 : is_u32 0xFFFFFFFF) by done. revert H0. generalize 0xFFFFFFFF as c.
  induction H as [|b l Hb _ IH]; intros c Hc; [done|]. cbn [foldl]. rewrite lGenCRC32_ref by done.
  apply IH. by apply crc_byte_u32.
Qed.

(** The bytes written depend on the low 32 bits only. *)
Lemma be32_low x y : Z.land x (Z.ones 32) = Z.land y (Z.ones 32) → be32 x = be32 y.
Proof.
  rewrite !Z.land_ones by lia. change (2 ^ 32) with (65536 * 65536). rewrite !Z.rem_mul_r by lia. intros H.
  pose proof (Z.mod_pos_bound x 65536). pose proof (Z.mod_pos_bound y 65536).
  unfold be32, u16. change (2 ^ 16) with 65536. f_equal; f_equal; lia.
Qed.

(** Inverting the 64-bit register. *)
Lemma be32_not crc : be32 (u64 (Z.lnot crc)) = be32 (Z.lxor crc 0xFFFFFFFF).
Proof.
  apply be32_low. change 0xFFFFFFFF with (Z.ones 32). unfold u64. rewrite <-Z.land_ones by lia.
  apply Z.bits_inj'. intros n Hn. rewrite !Z.land_spec, Z.lxor_spec, Z.lnot_spec by done.
  destruct (Z.ltb_spec n 32).
  - rewrite !Z.ones_spec_low by lia. by destruct (Z.testbit crc n).
  - rewrite (Z.ones_spec_high 32) by lia. by rewrite !andb_false_r.
Qed.

(** C34: the CRC is the reference CRC-32. For a message of at most 65520 bytes in
    memory that can be read fifteen bytes further, [cr_calc_crc] ends and
    writes, most significant byte first, the CRC-32 that shifts the whole
    register once per bit: its table step on the low byte, its 64-bit
    inversion and the byte swap lose nothing. *)
Theorem crc_is_reference fuel handle offset l :
  Forall is_byte l → Z.of_nat (length l) ≤ 65520 →
  take (length l) (drop (Z.to_nat offset) handle) = l → 0 ≤ offset →
  offset + Z.of_nat (length l) + 15 ≤ Z.of_nat (length handle) → Z.of_nat (length handle) < 65536 →
  (length l < fuel)%nat →
  ∃ r, cr_calc_crc fuel handle offset (Z.of_nat (length l)) = Ret (be32 (crc32_of l), r).
Proof.
  intros Hb Hmax Hmem Ho Hlen H16 Hf. unfold cr_calc_crc.
  rewrite (calc_walk lGenCRC32 handle offset l fuel [] l) by (done || apply Z.divide_0_r). res_cbn.
  destruct (crc_fold l Hb) as [-> _]. rewrite le32_swap, be32_not. by eexists.
Qed.

Definition digits : list Z := [49; 50; 51; 52; 53; 54; 55; 56; 57].

Lemma crc_is_reference_witness :
  be32 (crc32_of digits) = [0xCB; 0xF4; 0x39; 0x26] ∧
  ∃ r, cr_calc_crc 10 (digits ++ replicate 15 0) 0 (Z.of_nat (length digits)) = Ret (be32 (crc32_of digits), r).
Proof.
  split; [reflexivity|]. apply crc_is_reference; try (cbn; lia); [by apply byteb_list|reflexivity].
Defined.

(** The last piece is read in full: the message alone is not enough memory. *)
Example crc_reads_behind : cr_calc_crc 10 digits 0 9 = Undef.
Proof. reflexivity. Qed.

(** The LRC is the exclusive or of the bytes. *)
Lemma calc_lrc_ok fuel handle offset l :
  Z.of_nat (length l) ≤ 65520 → take (length l) (drop (Z.to_nat offset) handle) = l → 0 ≤ offset →
  offset + Z.of_nat (length l) + 15 ≤ Z.of_nat (length handle) → Z.of_nat (length handle) < 65536 →
  (length l < fuel)%nat →
  cr_calc_lrc fuel handle offset (Z.of_nat (length l)) = Ret ([foldl (λ b x, u8 (Z.lxor b x)) 0 l], 1).
Proof.
  intros. unfold cr_calc_lrc. rewrite (calc_walk _ handle offset l fuel [] l) by (done || apply Z.divide_0_r). done.
Qed.

(** [cr_xor] with 256 bytes or more never ends: its counter starts over. *)
Lemma cr_xor_hangs len mask buffer :
  256 ≤ len → (256 ≤ length mask)%nat → (256 ≤ length buffer)%nat →
  ∀ fuel, cr_xor fuel mask buffer len = Timeout.
Proof.
  intros Hlen Hm Hb fuel. unfold cr_xor. assert (H0 : is_byte 0) by (unfold is_byte; lia).
  revert Hb H0. generalize 0 as i. revert buffer. induction fuel as [|fuel IH]; intros buffer i Hb Hi; [done|].
  unfold is_byte in Hi. destruct (lookup_lt_is_Some_2 buffer (Z.to_nat i)) as [b Eb]; [lia|].
  destruct (lookup_lt_is_Some_2 mask (Z.to_nat i)) as [m Em]; [lia|].
  erewrite loop_inl; [apply IH with (i := u8 (i + 1)); [|apply u8_range]|].
  2:{ unfold xor_step. rewrite (proj2 (Z.ltb_lt _ _)) by lia. rewrite Eb, Em. res_cbn. done. }
  by rewrite length_insert.
Qed.
