(* ===== verification/Decimal.v ===== *)
(** * Decimal numbers in text

    What [sprintf] writes for [%i] and [%d] and what [atoi] reads, both used by
    the compiler (sem_proto.c) and by the machine (vm_stack.c). *)
From S2P Require Import Prelude.

(** the characters of a string literal *)
Definition chars (s : string) : list Z := (λ c, Z.of_nat (Ascii.nat_of_ascii c)) <$> String.list_ascii_of_string s.

(** ** Printing *)
(** [%i] and [%d]: an [int], the low 32 bits of what is passed; [n] bounds the
    number of digits *)
Definition to_int (z : Z) : Z := (z + 2 ^ 31) mod 2 ^ 32 - 2 ^ 31.

Fixpoint decimal (n : nat) (z : Z) : list Z :=
  match n with
  | O => []
  | S n' => if z <? 10 then [48 + z] else decimal n' (z / 10) ++ [48 + z mod 10]
  end.

Definition print_int (z : Z) : list Z :=
  let z := to_int z in if z <? 0 then 45 :: decimal 10 (- z) else decimal 10 z.

Definition is_digit (c : Z) : Prop := 48 ≤ c < 58.

Definition digits_value (l : list Z) : Z := foldl (λ v c, v * 10 + (c - 48)) 0 l.

Lemma decimal_spec n z : 0 ≤ z < 10 ^ Z.of_nat (S n) →
  Forall is_digit (decimal (S n) z) ∧ digits_value (decimal (S n) z) = z.
Proof.
  revert z. induction n as [|n IH]; intros z Hz.
  - change (10 ^ Z.of_nat 1) with 10 in Hz. cbn. rewrite (proj2 (Z.ltb_lt _ _)) by lia.
    split; [apply Forall_cons; split; [unfold is_digit; lia|by apply Forall_nil]|]. unfold digits_value. cbn. lia.
  - remember (S n) as k. cbn [decimal]. subst k. destruct (Z.ltb_spec z 10) as [Hlt|Hge].
    + split; [apply Forall_cons; split; [unfold is_digit; lia|by apply Forall_nil]|]. unfold digits_value. cbn. lia.
    + pose proof (Z.mod_pos_bound z 10). pose proof (Z.div_mod z 10).
      rewrite (Nat2Z.inj_succ (S n)), Z.pow_succ_r in Hz by lia.
      destruct (IH (z / 10)) as [Hf Hv].
      { split; [apply Z.div_pos; lia|]. apply Z.div_lt_upper_bound; lia. }
      split.
      * apply Forall_app. split; [done|]. apply Forall_cons. split; [unfold is_digit; lia|by apply Forall_nil].
      * unfold digits_value in *. rewrite foldl_app, Hv. cbn. lia.
Qed.

Lemma print_int_spec z : 0 ≤ z < 2 ^ 31 → Forall is_digit (print_int z) ∧ digits_value (print_int z) = z.
Proof.
  intros Hz. assert (Hi : to_int z = z).
  { unfold to_int. rewrite Z.mod_small by lia. lia. }
  unfold print_int. rewrite Hi, (proj2 (Z.ltb_ge _ _)) by lia. apply (decimal_spec 9). lia.
Qed.

Lemma length_decimal n z : (length (decimal n z) ≤ n)%nat.
Proof.
  revert z. induction n as [|n IH]; intros z; [done|]. cbn [decimal]. case_match; [cbn; lia|].
  rewrite length_app. cbn. specialize (IH (z / 10)). lia.
Qed.

Lemma length_print_int_pos z : 0 ≤ z < 2 ^ 31 - 1 → (length (print_int z) ≤ 10)%nat.
Proof.
  intros Hz. unfold print_int, to_int. rewrite Z.mod_small by lia.
  rewrite (proj2 (Z.ltb_ge _ _)) by lia. apply length_decimal.
Qed.

(** the number at the end of a name is determined by the name *)
Lemma digits_suffix p p' d d' :
  Forall (λ c, ¬ is_digit c) p → Forall (λ c, ¬ is_digit c) p' → Forall is_digit d → Forall is_digit d' →
  p ++ d = p' ++ d' → d = d'.
Proof.
  intros Hp. revert p'. induction Hp as [|c p Hc _ IH]; intros [|c' p'] Hp' Hd Hd' E; cbn in E.
  - done.
  - subst d. apply Forall_cons in Hd as [Hc' _]. by apply Forall_cons in Hp' as [Hn _].
  - subst d'. by apply Forall_cons in Hd' as [Hc' _].
  - injection E as _ E. apply Forall_cons in Hp' as [_ Hp']. by apply (IH p').
Qed.

(** ** Reading *)
Definition digitb (c : Z) : bool := (48 <=? c) && (c <? 58).
Definition spaceb (c : Z) : bool := (c =? 32) || ((9 <=? c) && (c <=? 13)).

(** the digits at the start *)
Fixpoint take_digits (l : list Z) : list Z :=
  match l with
  | c :: l' => if digitb c then c :: take_digits l' else []
  | [] => []
  end.

Fixpoint skip_spaces (l : list Z) : list Z :=
  match l with
  | c :: l' => if spaceb c then skip_spaces l' else l
  | [] => []
  end.

Definition in_int (z : Z) : bool := (- 2 ^ 31 <=? z) && (z <? 2 ^ 31).

(** a result of [int] arithmetic: signed overflow is undefined *)
Definition int_of (z : Z) : res Z := if in_int z then Ret z else Undef.

(** [atoi] of a C string; a value outside [int] is undefined *)
Definition atoi (l : list Z) : res Z :=
  match skip_spaces l with
  | c :: l' =>
      if c =? 45 then int_of (- digits_value (take_digits l'))
      else if c =? 43 then int_of (digits_value (take_digits l'))
      else int_of (digits_value (take_digits (c :: l')))
  | [] => Ret 0
  end.

Lemma in_int_true z : in_int z = true ↔ - 2 ^ 31 ≤ z < 2 ^ 31.
Proof. unfold in_int. rewrite andb_true_iff, Z.leb_le, Z.ltb_lt. lia. Qed.

Lemma int_of_ret z : - 2 ^ 31 ≤ z < 2 ^ 31 → int_of z = Ret z.
Proof. intros H. unfold int_of. by rewrite (proj2 (in_int_true z)). Qed.

Lemma to_int_id z : - 2 ^ 31 ≤ z < 2 ^ 31 → to_int z = z.
Proof. intros H. unfold to_int. rewrite Z.mod_small by lia. lia. Qed.

Lemma digitb_true c : digitb c = true ↔ is_digit c.
Proof. unfold digitb, is_digit. rewrite andb_true_iff, Z.leb_le, Z.ltb_lt. lia. Qed.

Lemma take_digits_all l : Forall is_digit l → take_digits l = l.
Proof. induction 1 as [|c l Hc _ IH]; [done|]. cbn. by rewrite (proj2 (digitb_true c)), IH. Qed.

(** the digits of a number that is not negative, and what is before them *)
Lemma print_int_sign z :
  - 2 ^ 31 ≤ z < 2 ^ 31 →
  ∃ d, print_int z = (if z <? 0 then [45] else []) ++ d ∧ Forall is_digit d ∧ digits_value d = Z.abs z ∧
    (0 < length d ≤ 10)%nat.
Proof.
  intros Hz. unfold print_int. rewrite to_int_id by done. exists (decimal 10 (Z.abs z)).
  destruct (decimal_spec 9 (Z.abs z)) as [Hd Hv]; [lia|]. split; [|split; [done|split; [done|]]].
  - destruct (Z.ltb_spec z 0); [rewrite Z.abs_neq by lia|rewrite Z.abs_eq by lia]; done.
  - split; [|apply length_decimal]. change (decimal 10 (Z.abs z)) with (if Z.abs z <? 10 then [48 + Z.abs z] else decimal 9 (Z.abs z / 10) ++ [48 + Z.abs z mod 10]).
    case_match; [cbn; lia|]. rewrite length_app. cbn. lia.
Qed.

(** reading what was printed *)
Lemma atoi_print z : - 2 ^ 31 ≤ z < 2 ^ 31 → atoi (print_int z) = Ret z.
Proof.
  intros Hz. destruct (print_int_sign z Hz) as (d & -> & Hd & Hv & Hl). destruct d as [|c d]; [cbn in Hl; lia|].
  apply Forall_cons in Hd as Hc. destruct Hc as [Hc _]. unfold is_digit in Hc.
  assert (Hs : spaceb c = false) by (unfold spaceb; destruct (Z.eqb_spec c 32), (Z.leb_spec 9 c), (Z.leb_spec c 13); cbn; lia).
  unfold atoi. destruct (Z.ltb_spec z 0) as [Hn|Hn]; cbn [app skip_spaces].
  - change (spaceb 45) with false. cbv iota. change (45 =? 45) with true. cbv iota.
    rewrite take_digits_all, Hv by done. rewrite int_of_ret; [f_equal; lia|lia].
  - rewrite Hs. rewrite (proj2 (Z.eqb_neq c 45)), (proj2 (Z.eqb_neq c 43)) by lia.
    rewrite take_digits_all, Hv by done. rewrite int_of_ret; [f_equal; lia|lia].
Qed.

Lemma length_print_int z : - 2 ^ 31 ≤ z < 2 ^ 31 → (0 < length (print_int z) ≤ 11)%nat.
Proof.
  intros Hz. destruct (print_int_sign z Hz) as (d & -> & _ & _ & Hl). rewrite length_app. case_match; cbn; lia.
Qed.
