(* ===== verification/Bytes.v ===== *)
(** * Memory of the library functions

    The functions of vm_framework.c work on bytes of objects and of buffers from
    [malloc]: a list of bytes with its bounds, reads and writes behind which are
    undefined. *)
From S2P Require Import Prelude.

(** ** Single bytes *)
Definition get (b : list Z) (i : nat) : res Z := from_option_ub (b !! i).

Definition put (i : nat) (v : Z) (b : list Z) : res (list Z) :=
  if bool_decide (i < length b)%nat then Ret (<[i := u8 v]> b) else Undef.

Lemma get_app (l1 l2 : list Z) x : get (l1 ++ x :: l2) (length l1) = Ret x.
Proof. unfold get. by rewrite list_lookup_middle. Qed.

(** a buffer whose first bytes are written: one more *)
Lemma put_next (w r : list Z) v : r ≠ [] → is_byte v → put (length w) v (w ++ r) = Ret ((w ++ [v]) ++ drop 1 r).
Proof.
  intros Hr Hv. destruct r as [|x r]; [done|]. unfold put. rewrite length_app. cbn [length drop].
  rewrite bool_decide_eq_true_2 by lia. rewrite u8_id by done. rewrite insert_app_r_alt, Nat.sub_diag by lia.
  cbn. by rewrite <-app_assoc.
Qed.

(** ** Ranges *)

(** the bytes [memcpy] reads; and what it writes: the source is read first, as
    [memmove] does, which [vm_memcpy] is for the overlapping calls of the code *)
Definition slice (b : list Z) (i n : nat) : res (list Z) :=
  if bool_decide (i + n ≤ length b)%nat then Ret (take n (drop i b)) else Undef.

Definition store (i : nat) (l b : list Z) : res (list Z) :=
  if bool_decide (i + length l ≤ length b)%nat then Ret (take i b ++ l ++ drop (i + length l) b) else Undef.

Lemma slice_app (a l c : list Z) : slice (a ++ l ++ c) (length a) (length l) = Ret l.
Proof.
  unfold slice. rewrite !length_app, bool_decide_eq_true_2 by lia. by rewrite drop_app_length, take_app_length.
Qed.

Lemma slice_all (l c : list Z) : slice (l ++ c) 0 (length l) = Ret l.
Proof. apply (slice_app [] l c). Qed.

Lemma store_app (a l r : list Z) : (length l ≤ length r)%nat → store (length a) l (a ++ r) = Ret ((a ++ l) ++ drop (length l) r).
Proof.
  intros H. unfold store. rewrite length_app, bool_decide_eq_true_2 by lia.
  rewrite take_app_length, <-drop_drop, drop_app_length. by rewrite app_assoc.
Qed.

(** bytes written into the middle *)
Lemma store_mid (a x l r : list Z) : length x = length l → store (length a) l (a ++ x ++ r) = Ret (a ++ l ++ r).
Proof.
  intros H. rewrite store_app by (rewrite length_app; lia). rewrite <-H, drop_app_length. by rewrite <-app_assoc.
Qed.

(** a text as an argument list of the machine: an exception, a new value *)
Definition outcome : Type := option Z * option (list Z).
Definition argument (args : list (list Z)) (i : nat) : res (list Z) := from_option_ub (args !! i).

(** [sizeof(vm_object)] counts eight bytes from [bytes] on: so many more than
    [len] can be read and written behind an object *)
Definition SLACK : nat := 8.

(** ** Memory for samples *)
Definition some_memory (n : nat) : list Z := replicate n 205.

Lemma some_memory_length n : length (some_memory n) = n.
Proof. apply length_replicate. Qed.
