(* ===== verification/Codec.v ===== *)
(** * Text encodings of the library (StackLib/StackVM/vm_framework.c)

    The converter functions [to_hex], [from_hex], [to_dec], [to_b64] and
    [from_b64]. Each takes the text of its argument and gives a new text. *)
From S2P Require Import Prelude Decimal Bytes.

Section codec.

(** the contents of fresh memory, and of the bytes behind an object *)
Context (malloc : nat → list Z) (slack : list Z).

(** ** Hexadecimal text *)
Definition bin2hexchar : list Z := [48; 49; 50; 51; 52; 53; 54; 55; 56; 57; 65; 66; 67; 68; 69; 70].

Definition hex_byte (bytes : list Z) (j : nat) (hexstring : list Z) : res (list Z) :=
  b ← get bytes j;
  hi ← get bin2hexchar (Z.to_nat (Z.shiftr b 4));
  h ← put (2 * j) hi hexstring;
  lo ← get bin2hexchar (Z.to_nat (Z.land b 0x0F));
  put (2 * j + 1) lo h.

Definition vm_bin2hex (bytes : list Z) (len : nat) (hexstring : list Z) : res (list Z * nat) :=
  h ← foldM (hex_byte bytes) (seq 0 len) hexstring;
  h' ← put (2 * len) 0 h; Ret (h', (2 * len)%nat).

Definition va_bin2hex (args : list (list Z)) : res outcome :=
  param ← argument args 0;
  r ← vm_bin2hex param (length param) (malloc (2 * length param + SLACK));
  Ret (None, Some (take (2 * length param) r.1)).

Definition tk_hex2byte (hexchar : Z) : Z :=
  if (97 <=? hexchar) && (hexchar <=? 102) then u8 (hexchar - 97 + 10)
  else if (65 <=? hexchar) && (hexchar <=? 70) then u8 (hexchar - 65 + 10)
  else if (48 <=? hexchar) && (hexchar <=? 57) then u8 (hexchar - 48)
  else 0.

(** [i], [c] (set by the digit before), [bytes] and [len] *)
Record hex_state := mkHex { hx_i : nat; hx_c : option Z; hx_bytes : list Z; hx_len : nat }.

Definition hex_step (hexstring : list Z) (hexlen : nat) (s : hex_state) : res (hex_state + hex_state) :=
  let '(mkHex i c bytes len) := s in
  x ← get hexstring i;
  if negb (x =? 0) && bool_decide (i < hexlen)%nat then
    if Nat.odd i then
      c0 ← from_option_ub c;
      let c1 := Z.lor (u8 (Z.shiftl c0 4)) (tk_hex2byte x) in
      b ← put len c1 bytes;
      Ret (inl (mkHex (S i) (Some c1) b (S len)))
    else Ret (inl (mkHex (S i) (Some (tk_hex2byte x)) bytes len))
  else Ret (inr s).

Definition tk_hex2bin (fuel : nat) (hexstring bytes : list Z) (hexlen : nat) : res (list Z * nat) :=
  s ← loop fuel (hex_step hexstring hexlen) (mkHex 0 None bytes 0);
  Ret (hx_bytes s, hx_len s).

Definition va_hex2bin (fuel : nat) (args : list (list Z)) : res outcome :=
  param ← argument args 0;
  r ← tk_hex2bin fuel (param ++ slack) (malloc (length param / 2 + 2)) (length param);
  Ret (None, Some (take r.2 r.1)).

(** ** Two bytes as a number *)
Definition va_bin2dec (args : list (list Z)) : res outcome :=
  param ← argument args 0;
  if bool_decide (length param ≤ 2)%nat then
    d ← foldM (λ k d, x ← get param (length param - 1 - k); Ret (d * 0x100 + x)) (seq 0 (length param)) 0;
    Ret (None, Some (print_int d))
  else Ret (None, None).

(** ** Base 64 *)
Definition base64_chars : list Z :=
  ((λ k, 65 + Z.of_nat k) <$> seq 0 26) ++ ((λ k, 97 + Z.of_nat k) <$> seq 0 26)
    ++ ((λ k, 48 + Z.of_nat k) <$> seq 0 10) ++ [43; 47; 0].

(** [char_array_4] of [char_array_3] *)
Definition char_array_4 (a b c : Z) : list Z :=
  [Z.shiftr (Z.land a 0xfc) 2;
   u8 (Z.shiftl (Z.land a 0x03) 4 + Z.shiftr (Z.land b 0xf0) 4);
   u8 (Z.shiftl (Z.land b 0x0f) 2 + Z.shiftr (Z.land c 0xc0) 6);
   Z.land c 0x3f].

Record enc_state := mkEnc { in_len : nat; next : nat; fill : nat; array_3 : list Z; bbuf : list Z; out_len : nat }.

(** [bbuf[out_len++] = c], and with a character of the table *)
Definition append (c : Z) (o : list Z * nat) : res (list Z * nat) := b ← put o.2 c o.1; Ret (b, S o.2).
Definition append_six (v : Z) (o : list Z * nat) : res (list Z * nat) :=
  c ← get base64_chars (Z.to_nat v); append c o.

(** the groups of three: [while (in_len--)] *)
Definition enc_step (bytes : list Z) (s : enc_state) : res (enc_state + enc_state) :=
  if bool_decide (in_len s = 0%nat) then Ret (inr s)
  else
    x ← get bytes (next s);
    a3 ← put (fill s) x (array_3 s);
    if bool_decide (S (fill s) = 3%nat) then
      a ← get a3 0; b ← get a3 1; c ← get a3 2;
      o ← foldM append_six (char_array_4 a b c) (bbuf s, out_len s);
      Ret (inl (mkEnc (in_len s - 1) (S (next s)) 0 a3 o.1 o.2))
    else Ret (inl (mkEnc (in_len s - 1) (S (next s)) (S (fill s)) a3 (bbuf s) (out_len s))).

(** one or two bytes left: zeros behind them, [i + 1] characters, and [=] *)
Definition enc_rest (s : enc_state) : res (list Z * nat) :=
  let i := fill s in
  if bool_decide (i = 0%nat) then Ret (bbuf s, out_len s)
  else
    a3 ← foldM (λ j l, put j 0 l) (seq i (3 - i)) (array_3 s);
    a ← get a3 0; b ← get a3 1; c ← get a3 2;
    o ← foldM append_six (take (i + 1) (char_array_4 a b c)) (bbuf s, out_len s);
    foldM append (replicate (3 - i) 61) o.

Definition va_b64_encode (fuel : nat) (args : list (list Z)) : res outcome :=
  param ← argument args 0;
  let n := length param in
  s ← loop fuel (enc_step param) (mkEnc n 0 0 (malloc 3) (malloc ((n + 4) * 4 / 3)) 0);
  o ← enc_rest s;
  Ret (None, Some (take o.2 o.1)).

Definition va_pr2six (ch : Z) : Z :=
  if (65 <=? ch) && (ch <=? 90) then u8 (ch - 65)
  else if (97 <=? ch) && (ch <=? 122) then u8 (ch - 97 + 26)
  else if (48 <=? ch) && (ch <=? 57) then u8 (ch - 48 + 52)
  else if ch =? 43 then 62
  else if ch =? 61 then 64
  else if ch =? 47 then 63
  else 64.

(** the three bytes of four characters *)
Definition dec_1 (p q : Z) : Z := u8 (Z.lor (Z.shiftl (va_pr2six p) 2) (Z.shiftr (va_pr2six q) 4)).
Definition dec_2 (q r : Z) : Z := u8 (Z.lor (Z.shiftl (va_pr2six q) 4) (Z.shiftr (va_pr2six r) 2)).
Definition dec_3 (r s : Z) : Z := u8 (Z.lor (Z.shiftl (va_pr2six r) 6) (va_pr2six s)).

(** [nprbytes], a [uint8]; [bufin]; the bytes written *)
Record dec_state := mkDec { nprbytes : Z; bufin : nat; dec_buf : list Z; bufout : nat }.

Definition dec_step (t : list Z) (s : dec_state) : res (dec_state + dec_state) :=
  if 4 <? nprbytes s then
    p ← get t (bufin s); q ← get t (bufin s + 1); r ← get t (bufin s + 2); x ← get t (bufin s + 3);
    o ← foldM append [dec_1 p q; dec_2 q r; dec_3 r x] (dec_buf s, bufout s);
    Ret (inl (mkDec (u8 (nprbytes s - 4)) (bufin s + 4) o.1 o.2))
  else Ret (inr s).

Definition dec_rest (t : list Z) (s : dec_state) : res (list Z * nat) :=
  let n := nprbytes s in
  o1 ← (if 1 <? n then p ← get t (bufin s); q ← get t (bufin s + 1); append (dec_1 p q) (dec_buf s, bufout s) else Ret (dec_buf s, bufout s));
  o2 ← (if 2 <? n then q ← get t (bufin s + 1); r ← get t (bufin s + 2); append (dec_2 q r) o1 else Ret o1);
  o3 ← (if 3 <? n then r ← get t (bufin s + 2); x ← get t (bufin s + 3); append (dec_3 r x) o2 else Ret o2);
  append 0 o3.

Definition va_b64_decode (fuel : nat) (args : list (list Z)) : res outcome :=
  param ← argument args 0;
  let n := u8 (Z.of_nat (length param)) in
  let nbytesdecoded := (n + 3) / 4 * 3 in
  s ← loop fuel (dec_step (param ++ slack)) (mkDec n 0 (malloc (Z.to_nat (nbytesdecoded + 5))) 0);
  o ← dec_rest (param ++ slack) s;
  Ret (None, Some (take (Z.to_nat (nbytesdecoded - Z.land (4 - nprbytes s) 3)) o.1)).

End codec.

(** ** Reference encodings *)
Definition hex_digit (v : Z) : Z := if v <? 10 then 48 + v else 55 + v.
Definition hex_text (l : list Z) : list Z := concat ((λ b, [hex_digit (b / 16); hex_digit (b mod 16)]) <$> l).

(** the pairs of digits of a text, an odd digit left over is dropped *)
Fixpoint hex_pairs (t : list Z) : list Z :=
  match t with
  | h :: l :: t' => tk_hex2byte h * 16 + tk_hex2byte l :: hex_pairs t'
  | _ => []
  end.

(** the characters before a NUL byte *)
Fixpoint before_nul (t : list Z) : list Z :=
  match t with [] => [] | c :: t' => if c =? 0 then [] else c :: before_nul t' end.

Definition b64_digit (v : Z) : Z :=
  if v <? 26 then 65 + v else if v <? 52 then 71 + v else if v <? 62 then v - 4 else if v =? 62 then 43 else 47.

(** the standard: three bytes are a number of 24 bits, four digits base 64;
    a rest is filled with zeros and its missing digits are [=] *)
Definition sextets (n : Z) : list Z :=
  b64_digit <$> [n / 2 ^ 18; n / 2 ^ 12 mod 64; n / 2 ^ 6 mod 64; n mod 64].
Fixpoint base64 (l : list Z) : list Z :=
  match l with
  | a :: b :: c :: l' => sextets (a * 2 ^ 16 + b * 2 ^ 8 + c) ++ base64 l'
  | [a; b] => take 3 (sextets (a * 2 ^ 16 + b * 2 ^ 8)) ++ [61]
  | [a] => take 2 (sextets (a * 2 ^ 16)) ++ [61; 61]
  | [] => []
  end.

(** what decoding makes of a text, four characters at a time *)
Fixpoint unbase64 (t : list Z) : list Z :=
  match t with
  | p :: q :: r :: s :: t' => [dec_1 p q; dec_2 q r; dec_3 r s] ++ unbase64 t'
  | [p; q; r] => [dec_1 p q; dec_2 q r]
  | [p; q] => [dec_1 p q]
  | _ => []
  end.

(** ** Facts by computation on bytes and sextets *)
Lemma below (n : nat) (P : Z → bool) :
  forallb P (Z.of_nat <$> seq 0 n) = true → ∀ b, 0 ≤ b < Z.of_nat n → P b = true.
Proof.
  intros H b Hb. rewrite forallb_forall in H. apply H. rewrite <-list_elem_of_In. apply list_elem_of_fmap.
  exists (Z.to_nat b). split; [lia|]. apply elem_of_seq. lia.
Qed.

Definition hex_check (b : Z) : bool :=
  bool_decide (bin2hexchar !! Z.to_nat (Z.shiftr b 4) = Some (hex_digit (b / 16)))
    && bool_decide (bin2hexchar !! Z.to_nat (Z.land b 0x0F) = Some (hex_digit (b mod 16)))
    && (0 <? hex_digit (b / 16)) && (hex_digit (b / 16) <? 256) && (0 <? hex_digit (b mod 16)) && (hex_digit (b mod 16) <? 256)
    && (tk_hex2byte (hex_digit (b / 16)) * 16 + tk_hex2byte (hex_digit (b mod 16)) =? b).

Lemma hex_facts b : is_byte b →
  get bin2hexchar (Z.to_nat (Z.shiftr b 4)) = Ret (hex_digit (b / 16)) ∧
  get bin2hexchar (Z.to_nat (Z.land b 0x0F)) = Ret (hex_digit (b mod 16)) ∧
  0 < hex_digit (b / 16) < 256 ∧ 0 < hex_digit (b mod 16) < 256 ∧
  tk_hex2byte (hex_digit (b / 16)) * 16 + tk_hex2byte (hex_digit (b mod 16)) = b.
Proof.
  intros Hb. assert (H : hex_check b = true) by (apply (below 256); [vm_compute; reflexivity|exact Hb]).
  unfold hex_check in H. rewrite !andb_true_iff, !bool_decide_eq_true, !Z.ltb_lt, Z.eqb_eq in H.
  destruct H as [[[[[[H1 H2] H3] H4] H5] H6] H7]. unfold get. rewrite H1, H2. done.
Qed.

Lemma hex_digit_range c : is_byte (tk_hex2byte c) ∧ tk_hex2byte c < 16.
Proof.
  unfold tk_hex2byte, is_byte. destruct (Z.leb_spec 97 c), (Z.leb_spec c 102); cbn [andb]; [rewrite u8_id; unfold is_byte; lia|..];
    destruct (Z.leb_spec 65 c), (Z.leb_spec c 70); cbn [andb]; try (rewrite u8_id; unfold is_byte; lia);
    destruct (Z.leb_spec 48 c), (Z.leb_spec c 57); cbn [andb]; try (rewrite u8_id; unfold is_byte; lia); lia.
Qed.

Definition b64_check (v : Z) : bool :=
  bool_decide (base64_chars !! Z.to_nat v = Some (b64_digit v)) && (0 <=? b64_digit v) && (b64_digit v <? 256)
    && (va_pr2six (b64_digit v) =? v).

Lemma b64_facts v : 0 ≤ v < 64 → get base64_chars (Z.to_nat v) = Ret (b64_digit v) ∧ is_byte (b64_digit v) ∧ va_pr2six (b64_digit v) = v.
Proof.
  intros Hv. assert (H : b64_check v = true) by (apply (below 64); [vm_compute; reflexivity|exact Hv]).
  unfold b64_check in H. rewrite !andb_true_iff, !bool_decide_eq_true, Z.leb_le, Z.ltb_lt, Z.eqb_eq in H.
  destruct H as [[[H1 H2] H3] H4]. unfold get, is_byte. rewrite H1. done.
Qed.

(** the four values of the code are the digits of the number *)
Lemma char_array_4_sextets a b c : is_byte a → is_byte b → is_byte c →
  let n := a * 2 ^ 16 + b * 2 ^ 8 + c in
  char_array_4 a b c = [n / 2 ^ 18; n / 2 ^ 12 mod 64; n / 2 ^ 6 mod 64; n mod 64] ∧ Forall (λ v, 0 ≤ v < 64) (char_array_4 a b c).
Proof.
  intros Ha Hb Hc n. unfold is_byte in *.
  assert (Hhi : ∀ x, 0 ≤ x < 256 → Z.shiftr (Z.land x 0xfc) 2 = x / 4 ∧ Z.shiftr (Z.land x 0xf0) 4 = x / 16 ∧ Z.shiftr (Z.land x 0xc0) 6 = x / 64).
  { intros x Hx. assert (H : (Z.shiftr (Z.land x 0xfc) 2 =? x / 4) && (Z.shiftr (Z.land x 0xf0) 4 =? x / 16) && (Z.shiftr (Z.land x 0xc0) 6 =? x / 64) = true)
      by (apply (below 256 (λ x, (Z.shiftr (Z.land x 0xfc) 2 =? x / 4) && (Z.shiftr (Z.land x 0xf0) 4 =? x / 16) && (Z.shiftr (Z.land x 0xc0) 6 =? x / 64)));
          [vm_compute; reflexivity|exact Hx]).
    rewrite !andb_true_iff, !Z.eqb_eq in H. tauto. }
  assert (E : char_array_4 a b c = [a / 4; (a mod 4) * 16 + b / 16; (b mod 16) * 4 + c / 64; c mod 64]).
  { unfold char_array_4. rewrite (proj1 (Hhi a Ha)), (proj1 (proj2 (Hhi b Hb))), (proj2 (proj2 (Hhi c Hc))).
    change 0x03 with (Z.ones 2). change 0x0f with (Z.ones 4). change 0x3f with (Z.ones 6). rewrite !Z.land_ones, !Z.shiftl_mul_pow2 by lia.
    change (2 ^ 2) with 4. change (2 ^ 4) with 16. change (2 ^ 6) with 64.
    rewrite !u8_id by (unfold is_byte; Z.div_mod_to_equations; lia). done. }
  rewrite E. subst n. split.
  - repeat (f_equal; [Z.div_mod_to_equations; lia|]). f_equal. Z.div_mod_to_equations; lia.
  - repeat (apply Forall_cons; split; [Z.div_mod_to_equations; lia|]). by apply Forall_nil.
Qed.

(** ** Decoding undoes encoding, on the references *)
Lemma list_ind3 (P : list Z → Prop) :
  P [] → (∀ a, P [a]) → (∀ a b, P [a; b]) → (∀ a b c l, P l → P (a :: b :: c :: l)) → ∀ l, P l.
Proof.
  intros H0 H1 H2 H3. fix IH 1. intros [|a [|b [|c l]]]; [exact H0|apply H1|apply H2|apply H3, IH].
Qed.

Definition group (p q r s : Z) : list Z := [dec_1 p q; dec_2 q r; dec_3 r s].

Lemma dec_digits v0 v1 v2 v3 : 0 ≤ v0 < 64 → 0 ≤ v1 < 64 → 0 ≤ v2 < 64 → 0 ≤ v3 < 64 →
  group (b64_digit v0) (b64_digit v1) (b64_digit v2) (b64_digit v3) =
  [v0 * 4 + v1 / 16; (v1 mod 16) * 16 + v2 / 4; (v2 mod 4) * 64 + v3].
Proof.
  intros H0 H1 H2 H3. unfold group, dec_1, dec_2, dec_3.
  rewrite (proj2 (proj2 (b64_facts v0 H0))), (proj2 (proj2 (b64_facts v1 H1))), (proj2 (proj2 (b64_facts v2 H2))), (proj2 (proj2 (b64_facts v3 H3))).
  rewrite !Z.shiftr_div_pow2 by lia. change (2 ^ 4) with 16. change (2 ^ 2) with 4.
  rewrite !(Z.lor_comm (Z.shiftl _ _)), !lor_shiftl_add by (try lia; change (2 ^ 2) with 4; change (2 ^ 4) with 16; change (2 ^ 6) with 64; Z.div_mod_to_equations; lia).
  rewrite !Z.shiftl_mul_pow2 by lia. unfold u8. change (2 ^ 2) with 4. change (2 ^ 4) with 16. change (2 ^ 6) with 64. change (2 ^ 8) with 256.
  repeat (f_equal; [Z.div_mod_to_equations; lia|]). f_equal. Z.div_mod_to_equations; lia.
Qed.

(** a padding character counts as 64 *)
Lemma dec_padding x : 0 ≤ x < 4 → dec_2 (b64_digit (x * 16)) 61 = 16.
Proof.
  intros Hx. unfold dec_2. rewrite (proj2 (proj2 (b64_facts (x * 16) ltac:(lia)))).
  assert (x = 0 ∨ x = 1 ∨ x = 2 ∨ x = 3) as [-> | [-> | [-> | ->]]] by lia; reflexivity.
Qed.

Lemma dec_padding_last x : 0 ≤ x < 16 → dec_3 (b64_digit (x * 4)) 61 = 64.
Proof.
  intros Hx. assert (H : (dec_3 (b64_digit (x * 4)) 61 =? 64) = true).
  { apply (below 16 (λ x, dec_3 (b64_digit (x * 4)) 61 =? 64)); [vm_compute; reflexivity|lia]. }
  by apply Z.eqb_eq.
Qed.

Definition padding (l : list Z) : list Z :=
  match (length l mod 3)%nat with 1%nat => [16; 64] | 2%nat => [64] | _ => [] end.

Lemma padding_3 a b c l : padding (a :: b :: c :: l) = padding l.
Proof. unfold padding. cbn [length]. replace (S (S (S (length l)))) with (length l + 1 * 3)%nat by lia. by rewrite Nat.Div0.mod_add. Qed.

Lemma unbase64_base64 l : Forall is_byte l → unbase64 (base64 l) = l ++ padding l.
Proof.
  revert l. apply (list_ind3 (λ l, Forall is_byte l → unbase64 (base64 l) = l ++ padding l)); [done|intros a Hl|intros a b Hl|intros a b c l IH Hl].
  - apply Forall_cons in Hl as [Ha _]. unfold is_byte in Ha. change (unbase64 (base64 [a])) with
      (group (b64_digit (a * 2 ^ 16 / 2 ^ 18)) (b64_digit (a * 2 ^ 16 / 2 ^ 12 mod 64)) 61 61 ++ []).
    rewrite app_nil_r. replace (a * 2 ^ 16 / 2 ^ 18) with (a / 4) by (Z.div_mod_to_equations; lia).
    replace (a * 2 ^ 16 / 2 ^ 12 mod 64) with ((a mod 4) * 16) by (Z.div_mod_to_equations; lia).
    assert (H1 : dec_1 (b64_digit (a / 4)) (b64_digit ((a mod 4) * 16)) = a).
    { assert (E := dec_digits (a / 4) ((a mod 4) * 16) 0 0 ltac:(Z.div_mod_to_equations; lia) ltac:(Z.div_mod_to_equations; lia) ltac:(lia) ltac:(lia)).
      apply (f_equal (λ l, nth 0 l 0)) in E. unfold group in E. cbn [nth] in E. rewrite E. Z.div_mod_to_equations; lia. }
    unfold group. rewrite H1, dec_padding by (Z.div_mod_to_equations; lia). done.
  - apply Forall_cons in Hl as [Ha Hl]. apply Forall_cons in Hl as [Hb _]. unfold is_byte in *. set (n := a * 2 ^ 16 + b * 2 ^ 8).
    change (unbase64 (base64 [a; b])) with
      (group (b64_digit (n / 2 ^ 18)) (b64_digit (n / 2 ^ 12 mod 64)) (b64_digit (n / 2 ^ 6 mod 64)) 61 ++ []). rewrite app_nil_r.
    replace (n / 2 ^ 6 mod 64) with ((b mod 16) * 4) by (subst n; Z.div_mod_to_equations; lia).
    assert (E := dec_digits (n / 2 ^ 18) (n / 2 ^ 12 mod 64) ((b mod 16) * 4) 0 ltac:(subst n; Z.div_mod_to_equations; lia) ltac:(Z.div_mod_to_equations; lia)
      ltac:(Z.div_mod_to_equations; lia) ltac:(lia)). unfold group in *.
    assert (E1 := f_equal (λ l, nth 0 l 0) E). apply (f_equal (λ l, nth 1 l 0)) in E. cbn [nth] in E, E1. rewrite E1, E, dec_padding_last by (Z.div_mod_to_equations; lia).
    change ([a; b] ++ padding [a; b]) with [a; b; 64]. f_equal; [subst n; Z.div_mod_to_equations; lia|]. f_equal. subst n; Z.div_mod_to_equations; lia.
  - apply Forall_cons in Hl as [Ha Hl]. apply Forall_cons in Hl as [Hb Hl]. apply Forall_cons in Hl as [Hc Hl]. unfold is_byte in *.
    rewrite padding_3. set (n := a * 2 ^ 16 + b * 2 ^ 8 + c). change (unbase64 (base64 (a :: b :: c :: l))) with
      (group (b64_digit (n / 2 ^ 18)) (b64_digit (n / 2 ^ 12 mod 64)) (b64_digit (n / 2 ^ 6 mod 64)) (b64_digit (n mod 64)) ++ unbase64 (base64 l)).
    rewrite IH by done. rewrite dec_digits by (subst n; Z.div_mod_to_equations; lia). cbn [app].
    f_equal; [subst n; Z.div_mod_to_equations; lia|]. f_equal; [subst n; Z.div_mod_to_equations; lia|]. f_equal. subst n; Z.div_mod_to_equations; lia.
Qed.

(** ** The code computes the references *)
Lemma length_hex_text l : length (hex_text l) = (2 * length l)%nat.
Proof. unfold hex_text. induction l as [|b l IH]; [done|]. cbn in *. lia. Qed.

Lemma hex_text_app l1 l2 : hex_text (l1 ++ l2) = hex_text l1 ++ hex_text l2.
Proof. unfold hex_text. by rewrite fmap_app, concat_app. Qed.

Lemma hex_text_range l : Forall is_byte l → Forall (λ c, 0 < c < 256) (hex_text l).
Proof.
  induction 1 as [|b l Hb _ IH]; [by apply Forall_nil|]. destruct (hex_facts b Hb) as (_ & _ & H1 & H2 & _).
  cbn. by repeat (apply Forall_cons; split).
Qed.

Lemma hex_pairs_text l : Forall is_byte l → hex_pairs (hex_text l) = l.
Proof.
  induction 1 as [|b l Hb _ IH]; [done|]. destruct (hex_facts b Hb) as (_ & _ & _ & _ & E).
  change (hex_pairs (hex_text (b :: l))) with (tk_hex2byte (hex_digit (b / 16)) * 16 + tk_hex2byte (hex_digit (b mod 16)) :: hex_pairs (hex_text l)).
  by rewrite E, IH.
Qed.

Lemma before_nul_id t : Forall (λ c, 0 < c < 256) t → before_nul t = t.
Proof. induction 1 as [|c t Hc _ IH]; [done|]. cbn. rewrite (proj2 (Z.eqb_neq _ _)) by lia. by rewrite IH. Qed.

Section proofs.
Context (malloc : nat → list Z) (Hmalloc : ∀ n, length (malloc n) = n).

Lemma hex_bytes l : ∀ done r,
  Forall is_byte (done ++ l) → (2 * length l < length r)%nat →
  foldM (hex_byte (done ++ l)) (seq (length done) (length l)) (hex_text done ++ r) =
    Ret (hex_text (done ++ l) ++ drop (2 * length l) r).
Proof.
  induction l as [|b l IH]; intros w r Hb Hr; [by rewrite app_nil_r|].
  assert (Hbb : is_byte b) by (apply Forall_app in Hb as [_ Hb]; by apply Forall_cons in Hb as [? _]).
  destruct (hex_facts b Hbb) as (Eh & El & Rh & Rl & _). cbn [length] in Hr.
  destruct r as [|r0 [|r1 r]]; [cbn in Hr; lia..|]. cbn [length seq foldM].
  assert (E : hex_byte (w ++ b :: l) (length w) (hex_text w ++ r0 :: r1 :: r) = Ret (hex_text (w ++ [b]) ++ r)).
  { unfold hex_byte. rewrite get_app. res_cbn. rewrite Eh. res_cbn. rewrite <-(length_hex_text w), put_next by (done || unfold is_byte; lia). res_cbn.
    rewrite El. res_cbn. replace (length (hex_text w) + 1)%nat with (length (hex_text w ++ [hex_digit (b / 16)])) by (rewrite length_app; done).
    rewrite put_next by (done || unfold is_byte; lia). f_equal. rewrite hex_text_app, <-!app_assoc. done. }
  rewrite E. res_cbn. specialize (IH (w ++ [b]) r). rewrite <-app_assoc, length_app in IH. cbn [app length] in IH. rewrite Nat.add_1_r in IH.
  rewrite IH by (done || cbn in Hr; lia). f_equal. f_equal. replace (2 * S (length l))%nat with (S (S (2 * length l))) by lia. done.
Qed.

Lemma va_bin2hex_spec l rest : Forall is_byte l → va_bin2hex malloc (l :: rest) = Ret (None, Some (hex_text l)).
Proof.
  intros Hb. unfold va_bin2hex. cbn [argument lookup list_lookup from_option_ub mbind res_bind]. unfold vm_bin2hex.
  pose proof (hex_bytes l [] (malloc (2 * length l + SLACK)) Hb) as E. cbn [app length hex_text fmap list_fmap concat] in E.
  rewrite E by (rewrite Hmalloc; unfold SLACK; lia). res_cbn.
  rewrite <-(length_hex_text l), put_next; [|intros H; apply (f_equal length) in H; rewrite length_drop, Hmalloc, length_hex_text in H; unfold SLACK in H; cbn in H; lia|unfold is_byte; lia].
  res_cbn. cbn [fst snd]. by rewrite <-app_assoc, take_app_length.
Qed.

(** *** Base 64 *)
Lemma append_next c w r : is_byte c → r ≠ [] → append c (w ++ r, length w) = Ret ((w ++ [c]) ++ drop 1 r, length (w ++ [c])).
Proof. intros Hc Hr. unfold append. cbn [fst snd]. rewrite put_next by done. res_cbn. by rewrite length_app, Nat.add_1_r. Qed.

Lemma append_all l : ∀ w r, Forall is_byte l → (length l ≤ length r)%nat →
  foldM append l (w ++ r, length w) = Ret ((w ++ l) ++ drop (length l) r, length (w ++ l)).
Proof.
  induction l as [|c l IH]; intros w r Hl Hr; [by rewrite app_nil_r|]. apply Forall_cons in Hl as [Hc Hl]. cbn [length] in Hr.
  cbn [foldM]. rewrite append_next by (done || (intros ->; cbn in Hr; lia)). res_cbn.
  rewrite IH by (done || rewrite length_drop; lia). by rewrite <-!app_assoc, drop_drop.
Qed.

Lemma append_sixes l : ∀ o, Forall (λ v, 0 ≤ v < 64) l → foldM append_six l o = foldM append (b64_digit <$> l) o.
Proof.
  induction l as [|v l IH]; intros o Hl; [done|]. apply Forall_cons in Hl as [Hv Hl]. cbn [foldM fmap list_fmap].
  assert (E : append_six v o = append (b64_digit v) o) by (unfold append_six; by rewrite (proj1 (b64_facts v Hv))). rewrite E. destruct (append (b64_digit v) o); cbn [mbind res_bind]; [by apply IH|done|done].
Qed.

(** the characters of a group that are written *)
Lemma write_group a b c k w r : is_byte a → is_byte b → is_byte c → (k ≤ 4)%nat → (k ≤ length r)%nat →
  foldM append_six (take k (char_array_4 a b c)) (w ++ r, length w) =
    Ret ((w ++ take k (sextets (a * 2 ^ 16 + b * 2 ^ 8 + c))) ++ drop k r, length (w ++ take k (sextets (a * 2 ^ 16 + b * 2 ^ 8 + c)))).
Proof.
  intros Ha Hb Hc Hk Hr. destruct (char_array_4_sextets a b c Ha Hb Hc) as [E Hf]. rewrite append_sixes by (by apply Forall_take).
  rewrite E in *. assert (Hl : length (b64_digit <$> take k [(a * 2 ^ 16 + b * 2 ^ 8 + c) / 2 ^ 18; (a * 2 ^ 16 + b * 2 ^ 8 + c) / 2 ^ 12 mod 64;
    (a * 2 ^ 16 + b * 2 ^ 8 + c) / 2 ^ 6 mod 64; (a * 2 ^ 16 + b * 2 ^ 8 + c) mod 64]) = k) by (rewrite length_fmap, length_take; cbn [length]; lia).
  rewrite append_all.
  - rewrite Hl. unfold sextets. by rewrite fmap_take.
  - apply Forall_fmap. eapply Forall_impl; [by apply Forall_take|]. intros v Hv. apply (b64_facts v Hv).
  - lia.
Qed.

Lemma enc_step_fill d x l n f a3 b o : (f < 2)%nat → (f < length a3)%nat → is_byte x →
  enc_step (d ++ x :: l) (mkEnc (S n) (length d) f a3 b o) = Ret (inl (mkEnc n (length (d ++ [x])) (S f) (<[f := x]> a3) b o)).
Proof.
  intros Hf Ha Hx. unfold enc_step. cbn [in_len next fill array_3 bbuf out_len]. rewrite bool_decide_eq_false_2 by lia.
  rewrite get_app. res_cbn. unfold put. rewrite (bool_decide_eq_true_2 (f < length a3)%nat) by lia. res_cbn. rewrite u8_id by exact Hx.
  rewrite bool_decide_eq_false_2 by lia. rewrite length_app. cbn [length]. do 2 f_equal. f_equal; lia.
Qed.

Lemma enc_step_group d a b x c l n w r : is_byte a → is_byte b → is_byte c → (4 ≤ length r)%nat →
  enc_step (d ++ c :: l) (mkEnc (S n) (length d) 2 [a; b; x] (w ++ r) (length w)) =
    Ret (inl (mkEnc n (length (d ++ [c])) 0 [a; b; c] ((w ++ sextets (a * 2 ^ 16 + b * 2 ^ 8 + c)) ++ drop 4 r) (length (w ++ sextets (a * 2 ^ 16 + b * 2 ^ 8 + c))))).
Proof.
  intros Ha Hb Hc Hr. unfold enc_step. cbn [in_len next fill array_3 bbuf out_len]. rewrite bool_decide_eq_false_2 by lia.
  rewrite get_app. res_cbn. assert (Ep : put 2 c [a; b; x] = Ret [a; b; c]) by (unfold put; cbn [length]; rewrite bool_decide_eq_true_2 by lia; cbn [insert list_insert]; by rewrite u8_id).
  rewrite Ep. res_cbn. rewrite (bool_decide_eq_true_2 (3 = 3)%nat) by done. cbn [get lookup list_lookup from_option_ub mbind res_bind].
  change (char_array_4 a b c) with (take 4 (char_array_4 a b c)). rewrite write_group by (done || lia). res_cbn.
  replace (S n - 1)%nat with n by lia. rewrite (length_app d). cbn [length fst snd]. rewrite Nat.add_1_r. reflexivity.
Qed.

Lemma encode_all l : ∀ fuel d w r a3, Forall is_byte l → (length l < fuel)%nat → length a3 = 3%nat → (length (base64 l) ≤ length r)%nat →
  ∃ s r', loop fuel (enc_step (d ++ l)) (mkEnc (length l) (length d) 0 a3 (w ++ r) (length w)) = Ret s ∧
    enc_rest s = Ret ((w ++ base64 l) ++ r', length (w ++ base64 l)).
Proof.
  apply (list_ind3 (λ l, ∀ fuel d w r a3, Forall is_byte l → (length l < fuel)%nat → length a3 = 3%nat → (length (base64 l) ≤ length r)%nat →
    ∃ s r', loop fuel (enc_step (d ++ l)) (mkEnc (length l) (length d) 0 a3 (w ++ r) (length w)) = Ret s ∧
      enc_rest s = Ret ((w ++ base64 l) ++ r', length (w ++ base64 l)))).
  - intros [|fuel] d w r a3 Hl Hf Ha Hr; [cbn in Hf; lia|]. eexists _, r. split; [by apply loop_inr|]. by rewrite app_nil_r.
  - intros a [|[|fuel]] d w r a3 Hl Hf Ha Hr; [cbn in Hf; lia..|]. apply Forall_cons in Hl as [Hba _].
    destruct a3 as [|x0 [|x1 [|x2 [|? ?]]]]; try discriminate Ha.
    cbn [length]. rewrite (loop_inl _ _ _ _ (enc_step_fill d a [] 0 0 [x0; x1; x2] (w ++ r) (length w) ltac:(lia) ltac:(cbn; lia) Hba)).
    eexists _, (drop 4 r). split; [by apply loop_inr|]. unfold enc_rest. cbn [fill array_3 bbuf out_len insert list_insert].
    rewrite bool_decide_eq_false_2 by lia. cbn [Nat.sub seq foldM]. unfold put. cbn [length]. rewrite !bool_decide_eq_true_2 by lia. res_cbn.
    cbn [insert list_insert length]. rewrite bool_decide_eq_true_2 by lia. res_cbn. change (u8 0) with 0. cbn [insert list_insert]. cbn [get lookup list_lookup from_option_ub mbind res_bind].
    cbn [length base64 sextets fmap list_fmap take app] in Hr.
    rewrite write_group by (done || unfold is_byte; lia). res_cbn. rewrite append_all; [|repeat constructor; by vm_compute|rewrite length_drop; cbn; lia].
    rewrite drop_drop, <-!app_assoc. rewrite Z.mul_0_l, !Z.add_0_r. reflexivity.
  - intros a b [|[|[|fuel]]] d w r a3 Hl Hf Ha Hr; [cbn in Hf; lia..|]. apply Forall_cons in Hl as [Hba Hl]. apply Forall_cons in Hl as [Hbb _].
    destruct a3 as [|x0 [|x1 [|x2 [|? ?]]]]; try discriminate Ha.
    cbn [length]. rewrite (loop_inl _ _ _ _ (enc_step_fill d a [b] 1 0 [x0; x1; x2] (w ++ r) (length w) ltac:(lia) ltac:(cbn; lia) Hba)).
    change (d ++ [a; b]) with (d ++ [a] ++ [b]). rewrite (app_assoc d). cbn [insert list_insert].
    rewrite (loop_inl _ _ _ _ (enc_step_fill (d ++ [a]) b [] 0 1 [a; x1; x2] (w ++ r) (length w) ltac:(lia) ltac:(cbn; lia) Hbb)).
    eexists _, (drop 4 r). split; [by apply loop_inr|]. unfold enc_rest. cbn [fill array_3 bbuf out_len insert list_insert].
    rewrite bool_decide_eq_false_2 by lia. cbn [Nat.sub seq foldM]. unfold put. cbn [length]. rewrite !bool_decide_eq_true_2 by lia. res_cbn.
    change (u8 0) with 0. cbn [insert list_insert]. cbn [get lookup list_lookup from_option_ub mbind res_bind].
    cbn [length base64 sextets fmap list_fmap take app] in Hr.
    rewrite write_group by (done || unfold is_byte; lia). res_cbn. rewrite append_all; [|repeat constructor; by vm_compute|rewrite length_drop; cbn; lia].
    rewrite drop_drop, <-!app_assoc, !Z.add_0_r. reflexivity.
  - intros a b c l' IH fuel d w r a3 Hl Hf Ha Hr. destruct fuel as [|[|[|fuel]]]; [cbn in Hf; lia..|]. cbn [length] in Hf.
    apply Forall_cons in Hl as [Hba Hl]. apply Forall_cons in Hl as [Hbb Hl]. apply Forall_cons in Hl as [Hbc Hl].
    destruct a3 as [|x0 [|x1 [|x2 [|? ?]]]]; try discriminate Ha.
    change (base64 (a :: b :: c :: l')) with (sextets (a * 2 ^ 16 + b * 2 ^ 8 + c) ++ base64 l') in *. rewrite length_app in Hr.
    change (length (sextets _)) with 4%nat in Hr. cbn [length].
    rewrite (loop_inl _ _ _ _ (enc_step_fill d a (b :: c :: l') _ 0 [x0; x1; x2] (w ++ r) (length w) ltac:(lia) ltac:(cbn; lia) Hba)).
    replace (d ++ a :: b :: c :: l') with ((d ++ [a]) ++ b :: c :: l') by (by rewrite <-app_assoc). cbn [insert list_insert].
    rewrite (loop_inl _ _ _ _ (enc_step_fill (d ++ [a]) b (c :: l') _ 1 [a; x1; x2] (w ++ r) (length w) ltac:(lia) ltac:(cbn; lia) Hbb)).
    replace ((d ++ [a]) ++ b :: c :: l') with (((d ++ [a]) ++ [b]) ++ c :: l') by (by rewrite <-(app_assoc (d ++ [a]))). cbn [insert list_insert].
    rewrite (loop_inl _ _ _ _ (enc_step_group ((d ++ [a]) ++ [b]) a b x2 c l' (length l') w r Hba Hbb Hbc ltac:(lia))).
    replace (((d ++ [a]) ++ [b]) ++ c :: l') with ((((d ++ [a]) ++ [b]) ++ [c]) ++ l') by (by rewrite <-(app_assoc ((d ++ [a]) ++ [b]))).
    destruct (IH fuel (((d ++ [a]) ++ [b]) ++ [c]) (w ++ sextets (a * 2 ^ 16 + b * 2 ^ 8 + c)) (drop 4 r) [a; b; c]) as (s & r' & E & E'); [done|lia|done|rewrite length_drop; lia|].
    exists s, r'. split; [exact E|]. rewrite E'. by rewrite <-!app_assoc.
Qed.

Lemma length_base64 l : length (base64 l) = ((length l + 2) / 3 * 4)%nat.
Proof.
  revert l. apply (list_ind3 (λ l, length (base64 l) = ((length l + 2) / 3 * 4)%nat)); [done..|]. intros a b c l IH.
  change (length (base64 (a :: b :: c :: l))) with (4 + length (base64 l))%nat. rewrite IH. cbn [length].
  replace (S (S (S (length l))) + 2)%nat with (length l + 2 + 1 * 3)%nat by lia. rewrite Nat.div_add by lia. lia.
Qed.

Lemma va_b64_encode_spec fuel l rest : Forall is_byte l → (length l < fuel)%nat →
  va_b64_encode malloc fuel (l :: rest) = Ret (None, Some (base64 l)).
Proof.
  intros Hl Hf. unfold va_b64_encode. cbn [argument lookup list_lookup from_option_ub mbind res_bind].
  destruct (encode_all l fuel [] [] (malloc ((length l + 4) * 4 / 3)) (malloc 3) Hl Hf) as (s & r & E & E'); [by rewrite Hmalloc| |].
  { rewrite Hmalloc, length_base64. apply Nat.div_le_lower_bound; [lia|]. pose proof (Nat.div_mod_eq (length l + 2) 3). lia. }
  cbn [app length] in E. rewrite E. res_cbn. rewrite E'. res_cbn. cbn [fst snd app]. by rewrite take_app_length.
Qed.

(** *** Decoding *)
Lemma get_from (d t : list Z) i : get (d ++ t) (length d + i) = get t i.
Proof. unfold get. rewrite lookup_app_r by lia. by replace (length d + i - length d)%nat with i by lia. Qed.

Lemma get_from_0 (d t : list Z) : get (d ++ t) (length d) = get t 0.
Proof. by rewrite <-(get_from d t 0), Nat.add_0_r. Qed.

Lemma drop_nonnil n (r : list Z) : (n < length r)%nat → drop n r ≠ [].
Proof. intros H E. apply (f_equal length) in E. rewrite length_drop in E. cbn in E. lia. Qed.

Lemma dec_rest_ok d t rest w r : (length t ≤ 4)%nat → (length (unbase64 t) < length r)%nat →
  ∃ r', dec_rest (d ++ t ++ rest) (mkDec (Z.of_nat (length t)) (length d) (w ++ r) (length w)) =
    Ret ((w ++ unbase64 t) ++ r', S (length (w ++ unbase64 t))).
Proof.
  intros Ht Hr. exists (0 :: drop (S (length (unbase64 t))) r).
  destruct t as [|c0 [|c1 [|c2 [|c3 [|? ?]]]]]; [..|cbn in Ht; lia]; unfold dec_rest; cbn [nprbytes bufin dec_buf bufout length];
    (repeat match goal with |- context [if ?a <? Z.of_nat ?n then _ else _] => let b := eval vm_compute in (a <? Z.of_nat n) in change (a <? Z.of_nat n) with b; cbv beta iota end);
    rewrite ?get_from_0, ?get_from; cbn [app get lookup list_lookup from_option_ub mbind res_bind unbase64] in *;
    (repeat (rewrite append_next; [res_cbn|apply u8_range || (by vm_compute)|rewrite ?drop_drop; first [apply drop_nonnil; cbn [length Nat.add] in *; lia|intros ->; cbn in Hr; lia]]));
    rewrite ?drop_drop, <-?app_assoc; rewrite ?length_app; cbn [app length Nat.add]; f_equal; f_equal; lia.
Qed.
Lemma unbase64_group (p q r x : Z) t : unbase64 (p :: q :: r :: x :: t) = group p q r x ++ unbase64 t.
Proof. done. Qed.

(** the loop over the groups, then the rest; the counts of both *)
Lemma dec_all k : ∀ t fuel d rest w r, (length t ≤ k)%nat → (length t < 256)%nat → (k < fuel)%nat → (length (unbase64 t) < length r)%nat →
  ∃ s r', loop fuel (dec_step (d ++ t ++ rest)) (mkDec (Z.of_nat (length t)) (length d) (w ++ r) (length w)) = Ret s ∧
    dec_rest (d ++ t ++ rest) s = Ret ((w ++ unbase64 t) ++ r', S (length (w ++ unbase64 t))) ∧
    0 ≤ nprbytes s ≤ 4 ∧ (nprbytes s = 0 → t = []) ∧
    ∃ g, Z.of_nat (length t) = 4 * g + nprbytes s ∧ Z.of_nat (length (unbase64 t)) = 3 * g + Z.max 0 (nprbytes s - 1).
Proof.
  induction k as [k IH] using (well_founded_induction lt_wf). intros t [|fuel] d rest w r Hk Ht Hf Hr; [lia|].
  destruct (decide (length t ≤ 4)%nat) as [H4|H4].
  - destruct (dec_rest_ok d t rest w r H4 Hr) as (r' & E). eexists _, r'. split.
    { apply loop_inr. unfold dec_step. cbn [nprbytes]. by rewrite (proj2 (Z.ltb_ge _ _)) by lia. }
    split; [exact E|]. cbn [nprbytes]. split; [lia|]. split; [intros H; by apply length_zero_iff_nil; lia|]. exists 0. split; [lia|].
    destruct t as [|c0 [|c1 [|c2 [|c3 [|? ?]]]]]; cbn in *; lia.
  - destruct t as [|p [|q [|u [|x t]]]]; [cbn in H4; lia..|]. rewrite unbase64_group in *. rewrite length_app in Hr. cbn [length group] in *.
    set (c1 := dec_1 p q) in *. set (c2 := dec_2 q u) in *. set (c3 := dec_3 u x) in *.
    assert (E : dec_step (d ++ (p :: q :: u :: x :: t) ++ rest) (mkDec (Z.of_nat (S (S (S (S (length t)))))) (length d) (w ++ r) (length w)) =
      Ret (inl (mkDec (Z.of_nat (length t)) (length (d ++ [p; q; u; x])) ((w ++ group p q u x) ++ drop 3 r) (length (w ++ group p q u x))))).
    { unfold dec_step. cbn [nprbytes bufin dec_buf bufout]. rewrite (proj2 (Z.ltb_lt _ _)) by lia. rewrite get_from_0, !get_from.
      cbn [app get lookup list_lookup from_option_ub mbind res_bind]. fold c1 c2 c3.
      rewrite append_all; [|repeat (apply Forall_cons; split; [apply u8_range|]); by apply Forall_nil|cbn [length]; lia]. res_cbn. cbn [fst snd length].
      rewrite u8_id by (unfold is_byte; lia). rewrite (length_app d). cbn [length]. replace (Z.of_nat (S (S (S (S (length t))))) - 4) with (Z.of_nat (length t)) by lia. done. }
    destruct (IH (k - 1)%nat ltac:(lia) t fuel (d ++ [p; q; u; x]) rest (w ++ group p q u x) (drop 3 r)) as (s & r' & E1 & E2 & Hn & H0 & g & G1 & G2);
      [lia|lia|lia|rewrite length_drop; lia|].
    exists s, r'. rewrite (loop_inl _ _ _ _ E). replace (d ++ (p :: q :: u :: x :: t) ++ rest) with ((d ++ [p; q; u; x]) ++ t ++ rest) by (by rewrite <-app_assoc).
    split; [exact E1|]. split; [by rewrite E2, <-!app_assoc|]. split; [done|]. split.
    + intros H. apply H0 in H as ->. cbn in H4. lia.
    + exists (g + 1). rewrite length_app. cbn [length group]. lia.
Qed.

Lemma length_unbase64 t : (4 * length (unbase64 t) ≤ 3 * length t)%nat.
Proof.
  assert (H : ∀ k t, (length t ≤ k)%nat → (4 * length (unbase64 t) ≤ 3 * length t)%nat); [|by apply (H (length t))].
  clear t. induction k as [k IH] using (well_founded_induction lt_wf). intros [|p [|q [|r [|x t]]]] Hk; [cbn; lia..|].
  rewrite unbase64_group, length_app. cbn [length group] in *. specialize (IH (k - 1)%nat ltac:(lia) t ltac:(lia)). lia.
Qed.

Context (slack : list Z).

(** the length of the text counts modulo 256 *)
Lemma va_b64_decode_spec fuel t others : (256 < fuel)%nat →
  va_b64_decode malloc slack fuel (t :: others) = Ret (None, Some (unbase64 (take (Z.to_nat (u8 (Z.of_nat (length t)))) t))).
Proof.
  intros Hf. unfold va_b64_decode. cbn [argument lookup list_lookup from_option_ub mbind res_bind].
  pose proof (u8_range (Z.of_nat (length t))) as Hu. unfold is_byte in Hu. set (n := u8 (Z.of_nat (length t))) in *.
  assert (Hn : n ≤ Z.of_nat (length t)) by (subst n; unfold u8; apply Z.mod_le; lia).
  set (t1 := take (Z.to_nat n) t). set (t2 := drop (Z.to_nat n) t).
  assert (Ht : t = t1 ++ t2) by (symmetry; apply take_drop). assert (Hl : length t1 = Z.to_nat n) by (subst t1; rewrite length_take; lia).
  pose proof (length_unbase64 t1) as Hu1. set (room := Z.to_nat ((n + 3) / 4 * 3 + 5)).
  destruct (dec_all 255 t1 fuel [] (t2 ++ slack) [] (malloc room)) as (s & r' & E1 & E2 & Hs & H0 & g & G1 & G2); [lia|lia|lia| |].
  { rewrite Hmalloc. subst room. Z.div_mod_to_equations. lia. }
  cbn [app length] in E1, E2. rewrite Hl, Z2Nat.id in E1 by lia. rewrite app_assoc, <-Ht in E1, E2. rewrite E1. res_cbn. rewrite E2. res_cbn. cbn [fst snd].
  do 3 f_equal. rewrite Hl, Z2Nat.id in G1 by lia.
  assert (Hk : (n + 3) / 4 * 3 - Z.land (4 - nprbytes s) 3 = Z.of_nat (length (unbase64 t1))).
  { assert (nprbytes s = 0 ∨ nprbytes s = 1 ∨ nprbytes s = 2 ∨ nprbytes s = 3 ∨ nprbytes s = 4) as [E|[E|[E|[E|E]]]] by lia; rewrite E in *; cbn [Z.sub Z.land];
      [|try (change (Z.land (4 - 1) 3) with 3); try (change (Z.land (4 - 2) 3) with 2); try (change (Z.land (4 - 3) 3) with 1); try (change (Z.land (4 - 4) 3) with 0); Z.div_mod_to_equations; lia..].
    rewrite (H0 eq_refl) in *. cbn in Hl. replace n with 0 by lia. reflexivity. }
  rewrite Hk, Nat2Z.id. by rewrite take_app_length.
Qed.

(** *** Hexadecimal text, read *)
Context (Hslack : length slack = SLACK).

(** from a place where an even number of digits was read *)
Lemma hex_loop t : ∀ fuel w done c r k,
  (length t + 1 < fuel)%nat → (length done = 2 * length w)%nat → k = (length done + length t)%nat → (length t / 2 < length r)%nat →
  ∃ c' r' i, loop fuel (hex_step (done ++ t ++ slack) k) (mkHex (length done) c (w ++ r) (length w)) =
    Ret (mkHex i c' ((w ++ hex_pairs (before_nul t)) ++ r') (length (w ++ hex_pairs (before_nul t)))).
Proof.
  induction t as [t IH] using (induction_ltof1 _ length); unfold ltof in IH. intros fuel w d c r k Hf Hd Hk Hr.
  assert (Heven : Nat.odd (length d) = false) by (rewrite Hd; apply Nat.odd_even).
  destruct fuel as [|fuel]; [lia|].
  destruct t as [|x t].
  - (* the end: whatever byte lies behind the object *)
    exists c, r, (length d). cbn [app before_nul hex_pairs]. rewrite !app_nil_r. apply loop_inr. unfold hex_step.
    destruct slack as [|y s] eqn:Es; [discriminate Hslack|]. rewrite get_app. res_cbn. cbn [length] in Hk.
    rewrite (bool_decide_eq_false_2 (length d < k)%nat) by lia. by rewrite andb_false_r.
  - cbn [before_nul]. destruct (Z.eqb_spec x 0) as [->|Hx].
    { exists c, r, (length d). cbn [hex_pairs]. rewrite !app_nil_r. apply loop_inr. unfold hex_step. cbn [app]. by rewrite get_app. }
    cbn [length] in Hk, Hf, Hr.
    assert (E1 : hex_step (d ++ (x :: t) ++ slack) k (mkHex (length d) c (w ++ r) (length w)) =
      Ret (inl (mkHex (S (length d)) (Some (tk_hex2byte x)) (w ++ r) (length w)))).
    { unfold hex_step. cbn [app]. rewrite get_app. res_cbn. rewrite (proj2 (Z.eqb_neq _ _)) by done.
      rewrite bool_decide_eq_true_2 by lia. cbn [negb andb]. by rewrite Heven. }
    rewrite (loop_inl _ _ _ _ E1). assert (Ed : d ++ (x :: t) ++ slack = (d ++ [x]) ++ t ++ slack) by (by rewrite <-app_assoc).
    assert (El : S (length d) = length (d ++ [x])) by (rewrite length_app; cbn; lia). rewrite Ed, El.
    destruct fuel as [|fuel]; [lia|]. destruct t as [|y t].
    + exists (Some (tk_hex2byte x)), r, (length (d ++ [x])). cbn [before_nul hex_pairs app]. rewrite !app_nil_r. apply loop_inr. unfold hex_step.
      destruct slack as [|z s] eqn:Es; [discriminate Hslack|]. rewrite get_app. res_cbn. cbn [length] in Hk.
      rewrite (bool_decide_eq_false_2 (length (d ++ [x]) < k)%nat) by lia. by rewrite andb_false_r.
    + cbn [before_nul]. destruct (Z.eqb_spec y 0) as [->|Hy].
      { exists (Some (tk_hex2byte x)), r, (length (d ++ [x])). cbn [hex_pairs]. rewrite !app_nil_r. apply loop_inr. unfold hex_step. cbn [app]. by rewrite get_app. }
      destruct (hex_digit_range x) as [Rx Rx']. destruct (hex_digit_range y) as [Ry Ry']. unfold is_byte in Rx, Ry.
      cbn [length] in Hk, Hf, Hr.
      assert (Hr' : (S (length t / 2) < length r)%nat).
      { replace (S (S (length t))) with (length t + 1 * 2)%nat in Hr by lia. rewrite Nat.div_add in Hr by lia. lia. }
      set (v := tk_hex2byte x * 16 + tk_hex2byte y).
      assert (Ev : Z.lor (u8 (Z.shiftl (tk_hex2byte x) 4)) (tk_hex2byte y) = v).
      { rewrite Z.shiftl_mul_pow2, u8_id by (unfold is_byte; lia). rewrite Z.lor_comm, <-Z.shiftl_mul_pow2, lor_shiftl_add by lia.
        rewrite Z.shiftl_mul_pow2 by lia. subst v. lia. }
      assert (E2 : hex_step ((d ++ [x]) ++ (y :: t) ++ slack) k (mkHex (length (d ++ [x])) (Some (tk_hex2byte x)) (w ++ r) (length w)) =
        Ret (inl (mkHex (S (length (d ++ [x]))) (Some v) ((w ++ [v]) ++ drop 1 r) (S (length w))))).
      { unfold hex_step. cbn [app]. rewrite get_app. res_cbn. rewrite (proj2 (Z.eqb_neq _ _)) by done.
        rewrite bool_decide_eq_true_2 by lia. cbn [negb andb]. rewrite <-El, Nat.odd_succ, <-Nat.negb_odd, Heven. cbn [negb from_option_ub]. res_cbn. rewrite Ev.
        rewrite put_next; [done|intros ->; cbn in Hr'; lia|subst v; unfold is_byte; lia]. }
      rewrite (loop_inl _ _ _ _ E2). rewrite <-El.
      destruct (IH t ltac:(cbn; lia) fuel (w ++ [v]) (d ++ [x; y]) (Some v) (drop 1 r) k) as (c' & r' & i & E);
        [lia|rewrite !length_app; cbn; lia|rewrite length_app; cbn; lia|rewrite length_drop; lia|].
      exists c', r', i. replace ((d ++ [x]) ++ (y :: t) ++ slack) with ((d ++ [x; y]) ++ t ++ slack) by (rewrite <-!app_assoc; done).
      replace (S (S (length d))) with (length (d ++ [x; y])) by (rewrite length_app; cbn; lia).
      replace (S (length w)) with (length (w ++ [v])) by (rewrite length_app; cbn; lia). rewrite E. cbn [hex_pairs]. fold v. by rewrite <-!app_assoc.
Qed.

(** any text: the pairs of digits before the first NUL byte, other characters
    counting as zero, an odd character at the end lost *)
Lemma va_hex2bin_spec fuel t rest : (length t + 1 < fuel)%nat →
  va_hex2bin malloc slack fuel (t :: rest) = Ret (None, Some (hex_pairs (before_nul t))).
Proof.
  intros Hf. unfold va_hex2bin, tk_hex2bin. cbn [argument lookup list_lookup from_option_ub mbind res_bind].
  destruct (hex_loop t fuel [] [] None (malloc (length t / 2 + 2)) (length t) Hf) as (c & r & i & E); [done|done|rewrite Hmalloc; lia|].
  cbn [app length] in E. rewrite E. res_cbn. cbn [hx_bytes hx_len fst snd]. by rewrite take_app_length.
Qed.

End proofs.

(** Hexadecimal text. [to_hex] writes two digits for each byte, and
    [from_hex] turns that text back into the bytes; of any text at all
    [from_hex] makes the pairs of digits before the first NUL byte, whatever
    lies in memory behind the text, and it never leaves its buffer. *)
Theorem hex_roundtrip (malloc : nat → list Z) (slack l t : list Z) (fuel : nat) :
  (∀ n, length (malloc n) = n) → length slack = SLACK → Forall is_byte l →
  (2 * length l + 1 < fuel)%nat → (length t + 1 < fuel)%nat →
  va_bin2hex malloc [l] = Ret (None, Some (hex_text l)) ∧
  va_hex2bin malloc slack fuel [hex_text l] = Ret (None, Some l) ∧
  va_hex2bin malloc slack fuel [t] = Ret (None, Some (hex_pairs (before_nul t))).
Proof.
  intros Hm Hs Hl Hf Ht. split; [by apply va_bin2hex_spec|]. split; [|by apply va_hex2bin_spec].
  rewrite va_hex2bin_spec by (done || rewrite length_hex_text; lia). by rewrite before_nul_id, hex_pairs_text by (done || by apply hex_text_range).
Qed.

(** C25: Base 64. On every text [to_b64] ends, stays inside its buffers and gives
    the standard encoding: three bytes are four digits of a number of 24 bits, a
    rest of one or two bytes is filled with zeros and its missing digits are
    equals signs. For up to 189 bytes [from_b64] gives the bytes back, followed
    by what it makes of the equals signs: nothing when the number of bytes is a
    multiple of three, 16 and 64 when one byte is over, 64 when two are. The
    texts of 190 to 192 bytes have 256 characters, a length of zero in its eight
    bits, and decode to nothing. *)
Theorem b64_roundtrip (malloc : nat → list Z) (slack l : list Z) (fuel : nat) :
  (∀ n, length (malloc n) = n) → Forall is_byte l → (length l < fuel)%nat → (256 < fuel)%nat →
  va_b64_encode malloc fuel [l] = Ret (None, Some (base64 l)) ∧
  ((length l ≤ 192)%nat →
   va_b64_decode malloc slack fuel [base64 l] = Ret (None, Some (if decide (length l ≤ 189)%nat then l ++ padding l else []))).
Proof.
  intros Hm Hl Hf Hf'. split; [by apply va_b64_encode_spec|]. intros H192. rewrite va_b64_decode_spec by done. rewrite length_base64.
  pose proof (Nat.div_mod_eq (length l + 2) 3). pose proof (Nat.mod_upper_bound (length l + 2) 3 ltac:(lia)). case_decide as Hd.
  - rewrite u8_id by (unfold is_byte; lia). rewrite Nat2Z.id, take_ge by (rewrite length_base64; lia). by rewrite unbase64_base64.
  - assert (E : ((length l + 2) / 3 * 4)%nat = 256%nat) by lia. by rewrite E.
Qed.

(** ** Samples *)
Lemma hex_roundtrip_witness :
  va_bin2hex some_memory [[222; 173; 0; 7]] = Ret (None, Some (chars "DEAD0007")) ∧
  va_hex2bin some_memory (some_memory 8) 20 [chars "DEAD0007"] = Ret (None, Some [222; 173; 0; 7]) ∧
  va_hex2bin some_memory (some_memory 8) 20 [chars "fFx1a"] = Ret (None, Some [255; 1]).
Proof.
  apply (hex_roundtrip some_memory (some_memory 8) [222; 173; 0; 7] (chars "fFx1a") 20).
  - apply some_memory_length.
  - reflexivity.
  - apply byteb_list. reflexivity.
  - cbn. lia.
  - cbn. lia.
Defined.

Lemma b64_roundtrip_witness :
  va_b64_encode some_memory 300 [chars "sure"] = Ret (None, Some (chars "c3VyZQ==")) ∧
  ((length (chars "sure") ≤ 192)%nat →
   va_b64_decode some_memory (some_memory 8) 300 [chars "c3VyZQ=="] = Ret (None, Some (chars "sure" ++ [16; 64]))).
Proof.
  apply (b64_roundtrip some_memory (some_memory 8) (chars "sure") 300);
    [apply some_memory_length|apply byteb_list; reflexivity|cbn; lia|lia].
Defined.
