(* ===== verification/Text.v ===== *)
(** * Operations on text objects (StackLib/StackVM/vm_stack.c)

    The values of the machine are byte strings unless a library function makes
    another kind of object. Arithmetic reads both operands as decimal numbers
    when both look like numbers and prints the result; otherwise [+] joins the
    strings. Comparisons follow the same rule. This file models the branches of
    [vm_operation_object], [vm_compare_object], [vm_cmp_object],
    [vm_split_object] and [vm_size_object] for objects whose type is
    [VM_OBJ_TYPE_ANY]; an object is the list of its bytes. *)
From S2P Require Import Prelude Decimal Isa.

Definition VX_DIV_BY_ZERO : Z := 11.

(** ** Numbers *)

(** the loop of [vm_is_numeric_s] runs from the last byte; here the bytes are
    given in that order *)
Fixpoint numeric_loop (l : list Z) : bool :=
  match l with
  | [] => true
  | n :: l' =>
      if (n =? 45) && (length l' =? 0)%nat then true
      else if n =? 46 then true
      else if n =? 0 then numeric_loop l'
      else if (0x39 <? n) || (n <? 0x30) then false
      else numeric_loop l'
  end.

Definition vm_is_numeric_s (buffer : list Z) : bool :=
  if (length buffer =? 0)%nat then false
  else if (64 <? length buffer)%nat then false
  else numeric_loop (reverse buffer).

(** [memcpy(buffer, op->bytes, op->len); buffer[op->len] = 0; atoi(buffer)]
    with a buffer of 12 bytes *)
Definition text_value (bytes : list Z) : res Z :=
  guardb (length bytes <? 12)%nat ≫= λ _, s ← from_option_ub (c_string (bytes ++ [0])); atoi s.

(** The arithmetic of [int]: the exception raised and the value. *)
Definition arith (opcode value1 value2 : Z) : res (option Z * Z) :=
  let plain m := v ← m; Ret (None, v) in
  if opcode =? INS_ADD then plain (int_of (value1 + value2))
  else if opcode =? INS_SUB then plain (int_of (value1 - value2))
  else if opcode =? INS_MUL then plain (int_of (value1 * value2))
  else if opcode =? INS_DIV then
    if value2 =? 0 then Ret (Some VX_DIV_BY_ZERO, value1) else plain (int_of (Z.quot value1 value2))
  else if opcode =? INS_MOD then
    if value2 =? 0 then Undef else _ ← int_of (Z.quot value1 value2); Ret (None, Z.rem value1 value2)
  else if opcode =? INS_AND then Ret (None, Z.land value1 value2)
  else if opcode =? INS_OR then Ret (None, Z.lor value1 value2)
  else if opcode =? INS_XOR then Ret (None, Z.lxor value1 value2)
  else if opcode =? INS_SHL then
    if (0 <=? value1) && (0 <=? value2) && (value2 <? 32) then plain (int_of (Z.shiftl value1 value2)) else Undef
  else if opcode =? INS_SHR then
    if (0 <=? value2) && (value2 <? 32) then Ret (None, Z.shiftr value1 value2) else Undef
  else if opcode =? INS_NOT then Ret (None, if value1 =? 0 then 1 else 0)
  else Ret (None, value1).

Definition NaN : list Z := [78; 97; 78].

(** ** [vm_operation_object] *)
Definition vm_operation_object (opcode : Z) (op2 op1 : list Z) : res (option Z * list Z) :=
  if vm_is_numeric_s op1 && vm_is_numeric_s op2 then
    value1 ← text_value op1;
    value2 ← text_value op2;
    r ← arith opcode value1 value2; Ret (r.1, print_int r.2)
  else if opcode =? INS_ADD then
    (** [len] is a [uint16] *)
    guardb (Z.of_nat (length op1 + length op2) <? 2 ^ 16) ≫= λ _, Ret (None, op1 ++ op2)
  else Ret (None, NaN).

(** ** Comparisons *)

(** [memcmp] over the length of the longer one: behind the end of the shorter
    one it reads memory that is not part of the object *)
Fixpoint memcmp (l k : list Z) : res Z :=
  match l, k with
  | [], [] => Ret 0
  | a :: l', b :: k' => if a =? b then memcmp l' k' else Ret (a - b)
  | _, _ => Undef
  end.

Definition VM_CMP_EQ : Z := 0x10.
Definition VM_CMP_GT : Z := 0x20.
Definition VM_CMP_LT : Z := 0x40.

Definition cmp_flag (value1 : Z) : Z :=
  if value1 =? 0 then VM_CMP_EQ else if value1 <? 0 then VM_CMP_LT else VM_CMP_GT.

(** [value1] of [vm_compare_object] and of [vm_cmp_object] *)
Definition compare_value (op2 op1 : list Z) : res Z :=
  if vm_is_numeric_s op1 && vm_is_numeric_s op2 then
    value1 ← text_value op1; value2 ← text_value op2; int_of (value1 - value2)
  else memcmp op1 op2.

Definition vm_cmp_object (op2 op1 : list Z) : res Z := v ← compare_value op2 op1; Ret (cmp_flag v).

Definition vm_load_bool (value : bool) : list Z := if value then [116; 114; 117; 101] else [102; 97; 108; 115; 101].

Definition flag_result (opcode psw : Z) : list Z :=
  if opcode =? INS_CREQ then vm_load_bool (negb (Z.land psw VM_CMP_EQ =? 0))
  else if opcode =? INS_CRNE then vm_load_bool (Z.land psw VM_CMP_EQ =? 0)
  else if opcode =? INS_CRGT then vm_load_bool (psw =? VM_CMP_GT)
  else if opcode =? INS_CRLT then vm_load_bool (psw =? VM_CMP_LT)
  else if opcode =? INS_CRGTEQ then vm_load_bool (negb (psw =? VM_CMP_LT))
  else if opcode =? INS_CRLTEQ then vm_load_bool (negb (psw =? VM_CMP_GT))
  else [].

Definition vm_compare_object (opcode : Z) (op2 op1 : list Z) : res (list Z) :=
  v ← compare_value op2 op1; Ret (flag_result opcode (cmp_flag v)).

(** ** Parts of a string *)

(** [objlen] is a byte *)
Definition vm_size_object (op1 : list Z) : list Z := print_int (u8 (Z.of_nat (length op1))).

(** the operand as a number, else [d]: both are bytes, and the buffers are as
    long as the operands *)
Definition byte_value (op : list Z) (d : Z) : res Z :=
  if vm_is_numeric_s op then s ← from_option_ub (c_string (op ++ [0])); v ← atoi s; Ret (u8 v) else Ret (u8 d).

Definition vm_split_object (op2 op1 target : list Z) : res (list Z) :=
  let tl := Z.of_nat (length target) in
  offset ← byte_value op1 0;
  len ← byte_value op2 tl;
  let len := if u64 (tl - offset) <? len then u8 (u64 (tl - offset)) else len in
  guardb (offset + len <=? tl) ≫= λ _, Ret (take (Z.to_nat len) (drop (Z.to_nat offset) target)).

(** ** Numbers are printed and read back *)
Lemma numeric_loop_digits d s : Forall is_digit d → s = [] ∨ s = [45] → numeric_loop (reverse d ++ s) = true.
Proof.
  intros Hd Hs. rewrite <-Forall_reverse in Hd. induction Hd as [|c d' Hc Hd IH].
  - destruct Hs as [->| ->]; reflexivity.
  - cbn [app numeric_loop]. unfold is_digit in Hc.
    rewrite (proj2 (Z.eqb_neq c 45)), (proj2 (Z.eqb_neq c 46)), (proj2 (Z.eqb_neq c 0)) by lia.
    rewrite (proj2 (Z.ltb_ge 0x39 c)), (proj2 (Z.ltb_ge c 0x30)) by lia. exact IH.
Qed.

Lemma print_int_numeric z : - 2 ^ 31 ≤ z < 2 ^ 31 → vm_is_numeric_s (print_int z) = true.
Proof.
  intros Hz. pose proof (length_print_int z Hz) as Hl. destruct (print_int_sign z Hz) as (d & E & Hd & _ & _).
  unfold vm_is_numeric_s. rewrite (proj2 (Nat.eqb_neq _ _)) by lia. rewrite (proj2 (Nat.ltb_ge _ _)) by lia.
  rewrite E, reverse_app. apply numeric_loop_digits; [done|]. case_match; [by right|by left].
Qed.

Lemma print_int_nonzero z : - 2 ^ 31 ≤ z < 2 ^ 31 → Forall (λ c, c ≠ 0) (print_int z).
Proof.
  intros Hz. destruct (print_int_sign z Hz) as (d & -> & Hd & _ & _). apply Forall_app. split.
  - case_match; [by repeat constructor|by apply Forall_nil].
  - eapply Forall_impl; [exact Hd|]. unfold is_digit. intros c Hc. cbn in Hc. lia.
Qed.

Lemma text_value_print z : - 2 ^ 31 ≤ z < 2 ^ 31 → text_value (print_int z) = Ret z.
Proof.
  intros Hz. pose proof (length_print_int z Hz). unfold text_value. rewrite (proj2 (Nat.ltb_lt _ _)) by lia. res_cbn.
  rewrite (c_string_nonzero _ (print_int_nonzero z Hz)). res_cbn. by apply atoi_print.
Qed.

(** ** Arithmetic *)
Lemma int_shift z : - 2 ^ 31 ≤ z < 2 ^ 31 ↔ Z.shiftr z 31 = 0 ∨ Z.shiftr z 31 = -1.
Proof.
  rewrite Z.shiftr_div_pow2 by lia. change (2 ^ 31) with 2147483648.
  Z.div_mod_to_equations. lia.
Qed.

Lemma land_int a b : - 2 ^ 31 ≤ a < 2 ^ 31 → - 2 ^ 31 ≤ b < 2 ^ 31 → - 2 ^ 31 ≤ Z.land a b < 2 ^ 31.
Proof. rewrite !int_shift, Z.shiftr_land. intros [->| ->] [->| ->]; by vm_compute; auto. Qed.

Lemma lor_int a b : - 2 ^ 31 ≤ a < 2 ^ 31 → - 2 ^ 31 ≤ b < 2 ^ 31 → - 2 ^ 31 ≤ Z.lor a b < 2 ^ 31.
Proof. rewrite !int_shift, Z.shiftr_lor. intros [->| ->] [->| ->]; by vm_compute; auto. Qed.

Lemma lxor_int a b : - 2 ^ 31 ≤ a < 2 ^ 31 → - 2 ^ 31 ≤ b < 2 ^ 31 → - 2 ^ 31 ≤ Z.lxor a b < 2 ^ 31.
Proof. rewrite !int_shift, Z.shiftr_lxor. intros [->| ->] [->| ->]; by vm_compute; auto. Qed.

Lemma quot_int a b :
  - 2 ^ 31 ≤ a < 2 ^ 31 → b ≠ 0 → ¬ (a = - 2 ^ 31 ∧ b = -1) → - 2 ^ 31 ≤ Z.quot a b < 2 ^ 31.
Proof.
  intros Ha Hb Hn. pose proof (Z.quot_rem a b Hb). pose proof (Z.rem_bound_abs a b Hb) as Hr.
  assert (Hq : Z.abs (Z.quot a b) ≤ Z.abs a).
  { rewrite <-Z.quot_abs by done. apply Z.quot_le_upper_bound; [lia|]. nia. }
  destruct (decide (Z.quot a b = 2 ^ 31)) as [E|]; [|lia]. exfalso. rewrite E in *. nia.
Qed.

(** the texts of two numbers are computed with as numbers *)
Lemma operation_ints opcode a b r :
  - 2 ^ 31 ≤ a < 2 ^ 31 → - 2 ^ 31 ≤ b < 2 ^ 31 → arith opcode a b = Ret r →
  vm_operation_object opcode (print_int b) (print_int a) = Ret (r.1, print_int r.2).
Proof.
  intros Ha Hb E. unfold vm_operation_object. rewrite !print_int_numeric by done. cbn [andb].
  rewrite !text_value_print by done. res_cbn. by rewrite E.
Qed.

(** [v] is the text of a number that can be computed with again *)
Definition is_int_text (v : list Z) (z : Z) : Prop :=
  v = print_int z ∧ vm_is_numeric_s v = true ∧ text_value v = Ret z.

Lemma print_int_text z : - 2 ^ 31 ≤ z < 2 ^ 31 → is_int_text (print_int z) z.
Proof. intros H. split; [done|]. split; [by apply print_int_numeric|by apply text_value_print]. Qed.

Lemma arith_ints opcode a b z :
  - 2 ^ 31 ≤ a < 2 ^ 31 → - 2 ^ 31 ≤ b < 2 ^ 31 → - 2 ^ 31 ≤ z < 2 ^ 31 → arith opcode a b = Ret (None, z) →
  ∃ v, vm_operation_object opcode (print_int b) (print_int a) = Ret (None, v) ∧ is_int_text v z.
Proof. intros Ha Hb Hz E. eexists. split; [by rewrite (operation_ints _ _ _ _ Ha Hb E)|by apply print_int_text]. Qed.

(** [vm_operation_object] on the texts of two [int]s is the operation on the
    numbers; [z] is what it should give. *)
Definition computes (opcode a b z : Z) : Prop :=
  ∃ v, vm_operation_object opcode (print_int b) (print_int a) = Ret (None, v) ∧ is_int_text v z.

(** C11: Arithmetic on numbers held as text. For all [int]s [a] and [b], the
    machine's operation on their decimal texts gives the text of the result of
    the C operation whenever that is an [int] (sum, difference, product), for
    every quotient but [INT_MIN / -1], and always for and, or, exclusive or;
    the result is again read as a number, with that value. A division by zero
    raises [VX_DIV_BY_ZERO] and leaves the dividend. A sum that does not fit
    is an overflow. *)
Theorem text_arith (a b : Z) :
  - 2 ^ 31 ≤ a < 2 ^ 31 → - 2 ^ 31 ≤ b < 2 ^ 31 →
  (- 2 ^ 31 ≤ a + b < 2 ^ 31 → computes INS_ADD a b (a + b)) ∧
  (- 2 ^ 31 ≤ a - b < 2 ^ 31 → computes INS_SUB a b (a - b)) ∧
  (- 2 ^ 31 ≤ a * b < 2 ^ 31 → computes INS_MUL a b (a * b)) ∧
  (b ≠ 0 → ¬ (a = - 2 ^ 31 ∧ b = -1) → computes INS_DIV a b (Z.quot a b)) ∧
  (b = 0 → vm_operation_object INS_DIV (print_int b) (print_int a) = Ret (Some VX_DIV_BY_ZERO, print_int a)) ∧
  computes INS_AND a b (Z.land a b) ∧ computes INS_OR a b (Z.lor a b) ∧ computes INS_XOR a b (Z.lxor a b) ∧
  (¬ (- 2 ^ 31 ≤ a + b < 2 ^ 31) → vm_operation_object INS_ADD (print_int b) (print_int a) = Undef).
Proof.
  intros Ha Hb. unfold computes. repeat apply conj.
  - intros H. apply arith_ints; [done..|]. unfold arith. cbn. by rewrite int_of_ret.
  - intros H. apply arith_ints; [done..|]. unfold arith. cbn. by rewrite int_of_ret.
  - intros H. apply arith_ints; [done..|]. unfold arith. cbn. by rewrite int_of_ret.
  - intros H0 H. pose proof (quot_int a b Ha H0 H). apply arith_ints; [done..|]. unfold arith. cbn.
    rewrite (proj2 (Z.eqb_neq _ _)) by done. by rewrite int_of_ret.
  - intros ->. by rewrite (operation_ints _ _ _ (Some VX_DIV_BY_ZERO, a) Ha Hb).
  - pose proof (land_int a b Ha Hb). by apply arith_ints.
  - pose proof (lor_int a b Ha Hb). by apply arith_ints.
  - pose proof (lxor_int a b Ha Hb). by apply arith_ints.
  - intros H. unfold vm_operation_object. rewrite !print_int_numeric, !text_value_print by done. cbn [andb]. res_cbn.
    unfold arith. cbn. unfold int_of.
    destruct (in_int (a + b)) eqn:E; [by apply in_int_true in E|done].
Qed.

Lemma text_arith_witness :
  computes INS_MUL (-12) 12 (-144) ∧
  vm_operation_object INS_DIV (print_int 0) (print_int 7) = Ret (Some VX_DIV_BY_ZERO, [55]).
Proof.
  split.
  - apply (text_arith (-12) 12); lia.
  - apply (text_arith 7 0); lia.
Defined.

(** ** Comparison *)
(** [l] is before [k]: they differ at some place, and there [l] has the smaller
    byte *)
Definition bytes_before (l k : list Z) : Prop :=
  ∃ p a b x y, l = p ++ a :: x ∧ k = p ++ b :: y ∧ a < b.

(** neither is the other followed by something *)
Definition comparable (l k : list Z) : Prop := l = k ∨ bytes_before l k ∨ bytes_before k l.

Lemma before_cons c l k : bytes_before (c :: l) (c :: k) ↔ bytes_before l k.
Proof.
  split.
  - intros (p & a & b & x & y & El & Ek & H). destruct p as [|d p]; cbn in El, Ek; simplify_eq; [lia|].
    by exists p, a, b, x, y.
  - intros (p & a & b & x & y & -> & -> & H). by exists (c :: p), a, b, x, y.
Qed.

Lemma before_ne c d l k : c ≠ d → bytes_before (c :: l) (d :: k) ↔ c < d.
Proof.
  intros Hn. split.
  - intros (p & a & b & x & y & El & Ek & H). destruct p as [|e p]; cbn in El, Ek; simplify_eq. lia.
  - intros H. by exists [], c, d, l, k.
Qed.

(** what [memcmp] tells *)
Lemma memcmp_spec l k :
  comparable l k →
  ∃ d, memcmp l k = Ret d ∧ (d = 0 ↔ l = k) ∧ (d < 0 ↔ bytes_before l k) ∧ (d > 0 ↔ bytes_before k l).
Proof.
  revert k. induction l as [|a l IH]; intros k.
  - assert (Hno : ∀ k', ¬ bytes_before [] k') by (intros k' (p & ? & ? & ? & ? & E & _); by destruct p).
    assert (Hno' : ∀ k', ¬ bytes_before k' []) by (intros k' (p & ? & ? & ? & ? & _ & E & _); by destruct p).
    intros [<-|[H|H]]; [|by apply Hno in H|by apply Hno' in H]. exists 0. split; [done|].
    split; [done|]. split; (split; [lia|]); intros H; by apply Hno in H.
  - destruct k as [|b k].
    { intros [|[(p & ? & ? & ? & ? & _ & E & _)|(p & ? & ? & ? & ? & E & _)]]; [done|by destruct p..]. }
    cbn. intros H. destruct (Z.eqb_spec a b) as [<-|Hn].
    + destruct (IH k) as (d & E & He & Hl & Hg).
      { destruct H as [H|[H|H]]; [left; congruence|right; left; by apply before_cons in H|right; right; by apply before_cons in H]. }
      exists d. split; [done|]. rewrite !before_cons. split; [|done]. rewrite He. split; congruence.
    + exists (a - b). split; [done|]. rewrite !before_ne by done. split; [|lia]. split; [lia|congruence].
Qed.

(** equal lengths compare *)
Lemma comparable_length l k : length l = length k → comparable l k.
Proof.
  revert k. induction l as [|a l IH]; intros [|b k] E; cbn in E; try done; [by left|].
  unfold comparable. destruct (Z.lt_trichotomy a b) as [H|[->|H]].
  - right. left. by exists [], a, b, l, k.
  - injection E as E. destruct (IH k E) as [->|[H|H]]; [by left|..]; right; rewrite !before_cons; auto.
  - right. right. by exists [], b, a, k, l.
Qed.

(** [vm_compare_object] and [vm_cmp_object] give the relation [eq], [lt] *)
Definition compares_as (op1 op2 : list Z) (eq lt : bool) : Prop :=
  vm_compare_object INS_CREQ op2 op1 = Ret (vm_load_bool eq) ∧
  vm_compare_object INS_CRNE op2 op1 = Ret (vm_load_bool (negb eq)) ∧
  vm_compare_object INS_CRLT op2 op1 = Ret (vm_load_bool lt) ∧
  vm_compare_object INS_CRGTEQ op2 op1 = Ret (vm_load_bool (negb lt)) ∧
  vm_compare_object INS_CRLTEQ op2 op1 = Ret (vm_load_bool (lt || eq)) ∧
  vm_compare_object INS_CRGT op2 op1 = Ret (vm_load_bool (negb (lt || eq))) ∧
  vm_cmp_object op2 op1 = Ret (if eq then VM_CMP_EQ else if lt then VM_CMP_LT else VM_CMP_GT).

Lemma compare_value_as op1 op2 d :
  compare_value op2 op1 = Ret d → compares_as op1 op2 (d =? 0) (d <? 0).
Proof.
  intros E. unfold compares_as, vm_compare_object, vm_cmp_object. rewrite E. res_cbn. unfold cmp_flag.
  destruct (Z.eqb_spec d 0) as [->|Hn]; [done|]. by destruct (Z.ltb_spec d 0).
Qed.

(** C12: Comparison of texts. The texts of two [int]s whose difference is an
    [int] compare as the numbers do, under all six comparison instructions and
    for the flags of the conditional jumps. Two texts that are not both numbers
    compare by their bytes, first difference first, when they are equal or
    differ at some place (in particular when they have equal lengths); [eq] and
    [lt] decide equality and that order. Of two [int]s that are further apart
    the comparison is undefined. *)
Theorem text_compare :
  (∀ a b, - 2 ^ 31 ≤ a < 2 ^ 31 → - 2 ^ 31 ≤ b < 2 ^ 31 → - 2 ^ 31 ≤ a - b < 2 ^ 31 →
     compares_as (print_int a) (print_int b) (a =? b) (a <? b)) ∧
  (∀ op1 op2, vm_is_numeric_s op1 && vm_is_numeric_s op2 = false →
     length op1 = length op2 ∨ comparable op1 op2 →
     ∃ eq lt, compares_as op1 op2 eq lt ∧ (eq = true ↔ op1 = op2) ∧ (lt = true ↔ bytes_before op1 op2)) ∧
  (∀ a b, - 2 ^ 31 ≤ a < 2 ^ 31 → - 2 ^ 31 ≤ b < 2 ^ 31 → ¬ (- 2 ^ 31 ≤ a - b < 2 ^ 31) →
     vm_cmp_object (print_int b) (print_int a) = Undef).
Proof.
  assert (Hv : ∀ a b, - 2 ^ 31 ≤ a < 2 ^ 31 → - 2 ^ 31 ≤ b < 2 ^ 31 →
    compare_value (print_int b) (print_int a) = int_of (a - b)).
  { intros a b Ha Hb. unfold compare_value. rewrite !print_int_numeric by done. cbn [andb].
    by rewrite !text_value_print by done. }
  split; [|split].
  - intros a b Ha Hb Hd. replace (a =? b) with (a - b =? 0) by lia. replace (a <? b) with (a - b <? 0) by lia.
    apply compare_value_as. by rewrite Hv, int_of_ret.
  - intros op1 op2 Hnum Hc. assert (Hc' : comparable op1 op2) by (destruct Hc; [by apply comparable_length|done]).
    destruct (memcmp_spec op1 op2 Hc') as (d & E & He & Hl & _). exists (d =? 0), (d <? 0).
    split; [|by rewrite Z.eqb_eq, Z.ltb_lt]. apply compare_value_as. unfold compare_value. by rewrite Hnum.
  - intros a b Ha Hb Hd. unfold vm_cmp_object. rewrite Hv by done. unfold int_of.
    destruct (in_int (a - b)) eqn:E; [by apply in_int_true in E|done].
Qed.

Lemma text_compare_witness :
  compares_as (print_int 9) (print_int 10) false true ∧
  (∃ eq lt, compares_as [97; 99] [97; 98; 100] eq lt ∧ (eq = true ↔ [97; 99] = [97; 98; 100]) ∧
     (lt = true ↔ bytes_before [97; 99] [97; 98; 100])).
Proof.
  split.
  - apply (proj1 text_compare 9 10); lia.
  - apply (proj1 (proj2 text_compare) [97; 99] [97; 98; 100]); [reflexivity|].
    right. right. right. by exists [97], 98, 99, [100], [].
Defined.

(** ** Concatenation and parts *)
Lemma byte_value_print n d : 0 ≤ n < 256 → byte_value (print_int n) d = Ret n.
Proof.
  intros H. unfold byte_value. rewrite print_int_numeric, c_string_nonzero by (apply print_int_nonzero || idtac; lia).
  res_cbn. rewrite atoi_print by lia. res_cbn. unfold u8. by rewrite Z.mod_small.
Qed.

(** [vm_split_object] takes [n] bytes from the offset [o], as many as there are *)
Lemma split_spec target o n :
  0 ≤ o ≤ Z.of_nat (length target) → 0 ≤ n < 256 → o < 256 → Z.of_nat (length target) < 2 ^ 16 →
  vm_split_object (print_int n) (print_int o) target = Ret (take (Z.to_nat n) (drop (Z.to_nat o) target)).
Proof.
  intros Ho Hn Ho' Ht. unfold vm_split_object. rewrite !byte_value_print by lia. res_cbn.
  unfold u64. rewrite (Z.mod_small (_ - _)) by lia. destruct (Z.ltb_spec (Z.of_nat (length target) - o) n) as [H|H].
  - unfold u8. rewrite Z.mod_small by lia. rewrite guardb_true by lia. res_cbn.
    f_equal. rewrite !take_ge; [done|rewrite length_drop; lia..].
  - by rewrite guardb_true by lia.
Qed.

(** Joining and splitting. For two texts that are not both numbers and
    have fewer than 256 bytes together, [+] joins them, the size of the result
    is the text of the sum of the lengths, and cutting at the length of the
    first gives both back; a length beyond the end is cut off. *)
Theorem concat_split (s1 s2 : list Z) (n : Z) :
  vm_is_numeric_s s1 && vm_is_numeric_s s2 = false → Z.of_nat (length s1 + length s2) < 256 →
  Z.of_nat (length s2) ≤ n < 256 →
  let len s := print_int (Z.of_nat (length s)) in
  ∃ s, vm_operation_object INS_ADD s2 s1 = Ret (None, s) ∧
    vm_size_object s = print_int (Z.of_nat (length s1) + Z.of_nat (length s2)) ∧
    vm_split_object (len s1) (print_int 0) s = Ret s1 ∧
    vm_split_object (len s2) (len s1) s = Ret s2 ∧
    vm_split_object (print_int n) (len s1) s = Ret s2.
Proof.
  intros Hnum Hl Hn len. exists (s1 ++ s2). unfold len. split; [|split; [|split; [|split]]].
  - unfold vm_operation_object. rewrite Hnum, Z.eqb_refl. cbv iota. by rewrite (proj2 (Z.ltb_lt _ _)) by lia.
  - unfold vm_size_object, u8. rewrite length_app, Z.mod_small by lia. f_equal. lia.
  - rewrite split_spec by (rewrite ?length_app; lia). rewrite Nat2Z.id. by rewrite drop_0, take_app_length.
  - rewrite split_spec by (rewrite ?length_app; lia). rewrite !Nat2Z.id, drop_app_length. by rewrite firstn_all.
  - rewrite split_spec by (rewrite ?length_app; lia). rewrite Nat2Z.id, drop_app_length, take_ge; [done|lia].
Qed.

Lemma concat_split_witness :
  let len s := print_int (Z.of_nat (length s)) in
  ∃ s, vm_operation_object INS_ADD [99; 100; 101] [97; 98] = Ret (None, s) ∧
    vm_size_object s = print_int 5 ∧
    vm_split_object (len [97; 98]) (print_int 0) s = Ret [97; 98] ∧
    vm_split_object (len [99; 100; 101]) (len [97; 98]) s = Ret [99; 100; 101] ∧
    vm_split_object (print_int 200) (len [97; 98]) s = Ret [99; 100; 101].
Proof. apply (concat_split [97; 98] [99; 100; 101] 200); [reflexivity|cbn; lia..]. Defined.

(** the scan of a number ends at the first dot: [abc.5] is one *)
Example dotted_text_is_numeric : vm_is_numeric_s [97; 98; 99; 46; 53] = true ∧ text_value [97; 98; 99; 46; 53] = Ret 0.
Proof. by vm_compute. Qed.
