(* ===== verification/Args.v ===== *)
(** * Arrays and objects as texts (StackLib/StackVM/vm_framework.c)

    An array of the language is an object whose bytes are a tag, a length and
    the elements, each again a tag, a length and its contents: texts, numbers,
    pairs of a key and a value, and arrays. This file translates the functions
    that build such texts and read them; ArgsList proves that they are lists. *)
From S2P Require Import Prelude Decimal Isa Text Bytes.

Definition ASN_TAG_OCTSTRING : Z := 4.
Definition ASN_TAG_OBJDESC : Z := 7.
Definition ASN_TAG_REAL : Z := 9.
Definition ASN_TAG_SEQ : Z := 16.
Definition ASN_TAG_SET : Z := 17.
Definition VA_OBJECT_DELIMITER : Z := 0x80.
Definition VA_OBJECT_MAX_SIZE : nat := 4096.

(** [vm_object_get_type]: [VM_MAGIC], [VM_OBJ_MAGIC], [VM_EXT_MAGIC] with the
    tag of the extension *)
Inductive kind : Type := Plain | Array | Ext (tag : Z).
Record vm_object := mkObj { okind : kind; bytes : list Z }.

#[export] Instance kind_eq_dec : EqDecision kind.
Proof. solve_decision. Defined.
#[export] Instance vm_object_eq_dec : EqDecision vm_object.
Proof. solve_decision. Defined.

Definition len (o : vm_object) : nat := length (bytes o).

(** a [uint16] that counts bytes *)
Definition wrap16 (n : nat) : nat := Z.to_nat (u16 (Z.of_nat n)).

(** ** Lengths *)

(** [va_get_length] at [b + i]: the bytes it takes, and [*length], which a first
    byte that is no length leaves as it was ([None]: not set yet) *)
Definition va_get_length (b : list Z) (i : nat) (old : option nat) : res (nat * option nat) :=
  b0 ← get b i;
  if b0 <? 128 then Ret (1%nat, Some (Z.to_nat b0))
  else if b0 =? 0x81 then b1 ← get b (i + 1); Ret (2%nat, Some (Z.to_nat b1))
  else if b0 =? 0x82 then
    b1 ← get b (i + 1); b2 ← get b (i + 2); Ret (3%nat, Some (Z.to_nat (Z.lor (Z.shiftl b1 8) b2)))
  else if b0 =? 0x83 then
    b1 ← get b (i + 1); b2 ← get b (i + 2); b3 ← get b (i + 3);
    Ret (3%nat, Some (Z.to_nat (Z.lor (Z.lor (Z.shiftl b1 16) (Z.shiftl b2 8)) b3)))
  else Ret (0%nat, old).

(** [va_pop_lv(buffer + i, dst + d, &length)]: [buffer] and [dst] may be the
    same memory *)
Definition va_pop_lv (b : list Z) (i : nat) (dst : list Z) (d : nat) (old : option nat) : res (nat * option nat * list Z) :=
  b0 ← get b i;
  let copy (n : nat) (l : Z) :=
    x ← slice b (i + n) (Z.to_nat l); dst' ← store d x dst; Ret ((n + Z.to_nat l)%nat, Some (Z.to_nat l), dst') in
  if b0 <? 128 then copy 1%nat b0
  else if b0 =? 0x81 then b1 ← get b (i + 1); copy 2%nat b1
  else if b0 =? 0x82 then b1 ← get b (i + 1); b2 ← get b (i + 2); copy 3%nat (Z.lor (Z.shiftl b1 8) b2)
  else if b0 =? 0x83 then
    b1 ← get b (i + 1); b2 ← get b (i + 2); b3 ← get b (i + 3);
    copy 4%nat (Z.lor (Z.lor (Z.shiftl b1 16) (Z.shiftl b2 8)) b3)
  else Ret (0%nat, old, dst).

(** [va_push_lv(b + at, src, length)], where [src] holds the bytes read there;
    [length] is a [uint16] *)
Definition va_push_lv (pos : nat) (src : list Z) (length : nat) (b : list Z) : res (list Z * nat) :=
  let n := wrap16 length in
  let l := Z.of_nat n in
  x ← slice src 0 n;
  if l <? 128 then
    b1 ← store (pos + 1) x b; b2 ← put pos l b1; Ret (b2, (1 + n)%nat)
  else if l <? 255 then
    b1 ← store (pos + 2) x b; b2 ← put pos 0x81 b1; b3 ← put (pos + 1) l b2; Ret (b3, (2 + n)%nat)
  else if l <? 65535 then
    b1 ← store (pos + 3) x b; b2 ← put pos 0x82 b1; b3 ← put (pos + 1) (Z.shiftr l 8) b2; b4 ← put (pos + 2) (Z.land l 0xFF) b3;
    Ret (b4, (3 + n)%nat)
  else
    b1 ← store (pos + 4) x b; b2 ← put pos 0x83 b1; b3 ← put (pos + 1) (Z.shiftr l 16) b2; b4 ← put (pos + 2) (Z.shiftr l 8) b3;
    b5 ← put (pos + 3) (Z.land l 0xFF) b4; Ret (b5, (4 + n)%nat).

Definition is_container (b0 : Z) : bool := (b0 =? ASN_TAG_SET) || (b0 =? ASN_TAG_SEQ).

Section args.

(** fresh memory, the bytes behind an object, the text an extension gives of
    itself, [apis->text], and the bytes of the extension that holds the number
    [atof] reads in a text *)
Context (malloc : nat → list Z) (slack : list Z) (ext_text : vm_object → list Z) (float_bytes : list Z → list Z).

Definition memory (o : vm_object) : list Z := bytes o ++ slack.

(** ** Building *)

(** the [switch] over the type of an element, which is put at [bbuf + n]; the
    text of an extension is first written [gap] bytes further on; [cast] is the
    type of [llen], an [int] or a [uint16] *)
Definition put_element (cast : nat → nat) (gap : nat) (ibj : vm_object) (s : list Z * nat) : res (list Z * nat) :=
  let '(bbuf, n) := s in
  match okind ibj with
  | Array => b ← store n (bytes ibj) bbuf; Ret (b, (n + len ibj)%nat)
  | Plain =>
      r ← va_push_lv (n + 1) (memory ibj) (len ibj) bbuf;
      b ← put n ASN_TAG_OCTSTRING r.1; Ret (b, (n + (cast r.2 + 1))%nat)
  | Ext tag =>
      let t := ext_text ibj in
      b0 ← store (n + gap) t bbuf;
      x ← slice b0 (n + gap) (length t);
      r ← va_push_lv (n + 1) x (length t) b0;
      b ← put n tag r.1; Ret (b, (n + (cast r.2 + 1))%nat)
  end.

(** [va_push_lv(bbuf + 1, bbuf, n)], the tag, and the object *)
Definition close_container (cast : nat → nat) (tag : Z) (s : list Z * nat) : res vm_object :=
  let '(bbuf, n) := s in
  r ← va_push_lv 1 bbuf n bbuf;
  b ← put 0 tag r.1;
  x ← slice b 0 (cast r.2 + 1); Ret (mkObj Array x).

(** [va_arg_object] and [va_arg_array], with the room they add *)
Definition va_arg_build (cast : nat → nat) (tag : Z) (room : nat) (args : list vm_object) : res vm_object :=
  s ← foldM (put_element cast 5) args (malloc (sum_list_with (λ o, len o + 3)%nat args + room), 0%nat);
  close_container cast tag s.

Definition va_arg_object (args : list vm_object) : res vm_object := va_arg_build wrap16 ASN_TAG_SEQ VA_OBJECT_MAX_SIZE args.
Definition va_arg_array (args : list vm_object) : res vm_object := va_arg_build id ASN_TAG_SET 240 args.

(** [va_arg_create]: the key is not used, its place has the value once more;
    [bbuf] has VA_OBJECT_MAX_SIZE bytes and is not initialised *)
Definition vm_object_get_text (o : vm_object) : res (list Z) :=
  match okind o with
  | Plain => slice (bytes o) 0 (wrap16 (len o))
  | Array => Ret []
  | Ext _ => Ret (ext_text o)
  end.

Definition va_arg_create (key val : vm_object) : res vm_object :=
  t ← vm_object_get_text val;
  b1 ← store 0 t (malloc VA_OBJECT_MAX_SIZE);
  b2 ← put (length t) VA_OBJECT_DELIMITER b1;
  b3 ← store (length t + 1) t b2;
  close_container wrap16 ASN_TAG_OBJDESC (b3, (length t + 1 + length t)%nat).

(** [va_arg_add]: [bbuf] is an array of the stack *)
Definition va_arg_add (obj val : vm_object) : res (option vm_object) :=
  if bool_decide (len obj = 0)%nat then Ret None
  else
    b0 ← get (memory obj) 0;
    if is_container b0 then
      p ← va_pop_lv (memory obj) 1 (malloc VA_OBJECT_MAX_SIZE) 0 (Some 0%nat);
      n ← from_option_ub p.1.2;
      s ← put_element id 4 val (p.2, n);
      o ← close_container id b0 s; Ret (Some o)
    else Ret None.

(** ** Counting *)
Definition count_step (b : list Z) (tlen : nat) (s : nat * option nat * nat) : res (nat * option nat * nat + nat) :=
  let '(i, l, cntr) := s in
  if bool_decide (i < tlen)%nat then
    _ ← get b i;
    r ← va_get_length b (i + 1) l;
    n ← from_option_ub r.2;
    Ret (inl ((i + (n + r.1 + 1))%nat, r.2, wrap16 (cntr + 1)))
  else Ret (inr cntr).

Definition va_arg_count_t (fuel : nat) (b : list Z) (wlen : nat) : res nat :=
  if bool_decide (wlen = 0)%nat then Ret 0%nat
  else
    b0 ← get b 0;
    if is_container b0 then
      r ← va_get_length b 1 None;
      tlen ← from_option_ub r.2;
      loop fuel (count_step b (tlen + (r.1 + 1))) ((r.1 + 1)%nat, None, 0%nat)
    else Ret 0%nat.

Definition va_arg_count_s (fuel : nat) (obj : vm_object) : res nat := va_arg_count_t fuel (memory obj) (len obj).

(** [va_return_word] of the count *)
Definition va_arg_count (fuel : nat) (obj : vm_object) : res vm_object :=
  c ← va_arg_count_s fuel obj; Ret (mkObj Plain (print_int (Z.of_nat c))).

(** ** Reading by key *)

(** the loop of [va_arg_get]: [i], [len], [bbuf]; it leaves with the object
    found or without *)
Definition get_step (key : list Z) (tlen : nat) (s : nat * option nat * list Z) :
  res (nat * option nat * list Z + option vm_object) :=
  let '(i, l, bbuf) := s in
  if bool_decide (i < tlen)%nat then
    tag ← get bbuf i;
    let i1 := wrap16 (i + 1) in
    p ← va_pop_lv bbuf i1 bbuf 0 l;
    let '(llen, l', b) := p in
    let next := Ret (inl (wrap16 (i1 + llen), l', b)) in
    if tag =? ASN_TAG_OBJDESC then
      d ← get b (length key);
      if d =? VA_OBJECT_DELIMITER then
        x ← slice b 0 (length key);
        if bool_decide (x = key) then
          n ← from_option_ub l';
          if bool_decide (length key + 1 ≤ n)%nat then
            v ← slice b (length key + 1) (n - (length key + 1)); Ret (inr (Some (mkObj Array v)))
          else Undef
        else next
      else next
    else next
  else Ret (inr None).

Definition va_arg_get (fuel : nat) (obj key : vm_object) : res (option vm_object) :=
  if bool_decide (len obj = 0)%nat then Ret None
  else
    b0 ← get (memory obj) 0;
    if is_container b0 then
      p ← va_pop_lv (memory obj) 1 (malloc (len obj)) 0 None;
      tlen ← from_option_ub p.1.2;
      loop fuel (get_step (bytes key) tlen) (0%nat, p.1.2, p.2)
    else Ret None.

(** ** Reading by number *)

(** [va_o2f] of a text: [buffer] has 64 bytes, [len] and [offset] eight bits *)
Definition va_o2f (obj : list Z) : res Z :=
  let n := u8 (Z.of_nat (length obj)) in
  if n =? 0 then Ret 0
  else
    let n1 := if bool_decide (64 < length obj)%nat then 63 else n in
    let offset := u8 (Z.of_nat (length obj) - n1) in
    t ← slice obj (Z.to_nat offset) (Z.to_nat n1);
    guardb (n1 <? 64) ≫= λ _, s ← from_option_ub (c_string (t ++ [0])); atoi s.

(** [va_create_ext_float]: the number is read from the bytes; from 65 on it
    returns [VM_NULL_OBJECT], a literal shorter than an object *)
Definition va_create_ext_float (b : list Z) : res vm_object :=
  if bool_decide (length b < 64)%nat then Ret (mkObj (Ext ASN_TAG_REAL) (float_bytes b)) else Undef.

(** an element as an object of its own: contents of a text or a number *)
Definition element_object (tag : Z) (contents whole : list Z) : res vm_object :=
  if tag =? ASN_TAG_OCTSTRING then Ret (mkObj Plain contents)
  else if tag =? ASN_TAG_REAL then va_create_ext_float contents
  else Ret (mkObj Array whole).

(** the loop of [va_arg_at]: [i], [j], [len], [bbuf], [bbuf_len], [actual_count]
    and the object to return *)
Record at_state := mkAt { at_i : nat; at_j : Z; at_len : option nat; at_buf : list Z; at_buf_len : nat; at_count : Z; at_ret : option vm_object }.

Definition at_step (b : list Z) (hlen tlen : nat) (index total : Z) (s : at_state) : res (at_state + at_state) :=
  if bool_decide (at_i s < tlen)%nat then
    tag ← get b (hlen + at_i s);
    p ← va_pop_lv b (hlen + (at_i s + 1)) (at_buf s) (at_buf_len s) (at_len s);
    let '(llen, l, bbuf) := p in
    let next buf buf_len count ret := Ret (inl (mkAt (at_i s + 1 + llen) (at_j s + 1) l buf buf_len count ret)) in
    let push_object (n : nat) :=
      x ← slice bbuf (at_buf_len s) n;
      r ← va_push_lv (1 + at_buf_len s) x n bbuf;
      buf ← put (at_buf_len s) tag r.1;
      next buf (at_buf_len s + (r.2 + 1))%nat (at_count s + 1) (at_ret s) in
    if (index <=? at_j s) && (at_j s <? index + total) then
      n ← from_option_ub l;
      if (tag =? ASN_TAG_OCTSTRING) && negb (1 <? total) then
        x ← slice bbuf 0 n; next bbuf n (at_count s) (Some (mkObj Plain x))
      else if (tag =? ASN_TAG_REAL) && negb (1 <? total) then
        x ← slice bbuf 0 n; o ← va_create_ext_float x; next bbuf n (at_count s) (Some o)
      else push_object n
    else next bbuf (at_buf_len s) (at_count s) (at_ret s)
  else Ret (inr s).

(** the [default] branch of [va_arg_at] *)
Definition va_arg_at_number (fuel : nat) (obj : vm_object) (vindex : list Z) (vtotal : option (list Z)) : res (option vm_object) :=
  total0 ← (match vtotal with Some t => va_o2f t | None => Ret 1 end : res Z);
  index0 ← va_o2f vindex;
  if bool_decide (len obj = 0)%nat then Ret None
  else
    b0 ← get (memory obj) 0;
    if is_container b0 then
      c ← va_arg_count_s fuel obj;
      let est_count := Z.of_nat c in
      let index := if index0 <? 0 then est_count + index0 else index0 in
      if index <? 0 then Ret None
      else
        let total1 := if total0 <? 0 then Z.max 0 (est_count - index + (total0 + 1)) else total0 in
        let total := if est_count <? index + total1 then est_count - index else total1 in
        if total =? 0 then Ret None
        else
          p ← va_pop_lv (memory obj) 1 (malloc (len obj)) 0 None;
          tlen ← from_option_ub p.1.2;
          let hlen := (p.1.1 - tlen + 1)%nat in
          s ← loop fuel (at_step (memory obj) hlen tlen index total) (mkAt 0 0 None p.2 0 0 None);
          if 1 <? at_count s then
            o ← close_container id ASN_TAG_SET (at_buf s, at_buf_len s); Ret (Some o)
          else Ret (at_ret s)
    else Ret None.

(** [va_arg_at]: an index that is no number is a key *)
Definition va_arg_at (fuel : nat) (obj : vm_object) (vindex : list Z) (vtotal : option (list Z)) : res (option vm_object) :=
  if vm_is_numeric_s vindex then va_arg_at_number fuel obj vindex vtotal
  else va_arg_get fuel obj (mkObj Plain vindex).

(** ** Changing *)
Inductive set_mode := VA_ARG_MODE_SET | VA_ARG_MODE_DEQUEUE | VA_ARG_MODE_POP.

#[export] Instance set_mode_eq_dec : EqDecision set_mode.
Proof. solve_decision. Defined.

(** the loop of [va_arg_set_operation]: [i], [cntr], [len], [llen], [bbuf],
    [dlen] and [retobj] *)
Record set_state := mkSet { st_i : nat; st_cntr : Z; st_len : option nat; st_llen : nat; st_buf : list Z; st_dlen : nat; st_ret : option vm_object }.

Definition set_step (b : list Z) (key : list Z) (val : vm_object) (mode : set_mode) (index : Z) (tlen : nat) (s : set_state) :
  res (set_state + set_state) :=
  let i := st_i s in
  if bool_decide (i < tlen)%nat then
    tag ← get b i;
    g ← va_get_length b (i + 1) (st_len s);
    n ← from_option_ub g.2;
    let size := (n + g.1 + 1)%nat in
    let next llen buf dlen ret := Ret (inl (mkSet (i + size) (st_cntr s + 1) g.2 llen buf dlen ret)) in
    let skip ret := next (st_llen s) (st_buf s) (st_dlen s) ret in
    let copy := x ← slice b i size; buf ← store (st_dlen s) x (st_buf s); next (st_llen s) buf (st_dlen s + size)%nat (st_ret s) in
    if index =? -1 then
      found ← (if tag =? ASN_TAG_OBJDESC then
                 d ← get b (i + st_llen s + 1 + length key);
                 if d =? VA_OBJECT_DELIMITER then
                   x ← slice b (i + st_llen s + 1) (length key); Ret (bool_decide (x = key))
                 else Ret false
               else Ret false : res bool);
      if (found : bool) then
        if bool_decide (len val = 0)%nat then skip (st_ret s)
        else
          b1 ← put (st_dlen s) tag (st_buf s);
          let d := (st_dlen s + 1)%nat in
          b2 ← store d key b1;
          b3 ← put (d + length key) VA_OBJECT_DELIMITER b2;
          b4 ← store (d + 1 + length key) (bytes val) b3;
          x ← slice b4 d (length key + len val + 1);
          r ← va_push_lv d x (length key + len val + 1) b4;
          next r.2 r.1 (d + r.2)%nat (st_ret s)
      else copy
    else if st_cntr s =? index then
      if bool_decide (len val = 0)%nat then
        if decide (mode = VA_ARG_MODE_SET) then skip (st_ret s)
        else
          w ← va_get_length b (i + 1) None;
          m ← from_option_ub w.2;
          contents ← slice b (i + w.1 + 1) (if (tag =? ASN_TAG_OCTSTRING) || (tag =? ASN_TAG_REAL) then m else 0);
          whole ← slice b i (if (tag =? ASN_TAG_OCTSTRING) || (tag =? ASN_TAG_REAL) then 0 else size);
          o ← element_object tag contents whole;
          skip (Some o)
      else
        e ← put_element id 5 val (st_buf s, st_dlen s);
        next (if decide (okind val = Array) then st_llen s else (e.2 - st_dlen s - 1)%nat) e.1 e.2 (st_ret s)
    else copy
  else Ret (inr s).

(** [va_arg_set_operation]: the object returned, and the container that takes
    the place of [obj] *)
Definition va_arg_set_operation (fuel : nat) (obj key val : vm_object) (mode : set_mode) : res (option (vm_object * vm_object)) :=
  if bool_decide (len obj = 0)%nat then Ret None
  else
    b0 ← get (memory obj) 0;
    if is_container b0 then
      index0 ← (if vm_is_numeric_s (bytes key) then va_o2f (bytes key) else Ret (-1) : res Z);
      est_count ← va_arg_count_s fuel obj;
      if bool_decide (mode ≠ VA_ARG_MODE_SET) && bool_decide (est_count = 0)%nat then Ret None
      else
        let index := match mode with
                     | VA_ARG_MODE_DEQUEUE => 0
                     | VA_ARG_MODE_POP => Z.of_nat est_count - 1
                     | VA_ARG_MODE_SET => index0
                     end in
        let bbuf := malloc (len obj + len key + len val + (est_count + 1) * 6) in
        g ← va_get_length (memory obj) 1 None;
        tlen ← from_option_ub g.2;
        s ← loop fuel (set_step (memory obj) (bytes key) val mode index (tlen + (g.1 + 1)))
              (mkSet (g.1 + 1) 0 None g.1 bbuf 0 None);
        o ← close_container id b0 (st_buf s, st_dlen s);
        Ret (Some (default o (st_ret s), o))
    else Ret None.

(** its callers; [null] is what [VM_NULL_OBJECT] stands for, an object without
    bytes (the literal itself is shorter than the fields that are read) *)
Context (null : vm_object).

Definition va_arg_set (fuel : nat) (obj key val : vm_object) : res (option (vm_object * vm_object)) :=
  va_arg_set_operation fuel obj key val VA_ARG_MODE_SET.
Definition va_arg_remove (fuel : nat) (obj key : vm_object) : res (option (vm_object * vm_object)) :=
  va_arg_set_operation fuel obj key null VA_ARG_MODE_SET.
Definition va_arg_dequeue (fuel : nat) (obj : vm_object) : res (option (vm_object * vm_object)) :=
  va_arg_set_operation fuel obj null null VA_ARG_MODE_DEQUEUE.
Definition va_arg_pop (fuel : nat) (obj : vm_object) : res (option (vm_object * vm_object)) :=
  va_arg_set_operation fuel obj null null VA_ARG_MODE_POP.

End args.
