(* ===== verification/ArgsList.v ===== *)
(** * Arrays are lists

    The texts that Args builds and reads are encodings of lists of elements.
    The functions that change an array change the list, those that read it read
    the list. *)
From S2P Require Import Prelude Decimal Isa Text Bytes Args.

(** ** Encoding *)
Abbreviation element := (prod Z (list Z)).

Definition header (n : nat) : list Z :=
  let l := Z.of_nat n in
  if l <? 128 then [l] else if l <? 255 then [0x81; l] else [0x82; l / 256; l mod 256].

Definition encode (e : element) : list Z := e.1 :: header (length e.2) ++ e.2.
Definition contents (es : list element) : list Z := concat (encode <$> es).
Definition container (tag : Z) (es : list element) : list Z := encode (tag, contents es).

(** texts up to this length have a length in at most 16 bits, with room for the
    tag and the header *)
Definition LIMIT : Z := 65530.

Lemma length_header n : (1 ≤ length (header n) ≤ 3)%nat.
Proof. unfold header. repeat case_match; cbn; lia. Qed.

Lemma contents_cons e es : contents (e :: es) = encode e ++ contents es.
Proof. done. Qed.

Lemma contents_app es1 es2 : contents (es1 ++ es2) = contents es1 ++ contents es2.
Proof. unfold contents. by rewrite fmap_app, concat_app. Qed.

Lemma length_encode e : length (encode e) = (1 + length (header (length e.2)) + length e.2)%nat.
Proof. unfold encode. cbn. rewrite length_app. lia. Qed.

Lemma contents_elem e es : e ∈ es → (length (encode e) ≤ length (contents es))%nat.
Proof.
  intros H. apply list_elem_of_split in H as (l1 & l2 & ->). rewrite contents_app, contents_cons, !length_app. lia.
Qed.

Lemma length_contents_count es : (2 * length es ≤ length (contents es))%nat.
Proof.
  induction es as [|e es IH]; [done|]. rewrite contents_cons, length_app, length_encode. pose proof (length_header (length e.2)). cbn [length]. lia.
Qed.

(** ** Reads behind a place, and writes *)
Lemma get_drop (b l : list Z) i k : drop i b = l → get b (i + k) = get l k.
Proof. intros <-. unfold get. by rewrite lookup_drop. Qed.

Lemma get_drop_0 (b l : list Z) i : drop i b = l → get b i = get l 0.
Proof. intros H. rewrite <-(get_drop b l i 0 H). by rewrite Nat.add_0_r. Qed.

Lemma slice_drop (b a x c : list Z) i : drop i b = a ++ x ++ c → (i ≤ length b)%nat → slice b (i + length a) (length x) = Ret x.
Proof.
  intros H Hi. unfold slice. assert (Hl := f_equal length H). rewrite length_drop, !length_app in Hl.
  rewrite bool_decide_eq_true_2 by lia. by rewrite <-drop_drop, H, drop_app_length, take_app_length.
Qed.

Lemma store_zero (c b : list Z) : (length c ≤ length b)%nat → store 0 c b = Ret (c ++ drop (length c) b).
Proof. intros H. unfold store. by rewrite bool_decide_eq_true_2 by lia. Qed.

(** ** Lengths *)
Lemma header_digits n : Z.of_nat n < 65535 → 255 ≤ Z.of_nat n →
  Z.lor (Z.shiftl (Z.of_nat n / 256) 8) (Z.of_nat n mod 256) = Z.of_nat n.
Proof.
  intros Hn Hn'. rewrite Z.lor_comm, lor_shiftl_add by (change (2 ^ 8) with 256; Z.div_mod_to_equations; lia). rewrite Z.shiftl_mul_pow2 by lia. change (2 ^ 8) with 256. Z.div_mod_to_equations; lia.
Qed.

Lemma get_length_ok b i n r old : drop i b = header n ++ r → Z.of_nat n < 65535 →
  va_get_length b i old = Ret (length (header n), Some n).
Proof.
  intros Hb Hn. unfold va_get_length. rewrite (get_drop_0 _ _ _ Hb), !(get_drop _ _ _ _ Hb). unfold header.
  destruct (Z.ltb_spec (Z.of_nat n) 128) as [H1|H1].
  { cbn [app get lookup list_lookup from_option_ub mbind res_bind length]. rewrite (proj2 (Z.ltb_lt _ _)) by done. by rewrite Nat2Z.id. }
  destruct (Z.ltb_spec (Z.of_nat n) 255) as [H2|H2]; cbn [app get lookup list_lookup from_option_ub mbind res_bind length].
  - change (129 <? 128) with false. change (129 =? 129) with true. cbn iota. by rewrite Nat2Z.id.
  - change (130 <? 128) with false. change (130 =? 129) with false. change (130 =? 130) with true. cbn iota. by rewrite header_digits, Nat2Z.id by lia.
Qed.

Lemma pop_lv_ok b i (c r dst dst' : list Z) d old :
  drop i b = header (length c) ++ c ++ r → Z.of_nat (length c) < 65535 → (i ≤ length b)%nat → store d c dst = Ret dst' →
  va_pop_lv b i dst d old = Ret ((length (header (length c)) + length c)%nat, Some (length c), dst').
Proof.
  intros Hb Hn Hi Hs. pose proof (slice_drop _ _ _ _ _ Hb Hi) as Hsl. unfold va_pop_lv.
  rewrite (get_drop_0 _ _ _ Hb), !(get_drop _ _ _ _ Hb). unfold header in *.
  destruct (Z.ltb_spec (Z.of_nat (length c)) 128) as [H1|H1].
  { cbn [app get lookup list_lookup from_option_ub mbind res_bind length] in *. rewrite (proj2 (Z.ltb_lt _ _)) by done. rewrite Nat2Z.id, Hsl. res_cbn. by rewrite Hs. }
  destruct (Z.ltb_spec (Z.of_nat (length c)) 255) as [H2|H2]; cbn [app get lookup list_lookup from_option_ub mbind res_bind length] in *.
  - change (129 <? 128) with false. change (129 =? 129) with true. cbn iota. rewrite Nat2Z.id, Hsl. res_cbn. by rewrite Hs.
  - change (130 <? 128) with false. change (130 =? 129) with false. change (130 =? 130) with true. cbn iota. rewrite header_digits, Nat2Z.id, Hsl by lia. res_cbn. by rewrite Hs.
Qed.

Lemma wrap16_id n : Z.of_nat n < 65536 → wrap16 n = n.
Proof. intros H. unfold wrap16. rewrite u16_id by (unfold is_u16; lia). apply Nat2Z.id. Qed.

(** room of the right size is filled *)
Lemma push_lv_ok (w r c y : list Z) : Z.of_nat (length c) < 65535 → (length (header (length c)) + length c ≤ length r)%nat →
  va_push_lv (length w) (c ++ y) (length c) (w ++ r) =
    Ret ((w ++ header (length c) ++ c) ++ drop (length (header (length c)) + length c) r, (length (header (length c)) + length c)%nat).
Proof.
  intros Hn Hr. unfold va_push_lv. rewrite wrap16_id, slice_all by lia. res_cbn.
  assert (Hp : ∀ h0 h r' v, is_byte v → put (length w + length h0) v (w ++ h0 ++ h :: r') = Ret (w ++ (h0 ++ [v]) ++ r')).
  { intros h0 h r' v Hv. rewrite app_assoc, <-length_app, put_next by done. cbn [drop]. by rewrite <-!app_assoc. }
  assert (Hp0 : ∀ h r' v, is_byte v → put (length w) v (w ++ h :: r') = Ret (w ++ [v] ++ r')).
  { intros h r' v Hv. rewrite put_next by done. by rewrite <-app_assoc. }
  assert (Hst : ∀ h r', r = h ++ r' → (length c ≤ length r')%nat → store (length w + length h) c (w ++ r) = Ret (w ++ h ++ c ++ drop (length c) r')).
  { intros h r' -> Hl. rewrite app_assoc, <-length_app, store_app by done. by rewrite <-!app_assoc. }
  unfold header in *. destruct (Z.ltb_spec (Z.of_nat (length c)) 128) as [H1|H1].
  { destruct r as [|x0 r]; [cbn in Hr; lia|]. cbn [length] in Hr. assert (E := Hst [x0] r eq_refl ltac:(lia)). cbn [length] in E. rewrite E. res_cbn. cbn [app].
    rewrite Hp0 by (unfold is_byte; lia). res_cbn. by rewrite <-!app_assoc. }
  destruct (Z.ltb_spec (Z.of_nat (length c)) 255) as [H2|H2]; cbn [length] in Hr.
  - destruct r as [|x0 [|x1 r]]; [cbn in Hr; lia..|]. cbn [length] in Hr. assert (E := Hst [x0; x1] r eq_refl ltac:(lia)). cbn [length] in E. rewrite E. res_cbn. cbn [app].
    rewrite Hp0 by (unfold is_byte; lia). res_cbn. change 1%nat with (length [129]). rewrite (Hp [129] x1) by (unfold is_byte; lia). res_cbn. by rewrite <-!app_assoc.
  - rewrite (proj2 (Z.ltb_lt _ _)) by lia. destruct r as [|x0 [|x1 [|x2 r]]]; [cbn in Hr; lia..|]. cbn [length] in Hr. assert (E := Hst [x0; x1; x2] r eq_refl ltac:(lia)). cbn [length] in E. rewrite E. res_cbn. cbn [app].
    rewrite Z.shiftr_div_pow2 by lia. change (2 ^ 8) with 256. change 0xFF with (Z.ones 8). rewrite Z.land_ones by lia. change (2 ^ 8) with 256.
    rewrite Hp0 by (unfold is_byte; lia). res_cbn. change 1%nat with (length [130]). rewrite (Hp [130] x1) by (unfold is_byte; Z.div_mod_to_equations; lia). res_cbn. cbn [app].
    assert (E2 := Hp [130; Z.of_nat (length c) / 256] x2 (c ++ drop (length c) r) (Z.of_nat (length c) mod 256) ltac:(unfold is_byte; Z.div_mod_to_equations; lia)).
    cbn [app length] in E2 |- *. rewrite E2. res_cbn. by rewrite <-!app_assoc.
Qed.

(** ** Building *)

(** a type for [llen] that holds the lengths in question *)
Definition keeps_small (cast : nat → nat) : Prop := ∀ n, Z.of_nat n < 65536 → cast n = n.

Lemma keeps_small_wrap16 : keeps_small wrap16.
Proof. intros n H. by apply wrap16_id. Qed.

Lemma keeps_small_id : keeps_small id.
Proof. done. Qed.

Lemma put_at (w r : list Z) v x : is_byte v → put (length w) v (w ++ x :: r) = Ret ((w ++ [v]) ++ r).
Proof. intros Hv. by rewrite put_next. Qed.

Section lists.
Context (malloc : nat → list Z) (slack : list Z) (ext_text : vm_object → list Z) (float_bytes : list Z → list Z).
Context (Hmalloc : ∀ n, length (malloc n) = n).

(** the element an object becomes: a text, the text of an extension of at most
    its size, or the element whose bytes the object is *)
Definition element_of (o : vm_object) (e : element) : Prop :=
  match okind o with
  | Plain => e = (ASN_TAG_OCTSTRING, bytes o)
  | Ext tag => e = (tag, ext_text o) ∧ (length (ext_text o) ≤ len o)%nat
  | Array => bytes o = encode e
  end ∧ is_byte e.1.

Lemma length_element_of o e : element_of o e → (length (encode e) ≤ len o + 4)%nat.
Proof.
  unfold element_of, len. intros [H _]. rewrite length_encode. pose proof (length_header (length e.2)). destruct (okind o).
  - subst e. cbn [snd] in *. lia.
  - rewrite H, length_encode. lia.
  - destruct H as [-> H]. cbn [snd] in *. unfold len in H. lia.
Qed.

Lemma put_element_ok cast gap o e w r :
  keeps_small cast → element_of o e → Z.of_nat (length (encode e)) ≤ LIMIT → (length (encode e) + gap ≤ length r)%nat →
  ∃ r', put_element slack ext_text cast gap o (w ++ r, length w) = Ret ((w ++ encode e) ++ r', length (w ++ encode e)) ∧
    (length r' + length (encode e) = length r)%nat.
Proof.
  intros Hc [Ho Ht] Hl Hr. rewrite length_encode in Hl, Hr. unfold LIMIT in Hl. unfold put_element.
  assert (Hlv : ∀ tag (c y r : list Z), is_byte tag → (1 + length (header (length c)) + length c ≤ length r)%nat → 1 + Z.of_nat (length c) ≤ LIMIT →
    ∃ r', (x ← va_push_lv (length w + 1) (c ++ y) (length c) (w ++ r); b ← put (length w) tag x.1; Ret (b, (length w + (cast x.2 + 1))%nat)) =
      Ret ((w ++ encode (tag, c)) ++ r', length (w ++ encode (tag, c))) ∧ (length r' + length (encode (tag, c)) = length r)%nat).
  { clear r Hr. intros tag c y r Htag Hr Hlim. unfold LIMIT in Hlim. pose proof (length_header (length c)). destruct r as [|x0 r]; [cbn in Hr; lia|]. cbn [length] in Hr.
    assert (E := push_lv_ok (w ++ [x0]) r c y ltac:(lia) ltac:(lia)). rewrite length_app, <-!app_assoc in E. cbn [length app] in E. rewrite E.
    cbn [mbind res_bind fst snd]. rewrite put_at by done. cbn [mbind res_bind]. rewrite Hc by lia.
    exists (drop (length (header (length c)) + length c) r). rewrite length_app, length_encode, length_drop. cbn [snd length].
    split; [|lia]. unfold encode. cbn [fst snd]. rewrite <-!app_assoc. cbn [app]. rewrite <-!app_assoc. f_equal. f_equal. lia. }
  destruct (okind o) as [| |tag].
  - subst e. cbn [fst snd] in *. apply Hlv; [done|lia|unfold LIMIT; lia].
  - rewrite Ho. rewrite store_app by (rewrite length_encode; lia). res_cbn. unfold len. rewrite Ho, (length_app w).
    eexists. split; [reflexivity|]. rewrite length_drop. rewrite length_encode. lia.
  - destruct Ho as [-> Hsz]. cbn [fst snd] in *. set (t := ext_text o) in *. pose proof (length_header (length t)).
    assert (Es : store (length w + gap) t (w ++ r) = Ret (w ++ (take gap r ++ t ++ drop (gap + length t) r))).
    { unfold store. rewrite length_app, bool_decide_eq_true_2 by lia. rewrite take_app_add, <-Nat.add_assoc, drop_app_add. by rewrite <-app_assoc. }
    rewrite Es. cbn [mbind res_bind].
    assert (Et : slice (w ++ take gap r ++ t ++ drop (gap + length t) r) (length w + gap) (length t) = Ret t).
    { pose proof (slice_app (w ++ take gap r) t (drop (gap + length t) r)) as E. rewrite length_app, length_take, Nat.min_l, <-app_assoc in E by lia. exact E. }
    rewrite Et. cbn [mbind res_bind]. set (r1 := take gap r ++ t ++ drop (gap + length t) r).
    assert (Hr1 : length r1 = length r) by (subst r1; rewrite !length_app, length_take, length_drop; lia).
    destruct (Hlv tag t [] r1 Ht) as (r' & E & Hr'); [lia|unfold LIMIT; lia|]. rewrite app_nil_r in E. exists r'. rewrite Hr1 in Hr'. done.
Qed.

Lemma close_container_tight cast tag (w r : list Z) :
  keeps_small cast → is_byte tag → Z.of_nat (length w) ≤ LIMIT → (1 + length (header (length w)) ≤ length r)%nat →
  close_container cast tag (w ++ r, length w) = Ret (mkObj Array (encode (tag, w))).
Proof.
  intros Hc Ht Hl Hr. unfold LIMIT in Hl. unfold close_container. pose proof (length_header (length w)).
  assert (E : ∃ x0 b, w ++ r = x0 :: b ∧ (length b = length w + length r - 1)%nat).
  { destruct w as [|x0 w]; [destruct r as [|x0 r]; [cbn in Hr; lia|]; exists x0, r; cbn; split; [done|lia]|].
    exists x0, (w ++ r). cbn. rewrite length_app. split; [done|lia]. }
  destruct E as (x0 & b & Eb & Hb).
  assert (E := push_lv_ok [x0] b w r ltac:(lia) ltac:(lia)). cbn [length app] in E. rewrite Eb in *. rewrite E. cbn [mbind res_bind fst snd].
  assert (Ep := put_at [] ((header (length w) ++ w) ++ drop (length (header (length w)) + length w) b) tag x0 Ht). cbn [app length] in Ep. rewrite <-app_assoc in Ep |- *.
  rewrite Ep. cbn [mbind res_bind]. rewrite Hc by lia.
  replace (tag :: header (length w) ++ w ++ drop (length (header (length w)) + length w) b)
    with (encode (tag, w) ++ drop (length (header (length w)) + length w) b) by (unfold encode; cbn [fst snd app]; by rewrite <-app_assoc).
  replace (length (header (length w)) + length w + 1)%nat with (length (encode (tag, w))) by (rewrite length_encode; cbn [snd]; lia).
  by rewrite slice_all.
Qed.

Lemma close_container_ok cast tag (w r : list Z) :
  keeps_small cast → is_byte tag → Z.of_nat (length w) ≤ LIMIT → (4 ≤ length r)%nat →
  close_container cast tag (w ++ r, length w) = Ret (mkObj Array (encode (tag, w))).
Proof. intros Hc Ht Hl Hr. pose proof (length_header (length w)). apply close_container_tight; (done || lia). Qed.

(** the arguments one after the other *)
Lemma put_elements_ok cast gap : keeps_small cast → ∀ args es w r,
  Forall2 element_of args es → Z.of_nat (length (contents es)) ≤ LIMIT → (length (contents es) + gap ≤ length r)%nat →
  ∃ r', foldM (put_element slack ext_text cast gap) args (w ++ r, length w) = Ret ((w ++ contents es) ++ r', length (w ++ contents es)) ∧
    (length r' + length (contents es) = length r)%nat.
Proof.
  intros Hc args es w r H. revert w r. induction H as [|o e args es Ho _ IH]; intros w r Hl Hr.
  - exists r. rewrite app_nil_r. split; [done|]. cbn. lia.
  - assert (Hlen : length (contents (e :: es)) = (length (encode e) + length (contents es))%nat) by (by rewrite contents_cons, length_app).
    rewrite Hlen in *. rewrite contents_cons. destruct (put_element_ok cast gap o e w r Hc Ho) as (r1 & E1 & L1); [lia|lia|]. cbn [foldM]. rewrite E1. cbn [mbind res_bind].
    destruct (IH (w ++ encode e) r1) as (r2 & E2 & L2); [lia|lia|]. exists r2. rewrite E2, <-!app_assoc. split; [done|lia].
Qed.

Lemma room_of_arguments args es : Forall2 element_of args es →
  (length (contents es) ≤ sum_list_with (λ o, len o + 3) args + length args)%nat.
Proof.
  induction 1 as [|o e args es Ho _ IH]; [cbn; lia|]. rewrite contents_cons, length_app. cbn [sum_list_with length].
  pose proof (length_element_of o e Ho). lia.
Qed.

Lemma build_ok cast tag room args es :
  keeps_small cast → is_byte tag → Forall2 element_of args es → Z.of_nat (length (contents es)) ≤ LIMIT → (length args + 9 ≤ room)%nat →
  va_arg_build malloc slack ext_text cast tag room args = Ret (mkObj Array (container tag es)).
Proof.
  intros Hc Ht H Hl Hroom. unfold va_arg_build. pose proof (room_of_arguments args es H) as Hs.
  set (n := (sum_list_with _ args + room)%nat). destruct (put_elements_ok cast 5 Hc args es [] (malloc n) H Hl) as (r & E & Hr); [rewrite Hmalloc; lia|].
  cbn [app length] in E. rewrite E. cbn [mbind res_bind]. apply close_container_ok; [done|done|done|]. rewrite Hmalloc in Hr. lia.
Qed.

(** ** Walking over the elements *)

(** the bytes from [i] on are an element and others *)
Lemma drop_element (b rest : list Z) i e : drop i b = encode e ++ rest → (i ≤ length b)%nat →
  get b i = Ret e.1 ∧ drop (i + 1) b = header (length e.2) ++ e.2 ++ rest ∧ drop (i + length (encode e)) b = rest ∧
  (i + length (encode e) ≤ length b)%nat ∧ slice b i (length (encode e)) = Ret (encode e).
Proof.
  intros H Hi. assert (Hl := f_equal length H). rewrite length_drop, length_app in Hl. pose proof (slice_drop b [] (encode e) rest i H Hi) as Hs.
  cbn [length] in Hs. rewrite Nat.add_0_r in Hs.
  rewrite (get_drop_0 _ _ _ H), <-!drop_drop, H, drop_app_length. unfold encode at 1 2. cbn [app get lookup list_lookup from_option_ub drop].
  rewrite <-app_assoc. split; [done|]. split; [done|]. split; [done|]. split; [rewrite length_encode in *; lia|done].
Qed.

Definition small (es : list element) : Prop := Z.of_nat (length (contents es)) ≤ LIMIT.

Lemma small_cons e es : small (e :: es) → Z.of_nat (length e.2) < 65535 ∧ small es ∧ Z.of_nat (length (encode e)) ≤ LIMIT.
Proof.
  unfold small, LIMIT. rewrite contents_cons, length_app. intros H. pose proof (length_encode e). pose proof (length_header (length e.2)). split; [lia|]. split; lia.
Qed.

Lemma count_loop b es : ∀ fuel i rest l c,
  drop i b = contents es ++ rest → (i ≤ length b)%nat → small es → Z.of_nat (c + length es) < 65536 → (length es < fuel)%nat →
  loop fuel (count_step b (i + length (contents es))) (i, l, c) = Ret (c + length es)%nat.
Proof.
  induction es as [|e es IH]; intros [|fuel] i rest l c Hb Hi Hsm Hc Hf; [lia| |lia|].
  - apply loop_inr. unfold count_step. rewrite bool_decide_eq_false_2 by (cbn; lia). do 2 f_equal. cbn. lia.
  - rewrite contents_cons, <-app_assoc in Hb. destruct (drop_element _ _ _ _ Hb Hi) as (G & D & D' & Hi' & _). cbn [length] in *.
    apply small_cons in Hsm as (He & Hsm & _). pose proof (length_encode e) as Hen. rewrite contents_cons, length_app.
    rewrite (loop_inl _ _ _ ((i + length (encode e))%nat, Some (length e.2), (c + 1)%nat)).
    + rewrite Nat.add_assoc. rewrite (IH fuel (i + length (encode e))%nat rest) by (done || lia). f_equal. lia.
    + unfold count_step. rewrite bool_decide_eq_true_2 by lia. rewrite G. cbn [mbind res_bind]. rewrite (get_length_ok _ _ _ _ _ D) by done.
      cbn [mbind res_bind from_option_ub fst snd]. rewrite wrap16_id by lia. do 4 f_equal. lia.
Qed.

(** the start of a container in memory *)
Lemma container_start tag es : is_container tag = true → small es →
  let b := container tag es ++ slack in
  get b 0 = Ret tag ∧ drop 1 b = header (length (contents es)) ++ contents es ++ slack ∧
  drop (length (header (length (contents es))) + 1) b = contents es ++ slack ∧
  (length (header (length (contents es))) + 1 + length (contents es) + length slack)%nat = length b ∧ length (container tag es) ≠ 0%nat.
Proof.
  intros Ht Hs b. assert (Hb : drop 0 b = encode (tag, contents es) ++ slack) by done. destruct (drop_element _ _ _ _ Hb) as (G & D & _); [lia|]. change (0 + 1)%nat with 1%nat in D.
  split; [exact G|]. split; [exact D|]. split; [rewrite Nat.add_comm, <-drop_drop; rewrite D; by rewrite drop_app_length|].
  subst b. unfold container. rewrite length_app, length_encode. cbn [snd]. lia.
Qed.

Lemma count_ok fuel tag es : is_container tag = true → small es → (length es < fuel)%nat →
  va_arg_count_s slack fuel (mkObj Array (container tag es)) = Ret (length es).
Proof.
  intros Ht Hs Hf. destruct (container_start tag es Ht Hs) as (G & D & D2 & Hl & Hn). unfold va_arg_count_s, va_arg_count_t, memory, len. cbn [bytes].
  rewrite bool_decide_eq_false_2 by done. rewrite G. cbn [mbind res_bind]. rewrite Ht. assert (Hs' := Hs). unfold small, LIMIT in Hs'.
  rewrite (get_length_ok _ _ _ _ _ D) by lia. cbn [mbind res_bind from_option_ub fst snd]. rewrite (Nat.add_comm (length (contents es))).
  pose proof (length_contents_count es). apply (count_loop _ es fuel _ slack None 0); [done|lia|done|lia|done].
Qed.

(** ** Reading by key *)

(** the value of an element that is a pair with this key *)
Definition value_of (key : list Z) (e : element) : option (list Z) :=
  if bool_decide (e.1 = ASN_TAG_OBJDESC ∧ take (length key) e.2 = key ∧ e.2 !! length key = Some VA_OBJECT_DELIMITER)
  then Some (drop (length key + 1) e.2) else None.

Fixpoint lookup_key (key : list Z) (es : list element) : option (list Z) :=
  match es with
  | [] => None
  | e :: es' => match value_of key e with Some v => Some v | None => lookup_key key es' end
  end.

(** a pair has a delimiter; a key has none *)
Definition proper (e : element) : Prop := e.1 = ASN_TAG_OBJDESC → VA_OBJECT_DELIMITER ∈ e.2.

(** the test of the loop on a pair, whatever lies behind the contents *)
Lemma key_test key e junk : proper e → VA_OBJECT_DELIMITER ∉ key → (length key < length (e.2 ++ junk))%nat → e.1 = ASN_TAG_OBJDESC →
  ∃ d, get (e.2 ++ junk) (length key) = Ret d ∧
    match value_of key e with
    | Some v => d = VA_OBJECT_DELIMITER ∧ slice (e.2 ++ junk) 0 (length key) = Ret key ∧ e.2 = key ++ [VA_OBJECT_DELIMITER] ++ v
    | None => d = VA_OBJECT_DELIMITER → ∃ x, slice (e.2 ++ junk) 0 (length key) = Ret x ∧ x ≠ key
    end.
Proof.
  intros Hp Hk Hl Ht. destruct (lookup_lt_is_Some_2 _ _ Hl) as [d Hd]. exists d. unfold get. rewrite Hd. split; [done|].
  assert (Hsl : slice (e.2 ++ junk) 0 (length key) = Ret (take (length key) (e.2 ++ junk))) by (unfold slice; by rewrite bool_decide_eq_true_2 by lia).
  unfold value_of. case_bool_decide as Hv.
  - destruct Hv as (_ & Hpre & Hdel). assert (Hlt := lookup_lt_Some _ _ _ Hdel). rewrite lookup_app_l, Hdel in Hd by done. injection Hd as <-. split; [done|].
    rewrite Hsl, take_app_le by lia. rewrite Hpre. split; [done|]. apply take_drop_middle in Hdel. rewrite Hpre in Hdel. rewrite <-Hdel at 1. by rewrite Nat.add_1_r.
  - intros ->. eexists. split; [exact Hsl|]. intros Heq. apply Hv. clear Hv. split; [done|]. destruct (decide (length key < length e.2)%nat) as [Hlt|Hge].
    + rewrite take_app_le in Heq by lia. rewrite lookup_app_l in Hd by lia. done.
    + exfalso. apply Hk. rewrite <-Heq, take_app_ge by lia. apply elem_of_app. left. by apply Hp.
Qed.

Lemma get_loop key es : VA_OBJECT_DELIMITER ∉ key → ∀ fuel i tail l b,
  drop i b = contents es ++ tail → (i ≤ length b)%nat → small es → Z.of_nat (i + length (contents es)) < 65536 → (length es < fuel)%nat →
  Forall proper es → (length key < length b)%nat →
  loop fuel (get_step key (i + length (contents es))) (i, l, b) = Ret (mkObj Array <$> lookup_key key es).
Proof.
  intros Hk. induction es as [|e es IH]; intros [|fuel] i tail l b Hb Hi Hsm Hc Hf Hp Hkl; [lia| |lia|].
  - apply loop_inr. unfold get_step. cbn [length contents fmap list_fmap concat]. by rewrite bool_decide_eq_false_2 by lia.
  - rewrite contents_cons, <-app_assoc in Hb. destruct (drop_element _ _ _ _ Hb Hi) as (G & D & D' & Hi' & _).
    apply small_cons in Hsm as (He & Hsm & _). pose proof (length_encode e) as Hen. pose proof (length_header (length e.2)).
    assert (Hlen : length (contents (e :: es)) = (length (encode e) + length (contents es))%nat) by (by rewrite contents_cons, length_app). rewrite Hlen in *.
    apply Forall_cons in Hp as [Hpe Hp]. cbn [length] in Hf. set (b' := e.2 ++ drop (length e.2) b).
    assert (Hb' : drop (i + length (encode e)) b' = contents es ++ tail).
    { subst b'. rewrite drop_app_ge by lia. rewrite drop_drop, <-D'. f_equal. lia. }
    assert (Hlb : length b' = length b) by (subst b'; rewrite length_app, length_drop; lia).
    assert (Epop : va_pop_lv b (i + 1) b 0 l = Ret ((length (header (length e.2)) + length e.2)%nat, Some (length e.2), b')).
    { apply (pop_lv_ok b (i + 1) e.2 (contents es ++ tail) b b' 0 l); [done|done|lia|]. apply store_zero. lia. }
    assert (Estep : get_step key (i + (length (encode e) + length (contents es))) (i, l, b) =
      Ret (match value_of key e with Some v => inr (Some (mkObj Array v)) | None => inl ((i + length (encode e))%nat, Some (length e.2), b') end)).
    { unfold get_step. rewrite bool_decide_eq_true_2 by lia. rewrite G. cbn [mbind res_bind]. rewrite wrap16_id by lia. rewrite Epop. cbn [mbind res_bind].
      rewrite wrap16_id by lia. replace (i + 1 + (length (header (length e.2)) + length e.2))%nat with (i + length (encode e))%nat by lia.
      destruct (Z.eqb_spec e.1 ASN_TAG_OBJDESC) as [Ht|Ht].
      - destruct (key_test key e (drop (length e.2) b) Hpe Hk) as (d & Ed & Hd); [fold b'; lia|done|]. fold b' in Ed, Hd. rewrite Ed. cbn [mbind res_bind].
        destruct (value_of key e) as [v|].
        + destruct Hd as (-> & Es & Ee). rewrite Z.eqb_refl, Es. cbn [mbind res_bind]. rewrite bool_decide_eq_true_2 by done. cbn [from_option_ub mbind res_bind].
          assert (El : length e.2 = (length key + 1 + length v)%nat) by (rewrite Ee, !length_app; cbn; lia). rewrite bool_decide_eq_true_2 by lia.
          assert (Ev : slice b' (length key + 1) (length e.2 - (length key + 1)) = Ret v).
          { replace (length e.2 - (length key + 1))%nat with (length v) by lia. subst b'. generalize (drop (length e.2) b). intros J. rewrite Ee.
            replace (length key + 1)%nat with (length (key ++ [VA_OBJECT_DELIMITER])) by (by rewrite length_app).
            replace ((key ++ [VA_OBJECT_DELIMITER] ++ v) ++ J) with ((key ++ [VA_OBJECT_DELIMITER]) ++ v ++ J) by (by rewrite <-!app_assoc). apply slice_app. }
          rewrite Ev. done.
        + destruct (Z.eqb_spec d VA_OBJECT_DELIMITER) as [->|]; [|done]. destruct (Hd eq_refl) as (x & Ex & Hx). rewrite Ex. cbn [mbind res_bind].
          by rewrite bool_decide_eq_false_2.
      - unfold value_of. by rewrite bool_decide_eq_false_2 by tauto. }
    cbn [lookup_key]. destruct (value_of key e) as [v|].
    + by rewrite (loop_inr _ _ _ _ Estep).
    + rewrite (loop_inl _ _ _ _ Estep). rewrite Nat.add_assoc. apply (IH fuel _ tail); [done|lia|done|lia|lia|done|lia].
Qed.

Lemma get_ok fuel tag es key : is_container tag = true → small es → Forall proper es → (length es < fuel)%nat →
  VA_OBJECT_DELIMITER ∉ bytes key → (len key < length (container tag es))%nat →
  va_arg_get malloc slack fuel (mkObj Array (container tag es)) key = Ret (mkObj Array <$> lookup_key (bytes key) es).
Proof.
  intros Ht Hs Hp Hf Hk Hkl. destruct (container_start tag es Ht Hs) as (G & D & D2 & Hl & Hn). assert (Hs' := Hs). unfold small, LIMIT in Hs'.
  unfold va_arg_get, memory, len. cbn [bytes]. rewrite bool_decide_eq_false_2 by done. rewrite G. cbn [mbind res_bind]. rewrite Ht.
  assert (Hlc : length (container tag es) = (1 + length (header (length (contents es))) + length (contents es))%nat) by (unfold container; rewrite length_encode; done).
  rewrite (pop_lv_ok _ _ (contents es) slack _ (contents es ++ drop (length (contents es)) (malloc (length (container tag es)))) 0 None D);
    [|lia|lia|apply store_zero; rewrite Hmalloc; lia].
  cbn [mbind res_bind from_option_ub fst snd]. apply (get_loop (bytes key) es Hk fuel 0 (drop (length (contents es)) (malloc (length (container tag es))))); [done|lia|done|lia|done|done|].
  rewrite length_app, length_drop, Hmalloc. unfold len in Hkl. lia.
Qed.

(** ** Changing *)

Lemma add_ok tag es o e : is_container tag = true → element_of o e →
  (length (contents (es ++ [e])) + 4 ≤ VA_OBJECT_MAX_SIZE)%nat →
  va_arg_add malloc slack ext_text (mkObj Array (container tag es)) o = Ret (Some (mkObj Array (container tag (es ++ [e])))).
Proof.
  intros Ht Ho Hl. assert (Ec : contents (es ++ [e]) = contents es ++ encode e) by (rewrite contents_app; cbn; by rewrite app_nil_r).
  rewrite Ec, length_app in Hl. unfold VA_OBJECT_MAX_SIZE in Hl. assert (Hs : small es) by (unfold small, LIMIT; lia).
  destruct (container_start tag es Ht Hs) as (G & D & D2 & Hlen & Hn). unfold va_arg_add, memory, len. cbn [bytes]. rewrite bool_decide_eq_false_2 by done.
  rewrite G. cbn [mbind res_bind]. rewrite Ht. set (r := drop (length (contents es)) (malloc VA_OBJECT_MAX_SIZE)).
  assert (Hr : (length r = VA_OBJECT_MAX_SIZE - length (contents es))%nat) by (subst r; by rewrite length_drop, Hmalloc).
  rewrite (pop_lv_ok _ _ (contents es) slack _ (contents es ++ r) 0 (Some 0%nat) D); [|lia|lia|apply store_zero; rewrite Hmalloc; unfold VA_OBJECT_MAX_SIZE; lia].
  cbn [mbind res_bind from_option_ub fst snd]. unfold VA_OBJECT_MAX_SIZE in Hr.
  destruct (put_element_ok id 4 o e (contents es) r keeps_small_id Ho) as (r' & E & Hr'); [unfold LIMIT; lia|lia|]. rewrite E. cbn [mbind res_bind]. rewrite <-Ec.
  rewrite (close_container_ok id tag (contents (es ++ [e])) r'); [done|done| |rewrite Ec, length_app; unfold LIMIT; lia|lia].
  revert Ht. unfold is_container, ASN_TAG_SET, ASN_TAG_SEQ, is_byte. rewrite orb_true_iff, !Z.eqb_eq. lia.
Qed.

(** an element as an object *)
Definition to_object (e : element) : vm_object :=
  if e.1 =? ASN_TAG_OCTSTRING then mkObj Plain e.2
  else if e.1 =? ASN_TAG_REAL then mkObj (Ext ASN_TAG_REAL) (float_bytes e.2) else mkObj Array (encode e).

Definition readable (e : element) : Prop := e.1 = ASN_TAG_REAL → (length e.2 < 64)%nat.

Lemma element_object_ok e contents whole : readable e →
  (e.1 = ASN_TAG_OCTSTRING ∨ e.1 = ASN_TAG_REAL → contents = e.2) → (e.1 ≠ ASN_TAG_OCTSTRING → e.1 ≠ ASN_TAG_REAL → whole = encode e) →
  element_object float_bytes e.1 contents whole = Ret (to_object e).
Proof.
  intros Hr Hc Hw. unfold element_object, to_object. destruct (Z.eqb_spec e.1 ASN_TAG_OCTSTRING) as [H|H]; [by rewrite Hc by tauto|].
  destruct (Z.eqb_spec e.1 ASN_TAG_REAL) as [H'|H']; [|by rewrite Hw].
  unfold va_create_ext_float. rewrite Hc by tauto. by rewrite bool_decide_eq_true_2 by auto.
Qed.

Section set.
Context (b key : list Z) (val : vm_object) (mode : set_mode) (index : Z) (tlen : nat).
Context (Hindex : index ≠ -1).
Abbreviation step := (set_step slack ext_text float_bytes b key val mode index tlen).

Lemma copy_step e rest i k (l : option nat) (llen : nat) (w r : list Z) (ret : option vm_object) :
  drop i b = encode e ++ rest → (i < tlen)%nat → (i ≤ length b)%nat → Z.of_nat (length e.2) < 65535 → k ≠ index → (length (encode e) ≤ length r)%nat →
  step (mkSet i k l llen (w ++ r) (length w) ret) =
    Ret (inl (mkSet (i + length (encode e)) (k + 1) (Some (length e.2)) llen ((w ++ encode e) ++ drop (length (encode e)) r) (length (w ++ encode e)) ret)).
Proof.
  intros Hb Hi Hib He Hk Hr. destruct (drop_element _ _ _ _ Hb Hib) as (G & D & D' & Hi' & S). unfold set_step. cbn [st_i st_cntr st_len st_llen st_buf st_dlen st_ret].
  rewrite bool_decide_eq_true_2 by done. rewrite G. cbn [mbind res_bind]. rewrite (get_length_ok _ _ _ _ l D) by done. cbn [mbind res_bind from_option_ub fst snd].
  rewrite (proj2 (Z.eqb_neq _ _)) by done. rewrite (proj2 (Z.eqb_neq _ _)) by done.
  replace (length e.2 + length (header (length e.2)) + 1)%nat with (length (encode e)) by (rewrite length_encode; lia). rewrite S. cbn [mbind res_bind].
  rewrite store_app by done. cbn [mbind res_bind]. by rewrite (length_app w).
Qed.

Lemma copy_loop es : ∀ rest i k (l : option nat) (llen : nat) (w r : list Z) (ret : option vm_object),
  drop i b = contents es ++ rest → (i + length (contents es) ≤ tlen)%nat → (i ≤ length b)%nat → small es →
  index < k ∨ k + Z.of_nat (length es) ≤ index → (length (contents es) ≤ length r)%nat →
  ∃ l' r', iters step (length es) (mkSet i k l llen (w ++ r) (length w) ret)
      (mkSet (i + length (contents es)) (k + Z.of_nat (length es)) l' llen ((w ++ contents es) ++ r') (length (w ++ contents es)) ret) ∧
    (length r' + length (contents es) = length r)%nat ∧ drop (i + length (contents es)) b = rest ∧ (i + length (contents es) ≤ length b)%nat.
Proof.
  induction es as [|e es IH]; intros rest i k l llen w r ret Hb Ht Hi Hs Hk Hr.
  - exists l, r. cbn [length contents fmap list_fmap concat]. rewrite app_nil_r, Nat.add_0_r, Z.add_0_r. split; [constructor|]. split; [lia|]. split; [exact Hb|done].
  - assert (Hlen : length (contents (e :: es)) = (length (encode e) + length (contents es))%nat) by (by rewrite contents_cons, length_app). rewrite Hlen in *.
    rewrite contents_cons, <-app_assoc in Hb. destruct (drop_element _ _ _ _ Hb Hi) as (_ & _ & D' & Hi' & _). apply small_cons in Hs as (He & Hs & _).
    cbn [length] in Hk. pose proof (length_encode e).
    destruct (IH rest (i + length (encode e))%nat (k + 1) (Some (length e.2)) llen (w ++ encode e) (drop (length (encode e)) r) ret) as (l' & r' & It & Hr' & Hd & Hl);
      [done|lia|done|done|lia|rewrite length_drop; lia|].
    exists l', r'. rewrite contents_cons. rewrite length_drop in Hr'. split; [|split; [lia|rewrite !Nat.add_assoc; done]].
    change (length (e :: es)) with (S (length es)). eapply iters_S; [apply (copy_step e (contents es ++ rest)); (done || lia)|].
    rewrite (app_assoc w (encode e) (contents es)), Nat.add_assoc. replace (k + Z.of_nat (S (length es))) with (k + 1 + Z.of_nat (length es)) by lia. exact It.
Qed.

(** what happens at the index: a new element, or none, and the object returned *)
Definition put_of (new : option element) : list element := match new with Some e => [e] | None => [] end.

Lemma change_step e rest i (l : option nat) (llen : nat) (w r : list Z) (new : option element) :
  drop i b = encode e ++ rest → (i < tlen)%nat → (i ≤ length b)%nat → Z.of_nat (length e.2) < 65535 → readable e →
  match new with
  | Some e' => bytes val ≠ [] ∧ element_of val e' ∧ Z.of_nat (length (encode e')) ≤ LIMIT
  | None => bytes val = []
  end → (length (contents (put_of new)) + 5 ≤ length r)%nat →
  ∃ l' llen' r', step (mkSet i index l llen (w ++ r) (length w) None) =
    Ret (inl (mkSet (i + length (encode e)) (index + 1) l' llen' ((w ++ contents (put_of new)) ++ r') (length (w ++ contents (put_of new)))
      (if new then None else if decide (mode = VA_ARG_MODE_SET) then None else Some (to_object e)))) ∧
    (length r' + length (contents (put_of new)) = length r)%nat.
Proof.
  intros Hb Hi Hib He Hre Hv Hr. destruct (drop_element _ _ _ _ Hb Hib) as (G & D & D' & Hi' & S).
  assert (Hsz : (length e.2 + length (header (length e.2)) + 1)%nat = length (encode e)) by (rewrite length_encode; lia).
  unfold set_step. cbn [st_i st_cntr st_len st_llen st_buf st_dlen st_ret].
  rewrite bool_decide_eq_true_2 by done. rewrite G. cbn [mbind res_bind]. rewrite (get_length_ok _ _ _ _ l D) by done. cbn [mbind res_bind from_option_ub fst snd].
  rewrite (proj2 (Z.eqb_neq _ _)) by done. rewrite Z.eqb_refl, Hsz. destruct new as [e'|]; cbn [put_of] in *.
  - destruct Hv as (Hv & Ho & Hl). assert (contents [e'] = encode e') as E1 by (cbn; by rewrite app_nil_r). rewrite E1 in *.
    rewrite bool_decide_eq_false_2 by (unfold len; by intros ?%length_zero_iff_nil).
    destruct (put_element_ok id 5 val e' w r keeps_small_id Ho Hl Hr) as (r' & E & Hr'). rewrite E. cbn [mbind res_bind fst snd]. eexists _, _, r'. split; [reflexivity|done].
  - unfold len. rewrite Hv. rewrite (bool_decide_eq_true_2 (length (@nil Z) = 0%nat)) by done. cbn [contents fmap list_fmap concat]. rewrite app_nil_r.
    destruct (decide (mode = VA_ARG_MODE_SET)) as [Hm|Hm].
    + eexists _, _, r. split; [reflexivity|cbn; lia].
    + rewrite (get_length_ok _ _ _ _ None D) by done. cbn [mbind res_bind from_option_ub fst snd].
      assert (Hc : slice b (i + 1 + length (header (length e.2))) (length e.2) = Ret e.2) by (apply (slice_drop b (header (length e.2)) e.2 rest); [done|lia]).
      assert (Hz : ∀ j, (j ≤ length b)%nat → slice b j 0 = Ret []) by (intros j Hj; unfold slice; rewrite bool_decide_eq_true_2 by lia; done).
      replace (i + length (header (length e.2)) + 1)%nat with (i + 1 + length (header (length e.2)))%nat by lia.
      destruct ((e.1 =? ASN_TAG_OCTSTRING) || (e.1 =? ASN_TAG_REAL)) eqn:Et.
      * rewrite Hc, Hz by lia. cbn [mbind res_bind]. rewrite element_object_ok; [|done|done|]. { eexists _, _, r. split; [reflexivity|cbn; lia]. }
        intros H1 H2. rewrite orb_true_iff, !Z.eqb_eq in Et. tauto.
      * rewrite Hz, S by lia. cbn [mbind res_bind]. rewrite element_object_ok; [|done| |done]. { eexists _, _, r. split; [reflexivity|cbn; lia]. }
        intros H1. rewrite orb_false_iff, !Z.eqb_neq in Et. tauto.
Qed.
End set.

(** the element number [j] replaced or removed *)
Definition change (j : nat) (new : option element) (es : list element) : list element :=
  match new with Some e => <[j := e]> es | None => delete j es end.

Lemma change_split es1 e es2 new : change (length es1) new (es1 ++ e :: es2) = es1 ++ put_of new ++ es2.
Proof.
  destruct new as [e'|]; cbn [change put_of app]; [by rewrite insert_app_r_alt, Nat.sub_diag by lia|by rewrite delete_middle].
Qed.

Lemma change_ge j new es : (length es ≤ j)%nat → change j new es = es.
Proof. intros H. destruct new; cbn [change]; [by apply list_insert_ge|]. rewrite delete_take_drop, take_ge, drop_ge by lia. apply app_nil_r. Qed.

(** [val] is the new element, or empty *)
Definition gives (val : vm_object) (new : option element) : Prop :=
  match new with
  | Some e => bytes val ≠ [] ∧ element_of val e ∧ Z.of_nat (length (encode e)) ≤ LIMIT
  | None => bytes val = []
  end.

Lemma length_gives val new : gives val new → (length (contents (put_of new)) ≤ len val + 4)%nat.
Proof.
  destruct new as [e|]; cbn [gives put_of]; [|cbn; lia]. intros (_ & He & _). cbn. rewrite app_nil_r. by apply length_element_of.
Qed.

(** the object at [j] that dequeue and pop return *)
Definition taken (mode : set_mode) (j : nat) (new : option element) (es : list element) : option vm_object :=
  match new with
  | Some _ => None
  | None => if decide (mode = VA_ARG_MODE_SET) then None else to_object <$> es !! j
  end.

Lemma set_loop fuel b key val mode es j new i rest tlen l llen r :
  drop i b = contents es ++ rest → tlen = (i + length (contents es))%nat → (i ≤ length b)%nat → small es → gives val new →
  (∀ e, es !! j = Some e → readable e) → (length es < fuel)%nat →
  (length (contents es) + 4 ≤ length r)%nat → (j < length es → length (contents es) + len val + 9 ≤ length r)%nat →
  ∃ s r', loop fuel (set_step slack ext_text float_bytes b key val mode (Z.of_nat j) tlen) (mkSet i 0 l llen r 0 None) = Ret s ∧
    st_buf s = contents (change j new es) ++ r' ∧ st_dlen s = length (contents (change j new es)) ∧
    st_ret s = taken mode j new es ∧ (4 ≤ length r')%nat.
Proof.
  intros Hb -> Hi Hs Hg Hre Hf Hr4 Hr. pose proof (length_gives val new Hg) as Hlg. assert (Hj : Z.of_nat j ≠ -1) by lia.
  destruct (decide (j < length es)%nat) as [Hlt|Hge].
  - specialize (Hr Hlt). destruct (lookup_lt_is_Some_2 _ _ Hlt) as [e He]. assert (Hlen1 := Hlt). apply take_drop_middle in He as Hes. set (es1 := take j es) in *. set (es2 := drop (S j) es) in *.
    assert (Hl1 : length es1 = j) by (subst es1; rewrite length_take; lia). rewrite <-Hes in *. clearbody es1 es2. subst j.
    rewrite change_split. assert (Hc : contents (es1 ++ e :: es2) = contents es1 ++ encode e ++ contents es2) by (by rewrite contents_app, contents_cons).
    unfold small in Hs. rewrite Hc in *. rewrite !length_app in Hs, Hr. rewrite <-!app_assoc in Hb.
    assert (Hs1 : small es1 ∧ small (e :: es2)) by (unfold small; rewrite contents_cons, length_app; lia). destruct Hs1 as [Hs1 Hs2].
    destruct (small_cons _ _ Hs2) as (Hse & Hs3 & _). pose proof (length_encode e). set (tl := (i + length (contents es1 ++ encode e ++ contents es2))%nat).
    assert (Htl : tl = (i + length (contents es1) + length (encode e) + length (contents es2))%nat) by (subst tl; rewrite !length_app; lia). clearbody tl.
    destruct (copy_loop b key val mode (Z.of_nat (length es1)) tl Hj es1 (encode e ++ contents es2 ++ rest) i 0 l llen [] r None Hb)
      as (l1 & r1 & It1 & Hr1 & Hd1 & Hb1); [lia|lia|done|lia|lia|]. cbn [app length] in It1. rewrite Z.add_0_l in It1.
    destruct (change_step b key val mode (Z.of_nat (length es1)) tl Hj e (contents es2 ++ rest) _ l1 llen (contents es1) r1 new Hd1) as (l2 & llen2 & r2 & E2 & Hr2);
      [lia|lia|done|apply Hre; by apply list_lookup_middle|exact Hg|lia|].
    destruct (drop_element _ _ _ _ Hd1 Hb1) as (_ & _ & Hd2 & Hb2 & _).
    destruct (copy_loop b key val mode (Z.of_nat (length es1)) tl Hj es2 rest _ (Z.of_nat (length es1) + 1) l2 llen2 (contents es1 ++ contents (put_of new)) r2
      (if new then None else if decide (mode = VA_ARG_MODE_SET) then None else Some (to_object e)) Hd2)
      as (l3 & r3 & It3 & Hr3 & Hd3 & Hb3); [lia|lia|done|lia|lia|].
    eexists _, r3. split.
    + eapply loop_exit; [eapply iters_trans; [exact It1|eapply iters_S; [exact E2|exact It3]]| |rewrite length_app in Hf; cbn [length] in Hf; lia].
      unfold set_step. cbn [st_i]. rewrite bool_decide_eq_false_2 by lia. reflexivity.
    + cbn [st_buf st_dlen st_ret]. rewrite !contents_app, <-!app_assoc. split; [done|]. split; [done|]. split; [|lia].
      unfold taken. destruct new; [done|]. by rewrite list_lookup_middle.
  - rewrite change_ge by lia. destruct (copy_loop b key val mode (Z.of_nat j) (i + length (contents es)) Hj es rest i 0 l llen [] r None Hb) as (l1 & r1 & It1 & Hr1 & _ & _);
      [lia|lia|done|lia|lia|]. cbn [app length] in It1. eexists _, r1. split.
    + eapply loop_exit; [exact It1| |lia]. unfold set_step. cbn [st_i]. rewrite bool_decide_eq_false_2 by lia. reflexivity.
    + cbn [st_buf st_dlen st_ret]. split; [done|]. split; [done|]. split; [|lia]. unfold taken. rewrite lookup_ge_None_2 by lia. destruct new; [done|]. by case_decide.
Qed.

(** the number a key stands for *)
Definition selects (mode : set_mode) (key : list Z) (es : list element) (j : nat) : Prop :=
  match mode with
  | VA_ARG_MODE_SET => vm_is_numeric_s key = true ∧ va_o2f key = Ret (Z.of_nat j)
  | VA_ARG_MODE_DEQUEUE => key = [] ∧ es ≠ [] ∧ j = 0%nat
  | VA_ARG_MODE_POP => key = [] ∧ es ≠ [] ∧ j = (length es - 1)%nat
  end.

Lemma set_operation_ok fuel tag es key val mode j new :
  is_container tag = true → small es → (length es < fuel)%nat → selects mode (bytes key) es j → gives val new →
  (∀ e, es !! j = Some e → readable e) → small (change j new es) →
  let o := mkObj Array (container tag (change j new es)) in
  va_arg_set_operation malloc slack ext_text float_bytes fuel (mkObj Array (container tag es)) key val mode =
    Ret (Some (default o (taken mode j new es), o)).
Proof.
  intros Ht Hs Hf Hsel Hg Hre Hs' o. destruct (container_start tag es Ht Hs) as (G & D & D2 & Hlen & Hn). assert (Hs1 := Hs). unfold small, LIMIT in Hs1.
  unfold va_arg_set_operation. rewrite bool_decide_eq_false_2 by (unfold len; cbn [bytes]; done). unfold memory. cbn [bytes]. rewrite G. cbn [mbind res_bind]. rewrite Ht.
  rewrite (count_ok fuel tag es Ht Hs Hf).
  assert (Hidx : ∃ index0, (if vm_is_numeric_s (bytes key) then va_o2f (bytes key) else Ret (-1)) = Ret index0 ∧
    (bool_decide (mode ≠ VA_ARG_MODE_SET) && bool_decide (length es = 0%nat)) = false ∧
    match mode with VA_ARG_MODE_DEQUEUE => 0 | VA_ARG_MODE_POP => Z.of_nat (length es) - 1 | VA_ARG_MODE_SET => index0 end = Z.of_nat j).
  { unfold selects in Hsel. destruct mode.
    - destruct Hsel as [-> Hv]. by exists (Z.of_nat j).
    - destruct Hsel as (-> & He & ->). exists (-1). rewrite (bool_decide_eq_false_2 (length es = 0%nat)), andb_false_r by (by intros ?%length_zero_iff_nil). done.
    - destruct Hsel as (-> & He & ->). exists (-1). rewrite (bool_decide_eq_false_2 (length es = 0%nat)), andb_false_r by (by intros ?%length_zero_iff_nil).
      split; [done|]. split; [done|]. destruct es; [done|]. cbn [length]. lia. }
  destruct Hidx as (index0 & -> & E2 & E3). cbn [mbind res_bind]. rewrite E2, E3. rewrite (get_length_ok _ _ _ _ None D) by lia. cbn [mbind res_bind from_option_ub fst snd].
  set (N := (len (mkObj Array (container tag es)) + len key + len val + (length es + 1) * 6)%nat).
  assert (HN : (length (contents es) + 4 ≤ length (malloc N))%nat ∧ (j < length es → length (contents es) + len val + 9 ≤ length (malloc N))%nat).
  { assert (EN : N = (1 + length (header (length (contents es))) + length (contents es) + len key + len val + (length es + 1) * 6)%nat)
      by (subst N; unfold len at 1; cbn [bytes]; unfold container; by rewrite length_encode).
    rewrite Hmalloc, EN. clear - Hs. pose proof (length_header (length (contents es))).
    split; [|intros Hjl]; (destruct es as [|e es]; [change (contents []) with (@nil Z) in *|]; cbn [length] in *; lia). }
  destruct HN as [HN1 HN2].
  destruct (set_loop fuel (container tag es ++ slack) (bytes key) val mode es j new (length (header (length (contents es))) + 1) slack
    (length (contents es) + (length (header (length (contents es))) + 1)) None (length (header (length (contents es)))) (malloc N) D2) as (s & r' & E & Eb & Ed & Er & Hr');
    [lia|lia|done|done|done|done|exact HN1|exact HN2|]. rewrite E. cbn [mbind res_bind]. rewrite Eb, Ed, Er.
  rewrite (close_container_ok id tag (contents (change j new es)) r'); [done|done| |done|done].
  revert Ht. unfold is_container, ASN_TAG_SET, ASN_TAG_SEQ, is_byte. rewrite orb_true_iff, !Z.eqb_eq. lia.
Qed.

(** ** Reading by number *)
Section at_loop.
Context (b : list Z) (hlen tlen : nat) (index total : Z).
Abbreviation step := (at_step float_bytes b hlen tlen index total).

(** the element is copied behind what is kept *)
Lemma at_pop e rest i (l : option nat) (w r : list Z) :
  drop (hlen + i) b = encode e ++ rest → (hlen + i ≤ length b)%nat → Z.of_nat (length e.2) < 65535 → (length e.2 ≤ length r)%nat →
  get b (hlen + i) = Ret e.1 ∧ drop (hlen + (i + length (encode e))) b = rest ∧ (hlen + (i + length (encode e)) ≤ length b)%nat ∧
  (i + 1 + (length (header (length e.2)) + length e.2))%nat = (i + length (encode e))%nat ∧
  va_pop_lv b (hlen + (i + 1)) (w ++ r) (length w) l =
    Ret ((length (header (length e.2)) + length e.2)%nat, Some (length e.2), w ++ e.2 ++ drop (length e.2) r).
Proof.
  intros Hb Hi He Hr. destruct (drop_element _ _ _ _ Hb Hi) as (G & D & D' & Hi' & _). rewrite <-Nat.add_assoc in D, D', Hi'.
  split; [exact G|]. split; [exact D'|]. split; [exact Hi'|]. split; [rewrite length_encode; lia|].
  rewrite length_encode in Hi'. apply (pop_lv_ok b _ e.2 rest); [exact D|done|lia|]. rewrite store_app by done. by rewrite <-app_assoc.
Qed.

Lemma at_skip e rest i j (l : option nat) (w r : list Z) c ret :
  drop (hlen + i) b = encode e ++ rest → (i < tlen)%nat → (hlen + i ≤ length b)%nat → Z.of_nat (length e.2) < 65535 → (length e.2 ≤ length r)%nat →
  j < index ∨ index + total ≤ j →
  step (mkAt i j l (w ++ r) (length w) c ret) =
    Ret (inl (mkAt (i + length (encode e)) (j + 1) (Some (length e.2)) (w ++ (e.2 ++ drop (length e.2) r)) (length w) c ret)).
Proof.
  intros Hb Hi Hib He Hr Hj. destruct (at_pop e rest i l w r Hb Hib He Hr) as (G & _ & _ & Es & Ep). unfold at_step. cbn [at_i at_j at_len at_buf at_buf_len at_count at_ret].
  rewrite bool_decide_eq_true_2 by done. rewrite G. cbn [mbind res_bind]. rewrite Ep. cbn [mbind res_bind]. rewrite Es.
  assert (Eb : (index <=? j) && (j <? index + total) = false) by (destruct (Z.leb_spec index j), (Z.ltb_spec j (index + total)); cbn; try done; lia). by rewrite Eb.
Qed.

Lemma at_skip_loop es : ∀ rest i j (l : option nat) (w r : list Z) c ret,
  drop (hlen + i) b = contents es ++ rest → (i + length (contents es) ≤ tlen)%nat → (hlen + i ≤ length b)%nat → small es → (length (contents es) ≤ length r)%nat →
  j + Z.of_nat (length es) ≤ index ∨ index + total ≤ j →
  ∃ l' r', iters step (length es) (mkAt i j l (w ++ r) (length w) c ret)
      (mkAt (i + length (contents es)) (j + Z.of_nat (length es)) l' (w ++ r') (length w) c ret) ∧
    length r' = length r ∧ drop (hlen + (i + length (contents es))) b = rest ∧ (hlen + (i + length (contents es)) ≤ length b)%nat.
Proof.
  induction es as [|e es IH]; intros rest i j l w r c ret Hb Ht Hi Hs Hr Hj.
  - exists l, r. cbn [length contents fmap list_fmap concat]. rewrite Nat.add_0_r, Z.add_0_r. split; [constructor|]. split; [done|]. split; [exact Hb|done].
  - assert (Hlen : length (contents (e :: es)) = (length (encode e) + length (contents es))%nat) by (by rewrite contents_cons, length_app). rewrite Hlen in *.
    rewrite contents_cons, <-app_assoc in Hb. apply small_cons in Hs as (He & Hs & _). pose proof (length_encode e). cbn [length] in Hj.
    destruct (at_pop e (contents es ++ rest) i l w r Hb Hi He) as (_ & D' & Hi' & _); [lia|].
    destruct (IH rest (i + length (encode e))%nat (j + 1) (Some (length e.2)) w (e.2 ++ drop (length e.2) r) c ret) as (l' & r' & It & Hr' & Hd & Hl);
      [done|lia|done|done|rewrite length_app, length_drop; lia|lia|].
    exists l', r'. rewrite length_app, length_drop in Hr'. split; [|split; [lia|by rewrite (Nat.add_assoc i)]].
    change (length (e :: es)) with (S (length es)). eapply iters_S; [apply (at_skip e (contents es ++ rest)); (done || lia)|].
    rewrite (Nat.add_assoc i). replace (j + Z.of_nat (S (length es))) with (j + 1 + Z.of_nat (length es)) by lia. exact It.
Qed.

(** an element kept whole *)
Lemma at_push e rest i j (l : option nat) (w r : list Z) c ret :
  drop (hlen + i) b = encode e ++ rest → (i < tlen)%nat → (hlen + i ≤ length b)%nat → Z.of_nat (length (encode e)) ≤ LIMIT → (length (encode e) ≤ length r)%nat →
  is_byte e.1 → index ≤ j < index + total → 1 < total ∨ e.1 ≠ ASN_TAG_OCTSTRING ∧ e.1 ≠ ASN_TAG_REAL →
  ∃ r', step (mkAt i j l (w ++ r) (length w) c ret) =
    Ret (inl (mkAt (i + length (encode e)) (j + 1) (Some (length e.2)) ((w ++ encode e) ++ r') (length (w ++ encode e)) (c + 1) ret)) ∧
    (length r' + length (encode e) = length r)%nat.
Proof.
  intros Hb Hi Hib He Hr Ht Hj Ho. pose proof (length_encode e) as Hen. pose proof (length_header (length e.2)). unfold LIMIT in He.
  destruct (at_pop e rest i l w r Hb Hib) as (G & _ & _ & Es & Ep); [lia|lia|]. unfold at_step. cbn [at_i at_j at_len at_buf at_buf_len at_count at_ret].
  rewrite bool_decide_eq_true_2 by done. rewrite G. cbn [mbind res_bind]. rewrite Ep. cbn [mbind res_bind]. rewrite Es.
  rewrite (proj2 (Z.leb_le _ _)), (proj2 (Z.ltb_lt _ _)) by lia. cbn [andb from_option_ub mbind res_bind].
  assert (E1 : (e.1 =? ASN_TAG_OCTSTRING) && negb (1 <? total) = false ∧ (e.1 =? ASN_TAG_REAL) && negb (1 <? total) = false).
  { destruct Ho as [Ho|[H1 H2]]; [rewrite (proj2 (Z.ltb_lt _ _)), !andb_false_r by done; done|]. by rewrite (proj2 (Z.eqb_neq _ _) H1), (proj2 (Z.eqb_neq _ _) H2). }
  destruct E1 as [-> ->]. rewrite slice_app. cbn [mbind res_bind].
  set (r0 := drop (length e.2) r). assert (Hr0 : (length (e.2 ++ r0) = length r)%nat) by (subst r0; rewrite length_app, length_drop; lia).
  destruct (e.2 ++ r0) as [|h t] eqn:Eq; [cbn in Hr0; lia|]. cbn [length] in Hr0.
  assert (Epush := push_lv_ok (w ++ [h]) t e.2 [] ltac:(lia) ltac:(lia)). rewrite app_nil_r, (length_app w), <-!app_assoc in Epush. cbn [length app] in Epush. rewrite (Nat.add_comm (length w) 1) in Epush. rewrite Epush.
  cbn [mbind res_bind fst snd]. rewrite put_at by done. cbn [mbind res_bind]. exists (drop (length (header (length e.2)) + length e.2) t).
  rewrite length_drop. split; [|lia]. rewrite (length_app w), Hen. unfold encode. rewrite <-!app_assoc. cbn [app]. rewrite <-!app_assoc. do 2 f_equal. f_equal; lia.
Qed.

(** a text or a number on its own *)
Lemma at_one e rest i (l : option nat) (r : list Z) :
  drop (hlen + i) b = encode e ++ rest → (i < tlen)%nat → (hlen + i ≤ length b)%nat → Z.of_nat (length e.2) < 65535 → (length e.2 ≤ length r)%nat → readable e →
  total = 1 → e.1 = ASN_TAG_OCTSTRING ∨ e.1 = ASN_TAG_REAL →
  step (mkAt i index l r 0 0 None) =
    Ret (inl (mkAt (i + length (encode e)) (index + 1) (Some (length e.2)) (e.2 ++ drop (length e.2) r) (length e.2) 0 (Some (to_object e)))).
Proof.
  intros Hb Hi Hib He Hr Hre -> Ho. destruct (at_pop e rest i l [] r Hb Hib He Hr) as (G & _ & _ & Es & Ep). cbn [app length] in Ep. unfold at_step.
  cbn [at_i at_j at_len at_buf at_buf_len at_count at_ret]. rewrite bool_decide_eq_true_2 by done. rewrite G. cbn [mbind res_bind]. rewrite Ep. cbn [mbind res_bind]. rewrite Es.
  rewrite (proj2 (Z.leb_le _ _)), (proj2 (Z.ltb_lt _ _)) by lia. cbn [andb from_option_ub mbind res_bind]. change (negb (1 <? 1)) with true. rewrite !andb_true_r.
  unfold to_object. destruct (Z.eqb_spec e.1 ASN_TAG_OCTSTRING) as [H1|H1]; [by rewrite slice_all|]. destruct Ho as [Ho|Ho]; [done|]. rewrite Ho, Z.eqb_refl, slice_all. cbn [mbind res_bind].
  unfold va_create_ext_float. by rewrite bool_decide_eq_true_2 by auto.
Qed.
Lemma at_push_loop es : 1 < total → ∀ rest i j (l : option nat) (w r : list Z) c ret,
  drop (hlen + i) b = contents es ++ rest → (i + length (contents es) ≤ tlen)%nat → (hlen + i ≤ length b)%nat → small es → (length (contents es) ≤ length r)%nat →
  Forall (λ e, is_byte e.1) es → index ≤ j → j + Z.of_nat (length es) ≤ index + total →
  ∃ l' r', iters step (length es) (mkAt i j l (w ++ r) (length w) c ret)
      (mkAt (i + length (contents es)) (j + Z.of_nat (length es)) l' ((w ++ contents es) ++ r') (length (w ++ contents es)) (c + Z.of_nat (length es)) ret) ∧
    (length r' + length (contents es) = length r)%nat ∧ drop (hlen + (i + length (contents es))) b = rest ∧ (hlen + (i + length (contents es)) ≤ length b)%nat.
Proof.
  intros Ht1. induction es as [|e es IH]; intros rest i j l w r c ret Hb Ht Hi Hs Hr Hby Hj Hj'.
  - exists l, r. cbn [length contents fmap list_fmap concat]. rewrite app_nil_r, Nat.add_0_r, !Z.add_0_r. split; [constructor|]. split; [lia|]. split; [exact Hb|done].
  - assert (Hlen : length (contents (e :: es)) = (length (encode e) + length (contents es))%nat) by (by rewrite contents_cons, length_app). rewrite Hlen in *.
    rewrite contents_cons, <-app_assoc in Hb. apply small_cons in Hs as (He & Hs & Hle). apply Forall_cons in Hby as [Hbe Hby]. pose proof (length_encode e). cbn [length] in Hj'.
    destruct (at_pop e (contents es ++ rest) i l w r Hb Hi He) as (_ & D' & Hi' & _); [lia|].
    destruct (at_push e (contents es ++ rest) i j l w r c ret Hb) as (r1 & E1 & Hr1); [lia|done|done|lia|done|lia|by left|].
    destruct (IH rest (i + length (encode e))%nat (j + 1) (Some (length e.2)) (w ++ encode e) r1 (c + 1) ret) as (l' & r' & It & Hr' & Hd & Hl);
      [done|lia|done|done|lia|done|lia|lia|].
    exists l', r'. rewrite contents_cons. split; [|split; [lia|by rewrite (Nat.add_assoc i)]].
    change (length (e :: es)) with (S (length es)). eapply iters_S; [exact E1|].
    rewrite (app_assoc w (encode e) (contents es)), (Nat.add_assoc i). replace (j + Z.of_nat (S (length es))) with (j + 1 + Z.of_nat (length es)) by lia.
    replace (c + Z.of_nat (S (length es))) with (c + 1 + Z.of_nat (length es)) by lia. exact It.
Qed.
End at_loop.

(** the elements from [index] on, [total] of them; an element that is no text
    and no number is not returned when it is asked for alone *)
Definition at_result (es : list element) (index total : nat) : option vm_object :=
  if decide (total = 1%nat) then
    match es !! index with
    | Some e => if (e.1 =? ASN_TAG_OCTSTRING) || (e.1 =? ASN_TAG_REAL) then Some (to_object e) else None
    | None => None
    end
  else Some (mkObj Array (container ASN_TAG_SET (take total (drop index es)))).

Lemma list_cut {A} (es : list A) (k n : nat) : (k + n ≤ length es)%nat → ∃ l1 l2 l3, es = l1 ++ l2 ++ l3 ∧ length l1 = k ∧ length l2 = n ∧ take n (drop k es) = l2.
Proof.
  intros H. exists (take k es), (take n (drop k es)), (drop n (drop k es)). rewrite (take_drop n), (take_drop k), !length_take, length_drop. split; [done|]. split; [lia|]. split; [lia|done].
Qed.

(** what the loop leaves, and the object made of it *)
Lemma at_loop_ok fuel b hlen es (k n : nat) rest r :
  drop hlen b = contents es ++ rest → (hlen ≤ length b)%nat → small es → (length (contents es) ≤ length r)%nat →
  Forall (λ e, is_byte e.1) es → Forall readable es → (0 < n)%nat → (k + n ≤ length es)%nat → (length es < fuel)%nat →
  ∃ s, loop fuel (at_step float_bytes b hlen (length (contents es)) (Z.of_nat k) (Z.of_nat n)) (mkAt 0 0 None r 0 0 None) = Ret s ∧
    (n = 1%nat → at_count s ≤ 1 ∧ at_ret s = at_result es k n) ∧
    ((1 < n)%nat → 1 < at_count s ∧ ∃ r', at_buf s = contents (take n (drop k es)) ++ r' ∧ at_buf_len s = length (contents (take n (drop k es))) ∧
      (length r' + length (contents (take n (drop k es))) = length r)%nat).
Proof.
  intros Hb Hi Hs Hr Hby Hre Hn Hk Hf. destruct (list_cut es k n Hk) as (l1 & l2 & l3 & Hes & L1 & L2 & Ht). rewrite Ht. unfold at_result.
  assert (Hlk : es !! k = hd_error l2). { rewrite Hes, lookup_app_r by lia. rewrite L1, Nat.sub_diag. destruct l2; [cbn in L2; lia|done]. }
  rewrite Hlk. clear Hlk Ht. subst es. assert (Hc : contents (l1 ++ l2 ++ l3) = contents l1 ++ contents l2 ++ contents l3) by (by rewrite !contents_app).
  unfold small in Hs. rewrite Hc in *. rewrite !length_app in Hk, Hf. apply Forall_app in Hby as [_ Hby]. apply Forall_app in Hby as [Hby _].
  apply Forall_app in Hre as [_ Hre]. apply Forall_app in Hre as [Hre _]. rewrite <-!app_assoc in Hb.
  set (tlen := length (contents l1 ++ contents l2 ++ contents l3)) in *. assert (Htl : tlen = (length (contents l1) + length (contents l2) + length (contents l3))%nat) by (subst tlen; rewrite !length_app; lia).
  clearbody tlen. assert (Hs3 : small l1 ∧ small l2 ∧ small l3) by (unfold small; lia). destruct Hs3 as (Hs1 & Hs2 & Hs3).
  rewrite <-(Nat.add_0_r hlen) in Hb, Hi.
  destruct (at_skip_loop b hlen tlen (Z.of_nat k) (Z.of_nat n) l1 _ 0 0 None [] r 0 None Hb) as (o1 & r1 & It1 & Hr1 & Hb1 & Hi1); [lia|done|done|lia|lia|].
  cbn [app length] in It1. rewrite Nat.add_0_l, Z.add_0_l, L1 in *.
  assert (Hexit : ∀ s, at_i s = tlen → at_step float_bytes b hlen tlen (Z.of_nat k) (Z.of_nat n) s = Ret (inr s)).
  { intros s Hsi. unfold at_step. by rewrite bool_decide_eq_false_2 by lia. }
  destruct (decide (n = 1%nat)) as [->|Hn1].
  - destruct l2 as [|e [|? ?]]; [done| |done]. cbn [hd_error option_bind mbind]. apply Forall_cons in Hre as [Hre _]. apply Forall_cons in Hby as [Hby _].
    assert (E1 : contents [e] = encode e) by (cbn; by rewrite app_nil_r). rewrite E1 in *. destruct (small_cons _ _ Hs2) as (He & _ & Hle). pose proof (length_encode e).
    destruct (drop_element _ _ _ _ Hb1 Hi1) as (_ & _ & Hb2 & Hi2 & _). rewrite <-Nat.add_assoc in Hb2, Hi2.
    destruct ((e.1 =? ASN_TAG_OCTSTRING) || (e.1 =? ASN_TAG_REAL)) eqn:Et.
    + rewrite orb_true_iff, !Z.eqb_eq in Et. pose proof (at_one b hlen tlen (Z.of_nat k) 1 e _ _ o1 r1 Hb1 ltac:(lia) Hi1 He ltac:(lia) Hre eq_refl Et) as E.
      destruct (at_skip_loop b hlen tlen (Z.of_nat k) 1 l3 rest _ (Z.of_nat k + 1) (Some (length e.2)) e.2 (drop (length e.2) r1) 0 (Some (to_object e)) Hb2)
        as (o3 & r3 & It3 & Hr3 & _ & _); [lia|done|done|rewrite length_drop; lia|lia|].
      eexists. split. { eapply loop_exit; [eapply iters_trans; [exact It1|eapply iters_S; [exact E|exact It3]]|apply Hexit; cbn [at_i]; lia|cbn [length] in Hf; lia]. }
      split; [intros _; cbn [at_count at_ret]; split; [lia|done]|lia].
    + rewrite orb_false_iff, !Z.eqb_neq in Et.
      destruct (at_push b hlen tlen (Z.of_nat k) 1 e _ _ (Z.of_nat k) o1 [] r1 0 None Hb1) as (r2 & E & Hr2); [lia|done|done|lia|done|lia|by right|]. cbn [app length] in E.
      destruct (at_skip_loop b hlen tlen (Z.of_nat k) 1 l3 rest _ (Z.of_nat k + 1) (Some (length e.2)) (encode e) r2 (0 + 1) None Hb2)
        as (o3 & r3 & It3 & Hr3 & _ & _); [lia|done|done|lia|lia|].
      eexists. split. { eapply loop_exit; [eapply iters_trans; [exact It1|eapply iters_S; [exact E|exact It3]]|apply Hexit; cbn [at_i]; lia|cbn [length] in Hf; lia]. }
      split; [intros _; cbn [at_count at_ret]; split; [lia|done]|lia].
  - destruct (at_push_loop b hlen tlen (Z.of_nat k) (Z.of_nat n) l2 ltac:(lia) _ _ (Z.of_nat k) o1 [] r1 0 None Hb1) as (o2 & r2 & It2 & Hr2 & Hb2 & Hi2); [lia|done|done|lia|done|lia|lia|].
    cbn [app length] in It2. destruct (at_skip_loop b hlen tlen (Z.of_nat k) (Z.of_nat n) l3 rest _ (Z.of_nat k + Z.of_nat (length l2)) o2 (contents l2) r2 (0 + Z.of_nat (length l2)) None Hb2)
      as (o3 & r3 & It3 & Hr3 & _ & _); [lia|done|done|lia|lia|].
    eexists. split.
    { eapply loop_exit; [eapply iters_trans; [exact It1|eapply iters_trans; [exact It2|exact It3]]|apply Hexit; cbn [at_i]; lia|lia]. }
    split; [lia|]. intros _. cbn [at_count at_buf at_buf_len]. split; [lia|]. exists r3. split; [done|]. split; [done|lia].
Qed.

(** the numbers as [va_arg_at] uses them: from the end when negative, and a
    negative total counts from the end of the rest *)
Definition at_spec (es : list element) (index0 total0 : Z) : option vm_object :=
  let count := Z.of_nat (length es) in
  let index := if index0 <? 0 then count + index0 else index0 in
  let total := if total0 <? 0 then count - index + total0 + 1 else total0 in
  let n := Z.min total (count - index) in
  if (index <? 0) || (n <=? 0) then None else at_result es (Z.to_nat index) (Z.to_nat n).

Lemma length_header_mono n m : (n ≤ m)%nat → (length (header n) ≤ length (header m))%nat.
Proof. intros H. unfold header. repeat case_match; cbn; lia. Qed.

Lemma at_ok fuel tag es vindex vtotal index0 total0 : is_container tag = true → small es → (length es < fuel)%nat →
  Forall (λ e, is_byte e.1) es → Forall readable es → va_o2f vindex = Ret index0 →
  match vtotal with Some t => va_o2f t = Ret total0 | None => total0 = 1 end →
  va_arg_at_number malloc slack float_bytes fuel (mkObj Array (container tag es)) vindex vtotal = Ret (at_spec es index0 total0).
Proof.
  intros Ht Hs Hf Hby Hre Ei Et. destruct (container_start tag es Ht Hs) as (G & D & D2 & Hlen & Hn). assert (Hs' := Hs). unfold small, LIMIT in Hs'.
  unfold va_arg_at_number. assert (Et' : match vtotal with Some t => va_o2f t | None => Ret 1 end = Ret total0) by (destruct vtotal; [done|by subst]).
  rewrite Et'. cbn [mbind res_bind]. rewrite Ei. cbn [mbind res_bind]. rewrite bool_decide_eq_false_2 by (unfold len; cbn [bytes]; done).
  unfold memory. cbn [bytes]. rewrite G. cbn [mbind res_bind]. rewrite Ht, (count_ok fuel tag es Ht Hs Hf). cbn [mbind res_bind]. unfold at_spec.
  set (count := Z.of_nat (length es)). set (index := if index0 <? 0 then count + index0 else index0). cbv zeta.
  destruct (Z.ltb_spec index 0) as [Hneg|Hpos]; [done|]. cbn [orb].
  set (total := if total0 <? 0 then count - index + total0 + 1 else total0). set (total1 := if total0 <? 0 then Z.max 0 (count - index + (total0 + 1)) else total0).
  set (total2 := if count <? index + total1 then count - index else total1).
  assert (H0 : total2 = 0 → Z.min total (count - index) ≤ 0) by (subst total2 total1 total; destruct (Z.ltb_spec total0 0); match goal with |- context [count <? ?x] => destruct (Z.ltb_spec count x) end; lia).
  destruct (Z.eqb_spec total2 0) as [Hz|Hz]; [by rewrite (proj2 (Z.leb_le _ _)) by auto|].
  assert (H1 : 0 < total2 → total2 = Z.min total (count - index)).
  { subst total2 total1 total. destruct (Z.ltb_spec total0 0); match goal with |- context [count <? ?x] => destruct (Z.ltb_spec count x) end; lia. }
  assert (H2 : total2 < 0 → Z.min total (count - index) ≤ 0 ∧ count ≤ index).
  { subst total2 total1 total. destruct (Z.ltb_spec total0 0); match goal with |- context [count <? ?x] => destruct (Z.ltb_spec count x) end; lia. }
  set (N := length (container tag es)). assert (HN : N = (1 + length (header (length (contents es))) + length (contents es))%nat) by (subst N; unfold container; by rewrite length_encode).
  set (r := contents es ++ drop (length (contents es)) (malloc (len (mkObj Array (container tag es))))).
  assert (Hr : length r = N) by (subst r; unfold len; cbn [bytes]; fold N; rewrite length_app, length_drop, Hmalloc; lia).
  rewrite (pop_lv_ok _ _ (contents es) slack _ r 0 None D); [|lia|lia|unfold len; cbn [bytes]; fold N; apply store_zero; rewrite Hmalloc; lia].
  cbn [mbind res_bind from_option_ub fst snd].
  replace (length (header (length (contents es))) + length (contents es) - length (contents es) + 1)%nat with (length (header (length (contents es))) + 1)%nat by lia.
  set (hlen := (length (header (length (contents es))) + 1)%nat) in *. destruct (Z.ltb_spec total2 0) as [Hlt|Hge].
  - (* the index is behind the end *)
    destruct (H2 Hlt) as [Hm Hci]. rewrite (proj2 (Z.leb_le _ _)) by done. rewrite <-(Nat.add_0_r hlen) in D2.
    destruct (at_skip_loop (container tag es ++ slack) hlen (length (contents es)) index total2 es slack 0 0 None [] r 0 None D2) as (o1 & r1 & It1 & Hr1 & _ & _);
      [lia|lia|done|lia|left; subst count; lia|]. cbn [app length] in It1. erewrite loop_exit; [|exact It1|unfold at_step; cbn [at_i]; rewrite bool_decide_eq_false_2 by lia; reflexivity|lia]. done.
  - rewrite (proj2 (Z.leb_gt _ _)) by lia. rewrite <-H1 by lia. assert (Hcn : index + total2 ≤ count) by lia.
    destruct (at_loop_ok fuel (container tag es ++ slack) hlen es (Z.to_nat index) (Z.to_nat total2) slack r D2) as (s & E & HA & HB); [lia|done|lia|done|done|lia|subst count; lia|done|].
    rewrite !Z2Nat.id in E by lia. rewrite E. cbn [mbind res_bind]. destruct (decide (Z.to_nat total2 = 1%nat)) as [He|He].
    + destruct (HA He) as [Hc1 Hc2]. rewrite (proj2 (Z.ltb_ge _ _)) by done. by rewrite Hc2.
    + destruct (HB ltac:(lia)) as (Hc1 & r' & Eb & El & Hr'). rewrite (proj2 (Z.ltb_lt _ _)) by done. rewrite Eb, El.
      destruct (list_cut es (Z.to_nat index) (Z.to_nat total2)) as (l1 & l2 & l3 & Hes & _ & _ & Hcut); [subst count; lia|].
      assert (Hsub : (length (contents (take (Z.to_nat total2) (drop (Z.to_nat index) es))) ≤ length (contents es))%nat)
        by (rewrite Hcut, Hes, !contents_app, !length_app; lia).
      pose proof (length_header_mono _ _ Hsub). rewrite close_container_tight; [|done|by vm_compute|unfold LIMIT; lia|lia]. cbn [mbind res_bind].
      unfold at_result. by rewrite decide_False.
Qed.

End lists.
