(* ===== verification/ArraySpec.v ===== *)
(** * What the array functions promise

    Arrays refine lists, reads are lookups and slices, and the objects that come
    out are well formed to any depth when those that go in are. *)
From S2P Require Import Prelude Decimal Isa Text Bytes Args ArgsList.

Lemma container_is_byte tag : is_container tag = true → is_byte tag.
Proof. unfold is_container, ASN_TAG_SET, ASN_TAG_SEQ, is_byte. rewrite orb_true_iff, !Z.eqb_eq. lia. Qed.

Section specification.
Context (malloc : nat → list Z) (slack : list Z) (ext_text : vm_object → list Z) (float_bytes : list Z → list Z).
Context (Hmalloc : ∀ n, length (malloc n) = n).

Abbreviation element_of := (element_of ext_text).
Abbreviation gives := (gives ext_text).
Abbreviation to_object := (to_object float_bytes).

(** ** Sequences of changes *)
Inductive array_op : Type :=
  | OAdd (val : vm_object)
  | OSet (key val : vm_object)      (** an empty value removes *)
  | ORemove (key : vm_object)
  | ODequeue
  | OPop.

Definition empty_object : vm_object := mkObj Plain [].

(** the object returned, and the array that takes the place of the old one *)
Definition array_step (fuel : nat) (op : array_op) (obj : vm_object) : res (option (vm_object * vm_object)) :=
  match op with
  | OAdd val => r ← va_arg_add malloc slack ext_text obj val; Ret (match r with Some o => Some (o, o) | None => None end)
  | OSet key val => va_arg_set malloc slack ext_text float_bytes fuel obj key val
  | ORemove key => va_arg_remove malloc slack ext_text float_bytes empty_object fuel obj key
  | ODequeue => va_arg_dequeue malloc slack ext_text float_bytes empty_object fuel obj
  | OPop => va_arg_pop malloc slack ext_text float_bytes empty_object fuel obj
  end.

Fixpoint run_array (fuel : nat) (ops : list array_op) (obj : vm_object) : res (vm_object * list vm_object) :=
  match ops with
  | [] => Ret (obj, [])
  | op :: ops' =>
      r ← array_step fuel op obj;
      p ← from_option_ub r;
      q ← run_array fuel ops' p.2; Ret (q.1, p.1 :: q.2)
  end.

(** the same on lists *)
Inductive list_step : array_op → list element → option vm_object → list element → Prop :=
  | LAdd val e es : element_of val e → (length (contents (es ++ [e])) + 4 ≤ VA_OBJECT_MAX_SIZE)%nat →
      list_step (OAdd val) es None (es ++ [e])
  | LSet key val new j es : vm_is_numeric_s (bytes key) = true → va_o2f (bytes key) = Ret (Z.of_nat j) →
      gives val new → (∀ e, es !! j = Some e → readable e) → small (change j new es) →
      list_step (OSet key val) es None (change j new es)
  | LRemove key j es : vm_is_numeric_s (bytes key) = true → va_o2f (bytes key) = Ret (Z.of_nat j) →
      (∀ e, es !! j = Some e → readable e) → small (delete j es) → list_step (ORemove key) es None (delete j es)
  | LDequeue e es : readable e → list_step ODequeue (e :: es) (Some (to_object e)) es
  | LPop e es : readable e → list_step OPop (es ++ [e]) (Some (to_object e)) es.

Inductive list_run (tag : Z) : list array_op → list element → list vm_object → list element → Prop :=
  | LNil es : list_run tag [] es [] es
  | LCons op ops es ret es' rets es'' : list_step op es ret es' → list_run tag ops es' rets es'' →
      list_run tag (op :: ops) es (default (mkObj Array (container tag es')) ret :: rets) es''.

Lemma small_length es fuel : small es → 32765 < Z.of_nat fuel → (length es < fuel)%nat.
Proof. unfold small, LIMIT. intros H Hf. pose proof (length_contents_count es). lia. Qed.

Lemma small_app es1 es2 : small (es1 ++ es2) → small es1 ∧ small es2.
Proof. unfold small. rewrite contents_app, length_app. lia. Qed.

Lemma list_step_ok fuel tag op es ret es' : is_container tag = true → 32765 < Z.of_nat fuel → small es → list_step op es ret es' →
  small es' ∧ array_step fuel op (mkObj Array (container tag es)) =
    Ret (Some (default (mkObj Array (container tag es')) ret, mkObj Array (container tag es'))).
Proof.
  intros Ht Hf Hs Hstep. destruct Hstep as [val e es He Hl|key val new j es Hn Hv Hg Hr Hs'|key j es Hn Hv Hr Hs'|e es Hr|e es Hr].
  - split; [unfold small, LIMIT, VA_OBJECT_MAX_SIZE in *; lia|]. cbn [array_step]. by rewrite (add_ok malloc slack ext_text Hmalloc tag es val e).
  - split; [done|]. cbn [array_step]. unfold va_arg_set. rewrite (set_operation_ok malloc slack ext_text float_bytes Hmalloc fuel tag es key val VA_ARG_MODE_SET j new);
      [|done|done|by apply small_length|done|done|done|done]. by destruct new.
  - split; [done|]. cbn [array_step].
    by apply (set_operation_ok malloc slack ext_text float_bytes Hmalloc fuel tag es key empty_object VA_ARG_MODE_SET j None); [| |apply small_length|..].
  - destruct (small_cons _ _ Hs) as (_ & Hs' & _). split; [done|]. cbn [array_step]. unfold va_arg_dequeue.
    rewrite (set_operation_ok malloc slack ext_text float_bytes Hmalloc fuel tag (e :: es) empty_object empty_object VA_ARG_MODE_DEQUEUE 0 None);
      [done|done|done|by apply small_length|done|done| |done]. intros x [= <-]. done.
  - destruct (small_app _ _ Hs) as [Hs' _]. split; [done|]. cbn [array_step]. assert (Hc : change (length es) None (es ++ [e]) = es) by (rewrite (change_split es e [] None); apply app_nil_r). unfold va_arg_pop.
    rewrite (set_operation_ok malloc slack ext_text float_bytes Hmalloc fuel tag (es ++ [e]) empty_object empty_object VA_ARG_MODE_POP (length es) None);
      [|done|done|by apply small_length| |done| |by rewrite Hc].
    + rewrite Hc. unfold taken. by rewrite list_lookup_middle.
    + cbn. split; [done|]. split; [by destruct es|]. rewrite length_app. cbn. lia.
    + intros x Hx. rewrite list_lookup_middle in Hx by done. by injection Hx as <-.
Qed.

Lemma list_run_ok fuel tag ops es rets es' : is_container tag = true → 32765 < Z.of_nat fuel → small es → list_run tag ops es rets es' →
  small es' ∧ run_array fuel ops (mkObj Array (container tag es)) = Ret (mkObj Array (container tag es'), rets).
Proof.
  intros Ht Hf Hs Hrun. induction Hrun as [es|op ops es ret es' rets es'' Hstep _ IH]; [done|].
  destruct (list_step_ok fuel tag op es ret es' Ht Hf Hs Hstep) as [Hs' E]. destruct (IH Hs') as [Hs'' E']. split; [done|].
  cbn [run_array]. rewrite E. cbn [mbind res_bind from_option_ub fst snd]. by rewrite E'.
Qed.

(** ** Types *)

(** elements that are well formed to any depth: what is marked as a container
    is one, and a number has a text that can be read again *)
Inductive well_formed : element → Prop :=
  | wf_leaf tag c : is_byte tag → is_container tag = false → readable (tag, c) → well_formed (tag, c)
  | wf_node tag es : is_container tag = true → Forall well_formed es → small es → well_formed (tag, contents es).

(** objects: a text, a number, or the bytes of an element *)
Definition typed (o : vm_object) : Prop :=
  match okind o with
  | Plain => True
  | Ext tag => tag = ASN_TAG_REAL ∧ (length (ext_text o) < 64)%nat ∧ (length (ext_text o) ≤ len o)%nat
  | Array => ∃ e, bytes o = encode e ∧ well_formed e
  end.

Lemma well_formed_byte e : well_formed e → is_byte e.1 ∧ readable e.
Proof.
  destruct 1 as [tag c Hb Hc Hr|tag es Hc Hf Hs]; [done|]. split; [by apply container_is_byte|].
  intros Ht. cbn [fst] in Ht. subst tag. discriminate Hc.
Qed.

Lemma typed_element o : typed o → ∃ e, element_of o e ∧ well_formed e.
Proof.
  unfold typed, element_of. destruct o as [[| |tag] b]; cbn [okind bytes].
  - intros _. exists (ASN_TAG_OCTSTRING, b). split; [done|]. by apply wf_leaf.
  - intros (e & -> & Hw). exists e. destruct (well_formed_byte e Hw). done.
  - intros (-> & H1 & H2). eexists (ASN_TAG_REAL, _). split; [by split; [split; [reflexivity|]|]|]. apply wf_leaf; [done|done|]. by intros _.
Qed.

Lemma typed_elements args : Forall typed args → ∃ es, Forall2 element_of args es ∧ Forall well_formed es.
Proof.
  induction 1 as [|o args Ho _ (es & H1 & H2)]; [by exists []|]. destruct (typed_element o Ho) as (e & He & Hw). exists (e :: es). by split; constructor.
Qed.

(** numbers made of short texts have a short text again *)
Context (Hfloat : ∀ b, (length b < 64)%nat → let o := mkObj (Ext ASN_TAG_REAL) (float_bytes b) in
  (length (ext_text o) < 64)%nat ∧ (length (ext_text o) ≤ len o)%nat).

Lemma typed_to_object e : well_formed e → typed (to_object e).
Proof.
  intros Hw. destruct (well_formed_byte e Hw) as [Hb Hr]. unfold to_object, typed. destruct (e.1 =? ASN_TAG_OCTSTRING); [done|].
  destruct (Z.eqb_spec e.1 ASN_TAG_REAL) as [H|H]; cbn [okind bytes]; [split; [done|]; apply Hfloat; by apply Hr|by exists e].
Qed.

Lemma typed_container tag es : is_container tag = true → Forall well_formed es → small es → typed (mkObj Array (container tag es)).
Proof. intros Ht Hf Hs. exists (tag, contents es). split; [done|]. by apply wf_node. Qed.

Lemma change_well_formed j new es : Forall well_formed es → (∀ e, new = Some e → well_formed e) → Forall well_formed (change j new es).
Proof.
  intros Hf Hn. destruct new as [e|]; cbn [change]; [|by apply Forall_delete].
  apply Forall_insert; [done|by apply Hn].
Qed.
Lemma encode_inj e e' : Z.of_nat (length (encode e)) ≤ LIMIT → encode e = encode e' → e = e'.
Proof.
  intros Hl H. assert (Hlen : length (encode e) = length (encode e')) by (by rewrite H). assert (Hl' := Hl). rewrite Hlen in Hl'. rewrite length_encode in Hl, Hl'.
  unfold LIMIT in *. destruct e as [t c], e' as [t' c']. unfold encode in H. cbn [fst snd] in *. injection H as -> H.
  assert (E1 := get_length_ok (header (length c) ++ c) 0 (length c) c None eq_refl ltac:(lia)).
  assert (E2 := get_length_ok (header (length c') ++ c') 0 (length c') c' None eq_refl ltac:(lia)).
  rewrite <-H, E1 in E2. injection E2 as _ E2. rewrite E2 in H. by apply app_inv_head in H as ->.
Qed.

Lemma element_of_unique o e e' : Z.of_nat (length (encode e)) ≤ LIMIT → element_of o e → element_of o e' → e = e'.
Proof.
  intros Hl [H _] [H' _]. destruct (okind o); [congruence| |destruct H, H'; congruence].
  apply encode_inj; congruence.
Qed.

Lemma typed_element_of o e : Z.of_nat (length (encode e)) ≤ LIMIT → element_of o e → typed o → well_formed e.
Proof. intros Hl He Ht. destruct (typed_element o Ht) as (e' & He' & Hw). by rewrite (element_of_unique o e e'). Qed.

Lemma typed_elements_of args es : small es → Forall2 element_of args es → Forall typed args → Forall well_formed es.
Proof.
  intros Hs H. revert Hs. induction H as [|o e args es He _ IH]; intros Hs Ht; [done|]. apply Forall_cons in Ht as [Ho Ht]. destruct (small_cons _ _ Hs) as (_ & Hs' & Hl).
  apply Forall_cons. split; [by eapply typed_element_of|by apply IH].
Qed.

(** the objects an operation brings in *)
Definition op_typed (op : array_op) : Prop := match op with OAdd val | OSet _ val => typed val | _ => True end.

Lemma list_step_typed op es ret es' : small es → list_step op es ret es' → op_typed op → Forall well_formed es →
  Forall well_formed es' ∧ match ret with Some o => typed o | None => True end.
Proof.
  intros Hs Hstep Hop Hf. destruct Hstep as [val e es He Hl|key val new j es Hn Hv Hg Hr Hs'|key j es Hn Hv Hr Hs'|e es Hr|e es Hr]; cbn [op_typed] in Hop.
  - split; [|done]. apply Forall_app. split; [done|]. apply Forall_cons. split; [|by apply Forall_nil]. eapply typed_element_of; [|done|done].
    pose proof (contents_elem e (es ++ [e]) ltac:(apply elem_of_app; right; by constructor)). unfold LIMIT, VA_OBJECT_MAX_SIZE in *. lia.
  - split; [|done]. apply change_well_formed; [done|]. intros e ->. destruct Hg as (_ & He & Hle). by eapply typed_element_of.
  - split; [|done]. by apply Forall_delete.
  - apply Forall_cons in Hf as [He Hf]. split; [done|]. by apply typed_to_object.
  - apply Forall_app in Hf as [Hf He]. apply Forall_cons in He as [He _]. split; [done|]. by apply typed_to_object.
Qed.

Lemma list_run_typed fuel tag ops es rets es' : is_container tag = true → 32765 < Z.of_nat fuel → small es → list_run tag ops es rets es' →
  Forall op_typed ops → Forall well_formed es → Forall well_formed es' ∧ Forall typed rets.
Proof.
  intros Ht Hfu Hs Hrun. induction Hrun as [es|op ops es ret es' rets es'' Hstep _ IH]; intros Hops Hf; [done|].
  apply Forall_cons in Hops as [Hop Hops]. destruct (list_step_ok fuel tag op es ret es' Ht Hfu Hs Hstep) as [Hs' _].
  destruct (list_step_typed op es ret es' Hs Hstep Hop Hf) as [Hf' Hret]. destruct (IH Hs' Hops Hf') as [H1 H2]. split; [done|].
  apply Forall_cons. split; [|done]. destruct ret as [o|]; [done|]. by apply typed_container.
Qed.

Lemma at_spec_typed es index total : small es → Forall well_formed es →
  match at_spec float_bytes es index total with Some o => typed o | None => True end.
Proof.
  intros Hs Hf. unfold at_spec. cbv zeta. match goal with |- context [if ?c || ?d then _ else _] => destruct (c || d) end; [done|]. unfold at_result. case_decide.
  - destruct (es !! _) as [e|] eqn:He; [|done]. destruct (_ || _); [|done]. apply typed_to_object. by eapply Forall_lookup_1.
  - apply typed_container; [done|by apply Forall_take, Forall_drop|]. revert Hs. set (k := Z.to_nat _). set (n := Z.to_nat _). clearbody k n. intros Hs.
    rewrite <-(take_drop n es) in Hs. apply small_app in Hs as [_ Hs]. rewrite <-(take_drop k (drop n es)) in Hs. by apply small_app in Hs as [Hs _].
Qed.

(** [va_arg_array] or [va_arg_object] *)
Definition build (as_object : bool) (args : list vm_object) : res vm_object :=
  if as_object then va_arg_object malloc slack ext_text args else va_arg_array malloc slack ext_text args.
Definition build_tag (as_object : bool) : Z := if as_object then ASN_TAG_SEQ else ASN_TAG_SET.

Lemma build_container as_object args es : Forall2 element_of args es → small es → (length args ≤ 200)%nat →
  build as_object args = Ret (mkObj Array (container (build_tag as_object) es)) ∧ is_container (build_tag as_object) = true.
Proof.
  intros Ha Hs Hl. split; [|by destruct as_object]. destruct as_object; cbn [build build_tag];
    (apply (build_ok malloc slack ext_text Hmalloc); [apply keeps_small_wrap16 || apply keeps_small_id|by vm_compute|done|done|unfold VA_OBJECT_MAX_SIZE; lia]).
Qed.
End specification.

(** C17: Arrays are lists. An array or object of at most 200 elements built by
    [va_arg_array] or [va_arg_object] is the encoding of the list of its
    elements. Any sequence of [add], [set] and [remove] by index, [dequeue] and
    [pop] ends, stays inside its buffers, returns at each step what the list
    operation returns, and leaves the encoding of the resulting list; [count]
    is the length. The texts have at most 65530 bytes, those added to 4096. *)
Theorem array_refines_list (malloc : nat → list Z) (slack : list Z) (ext_text : vm_object → list Z) (float_bytes : list Z → list Z)
    (fuel : nat) (as_object : bool) (args : list vm_object) (es es' : list element) (ops : list array_op) (rets : list vm_object) :
  (∀ n, length (malloc n) = n) → 32765 < Z.of_nat fuel → Forall2 (element_of ext_text) args es → small es → (length args ≤ 200)%nat →
  list_run ext_text float_bytes (build_tag as_object) ops es rets es' →
  ∃ o, build malloc slack ext_text as_object args = Ret o ∧
    run_array malloc slack ext_text float_bytes fuel ops o = Ret (mkObj Array (container (build_tag as_object) es'), rets) ∧
    va_arg_count slack fuel (mkObj Array (container (build_tag as_object) es')) = Ret (mkObj Plain (print_int (Z.of_nat (length es')))).
Proof.
  intros Hm Hf Ha Hs Hl Hrun. destruct (build_container malloc slack ext_text Hm as_object args es Ha Hs Hl) as [Hb Ht].
  eexists. split; [exact Hb|]. destruct (list_run_ok malloc slack ext_text float_bytes Hm fuel _ ops es rets es' Ht Hf Hs Hrun) as [Hs' E].
  split; [exact E|]. unfold va_arg_count. by rewrite count_ok by (done || by apply small_length).
Qed.

(** C18: Keys. On an array or object whose pairs have a delimiter [va_arg_get]
    with a key without delimiter, shorter than the whole text, ends inside its
    buffer and returns the value of the first pair with that key, and nothing
    when there is none: elements before it, and bytes an earlier element left
    in the buffer, do not matter. *)
Theorem get_is_lookup (malloc : nat → list Z) (slack : list Z) (fuel : nat) (tag : Z) (es : list element) (key : vm_object) :
  (∀ n, length (malloc n) = n) → is_container tag = true → small es → Forall proper es → (length es < fuel)%nat →
  VA_OBJECT_DELIMITER ∉ bytes key → (len key < length (container tag es))%nat →
  va_arg_get malloc slack fuel (mkObj Array (container tag es)) key = Ret (mkObj Array <$> lookup_key (bytes key) es).
Proof. intros Hm Ht Hs Hp Hf Hk Hl. by apply get_ok. Qed.

(** C19: Indices. For every index and number of elements, negative and beyond
    the end included, [va_arg_at] ends inside its buffers. An index counts from
    the end when it is negative, a number of elements that is negative counts
    from the end of the rest, and what lies outside is cut off; one text or
    number is returned as such, several elements as an array, and a single
    element that is an array or a pair is not returned at all. *)
Theorem at_is_slice (malloc : nat → list Z) (slack : list Z) (float_bytes : list Z → list Z) (fuel : nat) (tag : Z) (es : list element)
    (vindex : list Z) (vtotal : option (list Z)) (index total : Z) :
  (∀ n, length (malloc n) = n) → is_container tag = true → small es → (length es < fuel)%nat →
  Forall (λ e, is_byte e.1) es → Forall readable es →
  vm_is_numeric_s vindex = true → va_o2f vindex = Ret index →
  match vtotal with Some t => va_o2f t = Ret total | None => total = 1 end →
  va_arg_at malloc slack float_bytes fuel (mkObj Array (container tag es)) vindex vtotal = Ret (at_spec float_bytes es index total).
Proof. intros Hm Ht Hs Hf Hb Hr Hnum Hi Hto. unfold va_arg_at. rewrite Hnum. by apply at_ok. Qed.

(** C20: Types. An array is well formed when its elements are, to any depth, and
    numbers have texts that can be read. Built from well-formed objects, and
    changed with well-formed objects by any sequence of operations, arrays stay
    well formed, and so is every object returned, by the operations and by
    [va_arg_at] at any number. *)
Theorem array_types_preserved (malloc : nat → list Z) (slack : list Z) (ext_text : vm_object → list Z) (float_bytes : list Z → list Z)
    (fuel : nat) (as_object : bool) (args : list vm_object) (es es' : list element) (ops : list array_op) (rets : list vm_object) :
  (∀ n, length (malloc n) = n) →
  (∀ b, (length b < 64)%nat → let o := mkObj (Ext ASN_TAG_REAL) (float_bytes b) in
     (length (ext_text o) < 64)%nat ∧ (length (ext_text o) ≤ len o)%nat) →
  32765 < Z.of_nat fuel → Forall2 (element_of ext_text) args es → small es → (length args ≤ 200)%nat →
  list_run ext_text float_bytes (build_tag as_object) ops es rets es' →
  Forall (typed ext_text) args → Forall (op_typed ext_text) ops →
  ∃ o0 o, build malloc slack ext_text as_object args = Ret o0 ∧ run_array malloc slack ext_text float_bytes fuel ops o0 = Ret (o, rets) ∧
    typed ext_text o0 ∧ typed ext_text o ∧ Forall (typed ext_text) rets ∧
    ∀ vindex vtotal index total, vm_is_numeric_s vindex = true → va_o2f vindex = Ret index → va_o2f vtotal = Ret total →
      ∃ r, va_arg_at malloc slack float_bytes fuel o vindex (Some vtotal) = Ret r ∧ match r with Some x => typed ext_text x | None => True end.
Proof.
  intros Hm Hfl Hf Ha Hs Hl Hrun Hta Hto. destruct (build_container malloc slack ext_text Hm as_object args es Ha Hs Hl) as [Hb Ht].
  destruct (list_run_ok malloc slack ext_text float_bytes Hm fuel _ ops es rets es' Ht Hf Hs Hrun) as [Hs' E].
  pose proof (typed_elements_of ext_text args es Hs Ha Hta) as Hw.
  destruct (list_run_typed malloc slack ext_text float_bytes Hm Hfl fuel _ ops es rets es' Ht Hf Hs Hrun Hto Hw) as [Hw' Hr].
  exists (mkObj Array (container (build_tag as_object) es)), (mkObj Array (container (build_tag as_object) es')).
  split; [exact Hb|]. split; [exact E|]. split; [by apply typed_container|]. split; [by apply typed_container|]. split; [done|].
  intros vindex vtotal index total Hnum Ei Et. unfold va_arg_at. rewrite Hnum. exists (at_spec float_bytes es' index total). split; [|by apply at_spec_typed].
  assert (Hwb : Forall (λ e, is_byte e.1 ∧ readable e) es') by (eapply Forall_impl; [exact Hw'|]; intros e He; by apply well_formed_byte).
  apply Forall_and in Hwb as [Hb1 Hb2]. apply at_ok; [done|done|done|by apply small_length|done|done|done|exact Et].
Qed.

(** ** Samples *)
Definition text (s : string) : vm_object := mkObj Plain (chars s).
Definition text_element (s : string) : element := (ASN_TAG_OCTSTRING, chars s).

Definition sample_args : list vm_object := [text "pen"; text "apple"].
Definition sample_ops : list array_op := [OAdd (text "nut"); OSet (text "0") (text "ink"); ORemove (text "1"); OPop; ODequeue].
Definition array_of (es : list element) : vm_object := mkObj Array (container ASN_TAG_SET es).
Definition sample_rets : list vm_object :=
  [array_of [text_element "pen"; text_element "apple"; text_element "nut"];
   array_of [text_element "ink"; text_element "apple"; text_element "nut"];
   array_of [text_element "ink"; text_element "nut"]; text "nut"; text "ink"].

Lemma sample_run :
  list_run bytes id ASN_TAG_SET sample_ops [text_element "pen"; text_element "apple"] sample_rets [].
Proof.
  assert (Hr : ∀ s, readable (text_element s)) by (by intros s [=]).
  assert (He : ∀ s, element_of bytes (text s) (text_element s)) by (intros s; split; [done|by vm_compute]).
  apply (LCons _ _ _ _ _ _ None [text_element "pen"; text_element "apple"; text_element "nut"]).
  { apply (LAdd _ _ (text "nut") (text_element "nut") [text_element "pen"; text_element "apple"]); [apply He|vm_compute; lia]. }
  apply (LCons _ _ _ _ _ _ None [text_element "ink"; text_element "apple"; text_element "nut"]).
  { apply (LSet _ _ (text "0") (text "ink") (Some (text_element "ink")) 0 [text_element "pen"; text_element "apple"; text_element "nut"]); try reflexivity.
    - split; [done|]. split; [apply He|by vm_compute].
    - intros e [= <-]. apply Hr.
    - by vm_compute. }
  apply (LCons _ _ _ _ _ _ None [text_element "ink"; text_element "nut"]).
  { apply (LRemove _ _ (text "1") 1 [text_element "ink"; text_element "apple"; text_element "nut"]); try reflexivity.
    - intros e [= <-]. apply Hr.
    - by vm_compute. }
  apply (LCons _ _ _ _ _ _ (Some (text "nut")) [text_element "ink"]).
  { apply (LPop _ _ (text_element "nut") [text_element "ink"]), Hr. }
  apply (LCons _ _ _ _ _ _ (Some (text "ink")) []); [|apply LNil].
  apply (LDequeue _ _ (text_element "ink") []), Hr.
Qed.

Lemma array_refines_list_witness :
  ∃ o, build some_memory (some_memory 8) bytes false sample_args = Ret o ∧
    run_array some_memory (some_memory 8) bytes id (Z.to_nat 40000) sample_ops o = Ret (array_of [], sample_rets) ∧
    va_arg_count (some_memory 8) (Z.to_nat 40000) (array_of []) = Ret (text "0").
Proof.
  apply (array_refines_list some_memory (some_memory 8) bytes id (Z.to_nat 40000) false sample_args [text_element "pen"; text_element "apple"] [] sample_ops sample_rets).
  - apply some_memory_length.
  - rewrite Z2Nat.id; lia.
  - repeat constructor; by vm_compute.
  - by vm_compute.
  - cbn. lia.
  - apply sample_run.
Defined.

(** an object with a text in front of two pairs *)
Definition pair_element (k v : string) : element := (ASN_TAG_OBJDESC, chars k ++ VA_OBJECT_DELIMITER :: chars v).
Definition sample_object : list element := [text_element "zz"; pair_element "a" "1"; pair_element "ab" "23"; pair_element "ab" "4"].

Lemma get_is_lookup_witness :
  va_arg_get some_memory (some_memory 8) 10 (mkObj Array (container ASN_TAG_SEQ sample_object)) (text "ab") = Ret (Some (mkObj Array (chars "23"))).
Proof.
  apply (get_is_lookup some_memory (some_memory 8) 10 ASN_TAG_SEQ sample_object (text "ab")).
  - apply some_memory_length.
  - reflexivity.
  - by vm_compute.
  - assert (H : ∀ k v, proper (pair_element k v)) by (intros k v _; apply elem_of_app; right; by constructor).
    apply Forall_cons. split; [by intros [=]|]. repeat (apply Forall_cons; split; [apply H|]). apply Forall_nil; exact Logic.I.
  - cbn. lia.
  - vm_compute. set_solver.
  - vm_compute. lia.
Defined.

(** the value of a key is marked as an array, whatever its bytes are *)
Lemma get_loses_type : ¬ typed bytes (mkObj Array (chars "23")).
Proof.
  intros (e & He & _). assert (Hl := f_equal length He). rewrite length_encode in Hl. destruct e as [t c]. cbn [snd bytes] in *.
  pose proof (length_header (length c)). change (length (chars "23")) with 2%nat in Hl. assert (length c = 0%nat) as Hc by lia. apply length_zero_iff_nil in Hc as ->.
  discriminate He.
Qed.

Lemma at_is_slice_witness :
  va_arg_at some_memory (some_memory 8) id 10 (mkObj Array (container ASN_TAG_SEQ sample_object)) (chars "-4") (Some (chars "2")) =
    Ret (Some (array_of [text_element "zz"; pair_element "a" "1"])).
Proof.
  apply (at_is_slice some_memory (some_memory 8) id 10 ASN_TAG_SEQ sample_object (chars "-4") (Some (chars "2")) (-4) 2).
  - apply some_memory_length.
  - reflexivity.
  - by vm_compute.
  - cbn. lia.
  - repeat (apply Forall_cons; split; [by vm_compute|]). apply Forall_nil; exact Logic.I.
  - repeat (apply Forall_cons; split; [by intros [=]|]). apply Forall_nil; exact Logic.I.
  - reflexivity.
  - reflexivity.
  - reflexivity.
Defined.

Lemma array_types_preserved_witness :
  ∃ o0 o, build some_memory (some_memory 8) bytes false sample_args = Ret o0 ∧
    run_array some_memory (some_memory 8) bytes id (Z.to_nat 40000) sample_ops o0 = Ret (o, sample_rets) ∧
    typed bytes o0 ∧ typed bytes o ∧ Forall (typed bytes) sample_rets ∧
    ∀ vindex vtotal index total, vm_is_numeric_s vindex = true → va_o2f vindex = Ret index → va_o2f vtotal = Ret total →
      ∃ r, va_arg_at some_memory (some_memory 8) id (Z.to_nat 40000) o vindex (Some vtotal) = Ret r ∧ match r with Some x => typed bytes x | None => True end.
Proof.
  apply (array_types_preserved some_memory (some_memory 8) bytes id (Z.to_nat 40000) false sample_args [text_element "pen"; text_element "apple"] [] sample_ops sample_rets).
  - apply some_memory_length.
  - intros b Hb. split; [exact Hb|apply Nat.le_refl].
  - rewrite Z2Nat.id; lia.
  - repeat constructor; by vm_compute.
  - by vm_compute.
  - cbn. lia.
  - apply sample_run.
  - repeat (apply Forall_cons; split; [exact Logic.I|]). apply Forall_nil; exact Logic.I.
  - repeat (apply Forall_cons; split; [exact Logic.I|]). apply Forall_nil; exact Logic.I.
Defined.
