(* ===== verification/Each.v ===== *)
(** * Enumerating arrays and splitting texts (StackLib/StackVM/vm_framework.c)

    A loop over the elements of an array calls [first] once and [next] until it
    gives the empty text. The enumerator keeps a pointer to the array and
    addresses inside its bytes, so the array is an entry of a store that other
    variables refer to as well. *)
From S2P Require Import Prelude Decimal Isa Text Bytes Args ArgsList.

(** ** Shared objects *)

(** an object with the low half of [mgc_refcount], and [lock] *)
Record shared := mkShared { ob : vm_object; refs : Z; lock : Z }.
Abbreviation store_of := (gmap nat shared).

Definition vm_object_ref (o : shared) : shared :=
  if negb (refs o =? 0xF) then mkShared (ob o) (refs o + 1) (u8 (lock o + 1)) else o.

Definition vm_object_unref (o : shared) : shared :=
  mkShared (ob o) (if negb (refs o =? 0) then refs o - 1 else 0) (if negb (lock o =? 0) then lock o - 1 else 0).

(** [object]; [current] and [end], as distances from its bytes, [None] for
    NULL; [ref_count] *)
Record va_enumerator := mkEnum { object : nat; current : option nat; e_end : option nat; ref_count : Z }.

Section each.
Context (malloc : nat → list Z) (slack : list Z) (float_bytes : list Z → list Z).

Abbreviation memory := (memory slack).

(** [va_create_enumerator] *)
Definition va_create_enumerator (a : nat) (h : store_of) : res (option va_enumerator * store_of) :=
  o ← from_option_ub (h !! a);
  if bool_decide (len (ob o) = 0)%nat then Ret (None, h)
  else
    b0 ← get (memory (ob o)) 0;
    if is_container b0 then Ret (Some (mkEnum a None None (refs o)), <[a := vm_object_ref o]> h)
    else Ret (None, h).

(** [va_enumerator_release] *)
Definition va_enumerator_release (e : va_enumerator) (h : store_of) : res store_of :=
  o ← from_option_ub (h !! object e); Ret (<[object e := vm_object_unref o]> h).

(** [va_arg_first] on an array *)
Definition va_arg_first (a : nat) (h : store_of) : res (option va_enumerator * store_of) :=
  o ← from_option_ub (h !! a);
  if bool_decide (len (ob o) = 0)%nat then Ret (None, h)
  else
    r ← va_create_enumerator a h;
    match r.1 with
    | None => Ret (None, h)
    | Some e =>
        p ← va_pop_lv (memory (ob o)) 1 (malloc (len (ob o))) 0 None;
        g ← va_get_length (memory (ob o)) 1 None;
        Ret (Some (mkEnum a (Some (1 + g.1)%nat) (Some (1 + p.1.1)%nat) (ref_count e)), r.2)
    end.

(** [va_next_enumerator]: [bbuf] is an array of the stack; the object, and the
    enumerator behind it *)
Definition va_next_enumerator (e : va_enumerator) (h : store_of) : res (option vm_object * va_enumerator) :=
  match current e, e_end e with
  | Some c, Some last =>
      if bool_decide (last ≤ c)%nat then Ret (None, e)
      else
        o ← from_option_ub (h !! object e);
        if negb (refs o =? ref_count e) then Ret (None, e)
        else
          tag ← get (memory (ob o)) c;
          p ← va_pop_lv (memory (ob o)) (c + 1) (malloc VA_OBJECT_MAX_SIZE) 0 None;
          n ← from_option_ub p.1.2;
          let after llen := mkEnum (object e) (Some (c + (1 + llen))%nat) (e_end e) (ref_count e) in
          if tag =? ASN_TAG_OCTSTRING then x ← slice p.2 0 n; Ret (Some (mkObj Plain x), after p.1.1)
          else if tag =? ASN_TAG_REAL then
            x ← slice p.2 0 n; r ← va_create_ext_float float_bytes x; Ret (Some r, after p.1.1)
          else
            r ← va_push_lv 1 p.2 n p.2;
            b ← put 0 tag r.1;
            x ← slice b 0 (r.2 + 1); Ret (Some (mkObj Array x), after r.2)
  | _, _ => Ret (None, e)
  end.

(** [va_arg_try_next]: an empty text when there is none *)
Definition va_arg_try_next (e : va_enumerator) (h : store_of) : res (vm_object * va_enumerator) :=
  r ← va_next_enumerator e h; Ret (default (mkObj Plain []) r.1, r.2).

(** the calls of a compiled loop: [next] until it gives the empty text *)
Fixpoint each (fuel : nat) (e : va_enumerator) (h : store_of) : res (list vm_object) :=
  match fuel with
  | O => Timeout
  | S fuel' =>
      r ← va_arg_try_next e h;
      if bool_decide (r.1 = mkObj Plain []) then Ret []
      else l ← each fuel' r.2 h; Ret (r.1 :: l)
  end.

(** ** Splitting *)

(** the loop over [k] *)
Fixpoint matches (b : list Z) (i : nat) (pat : list Z) : res bool :=
  match pat with
  | [] => Ret true
  | p :: pat' => c ← get b i; if c =? p then matches b (i + 1) pat' else Ret false
  end.

(** [i], [j], [last_index] and [bbuf] *)
Definition split_step (val pattern : vm_object) (s : nat * nat * nat * list Z) : res (nat * nat * nat * list Z + nat * list Z) :=
  let '(i, j, last_index, bbuf) := s in
  if bool_decide (i < len val)%nat then
    c ← get (memory val) i;
    p0 ← get (memory pattern) 0;
    found ← (if c =? p0 then matches (memory val) i (bytes pattern) else Ret false : res bool);
    if (found : bool) then
      r ← va_push_lv (last_index + 1) (drop last_index bbuf) j bbuf;
      b ← put last_index ASN_TAG_OCTSTRING r.1;
      Ret (inl ((i + len pattern)%nat, 0%nat, (last_index + (r.2 + 1))%nat, b))
    else b ← put (last_index + j) c bbuf; Ret (inl ((i + 1)%nat, (j + 1)%nat, last_index, b))
  else Ret (inr (last_index, bbuf)).

(** [va_string_split]: the object is made as a text *)
Definition va_string_split (fuel : nat) (val pattern : vm_object) : res vm_object :=
  s ← loop fuel (split_step val pattern) (0%nat, 0%nat, 0%nat, malloc (VA_OBJECT_MAX_SIZE + len val));
  r ← va_push_lv 1 s.2 s.1 s.2;
  b ← put 0 ASN_TAG_SET r.1;
  x ← slice b 0 (r.2 + 1); Ret (mkObj Plain x).

End each.

(** ** What they do *)

(** a text with its length in front of it, where it stands; and its tag *)
Lemma wrap_ok {A} (tag : Z) (w p r : list Z) (k : list Z → nat → res A) :
  is_byte tag → Z.of_nat (length p) < 65535 → (1 + length (header (length p)) ≤ length r)%nat →
  (x ← va_push_lv (length w + 1) (p ++ r) (length p) (w ++ p ++ r); b ← put (length w) tag x.1; k b x.2) =
    k (w ++ encode (tag, p) ++ drop (1 + length (header (length p))) r) (length (header (length p)) + length p)%nat.
Proof.
  intros Ht Hp Hr. destruct (p ++ r) as [|x0 b] eqn:E; [apply (f_equal length) in E; rewrite length_app in E; cbn in E; lia|].
  assert (Hl := f_equal length E). rewrite length_app in Hl. cbn [length] in Hl.
  assert (P := push_lv_ok (w ++ [x0]) b p r Hp ltac:(lia)). rewrite length_app, E in P. cbn [length] in P. rewrite <-!app_assoc in P. cbn [app] in P. rewrite P. res_cbn.
  rewrite put_at by done. cbn [mbind res_bind]. unfold encode. cbn [fst snd]. f_equal. rewrite <-!app_assoc. cbn [app]. do 2 f_equal. rewrite <-app_assoc. do 2 f_equal.
  transitivity (drop (S (length (header (length p)) + length p)) (p ++ r)); [by rewrite E|].
  replace (S (length (header (length p)) + length p)) with (length p + (1 + length (header (length p))))%nat by lia. by rewrite drop_app_add.
Qed.

Section facts.
Context (malloc : nat → list Z) (slack : list Z) (float_bytes : list Z → list Z).
Context (Hmalloc : ∀ n, length (malloc n) = n).

Abbreviation to_object := (to_object float_bytes).
Abbreviation next := (va_next_enumerator malloc slack float_bytes).

(** elements the array of the stack has room for *)
Definition fits (e : element) : Prop := is_byte e.1 ∧ (length e.2 + 4 ≤ VA_OBJECT_MAX_SIZE)%nat ∧ readable e.

Lemma next_ok a h o e rest c last : h !! a = Some o → drop c (memory slack (ob o)) = encode e ++ rest →
  (c ≤ length (memory slack (ob o)))%nat → (c < last)%nat → fits e →
  next (mkEnum a (Some c) (Some last) (refs o)) h = Ret (Some (to_object e), mkEnum a (Some (c + length (encode e))%nat) (Some last) (refs o)).
Proof.
  intros Ha Hb Hc Hl (Ht & Hf & Hr). destruct (drop_element _ _ _ _ Hb Hc) as (G & D & _). unfold va_next_enumerator. cbn [current e_end object ref_count].
  rewrite bool_decide_eq_false_2 by lia. rewrite Ha. cbn [from_option_ub mbind res_bind]. rewrite Z.eqb_refl. cbn [negb]. rewrite G. cbn [mbind res_bind].
  set (r := drop (length e.2) (malloc VA_OBJECT_MAX_SIZE)). assert (Hlr : (length r = VA_OBJECT_MAX_SIZE - length e.2)%nat) by (subst r; by rewrite length_drop, Hmalloc).
  assert (Hlb := f_equal length D). rewrite length_drop, !length_app in Hlb. pose proof (length_header (length e.2)).
  unfold VA_OBJECT_MAX_SIZE in Hf, Hlr.
  rewrite (pop_lv_ok _ _ e.2 rest _ (e.2 ++ r) 0 None D); [|lia|lia|apply store_zero; rewrite Hmalloc; unfold VA_OBJECT_MAX_SIZE; lia].
  cbn [mbind res_bind from_option_ub fst snd]. rewrite slice_all. cbn [mbind res_bind]. unfold to_object, ArgsList.to_object.
  assert (Es : ∀ n, n = (length (header (length e.2)) + length e.2)%nat → (c + (1 + n) = c + length (encode e))%nat) by (intros n ->; rewrite length_encode; lia).
  destruct (Z.eqb_spec e.1 ASN_TAG_OCTSTRING); [by rewrite Es|]. destruct (Z.eqb_spec e.1 ASN_TAG_REAL) as [Hreal|].
  - unfold va_create_ext_float. rewrite bool_decide_eq_true_2 by auto. cbn [mbind res_bind]. by rewrite Es.
  - etransitivity; [apply (wrap_ok e.1 [] e.2 r (λ b n, x ← slice b 0 (n + 1);
      Ret (Some (mkObj Array x), mkEnum a (Some (c + (1 + n))%nat) (Some last) (refs o)))); [done|lia|lia]|].
    rewrite <-surjective_pairing, Es by done. cbn [app].
    replace (length (header (length e.2)) + length e.2 + 1)%nat with (length (encode e)) by (rewrite length_encode; lia). by rewrite slice_all.
Qed.

(** what a loop sees: the elements up to the first empty text *)
Fixpoint until_empty (es : list element) : list vm_object :=
  match es with
  | [] => []
  | e :: es' => if bool_decide (e = (ASN_TAG_OCTSTRING, [])) then [] else to_object e :: until_empty es'
  end.

Lemma empty_object_of e : to_object e = mkObj Plain [] ↔ e = (ASN_TAG_OCTSTRING, []).
Proof.
  unfold to_object, ArgsList.to_object. destruct e as [t c]. cbn [fst snd].
  destruct (Z.eqb_spec t ASN_TAG_OCTSTRING) as [->|H]; [split; congruence|]. destruct (t =? ASN_TAG_REAL); split; congruence.
Qed.

Lemma each_ok a h o es : ∀ fuel rest c, h !! a = Some o → drop c (memory slack (ob o)) = contents es ++ rest →
  (c ≤ length (memory slack (ob o)))%nat → Forall fits es → (length es < fuel)%nat →
  each malloc slack float_bytes fuel (mkEnum a (Some c) (Some (c + length (contents es))%nat) (refs o)) h = Ret (until_empty es).
Proof.
  induction es as [|e es IH]; intros [|fuel] rest c Ha Hb Hc Hf Hfu; [cbn in Hfu; lia| |cbn in Hfu; lia|].
  - cbn [each]. unfold va_arg_try_next, va_next_enumerator. cbn [current e_end contents fmap list_fmap concat length]. rewrite Nat.add_0_r, bool_decide_eq_true_2 by lia. done.
  - rewrite contents_cons, <-app_assoc in Hb. apply Forall_cons in Hf as [He Hf]. destruct (drop_element _ _ _ _ Hb Hc) as (_ & _ & D' & Hi & _).
    rewrite contents_cons, length_app, Nat.add_assoc. cbn [each]. unfold va_arg_try_next. pose proof (length_encode e). rewrite (next_ok a h o e (contents es ++ rest)) by (done || lia).
    cbn [mbind res_bind default fst snd until_empty]. rewrite (bool_decide_ext _ _ (empty_object_of e)). case_bool_decide as Hemp; [done|].
    rewrite (IH fuel rest) by (done || (cbn in Hfu; lia)). done.
Qed.

(** an enumerator whose array has got or lost a reference gives nothing more *)
Lemma each_changed a h o fuel c last count : h !! a = Some o → refs o ≠ count → (0 < fuel)%nat →
  each malloc slack float_bytes fuel (mkEnum a (Some c) (Some last) count) h = Ret [].
Proof.
  intros Ha Hr Hf. destruct fuel as [|fuel]; [lia|]. cbn [each]. unfold va_arg_try_next, va_next_enumerator. cbn [current e_end object ref_count].
  case_bool_decide; [done|]. rewrite Ha. cbn [from_option_ub mbind res_bind]. by rewrite (proj2 (Z.eqb_neq _ _)).
Qed.

Lemma first_ok a h knd tag es r l : h !! a = Some (mkShared (mkObj knd (container tag es)) r l) → is_container tag = true → small es → 0 ≤ r < 15 →
  let c := (length (header (length (contents es))) + 1)%nat in
  va_arg_first malloc slack a h =
    Ret (Some (mkEnum a (Some c) (Some (c + length (contents es))%nat) r), <[a := mkShared (mkObj knd (container tag es)) (r + 1) (u8 (l + 1))]> h).
Proof.
  intros Ha Ht Hs Hr c. destruct (container_start slack tag es Ht Hs) as (G & D & D2 & Hlen & Hn). assert (Hs' := Hs). unfold small, LIMIT in Hs'.
  unfold va_arg_first, va_create_enumerator. rewrite Ha. cbn [from_option_ub mbind res_bind ob refs]. unfold len, memory. cbn [bytes]. rewrite bool_decide_eq_false_2 by done.
  rewrite G. cbn [mbind res_bind]. rewrite Ht. cbn [mbind res_bind fst snd ref_count].
  assert (Hlc : length (container tag es) = (1 + length (header (length (contents es))) + length (contents es))%nat) by (unfold container; rewrite length_encode; done).
  rewrite (pop_lv_ok _ _ (contents es) slack _ (contents es ++ drop (length (contents es)) (malloc (length (container tag es)))) 0 None D);
    [|lia|lia|apply store_zero; rewrite Hmalloc; lia].
  rewrite (get_length_ok _ _ _ _ None D) by lia. cbn [mbind res_bind fst snd]. unfold vm_object_ref. cbn [refs ob lock].
  rewrite (proj2 (Z.eqb_neq _ _)) by lia. cbn [negb]. subst c. do 4 f_equal; f_equal; lia.
Qed.

(** *** Splitting *)
Section split.
Context (knd : kind) (t pat : list Z) (pobj : vm_object).
Abbreviation step := (split_step slack (mkObj knd t) pobj).

Lemma split_chars p l : bytes pobj = p :: pat → p ∉ l → Forall is_byte l → ∀ i w q r rest, drop i t = l ++ rest → (i ≤ length t)%nat → (length l ≤ length r)%nat →
  iters step (length l) (i, length q, length w, w ++ q ++ r) ((i + length l)%nat, length (q ++ l), length w, w ++ (q ++ l) ++ drop (length l) r).
Proof.
  intros Hp Hn Hb. induction l as [|c l IH]; intros i w q r rest Ht Hi Hr.
  - cbn [length drop]. rewrite app_nil_r, Nat.add_0_r. constructor.
  - apply not_elem_of_cons in Hn as [Hc Hn]. apply Forall_cons in Hb as [Hbc Hb]. destruct r as [|x0 r]; [cbn in Hr; lia|]. cbn [length] in *.
    assert (Hl := f_equal length Ht). rewrite length_drop in Hl. cbn [app length] in Hl.
    change (S (length l)) with (S (length l)). eapply iters_S.
    + unfold split_step, len, memory. cbn [bytes]. rewrite bool_decide_eq_true_2 by lia.
      assert (Hg : get (t ++ slack) i = Ret c) by (unfold get; rewrite lookup_app_l by lia; rewrite <-(Nat.add_0_r i), <-lookup_drop, Ht; done). rewrite Hg, Hp. cbn [mbind res_bind app].
      change (get (p :: pat ++ slack) 0) with (Ret p). cbn [mbind res_bind]. rewrite (proj2 (Z.eqb_neq _ _)) by congruence. cbn [mbind res_bind].
      rewrite (app_assoc w q (x0 :: r)), <-length_app, put_at by done. cbn [mbind res_bind]. reflexivity.
    + replace (((w ++ q) ++ [c]) ++ r) with (w ++ (q ++ [c]) ++ r) by (by rewrite <-!app_assoc).
      replace (q ++ c :: l) with ((q ++ [c]) ++ l) by (by rewrite <-app_assoc). replace (length q + 1)%nat with (length (q ++ [c])) by (by rewrite length_app).
      replace (i + S (length l))%nat with (i + 1 + length l)%nat by lia. apply (IH Hn Hb (i + 1)%nat w (q ++ [c]) r rest); [|lia|lia]. by rewrite <-drop_drop, Ht.
Qed.

Lemma matches_ok b i l rest : drop i b = l ++ rest → (i ≤ length b)%nat → matches b i l = Ret true.
Proof.
  revert i. induction l as [|c l IH]; intros i Hb Hi; [done|]. cbn [matches]. assert (Hl := f_equal length Hb). rewrite length_drop in Hl. cbn [app length] in Hl.
  rewrite (get_drop_0 _ _ _ Hb). cbn [app get lookup list_lookup from_option_ub mbind res_bind]. change (get (c :: l ++ rest) 0) with (Ret c). cbn [mbind res_bind]. rewrite Z.eqb_refl.
  apply IH; [by rewrite <-drop_drop, Hb|lia].
Qed.

Lemma split_separator p i w q r rest : bytes pobj = p :: pat → drop i t = (p :: pat) ++ rest → (i ≤ length t)%nat →
  Z.of_nat (length q) < 65535 → (1 + length (header (length q)) ≤ length r)%nat →
  step (i, length q, length w, w ++ q ++ r) =
    Ret (inl ((i + length (p :: pat))%nat, 0%nat, length (w ++ encode (ASN_TAG_OCTSTRING, q)),
      (w ++ encode (ASN_TAG_OCTSTRING, q)) ++ drop (1 + length (header (length q))) r)).
Proof.
  intros Hp Ht Hi Hq Hr. assert (Hl := f_equal length Ht). rewrite length_drop in Hl. cbn [app length] in Hl.
  unfold split_step, len, memory. cbn [bytes]. rewrite bool_decide_eq_true_2 by lia.
  assert (Hd : drop i (t ++ slack) = (p :: pat) ++ rest ++ slack) by (rewrite drop_app_le by lia; rewrite Ht; by rewrite <-app_assoc).
  rewrite (get_drop_0 _ _ _ Hd), Hp. cbn [app]. change (get (p :: pat ++ rest ++ slack) 0) with (Ret p). change (get (p :: pat ++ slack) 0) with (Ret p). cbn [mbind res_bind]. rewrite Z.eqb_refl.
  rewrite (matches_ok _ i (p :: pat) (rest ++ slack)) by (done || (rewrite length_app; lia)). cbn [mbind res_bind]. rewrite drop_app_length.
  rewrite (wrap_ok ASN_TAG_OCTSTRING w q r (λ b n, Ret (inl ((i + length (p :: pat))%nat, 0%nat, (length w + (n + 1))%nat, b)))) by (done || by vm_compute).
  do 2 f_equal. rewrite length_app, length_encode, <-app_assoc. cbn [snd]. f_equal. f_equal. lia.
Qed.

(** the pieces in front of a separator each *)
Definition texts_of (ps : list (list Z)) : list element := (λ q, (ASN_TAG_OCTSTRING, q)) <$> ps.
Definition joined (sep : list Z) (ps : list (list Z)) (rest : list Z) : list Z := concat ((λ q, q ++ sep) <$> ps) ++ rest.
Definition piece (sep : list Z) (q : list Z) : Prop := Forall is_byte q ∧ ∀ p, head sep = Some p → p ∉ q.

Lemma split_pieces p rest : bytes pobj = p :: pat → piece (p :: pat) rest → ∀ ps i w r,
  Forall (piece (p :: pat)) ps → drop i t = joined (p :: pat) ps rest → (i ≤ length t)%nat → small (texts_of ps) →
  (length (contents (texts_of ps)) + length rest ≤ length r)%nat →
  ∃ n r', iters step n (i, 0%nat, length w, w ++ r)
      (length t, length rest, length (w ++ contents (texts_of ps)), (w ++ contents (texts_of ps)) ++ rest ++ r') ∧
    (n ≤ length t - i)%nat ∧ (length r' + length rest + length (contents (texts_of ps)) = length r)%nat.
Proof.
  intros Hp [Hrb Hr]. induction ps as [|q ps IH]; intros i w r Hps Ht Hi Hs Hroom.
  - unfold joined in Ht. cbn [fmap list_fmap concat app] in Ht. cbn [texts_of contents fmap list_fmap concat length] in *. rewrite app_nil_r.
    assert (Hl := f_equal length Ht). rewrite length_drop in Hl. exists (length rest), (drop (length rest) r). rewrite length_drop. split; [|lia].
    assert (E := split_chars p rest Hp (Hr p eq_refl) Hrb i w [] r []). rewrite app_nil_r in E. cbn [app length] in E. replace (i + length rest)%nat with (length t) in E by lia. apply E; [done|lia|lia].
  - apply Forall_cons in Hps as [[Hqb Hq] Hps]. change (texts_of (q :: ps)) with ((ASN_TAG_OCTSTRING, q) :: texts_of ps) in *. rewrite contents_cons in *.
    apply small_cons in Hs as (Hsq & Hs & _). rewrite length_app in Hroom. rewrite (length_app (encode _)). pose proof (length_encode (ASN_TAG_OCTSTRING, q)) as Henc. cbn [snd] in Henc, Hsq.
    assert (Hj : joined (p :: pat) (q :: ps) rest = q ++ (p :: pat) ++ joined (p :: pat) ps rest) by (unfold joined; cbn [fmap list_fmap concat]; by rewrite <-!app_assoc).
    rewrite Hj in Ht. assert (Hl := f_equal length Ht). rewrite length_drop, !length_app in Hl. cbn [length] in Hl.
    assert (I1 := split_chars p q Hp (Hq p eq_refl) Hqb i w [] r _ Ht Hi ltac:(lia)). cbn [app length] in I1.
    assert (I2 := split_separator p (i + length q)%nat w q (drop (length q) r) (joined (p :: pat) ps rest) Hp).
    destruct (IH (i + length q + length (p :: pat))%nat (w ++ encode (ASN_TAG_OCTSTRING, q)) (drop (1 + length (header (length q))) (drop (length q) r)) Hps) as (n & r' & I3 & Hn & Hr').
    { rewrite <-!drop_drop, Ht, (drop_app_length q). apply drop_app_length. }
    { cbn [length]. lia. }
    { exact Hs. }
    { rewrite !length_drop. lia. }
    rewrite !length_drop in Hr'. cbn [length] in Hn. exists (length q + S n)%nat, r'. rewrite app_assoc. split; [|lia].
    eapply iters_trans; [exact I1|]. eapply iters_S; [|exact I3]. apply I2; [rewrite <-drop_drop, Ht; apply drop_app_length|lia|done|rewrite length_drop; lia].
Qed.

Lemma split_ok p rest ps fuel : bytes pobj = p :: pat → piece (p :: pat) rest → Forall (piece (p :: pat)) ps → t = joined (p :: pat) ps rest →
  small (texts_of ps) → (4 * length ps + 4 ≤ VA_OBJECT_MAX_SIZE)%nat → (length t < fuel)%nat →
  va_string_split malloc slack fuel (mkObj knd t) pobj = Ret (mkObj Plain (container ASN_TAG_SET (texts_of ps))).
Proof.
  intros Hp Hrest Hps Ht Hs Hroom Hf. unfold VA_OBJECT_MAX_SIZE in Hroom. unfold va_string_split. set (room := malloc (VA_OBJECT_MAX_SIZE + len (mkObj knd t))).
  assert (Hlr : length room = (4096 + length t)%nat) by (subst room; by rewrite Hmalloc).
  assert (Hc : (length (contents (texts_of ps)) + length rest ≤ length t + 4 * length ps)%nat).
  { rewrite Ht. clear. induction ps as [|q ps IH]; [unfold joined; cbn; lia|]. unfold joined in *. change (texts_of (q :: ps)) with ((ASN_TAG_OCTSTRING, q) :: texts_of ps).
    rewrite contents_cons. cbn [fmap list_fmap concat length]. rewrite !length_app in *. rewrite length_encode. cbn [snd length]. pose proof (length_header (length q)). lia. }
  destruct (split_pieces p rest Hp Hrest ps 0 [] room Hps Ht) as (n & r' & It & Hn & Hr'); [lia|done|lia|]. cbn [app length] in It. assert (Hs' := Hs). unfold small, LIMIT in Hs'.
  rewrite (loop_exit _ n fuel _ _ (length (contents (texts_of ps)), contents (texts_of ps) ++ rest ++ r') It); [|unfold split_step, len; cbn [bytes]; by rewrite bool_decide_eq_false_2 by lia|lia].
  cbn [mbind res_bind fst snd]. pose proof (length_header (length (contents (texts_of ps)))).
  etransitivity; [apply (wrap_ok ASN_TAG_SET [] (contents (texts_of ps)) (rest ++ r') (λ b n, x ← slice b 0 (n + 1); Ret (mkObj Plain x))); [by vm_compute|lia|rewrite length_app; lia]|].
  cbn [app]. replace (length (header (length (contents (texts_of ps)))) + length (contents (texts_of ps)) + 1)%nat with (length (encode (ASN_TAG_SET, contents (texts_of ps)))) by (rewrite length_encode; cbn [snd]; lia).
  by rewrite slice_all.
Qed.
End split.
End facts.

(** the pieces up to the first empty one *)
Fixpoint until_nil (ps : list (list Z)) : list (list Z) :=
  match ps with
  | [] => []
  | q :: ps' => if bool_decide (q = []) then [] else q :: until_nil ps'
  end.

Lemma until_empty_texts float_bytes ps : until_empty float_bytes (texts_of ps) = mkObj Plain <$> until_nil ps.
Proof.
  induction ps as [|q ps IH]; [done|]. change (texts_of (q :: ps)) with ((ASN_TAG_OCTSTRING, q) :: texts_of ps). cbn [until_empty until_nil].
  rewrite (bool_decide_ext ((ASN_TAG_OCTSTRING, q) = (ASN_TAG_OCTSTRING, [])) (q = [])) by (split; congruence). case_bool_decide; [done|]. cbn [fmap list_fmap]. by rewrite IH.
Qed.

Lemma fits_texts ps : Forall (λ q : list Z, length q + 4 ≤ VA_OBJECT_MAX_SIZE)%nat ps → Forall fits (texts_of ps).
Proof.
  intros H. unfold texts_of. apply Forall_fmap. eapply Forall_impl; [exact H|]. intros q Hq. split; [by vm_compute|]. split; [exact Hq|]. by intros [=].
Qed.

Lemma enumerates malloc slack float_bytes fuel a h knd tag es r l : (∀ n, length (malloc n) = n) →
  h !! a = Some (mkShared (mkObj knd (container tag es)) r l) → is_container tag = true → small es → Forall fits es → 0 ≤ r < 15 → 0 ≤ l < 255 → (length es < fuel)%nat →
  ∃ e h', va_arg_first malloc slack a h = Ret (Some e, h') ∧
    h' !! a = Some (mkShared (mkObj knd (container tag es)) (r + 1) (l + 1)) ∧ va_enumerator_release e h' = Ret h ∧
    ∀ h2 r2 l2, h2 !! a = Some (mkShared (mkObj knd (container tag es)) r2 l2) →
      each malloc slack float_bytes fuel e h2 = Ret (if bool_decide (r2 = r) then until_empty float_bytes es else []).
Proof.
  intros Hm Ha Ht Hs Hf Hr Hl Hfu. eexists _, _. split; [by apply (first_ok malloc slack Hm a h knd tag es r l)|]. rewrite u8_id by (unfold is_byte; lia).
  split; [apply lookup_insert_eq|]. split.
  - unfold va_enumerator_release, vm_object_unref. cbn [object]. rewrite lookup_insert_eq. cbn [from_option_ub mbind res_bind refs lock ob].
    rewrite !(proj2 (Z.eqb_neq _ _)) by lia. cbn [negb]. rewrite insert_insert_eq, !Z.add_simpl_r. by rewrite insert_id.
  - intros h2 r2 l2 Ha2. case_bool_decide as Hr2; [subst r2|apply (each_changed malloc slack float_bytes a h2 _ fuel _ _ r Ha2); [done|lia]].
    destruct (container_start slack tag es Ht Hs) as (_ & _ & D2 & Hlen & _).
    apply (each_ok malloc slack float_bytes Hm a h2 (mkShared (mkObj knd (container tag es)) r l2) es fuel slack); [done|exact D2|cbn [ob]; unfold memory; cbn [bytes]; lia|done|done].
Qed.

(** C22: Loops over arrays. [first] on an array or object counts one reference
    more and gives an enumerator; once the argument is gone and the count is
    what it was, [next] gives the elements in their order, each as an object of
    its own, and the loop ends: at the end, or at the first empty text, which
    is what [next] gives there too. An array that has got or lost a reference
    meanwhile gives nothing. Releasing the enumerator takes the reference back. *)
Theorem each_enumerates (malloc : nat → list Z) (slack : list Z) (float_bytes : list Z → list Z) (fuel a : nat) (h : store_of)
    (knd : kind) (tag : Z) (es : list element) (r l : Z) :
  (∀ n, length (malloc n) = n) → h !! a = Some (mkShared (mkObj knd (container tag es)) r l) → is_container tag = true → small es →
  Forall fits es → 0 ≤ r < 15 → 0 ≤ l < 255 → (length es < fuel)%nat →
  ∃ e h', va_arg_first malloc slack a h = Ret (Some e, h') ∧
    h' !! a = Some (mkShared (mkObj knd (container tag es)) (r + 1) (l + 1)) ∧ va_enumerator_release e h' = Ret h ∧
    ∀ h2 r2 l2, h2 !! a = Some (mkShared (mkObj knd (container tag es)) r2 l2) →
      each malloc slack float_bytes fuel e h2 = Ret (if bool_decide (r2 = r) then until_empty float_bytes es else []).
Proof. intros Hm Ha Ht Hs Hf Hr Hl Hfu. by apply enumerates. Qed.

(** C23: Splitting, and the loop over the pieces. [split] of a text made of
    pieces with a separator behind each, and a rest, gives the array of the
    pieces: the rest is lost. The bytes of the separator may repeat, its first
    byte is in no piece. A loop over the result sees the pieces in their order,
    up to the first empty one. At most 1023 pieces of at most 4092 bytes. *)
Theorem split_enumerates (malloc : nat → list Z) (slack : list Z) (float_bytes : list Z → list Z) (fuel : nat)
    (knd kpat : kind) (sep : list Z) (ps : list (list Z)) (rest : list Z) :
  (∀ n, length (malloc n) = n) → sep ≠ [] → piece sep rest → Forall (piece sep) ps → small (texts_of ps) → (length ps ≤ 1023)%nat →
  Forall (λ q : list Z, length q + 4 ≤ VA_OBJECT_MAX_SIZE)%nat ps → (length (joined sep ps rest) < fuel)%nat →
  ∃ o, va_string_split malloc slack fuel (mkObj knd (joined sep ps rest)) (mkObj kpat sep) = Ret o ∧
    ∀ a h r l, h !! a = Some (mkShared o r l) → 0 ≤ r < 15 → 0 ≤ l < 255 →
      ∃ e h', va_arg_first malloc slack a h = Ret (Some e, h') ∧
        ∀ h2 l2, h2 !! a = Some (mkShared o r l2) → each malloc slack float_bytes fuel e h2 = Ret (mkObj Plain <$> until_nil ps).
Proof.
  intros Hm Hsep Hrest Hps Hs Hn Hlen Hf. destruct sep as [|p pat]; [done|]. eexists.
  assert (Hc : (length ps ≤ length (joined (p :: pat) ps rest))%nat).
  { clear. induction ps as [|q ps IH]; [cbn; lia|]. unfold joined in *. cbn [fmap list_fmap concat length]. rewrite !length_app in *. cbn [length]. lia. }
  split; [by apply (split_ok malloc slack Hm knd (joined (p :: pat) ps rest) pat (mkObj kpat (p :: pat)) p rest ps); [| | | | |unfold VA_OBJECT_MAX_SIZE; lia|]|].
  intros a h r l Ha Hr Hl. destruct (enumerates malloc slack float_bytes fuel a h Plain ASN_TAG_SET (texts_of ps) r l Hm Ha) as (e & h' & E & _ & _ & H);
    [done|done|by apply fits_texts|done|done|unfold texts_of; rewrite length_fmap; lia|].
  exists e, h'. split; [exact E|]. intros h2 l2 H2. rewrite (H h2 r l2 H2), bool_decide_eq_true_2 by done. by rewrite until_empty_texts.
Qed.

(** ** Samples *)
Definition sample_elements : list element :=
  [(ASN_TAG_OCTSTRING, chars "pen"); (ASN_TAG_SET, contents [(ASN_TAG_OCTSTRING, chars "a")]); (ASN_TAG_OCTSTRING, []); (ASN_TAG_OCTSTRING, chars "ink")].

Definition sample_store : store_of := {[ 0%nat := mkShared (mkObj Array (container ASN_TAG_SET sample_elements)) 1 0 ]}.

Lemma each_enumerates_witness :
  ∃ e h', va_arg_first some_memory (some_memory 8) 0 sample_store = Ret (Some e, h') ∧
    h' !! 0%nat = Some (mkShared (mkObj Array (container ASN_TAG_SET sample_elements)) 2 1) ∧ va_enumerator_release e h' = Ret sample_store ∧
    ∀ h2 r2 l2, h2 !! 0%nat = Some (mkShared (mkObj Array (container ASN_TAG_SET sample_elements)) r2 l2) →
      each some_memory (some_memory 8) id 9 e h2 = Ret (if bool_decide (r2 = 1) then [mkObj Plain (chars "pen"); mkObj Array (container ASN_TAG_SET [(ASN_TAG_OCTSTRING, chars "a")])] else []).
Proof.
  apply (each_enumerates some_memory (some_memory 8) id 9 0 sample_store Array ASN_TAG_SET sample_elements 1 0).
  - apply some_memory_length.
  - reflexivity.
  - reflexivity.
  - by vm_compute.
  - repeat (apply Forall_cons; split; [split; [by vm_compute|]; split; [vm_compute; lia|by intros [=]]|]). apply Forall_nil; exact Logic.I.
  - lia.
  - lia.
  - cbn. lia.
Defined.

Lemma split_enumerates_witness :
  ∃ o, va_string_split some_memory (some_memory 8) 20 (mkObj Plain (chars "a, bc, , d, e")) (mkObj Plain (chars ", ")) = Ret o ∧
    ∀ a h r l, h !! a = Some (mkShared o r l) → 0 ≤ r < 15 → 0 ≤ l < 255 →
      ∃ e h', va_arg_first some_memory (some_memory 8) a h = Ret (Some e, h') ∧
        ∀ h2 l2, h2 !! a = Some (mkShared o r l2) → each some_memory (some_memory 8) id 20 e h2 = Ret (mkObj Plain <$> [chars "a"; chars "bc"]).
Proof.
  assert (Hp : ∀ q, forallb (λ c, (0 <=? c) && (c <? 256) && negb (c =? 44)) q = true → piece (chars ", ") q).
  { intros q H. rewrite forallb_forall in H. split.
    - apply Forall_forall. intros c Hc%list_elem_of_In%H. unfold is_byte. lia.
    - intros p Hp Hc%list_elem_of_In%H. assert (p = 44) as -> by (vm_compute in Hp; congruence). done. }
  apply (split_enumerates some_memory (some_memory 8) id 20 Plain Plain (chars ", ") [chars "a"; chars "bc"; []; chars "d"] (chars "e")).
  - apply some_memory_length.
  - done.
  - by apply Hp.
  - repeat (apply Forall_cons; split; [by apply Hp|]). apply Forall_nil; exact Logic.I.
  - by vm_compute.
  - cbn. lia.
  - repeat (apply Forall_cons; split; [vm_compute; lia|]). apply Forall_nil; exact Logic.I.
  - vm_compute. lia.
Defined.
