(* ===== verification/Json.v ===== *)
(** * Arrays and objects as JSON (StackLib/StackVM/vm_framework.c)

    [to_json] writes the text of an array or object, [from_json] reads one. Both
    walk over their text with a state of five values and call themselves for
    what is inside; the reader moves what it has written when it learns its
    length. *)
From S2P Require Import Prelude Decimal Isa Text Bytes Args ArgsList Each.

(** ** Characters *)
Definition is_digit (c : Z) : bool := (48 <=? c) && (c <=? 57).

(** the letters, digits and [_] that start a key or value *)
Definition is_word (c : Z) : bool :=
  ((65 <=? c) && (c <=? 90)) || ((97 <=? c) && (c <=? 122)) || (c =? 95) || is_digit c.

(** [va_arg_is_numeric]: only the first byte may be a minus *)
Definition va_arg_is_numeric (l : list Z) : bool :=
  match l with [] => false | c :: l' => ((c =? 45) || is_digit c) && forallb is_digit l' end.

(** [va_contain_delimiter] on [n] bytes from [i] on *)
Definition va_contain_delimiter (b : list Z) (i n : nat) : res bool :=
  if bool_decide (VA_OBJECT_DELIMITER ∈ take n (drop i b)) then Ret true else _ ← slice b i n; Ret false.

(** the characters written with a backslash *)
Definition escape (c : Z) : option Z :=
  if c =? 34 then Some 34 else if c =? 92 then Some 92 else if c =? 47 then Some 47
  else if c =? 8 then Some 98 else if c =? 12 then Some 102 else if c =? 10 then Some 110
  else if c =? 13 then Some 114 else if c =? 9 then Some 116 else None.

Section json.
Context (malloc : nat → list Z) (slack : list Z).

(** ** Writing *)

(** the variables of [va_arg_serialize_s]; [strbuf] is a position in the bytes *)
Record writer := mkW { w_j : nat; w_wlen : option nat; w_len : nat; w_state : nat; w_num : bool; w_pos : nat; w_out : list Z }.

Section writing.
(** the call of itself: the place in the buffer, the position, the length *)
Context (rec : nat → nat → nat → list Z → res (nat * nat * list Z)).
Context (b : list Z) (objlen base : nat).

Definition emit (l : list Z) (s : writer) : res writer :=
  out ← foldM (λ c (p : nat * list Z), o ← put p.1 c p.2; Ret (S p.1, o)) l ((base + w_len s)%nat, w_out s);
  Ret (mkW (w_j s) (w_wlen s) (w_len s + length l) (w_state s) (w_num s) (w_pos s) out.2).

Definition emit_if (cond : bool) (l : list Z) (s : writer) : res writer := if cond then emit l s else Ret s.

Definition set_state (n : nat) (s : writer) : writer := mkW (w_j s) (w_wlen s) (w_len s) n (w_num s) (w_pos s) (w_out s).
Definition set_num (v : bool) (s : writer) : writer := mkW (w_j s) (w_wlen s) (w_len s) (w_state s) v (w_pos s) (w_out s).

(** [llen = va_get_length(strbuf[0], &wlen); strbuf[0] += llen; j += llen] *)
Definition take_length (s : writer) : res (nat * writer) :=
  g ← va_get_length b (w_pos s) (w_wlen s);
  n ← from_option_ub g.2;
  Ret (n, mkW (w_j s + g.1) g.2 (w_len s) (w_state s) (w_num s) (w_pos s + g.1) (w_out s)).

(** [len += va_arg_serialize_s(buffer + len, strbuf, wlen); j += wlen] *)
Definition inside (n : nat) (s : writer) : res writer :=
  r ← rec (base + w_len s)%nat n (w_pos s) (w_out s);
  let '(l, pos, out) := r in
  Ret (mkW (w_j s + n) (w_wlen s) (w_len s + l) (w_state s) (w_num s) pos out).

(** the [n] bytes of the text, as they are *)
Definition copy (n : nat) (quoted : bool) (s : writer) : res writer :=
  x ← slice b (w_pos s) n;
  s1 ← emit_if quoted [34] s;
  out ← store (base + w_len s1) x (w_out s1);
  emit_if quoted [34] (mkW (w_j s1 + n) (w_wlen s1) (w_len s1 + n) (w_state s1) (w_num s1) (w_pos s1 + n) out).

(** the [case] of an array or object *)
Definition write_container (comma : bool) (open close : Z) (s : writer) : res writer :=
  s1 ← emit_if comma [44] s;
  s2 ← emit [open] (set_state 0 s1);
  p ← take_length s2;
  s3 ← inside p.1 p.2;
  emit [close] s3.

(** behind the loop *)
Definition finish (s0 : writer) : res (writer + nat * nat * list Z) :=
  s ← emit_if (Nat.odd (w_state s0) && negb (w_num s0)) [34] s0;
  Ret (inr (w_len s, w_pos s, w_out s)).

Definition write_step (s0 : writer) : res (writer + nat * nat * list Z) :=
  let j := w_j s0 in
  if bool_decide (j < objlen)%nat then
    c ← get b (w_pos s0);
    let s := mkW (j + 1) (w_wlen s0) (w_len s0) (w_state s0) (w_num s0) (w_pos s0 + 1) (w_out s0) in
    let state := w_state s in
    let next m := (s' ← m; Ret (inl s') : res (writer + nat * nat * list Z)) in
    let comma := (negb (w_len s =? 0)%nat) && (state =? 0)%nat in
    let character :=
      next (s1 ← (if (state =? 2)%nat || (state =? 0)%nat then
                    d ← va_contain_delimiter b (w_pos s0) (objlen - j);
                    let s' := set_state (state + 1) s in
                    if (d : bool) then Ret s'
                    else x ← slice b (w_pos s0) (objlen - j);
                         if va_arg_is_numeric x then Ret (set_num true s') else emit [34] (set_num false s')
                  else Ret s : res writer);
            emit (match escape c with Some e => [92; e] | None => [c] end) s1) in
    if c =? 0 then finish s
    else if c =? ASN_TAG_SET then next (write_container comma 91 93 s)
    else if c =? ASN_TAG_SEQ then next (write_container comma 123 125 s)
    else if c =? VA_OBJECT_DELIMITER then
      next (s1 ← emit [58] s; Ret (if (state =? 1)%nat then set_state 2 s1 else s1))
    else if c =? ASN_TAG_OBJDESC then
      if (state =? 0)%nat then next (s1 ← emit_if comma [44] s; p ← take_length s1; inside p.1 p.2) else Ret (inl s)
    else if c =? ASN_TAG_OCTSTRING then
      if (state =? 0)%nat then
        next (s1 ← emit_if comma [44] s; p ← take_length s1;
              x ← slice b (w_pos p.2) p.1; copy p.1 (negb (va_arg_is_numeric x)) p.2)
      else Ret (inl s)
    else if c =? ASN_TAG_REAL then
      if (state =? 0)%nat then next (s1 ← emit_if comma [44] s; p ← take_length s1; copy p.1 false p.2) else Ret (inl s)
    else if (c =? 32) && ((state =? 0)%nat || (state =? 4)%nat) then Ret (inl s)
    else character
  else finish s0.
End writing.

Fixpoint va_arg_serialize_s (fuel : nat) (b : list Z) (base objlen pos : nat) (out : list Z) : res (nat * nat * list Z) :=
  match fuel with
  | O => Timeout
  | S fuel' =>
      loop fuel (write_step (va_arg_serialize_s fuel' b) b objlen base) (mkW 0 None 0 0 false pos out)
  end.

(** [va_arg_serialize] of an array or object; other objects have no result *)
Definition va_arg_serialize (fuel : nat) (obj : vm_object) : res (option vm_object) :=
  match okind obj with
  | Array =>
      r ← va_arg_serialize_s fuel (memory slack obj) 0 (len obj) 0 (malloc (VA_OBJECT_MAX_SIZE + len obj));
      x ← slice r.2 0 r.1.1; Ret (Some (mkObj Plain x))
  | _ => Ret None
  end.

(** ** Reading *)

(** the variables of [va_arg_deserialize_s]; [index] counts the bytes over all
    its calls *)
Record reader := mkR { r_len : nat; r_state : nat; r_ldx : nat; r_klen : nat; r_quote : bool; r_pos : nat; r_index : nat; r_out : list Z }.
Abbreviation read_result := (nat * nat * nat * list Z)%type.

Section reading.
Context (rec : nat → nat → nat → list Z → res read_result).
Context (t : list Z) (slen base : nat).

Definition push_char (c : Z) (s : reader) : res (reader + read_result) :=
  out ← put (base + r_len s) c (r_out s);
  Ret (inl (mkR (r_len s + 1) (r_state s) (r_ldx s) (r_klen s + 1) (r_quote s) (r_pos s) (r_index s) out)).

Definition set_klen (s : reader) : res (list Z) := put (base + r_ldx s) (Z.of_nat (r_klen s)) (r_out s).

(** a new element, with its length to come *)
Definition new_element (quote : bool) (s : reader) : res reader :=
  o1 ← put (base + r_len s) ASN_TAG_OBJDESC (r_out s);
  o2 ← put (base + r_len s + 1) 0 o1;
  Ret (mkR (r_len s + 2) 1 (r_len s + 1) 0 quote (r_pos s) (r_index s) o2).

Definition start_container (tag : Z) (s : reader) : res (reader + read_result) :=
  o1 ← put (base + r_len s) tag (r_out s);
  let at_ := (base + r_len s + 1)%nat in
  r ← rec at_ (r_pos s) (r_index s) o1;
  let '(ilen, pos, index, o2) := r in
  x ← va_push_lv at_ (drop at_ o2) ilen o2;
  let len := (r_len s + 1 + x.2)%nat in
  if bool_decide (2 ≤ r_state s)%nat then
    let klen := (r_klen s + (x.2 + 1))%nat in
    y ← va_push_lv (base + r_ldx s) (drop (base + r_ldx s + 1) x.1) klen x.1;
    Ret (inl (mkR len 0 (r_ldx s) klen (r_quote s) pos index y.1))
  else Ret (inl (mkR len 0 (r_ldx s) (r_klen s) (r_quote s) pos index x.1)).

(** the [default] branch *)
Definition plain_char (c : Z) (s : reader) : res (reader + read_result) :=
  s1 ← (if (r_state s =? 0)%nat then new_element false s else Ret s : res reader);
  push_char c (if is_word c && (r_state s1 =? 2)%nat
               then mkR (r_len s1) 3 (r_ldx s1) (r_klen s1) (r_quote s1) (r_pos s1) (r_index s1) (r_out s1) else s1).

Definition with_state (n : nat) (quote : bool) (out : list Z) (s : reader) : reader :=
  mkR (r_len s) n (r_ldx s) (r_klen s) quote (r_pos s) (r_index s) out.

Definition read_step (s0 : reader) : res (reader + read_result) :=
  let leave pos out := Ret (inr (r_len s0, pos, (r_index s0 + 1)%nat, out)) in
  if bool_decide (r_index s0 < slen)%nat then
    c ← get t (r_pos s0);
    let s := mkR (r_len s0) (r_state s0) (r_ldx s0) (r_klen s0) (r_quote s0) (r_pos s0 + 1) (r_index s0 + 1) (r_out s0) in
    if c =? 0 then leave (r_pos s) (r_out s)
    else if (c =? 91) || (c =? 123) then
      if r_quote s then push_char c s else start_container (if c =? 91 then ASN_TAG_SET else ASN_TAG_SEQ) s
    else if (c =? 93) || (c =? 125) then
      if r_quote s then push_char c s
      else out ← (if bool_decide (r_klen s = 0)%nat then Ret (r_out s) else set_klen s : res (list Z)); leave (r_pos s) out
    else if c =? 34 then
      e ← (if r_quote s && negb (r_len s =? 0)%nat then p ← get (r_out s) (base + r_len s - 1); Ret (p =? 92) else Ret false : res bool);
      if (e : bool) then push_char c s
      else match r_state s with
           | 0%nat => s1 ← new_element true s; Ret (inl s1)
           | 1%nat | 3%nat => out ← set_klen s; Ret (inl (with_state (r_state s + 1) false out s))
           | 2%nat => Ret (inl (with_state 3 true (r_out s) s))
           | 4%nat => Ret (inl (with_state 0 (r_quote s) (r_out s) s))
           | n => Ret (inl (with_state (n + 1) (r_quote s) (r_out s) s))
           end
    else if c =? 44 then
      if r_quote s then if (r_state s =? 1)%nat then Ret (inl s) else push_char c s
      else
        s1 ← (if bool_decide (r_klen s = 0)%nat then
                out ← put (base + r_len s) ASN_TAG_OBJDESC (r_out s);
                Ret (mkR (r_len s + 2) (r_state s) (r_len s + 1) 0 false (r_pos s) (r_index s) out)
              else Ret s : res reader);
        out ← set_klen s1;
        Ret (inl (mkR (r_len s1) 0 (r_ldx s1) 0 false (r_pos s1) (r_index s1) out))
    else if c =? 58 then
      s1 ← (if (r_state s =? 1)%nat then out ← set_klen s; Ret (with_state 2 (r_quote s) out s) else Ret s : res reader);
      plain_char (if (r_state s1 <? 3)%nat then VA_OBJECT_DELIMITER else c) s1
    else if c =? 32 then
      if r_quote s then push_char c s else Ret (inl (if (r_state s =? 4)%nat then with_state 0 false (r_out s) s else s))
    else plain_char c s
  else leave (r_pos s0) (r_out s0).
End reading.

Fixpoint va_arg_deserialize_s (fuel : nat) (t : list Z) (slen base pos index : nat) (out : list Z) : res read_result :=
  match fuel with
  | O => Timeout
  | S fuel' =>
      loop fuel (read_step (va_arg_deserialize_s fuel' t slen) t slen base) (mkR 0 0 0 0 false pos index out)
  end.

(** [va_arg_deserialize]: [bbuf] is an array of the stack *)
Definition va_arg_deserialize (fuel : nat) (obj : vm_object) : res vm_object :=
  r ← va_arg_deserialize_s fuel (memory slack obj) (wrap16 (len obj)) 0 0 0 (malloc VA_OBJECT_MAX_SIZE);
  let '(dlen, _, _, bbuf) := r in
  x ← slice bbuf 0 dlen; Ret (mkObj Array x).
End json.
