(* ===== verification/JsonSpec.v ===== *)
(** * Writing and reading JSON are inverse

    On arrays of texts and objects whose values are texts, arrays or objects
    again, [to_json] writes the text that [from_json] reads back. *)
From S2P Require Import Prelude Decimal Isa Text Bytes Args ArgsList Each Json.

(** ** Values *)
Inductive json : Type :=
  | JText (s : list Z)
  | JArr (ss : list (list Z))
  | JObj (kvs : list (list Z * json)).

(** an element of an array and a pair, as [from_json] makes them *)
Definition item (s : list Z) : element := (ASN_TAG_OBJDESC, s).
Definition pair_of (k v : list Z) : element := (ASN_TAG_OBJDESC, k ++ VA_OBJECT_DELIMITER :: v).

Fixpoint json_bytes (j : json) : list Z :=
  match j with
  | JText s => s
  | JArr ss => container ASN_TAG_SET (map item ss)
  | JObj kvs => container ASN_TAG_SEQ (map (λ kv, pair_of kv.1 (json_bytes kv.2)) kvs)
  end.

(** texts: numbers without quotes, keys with quotes or without *)
Definition scalar (s : list Z) : list Z :=
  if va_arg_is_numeric s || bool_decide (s = []) then s else 34 :: s ++ [34].
Definition key_text (quoted : bool) (k : list Z) : list Z := if quoted then 34 :: k ++ [34] else k.

Definition commas (l : list (list Z)) : list Z :=
  match l with [] => [] | x :: l' => x ++ concat (cons 44 <$> l') end.

Fixpoint json_text (quoted : bool) (j : json) : list Z :=
  match j with
  | JText s => scalar s
  | JArr ss => 91 :: commas (map scalar ss) ++ [93]
  | JObj kvs => 123 :: commas (map (λ kv, key_text quoted kv.1 ++ 58 :: json_text quoted kv.2) kvs) ++ [125]
  end.

(** characters that need no escape and are no tag *)
Definition special : list Z := [0; 4; 7; 8; 9; 10; 12; 13; 16; 17; 34; 47; 92; 128].
Definition ordinary (c : Z) : Prop := is_byte c ∧ c ∉ special.

Definition good_item (s : list Z) : Prop := s ≠ [] ∧ Forall ordinary s ∧ 44 ∉ s ∧ 58 ∉ s ∧ head s ≠ Some 32 ∧ (length s < 128)%nat.
Definition good_key (k : list Z) : Prop := k ≠ [] ∧ Forall (λ c, is_word c = true) k.

(** pairs have at most 127 bytes: their length is one byte *)
Fixpoint good (j : json) : Prop :=
  match j with
  | JText s => Forall ordinary s
  | JArr ss => Forall good_item ss ∧ small (map item ss)
  | JObj kvs =>
      fold_right (λ kv P, (good_key kv.1 ∧ good kv.2 ∧ (length kv.1 + 1 + length (json_bytes kv.2) < 128)%nat) ∧ P) True kvs ∧
      small (map (λ kv, pair_of kv.1 (json_bytes kv.2)) kvs)
  end.

(** ** Writing *)
Lemma bytes1 c : is_byte c → Forall is_byte [c].
Proof. intros Hc. by constructor. Qed.

Lemma contains_ok b pos l rest : drop pos b = l ++ rest → (pos ≤ length b)%nat →
  va_contain_delimiter b pos (length l) = Ret (bool_decide (VA_OBJECT_DELIMITER ∈ l)) ∧ slice b pos (length l) = Ret l.
Proof.
  intros Hb Hp. assert (Hs : slice b pos (length l) = Ret l) by (pose proof (slice_drop b [] l rest pos Hb Hp) as E; cbn [length] in E; by rewrite Nat.add_0_r in E).
  split; [|done]. unfold va_contain_delimiter. rewrite Hb, take_app_length, Hs. by case_bool_decide.
Qed.

Lemma word_ordinary c : is_word c = true → ordinary c.
Proof.
  intros H. unfold is_word, is_digit in H. rewrite !orb_true_iff, !andb_true_iff, !Z.leb_le, Z.eqb_eq in H.
  split; [unfold is_byte; lia|]. unfold special. rewrite !not_elem_of_cons. repeat split; try lia. apply not_elem_of_nil.
Qed.

(** the comma in front of all elements but the first *)
Definition comma_of (w : list Z) : list Z := if bool_decide (w = []) then [] else [44].

Section writing.
Context (fuel : nat) (b : list Z) (objlen : nat) (W : list Z).
Abbreviation rec := (va_arg_serialize_s fuel b).
Abbreviation base := (length W).
Abbreviation step := (write_step rec b objlen base).

(** a state in which [w] is written, with [r] behind *)
Definition wr (j : nat) (wl : option nat) (st : nat) (num : bool) (pos : nat) (w r : list Z) : writer :=
  mkW j wl (length w) st num pos (W ++ w ++ r).

Lemma emit_ok l : Forall is_byte l → ∀ j wl st num pos w r, (length l ≤ length r)%nat →
  emit base l (wr j wl st num pos w r) = Ret (wr j wl st num pos (w ++ l) (drop (length l) r)).
Proof.
  intros Hl j wl st num pos w r Hr. unfold emit, wr. cbn [w_len w_out w_j w_wlen w_state w_num w_pos]. rewrite length_app.
  enough (E : ∀ w r, (length l ≤ length r)%nat → foldM (λ c (p : nat * list Z), o ← put p.1 c p.2; Ret (S p.1, o)) l ((base + length w)%nat, W ++ w ++ r) =
    Ret ((base + length (w ++ l))%nat, W ++ (w ++ l) ++ drop (length l) r)) by (rewrite E by done; done).
  clear -Hl. induction Hl as [|c l Hc _ IH]; intros w r Hr; [by rewrite app_nil_r|]. destruct r as [|x r]; [cbn in Hr; lia|]. cbn [foldM length] in *.
  assert (E : put (base + length w) c (W ++ w ++ x :: r) = Ret (W ++ (w ++ [c]) ++ r))
    by (rewrite (app_assoc W), <-length_app, put_at by done; by rewrite <-!app_assoc).
  cbn [fst snd]. rewrite E. cbn [mbind res_bind fst snd]. replace (S (base + length w))%nat with (base + length (w ++ [c]))%nat by (rewrite length_app; cbn; lia).
  rewrite IH by lia. by rewrite <-(app_assoc w).
Qed.

Lemma emit_if_ok (cond : bool) l j wl st num pos w r : Forall is_byte l → (length (if cond then l else []) ≤ length r)%nat →
  emit_if base cond l (wr j wl st num pos w r) =
    Ret (wr j wl st num pos (w ++ if cond then l else []) (drop (length (if cond then l else [])) r)).
Proof. intros Hl Hr. destruct cond; cbn [emit_if]; [by apply emit_ok|by rewrite app_nil_r]. Qed.

(** the end of the text *)
Lemma end_ok wl st num pos w r : let q : list Z := if Nat.odd st && negb num then [34] else [] in
  (length q ≤ length r)%nat →
  step (wr objlen wl st num pos w r) = Ret (inr (length (w ++ q), pos, W ++ (w ++ q) ++ drop (length q) r)).
Proof.
  intros q Hr. unfold write_step. cbn [w_j wr]. rewrite bool_decide_eq_false_2 by lia. unfold finish. cbn [w_state w_num wr].
  by rewrite emit_if_ok by (exact Hr || (apply bytes1; by vm_compute)).
Qed.

Lemma ordinary_ne c k : ordinary c → k ∈ special → (c =? k) = false.
Proof. intros [_ H] Hk. apply Z.eqb_neq. by intros ->. Qed.

(** an ordinary character *)
Lemma step_character c rest j wl st num pos w r : drop pos b = c :: rest → (j < objlen)%nat → ordinary c → (c = 32 → st ≠ 0%nat ∧ st ≠ 4%nat) →
  step (wr j wl st num pos w r) =
    (s ← (s1 ← (if (st =? 2)%nat || (st =? 0)%nat then
                  d ← va_contain_delimiter b pos (objlen - j);
                  let s' := wr (j + 1) wl (st + 1) num (pos + 1) w r in
                  if (d : bool) then Ret s'
                  else x ← slice b pos (objlen - j);
                       if va_arg_is_numeric x then Ret (set_num true s') else emit base [34] (set_num false s')
                else Ret (wr (j + 1) wl st num (pos + 1) w r) : res writer);
          emit base [c] s1); Ret (inl s)).
Proof.
  intros Hb Hj Hc Hsp. unfold write_step. cbn [w_j w_pos w_state w_len w_wlen w_num w_out wr]. rewrite bool_decide_eq_true_2 by done.
  rewrite (get_drop_0 _ _ _ Hb). change (get (c :: rest) 0) with (Ret c). cbn [mbind res_bind].
  rewrite !(ordinary_ne c) by (done || unfold special; set_solver).
  assert (Es : (c =? 32) && ((st =? 0)%nat || (st =? 4)%nat) = false).
  { destruct (Z.eqb_spec c 32) as [E|]; [|done]. destruct (Hsp E). cbn. by rewrite !(proj2 (Nat.eqb_neq _ _)). }
  rewrite Es. unfold escape. rewrite !(ordinary_ne c) by (done || unfold special; set_solver). done.
Qed.
Definition even_state (st : nat) : Prop := st = 0%nat ∨ st = 2%nat.

Lemma step_odd c rest j wl st num pos w r : drop pos b = c :: rest → (j < objlen)%nat → ordinary c → even_state st → (1 ≤ length r)%nat →
  step (wr j wl (st + 1) num pos w r) = Ret (inl (wr (j + 1) wl (st + 1) num (pos + 1) (w ++ [c]) (drop 1 r))).
Proof.
  intros Hb Hj Hc Hst Hr. rewrite (step_character c rest) by (done || destruct Hst; lia).
  rewrite !(proj2 (Nat.eqb_neq _ _)) by (destruct Hst; lia). cbn [orb mbind res_bind]. rewrite emit_ok by (done || (apply bytes1; apply Hc)). done.
Qed.

Lemma chars_run l : Forall ordinary l → ∀ rest j wl st num pos w r, drop pos b = l ++ rest → (j + length l ≤ objlen)%nat → even_state st → (length l ≤ length r)%nat →
  iters step (length l) (wr j wl (st + 1) num pos w r) (wr (j + length l) wl (st + 1) num (pos + length l) (w ++ l) (drop (length l) r)).
Proof.
  induction 1 as [|c l Hc _ IH]; intros rest j wl st num pos w r Hb Hj Hst Hr.
  - cbn [length]. rewrite !Nat.add_0_r, app_nil_r. constructor.
  - cbn [length] in *. eapply iters_S; [apply (step_odd c (l ++ rest)); (done || lia)|].
    replace (w ++ c :: l) with ((w ++ [c]) ++ l) by (by rewrite <-app_assoc).
    replace (drop (S (length l)) r) with (drop (length l) (drop 1 r)) by (by rewrite drop_drop).
    replace (j + S (length l))%nat with (j + 1 + length l)%nat by lia. replace (pos + S (length l))%nat with (pos + 1 + length l)%nat by lia.
    apply (IH rest); [by rewrite <-drop_drop, Hb|lia|done|rewrite length_drop; lia].
Qed.

Lemma ordinary_no_delimiter l : Forall ordinary l → VA_OBJECT_DELIMITER ∉ l.
Proof. intros H Hin. rewrite Forall_forall in H. destruct (H _ Hin) as [_ Hn]. apply Hn. unfold special, VA_OBJECT_DELIMITER. set_solver. Qed.

(** the first character of a text that is the rest of the object *)
Lemma step_first c l rest wl j st num pos w r : drop pos b = (c :: l) ++ rest → (pos ≤ length b)%nat → objlen = (j + length (c :: l))%nat →
  Forall ordinary (c :: l) → even_state st → (c = 32 → st = 2%nat) →
  let num' := va_arg_is_numeric (c :: l) in
  let q : list Z := if num' then [] else [34] in
  (length (q ++ [c]) ≤ length r)%nat →
  step (wr j wl st num pos w r) = Ret (inl (wr (j + 1) wl (st + 1) num' (pos + 1) (w ++ q ++ [c]) (drop (length (q ++ [c])) r))).
Proof.
  intros Hb Hp Ho Hall Hst Hsp num' q Hr. assert (Hall' := Hall). apply Forall_cons in Hall' as [Hc _].
  destruct (contains_ok b pos (c :: l) rest Hb Hp) as [E1 E2].
  rewrite (step_character c (l ++ rest)) by (done || (cbn [length] in Ho; lia) || (intros E; specialize (Hsp E); lia)).
  replace (objlen - j)%nat with (length (c :: l)) by lia. assert (Es : (st =? 2)%nat || (st =? 0)%nat = true) by (by destruct Hst as [->| ->]). rewrite Es, E1.
  cbn [mbind res_bind]. rewrite bool_decide_eq_false_2 by (by apply ordinary_no_delimiter). rewrite E2. cbn [mbind res_bind]. fold num'. subst q. destruct num' eqn:En; cbn [app length] in Hr.
  - cbn [mbind res_bind app]. change (set_num true (wr ?a ?b ?c ?d ?e ?f ?g)) with (wr a b c true e f g). rewrite emit_ok by ((apply bytes1; apply Hc) || (cbn; lia)). done.
  - change (set_num false (wr ?a ?b ?c ?d ?e ?f ?g)) with (wr a b c false e f g). rewrite emit_ok by ((apply bytes1; by vm_compute) || (cbn; lia)). cbn [mbind res_bind].
    rewrite emit_ok by ((apply bytes1; apply Hc) || (rewrite length_drop; cbn; lia)). cbn [mbind res_bind app length]. rewrite drop_drop. by rewrite <-app_assoc.
Qed.

(** a text that is the rest of the object, to the end *)
Lemma scalar_run s rest wl j st num pos w r : drop pos b = s ++ rest → (pos ≤ length b)%nat → objlen = (j + length s)%nat →
  Forall ordinary s → even_state st → (head s = Some 32 → st = 2%nat) → (length (scalar s) ≤ length r)%nat →
  ∃ s', iters step (length s) (wr j wl st num pos w r) s' ∧
    step s' = Ret (inr (length (w ++ scalar s), (pos + length s)%nat, W ++ (w ++ scalar s) ++ drop (length (scalar s)) r)).
Proof.
  intros Hb Hp Ho Hall Hst Hsp Hr. destruct s as [|c l].
  - eexists. split; [constructor|]. cbn [length] in Ho. rewrite Nat.add_0_r in Ho. subst j. rewrite end_ok by (destruct Hst as [->| ->]; cbn; lia).
    assert (Eo : Nat.odd st = false) by (by destruct Hst as [->| ->]). rewrite Eo. cbn [andb scalar length app]. by rewrite Nat.add_0_r.
  - cbn [head] in Hsp. assert (Hsc : scalar (c :: l) = if va_arg_is_numeric (c :: l) then c :: l else 34 :: (c :: l) ++ [34]) by (unfold scalar; by destruct (va_arg_is_numeric _)).
    assert (E := step_first c l rest wl j st num pos w r Hb Hp Ho Hall Hst ltac:(intros ->; by apply Hsp)). cbv zeta in E.
    apply Forall_cons in Hall as [Hc Hl]. rewrite Hsc in *. set (n := va_arg_is_numeric (c :: l)) in *.
    set (q := (if n then [] else [34]) : list Z) in *. assert (Hlen : (length q + S (length l) + length q ≤ length r)%nat ∧
      (if n then c :: l else 34 :: (c :: l) ++ [34]) = q ++ (c :: l) ++ q).
    { subst q. destruct n; cbn [app length] in *; [|rewrite length_app in Hr; cbn in Hr]; split; try done; try lia. by rewrite app_nil_r. }
    destruct Hlen as [Hlen ->]. cbn [length] in Ho.
    assert (Hq : q = if Nat.odd (st + 1) && negb n then [34] else []) by (subst q; destruct Hst as [->| ->], n; done).
    eexists. split.
    + eapply iters_S; [apply E; rewrite length_app; cbn; lia|].
      apply (chars_run l Hl rest); [change (S (length l)) with (length (c :: l)); by rewrite <-drop_drop, Hb|lia|done|rewrite length_drop, length_app; cbn; lia].
    + replace (j + 1 + length l)%nat with objlen by lia. rewrite end_ok; rewrite <-Hq; [|rewrite !length_drop, length_app; cbn; lia].
      assert (Ew : ((w ++ q ++ [c]) ++ l) ++ q = w ++ q ++ (c :: l) ++ q) by (by rewrite <-!app_assoc). rewrite Ew, !drop_drop.
      assert (Ed : (length (q ++ [c]) + length l + length q = length (q ++ (c :: l) ++ q))%nat) by (rewrite !length_app; cbn [length]; lia).
      replace (pos + 1 + length l)%nat with (pos + length (c :: l))%nat by (cbn [length]; lia).
      rewrite Nat.add_assoc, Ed. done.
Qed.
(** the function writes [txt] for the bytes [c] *)
Definition writes (c txt : list Z) : Prop := ∀ pos rest W' r, drop pos b = c ++ rest → (pos ≤ length b)%nat → (length txt ≤ length r)%nat →
  va_arg_serialize_s fuel b (length W') (length c) pos (W' ++ r) = Ret (length txt, (pos + length c)%nat, (W' ++ txt) ++ drop (length txt) r).

Lemma take_length_ok n rest j wl st num pos w r : drop pos b = header n ++ rest → Z.of_nat n < 65535 →
  take_length b (wr j wl st num pos w r) = Ret (n, wr (j + length (header n)) (Some n) st num (pos + length (header n)) w r).
Proof. intros Hb Hn. unfold take_length. cbn [w_pos w_wlen wr]. by rewrite (get_length_ok _ _ _ _ _ Hb). Qed.

Lemma inside_ok c txt rest j wl st num pos w r : writes c txt → drop pos b = c ++ rest → (pos ≤ length b)%nat → (length txt ≤ length r)%nat →
  inside rec base (length c) (wr j wl st num pos w r) = Ret (wr (j + length c) wl st num (pos + length c) (w ++ txt) (drop (length txt) r)).
Proof.
  intros Hw Hb Hp Hr. unfold inside. cbn [w_len w_pos w_out w_j w_wlen w_state w_num wr]. rewrite (app_assoc W w r), <-length_app, (Hw pos rest) by done.
  cbn [mbind res_bind]. unfold wr. by rewrite length_app, <-!app_assoc.
Qed.

(** an element that is a container, alone or as a value *)
Lemma step_container (tag open close : Z) c txt rest j wl st num pos w r :
  (tag, open, close) = (ASN_TAG_SET, 91, 93) ∨ (tag, open, close) = (ASN_TAG_SEQ, 123, 125) →
  writes c txt → drop pos b = encode (tag, c) ++ rest → (pos ≤ length b)%nat → Z.of_nat (length c) < 65535 → (j < objlen)%nat →
  (w = [] ∨ st ≠ 0%nat) → (length txt + 2 ≤ length r)%nat →
  step (wr j wl st num pos w r) =
    Ret (inl (wr (j + length (encode (tag, c))) (Some (length c)) 0 num (pos + length (encode (tag, c))) (w ++ open :: txt ++ [close]) (drop (length txt + 2) r))).
Proof.
  intros Ht Hw Hb Hp Hc Hj Hst Hr. destruct (drop_element _ _ _ _ Hb Hp) as (G & D & _ & Hp2 & _). cbn [fst snd] in G, D.
  assert (Hcomma : negb (length w =? 0)%nat && (st =? 0)%nat = false) by (destruct Hst as [->|Hst]; [done|rewrite (proj2 (Nat.eqb_neq st 0)) by done; apply andb_false_r]).
  unfold write_step. cbn [w_j w_pos w_state w_len w_wlen w_num w_out wr]. rewrite bool_decide_eq_true_2 by done. rewrite G. cbn [mbind res_bind]. rewrite Hcomma.
  rewrite length_encode in Hp2. cbn [snd] in Hp2. pose proof (length_header (length c)).
  assert (E : is_byte open → is_byte close → write_container rec b base false open close (wr (j + 1) wl st num (pos + 1) w r) =
    Ret (wr (j + length (encode (tag, c))) (Some (length c)) 0 num (pos + length (encode (tag, c))) (w ++ open :: txt ++ [close]) (drop (length txt + 2) r))).
  { intros Ho Hcl. unfold write_container. cbn [emit_if mbind res_bind]. change (set_state 0 (wr ?a ?b ?c ?d ?e ?f ?g)) with (wr a b 0 d e f g).
    rewrite emit_ok by (first [by apply bytes1|cbn; lia]). cbn [mbind res_bind length].
    rewrite (take_length_ok (length c) (c ++ rest)) by done. cbn [mbind res_bind fst snd].
    rewrite (inside_ok c txt rest); [|done|by rewrite <-drop_drop, D, drop_app_length|lia|rewrite length_drop; lia]. cbn [mbind res_bind].
    rewrite emit_ok by (first [by apply bytes1|rewrite !length_drop; cbn; lia]). cbn [length]. rewrite length_encode, !drop_drop. cbn [snd].
    rewrite <-!app_assoc. cbn [app]. f_equal. f_equal; [lia|lia|f_equal; lia]. }
  change (mkW (j + 1) wl (length w) st num (pos + 1) (W ++ w ++ r)) with (wr (j + 1) wl st num (pos + 1) w r).
  destruct Ht as [Ht|Ht]; injection Ht as -> -> ->; unfold ASN_TAG_SET, ASN_TAG_SEQ in *; cbn [Z.eqb Pos.eqb]; by rewrite E by by vm_compute.
Qed.
(** an element of an array, a pair of an object *)
Lemma step_item c txt rest j wl num pos w r :
  writes c txt → drop pos b = encode (item c) ++ rest → (pos ≤ length b)%nat → Z.of_nat (length c) < 65535 → (j < objlen)%nat →
  (length (comma_of w ++ txt) ≤ length r)%nat →
  step (wr j wl 0 num pos w r) =
    Ret (inl (wr (j + length (encode (item c))) (Some (length c)) 0 num (pos + length (encode (item c))) (w ++ comma_of w ++ txt) (drop (length (comma_of w ++ txt)) r))).
Proof.
  intros Hw Hb Hp Hc Hj Hr. destruct (drop_element _ _ _ _ Hb Hp) as (G & D & _ & Hp2 & _). unfold item in *. cbn [fst snd] in G, D.
  rewrite length_encode in Hp2. cbn [snd] in Hp2. rewrite length_app in Hr.
  unfold write_step. cbn [w_j w_pos w_state w_len w_wlen w_num w_out wr]. rewrite bool_decide_eq_true_2 by done. rewrite G. cbn [mbind res_bind].
  change (mkW (j + 1) wl (length w) 0 num (pos + 1) (W ++ w ++ r)) with (wr (j + 1) wl 0 num (pos + 1) w r).
  unfold ASN_TAG_OBJDESC, ASN_TAG_SET, ASN_TAG_SEQ, VA_OBJECT_DELIMITER in *. cbn [Z.eqb Pos.eqb Nat.eqb andb]. rewrite andb_true_r.
  assert (Hcm : (if negb (length w =? 0)%nat then [44] else []) = comma_of w) by (unfold comma_of; by destruct w).
  rewrite emit_if_ok; [|apply bytes1; by vm_compute|rewrite Hcm; lia]. rewrite Hcm. cbn [mbind res_bind].
  rewrite (take_length_ok (length c) (c ++ rest)) by done. cbn [mbind res_bind fst snd].
  rewrite (inside_ok c txt rest); [|done|by rewrite <-drop_drop, D, drop_app_length|lia|rewrite length_drop; lia]. cbn [mbind res_bind].
  rewrite length_encode, drop_drop, length_app, <-!app_assoc. cbn [snd]. do 2 f_equal. f_equal; lia.
Qed.

Lemma step_delimiter rest j wl num pos w r : drop pos b = VA_OBJECT_DELIMITER :: rest → (j < objlen)%nat → (1 ≤ length r)%nat →
  step (wr j wl 1 num pos w r) = Ret (inl (wr (j + 1) wl 2 num (pos + 1) (w ++ [58]) (drop 1 r))).
Proof.
  intros Hb Hj Hr. unfold write_step. cbn [w_j w_pos w_state w_len w_wlen w_num w_out wr]. rewrite bool_decide_eq_true_2 by done.
  rewrite (get_drop_0 _ _ _ Hb). change (get (VA_OBJECT_DELIMITER :: rest) 0) with (Ret VA_OBJECT_DELIMITER). cbn [mbind res_bind].
  change (mkW (j + 1) wl (length w) 1 num (pos + 1) (W ++ w ++ r)) with (wr (j + 1) wl 1 num (pos + 1) w r).
  unfold ASN_TAG_SET, ASN_TAG_SEQ, VA_OBJECT_DELIMITER in *. cbn [Z.eqb Pos.eqb Nat.eqb andb].
  by rewrite emit_ok by (first [apply bytes1; by vm_compute|exact Hr]).
Qed.

(** a key and its delimiter *)
Lemma key_run k rest j wl pos w r : drop pos b = k ++ VA_OBJECT_DELIMITER :: rest → (pos ≤ length b)%nat → (j + length k + 1 ≤ objlen)%nat →
  good_key k → (length k + 1 ≤ length r)%nat →
  iters step (length k + 1) (wr j wl 0 false pos w r) (wr (j + (length k + 1)) wl 2 false (pos + (length k + 1)) (w ++ k ++ [58]) (drop (length k + 1) r)).
Proof.
  intros Hb Hp Hj [Hk Hw] Hr. destruct k as [|c l]; [done|]. assert (Ho : Forall ordinary (c :: l)) by (eapply Forall_impl; [exact Hw|apply word_ordinary]).
  apply Forall_cons in Hw as [Hc _]. apply Forall_cons in Ho as [Hco Hl]. cbn [length] in *.
  eapply iters_S; [|eapply iters_trans].
  - rewrite (step_character c (l ++ VA_OBJECT_DELIMITER :: rest)); [|done|lia|done|intros ->; by vm_compute in Hc]. cbn [Nat.eqb orb].
    unfold va_contain_delimiter. rewrite bool_decide_eq_true_2.
    + cbn [mbind res_bind]. rewrite emit_ok by (first [apply bytes1; apply Hco|cbn; lia]). reflexivity.
    + rewrite Hb. replace (objlen - j)%nat with (length (c :: l) + S (objlen - j - length l - 2))%nat by (cbn [length]; lia).
      rewrite take_app_add. apply elem_of_app. right. by constructor.
  - apply (chars_run l Hl (VA_OBJECT_DELIMITER :: rest)); [by rewrite <-drop_drop, Hb|lia|by left|rewrite length_drop; cbn; lia].
  - replace (w ++ (c :: l) ++ [58]) with (((w ++ [c]) ++ l) ++ [58]) by (by rewrite <-!app_assoc).
    replace (drop (S (length l) + 1) r) with (drop 1 (drop (length l) (drop 1 r))) by (rewrite !drop_drop; f_equal; lia).
    replace (j + (S (length l) + 1))%nat with (j + 1 + length l + 1)%nat by lia. replace (pos + (S (length l) + 1))%nat with (pos + 1 + length l + 1)%nat by lia.
    apply iters_one, (step_delimiter rest); [rewrite <-!drop_drop, Hb; apply (drop_app_length l)|lia|rewrite !length_drop; cbn; lia].
Qed.
End writing.

(** ** What the writer gives for each value *)
Lemma run_exit fuel (b c txt : list Z) (pos : nat) (W r : list Z) n s' :
  iters (write_step (va_arg_serialize_s fuel b) b (length c) (length W)) n (wr W 0 None 0 false pos [] r) s' →
  write_step (va_arg_serialize_s fuel b) b (length c) (length W) s' = Ret (inr (length txt, (pos + length c)%nat, W ++ txt ++ drop (length txt) r)) →
  (n ≤ fuel)%nat →
  va_arg_serialize_s (S fuel) b (length W) (length c) pos (W ++ r) = Ret (length txt, (pos + length c)%nat, (W ++ txt) ++ drop (length txt) r).
Proof. intros It E Hn. rewrite <-app_assoc. cbn [va_arg_serialize_s]. eapply loop_exit; [exact It|exact E|lia]. Qed.

Lemma writes_text fuel b (s : list Z) : Forall ordinary s → head s ≠ Some 32 → (length s < fuel)%nat → writes fuel b s (scalar s).
Proof.
  intros Hs Hh Hf pos rest W r Hb Hp Hr. destruct fuel as [|fuel]; [lia|].
  destruct (scalar_run fuel b (length s) W s rest None 0 0 false pos [] r) as (s' & It & E); [done|done|done|done|by left|by intros H|done|].
  apply (run_exit _ _ s (scalar s) pos W r _ _ It); [exact E|lia].
Qed.

Lemma writes_pair_text fuel b (k s : list Z) : good_key k → Forall ordinary s → (length (k ++ VA_OBJECT_DELIMITER :: s) < fuel)%nat →
  writes fuel b (k ++ VA_OBJECT_DELIMITER :: s) (k ++ 58 :: scalar s).
Proof.
  intros Hk Hs Hf pos rest W r Hb Hp Hr. rewrite length_app in Hf, Hr. cbn [length] in Hf, Hr. destruct fuel as [|fuel]; [lia|].
  assert (Hl := f_equal length Hb). rewrite <-app_assoc in Hb. rewrite length_drop, !length_app in Hl. cbn [app length] in *.
  assert (Hlen : length (k ++ VA_OBJECT_DELIMITER :: s) = (length k + 1 + length s)%nat) by (rewrite length_app; cbn; lia).
  assert (I1 := key_run fuel b (length (k ++ VA_OBJECT_DELIMITER :: s)) W k (s ++ rest) 0 None pos [] r Hb Hp ltac:(lia) Hk ltac:(lia)).
  destruct (scalar_run fuel b (length (k ++ VA_OBJECT_DELIMITER :: s)) W s rest None (0 + (length k + 1)) 2 false (pos + (length k + 1)) ([] ++ k ++ [58]) (drop (length k + 1) r)) as (s' & It & E).
  { by rewrite <-!drop_drop, Hb, drop_app_length. }
  { lia. }
  { lia. }
  { done. }
  { by right. }
  { done. }
  { rewrite length_drop. lia. }
  apply (run_exit _ _ _ (k ++ 58 :: scalar s) pos W r _ _ (iters_trans _ _ _ _ _ _ I1 It)); [|lia]. rewrite E, Hlen. cbn [app]. rewrite <-app_assoc, drop_drop. cbn [app].
  replace (length (k ++ 58 :: scalar s)) with (length k + 1 + length (scalar s))%nat by (rewrite length_app; cbn; lia). do 4 f_equal. lia.
Qed.

Section containers.
Context (tag open close : Z) (Htag : (tag, open, close) = (ASN_TAG_SET, 91, 93) ∨ (tag, open, close) = (ASN_TAG_SEQ, 123, 125)).

Lemma writes_container fuel b (c txt : list Z) : writes fuel b c txt → Z.of_nat (length c) < 65535 → (1 ≤ fuel)%nat → writes (S fuel) b (encode (tag, c)) (open :: txt ++ [close]).
Proof.
  intros Hw Hc Hf pos rest W r Hb Hp Hr. cbn [length] in Hr. rewrite length_app in Hr. cbn [length] in Hr. pose proof (length_encode (tag, c)).
  assert (E := step_container fuel b (length (encode (tag, c))) W tag open close c txt rest 0 None 0 false pos [] r Htag Hw Hb Hp Hc ltac:(lia) ltac:(by left) ltac:(lia)).
  apply (run_exit _ _ _ (open :: txt ++ [close]) pos W r 1 _ (iters_one _ _ _ E)); [|lia]. cbn [app]. rewrite Nat.add_0_l, end_ok by (cbn; lia). cbn [Nat.odd Nat.even negb andb app length].
  rewrite app_nil_r, drop_0, length_app. cbn [length]. by replace (length txt + 2)%nat with (S (length txt + 1)) by lia.
Qed.

Lemma writes_pair_container fuel b (k c txt : list Z) : good_key k → writes fuel b c txt → Z.of_nat (length c) < 65535 → (length k + 2 ≤ fuel)%nat →
  writes (S fuel) b (k ++ VA_OBJECT_DELIMITER :: encode (tag, c)) (k ++ 58 :: open :: txt ++ [close]).
Proof.
  intros Hk Hw Hc Hf pos rest W r Hb Hp Hr. set (v := encode (tag, c)) in *. rewrite length_app in Hr. cbn [length] in Hr. rewrite length_app in Hr. cbn [length] in Hr.
  assert (Hl := f_equal length Hb). rewrite <-app_assoc in Hb. rewrite length_drop, !length_app in Hl. cbn [app length] in *.
  assert (Hlen : length (k ++ VA_OBJECT_DELIMITER :: v) = (length k + 1 + length v)%nat) by (rewrite length_app; cbn; lia).
  assert (Hv : (0 < length v)%nat) by (subst v; rewrite length_encode; lia).
  assert (I1 := key_run fuel b (length (k ++ VA_OBJECT_DELIMITER :: v)) W k (v ++ rest) 0 None pos [] r Hb Hp ltac:(lia) Hk ltac:(lia)).
  assert (E := step_container fuel b (length (k ++ VA_OBJECT_DELIMITER :: v)) W tag open close c txt rest (0 + (length k + 1)) None 2 false (pos + (length k + 1)) ([] ++ k ++ [58]) (drop (length k + 1) r)
    Htag Hw ltac:(by rewrite <-!drop_drop, Hb, drop_app_length) ltac:(lia) Hc ltac:(lia) ltac:(by right) ltac:(rewrite length_drop; lia)). fold v in E.
  apply (run_exit _ _ _ (k ++ 58 :: open :: txt ++ [close]) pos W r _ _ (iters_trans _ _ _ _ _ _ I1 (iters_one _ _ _ E))); [|lia]. cbn [app].
  replace (0 + (length k + 1) + length v)%nat with (length (k ++ VA_OBJECT_DELIMITER :: v)) by lia. rewrite end_ok by (cbn; lia). cbn [Nat.odd Nat.even negb andb app length].
  rewrite app_nil_r, drop_0, drop_drop, <-app_assoc, Hlen. cbn [app].
  replace (length k + 1 + (length txt + 2))%nat with (length (k ++ 58 :: open :: txt ++ [close])) by (rewrite !length_app; cbn [length]; rewrite length_app; cbn; lia). do 4 f_equal. lia.
Qed.
End containers.

(** the texts of elements behind what is there *)
Definition commas_after (w : list Z) (txts : list (list Z)) : list Z :=
  match txts with [] => [] | x :: l => comma_of w ++ x ++ concat (cons 44 <$> l) end.

Lemma commas_after_more w txts : w ≠ [] → commas_after w txts = concat (cons 44 <$> txts).
Proof. intros Hw. destruct txts as [|x l]; [done|]. cbn [commas_after]. unfold comma_of. by rewrite bool_decide_eq_false_2. Qed.

Definition writes_some (fuel : nat) (b c txt : list Z) : Prop := writes fuel b c txt ∧ txt ≠ [].

Lemma elements_run fuel b objlen W cs txts : Forall2 (writes_some fuel b) cs txts → ∀ rest j wl pos w r,
  drop pos b = contents (map item cs) ++ rest → (pos ≤ length b)%nat → (j + length (contents (map item cs)) ≤ objlen)%nat → small (map item cs) →
  (length (commas_after w txts) ≤ length r)%nat →
  ∃ wl', iters (write_step (va_arg_serialize_s fuel b) b objlen (length W)) (length cs) (wr W j wl 0 false pos w r)
    (wr W (j + length (contents (map item cs))) wl' 0 false (pos + length (contents (map item cs))) (w ++ commas_after w txts) (drop (length (commas_after w txts)) r)).
Proof.
  induction 1 as [|c txt cs txts [Hw Hne] _ IH]; intros rest j wl pos w r Hb Hp Hj Hs Hr.
  - exists wl. cbn [map contents fmap list_fmap concat length commas_after]. rewrite !Nat.add_0_r, app_nil_r. constructor.
  - cbn [map] in *. rewrite contents_cons in *. rewrite <-app_assoc in Hb. destruct (drop_element _ _ _ _ Hb Hp) as (_ & _ & D & Hp2 & _).
    apply small_cons in Hs as (Hc & Hs & _). cbn [item snd] in Hc. rewrite length_app in Hj. pose proof (length_encode (item c)).
    set (w1 := w ++ comma_of w ++ txt). assert (Hw1 : w1 ≠ []) by (subst w1; destruct w, txt; by try destruct (comma_of _)).
    cbn [commas_after] in Hr |- *. rewrite <-(commas_after_more w1) in Hr |- * by done. rewrite (app_assoc (comma_of w) txt) in Hr |- *. rewrite length_app in Hr.
    destruct (IH rest (j + length (encode (item c)))%nat (Some (length c)) (pos + length (encode (item c)))%nat w1 (drop (length (comma_of w ++ txt)) r) D Hp2) as (wl' & It);
      [lia|done|rewrite length_drop; lia|].
    exists wl'. rewrite (length_app (encode _)), (length_app (comma_of w ++ txt)), !Nat.add_assoc, <-drop_drop, (app_assoc w (comma_of w ++ txt)).
    cbn [length]. eapply iters_S; [apply (step_item fuel b objlen W c txt (contents (map item cs) ++ rest)); (done || lia)|exact It].
Qed.

Lemma writes_elements fuel b cs txts : Forall2 (writes_some fuel b) cs txts → small (map item cs) → (length cs ≤ fuel)%nat →
  writes (S fuel) b (contents (map item cs)) (commas txts).
Proof.
  intros H Hs Hf pos rest W r Hb Hp Hr. assert (Hct : commas txts = commas_after [] txts) by (by destruct txts). rewrite Hct in *.
  destruct (elements_run fuel b (length (contents (map item cs))) W cs txts H rest 0 None pos [] r Hb Hp) as (wl' & It); [lia|done|done|].
  apply (run_exit _ _ _ (commas_after [] txts) pos W r _ _ It); [|done]. rewrite Nat.add_0_l, end_ok by (cbn; lia). cbn [Nat.odd Nat.even negb andb app length]. by rewrite app_nil_r, drop_0.
Qed.

(** induction over values inside of objects *)
Lemma json_nested_ind (P : json → Prop) :
  (∀ s, P (JText s)) → (∀ ss, P (JArr ss)) → (∀ kvs, Forall (λ kv, P kv.2) kvs → P (JObj kvs)) → ∀ j, P j.
Proof.
  intros Ht Ha Ho. fix go 1. intros [s|ss|kvs]; [apply Ht|apply Ha|]. apply Ho. induction kvs as [|[k v] kvs IH]; constructor; [apply go|exact IH].
Qed.

Lemma scalar_some s : s ≠ [] → scalar s ≠ [].
Proof. intros H. unfold scalar. destruct (va_arg_is_numeric s || bool_decide (s = [])); done. Qed.

Lemma good_pairs kvs : good (JObj kvs) →
  Forall (λ kv, good_key kv.1 ∧ good kv.2 ∧ (length kv.1 + 1 + length (json_bytes kv.2) < 128)%nat) kvs ∧ small (map (λ kv, pair_of kv.1 (json_bytes kv.2)) kvs).
Proof. cbn [good]. intros [H Hs]. split; [|exact Hs]. clear Hs. induction kvs as [|kv kvs IH]; constructor; [apply H|]. apply IH, H. Qed.

Lemma contents_item_length cs c : c ∈ cs → (length c + 2 ≤ length (contents (map item cs)))%nat.
Proof.
  intros Hc. pose proof (contents_elem (item c) (map item cs) ltac:(apply list_elem_of_In, in_map; by apply list_elem_of_In)) as H.
  rewrite length_encode in H. cbn [item snd] in H. pose proof (length_header (length c)). lia.
Qed.

Lemma contents_item_count cs : (length cs ≤ length (contents (map item cs)))%nat.
Proof. pose proof (length_contents_count (map item cs)) as H. rewrite length_map in H. lia. Qed.

Lemma small_length_contents es : small es → Z.of_nat (length (contents es)) < 65535.
Proof. unfold small, LIMIT. lia. Qed.

Definition elements (j : json) : option (Z * Z * Z * list (list Z)) :=
  match j with
  | JText _ => None
  | JArr ss => Some (ASN_TAG_SET, 91, 93, ss)
  | JObj kvs => Some (ASN_TAG_SEQ, 123, 125, map (λ kv, kv.1 ++ VA_OBJECT_DELIMITER :: json_bytes kv.2) kvs)
  end.
Definition texts_in (q : bool) (j : json) : list (list Z) :=
  match j with
  | JText _ => []
  | JArr ss => map scalar ss
  | JObj kvs => map (λ kv, key_text q kv.1 ++ 58 :: json_text q kv.2) kvs
  end.

Lemma elements_json j tag open close cs q : elements j = Some (tag, open, close, cs) →
  ((tag, open, close) = (ASN_TAG_SET, 91, 93) ∨ (tag, open, close) = (ASN_TAG_SEQ, 123, 125)) ∧
  json_bytes j = encode (tag, contents (map item cs)) ∧ json_text q j = open :: commas (texts_in q j) ++ [close] ∧ (good j → small (map item cs)).
Proof.
  destruct j as [s|ss|kvs]; intros E; cbn [elements] in E; [done|injection E as <- <- <- <-..].
  - split; [by left|]. split; [done|]. split; [done|]. by intros [_ H].
  - split; [by right|]. cbn [json_bytes json_text texts_in]. unfold container. rewrite map_map. split; [done|]. split; [done|]. by intros [_ H]%good_pairs.
Qed.

Definition container_writes (j : json) : Prop := ∀ tag open close cs, elements j = Some (tag, open, close, cs) → ∀ fuel b,
  (length (contents (map item cs)) < fuel)%nat → writes fuel b (contents (map item cs)) (commas (texts_in false j)).
Definition pair_writes (j : json) : Prop := ∀ k fuel b, good_key k → (length k + 1 + length (json_bytes j) < fuel)%nat →
  writes fuel b (k ++ VA_OBJECT_DELIMITER :: json_bytes j) (k ++ 58 :: json_text false j).

Lemma container_pair_writes j : good j → elements j ≠ None → container_writes j → pair_writes j.
Proof.
  intros Hg He Hc k fuel b Hk Hf. destruct (elements j) as [[[[tag open] close] cs]|] eqn:E; [|done].
  destruct (elements_json j tag open close cs false E) as (Ht & Eb & Et & Hs). rewrite Eb, Et in *. rewrite length_encode in Hf. cbn [snd] in Hf. destruct fuel as [|fuel]; [lia|].
  apply writes_pair_container; [done|done|apply (Hc tag open close cs E); lia|apply small_length_contents, Hs, Hg|lia].
Qed.

Lemma Forall2_map {A B C} (f : A → B) (g : A → C) (R : B → C → Prop) l : (∀ x, x ∈ l → R (f x) (g x)) → Forall2 R (map f l) (map g l).
Proof. induction l as [|x l IH]; intros H; cbn [map]; constructor; [apply H; by constructor|]. apply IH. intros y Hy. apply H. by constructor. Qed.

Lemma writes_json j : good j → container_writes j ∧ pair_writes j.
Proof.
  assert (Hn : ∀ j, good j → elements j ≠ None → container_writes j → container_writes j ∧ pair_writes j)
    by (intros j' Hg He Hc; split; [exact Hc|by apply container_pair_writes]).
  induction j as [s|ss|kvs IH] using json_nested_ind; intros Hg.
  - split; [done|]. intros k fuel b Hk Hf. apply writes_pair_text; [done|exact Hg|rewrite length_app; cbn in *; lia].
  - apply Hn; [done|done|]. intros tag open close cs [= <- <- <- <-] fuel b Hf. destruct fuel as [|fuel]; [lia|]. destruct Hg as [Hg Hs]. pose proof (contents_item_count ss).
    apply writes_elements; [|done|lia]. cbn [texts_in]. rewrite <-(map_id ss) at 1. apply Forall2_map. intros s Hin.
    rewrite Forall_forall in Hg. destruct (Hg s Hin) as (Hne & Ho & _ & _ & Hh & _). pose proof (contents_item_length ss s Hin). split; [|by apply scalar_some].
    apply writes_text; [done|done|lia].
  - apply Hn; [done|done|]. intros tag open close cs [= <- <- <- <-] fuel b Hf. destruct fuel as [|fuel]; [lia|]. destruct (good_pairs kvs Hg) as [Hk Hs].
    pose proof (contents_item_count (map (λ kv, kv.1 ++ VA_OBJECT_DELIMITER :: json_bytes kv.2) kvs)).
    apply writes_elements; [|by rewrite map_map|lia]. cbn [texts_in]. apply Forall2_map. intros [k v] Hin. cbn [fst snd key_text].
    rewrite Forall_forall in Hk, IH. destruct (Hk _ Hin) as (Hkey & Hv & _). split; [|by destruct k].
    pose proof (contents_item_length (map (λ kv, kv.1 ++ VA_OBJECT_DELIMITER :: json_bytes kv.2) kvs) (k ++ VA_OBJECT_DELIMITER :: json_bytes v)
      ltac:(apply list_elem_of_In, (in_map (λ kv, kv.1 ++ VA_OBJECT_DELIMITER :: json_bytes kv.2) _ (k, v)); by apply list_elem_of_In)) as Hl.
    rewrite length_app in Hl. cbn [length] in Hl. apply (IH _ Hin Hv); [exact Hkey|cbn [snd]; lia].
Qed.

(** ** Reading *)

(** the bytes of a container in front of which the length comes *)
Lemma container_moved (Y : list Z) (tag : Z) (c r2 : list Z) : Z.of_nat (length c) < 65535 → (length (header (length c)) ≤ length r2)%nat →
  va_push_lv (length (Y ++ [tag])) (drop (length (Y ++ [tag])) ((Y ++ [tag]) ++ c ++ r2)) (length c) ((Y ++ [tag]) ++ c ++ r2) =
    Ret (Y ++ encode (tag, c) ++ drop (length (header (length c))) r2, (length (header (length c)) + length c)%nat).
Proof.
  intros Hc Hr. rewrite drop_app_length, push_lv_ok by (done || (rewrite length_app; lia)). unfold encode. cbn [fst snd].
  rewrite (Nat.add_comm (length (header (length c)))), drop_app_add. rewrite <-!app_assoc. cbn [app]. by rewrite <-!app_assoc.
Qed.

Section reading.
Context (fuel : nat) (t : list Z) (slen : nat) (Hslen : (slen ≤ length t)%nat) (W : list Z).
Abbreviation rec := (va_arg_deserialize_s fuel t slen).
Abbreviation base := (length W).
Abbreviation step := (read_step rec t slen base).

(** between elements; and inside one, whose contents are [q] so far *)
Definition ro (w r : list Z) (ldx klen pos : nat) : reader := mkR (length w) 0 ldx klen false pos pos (W ++ w ++ r).
Definition op (w : list Z) (x : Z) (q r : list Z) (st : nat) (quote : bool) (pos : nat) : reader :=
  mkR (length w + 2 + length q) st (length w + 1) (length q) quote pos pos (W ++ w ++ [ASN_TAG_OBJDESC; x] ++ q ++ r).

Lemma op_push c w x q r st quote pos : is_byte c → (1 ≤ length r)%nat →
  push_char base c (op w x q r st quote pos) = Ret (inl (op w x (q ++ [c]) (drop 1 r) st quote pos)).
Proof.
  intros Hc Hr. destruct r as [|y r]; [cbn in Hr; lia|]. unfold push_char, op. cbn [r_len r_out r_state r_ldx r_klen r_quote r_pos r_index drop].
  assert (E : put (base + (length w + 2 + length q)) c (W ++ w ++ [ASN_TAG_OBJDESC; x] ++ q ++ y :: r) = Ret (W ++ w ++ [ASN_TAG_OBJDESC; x] ++ (q ++ [c]) ++ r)).
  { replace (base + (length w + 2 + length q))%nat with (length (W ++ w ++ [ASN_TAG_OBJDESC; x] ++ q)) by (rewrite !length_app; cbn; lia).
    replace (W ++ w ++ [ASN_TAG_OBJDESC; x] ++ q ++ y :: r) with ((W ++ w ++ [ASN_TAG_OBJDESC; x] ++ q) ++ y :: r) by (by rewrite <-!app_assoc).
    rewrite put_at by done. by rewrite <-!app_assoc. }
  rewrite E. cbn [mbind res_bind]. rewrite length_app. cbn [length]. by rewrite Nat.add_assoc.
Qed.

Lemma op_set_klen w x q r st quote pos : (length q < 128)%nat →
  set_klen base (op w x q r st quote pos) = Ret (r_out (op w (Z.of_nat (length q)) q r st quote pos)).
Proof.
  intros Hq. unfold set_klen, op. cbn [r_ldx r_klen r_out].
  replace (base + (length w + 1))%nat with (length (W ++ w ++ [ASN_TAG_OBJDESC])) by (rewrite !length_app; cbn; lia).
  replace (W ++ w ++ [ASN_TAG_OBJDESC; x] ++ q ++ r) with ((W ++ w ++ [ASN_TAG_OBJDESC]) ++ x :: q ++ r) by (by rewrite <-!app_assoc).
  rewrite put_at by (unfold is_byte; lia). by rewrite <-!app_assoc.
Qed.

Lemma ro_new quote w r ldx klen pos : (2 ≤ length r)%nat →
  new_element base quote (ro w r ldx klen pos) = Ret (op w 0 [] (drop 2 r) 1 quote pos).
Proof.
  intros Hr. destruct r as [|y [|y' r]]; [cbn in Hr; lia..|]. unfold new_element, ro. cbn [r_len r_out r_pos r_index drop].
  assert (E : put (base + length w) ASN_TAG_OBJDESC (W ++ w ++ y :: y' :: r) = Ret (W ++ w ++ ASN_TAG_OBJDESC :: y' :: r)).
  { rewrite (app_assoc W), <-length_app, put_at by (by vm_compute). by rewrite <-!app_assoc. }
  assert (E2 : put (base + length w + 1) 0 (W ++ w ++ ASN_TAG_OBJDESC :: y' :: r) = Ret (W ++ w ++ [ASN_TAG_OBJDESC; 0] ++ r)).
  { replace (base + length w + 1)%nat with (length (W ++ w ++ [ASN_TAG_OBJDESC])) by (rewrite !length_app; cbn; lia).
    replace (W ++ w ++ ASN_TAG_OBJDESC :: y' :: r) with ((W ++ w ++ [ASN_TAG_OBJDESC]) ++ y' :: r) by (by rewrite <-!app_assoc). rewrite put_at by (by vm_compute). by rewrite <-!app_assoc. }
  rewrite E. cbn [mbind res_bind]. rewrite E2. cbn [mbind res_bind]. unfold op. cbn [length app]. by rewrite Nat.add_0_r.
Qed.

Lemma read_char c rest pos : drop pos t = c :: rest → get t pos = Ret c ∧ (pos < length t)%nat.
Proof.
  intros H. rewrite (get_drop_0 _ _ _ H). split; [done|]. apply (f_equal length) in H. rewrite length_drop in H. cbn in H. lia.
Qed.

(** a character inside quotes *)
Definition quoted_ok (st : nat) (c : Z) : Prop := ordinary c ∧ (st = 3%nat ∨ st = 1%nat ∧ c ≠ 44 ∧ c ≠ 58).

Lemma step_quoted c rest w x q r st pos : drop pos t = c :: rest → (pos < slen)%nat → quoted_ok st c → (1 ≤ length r)%nat →
  step (op w x q r st true pos) = Ret (inl (op w x (q ++ [c]) (drop 1 r) st true (pos + 1))).
Proof.
  intros Hb Hp [Hc Hst] Hr. destruct (read_char c rest pos Hb) as [G _]. unfold read_step. cbn [r_index r_pos r_len r_state r_ldx r_klen r_quote r_out op].
  rewrite bool_decide_eq_true_2 by done. rewrite G. cbn [mbind res_bind]. change (mkR _ st _ _ true (pos + 1) (pos + 1) _) with (op w x q r st true (pos + 1)).
  rewrite (ordinary_ne c 0), (ordinary_ne c 34) by (done || unfold special; set_solver).
  pose proof (op_push c w x q r st true (pos + 1) ltac:(apply Hc) Hr) as E.
  destruct ((c =? 91) || (c =? 123)); [exact E|]. destruct ((c =? 93) || (c =? 125)); [exact E|].
  assert (Hplain : plain_char base c (op w x q r st true (pos + 1)) = Ret (inl (op w x (q ++ [c]) (drop 1 r) st true (pos + 1)))).
  { unfold plain_char. cbn [r_state op]. destruct Hst as [->|[-> _]]; cbn [Nat.eqb mbind res_bind r_state]; rewrite andb_false_r; exact E. }
  destruct (Z.eqb_spec c 44) as [->|]; [by destruct Hst as [->|(_ & [] & _)]|]. destruct (Z.eqb_spec c 58) as [->|]; [destruct Hst as [->|(_ & _ & [])]; [exact Hplain|done]|].
  destruct (c =? 32); [exact E|exact Hplain].
Qed.

(** a character outside of quotes *)
Definition bare_ok (c : Z) : Prop := c = 45 ∨ is_word c = true.
Definition bare_state (st : nat) (c : Z) : nat := if is_word c && (st =? 2)%nat then 3 else st.

Lemma bare_ordinary c : bare_ok c → ordinary c ∧ c ∉ [0; 91; 123; 93; 125; 34; 44; 58; 32].
Proof.
  intros [->|H]; [split; [split; [by vm_compute|vm_compute; set_solver]|vm_compute; set_solver]|]. split; [by apply word_ordinary|].
  unfold is_word, is_digit in H. rewrite !orb_true_iff, !andb_true_iff, !Z.leb_le, Z.eqb_eq in H. rewrite !not_elem_of_cons. repeat split; try lia. apply not_elem_of_nil.
Qed.

Lemma step_plain c rest s : drop (r_pos s) t = c :: rest → (r_index s < slen)%nat → bare_ok c →
  step s = plain_char base c (mkR (r_len s) (r_state s) (r_ldx s) (r_klen s) (r_quote s) (r_pos s + 1) (r_index s + 1) (r_out s)).
Proof.
  intros Hb Hp Hc. destruct (read_char c rest _ Hb) as [G _]. unfold read_step. rewrite bool_decide_eq_true_2 by done. rewrite G. cbn [mbind res_bind].
  destruct (bare_ordinary c Hc) as [_ Hn].
  assert (Hz : ∀ k, k ∈ [0; 91; 123; 93; 125; 34; 44; 58; 32] → (c =? k) = false) by (intros k Hk; apply Z.eqb_neq; by intros ->).
  by rewrite !Hz by set_solver.
Qed.

Lemma step_bare c rest w x q r st pos : drop pos t = c :: rest → (pos < slen)%nat → bare_ok c → st ≠ 0%nat → (1 ≤ length r)%nat →
  step (op w x q r st false pos) = Ret (inl (op w x (q ++ [c]) (drop 1 r) (bare_state st c) false (pos + 1))).
Proof.
  intros Hb Hp Hc Hst Hr. rewrite (step_plain c rest) by done. cbn [r_index r_pos r_len r_state r_ldx r_klen r_quote r_out op]. unfold plain_char. cbn [r_state].
  rewrite (proj2 (Nat.eqb_neq st 0)) by done. cbn [mbind res_bind r_state].
  destruct (bare_ordinary c Hc) as [[Hby _] _]. unfold bare_state. destruct (is_word c && (st =? 2)%nat); by apply op_push.
Qed.

Lemma step_open_bare c rest w r ldx klen pos : drop pos t = c :: rest → (pos < slen)%nat → bare_ok c → (3 ≤ length r)%nat →
  step (ro w r ldx klen pos) = Ret (inl (op w 0 [c] (drop 3 r) 1 false (pos + 1))).
Proof.
  intros Hb Hp Hc Hr. rewrite (step_plain c rest) by done. cbn [r_index r_pos r_len r_state r_ldx r_klen r_quote r_out ro]. unfold plain_char. cbn [r_state Nat.eqb].
  change (mkR (length w) 0 ldx klen false (pos + 1) (pos + 1) (W ++ w ++ r)) with (ro w r ldx klen (pos + 1)). rewrite ro_new by lia. cbn [mbind res_bind r_state op Nat.eqb]. rewrite andb_false_r.
  destruct (bare_ordinary c Hc) as [[Hby _] _]. etransitivity; [apply (op_push c w 0 [] (drop 2 r) 1 false (pos + 1) Hby); rewrite length_drop; lia|]. by rewrite drop_drop.
Qed.
(** quotes *)
Lemma step_open_quote rest w r ldx klen pos : drop pos t = 34 :: rest → (pos < slen)%nat → (2 ≤ length r)%nat →
  step (ro w r ldx klen pos) = Ret (inl (op w 0 [] (drop 2 r) 1 true (pos + 1))).
Proof.
  intros Hb Hp Hr. destruct (read_char _ rest pos Hb) as [G _]. unfold read_step. cbn [r_index r_pos r_len r_state r_ldx r_klen r_quote r_out ro].
  rewrite bool_decide_eq_true_2 by done. rewrite G. cbn [mbind res_bind Z.eqb Pos.eqb orb andb].
  change (mkR (length w) 0 ldx klen false (pos + 1) (pos + 1) (W ++ w ++ r)) with (ro w r ldx klen (pos + 1)). by rewrite ro_new.
Qed.

Lemma step_value_quote rest w x q r pos : drop pos t = 34 :: rest → (pos < slen)%nat →
  step (op w x q r 2 false pos) = Ret (inl (op w x q r 3 true (pos + 1))).
Proof.
  intros Hb Hp. destruct (read_char _ rest pos Hb) as [G _]. unfold read_step. cbn [r_index r_pos r_len r_state r_ldx r_klen r_quote r_out op].
  rewrite bool_decide_eq_true_2 by done. by rewrite G.
Qed.

Lemma step_close_quote rest w x q c r st pos : drop pos t = 34 :: rest → (pos < slen)%nat → (length (q ++ [c]) < 128)%nat → c ≠ 92 → st = 1%nat ∨ st = 3%nat →
  step (op w x (q ++ [c]) r st true pos) = Ret (inl (op w (Z.of_nat (length (q ++ [c]))) (q ++ [c]) r (st + 1) false (pos + 1))).
Proof.
  intros Hb Hp Hq Hc Hst. destruct (read_char _ rest pos Hb) as [G _]. unfold read_step. cbn [r_index r_pos r_len r_state r_ldx r_klen r_quote r_out op].
  rewrite bool_decide_eq_true_2 by done. rewrite G. cbn [mbind res_bind Z.eqb Pos.eqb orb andb].
  assert (Hlen : negb (length w + 2 + length (q ++ [c]) =? 0)%nat = true) by (rewrite (proj2 (Nat.eqb_neq _ _)) by lia; done). rewrite Hlen.
  assert (Eg : get (W ++ w ++ [ASN_TAG_OBJDESC; x] ++ (q ++ [c]) ++ r) (base + (length w + 2 + length (q ++ [c])) - 1) = Ret c).
  { replace (W ++ w ++ [ASN_TAG_OBJDESC; x] ++ (q ++ [c]) ++ r) with ((W ++ w ++ [ASN_TAG_OBJDESC; x] ++ q) ++ c :: r) by (by rewrite <-!app_assoc).
    replace (base + (length w + 2 + length (q ++ [c])) - 1)%nat with (length (W ++ w ++ [ASN_TAG_OBJDESC; x] ++ q)) by (rewrite !length_app; cbn; lia). apply get_app. }
  rewrite Eg. cbn [mbind res_bind]. rewrite (proj2 (Z.eqb_neq _ _)) by done.
  change (mkR _ ?st _ _ true (pos + 1) (pos + 1) _) with (op w x (q ++ [c]) r st true (pos + 1)).
  destruct Hst as [->| ->]; rewrite op_set_klen by done; done.
Qed.

(** the colon behind a key, quoted or not *)
Lemma step_colon rest w x q r st pos : drop pos t = 58 :: rest → (pos < slen)%nat → (length q < 128)%nat → st = 1%nat ∨ st = 2%nat → (1 ≤ length r)%nat →
  ∃ x', step (op w x q r st false pos) = Ret (inl (op w x' (q ++ [VA_OBJECT_DELIMITER]) (drop 1 r) 2 false (pos + 1))).
Proof.
  intros Hb Hp Hq Hst Hr. destruct (read_char _ rest pos Hb) as [G _].
  assert (Hd : ∀ x', plain_char base VA_OBJECT_DELIMITER (op w x' q r 2 false (pos + 1)) = Ret (inl (op w x' (q ++ [VA_OBJECT_DELIMITER]) (drop 1 r) 2 false (pos + 1))))
    by (intros x'; apply op_push; [by vm_compute|done]).
  unfold read_step. cbn [r_index r_pos r_len r_state r_ldx r_klen r_quote r_out op].
  rewrite bool_decide_eq_true_2 by done. rewrite G. cbn [mbind res_bind Z.eqb Pos.eqb orb andb].
  change (mkR _ st _ _ false (pos + 1) (pos + 1) _) with (op w x q r st false (pos + 1)).
  destruct Hst as [->| ->]; cbn [Nat.eqb].
  - rewrite op_set_klen by done. cbn [mbind res_bind]. eexists. apply (Hd (Z.of_nat (length q))).
  - eexists. apply Hd.
Qed.

(** the end of an element *)
Lemma step_comma rest w x q r st pos : drop pos t = 44 :: rest → (pos < slen)%nat → (length q < 128)%nat → q ≠ [] →
  step (op w x q r st false pos) = Ret (inl (ro (w ++ encode (item q)) r (length w + 1) 0 (pos + 1))).
Proof.
  intros Hb Hp Hq Hne. destruct (read_char _ rest pos Hb) as [G _]. unfold read_step. cbn [r_index r_pos r_len r_state r_ldx r_klen r_quote r_out op].
  rewrite bool_decide_eq_true_2 by done. rewrite G. cbn [mbind res_bind Z.eqb Pos.eqb orb andb].
  rewrite bool_decide_eq_false_2 by (by intros ?%length_zero_iff_nil). cbn [mbind res_bind].
  change (mkR _ st _ _ false (pos + 1) (pos + 1) _) with (op w x q r st false (pos + 1)). rewrite op_set_klen by done. cbn [mbind res_bind].
  unfold ro, op. cbn [r_out r_len r_ldx r_pos r_index]. unfold encode, header, item. cbn [fst snd]. rewrite (proj2 (Z.ltb_lt _ 128)) by lia.
  rewrite length_app. cbn [app length]. rewrite <-!app_assoc. cbn [app]. do 2 f_equal. f_equal. lia.
Qed.

Lemma step_close close rest w x q r st pos : drop pos t = close :: rest → (pos < slen)%nat → (length q < 128)%nat → q ≠ [] → close = 93 ∨ close = 125 →
  step (op w x q r st false pos) = Ret (inr (length (w ++ encode (item q)), (pos + 1)%nat, (pos + 1)%nat, W ++ (w ++ encode (item q)) ++ r)).
Proof.
  intros Hb Hp Hq Hne Hcl. destruct (read_char _ rest pos Hb) as [G _]. unfold read_step. cbn [r_index r_pos r_len r_state r_ldx r_klen r_quote r_out op].
  rewrite bool_decide_eq_true_2 by done. rewrite G. cbn [mbind res_bind].
  change (mkR (length w + 2 + length q) st (length w + 1) (length q) false (pos + 1) (pos + 1) (W ++ w ++ [ASN_TAG_OBJDESC; x] ++ q ++ r)) with (op w x q r st false (pos + 1)).
  destruct Hcl as [->| ->]; cbn [Z.eqb Pos.eqb orb]; (rewrite bool_decide_eq_false_2 by (by intros ?%length_zero_iff_nil)); rewrite op_set_klen by done; cbn [mbind res_bind];
    unfold op; cbn [r_out]; unfold encode, header, item; cbn [fst snd]; rewrite (proj2 (Z.ltb_lt _ 128)) by lia; rewrite !length_app; cbn [app length]; rewrite <-!app_assoc; cbn [app]; by rewrite <-Nat.add_assoc.
Qed.

Lemma step_close_empty close rest r ldx pos : drop pos t = close :: rest → (pos < slen)%nat → close = 93 ∨ close = 125 →
  step (ro [] r ldx 0 pos) = Ret (inr (0%nat, (pos + 1)%nat, (pos + 1)%nat, W ++ r)).
Proof.
  intros Hb Hp Hcl. destruct (read_char _ rest pos Hb) as [G _]. unfold read_step. cbn [r_index r_pos r_len r_state r_ldx r_klen r_quote r_out ro].
  rewrite bool_decide_eq_true_2 by done. rewrite G. cbn [mbind res_bind]. by destruct Hcl as [->| ->].
Qed.
(** the function reads [txt] and what closes it, and leaves [c] *)
Definition reads (c txt : list Z) : Prop := ∀ close pos rest W' r, close = 93 ∨ close = 125 → drop pos t = txt ++ close :: rest →
  (pos + length txt + 1 ≤ slen)%nat → (length c + 3 ≤ length r)%nat →
  ∃ r', va_arg_deserialize_s fuel t slen (length W') pos pos (W' ++ r) = Ret (length c, (pos + length txt + 1)%nat, (pos + length txt + 1)%nat, W' ++ c ++ r') ∧
    (length c + length r' = length r)%nat.

Lemma step_value_container (tag open close : Z) c txt rest w x q r pos :
  (tag, open, close) = (ASN_TAG_SET, 91, 93) ∨ (tag, open, close) = (ASN_TAG_SEQ, 123, 125) →
  reads c txt → drop pos t = open :: txt ++ close :: rest → (pos + length txt + 2 ≤ slen)%nat → (length (q ++ encode (tag, c)) < 128)%nat →
  (length (encode (tag, c)) + 3 ≤ length r)%nat →
  ∃ x' r', step (op w x q r 2 false pos) = Ret (inl (op w x' (q ++ encode (tag, c)) r' 0 false (pos + length txt + 2))) ∧
    (length r' + length (encode (tag, c)) = length r)%nat.
Proof.
  intros Ht Hc Hb Hp Hq Hr. destruct (read_char _ _ pos Hb) as [G _]. destruct r as [|y r1]; [cbn in Hr; lia|]. cbn [length] in Hr.
  assert (Hlq := Hq). rewrite length_app in Hlq. pose proof (length_encode (tag, c)) as He. cbn [snd] in He. pose proof (length_header (length c)).
  assert (Htag : is_byte tag) by (destruct Ht as [[= -> _ _]|[= -> _ _]]; by vm_compute).
  assert (Hcl : close = 93 ∨ close = 125) by (destruct Ht as [[= _ _ ->]|[= _ _ ->]]; auto).
  set (Y := W ++ w ++ [ASN_TAG_OBJDESC; x] ++ q). assert (HY : length Y = (base + (length w + 2 + length q))%nat) by (subst Y; rewrite !length_app; cbn; lia).
  destruct (Hc close (pos + 1)%nat rest (Y ++ [tag]) r1 Hcl) as (r2 & E & Hr2); [by rewrite <-drop_drop, Hb|lia|lia|].
  exists (Z.of_nat (length (q ++ encode (tag, c)))), (drop (length (header (length c))) r2). split; [|rewrite length_drop; cbn [length]; lia].
  assert (Estart : start_container rec base tag (mkR (length w + 2 + length q) 2 (length w + 1) (length q) false (pos + 1) (pos + 1) (Y ++ y :: r1)) =
    Ret (inl (op w (Z.of_nat (length (q ++ encode (tag, c)))) (q ++ encode (tag, c)) (drop (length (header (length c))) r2) 0 false (pos + length txt + 2)))).
  { unfold start_container. cbn [r_len r_out r_pos r_index r_state r_ldx r_klen r_quote]. rewrite <-HY, put_at by done. cbn [mbind res_bind].
    replace (base + (length w + 2 + length q) + 1)%nat with (length (Y ++ [tag])) by (rewrite length_app; cbn; lia).
    replace (length Y + 1)%nat with (length (Y ++ [tag])) by (by rewrite length_app). rewrite E. cbn [mbind res_bind].
    rewrite container_moved by lia. cbn [mbind res_bind fst snd]. rewrite bool_decide_eq_true_2 by lia.
    set (r3 := drop (length (header (length c))) r2).
    assert (P := push_lv_ok (W ++ w ++ [ASN_TAG_OBJDESC]) (x :: (q ++ encode (tag, c)) ++ r3) (q ++ encode (tag, c)) r3 ltac:(lia)).
    replace (Y ++ encode (tag, c) ++ r3) with ((W ++ w ++ [ASN_TAG_OBJDESC]) ++ x :: (q ++ encode (tag, c)) ++ r3) by (subst Y; by rewrite <-!app_assoc).
    replace (base + (length w + 1))%nat with (length (W ++ w ++ [ASN_TAG_OBJDESC])) by (rewrite !length_app; cbn; lia).
    assert (Ed : drop (length (W ++ w ++ [ASN_TAG_OBJDESC]) + 1) ((W ++ w ++ [ASN_TAG_OBJDESC]) ++ x :: (q ++ encode (tag, c)) ++ r3) = (q ++ encode (tag, c)) ++ r3) by (by rewrite drop_app_add).
    rewrite Ed. replace (length q + (length (header (length c)) + length c + 1))%nat with (length (q ++ encode (tag, c))) by (rewrite length_app; lia).
    assert (Eh : header (length (q ++ encode (tag, c))) = [Z.of_nat (length (q ++ encode (tag, c)))]) by (unfold header; by rewrite (proj2 (Z.ltb_lt _ 128)) by lia).
    rewrite P by (rewrite Eh; cbn [length]; rewrite (length_app (q ++ _)); lia). rewrite Eh. cbn [mbind res_bind fst snd].
    assert (Eo : ((W ++ w ++ [ASN_TAG_OBJDESC]) ++ [Z.of_nat (length (q ++ encode (tag, c)))] ++ q ++ encode (tag, c)) ++
      drop (length [Z.of_nat (length (q ++ encode (tag, c)))] + length (q ++ encode (tag, c))) (x :: (q ++ encode (tag, c)) ++ r3) =
      W ++ w ++ [ASN_TAG_OBJDESC; Z.of_nat (length (q ++ encode (tag, c)))] ++ (q ++ encode (tag, c)) ++ r3).
    { cbn [length Nat.add drop]. rewrite (drop_app_length (q ++ encode (tag, c))). by rewrite <-!app_assoc. }
    rewrite Eo. unfold op. rewrite (length_app q). do 2 f_equal. f_equal; lia. }
  unfold read_step. cbn [r_index r_pos r_len r_state r_ldx r_klen r_quote r_out op]. rewrite bool_decide_eq_true_2 by lia. rewrite G. cbn [mbind res_bind].
  replace (W ++ w ++ [ASN_TAG_OBJDESC; x] ++ q ++ y :: r1) with (Y ++ y :: r1) by (subst Y; by rewrite <-!app_assoc).
  destruct Ht as [Ht|Ht]; injection Ht as -> -> ->; exact Estart.
Qed.
(** *** Runs of characters *)
Lemma quoted_run st l : Forall (quoted_ok st) l → ∀ rest w x q r pos, drop pos t = l ++ rest → (pos + length l ≤ slen)%nat → (length l ≤ length r)%nat →
  iters step (length l) (op w x q r st true pos) (op w x (q ++ l) (drop (length l) r) st true (pos + length l)).
Proof.
  induction 1 as [|c l Hc _ IH]; intros rest w x q r pos Hb Hp Hr; cbn [length] in *; [rewrite Nat.add_0_r, app_nil_r; constructor|].
  eapply iters_S; [apply (step_quoted c (l ++ rest)); (done || lia)|].
  replace (q ++ c :: l) with ((q ++ [c]) ++ l) by (by rewrite <-app_assoc). replace (drop (S (length l)) r) with (drop (length l) (drop 1 r)) by (by rewrite drop_drop).
  replace (pos + S (length l))%nat with (pos + 1 + length l)%nat by lia. apply (IH rest); [by rewrite <-drop_drop, Hb|lia|rewrite length_drop; lia].
Qed.

Lemma bare_run l : Forall bare_ok l → ∀ rest w x q r st pos, drop pos t = l ++ rest → (pos + length l ≤ slen)%nat → (length l ≤ length r)%nat → st ≠ 0%nat →
  ∃ st', iters step (length l) (op w x q r st false pos) (op w x (q ++ l) (drop (length l) r) st' false (pos + length l)) ∧ st' ≠ 0%nat ∧ (st = 1%nat → st' = 1%nat).
Proof.
  induction 1 as [|c l Hc _ IH]; intros rest w x q r st pos Hb Hp Hr Hst; cbn [length] in *; [exists st; rewrite Nat.add_0_r, app_nil_r; split; [constructor|done]|].
  destruct (IH rest w x (q ++ [c]) (drop 1 r) (bare_state st c) (pos + 1)%nat) as (st' & It & H1 & H2);
    [by rewrite <-drop_drop, Hb|lia|rewrite length_drop; lia|unfold bare_state; by destruct (_ && _)|].
  exists st'. split; [|split; [done|intros ->; apply H2; unfold bare_state; by rewrite andb_false_r]].
  eapply iters_S; [apply (step_bare c (l ++ rest)); (done || lia)|].
  replace (q ++ c :: l) with ((q ++ [c]) ++ l) by (by rewrite <-app_assoc). replace (drop (S (length l)) r) with (drop (length l) (drop 1 r)) by (by rewrite drop_drop).
  by replace (pos + S (length l))%nat with (pos + 1 + length l)%nat by lia.
Qed.

(** a text in quotes, from the byte behind the first *)
Lemma quoted_text_run st l rest w x q r pos : Forall (quoted_ok st) l → l ≠ [] → drop pos t = l ++ 34 :: rest → (pos + length l + 1 ≤ slen)%nat → (length l ≤ length r)%nat →
  st = 1%nat ∨ st = 3%nat → (length (q ++ l) < 128)%nat →
  ∃ x', iters step (length l + 1) (op w x q r st true pos) (op w x' (q ++ l) (drop (length l) r) (st + 1) false (pos + length l + 1)).
Proof.
  intros Hl Hne Hb Hp Hr Hst Hq. destruct (exists_last Hne) as (l0 & c & El). assert (Hc : c ≠ 92).
  { intros ->. rewrite El in Hl. apply Forall_app in Hl as [_ Hl]. apply Forall_cons in Hl as [[[_ Hl] _] _]. apply Hl. unfold special. set_solver. }
  assert (Eq : q ++ l = (q ++ l0) ++ [c]) by (by rewrite El, app_assoc).
  eexists. eapply iters_trans; [apply (quoted_run st l Hl (34 :: rest)); (done || lia)|]. rewrite Eq in Hq |- *.
  apply iters_one, (step_close_quote rest); [rewrite <-drop_drop, Hb; apply drop_app_length|lia|done|done|done].
Qed.

(** *** Elements *)
Definition reads_elem (q txt : list Z) : Prop := ∀ w ldx klen r pos rest, drop pos t = txt ++ rest → (pos + length txt ≤ slen)%nat → (length q + 5 ≤ length r)%nat →
  ∃ n x st r', iters step n (ro w r ldx klen pos) (op w x q r' st false (pos + length txt)) ∧ (n ≤ length txt)%nat ∧ (length r' + 2 + length q = length r)%nat.

Lemma numeric_bare s : va_arg_is_numeric s = true → Forall bare_ok s ∧ s ≠ [].
Proof.
  intros H. destruct s as [|c l]; [done|]. cbn [va_arg_is_numeric] in H. apply andb_true_iff in H as [Hc Hl].
  assert (Hd : ∀ c, is_digit c = true → bare_ok c) by (intros c' Hc'; right; unfold is_word; rewrite Hc'; apply orb_true_r).
  split; [|done]. constructor; [apply orb_true_iff in Hc as [->%Z.eqb_eq|Hc]; [by left|by apply Hd]|].
  apply Forall_forall. intros c' Hin. apply Hd. rewrite forallb_forall in Hl. by apply Hl, list_elem_of_In.
Qed.

(** a number or a key without quotes, in front of anything *)
Lemma bare_elem l rest w ldx klen r pos : Forall bare_ok l → l ≠ [] → drop pos t = l ++ rest → (pos + length l ≤ slen)%nat → (length l + 2 ≤ length r)%nat →
  iters step (length l) (ro w r ldx klen pos) (op w 0 l (drop (length l + 2) r) 1 false (pos + length l)).
Proof.
  intros Hl Hne Hb Hp Hr. destruct l as [|c l]; [done|]. apply Forall_cons in Hl as [Hc Hl]. cbn [length] in *.
  destruct (bare_run l Hl rest w 0 [c] (drop 3 r) 1 (pos + 1)) as (st' & It & _ & H1); [by rewrite <-drop_drop, Hb|lia|rewrite length_drop; lia|done|].
  rewrite (H1 eq_refl) in It. eapply iters_S; [apply (step_open_bare c (l ++ rest)); (done || lia)|].
  replace (pos + S (length l))%nat with (pos + 1 + length l)%nat by lia. replace (drop (S (length l) + 2) r) with (drop (length l) (drop 3 r)) by (rewrite drop_drop; f_equal; lia). exact It.
Qed.

Lemma quoted_elem l rest w ldx klen r pos : Forall (quoted_ok 1) l → l ≠ [] → drop pos t = 34 :: l ++ 34 :: rest → (pos + length l + 2 ≤ slen)%nat → (length l + 2 ≤ length r)%nat → (length l < 128)%nat →
  ∃ x, iters step (length l + 2) (ro w r ldx klen pos) (op w x l (drop (length l + 2) r) 2 false (pos + (length l + 2))).
Proof.
  intros Hl Hne Hb Hp Hr Hq. destruct (quoted_text_run 1 l rest w 0 [] (drop 2 r) (pos + 1) Hl Hne) as (x & It); [by rewrite <-drop_drop, Hb|lia|rewrite length_drop; lia|by left|done|].
  exists x. replace (length l + 2)%nat with (S (length l + 1)) at 1 by lia. eapply iters_S; [apply (step_open_quote (l ++ 34 :: rest)); (done || lia)|].
  rewrite drop_drop, (Nat.add_comm 2) in It. replace (pos + (length l + 2))%nat with (pos + 1 + length l + 1)%nat by lia. exact It.
Qed.

Lemma reads_item s : good_item s → reads_elem s (scalar s).
Proof.
  intros (Hne & Ho & H44 & H58 & _ & Hl) w ldx klen r pos rest Hb Hp Hr. unfold scalar in *. rewrite (bool_decide_eq_false_2 (s = [])) in * by done.
  destruct (va_arg_is_numeric s) eqn:En; cbn [orb] in *.
  - destruct (numeric_bare s En) as [Hbare _]. eexists _, _, _, _. split; [apply (bare_elem s rest); (done || lia)|]. rewrite length_drop. lia.
  - rewrite <-app_comm_cons, <-app_assoc in Hb. cbn [app length] in *. rewrite length_app in *. cbn [length] in *.
    destruct (quoted_elem s rest w ldx klen r pos) as (x & It); [|done|exact Hb|lia|lia|done|].
    + apply Forall_forall. intros c Hc. rewrite Forall_forall in Ho. split; [by apply Ho|]. right. split; [done|]. split; by intros ->.
    + eexists _, _, _, _. split; [|split; [|rewrite length_drop]]; [replace (pos + S (length s + 1))%nat with (pos + (length s + 2))%nat by lia; exact It|lia|lia].
Qed.

(** a key and the colon *)
Lemma read_key quoted k rest w ldx klen r pos : good_key k → drop pos t = key_text quoted k ++ 58 :: rest → (pos + length (key_text quoted k) + 1 ≤ slen)%nat →
  (length k + 3 ≤ length r)%nat → (length k < 128)%nat →
  ∃ x, iters step (length (key_text quoted k) + 1) (ro w r ldx klen pos) (op w x (k ++ [VA_OBJECT_DELIMITER]) (drop (length k + 3) r) 2 false (pos + (length (key_text quoted k) + 1))).
Proof.
  intros [Hne Hk] Hb Hp Hr Hl.
  assert (E : ∃ x st, (st = 1%nat ∨ st = 2%nat) ∧ iters step (length (key_text quoted k)) (ro w r ldx klen pos) (op w x k (drop (length k + 2) r) st false (pos + length (key_text quoted k)))).
  { destruct quoted; cbn [key_text length] in *.
    - rewrite <-app_comm_cons, <-app_assoc in Hb. rewrite length_app in *. cbn [app length] in *. destruct (quoted_elem k (58 :: rest) w ldx klen r pos) as (x & It); [|done|exact Hb|lia|lia|lia|].
      + eapply Forall_impl; [exact Hk|]. intros c Hc. cbn beta in Hc. split; [by apply word_ordinary|]. right. split; [done|]. split; intros ->; by vm_compute in Hc.
      + exists x, 2%nat. split; [by right|]. replace (S (length k + 1)) with (length k + 2)%nat by lia. exact It.
    - exists 0, 1%nat. split; [by left|]. apply (bare_elem k (58 :: rest)); [|done|done|lia|lia]. eapply Forall_impl; [exact Hk|]. intros c Hc. by right. }
  destruct E as (x & st & Hst & It). destruct (step_colon rest w x k (drop (length k + 2) r) st (pos + length (key_text quoted k))) as (x' & E);
    [by rewrite <-drop_drop, Hb, drop_app_length|lia|done|done|rewrite length_drop; lia|].
  exists x'. rewrite drop_drop in E. replace (length k + 2 + 1)%nat with (length k + 3)%nat in E by lia. rewrite (Nat.add_assoc pos). eapply iters_trans; [exact It|]. by apply iters_one.
Qed.

Lemma reads_pair_text quoted k s : good_key k → Forall ordinary s → (length k + 1 + length s < 128)%nat →
  reads_elem (k ++ VA_OBJECT_DELIMITER :: s) (key_text quoted k ++ 58 :: scalar s).
Proof.
  intros Hk Ho Hl w ldx klen r pos rest Hb Hp Hr. rewrite !length_app in *. cbn [length] in *. rewrite <-app_assoc in Hb. cbn [app] in Hb.
  destruct (read_key quoted k (scalar s ++ rest) w ldx klen r pos Hk Hb ltac:(lia) ltac:(lia) ltac:(lia)) as (x & It). set (n := length (key_text quoted k)) in *.
  assert (Hb2 : drop (pos + (n + 1)) t = scalar s ++ rest) by (rewrite (Nat.add_assoc pos), <-!drop_drop, Hb; subst n; by rewrite drop_app_length).
  replace (k ++ VA_OBJECT_DELIMITER :: s) with ((k ++ [VA_OBJECT_DELIMITER]) ++ s) by (by rewrite <-app_assoc).
  replace (pos + (n + S (length (scalar s))))%nat with (pos + (n + 1) + length (scalar s))%nat by lia.
  assert (Hdr : ∀ m, (m ≤ length s)%nat → length (drop m (drop (length k + 3) r)) = (length r - (length k + 3) - m)%nat) by (intros m _; by rewrite !length_drop).
  unfold scalar in *. destruct (va_arg_is_numeric s) eqn:En; cbn [orb] in *.
  - destruct (numeric_bare s En) as [Hbare _]. destruct (bare_run s Hbare rest w x (k ++ [VA_OBJECT_DELIMITER]) (drop (length k + 3) r) 2 (pos + (n + 1))) as (st' & It2 & _);
      [exact Hb2|lia|rewrite length_drop; lia|done|].
    eexists _, _, _, _. split; [eapply iters_trans; [exact It|exact It2]|]. rewrite Hdr by lia. lia.
  - case_bool_decide as Hs.
    + subst s. eexists _, _, _, _. split; [cbn [length]; rewrite Nat.add_0_r, app_nil_r; exact It|]. rewrite length_drop. cbn [length] in *. lia.
    + cbn [length] in *. rewrite length_app in *. cbn [length app] in *. rewrite <-app_assoc in Hb2. cbn [app] in Hb2.
      destruct (quoted_text_run 3 s rest w x (k ++ [VA_OBJECT_DELIMITER]) (drop (length k + 3) r) (pos + (n + 1) + 1)) as (x' & It2); [|done|by rewrite <-drop_drop, Hb2|lia|rewrite length_drop; lia|by right|rewrite !length_app; cbn; lia|].
      { eapply Forall_impl; [exact Ho|]. intros c Hc. split; [exact Hc|by left]. }
      eexists _, _, _, _. split; [eapply iters_trans; [exact It|eapply iters_S; [apply (step_value_quote (s ++ 34 :: rest)); [exact Hb2|lia]|]]|].
      * replace (pos + (n + 1) + S (length s + 1))%nat with (pos + (n + 1) + 1 + length s + 1)%nat by lia. exact It2.
      * rewrite Hdr by lia. lia.
Qed.

Lemma reads_pair_container quoted k (tag open close : Z) c txt :
  (tag, open, close) = (ASN_TAG_SET, 91, 93) ∨ (tag, open, close) = (ASN_TAG_SEQ, 123, 125) →
  good_key k → reads c txt → (length k + 1 + length (encode (tag, c)) < 128)%nat →
  reads_elem (k ++ VA_OBJECT_DELIMITER :: encode (tag, c)) (key_text quoted k ++ 58 :: open :: txt ++ [close]).
Proof.
  intros Ht Hk Hc Hl w ldx klen r pos rest Hb Hp Hr. rewrite !length_app in *. cbn [length] in *. rewrite length_app in *. cbn [length] in *. rewrite <-app_assoc in Hb. cbn [app] in Hb. rewrite <-app_assoc in Hb.
  destruct (read_key quoted k (open :: txt ++ close :: rest) w ldx klen r pos Hk Hb ltac:(lia) ltac:(lia) ltac:(lia)) as (x & It). set (n := length (key_text quoted k)) in *.
  destruct (step_value_container tag open close c txt rest w x (k ++ [VA_OBJECT_DELIMITER]) (drop (length k + 3) r) (pos + (n + 1)) Ht Hc) as (x' & r' & E & Hr').
  { rewrite (Nat.add_assoc pos), <-!drop_drop, Hb. subst n. by rewrite drop_app_length. }
  { lia. }
  { rewrite !length_app. cbn [length]. lia. }
  { rewrite length_drop. lia. }
  rewrite length_drop in Hr'. replace (k ++ VA_OBJECT_DELIMITER :: encode (tag, c)) with ((k ++ [VA_OBJECT_DELIMITER]) ++ encode (tag, c)) by (by rewrite <-app_assoc).
  replace (pos + (n + S (S (length txt + 1))))%nat with (pos + (n + 1) + length txt + 2)%nat by lia.
  eexists _, _, _, _. split; [eapply iters_trans; [exact It|apply iters_one; exact E]|]. lia.
Qed.
End reading.

(** *** All elements, and values inside of values *)
Definition reads_good (fuel : nat) (t : list Z) (slen : nat) (q txt : list Z) : Prop :=
  (∀ W, reads_elem fuel t slen W q txt) ∧ q ≠ [] ∧ (length q < 128)%nat.

Lemma commas_cons x y l : commas (x :: y :: l) = x ++ 44 :: commas (y :: l).
Proof. done. Qed.

Lemma elements_read fuel t slen W cs txts close : (slen ≤ length t)%nat → close = 93 ∨ close = 125 → Forall2 (reads_good fuel t slen) cs txts → cs ≠ [] →
  ∀ w ldx klen r pos rest, drop pos t = commas txts ++ close :: rest → (pos + length (commas txts) + 1 ≤ slen)%nat →
  (length (contents (map item cs)) + 3 ≤ length r)%nat →
  ∃ n s' r', iters (read_step (va_arg_deserialize_s fuel t slen) t slen (length W)) n (ro W w r ldx klen pos) s' ∧
    read_step (va_arg_deserialize_s fuel t slen) t slen (length W) s' =
      Ret (inr (length (w ++ contents (map item cs)), (pos + length (commas txts) + 1)%nat, (pos + length (commas txts) + 1)%nat, W ++ (w ++ contents (map item cs)) ++ r')) ∧
    (n ≤ length (commas txts))%nat ∧ (length (contents (map item cs)) + length r' = length r)%nat.
Proof.
  intros Hs Hcl H. induction H as [|q txt cs txts [Hq [Hne Hl]] Hall IH]; [done|]. intros _ w ldx klen r pos rest Hb Hp Hr.
  cbn [map] in *. rewrite contents_cons in *. rewrite length_app, length_encode in Hr. cbn [item snd] in Hr. pose proof (length_header (length q)) as Hh.
  assert (Hh1 : length (encode (item q)) = (2 + length q)%nat) by (rewrite length_encode; cbn [item snd]; unfold header; by rewrite (proj2 (Z.ltb_lt _ 128)) by lia).
  destruct Hall as [|q2 txt2 cs txts Hq2 Hall].
  - assert (Ec : commas [txt] = txt) by (cbn; by rewrite app_nil_r). rewrite Ec in *. cbn [map contents fmap list_fmap concat] in *. rewrite app_nil_r.
    destruct (Hq W w ldx klen r pos (close :: rest) Hb) as (n & x & st & r' & It & Hn & Hr'); [lia|cbn in Hr; lia|].
    eexists n, _, r'. split; [exact It|]. split; [|split; [done|rewrite Hh1; lia]].
    rewrite (step_close fuel t slen Hs W close rest) by (done || lia || by rewrite <-drop_drop, Hb, drop_app_length). done.
  - rewrite commas_cons in *. rewrite <-app_assoc in Hb. cbn [app] in Hb. set (C := contents (map item (q2 :: cs))) in *. set (T := commas (txt2 :: txts)) in *.
    assert (HT : length (txt ++ 44 :: T) = (length txt + 1 + length T)%nat) by (rewrite length_app; cbn; lia). rewrite HT in *.
    assert (HC : length (encode (item q) ++ C) = (2 + length q + length C)%nat) by (rewrite length_app, Hh1; lia). rewrite HC.
    destruct (Hq W w ldx klen r pos (44 :: T ++ close :: rest) Hb) as (n & x & st & r' & It & Hn & Hr'); [lia|lia|].
    destruct (IH ltac:(done) (w ++ encode (item q)) (length w + 1)%nat 0%nat r' (pos + length txt + 1)%nat rest) as (n2 & s' & r2 & It2 & E & Hn2 & Hr2).
    { rewrite <-!drop_drop, Hb, drop_app_length. done. }
    { fold T. lia. }
    { fold C. lia. }
    fold C in E, Hr2. fold T in E, Hn2.
    exists (n + S n2)%nat, s', r2. split; [|split; [|split; lia]].
    + eapply iters_trans; [exact It|]. eapply iters_S; [|exact It2].
      apply (step_comma fuel t slen Hs W (T ++ close :: rest)); [by rewrite <-drop_drop, Hb, drop_app_length|lia|done|done].
    + rewrite E, <-(app_assoc w (encode (item q))). by replace (pos + length txt + 1 + length T + 1)%nat with (pos + (length txt + 1 + length T) + 1)%nat by lia.
Qed.

Lemma reads_elements fuel t slen cs txts : (slen ≤ length t)%nat → Forall2 (reads_good fuel t slen) cs txts → (length (commas txts) ≤ fuel)%nat →
  reads (S fuel) t slen (contents (map item cs)) (commas txts).
Proof.
  intros Hs H Hf close pos rest W r Hcl Hb Hp Hr. cbn [va_arg_deserialize_s].
  change (mkR 0 0 0 0 false pos pos (W ++ r)) with (ro W [] r 0 0 pos). destruct cs as [|q cs].
  - inversion H; subst. cbn [commas contents map fmap list_fmap concat length app] in *. exists r. split; [|done].
    rewrite (loop_inr _ _ _ (0%nat, (pos + 1)%nat, (pos + 1)%nat, W ++ r)); [by rewrite Nat.add_0_r|]. by apply (step_close_empty fuel t slen Hs W close rest); [|lia|].
  - destruct (elements_read fuel t slen W (q :: cs) txts close Hs Hcl H ltac:(done) [] 0 0 r pos rest Hb Hp Hr) as (n & s' & r' & It & E & Hn & Hr').
    exists r'. split; [|done]. cbn [app] in E. eapply loop_exit; [exact It|exact E|lia].
Qed.

Section values.
Context (quoted : bool) (t : list Z) (slen : nat) (Hslen : (slen ≤ length t)%nat).

Definition container_reads (j : json) : Prop := ∀ tag open close cs, elements j = Some (tag, open, close, cs) → ∀ fuel,
  (length (commas (texts_in quoted j)) < fuel)%nat → reads fuel t slen (contents (map item cs)) (commas (texts_in quoted j)).
Definition pair_reads (j : json) : Prop := ∀ k fuel, good_key k → (length k + 1 + length (json_bytes j) < 128)%nat →
  (length (json_text quoted j) ≤ fuel)%nat →
  reads_good fuel t slen (k ++ VA_OBJECT_DELIMITER :: json_bytes j) (key_text quoted k ++ 58 :: json_text quoted j).

Lemma container_pair_reads j : elements j ≠ None → container_reads j → pair_reads j.
Proof.
  intros He Hc k fuel Hk Hl Hf. destruct (elements j) as [[[[tag open] close] cs]|] eqn:E; [|done].
  destruct (elements_json j tag open close cs quoted E) as (Ht & Eb & Et & _). rewrite Eb, Et in *. cbn [length] in Hf. rewrite length_app in Hf.
  split; [|split; [by destruct k|rewrite length_app; cbn [length]; lia]]. intros W.
  apply reads_pair_container; [done|exact Ht|exact Hk|apply (Hc tag open close cs E); lia|exact Hl].
Qed.

Lemma commas_length txts x : x ∈ txts → (length x ≤ length (commas txts))%nat.
Proof.
  intros Hx. destruct txts as [|y l]; [by apply elem_of_nil in Hx|]. cbn [commas]. rewrite length_app. apply elem_of_cons in Hx as [->|Hx]; [lia|].
  enough (length x ≤ length (concat (cons 44%Z <$> l)))%nat by lia. clear y. induction l as [|z l IH]; [by apply elem_of_nil in Hx|].
  rewrite fmap_cons. cbn [concat]. rewrite length_app. cbn [length]. apply elem_of_cons in Hx as [->|Hx]; [lia|]. specialize (IH Hx). lia.
Qed.

Lemma reads_json j : good j → container_reads j ∧ pair_reads j.
Proof.
  assert (Hn : ∀ j, elements j ≠ None → container_reads j → container_reads j ∧ pair_reads j) by (intros j' He Hc; split; [exact Hc|by apply container_pair_reads]).
  induction j as [s|ss|kvs IH] using json_nested_ind; intros Hg.
  - split; [done|]. intros k fuel Hk Hl Hf. cbn [json_bytes json_text] in *. split; [|split; [by destruct k|rewrite length_app; cbn [length]; lia]].
    intros W. by apply reads_pair_text.
  - apply Hn; [done|]. intros tag open close cs [= <- <- <- <-] fuel Hf. destruct fuel as [|fuel]; [lia|]. destruct Hg as [Hg _].
    apply reads_elements; [done| |lia]. cbn [texts_in]. rewrite <-(map_id ss) at 1. apply Forall2_map. intros s Hin. rewrite Forall_forall in Hg. specialize (Hg s Hin).
    split; [intros W; by apply reads_item|]. split; apply Hg.
  - apply Hn; [done|]. intros tag open close cs [= <- <- <- <-] fuel Hf. destruct fuel as [|fuel]; [lia|]. destruct (good_pairs kvs Hg) as [Hk _].
    apply reads_elements; [done| |lia]. cbn [texts_in] in *. apply Forall2_map. intros [k v] Hin. cbn [fst snd]. rewrite Forall_forall in Hk, IH. destruct (Hk _ Hin) as (Hkey & Hv & Hl).
    apply (IH _ Hin Hv); [exact Hkey|exact Hl|]. cbn [snd].
    pose proof (commas_length (map (λ kv, key_text quoted kv.1 ++ 58 :: json_text quoted kv.2) kvs) (key_text quoted k ++ 58 :: json_text quoted v)
      ltac:(apply list_elem_of_In, (in_map (λ kv, key_text quoted kv.1 ++ 58 :: json_text quoted kv.2) _ (k, v)); by apply list_elem_of_In)) as Hlen.
    rewrite length_app in Hlen. cbn [length] in Hlen. lia.
Qed.
End values.

(** ** The functions of the library *)
Lemma deserialize_ok malloc slack fuel knd quoted j : (∀ n, length (malloc n) = n) → good j → elements j ≠ None →
  (length (json_bytes j) + 3 ≤ VA_OBJECT_MAX_SIZE)%nat → (length (json_text quoted j) ≤ VA_OBJECT_MAX_SIZE)%nat → (VA_OBJECT_MAX_SIZE < fuel)%nat →
  va_arg_deserialize malloc slack fuel (mkObj knd (json_text quoted j)) = Ret (mkObj Array (json_bytes j)).
Proof.
  intros Hm Hg He Hb Ht Hf. unfold VA_OBJECT_MAX_SIZE in *. destruct (elements j) as [[[[tag open] close] cs]|] eqn:E; [|done].
  destruct (elements_json j tag open close cs quoted E) as (Htag & Eb & Et & Hs). specialize (Hs Hg). rewrite Eb, Et in *. set (C := contents (map item cs)) in *. set (T := commas (texts_in quoted j)) in *.
  pose proof (small_length_contents _ Hs) as HC. fold C in HC. pose proof (length_encode (tag, C)) as Hen. cbn [snd] in Hen. pose proof (length_header (length C)).
  assert (HT : length (open :: T ++ [close]) = (length T + 2)%nat) by (cbn; rewrite length_app; cbn; lia). set (t := (open :: T ++ [close]) ++ slack).
  unfold va_arg_deserialize, memory, len, VA_OBJECT_MAX_SIZE. cbn [Args.bytes]. fold t. rewrite wrap16_id, HT by lia. set (slen := (length T + 2)%nat).
  assert (Hsl : (slen ≤ length t)%nat) by (subst t slen; rewrite length_app, HT; lia). destruct fuel as [|fuel]; [lia|].
  destruct (malloc 4096%nat) as [|y r] eqn:Em; [apply (f_equal length) in Em; rewrite Hm in Em; discriminate Em|].
  assert (Hr : (length r = 4095)%nat) by (apply (f_equal length) in Em; rewrite Hm in Em; cbn in Em; lia).
  assert (Htb : is_byte tag) by (destruct Htag as [[= -> _ _]|[= -> _ _]]; by vm_compute).
  assert (Hcl : close = 93 ∨ close = 125) by (destruct Htag as [[= _ _ ->]|[= _ _ ->]]; auto).
  destruct (proj1 (reads_json quoted t slen Hsl j Hg) tag open close cs E fuel ltac:(fold T; lia) close 1%nat slack [tag] r Hcl) as (r2 & R & Hr2).
  { subst t. cbn [app drop]. rewrite <-app_assoc. done. }
  { fold T. lia. }
  { fold C. lia. }
  fold C T in R, Hr2. set (r3 := drop (length (header (length C))) r2).
  set (s1 := mkR (length (encode (tag, C))) 0 0 0 false slen slen (encode (tag, C) ++ r3)).
  assert (E1 : read_step (va_arg_deserialize_s fuel t slen) t slen 0 (mkR 0 0 0 0 false 0 0 (y :: r)) = Ret (inl s1)).
  { unfold read_step. cbn [r_index r_pos r_len r_state r_ldx r_klen r_quote r_out]. rewrite bool_decide_eq_true_2 by lia.
    assert (G : get t 0 = Ret open) by done. rewrite G. cbn [mbind res_bind Nat.add].
    assert (Estart : start_container (va_arg_deserialize_s fuel t slen) 0 tag (mkR 0 0 0 0 false 1 1 (y :: r)) = Ret (inl s1)).
    { unfold start_container. cbn [r_len r_out r_pos r_index r_state r_ldx r_klen r_quote Nat.add]. pose proof (put_at [] r tag y Htb) as P. cbn [app length] in P. rewrite P. cbn [mbind res_bind].
      cbn [app length] in R. rewrite R. cbn [mbind res_bind]. assert (M := container_moved [] tag C r2 HC ltac:(lia)). cbn [app length] in M. rewrite M.
      cbn [mbind res_bind fst snd]. rewrite bool_decide_eq_false_2 by lia. subst s1. do 2 f_equal. f_equal; lia. }
    destruct Htag as [Htag|Htag]; injection Htag as -> -> ->; exact Estart. }
  cbn [va_arg_deserialize_s]. rewrite (loop_inl _ _ _ _ E1).
  destruct fuel as [|fuel]; [lia|]. rewrite (loop_inr _ _ _ (length (encode (tag, C)), slen, (slen + 1)%nat, encode (tag, C) ++ r3)).
  - cbn [mbind res_bind]. rewrite slice_all. done.
  - unfold read_step. subst s1. cbn [r_index r_pos r_len r_out]. by rewrite bool_decide_eq_false_2 by lia.
Qed.

Lemma serialize_ok malloc slack fuel j : (∀ n, length (malloc n) = n) → good j → elements j ≠ None →
  (length (json_bytes j) ≤ VA_OBJECT_MAX_SIZE)%nat → (length (json_text false j) ≤ VA_OBJECT_MAX_SIZE)%nat → (VA_OBJECT_MAX_SIZE < fuel)%nat →
  va_arg_serialize malloc slack fuel (mkObj Array (json_bytes j)) = Ret (Some (mkObj Plain (json_text false j))).
Proof.
  intros Hm Hg He Hb Ht Hf. destruct (elements j) as [[[[tag open] close] cs]|] eqn:E; [|done].
  destruct (elements_json j tag open close cs false E) as (Htag & Eb & Et & Hs). specialize (Hs Hg).
  destruct (writes_json j Hg) as [Hw _]. pose proof (length_encode (tag, contents (map item cs))) as Hen. cbn [snd] in Hen. rewrite <-Eb in Hen.
  destruct fuel as [|fuel]; [lia|].
  assert (W := writes_container tag open close Htag fuel (json_bytes j ++ slack) (contents (map item cs)) (commas (texts_in false j)) (Hw tag open close cs E fuel _ ltac:(lia)) (small_length_contents _ Hs) ltac:(lia)).
  rewrite <-Eb, <-Et in W. unfold va_arg_serialize, memory, len. cbn [okind Args.bytes].
  assert (R := W 0%nat slack [] (malloc (VA_OBJECT_MAX_SIZE + length (json_bytes j))%nat) eq_refl ltac:(lia) ltac:(rewrite Hm; lia)). cbn [app length] in R. rewrite R.
  cbn [mbind res_bind fst snd]. by rewrite slice_all.
Qed.

(** C21: JSON, for a class of values. A value is an array of texts, or an
    object whose values are texts, arrays of texts or objects again, to any
    depth ([json], [good]). Texts are of ordinary characters: no quotes,
    slashes, backslashes, control characters, nor the bytes of the tags and the
    delimiter ([special]); those of an array are moreover not empty, have no
    comma, no colon, no space in front, and at most 127 bytes. Keys are of
    letters, digits and [_]; a pair has at most 127 bytes, for its length is
    written in one byte, and a whole text at most 4096. For these [from_json]
    reads the JSON text, keys in quotes or not, into the object, and [to_json]
    of that object writes the text with bare keys, both inside their buffers.
    Numbers have no quotes. Outside of the class it fails, see
    [nested_array_gains_element]. *)
Theorem json_roundtrip (malloc : nat → list Z) (slack : list Z) (fuel : nat) (knd : kind) (quoted : bool) (j : json) :
  (∀ n, length (malloc n) = n) → good j → elements j ≠ None → (length (json_bytes j) + 3 ≤ VA_OBJECT_MAX_SIZE)%nat →
  (length (json_text quoted j) ≤ VA_OBJECT_MAX_SIZE)%nat → (length (json_text false j) ≤ VA_OBJECT_MAX_SIZE)%nat → (VA_OBJECT_MAX_SIZE < fuel)%nat →
  va_arg_deserialize malloc slack fuel (mkObj knd (json_text quoted j)) = Ret (mkObj Array (json_bytes j)) ∧
  va_arg_serialize malloc slack fuel (mkObj Array (json_bytes j)) = Ret (Some (mkObj Plain (json_text false j))).
Proof. intros Hm Hg He Hb Ht Hf Hfu. split; [by apply deserialize_ok|by apply serialize_ok; [| | |lia| |]]. Qed.

(** ** Samples *)
Definition sample_json : json :=
  JObj [(chars "name", JText (chars "x y")); (chars "n", JText (chars "-12")); (chars "l", JArr [chars "1"; chars "a]"]); (chars "o", JObj [(chars "k", JText [])])].

Lemma ordinary_check l : forallb (λ c, (0 <=? c) && (c <? 256) && negb (existsb (Z.eqb c) special)) l = true → Forall ordinary l.
Proof.
  intros H. rewrite forallb_forall in H. apply Forall_forall. intros c Hc%list_elem_of_In%H. rewrite !andb_true_iff, negb_true_iff in Hc. destruct Hc as [[H1 H2] H3].
  split; [unfold is_byte; lia|]. intros Hin. assert (existsb (Z.eqb c) special = true); [|congruence].
  apply existsb_exists. exists c. split; [by apply list_elem_of_In|apply Z.eqb_refl].
Qed.

Lemma json_roundtrip_witness :
  va_arg_deserialize some_memory (some_memory 8) 4100 (mkObj Plain (json_text true sample_json)) = Ret (mkObj Array (json_bytes sample_json)) ∧
  va_arg_serialize some_memory (some_memory 8) 4100 (mkObj Array (json_bytes sample_json)) =
    Ret (Some (mkObj Plain (chars "{name:" ++ [34] ++ chars "x y" ++ [34] ++ chars ",n:-12,l:[1," ++ [34] ++ chars "a]" ++ [34] ++ chars "],o:{k:}}"))).
Proof.
  apply (json_roundtrip some_memory (some_memory 8) 4100 Plain true sample_json).
  - apply some_memory_length.
  - assert (Hk : ∀ k, k ≠ [] → forallb is_word k = true → good_key k).
    { intros k Hne H. split; [done|]. apply Forall_forall. intros c Hc%list_elem_of_In. rewrite forallb_forall in H. by apply H. }
    assert (Hi : ∀ s, s ≠ [] → forallb (λ c, (0 <=? c) && (c <? 256) && negb (existsb (Z.eqb c) special)) s = true → forallb (λ c, negb (c =? 44) && negb (c =? 58)) s = true →
      head s ≠ Some 32 → (length s < 128)%nat → good_item s).
    { intros s Hne Ho Hc Hh Hl. rewrite forallb_forall in Hc. split; [done|]. split; [by apply ordinary_check|].
      split; [intros Hin%list_elem_of_In%Hc; done|]. split; [intros Hin%list_elem_of_In%Hc; done|done]. }
    cbn [good sample_json fold_right fst snd]. repeat split; try (by apply Hk); try (by apply ordinary_check); try (vm_compute; lia); try (by vm_compute).
    constructor; [apply Hi; [done|reflexivity|reflexivity|by vm_compute|vm_compute; lia]|]. constructor; [apply Hi; [done|reflexivity|reflexivity|by vm_compute|vm_compute; lia]|]. constructor.
  - done.
  - vm_compute. lia.
  - vm_compute. lia.
  - vm_compute. lia.
  - unfold VA_OBJECT_MAX_SIZE. lia.
Defined.

(** an array of arrays gains an empty element, and a comma in a text of an array
    is lost *)
Lemma nested_array_gains_element :
  va_arg_deserialize some_memory (some_memory 8) 20 (mkObj Plain (chars "[[1],[2]]")) =
    Ret (mkObj Array (container ASN_TAG_SET [(ASN_TAG_SET, contents [item (chars "1")]); item []; (ASN_TAG_SET, contents [item (chars "2")])])) ∧
  va_arg_deserialize some_memory (some_memory 8) 20 (mkObj Plain (chars "[" ++ [34] ++ chars "a,b" ++ [34] ++ chars "]")) =
    Ret (mkObj Array (container ASN_TAG_SET [item (chars "ab")])).
Proof. split; by vm_compute. Qed.
