(* ===== verification/Machine.v ===== *)
(** * The loop of the machine (StackLib/StackVM/vm_stack.c, vm_decode)

    One turn of the loop fetches four bytes, carries out an instruction, checks
    for the collision of the two stacks, enters the handler of a try block when
    an exception is pending, opens and closes try blocks, and collects garbage.
    The variable and control instructions are those of Vm; here they are joined
    by the instructions on objects, which are pieces of text, with the
    operations of Text. [INS_F2O_n], [INS_EXTCALLn] and [INS_OBJNEW], whose
    objects hold pointers, are not modelled: a turn on them is [Undef]. *)
From S2P Require Import Prelude Isa Streamer Linker L1 Vm Gc Decimal Text.

Definition VM_STATE_INIT : Z := 0.
Definition VX_UNIMPLEMENTED_APIS : Z := 1.
Definition VX_UNKNOWN_INSTRUCTION : Z := 2.

(** ** State *)

(** [vm_tcblock]; of the snapshot only [sp] is read *)
Record vm_tcblock := mkTc { _start : Z; _end : Z; _catch : Z; num_args : Z; snapshot_sp : Z }.

(** [vm_instance]: Vm has the registers, the stacks and the counters; [texts]
    are [len] and [bytes] of the objects, [tcs] the try blocks entered *)
Record machine := mkMach { core : vm; texts : gmap nat (list Z); tcs : list vm_tcblock }.

Definition with_core (v : vm) (m : machine) : machine := mkMach v (texts m) (tcs m).
Definition with_tcs (t : list vm_tcblock) (m : machine) : machine := mkMach (core m) (texts m) t.

(** a [pk_tcblock] of the package list, with the base of its code *)
Record pk_tcblock := mkPkTc { codebase : nat; start : Z; cblock : Z; pk_num_args : Z }.

Definition set_state (z : Z) (s : vm) : vm :=
  mkVm (stacks s) (sp s) (bp s) (pc s) (base_address s) (refs s) z (exception_code s).

(** an operation on registers, stacks and counters *)
Definition lift (f : vm → res vm) (m : machine) : res machine := v ← f (core m); Ret (with_core v m).

Definition invoke (excp : Z) (m : machine) : machine := with_core (vm_invoke_exception excp (core m)) m.

Definition add_pc (n : Z) (m : machine) : machine := with_core (set_pc (pc (core m) + n) (core m)) m.

(** [vm_pop_stack_arc] *)
Definition pop_arc (m : machine) : res (cell * machine) :=
  r ← vm_pop_stack_arc (core m); Ret (r.1, with_core r.2 m).

(** [obj->bytes], [obj->len]; an object keeps its bytes when its counter drops *)
Definition text_of (c : cell) (m : machine) : res (list Z) :=
  match c with CObj o => from_option_ub (texts m !! o) | _ => Undef end.

(** [vm_release_object] *)
Definition vm_release_object (c : cell) (m : machine) : machine :=
  match c with
  | CObj o => mkMach (set_refs (delete o (refs (core m))) (core m)) (delete o (texts m)) (tcs m)
  | _ => m
  end.

Definition be16 (hi lo : Z) : Z := hi * 256 + lo.

(** a word of a constant *)
Definition rd_word (l : list Z) (i : Z) : res Z :=
  hi ← from_option_ub (l !! Z.to_nat i); lo ← from_option_ub (l !! Z.to_nat (i + 1)); Ret (be16 hi lo).

Fixpoint times {A} (n : nat) (f : A → res A) (a : A) : res A :=
  match n with O => Ret a | S n' => b ← f a; times n' f b end.

(** [_vm_exception_text] *)
Definition exception_texts : list string :=
  ["System Exception"; "Unimplemented APIs"; "Unknown Instruction"; "Stack Overflow"; "Insufficient Heap"; "Stack Underflow";
   "Out of Bounds"; "Unresolved Class"; "Unresolved Method"; "Argument Mismatch"; "Invalid Context"; "Divide by Zero";
   "Unsupported Argument"; "Unsupported Type"]%string.

Definition exception_text (excp : Z) : res (list Z) := from_option_ub (chars <$> exception_texts !! Z.to_nat excp).

Section machine.

(** The bytes in memory from the base of a package, the try blocks of the
    packages loaded, the functions of the library on texts (an exception, and
    a new value for [ret]), whether [m_alloc] is out of memory, and which dead
    objects the collector leaves (Gc). *)
Context (image : nat → Z → option Z) (info : list pk_tcblock)
  (api : Z → option (list (list Z) → res (option Z * option (list Z))))
  (full : gmap nat (list Z) → Z → bool) (spared : gmap nat (list Z) → nat → bool).

(** [vm_fetch] *)
Definition vm_fetch (offset : Z) (size : nat) (m : machine) : res (list Z) :=
  match base_address (core m) with
  | CPkg p => from_option_ub (mapM (λ k, image p (offset + Z.of_nat k)) (seq 0 size))
  | _ => Undef
  end.

(** [vm_create_object]; [m_alloc] is not checked for NULL *)
Definition vm_create_object (b : list Z) (m : machine) : res (nat * machine) :=
  guardb (negb (full (texts m) (Z.of_nat (length b)))) ≫= λ _,
  let o := fresh (dom (refs (core m))) in
  Ret (o, mkMach (set_refs (<[o := Z.lor VM_MAGIC 1]> (refs (core m))) (core m)) (<[o := b]> (texts m)) (tcs m)).

(** a new object on the stack, [vm_push_stack(obj)] *)
Definition push_new (b : list Z) (m : machine) : res machine :=
  r ← vm_create_object b m; lift (vm_push_stack (CObj r.1)) r.2.

(** [vm_load_constant]; behind the exception it returns [VM_NULL_OBJECT], a
    string literal, which its callers write to or free *)
Definition vm_load_constant (offset : Z) (m : machine) : res (nat * machine) :=
  lbuf ← vm_fetch offset 4 m;
  h ← load_constant_header lbuf;
  if VA_OBJECT_MAX_SIZE <? h.1 then Undef
  else
    guardb (negb (full (texts m) (h.1 + 1))) ≫= λ _,
    b ← vm_fetch (offset + h.2) (Z.to_nat h.1) m;
    r ← vm_create_object b m;
    m' ← lift (add_ref (-1) (CObj r.1)) r.2; Ret (r.1, m').

(** ** The instructions *)

(** one turn of the loop over the jump table; [psw] is a [uchar] *)
Definition switch_step (obj : list Z) (op1 : list Z) (x : Z * machine) : res (Z * machine + Z * machine) :=
  let '(psw, m) := x in
  if psw <? Z.of_nat (length op1) then
    index ← rd_word op1 psw;
    r ← vm_load_constant (index + pc (core m)) m;
    let '(op2, m1) := r in
    t ← text_of (CObj op2) m1;
    c ← vm_cmp_object obj t;
    let m2 := vm_release_object (CObj op2) m1 in
    if c =? VM_CMP_EQ then target ← rd_word op1 (psw + 2); Ret (inr (target, m2))
    else Ret (inl (u8 (psw + 4), m2))
  else target ← rd_word op1 0; Ret (inr (target, m)).

Definition vmd_switch (fuel : nat) (operand : Z) (m : machine) : res machine :=
  r ← pop_arc m;
  obj ← text_of r.1 r.2;
  c ← vm_load_constant (operand + pc (core r.2)) r.2;
  let '(op1, m1) := c in
  table ← text_of (CObj op1) m1;
  x ← loop fuel (switch_step obj table) (2, m1);
  let m2 := vm_release_object (CObj op1) x.2 in
  Ret (with_core (set_pc (x.1 + pc (core m2)) (core m2)) m2).

Definition vmd_objdel (m : machine) : res machine :=
  r ← pop_arc m; Ret (add_pc 1 (vm_release_object r.1 r.2)).

Definition vmd_objsub (m : machine) : res machine :=
  op2 ← pop_arc m; op1 ← pop_arc op2.2; obj ← pop_arc op1.2;
  let m3 := obj.2 in
  t2 ← text_of op2.1 m3; t1 ← text_of op1.1 m3; t ← text_of obj.1 m3;
  b ← vm_split_object t2 t1 t;
  m4 ← push_new b m3; Ret (add_pc 1 m4).

Definition vmd_objsz (m : machine) : res machine :=
  op1 ← pop_arc m;
  t ← text_of op1.1 op1.2;
  m2 ← push_new (vm_size_object t) op1.2; Ret (add_pc 1 m2).

(** [vm_operation_object] with its exception, and the push *)
Definition push_result (r : option Z * list Z) (m : machine) : res machine :=
  let m1 := match r.1 with Some excp => invoke excp m | None => m end in
  m2 ← push_new r.2 m1; Ret (add_pc 1 m2).

Definition vmd_not (m : machine) : res machine :=
  op2 ← pop_arc m;
  t ← text_of op2.1 op2.2;
  r ← vm_operation_object INS_NOT t t;
  push_result r op2.2.

Definition vmd_operation (opcode : Z) (m : machine) : res machine :=
  op2 ← pop_arc m; op1 ← pop_arc op2.2;
  t2 ← text_of op2.1 op1.2; t1 ← text_of op1.1 op1.2;
  r ← vm_operation_object opcode t2 t1;
  push_result r op1.2.

Definition vmd_compare (opcode : Z) (m : machine) : res machine :=
  op2 ← pop_arc m; op1 ← pop_arc op2.2;
  t2 ← text_of op2.1 op1.2; t1 ← text_of op1.1 op1.2;
  b ← vm_compare_object opcode t2 t1;
  push_result (None, b) op1.2.

(** [vm_get_argument]: argument [index] of [n] *)
Definition vm_get_argument (n index : Z) (m : machine) : res cell :=
  let base_arg := u16 (sp (core m) + n) in
  if sp (core m) <=? base_arg - index then rd_stack (base_arg - index) (core m) else Ret CNull.

Definition arguments (n : nat) (m : machine) : res (list (list Z)) :=
  foldM (λ k l, c ← vm_get_argument (Z.of_nat n) (Z.of_nat k) m; t ← text_of c m; Ret (l ++ [t])) (seq 0 n) [].

(** [vm_syscall]: [None] when there is no such function *)
Definition vm_syscall (n : nat) (api_id : Z) (m : machine) : res (option nat * machine) :=
  match api api_id with
  | Some entry =>
      r ← vm_create_object [] m;
      args ← arguments n r.2;
      out ← entry args;
      let m2 := match out.1 with Some excp => invoke excp r.2 | None => r.2 end in
      match out.2 with
      | Some b => r' ← vm_create_object b m2; Ret (Some r'.1, r'.2)
      | None => Ret (Some r.1, m2)
      end
  | None => Ret (None, invoke VX_UNIMPLEMENTED_APIS m)
  end.

Definition pop_drop (m : machine) : res machine := r ← pop_arc m; Ret r.2.

Definition vmd_syscall (n : nat) (width api_id : Z) (m : machine) : res machine :=
  r ← vm_syscall n api_id (add_pc width m);
  m2 ← times n pop_drop r.2;
  if vm_state (core m2) =? VM_STATE_RUN then
    o ← from_option_ub r.1; lift (vm_push_stack (CObj o)) m2
  else Ret m2.

Definition sctx_step (m : machine) : res machine := r ← vm_create_object [] m; lift (vm_push_base (CObj r.1)) r.2.

Definition rctx_step (m : machine) : res machine :=
  p ← vm_pop_base (core m);
  let m1 := with_core p.2 m in
  r ← vm_create_object [] m1;
  lift (λ s, s1 ← wr_stack (bp s) (CObj r.1) s; add_ref (-1) p.1 s1) r.2.

Definition vmd_objconst (operand : Z) (m : machine) : res machine :=
  r ← vm_load_constant (operand + pc (core m)) m;
  m1 ← lift (add_ref 1 (CObj r.1)) r.2;
  m2 ← lift (vm_push_stack (CObj r.1)) m1;
  Ret (add_pc 3 m2).

(** [memcmp(op1->bytes, "false", op1->len) == 0] *)
Definition is_false (t : list Z) : res bool :=
  v ← memcmp t (take (length t) (vm_load_bool false ++ [0])); Ret (v =? 0).

Definition vmd_jfalse (operand : Z) (m : machine) : res machine :=
  op1 ← pop_arc m;
  t ← text_of op1.1 op1.2;
  b ← is_false t;
  Ret (add_pc (if (b : bool) then operand else 3) op1.2).

(** The [switch] over the opcode, on the four bytes fetched. *)
Definition dispatch (fuel : nat) (ibuf : list Z) (m : machine) : res machine :=
  match ibuf with
  | [opcode; b1; b2; b3] =>
      let operand := be16 b1 b2 in
      if opcode =? INS_LBL then Ret m
      else if opcode =? INS_OBJPUSH then lift (vmd_objpush b1) m
      else if opcode =? INS_OBJSTORE then lift (vmd_objstore b1) m
      else if opcode =? INS_OBJPOP then lift (vmd_objpop b1) m
      else if opcode =? INS_SWITCH then vmd_switch fuel operand m
      else if opcode =? INS_OBJDEL then vmd_objdel m
      else if opcode =? INS_OBJSUB then vmd_objsub m
      else if opcode =? INS_OBJSZ then vmd_objsz m
      else if opcode =? INS_OBJDUP then lift vmd_objdup m
      else if opcode =? INS_NOT then vmd_not m
      else if bool_decide (opcode ∈ [INS_ADD; INS_MUL; INS_DIV; INS_SUB; INS_AND; INS_OR; INS_XOR; INS_SHL; INS_SHR])
        then vmd_operation opcode m
      else if (INS_SYSCALL0 <=? opcode) && (opcode <=? INS_SYSCALL0 + 15) then
        let n := Z.to_nat (opcode - INS_SYSCALL0) in
        if b1 <? 254 then vmd_syscall n 2 b1 m else vmd_syscall n 4 (be16 b2 b3) m
      else if opcode =? INS_SCTX then m' ← times (Z.to_nat b1) sctx_step m; Ret (add_pc 2 m')
      else if opcode =? INS_RCTX then m' ← times (Z.to_nat b1) rctx_step m; Ret (add_pc 2 m')
      else if opcode =? INS_RET then lift vmd_ret m
      else if opcode =? INS_CALL then lift (vmd_call operand) m
      else if opcode =? INS_JMP then lift (vmd_jmp operand) m
      else if opcode =? INS_OBJCONST then vmd_objconst operand m
      else if opcode =? INS_JFALSE then vmd_jfalse operand m
      else if bool_decide (opcode ∈ [INS_CREQ; INS_CRNE; INS_CRGT; INS_CRLT; INS_CRGTEQ; INS_CRLTEQ])
        then vmd_compare opcode m
      else if ((INS_F2O <=? opcode) && (opcode <=? INS_F2O + 15)) || (opcode =? INS_OBJNEW)
        || ((INS_EXTCALL0 <=? opcode) && (opcode <=? INS_EXTCALL0 + 15)) then Undef
      else Ret (invoke VX_UNKNOWN_INSTRUCTION m)
  | _ => Undef
  end.

(** ** Exceptions and try blocks *)

(** [while (vm_get_sp() != tc->snapshot->sp) vm_pop_stack_arc(VM_ARG)] *)
Definition unwind_step (target : Z) (m : machine) : res (machine + machine) :=
  if sp (core m) =? target then Ret (inr m) else m' ← pop_drop m; Ret (inl m').

(** [vm_create_object] and [vm_push_argument_object] of one argument of the
    handler: the text of the exception first, then empty objects *)
Definition catch_argument (index : nat) (m : machine) : res machine :=
  b ← (if decide (index = 0%nat) then exception_text (exception_code (core m)) else Ret []);
  r ← vm_create_object b m;
  m1 ← lift (vm_push_stack (CObj r.1)) r.2;
  lift (add_ref 1 (CObj r.1)) m1.

(** the [if] behind the check: [vm_pop_tcblock] and the jump to the handler *)
Definition handle (fuel : nat) (m : machine) : res machine :=
  match tcs m with
  | [] => Ret m
  | tc :: rest =>
      m1 ← loop fuel (unwind_step (snapshot_sp tc)) (with_tcs rest m);
      let m2 := with_core (set_pc (_catch tc) (core m1)) m1 in
      m3 ← foldM catch_argument (seq 0 (Z.to_nat (num_args tc))) m2;
      Ret (with_core (set_state VM_STATE_RUN (core m3)) m3)
  end.

Definition vm_push_tcblock (block : pk_tcblock) (m : machine) : machine :=
  with_tcs (mkTc (u64 (start block)) (u64 (cblock block - 1)) (u64 (cblock block)) (pk_num_args block) (sp (core m)) :: tcs m) m.

Definition vm_locate_tcblock (m : machine) : machine :=
  let m1 := foldl (λ m b, if decide (CPkg (codebase b) = base_address (core m)) then
                            if pc (core m) =? start b then vm_push_tcblock b m else m
                          else m) m info in
  match tcs m1 with
  | tc :: rest => if _end tc <=? pc (core m1) then with_tcs rest m1 else m1
  | [] => m1
  end.

(** ** The collector, as Gc justifies it: dead objects go *)
Definition kept (m : machine) (o : nat) : bool :=
  match refs (core m) !! o with Some r => negb (dead r) || spared (texts m) o | None => true end.

Definition vm_garbage_collect (m : machine) : machine :=
  mkMach (set_refs (filter (λ x, kept m x.1 = true) (refs (core m))) (core m))
    (filter (λ x, kept m x.1 = true) (texts m)) (tcs m).

(** ** One turn of the loop *)
Definition turn (fuel : nat) (m : machine) : res machine :=
  ibuf ← vm_fetch (pc (core m)) 4 m;
  m1 ← dispatch fuel ibuf m;
  let m2 := with_core (vmd_check (core m1)) m1 in
  m3 ← (if vm_state (core m2) =? VM_STATE_EXCEPTION then handle fuel m2 else Ret (vm_locate_tcblock m2));
  let m4 := vm_garbage_collect m3 in
  Ret (if pc (core m4) =? 0xFFFF then with_core (set_state VM_STATE_INIT (core m4)) m4 else m4).

Definition decode_step (fuel : nat) (m : machine) : res (machine + machine) :=
  if vm_state (core m) =? VM_STATE_RUN then m' ← turn fuel m; Ret (inl m') else Ret (inr m).

(** what comes before the loop: the arguments, and a return address that ends
    the run *)
Definition enter (args : list nat) (m : machine) : res machine :=
  m1 ← foldM (λ o m, lift (vm_push_stack (CObj o)) m) args m;
  m2 ← lift (λ s, s1 ← vm_push_base CNull s; vm_push_base (CWord 0xFFFF) s1) m1;
  Ret (if vm_state (core m2) =? VM_STATE_EXCEPTION then m2 else with_core (set_state VM_STATE_RUN (core m2)) m2).

Definition vm_decode (turns fuel : nat) (args : list nat) (m : machine) : res machine :=
  m1 ← enter args m; loop turns (decode_step fuel) m1.

End machine.
