(* ===== verification/MachineSafe.v ===== *)
(** * Memory safety of the machine

    The counter of an object counts the cells of the stack that hold it. A turn
    of the loop keeps the counters at least as large as the number of cells, so
    the collector never frees an object that a cell holds. Inside a turn a
    counter may be ahead of or behind the cells: the difference is the credit
    of the object. *)
From S2P Require Import Prelude Isa Streamer Linker L1 Vm Gc Decimal Text Machine.

(** ** Cells *)
Definition slots : list nat := seq 0 (Z.to_nat VM_MAX_STACK_SIZE).

(** the number of cells that hold [o] *)
Definition cells (s : vm) (o : nat) : Z := Z.of_nat (length (filter (λ i, sget s (Z.of_nat i) = CObj o) slots)).

Lemma filter_length_update `{EqDecision A} (P Q : A → Prop) `{∀ x, Decision (P x)} `{∀ x, Decision (Q x)} (l : list A) (i : A) :
  NoDup l → i ∈ l → (∀ j, j ≠ i → P j ↔ Q j) →
  (length (filter Q l) + (if decide (P i) then 1 else 0) = length (filter P l) + if decide (Q i) then 1 else 0)%nat.
Proof.
  intros Hn Hi Hpq. induction Hn as [|x l Hx Hn IH]; [by apply not_elem_of_nil in Hi|].
  destruct (decide (x = i)) as [->|Hne].
  - assert (E : filter P l = filter Q l).
    { clear IH Hi Hn. induction l as [|y l IH]; [done|]. apply not_elem_of_cons in Hx as [Hy Hx].
      rewrite !filter_cons. rewrite (IH Hx). destruct (decide (P y)), (decide (Q y)); try done; exfalso; naive_solver. }
    rewrite !filter_cons, E. repeat case_decide; cbn; lia.
  - apply elem_of_cons in Hi as [->|Hi]; [done|]. specialize (IH Hi). rewrite !filter_cons.
    pose proof (Hpq x Hne). destruct (decide (P x)), (decide (Q x)); cbn [length]; try lia; exfalso; naive_solver.
Qed.

Lemma slots_elem i : i ∈ slots ↔ 0 ≤ Z.of_nat i < VM_MAX_STACK_SIZE.
Proof. unfold slots. rewrite elem_of_seq. unfold VM_MAX_STACK_SIZE. lia. Qed.

Lemma cells_nonneg s o : 0 ≤ cells s o.
Proof. unfold cells. lia. Qed.

Lemma cells_wr s i c s' o :
  wr_stack i c s = Ret s' → cells s' o = cells s o - delta 1 (sget s i) o + delta 1 c o.
Proof.
  intros H. apply wr_stack_inv in H as [Hi ->]. unfold cells, delta.
  assert (Hs : Z.to_nat i ∈ slots) by (apply slots_elem; lia).
  pose proof (filter_length_update (λ j : nat, sget s (Z.of_nat j) = CObj o)
    (λ j : nat, sget (set_stacks (<[i := c]> (stacks s)) s) (Z.of_nat j) = CObj o) slots (Z.to_nat i)
    (NoDup_seq _ _) Hs) as H.
  assert (Hpq : ∀ j : nat, j ≠ Z.to_nat i → sget s (Z.of_nat j) = CObj o ↔ sget (set_stacks (<[i := c]> (stacks s)) s) (Z.of_nat j) = CObj o).
  { intros j Hj. rewrite sget_wr, decide_False by lia. done. }
  specialize (H Hpq). cbn beta in H. rewrite sget_wr, Z2Nat.id, (decide_True _ _ (eq_refl i)) in H by lia.
  repeat case_decide; lia.
Qed.

Lemma cells_pos s i o : 0 ≤ i < VM_MAX_STACK_SIZE → sget s i = CObj o → 1 ≤ cells s o.
Proof.
  intros Hi Ho. unfold cells. assert (H : Z.to_nat i ∈ filter (λ j, sget s (Z.of_nat j) = CObj o) slots).
  { apply list_elem_of_filter. rewrite Z2Nat.id by lia. split; [done|]. apply slots_elem. lia. }
  destruct (filter _ slots); [by apply not_elem_of_nil in H|]. cbn. lia.
Qed.

Lemma cells_zero s o : cells s o = 0 → ∀ i, 0 ≤ i < VM_MAX_STACK_SIZE → sget s i ≠ CObj o.
Proof. intros H i Hi Ho. pose proof (cells_pos s i o Hi Ho). lia. Qed.

Lemma cells_holds s o : 1 ≤ cells s o → ∃ i, 0 ≤ i < VM_MAX_STACK_SIZE ∧ sget s i = CObj o.
Proof.
  unfold cells. intros H. destruct (filter _ slots) as [|j l] eqn:E; [cbn in H; lia|].
  assert (Hj : j ∈ filter (λ j, sget s (Z.of_nat j) = CObj o) slots) by (rewrite E; by constructor).
  apply list_elem_of_filter in Hj as [Hj Hs]. apply slots_elem in Hs. by exists (Z.of_nat j).
Qed.

(** ** The invariant *)
Record mem_inv (e : nat → Z) (top : Z) (s : vm) (T : gmap nat (list Z)) : Prop := {
  mi_dom : ∀ o, is_Some (refs s !! o) ↔ is_Some (T !! o);
  mi_cells : ∀ o, 1 ≤ cells s o → is_Some (refs s !! o);
  mi_count : ∀ o r, refs s !! o = Some r → VM_MAGIC ≤ r ≤ top ∧ VM_MAGIC + cells s o + e o ≤ r
}.

Definition mem_ok (m : machine) : Prop := mem_inv (λ _, 0) 0x8F (core m) (texts m).

(** the invariant as a check that can be run *)
Definition mem_check (m : machine) : bool :=
  bool_decide (dom (refs (core m)) = dom (texts m)) &&
  forallb (λ i, match sget (core m) (Z.of_nat i) with CObj o => bool_decide (is_Some (refs (core m) !! o)) | _ => true end) slots &&
  forallb (λ x : nat * Z, (VM_MAGIC + cells (core m) x.1 <=? x.2) && (x.2 <=? 0x8F)) (map_to_list (refs (core m))).

(** every counter can take one more reference *)
Definition roomy (m : machine) : Prop := map_Forall (λ _ r, r < 0x8F) (refs (core m)).

Lemma mem_inv_weaken e e' top top' s T :
  mem_inv e top s T → (∀ o, e' o ≤ e o) → top ≤ top' → mem_inv e' top' s T.
Proof. intros [Hd Hc Hn] He Ht. constructor; [done|done|]. intros o r Hr. specialize (He o). destruct (Hn o r Hr). lia. Qed.

(** only stacks and counters matter *)
Lemma mem_inv_eq e top s s' T : mem_inv e top s T → stacks s' = stacks s → refs s' = refs s → mem_inv e top s' T.
Proof.
  intros [Hd Hc Hn] Es Er. assert (Ec : ∀ o, cells s' o = cells s o) by (intros o; unfold cells, sget; by rewrite Es).
  constructor; intros o; rewrite Er; [done|rewrite Ec; apply Hc|]. intros r Hr. rewrite Ec. by apply Hn.
Qed.

Lemma mem_wr e top s T i c s' :
  mem_inv e top s T → wr_stack i c s = Ret s' → (∀ o, c = CObj o → is_Some (refs s !! o)) →
  mem_inv (λ o, e o + delta 1 (sget s i) o - delta 1 c o) top s' T.
Proof.
  intros [Hd Hc Hn] H Hv.
  assert (Er : refs s' = refs s) by (by apply wr_stack_inv in H as [_ ->]).
  constructor; rewrite Er; [done| |].
  - intros o Ho. rewrite (cells_wr _ _ _ _ _ H) in Ho. unfold delta in Ho. destruct (decide (c = CObj o)); [by apply Hv|].
    apply Hc. case_decide; lia.
  - intros o r Hr. rewrite (cells_wr _ _ _ _ _ H). destruct (Hn o r Hr). lia.
Qed.

Lemma mem_add_ref e top top' s T d c s' :
  mem_inv e top s T → add_ref d c s = Ret s' →
  (∀ o r, c = CObj o → refs s !! o = Some r → VM_MAGIC ≤ r + d ≤ top') → top ≤ top' ≤ 0x8F →
  mem_inv (λ o, e o + delta d c o) top' s' T ∧ s' = set_refs (refs s') s.
Proof.
  intros Hi H Hb Ht. destruct c as [|o| |]; cbn in H; try done.
  - injection H as <-. split; [|by destruct s]. eapply mem_inv_weaken; [exact Hi| |lia]. intros o. unfold delta. case_decide; [done|lia].
  - destruct (refs s !! o) as [r|] eqn:E; [|done]. injection H as <-. split; [|done]. destruct (Hb o r eq_refl E).
    assert (Eu : u8 (r + d) = r + d) by (apply u8_id; unfold is_byte, VM_MAGIC in *; lia). rewrite Eu.
    destruct Hi as [Hd Hc Hn]. constructor.
    + intros o'. cbn. rewrite lookup_insert_is_Some, <-Hd. split; [intros [<-|[_ ?]]; [rewrite E; by eexists|done]|].
      intros ?. destruct (decide (o = o')); [by left|by right].
    + intros o' Ho. cbn. rewrite lookup_insert_is_Some. destruct (decide (o = o')); [by left|]. right. split; [done|]. by apply Hc.
    + intros o' r'. cbn. rewrite lookup_insert_Some. unfold delta. intros [[<- <-]|[Hne Hr]].
      * destruct (Hn o r E). change (cells (set_refs _ s) o) with (cells s o). case_decide; [|done]. lia.
      * destruct (Hn o' r' Hr). change (cells (set_refs _ s) o') with (cells s o'). case_decide; [congruence|]. lia.
Qed.

(** ** Operations of Vm *)
Lemma mem_push_stack e top s T c s' :
  mem_inv e top s T → vm_push_stack c s = Ret s' → (∀ o, c = CObj o → is_Some (refs s !! o)) →
  mem_inv (λ o, e o - delta 1 c o) top s' T ∧ refs s' = refs s.
Proof.
  intros Hi H Hv. unfold vm_push_stack in H. res_inv H. injection H as <-.
  split; [|by apply wr_stack_inv in E as [_ ->]].
  pose proof (mem_wr _ _ _ _ _ _ _ Hi E Hv) as Hw.
  eapply (mem_inv_eq _ _ a); [|done..]. eapply mem_inv_weaken; [exact Hw| |lia]. intros o. cbn beta. unfold delta. repeat case_decide; lia.
Qed.

Lemma mem_push_base e top s T c s' :
  mem_inv e top s T → vm_push_base c s = Ret s' → (∀ o, c = CObj o → is_Some (refs s !! o)) →
  mem_inv (λ o, e o - delta 1 c o) top s' T ∧ refs s' = refs s.
Proof.
  intros Hi H Hv. unfold vm_push_base in H. res_inv H. injection H as <-.
  split; [|by apply wr_stack_inv in E as [_ ->]].
  pose proof (mem_wr _ _ _ _ _ _ _ Hi E Hv) as Hw.
  eapply (mem_inv_eq _ _ a); [|done..]. eapply mem_inv_weaken; [exact Hw| |lia]. intros o. cbn beta. unfold delta. repeat case_decide; lia.
Qed.

(** a cell that holds an object gives it a count above zero *)
Lemma mem_cell e top s T i o r :
  mem_inv e top s T → 0 ≤ i < VM_MAX_STACK_SIZE → sget s i = CObj o → refs s !! o = Some r → VM_MAGIC + 1 + e o ≤ r ≤ top.
Proof. intros [_ _ Hn] Hi Ho Hr. pose proof (cells_pos s i o Hi Ho). destruct (Hn o r Hr). lia. Qed.

Lemma mem_pop_arc e top s T r :
  mem_inv e top s T → (∀ o, 0 ≤ e o) → top ≤ 0x8F → vm_pop_stack_arc s = Ret r →
  mem_inv e top r.2 T ∧ (∀ o, r.1 = CObj o → is_Some (refs r.2 !! o)) ∧
  (∀ o, r.1 = CObj o → ∃ n, refs s !! o = Some n ∧ refs r.2 !! o = Some (n - 1)).
Proof.
  intros Hi He Ht H. unfold vm_pop_stack_arc in H. set (s1 := set_sp (sp s + 1) s) in *. res_inv H.
  apply rd_stack_inv in E as [Hr ->]. rewrite (proj2 (Z.leb_gt _ _)) in H by lia.
  res_inv H. res_inv H. injection H as <-. cbn [fst snd]. rename a into s2, a0 into s3.
  assert (Hi1 : mem_inv e top s1 T) by (by eapply mem_inv_eq).
  destruct (mem_add_ref _ _ top _ _ _ _ _ Hi1 E) as [Hi2 Es2]; [|lia|].
  { intros o n Ho Hn. destruct (mem_cell _ _ _ _ _ _ _ Hi1 Hr Ho Hn). specialize (He o). lia. }
  assert (Hsp : sp s2 = sp s1) by (by rewrite Es2). assert (Hg : sget s2 (sp s2) = sget s1 (sp s1)) by (by rewrite Es2).
  pose proof (mem_wr _ _ _ _ _ _ _ Hi2 E0) as Hi3. specialize (Hi3 ltac:(done)).
  assert (Er : refs s3 = refs s2) by (by apply wr_stack_inv in E0 as [_ ->]).
  split; [|rewrite Er].
  - eapply mem_inv_weaken; [exact Hi3| |lia]. intros o. cbn beta. rewrite Hg. unfold delta. repeat case_decide; first [done|lia].
  - assert (Hx : ∀ o, sget s1 (sp s1) = CObj o → ∃ n, refs s !! o = Some n ∧ refs s2 !! o = Some (n - 1)).
    { intros o Ho. rewrite Ho in E. cbn in E. destruct (refs s !! o) as [n|] eqn:En; [|done]. injection E as E. exists n. split; [done|].
      rewrite <-E. cbn. rewrite lookup_insert, decide_True by done. f_equal.
      destruct (mem_cell _ _ _ _ _ _ _ Hi1 Hr Ho En). specialize (He o). rewrite u8_id; [lia|]. unfold is_byte, VM_MAGIC in *. lia. }
    split; [|done]. intros o Ho. destruct (Hx o Ho) as (n & _ & ->). by eexists.
Qed.

(** ** Operations of Machine *)
Definition minv (e : nat → Z) (top : Z) (m : machine) : Prop := mem_inv e top (core m) (texts m).

Abbreviation no_credit := (λ _ : nat, 0).

Lemma minv_weaken e e' top top' m : minv e top m → (∀ o, e' o ≤ e o) → top ≤ top' → minv e' top' m.
Proof. apply mem_inv_weaken. Qed.

Lemma minv_add_pc e top n m : minv e top m → minv e top (add_pc n m).
Proof. intros H. by eapply mem_inv_eq. Qed.

Lemma minv_invoke e top x m : minv e top m → minv e top (invoke x m).
Proof. intros H. by eapply mem_inv_eq. Qed.

Lemma minv_pop e top m r :
  minv e top m → (∀ o, 0 ≤ e o) → top ≤ 0x8F → pop_arc m = Ret r → minv e top r.2.
Proof.
  intros Hi He Ht H. unfold pop_arc in H. res_inv H. injection H as <-. by apply (mem_pop_arc _ _ _ _ _ Hi He Ht E).
Qed.

Lemma minv_pop_drop e top m m' :
  minv e top m → (∀ o, 0 ≤ e o) → top ≤ 0x8F → pop_drop m = Ret m' → minv e top m'.
Proof. intros Hi He Ht H. unfold pop_drop in H. res_inv H. injection H as <-. by eapply minv_pop. Qed.

Section safe.
Context (image : nat → Z → option Z) (info : list pk_tcblock)
  (api : Z → option (list (list Z) → res (option Z * option (list Z))))
  (full : gmap nat (list Z) → Z → bool) (spared : gmap nat (list Z) → nat → bool).

(** a new object comes with one credit *)
Lemma minv_create top b m r :
  minv no_credit top m → 0x81 ≤ top → vm_create_object full b m = Ret r →
  minv (delta 1 (CObj r.1)) top r.2 ∧ refs (core m) !! r.1 = None ∧
  core r.2 = set_refs (<[r.1 := 0x81]> (refs (core m))) (core m).
Proof.
  intros [Hd Hc Hn] Ht H. unfold vm_create_object in H. res_inv H. injection H as <-. cbn [fst snd core texts].
  set (o := fresh (dom (refs (core m)))). assert (Hf : refs (core m) !! o = None) by (apply not_elem_of_dom, is_fresh).
  split; [|split; [done|reflexivity]]. constructor; cbn [core texts refs set_refs].
  - intros o'. rewrite !lookup_insert_is_Some. by rewrite Hd.
  - intros o' Ho. rewrite lookup_insert_is_Some. destruct (decide (o = o')); [by left|]. right. split; [done|]. by apply Hc.
  - intros o' n. rewrite lookup_insert_Some. intros [[<- <-]|[Hne Hr]].
    + change (cells (set_refs _ _) o) with (cells (core m) o).
      pose proof (cells_nonneg (core m) o). destruct (decide (1 ≤ cells (core m) o)) as [H1|H1].
      * destruct (Hc o H1) as [? Hx]. rewrite Hf in Hx. done.
      * change (Z.lor VM_MAGIC 1) with 0x81. unfold delta. rewrite decide_True by done. change (Z.lor VM_MAGIC 1) with 0x81. unfold VM_MAGIC. lia.
    + unfold delta. rewrite decide_False by congruence. apply (Hn o' n Hr).
Qed.

Lemma minv_push e top c m m' :
  minv e top m → lift (vm_push_stack c) m = Ret m' → (∀ o, c = CObj o → is_Some (refs (core m) !! o)) →
  minv (λ o, e o - delta 1 c o) top m' ∧ refs (core m') = refs (core m).
Proof. intros Hi H Hv. unfold lift in H. res_inv H. injection H as <-. by apply (mem_push_stack _ _ _ _ _ _ Hi E Hv). Qed.

Lemma minv_push_new top b m m' : minv no_credit top m → 0x81 ≤ top → push_new full b m = Ret m' → minv no_credit top m'.
Proof.
  intros Hi Ht H. unfold push_new in H. res_inv H. destruct (minv_create _ _ _ _ Hi Ht E) as (Hi1 & _ & Er).
  assert (Hv : ∀ o, CObj a.1 = CObj o → is_Some (refs (core a.2) !! o)).
  { intros o [= <-]. rewrite Er. cbn. rewrite lookup_insert, decide_True by done. by eexists. }
  destruct (minv_push _ _ _ _ _ Hi1 H Hv) as [Hi2 _]. eapply minv_weaken; [exact Hi2| |lia]. intros o. cbn beta. lia.
Qed.

(** a constant comes with counter zero, behind the other objects *)
Lemma minv_load_constant top off m r :
  minv no_credit top m → 0x81 ≤ top ≤ 0x8F → vm_load_constant image full off m = Ret r →
  minv no_credit top r.2 ∧ refs (core m) !! r.1 = None ∧ refs (core r.2) = <[r.1 := 0x80]> (refs (core m)).
Proof.
  intros Hi Ht H. unfold vm_load_constant in H. res_inv H. res_inv H. destruct (_ <? _); [done|]. res_inv H. res_inv H. res_inv H. res_inv H.
  injection H as <-. cbn [fst snd]. destruct (minv_create _ _ _ _ Hi (proj1 Ht) E3) as (Hi1 & Hf & Er).
  unfold lift in E4. res_inv E4. injection E4 as <-.
  destruct (mem_add_ref _ _ top _ _ _ _ _ Hi1 E5) as [Hi2 Es]; [|lia|].
  { intros o n [= <-]. rewrite Er. cbn. rewrite lookup_insert, decide_True by done. intros [= <-]. unfold VM_MAGIC. lia. }
  split; [|split; [done|]].
  - eapply mem_inv_weaken; [exact Hi2| |lia]. intros o. cbn beta. unfold delta. case_decide; lia.
  - cbn [core with_core]. cbn in E5. rewrite Er in E5. cbn in E5. rewrite lookup_insert, decide_True in E5 by done.
    injection E5 as <-. cbn. by rewrite insert_insert_eq.
Qed.

Lemma minv_release top o m :
  minv no_credit top m → refs (core m) !! o = Some 0x80 → minv no_credit top (vm_release_object (CObj o) m).
Proof.
  intros [Hd Hc Hn] Ho. destruct (Hn o _ Ho) as [_ H0]. pose proof (cells_nonneg (core m) o). unfold VM_MAGIC in H0.
  constructor; cbn [vm_release_object core texts refs set_refs].
  - intros o'. rewrite !lookup_delete_is_Some. by rewrite Hd.
  - intros o' Hc'. rewrite lookup_delete_is_Some. change (cells (set_refs _ _) o') with (cells (core m) o') in Hc'.
    split; [intros <-; lia|by apply Hc].
  - intros o' n. rewrite lookup_delete_Some. intros [_ Hr]. apply (Hn o' n Hr).
Qed.

(** ** The instructions *)
Section instructions.
Context (top : Z) (Htop : 0x81 ≤ top ≤ 0x8F).

Lemma minv_lift e n f m m' :
  lift f m = Ret m' → (∀ s', f (core m) = Ret s' → mem_inv e n s' (texts m)) → minv e n m'.
Proof. intros H Hf. unfold lift in H. res_inv H. injection H as <-. by apply Hf. Qed.

Lemma mem_store e n s T i obj s' :
  mem_inv e n s T → (∀ o, e o = 0) → n ≤ 0x8F → vmd_store_variable i obj s = Ret s' →
  (∀ o r, obj = CObj o → refs s !! o = Some r → r < 0x8F) → mem_inv no_credit 0x8F s' T.
Proof.
  intros Hi He Ht H Hr. unfold vmd_store_variable in H. res_inv H. res_inv H. injection H as <-. rename a into op1, a0 into s1.
  assert (Hw : mem_inv no_credit 0x8F s T) by (eapply mem_inv_weaken; [exact Hi|intros o; rewrite He; done|done]).
  assert (Hs : mem_inv no_credit 0x8F s1 T); [|by eapply mem_inv_eq].
  destruct (decide (op1 = obj)) as [|Hne]; [by injection E0 as <-|].
  apply rd_stack_inv in E as [Hb ->]. res_inv E0. rename a into s2. res_inv E0. rename a into s3.
  destruct (mem_add_ref _ _ 0x8F _ _ _ _ _ Hw E) as [H2 E2]; [|lia|].
  { intros o r Ho Hor. destruct (mem_cell _ _ _ _ _ _ _ Hw Hb Ho Hor). lia. }
  assert (Hrefs : ∀ o r, obj = CObj o → refs s2 !! o = Some r → refs s !! o = Some r).
  { intros o r -> Hor. destruct (sget s (bp s - i)) as [|o'| |] eqn:Eo; cbn in E; try done; [by injection E as <-|].
    destruct (refs s !! o') as [x|]; [|done]. injection E as <-. cbn in Hor. rewrite lookup_insert, decide_False in Hor by congruence. done. }
  assert (Hv : ∀ o, obj = CObj o → is_Some (refs s2 !! o)).
  { intros o ->. cbn in E0. assert (Er : refs s3 = refs s2) by (by apply wr_stack_inv in E1 as [_ ->]).
    rewrite Er in E0. destruct (refs s2 !! o); [by eexists|done]. }
  unfold vm_set_base in E1. pose proof (mem_wr _ _ _ _ _ _ _ H2 E1 Hv) as H3.
  assert (Er : refs s3 = refs s2) by (by apply wr_stack_inv in E1 as [_ ->]).
  destruct (mem_add_ref _ _ 0x8F _ _ _ _ _ H3 E0) as [H4 E4]; [|lia|].
  { intros o r Ho Hor. rewrite Er in Hor. specialize (Hr o r Ho (Hrefs o r Ho Hor)).
    destruct (mi_count _ _ _ _ Hi o r (Hrefs o r Ho Hor)). lia. }
  eapply mem_inv_weaken; [exact H4| |done]. intros o. cbn beta.
  assert (Eg : sget s2 (bp s2 - i) = sget s (bp s - i)) by (by rewrite E2). rewrite Eg. unfold delta. repeat case_decide; lia.
Qed.

Lemma mem_objpush x s T s' : top < 0x8F → mem_inv no_credit top s T → vmd_objpush x s = Ret s' → mem_inv no_credit (top + 1) s' T.
Proof.
  intros Htop' Hi H. unfold vmd_objpush in H. res_inv H. res_inv H. res_inv H. injection H as <-. rename a into obj, a0 into s1, a1 into s2.
  destruct (mem_add_ref _ _ (top + 1) _ _ _ _ _ Hi E0) as [H1 E1']; [|lia|].
  { intros o r _ Hor. destruct (mi_count _ _ _ _ Hi o r Hor). lia. }
  assert (Hv : ∀ o, obj = CObj o → is_Some (refs s1 !! o)).
  { intros o ->. cbn in E0. destruct (refs s !! o); [|done]. injection E0 as <-. cbn. rewrite lookup_insert, decide_True by done. by eexists. }
  destruct (mem_push_stack _ _ _ _ _ _ H1 E1 Hv) as [H2 _].
  eapply (mem_inv_eq _ _ s2); [|done..]. eapply mem_inv_weaken; [exact H2| |done]. intros o. cbn beta. lia.
Qed.

Lemma mem_objdup s T s' : top < 0x8F → mem_inv no_credit top s T → vmd_objdup s = Ret s' → mem_inv no_credit 0x8F s' T.
Proof.
  intros Htop' Hi H. unfold vmd_objdup, vm_push_stack_arc in H. res_inv H. res_inv H. injection H as <-. rename a into obj, a0 into s2.
  res_inv E0. rename a into s1. apply rd_stack_inv in E as [Hb ->].
  assert (Hv : ∀ o, sget s (sp s + 1) = CObj o → is_Some (refs s !! o)) by (intros o Ho; apply (mi_cells _ _ _ _ Hi); by eapply cells_pos).
  destruct (mem_push_stack _ _ _ _ _ _ Hi E1 Hv) as [H1 Er].
  destruct (mem_add_ref _ _ 0x8F _ _ _ _ _ H1 E0) as [H2 _]; [|lia|].
  { intros o r _ Hor. rewrite Er in Hor. destruct (mi_count _ _ _ _ Hi o r Hor). lia. }
  eapply (mem_inv_eq _ _ s2); [|done..]. eapply mem_inv_weaken; [exact H2| |done]. intros o. cbn beta. lia.
Qed.

Lemma mem_objstore x s T s' : top < 0x8F → mem_inv no_credit top s T → vmd_objstore x s = Ret s' → mem_inv no_credit 0x8F s' T.
Proof.
  intros Htop' Hi H. unfold vmd_objstore in H. res_inv H. eapply (mem_store _ _ _ _ _ _ _ Hi); [done|lia|exact H|].
  intros o r _ Hr. destruct (mi_count _ _ _ _ Hi o r Hr). lia.
Qed.

Lemma mem_objpop x s T s' : top < 0x8F → mem_inv no_credit top s T → vmd_objpop x s = Ret s' → mem_inv no_credit 0x8F s' T.
Proof.
  intros Htop' Hi H. unfold vmd_objpop in H. res_inv H. destruct (mem_pop_arc _ _ _ _ _ Hi ltac:(done) ltac:(lia) E) as (H1 & _).
  eapply (mem_store _ _ _ _ _ _ _ H1); [done|lia|exact H|]. intros o r _ Hr. destruct (mi_count _ _ _ _ H1 o r Hr). lia.
Qed.

Lemma mem_call w s T s' : mem_inv no_credit top s T → (∃ p, base_address s = CPkg p) → vmd_call w s = Ret s' → mem_inv no_credit top s' T.
Proof.
  intros Hi [p Hp] H. unfold vmd_call in H. rewrite Hp in H. res_inv H. res_inv H. injection H as <-.
  destruct (mem_push_base _ _ _ _ _ _ Hi E ltac:(done)) as [H1 _]. destruct (mem_push_base _ _ _ _ _ _ H1 E0 ltac:(done)) as [H2 _].
  eapply (mem_inv_eq _ _ a0); [|done..]. eapply mem_inv_weaken; [exact H2| |done]. intros o. cbn beta. unfold delta. rewrite !decide_False by done. lia.
Qed.

Lemma mem_ret s T s' : mem_inv no_credit top s T → vmd_ret s = Ret s' → mem_inv no_credit top s' T.
Proof.
  intros Hi H. unfold vmd_ret, vm_pop_base in H. res_inv H. res_inv E. injection E as <-. cbn [fst snd] in H.
  destruct a0; try done; res_inv H; res_inv E; injection E as <-; injection H as <-; (eapply mem_inv_eq; [exact Hi|done..]).
Qed.

Lemma times_inv {A} (P : A → Prop) (f : A → res A) n a b :
  (∀ x y, P x → f x = Ret y → P y) → P a → times n f a = Ret b → P b.
Proof.
  intros Hf. revert a. induction n as [|n IH]; intros a Ha H; cbn in H; [by injection H as <-|]. res_inv H. eauto.
Qed.

Lemma foldM_keep {A B} (P : A → Prop) (f : B → A → res A) l a b :
  (∀ k x y, P x → f k x = Ret y → P y) → P a → foldM f l a = Ret b → P b.
Proof.
  intros Hf. revert a. induction l as [|k l IH]; intros a Ha H; cbn in H; [by injection H as <-|]. res_inv H. eauto.
Qed.

Lemma minv_switch_step obj tbl o psw m y :
  minv no_credit top m → refs (core m) !! o = Some 0x80 → switch_step image full obj tbl (psw, m) = Ret y →
  let m' := match y with inl x => x.2 | inr x => x.2 end in minv no_credit top m' ∧ refs (core m') !! o = Some 0x80.
Proof.
  intros Hi Ho H. unfold switch_step in H. destruct (psw <? _); [|res_inv H; by injection H as <-].
  res_inv H. res_inv H. destruct a0 as [op2 m1]. res_inv H. res_inv H.
  destruct (minv_load_constant _ _ _ _ Hi ltac:(lia) E0) as (H1 & Hf & Er). cbn [fst snd] in *.
  assert (H2 : minv no_credit top (vm_release_object (CObj op2) m1)) by (apply minv_release; [done|by rewrite Er, lookup_insert, decide_True]).
  assert (Ho2 : refs (core (vm_release_object (CObj op2) m1)) !! o = Some 0x80).
  { assert (op2 ≠ o) by congruence. cbn. by rewrite lookup_delete_ne, Er, lookup_insert_ne. }
  destruct (a1 =? VM_CMP_EQ); [res_inv H|]; injection H as <-; done.
Qed.

Lemma minv_switch fuel w m m' : minv no_credit top m → vmd_switch image full fuel w m = Ret m' → minv no_credit top m'.
Proof.
  intros Hi H. unfold vmd_switch in H. res_inv H. res_inv H. res_inv H. destruct a1 as [op1 m1]. res_inv H. res_inv H. injection H as <-.
  assert (H0 := minv_pop _ _ _ _ Hi ltac:(done) ltac:(lia) E).
  destruct (minv_load_constant _ _ _ _ H0 ltac:(lia) E1) as (H1 & Hf & Er). cbn [fst snd] in *.
  assert (Hx : minv no_credit top a2.2 ∧ refs (core a2.2) !! op1 = Some 0x80).
  { set (P := λ x : Z * machine, minv no_credit top x.2 ∧ refs (core x.2) !! op1 = Some 0x80).
    assert (Hs : ∀ x y, P x → switch_step image full a0 a1 x = Ret (inl y) → P y).
    { intros [p x] y [Hx1 Hx2] Hy. exact (minv_switch_step _ _ _ _ _ _ Hx1 Hx2 Hy). }
    assert (Hp : P (2, m1)) by (split; [done|]; cbn [snd]; by rewrite Er, lookup_insert, decide_True).
    destruct (loop_inv _ P Hs _ _ _ Hp E3) as ([p x] & [Hx1 Hx2] & Hy). exact (minv_switch_step _ _ _ _ _ _ Hx1 Hx2 Hy). }
  destruct Hx as [Hx1 Hx2]. assert (H2 := minv_release _ _ _ Hx1 Hx2). by eapply mem_inv_eq.
Qed.

(** [INS_OBJDEL] frees an object that the cell on top alone refers to *)
Definition unshared_top (m : machine) : Prop :=
  ∀ o, sget (core m) (u16 (sp (core m) + 1)) = CObj o → refs (core m) !! o = Some 0x81.

Lemma pop_arc_top s r : vm_pop_stack_arc s = Ret r → r.1 = sget s (u16 (sp s + 1)).
Proof.
  unfold vm_pop_stack_arc. intros H. res_inv H. apply rd_stack_inv in E as [Hr ->]. rewrite (proj2 (Z.leb_gt _ _)) in H by lia.
  res_inv H. res_inv H. by injection H as <-.
Qed.

Lemma minv_objdel m m' : minv no_credit top m → unshared_top m → vmd_objdel m = Ret m' → minv no_credit top m'.
Proof.
  intros Hi Hu H. unfold vmd_objdel, pop_arc in H. res_inv H. res_inv E. injection E as <-. injection H as <-. cbn [fst snd].
  destruct (mem_pop_arc _ _ _ _ _ Hi ltac:(done) ltac:(lia) E0) as (H1 & _ & Hc). rewrite (pop_arc_top _ _ E0) in *. apply minv_add_pc.
  destruct (sget _ _) as [|o| |] eqn:Eo; [done| |done|done]. apply minv_release; [done|].
  destruct (Hc o eq_refl) as (n & Hn & Hn'). rewrite (Hu o Eo) in Hn. injection Hn as <-. exact Hn'.
Qed.

Lemma minv_push_result r m m' : minv no_credit top m → push_result full r m = Ret m' → minv no_credit top m'.
Proof.
  intros Hi H. unfold push_result in H. res_inv H. injection H as <-. apply minv_add_pc.
  eapply minv_push_new; [|lia|exact E]. destruct r.1; [by apply minv_invoke|done].
Qed.

Ltac pops := repeat match goal with
  | Hi : minv no_credit top ?m, H : pop_arc ?m = Ret ?r |- _ =>
      pose proof (minv_pop _ _ _ _ Hi ltac:(done) ltac:(lia) H); clear H
  end.

Lemma minv_objsub m m' : minv no_credit top m → vmd_objsub full m = Ret m' → minv no_credit top m'.
Proof. intros Hi H. unfold vmd_objsub in H. repeat res_inv H. pops. injection H as <-. apply minv_add_pc. eapply minv_push_new; [eassumption|lia|eassumption]. Qed.

Lemma minv_objsz m m' : minv no_credit top m → vmd_objsz full m = Ret m' → minv no_credit top m'.
Proof. intros Hi H. unfold vmd_objsz in H. repeat res_inv H. pops. injection H as <-. apply minv_add_pc. eapply minv_push_new; [eassumption|lia|eassumption]. Qed.

Lemma minv_not m m' : minv no_credit top m → vmd_not full m = Ret m' → minv no_credit top m'.
Proof. intros Hi H. unfold vmd_not in H. repeat res_inv H. pops. by eapply minv_push_result. Qed.

Lemma minv_operation op m m' : minv no_credit top m → vmd_operation full op m = Ret m' → minv no_credit top m'.
Proof. intros Hi H. unfold vmd_operation in H. repeat res_inv H. pops. by eapply minv_push_result. Qed.

Lemma minv_compare op m m' : minv no_credit top m → vmd_compare full op m = Ret m' → minv no_credit top m'.
Proof. intros Hi H. unfold vmd_compare in H. repeat res_inv H. pops. by eapply minv_push_result. Qed.

Lemma minv_jfalse w m m' : minv no_credit top m → vmd_jfalse w m = Ret m' → minv no_credit top m'.
Proof. intros Hi H. unfold vmd_jfalse in H. repeat res_inv H. pops. injection H as <-. by apply minv_add_pc. Qed.

(** the returned object comes with the credit of the cell it is pushed to *)
Lemma minv_vm_syscall n x m r :
  minv no_credit top m → vm_syscall api full n x m = Ret r →
  match r.1 with
  | Some o => minv (delta 1 (CObj o)) top r.2 ∧ is_Some (refs (core r.2) !! o)
  | None => minv no_credit top r.2
  end.
Proof.
  intros Hi H. unfold vm_syscall in H. destruct (api x) as [entry|]; [|injection H as <-; by apply minv_invoke].
  res_inv H. res_inv H. res_inv H. destruct (minv_create _ _ _ _ Hi ltac:(lia) E) as (H1 & _ & Er).
  assert (H2 : minv (delta 1 (CObj a.1)) top (match a1.1 with Some excp => invoke excp a.2 | None => a.2 end)).
  { destruct a1.1; [by apply minv_invoke|done]. }
  assert (Hr : refs (core (match a1.1 with Some excp => invoke excp a.2 | None => a.2 end)) = refs (core a.2)) by (by destruct a1.1).
  destruct a1.2 as [b|].
  - res_inv H. injection H as <-. cbn [fst snd].
    assert (H3 : minv no_credit top (match a1.1 with Some excp => invoke excp a.2 | None => a.2 end)).
    { eapply minv_weaken; [exact H2| |done]. intros o. unfold delta. case_decide; lia. }
    destruct (minv_create _ _ _ _ H3 ltac:(lia) E2) as (H4 & _ & Er'). split; [done|]. rewrite Er'. cbn. rewrite lookup_insert, decide_True by done. by eexists.
  - injection H as <-. cbn [fst snd]. split; [done|]. rewrite Hr, Er. cbn. rewrite lookup_insert, decide_True by done. by eexists.
Qed.

Lemma pop_drop_texts m m' : pop_drop m = Ret m' → texts m' = texts m.
Proof. intros H. unfold pop_drop, pop_arc in H. res_inv H. res_inv E. injection E as <-. by injection H as <-. Qed.

Lemma minv_syscall n w x m m' :
  minv no_credit top m → vmd_syscall api full n w x m = Ret m' → minv no_credit top m'.
Proof.
  intros Hi H. unfold vmd_syscall in H. res_inv H. res_inv H. rename a0 into m2.
  pose proof (minv_vm_syscall _ _ _ _ (minv_add_pc _ _ w _ Hi) E) as Hs. destruct a.1 as [o|].
  - destruct Hs as [H1 Ho].
    assert (H2 : minv (delta 1 (CObj o)) top m2 ∧ texts m2 = texts a.2).
    { apply (times_inv (λ y, minv (delta 1 (CObj o)) top y ∧ texts y = texts a.2) pop_drop n a.2); [|done|done].
      intros y z [Hy Ht] Hz. split; [|by rewrite (pop_drop_texts _ _ Hz)]. eapply minv_pop_drop; [exact Hy| |lia|exact Hz].
      intros o'. unfold delta. case_decide; lia. }
    destruct H2 as [H2 Ht]. destruct (_ =? _).
    + res_inv H. injection E1 as <-. assert (Hv : ∀ o', CObj o = CObj o' → is_Some (refs (core m2) !! o')).
      { intros o' [= <-]. apply (mi_dom _ _ _ _ H2). rewrite Ht. by apply (mi_dom _ _ _ _ H1). }
      destruct (minv_push _ _ _ _ _ H2 H Hv) as [H3 _]. eapply minv_weaken; [exact H3| |done]. intros o'. cbn beta. lia.
    + injection H as <-. eapply minv_weaken; [exact H2| |done]. intros o'. unfold delta. case_decide; lia.
  - assert (H2 : minv no_credit top m2).
    { apply (times_inv (minv no_credit top) pop_drop n a.2); [|done|done]. intros y z Hy Hz. eapply minv_pop_drop; [exact Hy|done|lia|exact Hz]. }
    destruct (_ =? _); [done|]. by injection H as <-.
Qed.

Lemma minv_sctx_step m m' : minv no_credit top m → sctx_step full m = Ret m' → minv no_credit top m'.
Proof.
  intros Hi H. unfold sctx_step in H. res_inv H. destruct (minv_create _ _ _ _ Hi ltac:(lia) E) as (H1 & _ & Er).
  eapply minv_lift; [exact H|]. intros s' Hs.
  assert (Hv : ∀ o, CObj a.1 = CObj o → is_Some (refs (core a.2) !! o)).
  { intros o [= <-]. rewrite Er. cbn. rewrite lookup_insert, decide_True by done. by eexists. }
  destruct (mem_push_base _ _ _ _ _ _ H1 Hs Hv) as [H2 _]. eapply mem_inv_weaken; [exact H2| |done]. intros o. cbn beta. lia.
Qed.

Lemma minv_rctx_step m m' : minv no_credit top m → rctx_step full m = Ret m' → minv no_credit top m'.
Proof.
  intros Hi H. unfold rctx_step, vm_pop_base in H. res_inv H. res_inv E. injection E as <-. cbn [fst snd] in H. res_inv H.
  apply rd_stack_inv in E0 as [Hb ->]. set (s1 := set_bp _ _) in *. set (m1 := with_core s1 m) in *.
  assert (H0 : minv no_credit top m1) by (by eapply mem_inv_eq).
  destruct (minv_create _ _ _ _ H0 ltac:(lia) E) as (H1 & Hn & Er). eapply minv_lift; [exact H|]. intros s' Hs. cbn beta in Hs. res_inv Hs. rename a0 into s2.
  assert (Hv : ∀ o, CObj a.1 = CObj o → is_Some (refs (core a.2) !! o)).
  { intros o [= <-]. rewrite Er. cbn. rewrite lookup_insert, decide_True by done. by eexists. }
  pose proof (mem_wr _ _ _ _ _ _ _ H1 E0 Hv) as H2. assert (Er2 : refs s2 = refs (core a.2)) by (by apply wr_stack_inv in E0 as [_ ->]).
  assert (Eb : bp (core a.2) = bp s1 ∧ ∀ i, sget (core a.2) i = sget s1 i) by (by rewrite Er). destruct Eb as [Eb Eg]. rewrite Eb, Eg in H2.
  destruct (mem_add_ref _ _ top _ _ _ _ _ H2 Hs) as [H3 _]; [|lia|].
  { intros o r Ho Hr. rewrite Er2, Er in Hr. cbn in Hr. pose proof (mi_cells _ _ _ _ H0 o (cells_pos _ _ _ Hb Ho)) as [x Hx].
    rewrite lookup_insert_ne in Hr by congruence. change (refs s1) with (refs (core m1)) in *.
    destruct (mem_cell _ _ _ _ _ _ _ H0 Hb Ho Hr). lia. }
  eapply mem_inv_weaken; [exact H3| |done]. intros o. cbn beta. unfold delta. repeat case_decide; lia.
Qed.

Lemma minv_objconst w m m' : minv no_credit top m → vmd_objconst image full w m = Ret m' → minv no_credit top m'.
Proof.
  intros Hi H. unfold vmd_objconst in H. res_inv H. res_inv H. res_inv H. injection H as <-. apply minv_add_pc.
  destruct (minv_load_constant _ _ _ _ Hi ltac:(lia) E) as (H1 & _ & Er). unfold lift in E0. res_inv E0. injection E0 as <-.
  destruct (mem_add_ref _ _ top _ _ _ _ _ H1 E2) as [H2 _]; [|lia|].
  { intros o r [= <-]. rewrite Er, lookup_insert, decide_True by done. intros [= <-]. unfold VM_MAGIC. lia. }
  assert (Hv : ∀ o, CObj a.1 = CObj o → is_Some (refs a2 !! o)).
  { intros o [= <-]. cbn in E2. rewrite Er, lookup_insert, decide_True in E2 by done. injection E2 as <-. cbn. rewrite lookup_insert, decide_True by done. by eexists. }
  destruct (minv_push _ _ (CObj a.1) (with_core a2 a.2) _ H2 E1 Hv) as [H3 _]. eapply minv_weaken; [exact H3| |done]. intros o. cbn beta. lia.
Qed.

(** ** One turn of the loop *)
Lemma minv_dispatch fuel op b1 b2 b3 m m' :
  top < 0x8F → minv no_credit top m → (∃ p, base_address (core m) = CPkg p) → (op = INS_OBJDEL → unshared_top m) →
  dispatch image api full fuel [op; b1; b2; b3] m = Ret m' → minv no_credit 0x8F m'.
Proof.
  intros Htop' Hi Hp Hu H. cbn beta iota zeta delta [dispatch] in H.
  assert (Hw : ∀ x, minv no_credit top x → minv no_credit 0x8F x) by (intros x Hx; eapply minv_weaken; [exact Hx|done|lia]).
  destruct (op =? INS_LBL); [injection H as <-; by apply Hw|].
  destruct (op =? INS_OBJPUSH); [eapply minv_lift; [exact H|]; intros s' Hs; eapply mem_inv_weaken; [by eapply mem_objpush|done|lia]|].
  destruct (op =? INS_OBJSTORE); [eapply minv_lift; [exact H|]; intros s'; by apply mem_objstore|].
  destruct (op =? INS_OBJPOP); [eapply minv_lift; [exact H|]; intros s'; by apply mem_objpop|].
  destruct (op =? INS_SWITCH); [apply Hw; by eapply minv_switch|].
  destruct (Z.eqb_spec op INS_OBJDEL); [apply Hw; eapply minv_objdel; eauto|].
  destruct (op =? INS_OBJSUB); [apply Hw; by eapply minv_objsub|].
  destruct (op =? INS_OBJSZ); [apply Hw; by eapply minv_objsz|].
  destruct (op =? INS_OBJDUP); [eapply minv_lift; [exact H|]; intros s'; by apply mem_objdup|].
  destruct (op =? INS_NOT); [apply Hw; by eapply minv_not|].
  destruct (bool_decide (op ∈ [INS_ADD; _; _; _; _; _; _; _; _])); [apply Hw; by eapply minv_operation|].
  destruct (_ && _); [apply Hw; destruct (b1 <? 254); by eapply minv_syscall|].
  destruct (op =? INS_SCTX).
  { res_inv H. injection H as <-. apply Hw, minv_add_pc. eapply (times_inv (minv no_credit top)); [|exact Hi|exact E]. intros x y; apply minv_sctx_step. }
  destruct (op =? INS_RCTX).
  { res_inv H. injection H as <-. apply Hw, minv_add_pc. eapply (times_inv (minv no_credit top)); [|exact Hi|exact E]. intros x y; apply minv_rctx_step. }
  destruct (op =? INS_RET); [apply Hw; eapply minv_lift; [exact H|]; intros s'; by apply mem_ret|].
  destruct (op =? INS_CALL); [apply Hw; eapply minv_lift; [exact H|]; intros s'; by apply mem_call|].
  destruct (op =? INS_JMP); [apply Hw; eapply minv_lift; [exact H|]; intros s' [= <-]; by eapply mem_inv_eq|].
  destruct (op =? INS_OBJCONST); [apply Hw; by eapply minv_objconst|].
  destruct (op =? INS_JFALSE); [apply Hw; by eapply minv_jfalse|].
  destruct (bool_decide _); [apply Hw; by eapply minv_compare|].
  destruct (_ || _); [done|]. injection H as <-. by apply Hw, minv_invoke.
Qed.

End instructions.

Lemma minv_catch_argument k m m' : minv no_credit 0x8F m → catch_argument full k m = Ret m' → minv no_credit 0x8F m'.
Proof.
  intros Hi H. unfold catch_argument in H. res_inv H. res_inv H. res_inv H. destruct (minv_create _ _ _ _ Hi ltac:(lia) E0) as (H1 & _ & Er).
  assert (Hv : ∀ o, CObj a0.1 = CObj o → is_Some (refs (core a0.2) !! o)).
  { intros o [= <-]. rewrite Er. cbn. rewrite lookup_insert, decide_True by done. by eexists. }
  destruct (minv_push _ _ _ _ _ H1 E1 Hv) as [H2 Er2]. eapply minv_lift; [exact H|]. intros s' Hs.
  destruct (mem_add_ref _ _ 0x8F _ _ _ _ _ H2 Hs) as [H3 _]; [|lia|].
  { intros o r [= <-]. rewrite Er2, Er. cbn. rewrite lookup_insert, decide_True by done. intros [= <-]. unfold VM_MAGIC. lia. }
  eapply mem_inv_weaken; [exact H3| |done]. intros o. cbn beta. unfold delta. repeat case_decide; lia.
Qed.

Lemma minv_handle fuel m m' : minv no_credit 0x8F m → handle full fuel m = Ret m' → minv no_credit 0x8F m'.
Proof.
  intros Hi H. unfold handle in H. destruct (tcs m) as [|tc rest]; [by injection H as <-|]. res_inv H. res_inv H. injection H as <-.
  assert (H1 : minv no_credit 0x8F a).
  { destruct (loop_inv (unwind_step (snapshot_sp tc)) (minv no_credit 0x8F)) with (fuel := fuel) (s := with_tcs rest m) (a := a) as (y & Hy & Ey); [| |exact E|].
    - intros x y Hx Hy. unfold unwind_step in Hy. destruct (_ =? _); [done|]. res_inv Hy. injection Hy as <-. by eapply minv_pop_drop; [exact Hx|..].
    - exact Hi.
    - unfold unwind_step in Ey. destruct (_ =? _); [by injection Ey as <-|]. by res_inv Ey. }
  assert (H2 : minv no_credit 0x8F a0); [|by eapply mem_inv_eq].
  refine (foldM_keep (minv no_credit 0x8F) _ _ _ _ _ _ E0); [|by eapply mem_inv_eq]. intros k x y. apply minv_catch_argument.
Qed.

Lemma locate_core m : core (vm_locate_tcblock info m) = core m ∧ texts (vm_locate_tcblock info m) = texts m.
Proof.
  unfold vm_locate_tcblock. set (f := λ m b, _). assert (H : ∀ l x, core (foldl f x l) = core x ∧ texts (foldl f x l) = texts x).
  { induction l as [|b l IH]; intros x; cbn; [done|]. destruct (IH (f x b)) as [-> ->]. unfold f. repeat case_match; done. }
  destruct (H info m) as [H1 H2]. cbv zeta. destruct (tcs (foldl f m info)); [done|]. destruct (_ <=? _); done.
Qed.

Lemma alive_not_dead r : VM_MAGIC + 1 ≤ r ≤ 0x8F → dead r = false.
Proof.
  unfold VM_MAGIC. intros H. assert (E : r ∈ (λ i, 0x81 + Z.of_nat i) <$> seq 0 15).
  { apply list_elem_of_fmap. exists (Z.to_nat (r - 0x81)). rewrite elem_of_seq. lia. }
  clear H. revert r E. apply Forall_forall. vm_compute. repeat constructor.
Qed.

(** the collector keeps the objects that a cell holds, and only drops dead ones *)
Lemma collect_keeps n m o r : n ≤ 0x8F → minv no_credit n m → 1 ≤ cells (core m) o → refs (core m) !! o = Some r → kept spared m o = true.
Proof.
  intros Hn Hi Hc Hr. unfold kept. rewrite Hr. destruct (mi_count _ _ _ _ Hi o r Hr). rewrite alive_not_dead; [done|]. lia.
Qed.

Lemma minv_collect n m : n ≤ 0x8F → minv no_credit n m → minv no_credit n (vm_garbage_collect spared m).
Proof.
  intros Hn Hi. assert (Ec : ∀ o, cells (core (vm_garbage_collect spared m)) o = cells (core m) o) by done.
  constructor; cbn [vm_garbage_collect core texts refs set_refs].
  - intros o. destruct (mi_dom _ _ _ _ Hi o) as [H1 H2]. split; intros [x Hx]; apply map_lookup_filter_Some in Hx as [Hx Hk]; cbn in Hk.
    + destruct (H1 ltac:(by eexists)) as [y Hy]. exists y. by apply map_lookup_filter_Some.
    + destruct (H2 ltac:(by eexists)) as [y Hy]. exists y. by apply map_lookup_filter_Some.
  - intros o Ho. rewrite Ec in Ho. destruct (mi_cells _ _ _ _ Hi o Ho) as [r Hr]. exists r. apply map_lookup_filter_Some. split; [done|]. by eapply collect_keeps.
  - intros o r Hr. rewrite Ec. apply map_lookup_filter_Some in Hr as [Hr _]. by apply (mi_count _ _ _ _ Hi).
Qed.

Lemma minv_turn fuel m m' :
  minv no_credit 0x8E m → (∀ b, vm_fetch image (pc (core m)) 4 m = Ret b → head b = Some INS_OBJDEL → unshared_top m) →
  turn image info api full spared fuel m = Ret m' → minv no_credit 0x8F m'.
Proof.
  intros Hi Hu H. unfold turn in H. res_inv H. rename a into ibuf. specialize (Hu ibuf eq_refl).
  assert (Hp : ∃ p, base_address (core m) = CPkg p) by (unfold vm_fetch in E; destruct (base_address (core m)); [done|done|by eexists|done]).
  res_inv H. rename a into m1. res_inv H. rename a into m3. injection H as <-.
  assert (H1 : minv no_credit 0x8F m1).
  { destruct ibuf as [|op [|b1 [|b2 [|b3 [|? ?]]]]]; try done. eapply (minv_dispatch 0x8E); [lia|lia|done|done| |exact E0]. intros ->. by apply Hu. }
  assert (H2 : minv no_credit 0x8F (with_core (vmd_check (core m1)) m1)).
  { eapply mem_inv_eq; [exact H1|..]; cbn [core with_core]; unfold vmd_check; by destruct (_ <=? _). }
  assert (H3 : minv no_credit 0x8F m3).
  { destruct (vm_state _ =? _); [by eapply minv_handle|]. injection E1 as <-. unfold minv. destruct (locate_core (with_core (vmd_check (core m1)) m1)) as [-> ->]. done. }
  apply minv_collect in H3; [|done]. destruct (_ =? 0xFFFF); [by eapply mem_inv_eq|done].
Qed.

(** turns of the loop of [vm_decode] on machines whose counters have room,
    where [INS_OBJDEL] is only used on an object with one reference *)
Inductive turns (fuel : nat) : machine → machine → Prop :=
  | turns_refl m : turns fuel m m
  | turns_step m m1 m2 :
      vm_state (core m) = VM_STATE_RUN → roomy m →
      (∀ b, vm_fetch image (pc (core m)) 4 m = Ret b → head b = Some INS_OBJDEL → unshared_top m) →
      turn image info api full spared fuel m = Ret m1 → turns fuel m1 m2 → turns fuel m m2.

Lemma turns_mem_ok fuel m m' : turns fuel m m' → mem_ok m → mem_ok m'.
Proof.
  induction 1 as [|m m1 m2 _ Hr Hu Ht _ IH]; [done|]. intros Hi. apply IH. eapply minv_turn; [|exact Hu|exact Ht].
  destruct Hi as [Hd Hc Hn]. constructor; [done|done|]. intros o r Ho. specialize (Hr o r Ho). destruct (Hn o r Ho). cbn in Hr. lia.
Qed.

(** C13: Memory safety of the machine. As long as no counter is full and
    [INS_OBJDEL] is used on objects with one reference, however many turns the
    loop takes, with any functions in the library, exceptions and handlers:
    every object that a cell of the stack holds exists, its counter is at least
    the number of the cells that hold it, and the collector does not free it. *)
Theorem machine_memory_safe (fuel : nat) (m m' : machine) :
  mem_ok m → turns fuel m m' → mem_ok m' ∧
  ∀ i o, 0 ≤ i < VM_MAX_STACK_SIZE → sget (core m') i = CObj o →
    ∃ r t, refs (core m') !! o = Some r ∧ texts m' !! o = Some t ∧
      VM_MAGIC + cells (core m') o ≤ r ≤ 0x8F ∧ dead r = false ∧ kept spared m' o = true.
Proof.
  intros Hi Ht. assert (H := turns_mem_ok _ _ _ Ht Hi). split; [done|]. intros i o Hr Ho. pose proof (cells_pos _ _ _ Hr Ho) as Hc.
  destruct (mi_cells _ _ _ _ H o Hc) as [r Hor]. destruct (mi_dom _ _ _ _ H o) as [Hd _]. destruct (Hd ltac:(by eexists)) as [t Hot].
  exists r, t. destruct (mi_count _ _ _ _ H o r Hor) as [H1 H2]. split; [done|]. split; [done|]. split; [lia|]. split; [apply alive_not_dead; lia|].
  by eapply collect_keeps.
Qed.

End safe.

(** ** Samples *)
Definition image_of (code : list Z) (p : nat) (offset : Z) : option Z := if 0 <=? offset then code !! Z.to_nat offset else None.

Definition no_api (x : Z) : option (list (list Z) → res (option Z * option (list Z))) := None.
Definition never_full (T : gmap nat (list Z)) (n : Z) : bool := false.
Definition frees_all (T : gmap nat (list Z)) (o : nat) : bool := false.

(** one variable, with the text [v], in the frame *)
Definition one_variable (v : list Z) : machine :=
  mkMach (mkVm {[ 0 := CObj 0 ]} 1998 1 0 (CPkg 0) {[ 0%nat := 0x81 ]} VM_STATE_RUN 0) {[ 0%nat := v ]} [].

Definition run (code : list Z) (turns : nat) (m : machine) : res machine :=
  times turns (turn (image_of code) [] no_api never_full frees_all 100) m.

(** a = a + a *)
Definition double_code : list Z := [INS_OBJPUSH; 0; INS_OBJPUSH; 0; INS_ADD; INS_OBJPOP; 0; 0; 0; 0; 0; 0].

Lemma mem_check_ok m : mem_check m = true → mem_ok m.
Proof.
  unfold mem_check. rewrite !andb_true_iff, bool_decide_eq_true, !forallb_forall. intros [[Hd Hc] Hn]. constructor.
  - intros o. rewrite <-!elem_of_dom. by rewrite Hd.
  - intros o Ho. destruct (cells_holds _ _ Ho) as (i & Hi & Hs). specialize (Hc (Z.to_nat i)). rewrite Z2Nat.id, Hs in Hc by lia.
    apply bool_decide_eq_true in Hc; [done|]. apply list_elem_of_In, slots_elem. lia.
  - intros o r Hr. specialize (Hn (o, r)). cbn in Hn. rewrite andb_true_iff, !Z.leb_le in Hn.
    pose proof (cells_nonneg (core m) o). destruct Hn; [by apply list_elem_of_In, elem_of_map_to_list|lia].
Qed.

Lemma one_variable_ok v : mem_ok (one_variable v).
Proof. apply mem_check_ok. vm_compute. reflexivity. Qed.

Lemma machine_memory_safe_witness :
  ∃ m', run double_code 4 (one_variable [50; 49]) = Ret m' ∧ texts m' = {[ 1%nat := [52; 50] ]} ∧ mem_ok m'.
Proof.
  eexists. split; [vm_compute; reflexivity|]. split; [vm_compute; reflexivity|].
  refine (proj1 (machine_memory_safe (image_of double_code) [] no_api never_full frees_all 100 (one_variable [50; 49]) _ _ _)).
  - apply one_variable_ok.
  - do 4 (eapply turns_step; [vm_compute; reflexivity|apply (bool_decide_unpack _); vm_compute; exact I| |vm_compute; reflexivity|];
      [intros b Hb; vm_compute in Hb; injection Hb as <-; vm_compute; congruence|]). apply turns_refl.
Defined.

(** Sixteen references. The counter of an object is four bits wide: with the
    fifteenth copy of it on the stack it is zero, the collector frees the object
    and the next instruction reads it. *)
Lemma full_counter_frees :
  ∃ m', run (concat (replicate 15 [INS_OBJPUSH; 0]) ++ [0; 0]) 15 (one_variable [50; 49]) = Ret m' ∧ texts m' = ∅ ∧ cells (core m') 0 = 16.
Proof. eexists. split; [vm_compute; reflexivity|]. split; vm_compute; reflexivity. Qed.

(** [INS_OBJDEL] on the value of a variable frees the object of the variable. *)
Lemma objdel_frees_variable :
  ∃ m', run [INS_OBJPUSH; 0; INS_OBJDEL; 0; 0; 0] 2 (one_variable [50; 49]) = Ret m' ∧ texts m' = ∅ ∧ sget (core m') 0 = CObj 0.
Proof. eexists. split; [vm_compute; reflexivity|]. split; vm_compute; reflexivity. Qed.
