(* ===== verification/MachineOps.v ===== *)
(** * Operations of the machine, forward

    What the operations of Machine return and leave, on states that satisfy the
    invariant of MachineSafe: reads of the image, new objects, pops and pushes.
    MachineExpr and MachineCtl compose them. *)
From S2P Require Import Prelude Isa Streamer Linker L1 Vm Gc Decimal Text Machine MachineSafe.

Section ops.
Context (image : nat → Z → option Z)
  (api : Z → option (list (list Z) → res (option Z * option (list Z))))
  (full : gmap nat (list Z) → Z → bool) (spared : gmap nat (list Z) → nat → bool).
Context (Hroom : ∀ T n, full T n = false).
Context (p : nat) (limit : Z) (Hread : ∀ k, 0 ≤ k < limit → is_Some (image p k)).

(** the bytes [l] lie in the image from address [i] *)
Definition lies (i : Z) (l : list Z) : Prop := ∀ k x, l !! k = Some x → image p (i + Z.of_nat k) = Some x.

Lemma lies_app i l1 l2 : lies i (l1 ++ l2) ↔ lies i l1 ∧ lies (i + Z.of_nat (length l1)) l2.
Proof.
  unfold lies. split.
  - intros H. split; intros k x Hk.
    + apply H. by apply lookup_app_l_Some.
    + replace (i + Z.of_nat (length l1) + Z.of_nat k) with (i + Z.of_nat (length l1 + k)) by lia.
      apply H. rewrite lookup_app_r by lia. by replace (length l1 + k - length l1)%nat with k by lia.
  - intros [H1 H2] k x Hk. apply lookup_app_Some in Hk as [Hk|[Hl Hk]]; [by apply H1|].
    specialize (H2 _ _ Hk). rewrite <-H2. f_equal. lia.
Qed.

Lemma lies_cons i x l : lies i (x :: l) ↔ image p i = Some x ∧ lies (i + 1) l.
Proof.
  change (x :: l) with ([x] ++ l). rewrite lies_app. cbn [length]. split; intros [H1 H2]; (split; [|done]).
  - specialize (H1 0%nat x eq_refl). by rewrite Z.add_0_r in H1.
  - intros [|k] y Hk; [|done]. injection Hk as <-. by rewrite Z.add_0_r.
Qed.

Lemma fetch_lies v i m : base_address (core m) = CPkg p → lies i v → vm_fetch image i (length v) m = Ret v.
Proof.
  intros Hb Hl. unfold vm_fetch. rewrite Hb. assert (mapM (λ k, image p (i + Z.of_nat k)) (seq 0 (length v)) = Some v) as ->; [|done].
  apply mapM_Some. apply Forall2_same_length_lookup_2; [by rewrite length_seq|]. intros k a x Ha Hx.
  apply lookup_seq in Ha as [-> _]. by apply Hl.
Qed.

(** the instruction at [i], and the bytes behind it *)
Lemma fetch_ins l i m : base_address (core m) = CPkg p → lies i l → (length l ≤ 4)%nat → 0 ≤ i → i + 4 ≤ limit →
  ∃ l', vm_fetch image i 4 m = Ret (l ++ l') ∧ length (l ++ l') = 4%nat.
Proof.
  intros Hb Hl Hn Hi Hm.
  assert (H : ∀ n j, 0 ≤ j → j + Z.of_nat n ≤ limit → ∃ l', length l' = n ∧ lies j l').
  { induction n as [|n IH]; intros j Hj Hle; [exists []; by split; [|intros ??; rewrite lookup_nil]|].
    destruct (Hread j ltac:(lia)) as [x Hx]. destruct (IH (j + 1) ltac:(lia) ltac:(lia)) as (l' & <- & Hl').
    exists (x :: l'). split; [done|]. by apply lies_cons. }
  destruct (H (4 - length l)%nat (i + Z.of_nat (length l))) as (l' & Hlen & Hl'); [lia|lia|]. exists l'.
  assert (Hlen4 : length (l ++ l') = 4%nat) by (rewrite length_app; lia). split; [|done].
  rewrite <-Hlen4. apply fetch_lies; [done|]. by apply lies_app.
Qed.

(** ** Single operations, forward *)
Lemma create_ok b m :
  ∃ o, refs (core m) !! o = None ∧ vm_create_object full b m =
    Ret (o, mkMach (set_refs (<[o := 0x81]> (refs (core m))) (core m)) (<[o := b]> (texts m)) (tcs m)).
Proof.
  eexists. split; [|unfold vm_create_object; rewrite Hroom; reflexivity]. apply not_elem_of_dom, is_fresh.
Qed.

Lemma const_header_read v b0 b1 b2 b3 l :
  Z.of_nat (length v) ≤ VA_OBJECT_MAX_SIZE → const_bytes v ++ l = b0 :: b1 :: b2 :: b3 :: drop 4 (const_bytes v ++ l) →
  load_constant_header [b0; b1; b2; b3] = Ret (Z.of_nat (length v), Z.of_nat (length (const_header (Z.of_nat (length v))))).
Proof.
  unfold const_bytes, const_header, VA_OBJECT_MAX_SIZE. set (n := Z.of_nat (length v)). intros Hn H.
  assert (H0 : 0 ≤ n) by lia. cbn [load_constant_header].
  destruct (Z.ltb_spec n 128) as [E|E].
  { cbn in H. injection H as <- _. by rewrite (proj2 (Z.ltb_lt n 128)). }
  destruct (Z.ltb_spec n 256) as [E2|E2]; [cbn in H; by injection H as <- <- _|].
  cbn in H. injection H as <- <- <- _. cbn.
  rewrite Z.lor_comm, lor_shiftl_add, Z.shiftl_mul_pow2 by (pose proof (mod256_byte n); unfold is_byte in *; lia).
  f_equal. f_equal. rewrite u16_id; pose proof (div_mod_256 n); unfold is_u16; lia.
Qed.

Lemma load_constant_ok v off m :
  base_address (core m) = CPkg p → lies off (const_bytes v) → Z.of_nat (length v) ≤ VA_OBJECT_MAX_SIZE →
  0 ≤ off → off + Z.of_nat (length (const_bytes v)) + 4 ≤ limit →
  ∃ o, refs (core m) !! o = None ∧ vm_load_constant image full off m =
    Ret (o, mkMach (set_refs (<[o := 0x80]> (refs (core m))) (core m)) (<[o := v]> (texts m)) (tcs m)).
Proof.
  intros Hb Hl Hn Ho Hm. destruct (create_ok v m) as (o & Hf & Ec). exists o. split; [done|].
  set (cb := const_bytes v) in *. assert (Hlh : lies off (take 4 cb)) by (rewrite <-(take_drop 4 cb) in Hl; by apply lies_app in Hl as [Hl _]).
  destruct (fetch_ins (take 4 cb) off m Hb Hlh) as (l' & Ef & Hlen); [rewrite length_take; lia|done|lia|].
  unfold vm_load_constant. rewrite Ef. res_cbn.
  destruct (take 4 cb ++ l') as [|b0 [|b1 [|b2 [|b3 [|? ?]]]]] eqn:El; try done.
  rewrite (const_header_read v b0 b1 b2 b3 (if decide (4 ≤ length cb)%nat then [] else l')); [|done|].
  - res_cbn. rewrite (proj2 (Z.ltb_ge _ _)) by done. rewrite Hroom. res_cbn. rewrite Nat2Z.id.
    unfold cb, const_bytes in Hl. apply lies_app in Hl as [_ Hl]. rewrite (fetch_lies v _ m Hb Hl). res_cbn. rewrite Ec. res_cbn.
    unfold lift, add_ref. cbn [core refs set_refs]. rewrite lookup_insert, decide_True by done. res_cbn.
    unfold with_core. cbn [core texts tcs set_refs stacks sp bp pc base_address vm_state exception_code refs]. rewrite insert_insert_eq. reflexivity.
  - fold cb. case_decide as Hc.
    + rewrite app_nil_r. rewrite <-El, length_app, length_take in Hlen. assert (l' = []) as -> by (apply length_zero_iff_nil; lia).
      rewrite app_nil_r in El. rewrite <-(take_drop 4 cb) at 1. by rewrite El.
    + rewrite take_ge in El by lia. by rewrite El.
Qed.

(** a pop of NULL or an object *)
Definition poppable (c : cell) : Prop := match c with CNull | CObj _ => True | _ => False end.

Lemma pop_arc_ok top m :
  minv no_credit top m → top ≤ 0x8F → 0 ≤ sp (core m) → sp (core m) + 1 < VM_MAX_STACK_SIZE →
  poppable (sget (core m) (sp (core m) + 1)) →
  ∃ m', pop_arc m = Ret (sget (core m) (sp (core m) + 1), m') ∧ minv no_credit top m' ∧ texts m' = texts m ∧ tcs m' = tcs m ∧
    (∀ i, sget (core m') i = if decide (sp (core m) + 1 = i) then CNull else sget (core m) i) ∧
    sp (core m') = sp (core m) + 1 ∧ bp (core m') = bp (core m) ∧ pc (core m') = pc (core m) ∧
    base_address (core m') = base_address (core m) ∧ vm_state (core m') = vm_state (core m) ∧
    exception_code (core m') = exception_code (core m).
Proof.
  intros Hi Ht H0 H1 Ho. assert (Hu : u16 (sp (core m) + 1) = sp (core m) + 1) by (apply u16_id; unfold is_u16, VM_MAX_STACK_SIZE in *; lia).
  set (c := sget (core m) (sp (core m) + 1)) in *. set (s1 := set_sp (sp (core m) + 1) (core m)).
  assert (Hr : ∃ R, add_ref (-1) c s1 = Ret (set_refs R s1)).
  { destruct c as [|o| |] eqn:Ec; [by exists (refs (core m))| |done..]. destruct (mi_cells _ _ _ _ Hi o) as [r Hr].
    - eapply cells_pos; [|exact Ec]. lia.
    - cbn [add_ref]. change (refs s1) with (refs (core m)). rewrite Hr. by eexists. }
  destruct Hr as [R Hr].
  assert (E : pop_arc m = Ret (c, with_core (set_stacks (<[sp (core m) + 1 := CNull]> (stacks (core m))) (set_refs R s1)) m)).
  { unfold pop_arc, vm_pop_stack_arc. fold s1. assert (Es : sp s1 = sp (core m) + 1) by exact Hu. rewrite Es, rd_stack_ok by lia. res_cbn.
    change (sget s1 (sp (core m) + 1)) with c. rewrite (proj2 (Z.leb_gt _ _)) by lia. rewrite Hr. res_cbn.
    cbn [sp set_refs]. rewrite Es, wr_stack_ok by lia. done. }
  eexists. split; [exact E|]. split; [exact (minv_pop _ _ _ _ Hi ltac:(done) Ht E)|]. cbn. rewrite Hu.
  do 2 (split; [done|]). split; [|done]. intros i. unfold sget. cbn. rewrite lookup_insert. by case_decide.
Qed.

Lemma push_new_ok top b m :
  minv no_credit top m → 0 < sp (core m) < VM_MAX_STACK_SIZE →
  ∃ o m', push_new full b m = Ret m' ∧ texts m !! o = None ∧ texts m' = <[o := b]> (texts m) ∧ tcs m' = tcs m ∧
    (∀ i, sget (core m') i = if decide (sp (core m) = i) then CObj o else sget (core m) i) ∧
    sp (core m') = sp (core m) - 1 ∧ bp (core m') = bp (core m) ∧ pc (core m') = pc (core m) ∧
    base_address (core m') = base_address (core m) ∧ vm_state (core m') = vm_state (core m) ∧
    exception_code (core m') = exception_code (core m).
Proof.
  intros Hi Hs. destruct (create_ok b m) as (o & Hf & Ec). exists o. unfold push_new. rewrite Ec. res_cbn.
  unfold lift, vm_push_stack. cbn [core sp set_refs]. rewrite wr_stack_ok by lia. res_cbn. eexists. split; [reflexivity|]. split.
  { destruct (texts m !! o) eqn:E; [|done]. destruct (proj2 (mi_dom _ _ _ _ Hi o) ltac:(by eexists)) as [x Hx]. congruence. }
  cbn. split; [done|]. split; [done|]. split; [intros i; unfold sget; cbn; rewrite lookup_insert; by case_decide|].
  split; [|done]. apply u16_id. unfold is_u16, VM_MAX_STACK_SIZE in *. lia.
Qed.

(** ** What code that works above [h] leaves alone *)
Definition outside (h : Z) (m : machine) (i : Z) : Prop := 0 ≤ i < VM_MAX_STACK_SIZE ∧ (i < bp (core m) ∨ h < i).

Record keep (h : Z) (m m' : machine) : Prop := {
  kp_bp : bp (core m') = bp (core m);
  kp_base : base_address (core m') = base_address (core m);
  kp_tcs : tcs m' = tcs m;
  kp_state : vm_state (core m') = vm_state (core m);
  kp_cells : ∀ i, outside h m i → sget (core m') i = sget (core m) i;
  kp_texts : ∀ i o t, outside h m i → sget (core m) i = CObj o → texts m !! o = Some t → texts m' !! o = Some t
}.

Lemma keep_trans h h' m1 m2 m3 : keep h m1 m2 → keep h' m2 m3 → h' ≤ h → keep h m1 m3.
Proof.
  intros [B1 A1 T1 S1 C1 X1] [B2 A2 T2 S2 C2 X2] Hh.
  assert (Ho : ∀ i, outside h m1 i → outside h' m2 i) by (intros i [H1 H2]; split; [done|]; rewrite B1; lia).
  constructor; [congruence..| |].
  - intros i Hi. by rewrite C2, C1 by auto.
  - intros i o t Hi Hc Ht. apply (X2 i); [by apply Ho|by rewrite C1|by eapply X1].
Qed.

Lemma gc_texts top m i o t :
  minv no_credit top m → top ≤ 0x8F → 0 ≤ i < VM_MAX_STACK_SIZE → sget (core m) i = CObj o → texts m !! o = Some t →
  texts (vm_garbage_collect spared m) !! o = Some t.
Proof.
  intros Hi Ht Hr Ho Hx. cbn. apply map_lookup_filter_Some. split; [done|]. cbn.
  pose proof (cells_pos _ _ _ Hr Ho) as Hc. destruct (mi_cells _ _ _ _ Hi o Hc) as [r Hr']. by eapply collect_keeps.
Qed.

Lemma gc_keep top h m m1 :
  minv no_credit top m1 → top ≤ 0x8F → keep h m m1 → keep h m (vm_garbage_collect spared m1).
Proof.
  intros Hi Ht [B A T S C X]. constructor; [done..|].
  intros i o t Hin Ho Hx. eapply gc_texts; [done|done|exact (proj1 Hin)|by rewrite C|by eapply X].
Qed.

(** ready to run: [n] free cells, counters up to [top] *)
Record ready (top n : Z) (m : machine) : Prop := {
  rd_mem : minv no_credit top m;
  rd_base : base_address (core m) = CPkg p;
  rd_tcs : tcs m = [];
  rd_run : vm_state (core m) = VM_STATE_RUN;
  rd_room : 0 ≤ bp (core m) ∧ bp (core m) + n < sp (core m) < VM_MAX_STACK_SIZE
}.

End ops.
