(* ===== verification/MachineExpr.v ===== *)
(** * Expressions on the machine

    The parser emits an expression in postfix order: operands with
    [INS_OBJPUSH] and [INS_OBJCONST], operators and calls of library functions
    behind them. The machine runs such code, with its reference counts and a collection after every
    instruction, to the value of the expression. *)
From S2P Require Import Prelude Isa Streamer Linker L1 Vm Gc Decimal Text Machine MachineSafe MachineOps.

(** ** Expressions *)
Inductive expr : Type :=
  | EConst (offset : Z) (v : list Z)     (** a constant, where it lies in the image *)
  | EVar (x : Z)                         (** a variable, by its index in the frame *)
  | EOp (op : Z) (e1 e2 : expr)          (** an arithmetic operation or a comparison *)
  | ECall (id : Z) (e1 : expr).          (** a library function of one argument *)

Definition operations : list Z := [INS_ADD; INS_MUL; INS_DIV; INS_SUB; INS_AND; INS_OR; INS_XOR; INS_SHL; INS_SHR].
Definition comparisons : list Z := [INS_CREQ; INS_CRNE; INS_CRGT; INS_CRLT; INS_CRGTEQ; INS_CRLTEQ].

(** the postfix code at address [pc] *)
Fixpoint code (pc : Z) (e : expr) : list Z :=
  match e with
  | EConst offset _ => INS_OBJCONST :: word (offset - pc)
  | EVar x => [INS_OBJPUSH; x]
  | EOp op e1 e2 =>
      let c1 := code pc e1 in
      let c2 := code (pc + Z.of_nat (length c1)) e2 in c1 ++ c2 ++ [op]
  | ECall id e1 => code pc e1 ++ [INS_SYSCALL0 + 1; id]
  end.

(** the value, given those of the variables; [None] where the machine has an
    exception or no result *)
Definition apply_op (op : Z) (t2 t1 : list Z) : option (list Z) :=
  if bool_decide (op ∈ operations) then
    match vm_operation_object op t2 t1 with Ret (None, t) => Some t | _ => None end
  else match vm_compare_object op t2 t1 with Ret t => Some t | _ => None end.

(** the functions of the library, by number (see Machine) *)
Abbreviation library := (Z → option (list (list Z) → res (option Z * option (list Z)))).

(** the result of a function; an empty text when it sets none *)
Definition call_result (api : library) (id : Z) (t : list Z) : option (list Z) :=
  match api id with
  | Some entry => match entry [t] with Ret (None, r) => Some (default [] r) | _ => None end
  | None => None
  end.

Fixpoint value (api : library) (env : Z → option (list Z)) (e : expr) : option (list Z) :=
  match e with
  | EConst _ v => Some v
  | EVar x => env x
  | EOp op e1 e2 => t1 ← value api env e1; t2 ← value api env e2; apply_op op t2 t1
  | ECall id e1 => t ← value api env e1; call_result api id t
  end.

(** how often a variable is read, the cells it takes, the instructions *)
Fixpoint reads (e : expr) : Z :=
  match e with EConst _ _ => 0 | EVar _ => 1 | EOp _ e1 e2 => reads e1 + reads e2 | ECall _ e1 => reads e1 end.
Fixpoint depth (e : expr) : Z :=
  match e with EConst _ _ | EVar _ => 1 | EOp _ e1 e2 => Z.max (depth e1) (1 + depth e2) | ECall _ e1 => depth e1 end.
Fixpoint size (e : expr) : nat :=
  match e with EConst _ _ | EVar _ => 1%nat | EOp _ e1 e2 => (size e1 + size e2 + 1)%nat | ECall _ e1 => (size e1 + 1)%nat end.

Section run.
Context (image : nat → Z → option Z)
  (api : Z → option (list (list Z) → res (option Z * option (list Z))))
  (full : gmap nat (list Z) → Z → bool) (spared : gmap nat (list Z) → nat → bool).
Context (Hroom : ∀ T n, full T n = false).
Context (p : nat) (limit : Z) (Hread : ∀ k, 0 ≤ k < limit → is_Some (image p k)).

Abbreviation lies := (lies image p).
Abbreviation ready := (ready p).
Abbreviation fetch_ins := (fetch_ins image p limit Hread).
Abbreviation load_constant_ok := (load_constant_ok image full Hroom p limit Hread).
Abbreviation push_new_ok := (push_new_ok full Hroom).

(** a turn without exception and try blocks *)
Lemma turn_plain fuel m b m1 :
  vm_fetch image (pc (core m)) 4 m = Ret b → dispatch image api full fuel b m = Ret m1 →
  vm_state (core m1) = VM_STATE_RUN → bp (core m1) < sp (core m1) → tcs m1 = [] → pc (core m1) ≠ 0xFFFF →
  turn image [] api full spared fuel m = Ret (vm_garbage_collect spared m1).
Proof.
  intros Hf Hd Hs Hb Ht Hp. unfold turn. rewrite Hf. res_cbn. rewrite Hd. res_cbn.
  assert (Hc : with_core (vmd_check (core m1)) m1 = m1).
  { unfold vmd_check. rewrite (proj2 (Z.leb_gt _ _)) by done. by destruct m1. }
  rewrite Hc, Hs. change (VM_STATE_RUN =? VM_STATE_EXCEPTION) with false. cbn iota. unfold vm_locate_tcblock. cbn [foldl]. rewrite Ht. res_cbn.
  rewrite (proj2 (Z.eqb_neq (pc (core (vm_garbage_collect spared m1))) 0xFFFF)) by done. done.
Qed.

(** a turn that pushes a value, [k] bytes long *)
Record pushed (top : Z) (h : Z) (m m' : machine) (v : list Z) (k : Z) : Prop := {
  ps_keep : keep h m m';
  ps_mem : minv no_credit top m';
  ps_sp : sp (core m') = h - 1;
  ps_pc : pc (core m') = pc (core m) + k;
  ps_top : ∃ o, sget (core m') h = CObj o ∧ texts m' !! o = Some v
}.

Lemma turn_pushes fuel top h m b m1 v k :
  vm_fetch image (pc (core m)) 4 m = Ret b → dispatch image api full fuel b m = Ret m1 →
  pushed top h m m1 v k → top ≤ 0x8F → tcs m = [] → vm_state (core m) = VM_STATE_RUN → bp (core m) + 1 < h < VM_MAX_STACK_SIZE → 0 ≤ bp (core m) →
  pc (core m) + k < 0xFFFF →
  ∃ m', turn image [] api full spared fuel m = Ret m' ∧ pushed top h m m' v k.
Proof.
  intros Hf Hd [Hk Hm Hs Hp (o & Ho & Hv)] Ht Htc Hst Hb Hb0 Hpc. eexists. split.
  - eapply turn_plain; [done|done| | | |]; [by rewrite (kp_state _ _ _ Hk)|rewrite (kp_bp _ _ _ Hk); lia|by rewrite (kp_tcs _ _ _ Hk)|lia].
  - constructor; [by eapply gc_keep|by apply minv_collect|done|done|]. exists o. split; [done|]. by eapply gc_texts; [done|done| |exact Ho|done]; lia.
Qed.

Lemma keep_push h c m m1 :
  bp (core m1) = bp (core m) → base_address (core m1) = base_address (core m) → tcs m1 = tcs m → vm_state (core m1) = vm_state (core m) →
  (∀ i, outside h m i → sget (core m1) i = if decide (c = i) then sget (core m1) i else sget (core m) i) →
  (∀ o t, texts m !! o = Some t → texts m1 !! o = Some t) → bp (core m) ≤ c ≤ h → keep h m m1.
Proof.
  intros B A T S C X Hc. constructor; [done..| |].
  - intros i Hi. rewrite (C i Hi). rewrite decide_False; [done|]. destruct Hi as [_ Hi]. lia.
  - intros i o t _ _. apply X.
Qed.

(** ** The instructions of an expression *)
Lemma turn_var fuel top m x o v :
  ready top 1 m → 0x81 ≤ top < 0x8F → is_byte x → lies (pc (core m)) [INS_OBJPUSH; x] →
  0 ≤ pc (core m) → pc (core m) + 4 ≤ limit → pc (core m) + 2 < 0xFFFF →
  0 ≤ bp (core m) - (x + 1) → sget (core m) (bp (core m) - (x + 1)) = CObj o → texts m !! o = Some v →
  ∃ m', turn image [] api full spared fuel m = Ret m' ∧ pushed (top + 1) (sp (core m)) m m' v 2.
Proof.
  intros [Hi Hb Htc Hst Hr] Ht Hx Hl Hp Hlim Hpc Hb0 Ho Hv.
  destruct (fetch_ins _ _ m Hb Hl) as (l' & Hf & Hlen); [cbn; lia|done|done|].
  destruct l' as [|b2 [|b3 [|? ?]]]; try done.
  assert (Hin : 0 ≤ bp (core m) - (x + 1) < VM_MAX_STACK_SIZE) by (unfold is_byte in Hx; lia).
  destruct (mi_cells _ _ _ _ Hi o (cells_pos _ _ _ Hin Ho)) as [r Hor].
  set (s' := set_pc (pc (core m) + 2) (set_sp (sp (core m) - 1) (set_stacks (<[sp (core m) := CObj o]> (stacks (core m)))
    (set_refs (<[o := u8 (r + 1)]> (refs (core m))) (core m))))).
  assert (Hs : vmd_objpush x (core m) = Ret s').
  { unfold vmd_objpush, vm_get_base. rewrite u16_id by (unfold is_u16, is_byte in *; lia). rewrite rd_stack_ok by done. res_cbn. rewrite Ho.
    cbn [add_ref]. rewrite Hor. res_cbn. unfold vm_push_stack. cbn [sp set_refs]. rewrite wr_stack_ok by lia. done. }
  assert (Hd : dispatch image api full fuel ([INS_OBJPUSH; x] ++ [b2; b3]) m = Ret (with_core s' m)).
  { change (dispatch image api full fuel ([INS_OBJPUSH; x] ++ [b2; b3]) m) with (lift (vmd_objpush x) m). unfold lift. by rewrite Hs. }
  assert (Hsg : ∀ i, sget s' i = if decide (sp (core m) = i) then CObj o else sget (core m) i).
  { intros i. subst s'. unfold sget. cbn. rewrite lookup_insert. by case_decide. }
  eapply turn_pushes; [exact Hf|exact Hd| |lia|done|done|lia|lia|lia]. constructor.
  - apply (keep_push _ (sp (core m))); try done; [|lia]. intros i _. cbn [with_core core]. rewrite Hsg. by case_decide.
  - eapply mem_objpush; [|exact Hi|exact Hs]; lia.
  - cbn. apply u16_id. unfold is_u16, VM_MAX_STACK_SIZE in *. lia.
  - cbn. apply u16_id. unfold is_u16. lia.
  - exists o. cbn [with_core core texts]. rewrite Hsg, decide_True by done. done.
Qed.

Lemma turn_const fuel top m off v :
  ready top 1 m → 0x81 ≤ top ≤ 0x8F → lies (pc (core m)) (INS_OBJCONST :: word (off - pc (core m))) →
  0 ≤ pc (core m) → pc (core m) + 4 ≤ limit → pc (core m) + 3 < 0xFFFF →
  pc (core m) ≤ off < pc (core m) + 65536 → lies off (const_bytes v) → Z.of_nat (length v) ≤ VA_OBJECT_MAX_SIZE →
  off + Z.of_nat (length (const_bytes v)) + 4 ≤ limit →
  ∃ m', turn image [] api full spared fuel m = Ret m' ∧ pushed top (sp (core m)) m m' v 3.
Proof.
  intros [Hi Hb Htc Hst Hr] Ht Hl Hp Hlim Hpc Hoff Hlv Hlen Hlimv.
  destruct (fetch_ins _ _ m Hb Hl) as (l' & Hf & Hlen4); [cbn; lia|done|done|].
  destruct l' as [|b3 [|? ?]]; try done. set (w := off - pc (core m)) in *.
  assert (Hw : be16 (w / 256) (w mod 256) = w) by (unfold be16; pose proof (Z.div_mod w 256); lia).
  destruct (load_constant_ok v off m Hb Hlv Hlen) as (o & Hno & Hc); [lia|lia|].
  set (s1 := set_refs (<[o := 0x80]> (refs (core m))) (core m)) in *.
  set (s' := set_pc (pc (core m) + 3) (set_sp (sp (core m) - 1) (set_stacks (<[sp (core m) := CObj o]> (stacks (core m)))
    (set_refs (<[o := 0x81]> (refs (core m))) (core m))))).
  assert (Hd : vmd_objconst image full (be16 (w / 256) (w mod 256)) m = Ret (mkMach s' (<[o := v]> (texts m)) (tcs m))).
  { rewrite Hw. unfold vmd_objconst. replace (w + pc (core m)) with off by (subst w; lia). rewrite Hc. res_cbn.
    unfold lift, add_ref. cbn [core refs s1 set_refs]. rewrite lookup_insert, decide_True by done. res_cbn.
    unfold vm_push_stack. cbn [core with_core sp set_refs s1]. rewrite wr_stack_ok by lia. res_cbn.
    unfold add_pc, with_core. cbn [core texts tcs]. unfold s', set_pc, set_sp, set_stacks, set_refs. cbn.
    rewrite insert_insert_eq. reflexivity. }
  assert (Hsg : ∀ i, sget s' i = if decide (sp (core m) = i) then CObj o else sget (core m) i).
  { intros i. subst s'. unfold sget. cbn. rewrite lookup_insert. by case_decide. }
  assert (Hto : texts m !! o = None).
  { destruct (texts m !! o) eqn:E; [|done]. destruct (proj2 (mi_dom _ _ _ _ Hi o) ltac:(by eexists)) as [y Hy]. congruence. }
  eapply turn_pushes; [exact Hf|exact Hd| |lia|done|done|lia|lia|lia]. constructor.
  - apply (keep_push _ (sp (core m))); try done; [| |lia].
    + intros i _. cbn [core]. rewrite Hsg. by case_decide.
    + intros o' t Ho'. cbn [texts]. rewrite lookup_insert_ne by congruence. done.
  - eapply minv_objconst; [exact Ht|exact Hi|exact Hd].
  - cbn. apply u16_id. unfold is_u16, VM_MAX_STACK_SIZE in *. lia.
  - cbn. apply u16_id. unfold is_u16. lia.
  - exists o. cbn [core texts]. rewrite Hsg, decide_True by done. split; [done|]. by rewrite lookup_insert, decide_True.
Qed.

(** the two pops and the push of an operation *)
Lemma binary_ok top m o1 o2 t1 t2 v :
  ready top 0 m → top ≤ 0x8F → sp (core m) + 2 < VM_MAX_STACK_SIZE →
  sget (core m) (sp (core m) + 1) = CObj o2 → texts m !! o2 = Some t2 →
  sget (core m) (sp (core m) + 2) = CObj o1 → texts m !! o1 = Some t1 →
  ∃ q2 q1, pop_arc m = Ret q2 ∧ pop_arc q2.2 = Ret q1 ∧ text_of q2.1 q1.2 = Ret t2 ∧ text_of q1.1 q1.2 = Ret t1 ∧
    ∃ m', push_result full (None, v) q1.2 = Ret m' ∧
      (pc (core m) + 1 < 0xFFFF → 0 ≤ pc (core m) → minv no_credit top m' → pushed top (sp (core m) + 2) m m' v 1).
Proof.
  intros [Hi Hb Htc Hst Hr] Ht Hs H2 Ht2 H1 Ht1.
  destruct (pop_arc_ok top m Hi Ht) as (p2 & E2 & Hi2 & T2 & C2 & G2 & S2 & B2 & P2 & A2 & V2 & _); [lia|lia|by rewrite H2|]. rewrite H2 in E2.
  assert (Hg : sget (core p2) (sp (core p2) + 1) = CObj o1).
  { rewrite S2, G2, decide_False by lia. by replace (sp (core m) + 1 + 1) with (sp (core m) + 2) by lia. }
  destruct (pop_arc_ok top p2 Hi2 Ht) as (p1 & E1 & Hi1 & T1 & C1 & G1 & S1 & B1 & P1 & A1 & V1 & _); [lia|lia|by rewrite Hg|]. rewrite Hg in E1.
  destruct (push_new_ok top v p1 Hi1) as (o & p0 & E0 & F0 & T0 & C0 & G0 & S0 & B0 & P0 & A0 & V0 & _); [lia|].
  exists (CObj o2, p2), (CObj o1, p1). do 2 (split; [done|]). cbn [fst snd text_of]. rewrite T1, T2, Ht2, Ht1. do 2 (split; [done|]).
  exists (add_pc 1 p0). unfold push_result. cbn [fst snd]. rewrite E0. split; [done|]. intros Hpc Hpc0 Hm. constructor; [|done|cbn|cbn|].
  - apply (keep_push _ (sp (core m) + 2)); cbn; [congruence..| | |lia].
    + intros i [Hin Hi']. change (sget (set_pc _ (core p0)) i) with (sget (core p0) i). case_decide; [done|].
      rewrite G0, decide_False by lia. rewrite G1, decide_False by lia. rewrite G2, decide_False by lia. done.
    + intros o' t Ho'. rewrite T0, lookup_insert_ne; [by rewrite T1, T2|]. intros ->. rewrite T1, T2 in F0. congruence.
  - lia.
  - rewrite P0, P1, P2. apply u16_id. unfold is_u16. lia.
  - exists o. cbn. change (sget (set_pc _ (core p0)) ?i) with (sget (core p0) i). rewrite G0, decide_True by lia. split; [done|].
    by rewrite T0, lookup_insert, decide_True.
Qed.

Lemma dispatch_operation fuel op l m : op ∈ operations → length l = 3%nat → dispatch image api full fuel (op :: l) m = vmd_operation full op m.
Proof.
  intros Ho Hl. destruct l as [|b1 [|b2 [|b3 [|? ?]]]]; try done. unfold operations in Ho.
  repeat (apply elem_of_cons in Ho as [->|Ho]; [reflexivity|]). by apply not_elem_of_nil in Ho.
Qed.

Lemma dispatch_compare fuel op l m : op ∈ comparisons → length l = 3%nat → dispatch image api full fuel (op :: l) m = vmd_compare full op m.
Proof.
  intros Ho Hl. destruct l as [|b1 [|b2 [|b3 [|? ?]]]]; try done. unfold comparisons in Ho.
  repeat (apply elem_of_cons in Ho as [->|Ho]; [reflexivity|]). by apply not_elem_of_nil in Ho.
Qed.

Lemma turn_op fuel top m op o1 o2 t1 t2 v :
  ready top 0 m → 0x81 ≤ top ≤ 0x8F → sp (core m) + 2 < VM_MAX_STACK_SIZE → op ∈ operations ++ comparisons →
  lies (pc (core m)) [op] → 0 ≤ pc (core m) → pc (core m) + 4 ≤ limit → pc (core m) + 1 < 0xFFFF →
  sget (core m) (sp (core m) + 1) = CObj o2 → texts m !! o2 = Some t2 →
  sget (core m) (sp (core m) + 2) = CObj o1 → texts m !! o1 = Some t1 → apply_op op t2 t1 = Some v →
  ∃ m', turn image [] api full spared fuel m = Ret m' ∧ pushed top (sp (core m) + 2) m m' v 1.
Proof.
  intros Hrd Ht Hs Hop Hl Hp Hlim Hpc H2 Ht2 H1 Ht1 Hv.
  destruct (binary_ok top m o1 o2 t1 t2 v Hrd) as (q2 & q1 & E2 & E1 & X2 & X1 & m1 & Er & Hpush); [lia|done..|].
  destruct Hrd as [Hi Hb Htc Hst Hr].
  destruct (fetch_ins _ _ m Hb Hl) as (l' & Hf & Hlen); [cbn; lia|done|done|]. cbn [app length] in Hf, Hlen.
  assert (Hd : dispatch image api full fuel (op :: l') m = Ret m1 ∧ minv no_credit top m1).
  { unfold apply_op in Hv. apply elem_of_app in Hop as [Hop|Hop].
    - rewrite dispatch_operation by (done || lia). rewrite bool_decide_eq_true_2 in Hv by done.
      assert (Ev : vmd_operation full op m = Ret m1).
      { unfold vmd_operation. rewrite E2. res_cbn. rewrite E1. res_cbn. rewrite X2. res_cbn. rewrite X1. res_cbn.
        destruct (vm_operation_object op t2 t1) as [[[?|] t]| |]; try done. injection Hv as ->. exact Er. }
      split; [done|]. eapply minv_operation; [exact Ht|exact Hi|exact Ev].
    - rewrite dispatch_compare by (done || lia).
      rewrite (proj1 (Forall_forall (λ o, bool_decide (o ∈ operations) = false) comparisons) ltac:(repeat constructor) op Hop) in Hv.
      assert (Ev : vmd_compare full op m = Ret m1).
      { unfold vmd_compare. rewrite E2. res_cbn. rewrite E1. res_cbn. rewrite X2. res_cbn. rewrite X1. res_cbn.
        destruct (vm_compare_object op t2 t1) as [t| |]; try done. injection Hv as ->. exact Er. }
      split; [done|]. eapply minv_compare; [exact Ht|exact Hi|exact Ev]. }
  destruct Hd as [Hd Hm]. eapply turn_pushes; [exact Hf|exact Hd| |lia|done|done|lia|lia|lia]. by apply Hpush.
Qed.

(** *** A library call *)

(** the objects made for the result, with the stack as it was *)
Lemma syscall_ok id m o t v :
  minv no_credit 0x8F m → sp (core m) + 1 < VM_MAX_STACK_SIZE → 0 ≤ sp (core m) →
  sget (core m) (sp (core m) + 1) = CObj o → texts m !! o = Some t → call_result api id t = Some v →
  ∃ o' R T, vm_syscall api full 1 id m = Ret (Some o', mkMach (set_refs R (core m)) T (tcs m)) ∧
    T !! o' = Some v ∧ ∀ x y, texts m !! x = Some y → T !! x = Some y.
Proof.
  intros Hi Hs H0 Ho Ht Hv. unfold call_result in Hv. destruct (api id) as [entry|] eqn:Ea; [|done].
  destruct (create_ok full Hroom [] m) as (o1 & F1 & E1).
  set (m1 := mkMach (set_refs (<[o1 := 0x81]> (refs (core m))) (core m)) (<[o1 := []]> (texts m)) (tcs m)) in *.
  assert (Hto : ∀ m x, minv no_credit 0x8F m → refs (core m) !! x = None → texts m !! x = None).
  { intros m' x Hm Hx. destruct (texts m' !! x) eqn:E; [|done]. destruct (proj2 (mi_dom _ _ _ _ Hm x) ltac:(by eexists)) as [y Hy]. congruence. }
  assert (Hext : ∀ x y, texts m !! x = Some y → texts m1 !! x = Some y).
  { intros x y Hx. cbn [m1 texts]. rewrite lookup_insert_ne; [done|]. intros ->. rewrite (Hto m x Hi F1) in Hx. done. }
  assert (Eargs : arguments 1 m1 = Ret [t]).
  { unfold arguments, vm_get_argument. cbn [seq foldM]. cbv zeta. change (sp (core m1)) with (sp (core m)). change (Z.of_nat 1) with 1. change (Z.of_nat 0) with 0.
    rewrite u16_id by (unfold is_u16, VM_MAX_STACK_SIZE in *; lia). rewrite Z.sub_0_r. rewrite (proj2 (Z.leb_le _ _)) by lia. rewrite rd_stack_ok by lia.
    change (sget (core m1) ?i) with (sget (core m) i). rewrite Ho. cbn [mbind res_bind text_of]. by rewrite (Hext o t Ht). }
  unfold vm_syscall. rewrite Ea, E1. cbn [mbind res_bind fst snd]. rewrite Eargs. cbn [mbind res_bind].
  destruct (entry [t]) as [[[excp|] r]| |] eqn:Ee; try done. injection Hv as <-. cbn [mbind res_bind fst snd]. destruct r as [b|].
  - destruct (create_ok full Hroom b m1) as (o2 & F2 & E2). rewrite E2. cbn [mbind res_bind fst snd].
    eexists o2, _, _. split; [reflexivity|]. split; [by rewrite lookup_insert, decide_True|]. intros x y Hx. rewrite lookup_insert_ne; [by apply Hext|].
    intros ->. apply Hext in Hx. cbn [m1 core refs set_refs] in F2. apply lookup_insert_None in F2 as [F2 Hne]. cbn [m1 texts] in Hx. rewrite lookup_insert_ne in Hx by done.
    rewrite (Hto m x Hi F2) in Hx. done.
  - eexists o1, _, _. split; [reflexivity|]. split; [cbn [m1 texts]; by rewrite lookup_insert, decide_True|done].
Qed.

Lemma turn_call fuel top m id o t v :
  ready top 0 m → 0x81 ≤ top ≤ 0x8F → sp (core m) + 1 < VM_MAX_STACK_SIZE → 0 ≤ id < 254 →
  lies (pc (core m)) [INS_SYSCALL0 + 1; id] → 0 ≤ pc (core m) → pc (core m) + 4 ≤ limit → pc (core m) + 2 < 0xFFFF →
  sget (core m) (sp (core m) + 1) = CObj o → texts m !! o = Some t → call_result api id t = Some v →
  ∃ m', turn image [] api full spared fuel m = Ret m' ∧ pushed top (sp (core m) + 1) m m' v 2.
Proof.
  intros [Hi Hb Htc Hst Hr] Ht Hs Hid Hl Hp Hlim Hpc Ho Hto Hv.
  destruct (fetch_ins _ _ m Hb Hl) as (l' & Hf & Hlen); [cbn; lia|done|done|]. destruct l' as [|b2 [|b3 [|? ?]]]; try done. cbn [app] in Hf.
  set (m0 := add_pc 2 m) in *. assert (Hi0 : minv no_credit top m0) by (by apply minv_add_pc).
  destruct (syscall_ok id m0 o t v) as (o' & R & T & E & Hov & Hext); [eapply minv_weaken; [exact Hi0|done|lia]|done|cbn; lia|done|done|done|].
  set (m2 := mkMach (set_refs R (core m0)) T (tcs m0)) in *.
  pose proof (minv_vm_syscall api full top ltac:(lia) _ _ _ _ Hi0 E) as Hm2. cbn [fst snd] in Hm2. destruct Hm2 as [Hm2 _].
  assert (Hi2 : minv no_credit top m2). { eapply minv_weaken; [exact Hm2| |done]. intros q. unfold delta. case_decide; lia. }
  destruct (pop_arc_ok top m2 Hi2) as (m3 & E3 & Hi3 & T3 & C3 & G3 & S3 & B3 & P3 & A3 & V3 & _); [lia|cbn; lia|cbn; lia|change (sget (core m2) ?i) with (sget (core m) i); cbn [m2 core m0 add_pc with_core sp set_refs set_pc]; by rewrite Ho|].
  change (sp (core m2)) with (sp (core m)) in *. change (sget (core m2) ?i) with (sget (core m) i) in *.
  cbn in B3, A3, V3, C3.
  set (s4 := set_sp (sp (core m3) - 1) (set_stacks (<[sp (core m3) := CObj o']> (stacks (core m3))) (core m3))).
  assert (Hd : dispatch image api full fuel [INS_SYSCALL0 + 1; id; b2; b3] m = Ret (with_core s4 m3)).
  { assert (Ed : dispatch image api full fuel [INS_SYSCALL0 + 1; id; b2; b3] m =
      (if id <? 254 then vmd_syscall api full 1 2 id m else vmd_syscall api full 1 4 (be16 b2 b3) m)) by reflexivity.
    rewrite Ed, (proj2 (Z.ltb_lt _ _)) by lia. unfold vmd_syscall. fold m0. rewrite E. cbn [mbind res_bind fst snd times].
    unfold pop_drop. rewrite E3. cbn [mbind res_bind snd]. rewrite V3, Hst.
    change (VM_STATE_RUN =? VM_STATE_RUN) with true. cbn iota. cbn [from_option_ub mbind res_bind]. unfold lift, vm_push_stack. rewrite wr_stack_ok by lia. done. }
  assert (Hm : minv no_credit top (with_core s4 m3)).
  { eapply (minv_syscall api full top ltac:(lia) 1 2 id m); [done|]. revert Hd. 
    assert (Ed : dispatch image api full fuel [INS_SYSCALL0 + 1; id; b2; b3] m =
      (if id <? 254 then vmd_syscall api full 1 2 id m else vmd_syscall api full 1 4 (be16 b2 b3) m)) by reflexivity.
    rewrite Ed, (proj2 (Z.ltb_lt _ _)) by lia. done. }
  assert (Hsg : ∀ i, sget s4 i = if decide (sp (core m) + 1 = i) then CObj o' else sget (core m3) i).
  { intros i. subst s4. unfold sget. cbn. rewrite S3, lookup_insert. by case_decide. }
  eapply turn_pushes; [exact Hf|exact Hd| |lia|done|done|lia|lia|lia]. constructor.
  - apply (keep_push _ (sp (core m) + 1)); cbn; [congruence..| | |lia].
    + intros i _. rewrite Hsg. case_decide; [done|]. rewrite G3, decide_False by done. done.
    + intros x y Hx. rewrite T3. by apply Hext.
  - exact Hm.
  - cbn. rewrite S3. rewrite u16_id; [lia|]. unfold is_u16, VM_MAX_STACK_SIZE in *. lia.
  - cbn. rewrite P3. cbn. apply u16_id. unfold is_u16. lia.
  - exists o'. cbn [with_core core texts]. rewrite Hsg, decide_True by done. split; [done|]. by rewrite T3.
Qed.

(** ** Expressions *)

(** the code and the constants lie in the image, the operators are known *)
Fixpoint placed (pc : Z) (e : expr) : Prop :=
  match e with
  | EConst offset v =>
      pc ≤ offset < pc + 65536 ∧ lies offset (const_bytes v) ∧ Z.of_nat (length v) ≤ VA_OBJECT_MAX_SIZE ∧
      offset + Z.of_nat (length (const_bytes v)) + 4 ≤ limit
  | EVar x => is_byte x
  | EOp op e1 e2 => op ∈ operations ++ comparisons ∧ placed pc e1 ∧ placed (pc + Z.of_nat (length (code pc e1))) e2
  | ECall id e1 => 0 ≤ id < 254 ∧ placed pc e1
  end.

(** the variables in the frame *)
Definition holds (env : Z → option (list Z)) (m : machine) : Prop :=
  ∀ x t, env x = Some t → ∃ o, 0 ≤ bp (core m) - (x + 1) ∧ sget (core m) (bp (core m) - (x + 1)) = CObj o ∧ texts m !! o = Some t.

Lemma holds_keep env h m m' : holds env m → keep h m m' → 0 ≤ bp (core m) < VM_MAX_STACK_SIZE → (∀ x, is_Some (env x) → 0 ≤ x) → holds env m'.
Proof.
  intros He Hk Hb Hx x t Ht. destruct (He x t Ht) as (o & H0 & Ho & Hv). exists o. rewrite (kp_bp _ _ _ Hk). split; [done|].
  assert (0 ≤ x) by (apply Hx; by eexists). assert (Hi : outside h m (bp (core m) - (x + 1))) by (split; [|left]; lia).
  split; [by rewrite (kp_cells _ _ _ Hk)|by eapply (kp_texts _ _ _ Hk)].
Qed.

(** [n] turns of the loop, which goes on while the state is RUN *)
Definition one (fuel : nat) (m : machine) : res machine :=
  x ← decode_step image [] api full spared fuel m; match x with inl m' => Ret m' | inr _ => Undef end.

Definition after (fuel : nat) (n : nat) (m : machine) : res machine := times n (one fuel) m.

Lemma one_turn fuel m m' :
  vm_state (core m) = VM_STATE_RUN → turn image [] api full spared fuel m = Ret m' → one fuel m = Ret m'.
Proof. intros Hs Ht. unfold one, decode_step. rewrite Hs. change (VM_STATE_RUN =? VM_STATE_RUN) with true. cbn iota. by rewrite Ht. Qed.

Lemma after_loop fuel n m m' : after fuel n m = Ret m' → iters (decode_step image [] api full spared fuel) n m m'.
Proof.
  unfold after. revert m. induction n as [|n IH]; intros m H; cbn in H; [injection H as <-; constructor|].
  destruct (one fuel m) as [m1| |] eqn:E; try done. cbn in H. unfold one in E. destruct (decode_step _ _ _ _ _ _ m) as [[x|x]| |] eqn:Ed; try done.
  cbn in E. injection E as ->. econstructor; [exact Ed|by apply IH].
Qed.

Lemma times_app {A} (f : A → res A) n k (a : A) : times (n + k) f a = times n f a ≫= times k f.
Proof. revert a. induction n as [|n IH]; intros a; cbn; [done|]. destruct (f a); cbn; [apply IH|done|done]. Qed.

Lemma reads_nonneg e : 0 ≤ reads e.
Proof. induction e; cbn; lia. Qed.

Lemma depth_pos e : 1 ≤ depth e.
Proof. induction e; cbn; lia. Qed.

Lemma expr_runs fuel env e : ∀ m top pc0 v,
  ready top (depth e) m → 0x81 ≤ top → top + reads e ≤ 0x8F → pc (core m) = pc0 → 0 ≤ pc0 →
  pc0 + Z.of_nat (length (code pc0 e)) < 0xFFFF → pc0 + Z.of_nat (length (code pc0 e)) + 4 ≤ limit →
  placed pc0 e → lies pc0 (code pc0 e) → holds env m → (∀ x, is_Some (env x) → 0 ≤ x) → value api env e = Some v →
  ∃ m', after fuel (size e) m = Ret m' ∧ pushed (top + reads e) (sp (core m)) m m' v (Z.of_nat (length (code pc0 e))).
Proof.
  induction e as [off w|x|op e1 IH1 e2 IH2|id e1 IH1]; intros m top pc0 v Hrd Ht Hr <- Hp Hpc Hlim Hpl Hl He Hx Hv; cbn [code word length size reads depth value placed after times] in *.
  - injection Hv as <-. destruct Hpl as (Ho & Hlv & Hlen & Hlimv). rewrite Z.add_0_r.
    destruct (turn_const fuel top m off w Hrd) as (m' & E & Hm'); [lia|done|done|lia|lia|done..|]. exists m'. rewrite (one_turn _ _ _ (rd_run _ _ _ _ Hrd) E). done.
  - destruct (He x v Hv) as (o & Hb0 & Ho & Hto). destruct (turn_var fuel top m x o v Hrd) as (m' & E & Hm'); [lia|done|done|done|lia|lia|done..|].
    exists m'. rewrite (one_turn _ _ _ (rd_run _ _ _ _ Hrd) E). done.
  - destruct (value api env e1) as [t1|] eqn:E1; [|done]. cbn in Hv. destruct (value api env e2) as [t2|] eqn:E2; [|done]. cbn in Hv.
    set (c1 := code (pc (core m)) e1) in *. set (pc1 := pc (core m) + Z.of_nat (length c1)) in *. set (c2 := code pc1 e2) in *.
    destruct Hpl as (Hop & Hp1 & Hp2). rewrite !length_app in Hpc, Hlim |- *. cbn [length] in *.
    apply (lies_app image p) in Hl as [Hl1 Hl]. apply (lies_app image p) in Hl as [Hl2 Hl3]. fold pc1 in Hl2, Hl3.
    pose proof (reads_nonneg e1). pose proof (reads_nonneg e2). pose proof (depth_pos e1). pose proof (depth_pos e2). destruct Hrd as [Hi Hb Htc Hst Hroom'].
    destruct (IH1 m top (pc (core m)) t1) as (m1 & R1 & [K1 M1 S1 P1 (o1 & G1 & T1)]); [|lia|lia|done|done|fold c1; lia|fold c1; lia|done..|].
    { constructor; try done; lia. }
    fold c1 in P1. destruct (IH2 m1 (top + reads e1) pc1 t2) as (m2 & R2 & [K2 M2 S2 P2 (o2 & G2 & T2)]);
      [|lia|lia|lia|lia|fold c2; lia|fold c2; lia|done|done| |done|done|].
    { constructor; [done|by rewrite (kp_base _ _ _ K1)|by rewrite (kp_tcs _ _ _ K1)|by rewrite (kp_state _ _ _ K1)|].
      rewrite (kp_bp _ _ _ K1), S1. lia. }
    { eapply holds_keep; [done|done|lia|done]. }
    fold c2 in P2. assert (Hout : outside (sp (core m1)) m1 (sp (core m))) by (split; [lia|right; lia]).
    assert (K12 : keep (sp (core m)) m m2) by (eapply keep_trans; [done|done|lia]).
    destruct (turn_op fuel (top + reads e1 + reads e2) m2 op o1 o2 t1 t2 v) as (m3 & R3 & [K3 M3 S3 P3 (o & G3 & T3)]).
    + constructor; [done|by rewrite (kp_base _ _ _ K12)|by rewrite (kp_tcs _ _ _ K12)|by rewrite (kp_state _ _ _ K12)|].
      rewrite (kp_bp _ _ _ K12), S2, S1. lia.
    + lia.
    + rewrite S2, S1. lia.
    + done.
    + rewrite P2, P1. exact Hl3.
    + lia.
    + subst pc1. lia.
    + subst pc1. lia.
    + rewrite S2. by replace (sp (core m1) - 1 + 1) with (sp (core m1)) by lia.
    + done.
    + rewrite S2, S1. replace (sp (core m) - 1 - 1 + 2) with (sp (core m)) by lia. by rewrite (kp_cells _ _ _ K2).
    + by eapply (kp_texts _ _ _ K2).
    + done.
    + assert (Eh : sp (core m2) + 2 = sp (core m)) by lia. rewrite Eh in *.
      exists m3. split; [unfold after; rewrite !times_app; unfold after in R1, R2; rewrite R1; cbn [mbind res_bind]; rewrite R2; cbn [mbind res_bind times];
        rewrite (one_turn _ m2 m3 ltac:(by rewrite (kp_state _ _ _ K12)) R3); done|].
      rewrite Z.add_assoc. constructor; [by eapply keep_trans|done|lia|subst pc1; lia|by exists o].
  - destruct (value api env e1) as [t1|] eqn:E1; [|done]. cbn in Hv. destruct Hpl as [Hid Hp1].
    rewrite !length_app in Hpc, Hlim |- *. cbn [length] in *. apply (lies_app image p) in Hl as [Hl1 Hl2].
    pose proof (depth_pos e1). destruct Hrd as [Hi Hb Htc Hst Hroom'].
    destruct (IH1 m top (pc (core m)) t1) as (m1 & R1 & [K1 M1 S1 P1 (o1 & G1 & T1)]); [by constructor|lia|lia|done|done|lia|lia|done..|].
    assert (Eh : sp (core m1) + 1 = sp (core m)) by lia.
    destruct (turn_call fuel (top + reads e1) m1 id o1 t1 v) as (m2 & R2 & [K2 M2 S2 P2 (o2 & G2 & T2)]).
    + constructor; [done|by rewrite (kp_base _ _ _ K1)|by rewrite (kp_tcs _ _ _ K1)|by rewrite (kp_state _ _ _ K1)|].
      rewrite (kp_bp _ _ _ K1), S1. lia.
    + pose proof (reads_nonneg e1). lia.
    + lia.
    + done.
    + rewrite P1. exact Hl2.
    + lia.
    + lia.
    + lia.
    + by rewrite Eh.
    + done.
    + done.
    + rewrite Eh in *. exists m2. split; [unfold after; rewrite times_app; unfold after in R1; rewrite R1; cbn [mbind res_bind times];
        rewrite (one_turn _ m1 m2 ltac:(by rewrite (kp_state _ _ _ K1)) R2); done|].
      constructor; [by eapply keep_trans|done|lia|lia|by exists o2].
Qed.


(** ** Programs *)
Lemma enter_ok m top :
  minv no_credit top m → vm_state (core m) ≠ VM_STATE_EXCEPTION → 0 ≤ bp (core m) → bp (core m) + 2 < VM_MAX_STACK_SIZE →
  ∃ m', enter [] m = Ret m' ∧ minv no_credit top m' ∧ bp (core m') = bp (core m) + 2 ∧ sp (core m') = sp (core m) ∧
    pc (core m') = pc (core m) ∧ base_address (core m') = base_address (core m) ∧ tcs m' = tcs m ∧ vm_state (core m') = VM_STATE_RUN ∧
    sget (core m') (bp (core m)) = CNull ∧ sget (core m') (bp (core m) + 1) = CWord 0xFFFF.
Proof.
  intros Hi Hs H0 Hb. set (b := bp (core m)) in *.
  assert (Hu1 : u16 (b + 1) = b + 1) by (apply u16_id; unfold is_u16, VM_MAX_STACK_SIZE in *; lia).
  assert (Hu2 : u16 (b + 1 + 1) = b + 2) by (rewrite u16_id; unfold is_u16, VM_MAX_STACK_SIZE in *; lia).
  set (s1 := set_bp (b + 1) (set_stacks (<[b := CNull]> (stacks (core m))) (core m))).
  assert (E1 : vm_push_base CNull (core m) = Ret s1) by (unfold vm_push_base; fold b; by rewrite wr_stack_ok by lia).
  set (s2 := set_bp (bp s1 + 1) (set_stacks (<[bp s1 := CWord 0xFFFF]> (stacks s1)) s1)).
  assert (Eb : bp s1 = b + 1) by exact Hu1.
  assert (E2 : vm_push_base (CWord 0xFFFF) s1 = Ret s2) by (unfold vm_push_base; rewrite wr_stack_ok by lia; done).
  destruct (mem_push_base _ _ _ _ _ _ Hi E1 ltac:(done)) as [Hi1 _]. destruct (mem_push_base _ _ _ _ _ _ Hi1 E2 ltac:(done)) as [Hi2 _].
  exists (with_core (set_state VM_STATE_RUN s2) (with_core s2 m)). unfold enter. cbn [foldM mbind res_bind]. unfold lift. rewrite E1. cbn [mbind res_bind].
  rewrite E2. cbn [mbind res_bind core with_core]. change (vm_state s2) with (vm_state (core m)). rewrite (proj2 (Z.eqb_neq _ _)) by done.
  split; [done|]. split.
  { eapply (mem_inv_eq _ _ s2); [|done..]. eapply mem_inv_weaken; [exact Hi2| |done]. intros o. cbn beta. unfold delta. rewrite !decide_False by done. lia. }
  assert (Eb2 : bp s2 = b + 2) by (change (bp s2) with (u16 (bp s1 + 1)); by rewrite Eb).
  split; [exact Eb2|]. do 5 (split; [done|]). change (sget (set_state _ s2) ?i) with (sget s2 i).
  assert (Hg : ∀ i, sget s2 i = if decide (b + 1 = i) then CWord 0xFFFF else if decide (b = i) then CNull else sget (core m) i).
  { intros i. unfold sget, s2. cbn [set_bp set_stacks stacks]. rewrite Eb. unfold s1. cbn [set_bp set_stacks stacks]. rewrite !lookup_insert.
    repeat case_decide; done. }
  rewrite !Hg. rewrite (decide_False (P := b + 1 = b)), !decide_True by lia. done.
Qed.

(** the [INS_RET] of the program returns to 0xFFFF and ends the run *)
Lemma final_ret fuel m top :
  minv no_credit top m → top < 0x8F → 0x81 ≤ top → base_address (core m) = CPkg p → tcs m = [] → vm_state (core m) = VM_STATE_RUN →
  lies (pc (core m)) [INS_RET] → 0 ≤ pc (core m) → pc (core m) + 4 ≤ limit →
  2 ≤ bp (core m) → bp (core m) < sp (core m) → bp (core m) < VM_MAX_STACK_SIZE →
  sget (core m) (bp (core m) - 1) = CWord 0xFFFF → sget (core m) (bp (core m) - 2) = CNull →
  ∃ m', one fuel m = Ret m' ∧ minv no_credit top m' ∧ vm_state (core m') = VM_STATE_INIT ∧ sp (core m') = sp (core m) ∧
    bp (core m') = bp (core m) - 2 ∧ (∀ i, sget (core m') i = sget (core m) i) ∧
    ∀ i o t, 0 ≤ i < VM_MAX_STACK_SIZE → sget (core m) i = CObj o → texts m !! o = Some t → texts m' !! o = Some t.
Proof.
  intros Hi Ht Ht' Hb Htc Hst Hl Hp Hlim H2 Hsp Hmax Hw Hn.
  destruct (fetch_ins _ _ m Hb Hl) as (l' & Hf & Hlen); [cbn; lia|done|done|]. destruct l' as [|b1 [|b2 [|b3 [|? ?]]]]; try done.
  assert (Hu1 : u16 (bp (core m) - 1) = bp (core m) - 1) by (apply u16_id; unfold is_u16, VM_MAX_STACK_SIZE in *; lia).
  assert (Hu2 : u16 (bp (core m) - 1 - 1) = bp (core m) - 2) by (rewrite u16_id; unfold is_u16, VM_MAX_STACK_SIZE in *; lia).
  set (s' := set_package CNull (set_bp (bp (core m) - 1 - 1) (set_pc 0xFFFF (set_bp (bp (core m) - 1) (core m))))).
  assert (Hr : vmd_ret (core m) = Ret s').
  { unfold vmd_ret, vm_pop_base. cbn [bp set_bp]. rewrite Hu1, rd_stack_ok by lia. change (sget (set_bp _ (core m)) ?i) with (sget (core m) i).
    rewrite Hw. res_cbn. cbn [bp set_bp set_pc]. rewrite Hu1, Hu2, rd_stack_ok by lia. change (sget (set_bp _ _) ?i) with (sget (core m) i). rewrite Hn. done. }
  set (m1 := with_core s' m). assert (Hi1 : minv no_credit top m1) by (by eapply mem_inv_eq).
  exists (with_core (set_state VM_STATE_INIT (core (vm_garbage_collect spared m1))) (vm_garbage_collect spared m1)).
  assert (Hbp : bp s' = bp (core m) - 2) by exact Hu2. assert (Hs1 : sp s' = sp (core m)) by done.
  split.
  { apply one_turn; [done|]. unfold turn. rewrite Hf. res_cbn.
    change (dispatch image api full fuel ([INS_RET] ++ [b1; b2; b3]) m) with (lift vmd_ret m). unfold lift. rewrite Hr. res_cbn. fold m1.
    assert (Hc : with_core (vmd_check (core m1)) m1 = m1) by (unfold vmd_check; cbn [m1 core with_core]; by rewrite (proj2 (Z.leb_gt _ _)) by lia).
    rewrite Hc. change (vm_state (core m1)) with (vm_state (core m)). rewrite Hst. change (VM_STATE_RUN =? VM_STATE_EXCEPTION) with false. cbn iota.
    unfold vm_locate_tcblock. cbn [foldl]. change (tcs m1) with (tcs m). rewrite Htc. res_cbn. done. }
  split; [eapply (mem_inv_eq _ _ (core (vm_garbage_collect spared m1))); [apply minv_collect; [lia|done]|done..]|].
  split; [done|]. split; [done|]. split; [exact Hu2|]. split; [done|]. intros i o t Hin Ho Hx. by eapply (gc_texts _ top m1); [|lia|exact Hin|..].
Qed.

(** Programs. [vm_decode] on the code of an expression without variables and
    [INS_RET] ends in as many turns as there are instructions, in the state
    INIT, with the value of the expression on the stack and the frames gone. *)
Theorem program_returns (fuel turns : nat) (e : expr) (m : machine) (top : Z) (v : list Z) :
  let start := pc (core m) in let stop := start + Z.of_nat (length (code start e)) in
  minv no_credit top m → 0x81 ≤ top → top + reads e < 0x8F → base_address (core m) = CPkg p → tcs m = [] →
  vm_state (core m) ≠ VM_STATE_EXCEPTION → 0 ≤ bp (core m) → bp (core m) + 2 + depth e < sp (core m) < VM_MAX_STACK_SIZE →
  0 ≤ start → stop < 0xFFFF → stop + 4 ≤ limit → placed start e → lies start (code start e ++ [INS_RET]) →
  value api (λ _, None) e = Some v → (size e + 2 ≤ turns)%nat →
  ∃ m' o, vm_decode image [] api full spared turns fuel [] m = Ret m' ∧ vm_state (core m') = VM_STATE_INIT ∧
    sp (core m') = sp (core m) - 1 ∧ bp (core m') = bp (core m) ∧ sget (core m') (sp (core m)) = CObj o ∧ texts m' !! o = Some v ∧ mem_ok m'.
Proof.
  cbv zeta. intros Hi Ht Hr Hb Htc Hst Hb0 Hsp Hp Hs Hl Hpl Hlies Hv Hn. pose proof (depth_pos e). pose proof (reads_nonneg e).
  destruct (enter_ok m top Hi Hst Hb0) as (m1 & E1 & Hi1 & B1 & S1 & P1 & A1 & C1 & V1 & G1 & W1); [lia|].
  apply (lies_app image p) in Hlies as [Hl1 Hl2].
  destruct (expr_runs fuel (λ _, None) e m1 top (pc (core m)) v) as (m2 & R2 & [K2 M2 S2 P2 (o & G2 & T2)]);
    [constructor; [done|congruence|congruence|done|lia]|done|lia|done|done|done|done|done|done|by intros x t|by intros x [? ?]|done|].
  destruct (final_ret fuel m2 (top + reads e)) as (m3 & R3 & M3 & V3 & S3 & B3 & G3 & T3); try lia; try done.
  - by rewrite (kp_base _ _ _ K2), A1.
  - by rewrite (kp_tcs _ _ _ K2), C1.
  - by rewrite (kp_state _ _ _ K2).
  - rewrite P2, P1. exact Hl2.
  - rewrite (kp_bp _ _ _ K2). lia.
  - rewrite (kp_bp _ _ _ K2). lia.
  - rewrite (kp_bp _ _ _ K2). lia.
  - rewrite (kp_bp _ _ _ K2), B1, (kp_cells _ _ _ K2); [by replace (bp (core m) + 2 - 1) with (bp (core m) + 1) by lia|]. split; lia.
  - rewrite (kp_bp _ _ _ K2), B1, (kp_cells _ _ _ K2); [by replace (bp (core m) + 2 - 2) with (bp (core m)) by lia|]. split; lia.
  - exists m3, o. split.
    + unfold vm_decode. rewrite E1. cbn [mbind res_bind]. replace turns with (size e + (1 + S (turns - size e - 2)))%nat by lia.
      rewrite (loop_iters _ _ _ _ _ (after_loop _ _ _ _ R2)). apply (loop_exit _ 1 _ _ m3).
      * apply (after_loop fuel 1). unfold after. cbn [times]. by rewrite R3.
      * unfold decode_step. by rewrite V3.
      * lia.
    + split; [done|]. rewrite S3, B3, (kp_bp _ _ _ K2), B1, S2, S1. split; [done|]. split; [lia|]. rewrite G3. rewrite S1 in G2. split; [done|].
      split; [by apply (T3 (sp (core m))); [lia|..]|]. eapply minv_weaken; [exact M3|done|lia].
Qed.

End run.

(** ** Sample: (x + 20) * x with x = 21 *)
Definition sample_expr : expr := EOp INS_MUL (EOp INS_ADD (EVar 0) (EConst 20 [50; 48])) (EVar 0).

Definition sample_env (x : Z) : option (list Z) := if x =? 0 then Some [50; 49] else None.

Definition sample_image : list Z := code 0 sample_expr ++ replicate 11 0 ++ const_bytes [50; 48] ++ replicate 7 0.


(** 20 + 20, on a machine as [vm_init] leaves it *)
Definition constant_expr : expr := EOp INS_ADD (EConst 20 [50; 48]) (EConst 20 [50; 48]).

Definition program_image : list Z := code 0 constant_expr ++ [INS_RET] ++ replicate 12 0 ++ const_bytes [50; 48] ++ replicate 7 0.

Definition initial : machine := mkMach (mkVm ∅ 1999 0 0 (CPkg 0) ∅ VM_STATE_INIT 0) ∅ [].

Lemma program_returns_witness :
  ∃ m' o, vm_decode (image_of program_image) [] no_api never_full frees_all 5 100 [] initial = Ret m' ∧ vm_state (core m') = VM_STATE_INIT ∧
    sp (core m') = 1998 ∧ bp (core m') = 0 ∧ sget (core m') 1999 = CObj o ∧ texts m' !! o = Some [52; 48] ∧ mem_ok m'.
Proof.
  apply (program_returns (image_of program_image) no_api never_full frees_all (λ _ _, eq_refl) 0 30)
    with (top := 0x81) (e := constant_expr) (m := initial).
  - intros k Hk. assert (H : Forall (λ n, is_Some (image_of program_image 0 (Z.of_nat n))) (seq 0 30)) by (vm_compute; repeat constructor; by eexists).
    rewrite Forall_forall in H. specialize (H (Z.to_nat k)). rewrite Z2Nat.id in H by lia. apply H. apply elem_of_seq. lia.
  - destruct (mem_check_ok initial ltac:(vm_compute; reflexivity)) as [H1 H2 H3]. constructor; [done|done|]. intros o r Hr. cbn in Hr; discriminate Hr.
  - lia.
  - vm_compute. reflexivity.
  - reflexivity.
  - reflexivity.
  - vm_compute. congruence.
  - vm_compute. congruence.
  - vm_compute. split; reflexivity.
  - vm_compute. congruence.
  - vm_compute. reflexivity.
  - vm_compute. congruence.
  - assert (Hc : ∀ k x, const_bytes [50; 48] !! k = Some x → image_of program_image 0 (20 + Z.of_nat k) = Some x).
    { intros k x Hk. do 3 (destruct k as [|k]; [vm_compute in Hk |- *; congruence|]). vm_compute in Hk. congruence. }
    cbn [placed constant_expr]. split; [vm_compute; set_solver|].
    split; (split; [vm_compute; split; congruence|]; split; [exact Hc|]; vm_compute; split; congruence).
  - intros k x Hk. do 8 (destruct k as [|k]; [vm_compute in Hk |- *; congruence|]). vm_compute in Hk. congruence.
  - vm_compute. reflexivity.
  - vm_compute. lia.
Defined.
