(* ===== verification/Framework.v ===== *)
(** * The library of the machine (StackLib/StackVM/vm_framework.c)

    The table [g_vaRegisteredApis], by which a system call finds its function,
    and programs that call the converters of Codec on the loop of the machine.
    Functions that are not on texts alone, or have effects outside the program,
    are a parameter. *)
From S2P Require Import Prelude Isa Streamer Linker L1 Vm Gc Decimal Text Bytes Codec Machine MachineSafe MachineOps MachineExpr.

(** a row of the table: [id] and the name of the C function of [entry]; the
    rows of a host build with the options of config.h *)
Record vm_api_entry := mkApi { api_id : Z; api_entry : string }.

Definition g_vaRegisteredApis : list vm_api_entry :=
  [mkApi 0 "va_this"; mkApi 1 "va_set_var"; mkApi 2 "va_get_var"; mkApi 3 "va_delete_var";
   mkApi 4 "va_index_of"; mkApi 5 "va_replace"; mkApi 6 "va_substr"; mkApi 7 "va_bytes"; mkApi 8 "va_fopen";
   mkApi 9 "va_close"; mkApi 10 "va_read"; mkApi 11 "va_write"; mkApi 12 "va_seek";
   mkApi 13 "va_arg_count"; mkApi 14 "va_arg_create"; mkApi 15 "va_arg_object"; mkApi 16 "va_arg_array";
   mkApi 17 "va_arg_at"; mkApi 18 "va_arg_get"; mkApi 19 "va_arg_serialize"; mkApi 20 "va_arg_deserialize";
   mkApi 19 "va_arg_serialize"; mkApi 20 "va_arg_deserialize"; mkApi 21 "va_arg_add"; mkApi 22 "va_arg_set";
   mkApi 23 "va_arg_remove"; mkApi 24 "va_arg_dequeue"; mkApi 25 "va_arg_pop"; mkApi 27 "va_string_split";
   mkApi 28 "va_arg_first"; mkApi 29 "va_arg_try_next"; mkApi 30 "va_dlcast"; mkApi 31 "va_sys_exec"; mkApi 36 "va_dlopen";
   mkApi 40 "va_to_float";
   mkApi 131 "va_bin2hex"; mkApi 132 "va_hex2bin"; mkApi 133 "va_bin2dec"; mkApi 134 "va_b64_encode"; mkApi 135 "va_b64_decode";
   mkApi 136 "va_crypto_create"; mkApi 137 "va_crypto_encrypt"; mkApi 138 "va_crypto_decrypt"; mkApi 139 "va_random"; mkApi 140 "va_digest";
   mkApi 169 "va_display_text";
   mkApi 240 "va_sleep"; mkApi 241 "va_create_thread"; mkApi 242 "va_thread_start"; mkApi 243 "va_thread_stop"]%string.

Section framework.
Context (malloc : nat → list Z) (slack : list Z) (fuel : nat).
Context (other : string → list (list Z) → res outcome).

Definition entry_of (name : string) : list (list Z) → res outcome :=
  if decide (name = "va_bin2hex"%string) then va_bin2hex malloc
  else if decide (name = "va_hex2bin"%string) then va_hex2bin malloc slack fuel
  else if decide (name = "va_bin2dec"%string) then va_bin2dec
  else if decide (name = "va_b64_encode"%string) then va_b64_encode malloc fuel
  else if decide (name = "va_b64_decode"%string) then va_b64_decode malloc slack fuel
  else other name.

(** the search of [vm_syscall]: the first row with the number *)
Fixpoint find_api (table : list vm_api_entry) (x : Z) : option (list (list Z) → res outcome) :=
  match table with
  | [] => None
  | row :: table' => if api_id row =? x then Some (entry_of (api_entry row)) else find_api table' x
  end.

Definition framework (x : Z) : option (list (list Z) → res outcome) := find_api g_vaRegisteredApis x.

(** [e.to_hex()], [e.from_hex()], [e.to_b64()] *)
Definition to_hex (e : expr) : expr := ECall 131 e.
Definition from_hex (e : expr) : expr := ECall 132 e.
Definition to_b64 (e : expr) : expr := ECall 134 e.

Context (Hmalloc : ∀ n, length (malloc n) = n) (Hslack : length slack = SLACK).

Lemma call_to_hex t : Forall is_byte t → call_result framework 131 t = Some (hex_text t).
Proof. intros Ht. unfold call_result. change (framework 131) with (Some (va_bin2hex malloc)). cbv beta iota. by rewrite va_bin2hex_spec. Qed.

Lemma call_from_hex t : (length t + 1 < fuel)%nat → call_result framework 132 t = Some (hex_pairs (before_nul t)).
Proof. intros Ht. unfold call_result. change (framework 132) with (Some (va_hex2bin malloc slack fuel)). cbv beta iota. by rewrite va_hex2bin_spec. Qed.

Lemma call_to_b64 t : Forall is_byte t → (length t < fuel)%nat → call_result framework 134 t = Some (base64 t).
Proof. intros Ht Hf. unfold call_result. change (framework 134) with (Some (va_b64_encode malloc fuel)). cbv beta iota. by rewrite va_b64_encode_spec. Qed.

(** the values of the calls, whatever the expression *)
Lemma converter_values env e t : value framework env e = Some t → Forall is_byte t → (2 * length t + 1 < fuel)%nat →
  value framework env (from_hex (to_hex e)) = Some t ∧ value framework env (to_b64 e) = Some (base64 t).
Proof.
  intros He Ht Hf. cbn [value from_hex to_hex to_b64]. rewrite He. cbn [mbind option_bind]. rewrite call_to_hex by done. cbn [mbind option_bind].
  rewrite call_from_hex by (rewrite length_hex_text; lia). rewrite before_nul_id, hex_pairs_text by (done || by apply hex_text_range).
  split; [done|]. apply call_to_b64; [done|lia].
Qed.

Lemma converter_shape pc e :
  code pc (from_hex (to_hex e)) = code pc e ++ [INS_SYSCALL0 + 1; 131; INS_SYSCALL0 + 1; 132] ∧
  code pc (to_b64 e) = code pc e ++ [INS_SYSCALL0 + 1; 134].
Proof. cbn [code from_hex to_hex to_b64]. by rewrite <-app_assoc. Qed.
End framework.

(** ** Calls on the loop of the machine *)
Section run.
Context (malloc : nat → list Z) (slack : list Z) (fuel : nat) (other : string → list (list Z) → res outcome).
Context (image : nat → Z → option Z) (full : gmap nat (list Z) → Z → bool) (spared : gmap nat (list Z) → nat → bool).

(** the loop runs the code of [e] and leaves one more object, with the text [v] *)
Definition leaves (e : expr) (v : list Z) (m : machine) : Prop :=
  ∃ m' o, after image (framework malloc slack fuel other) full spared fuel (size e) m = Ret m' ∧
    pc (core m') = pc (core m) + Z.of_nat (length (code (pc (core m)) e)) ∧ sp (core m') = sp (core m) - 1 ∧
    sget (core m') (sp (core m)) = CObj o ∧ texts m' !! o = Some v ∧ keep (sp (core m)) m m' ∧ mem_ok m'.

(** the code of [e] lies at the program counter, with all it needs *)
Definition runnable (p : nat) (limit : Z) (env : Z → option (list Z)) (top : Z) (e : expr) (m : machine) : Prop :=
  let stop := pc (core m) + Z.of_nat (length (code (pc (core m)) e)) in
  ready p top (depth e) m ∧ 0x81 ≤ top ∧ top + reads e ≤ 0x8F ∧ 0 ≤ pc (core m) ∧ stop < 0xFFFF ∧ stop + 4 ≤ limit ∧
  placed image p limit (pc (core m)) e ∧ lies image p (pc (core m)) (code (pc (core m)) e) ∧
  holds env m ∧ ∀ x, is_Some (env x) → 0 ≤ x.

Lemma runnable_leaves p limit env top e m v : (∀ T n, full T n = false) → (∀ k, 0 ≤ k < limit → is_Some (image p k)) →
  runnable p limit env top e m → value (framework malloc slack fuel other) env e = Some v → leaves e v m.
Proof.
  intros Hroom Hread (Hrd & Ht & Hr & Hp & Hs & Hl & Hpl & Hlies & He & Hx) Hv.
  destruct (expr_runs image (framework malloc slack fuel other) full spared Hroom p limit Hread fuel env e m top (pc (core m)) v)
    as (m' & R & [K M S P (o & G & T)]); try done.
  exists m', o. split; [exact R|]. split; [exact P|]. split; [exact S|]. split; [exact G|]. split; [exact T|]. split; [exact K|].
  eapply minv_weaken; [exact M|done|lia].
Qed.
End run.


(** *** Sample: (x + 20) in hexadecimal and back, and in Base 64, with x = 21 *)
Definition sum_expr : expr := EOp INS_ADD (EVar 0) (EConst 20 [50; 48]).
Definition call_image (e : expr) : list Z := code 0 e ++ replicate (20 - length (code 0 e)) 0 ++ const_bytes [50; 48] ++ replicate 7 0.
Definition no_other (name : string) (args : list (list Z)) : res outcome := Undef.

Lemma sample_runnable e : e = from_hex (to_hex sum_expr) ∨ e = to_b64 sum_expr →
  runnable (image_of (call_image e)) 0 30 sample_env 0x81 e (one_variable [50; 49]).
Proof.
  assert (Hready : ready 0 0x81 2 (one_variable [50; 49])).
  { constructor; try reflexivity; [|vm_compute; repeat split; congruence].
    destruct (one_variable_ok [50; 49]) as [H1 H2 H3]. constructor; [done|done|]. intros o r Hr. destruct (H3 o r Hr). split; [|lia].
    cbn in Hr. apply lookup_singleton_Some in Hr as [_ <-]. unfold VM_MAGIC. lia. }
  assert (Hholds : holds sample_env (one_variable [50; 49]) ∧ ∀ x, is_Some (sample_env x) → 0 ≤ x).
  { split; [|intros x [t Hx]; unfold sample_env in Hx; destruct (Z.eqb_spec x 0) as [->|]; [lia|done]].
    intros x t Hx. unfold sample_env in Hx. destruct (Z.eqb_spec x 0) as [->|]; [|done]. injection Hx as <-. exists 0%nat. split; [vm_compute; congruence|]. by split. }
  assert (Hc : ∀ e, e = from_hex (to_hex sum_expr) ∨ e = to_b64 sum_expr → lies (image_of (call_image e)) 0 20 (const_bytes [50; 48])).
  { intros e0 [-> | ->] k x Hk; (do 3 (destruct k as [|k]; [vm_compute in Hk |- *; congruence|])); vm_compute in Hk; congruence. }
  intros He. split; [destruct He as [-> | ->]; exact Hready|]. split; [lia|].
  assert (Hpl : placed (image_of (call_image e)) 0 30 0 e).
  { pose proof (Hc e He) as Hce. destruct He as [-> | ->]; cbn [placed from_hex to_hex to_b64 sum_expr];
      repeat (split; [try (vm_compute; (set_solver || (split; congruence)))|]); try exact Hce; vm_compute; (congruence || (split; congruence)). }
  destruct He as [-> | ->]; (split; [vm_compute; congruence|]; split; [vm_compute; congruence|]; split; [reflexivity|]; split; [vm_compute; congruence|]; split; [exact Hpl|]; split; [|exact Hholds]);
    intros k x Hk; (do 10 (destruct k as [|k]; [vm_compute in Hk |- *; congruence|])); vm_compute in Hk; congruence.
Qed.

Lemma sample_image_read e : e = from_hex (to_hex sum_expr) ∨ e = to_b64 sum_expr → ∀ k, 0 ≤ k < 30 → is_Some (image_of (call_image e) 0 k).
Proof.
  intros He k Hk. assert (H : Forall (λ n, is_Some (image_of (call_image e) 0 (Z.of_nat n))) (seq 0 30))
    by (destruct He as [-> | ->]; vm_compute; repeat constructor; by eexists).
  rewrite Forall_forall in H. specialize (H (Z.to_nat k)). rewrite Z2Nat.id in H by lia. apply H. apply elem_of_seq. lia.
Qed.

