(* ===== verification/MachineCtl.v ===== *)
(** * Exceptions and switches of the machine

    A pending exception is handed to the try block entered last: the stack is
    unwound to its height on entry, the handler's arguments are pushed (the text
    of the exception first), and the machine runs on at the handler. A switch
    compares the object on top with the constants of a jump table in order. *)
From S2P Require Import Prelude Isa Streamer Linker L1 Vm Gc Decimal Text Machine MachineSafe MachineOps.

(** ** Exceptions *)
Record same_frame (m m' : machine) : Prop := {
  sf_bp : bp (core m') = bp (core m);
  sf_base : base_address (core m') = base_address (core m);
  sf_tcs : tcs m' = tcs m;
  sf_exc : exception_code (core m') = exception_code (core m);
  sf_state : vm_state (core m') = vm_state (core m);
  sf_pc : pc (core m') = pc (core m)
}.

#[export] Instance same_frame_preorder : PreOrder same_frame.
Proof. split; [by constructor|]. intros m1 m2 m3 [] []. constructor; congruence. Qed.

Lemma unwind_ok tgt n : ∀ m fuel,
  minv no_credit 0x8F m → 0 ≤ sp (core m) → sp (core m) + Z.of_nat n = tgt → tgt < VM_MAX_STACK_SIZE →
  (∀ i, sp (core m) < i ≤ tgt → poppable (sget (core m) i)) → (n < fuel)%nat →
  ∃ m', loop fuel (unwind_step tgt) m = Ret m' ∧ minv no_credit 0x8F m' ∧ sp (core m') = tgt ∧ texts m' = texts m ∧ same_frame m m' ∧
    ∀ i, sget (core m') i = if bool_decide (sp (core m) < i ≤ tgt) then CNull else sget (core m) i.
Proof.
  induction n as [|n IH]; intros m fuel Hi H0 Hs Ht Hp Hf; (destruct fuel as [|fuel]; [lia|]).
  - exists m. split; [apply loop_inr; unfold unwind_step; by rewrite (proj2 (Z.eqb_eq _ _)) by lia|]. split; [done|]. split; [lia|].
    split; [done|]. split; [done|]. intros i. rewrite bool_decide_false by lia. done.
  - destruct (pop_arc_ok 0x8F m Hi) as (m1 & E & Hi1 & T1 & C1 & G1 & S1 & B1 & P1 & A1 & V1 & X1); [lia|lia|lia|apply Hp; lia|].
    destruct (IH m1 fuel Hi1) as (m2 & E2 & Hi2 & S2 & T2 & F2 & G2); [lia|lia|lia| |lia|].
    { intros i Hr. rewrite G1. case_decide; [done|]. apply Hp. lia. }
    exists m2. split; [|split; [done|split; [done|split; [congruence|split]]]].
    + rewrite (loop_inl _ _ _ m1); [done|]. unfold unwind_step. rewrite (proj2 (Z.eqb_neq _ _)) by lia. unfold pop_drop. by rewrite E.
    + etrans; [|exact F2]. by constructor.
    + intros i. rewrite G2, G1, S1. repeat case_bool_decide; try case_decide; try done; lia.
Qed.

Section ctl.
Context (full : gmap nat (list Z) → Z → bool) (Hroom : ∀ T n, full T n = false).

(** the argument [k] of the handler of an exception with text [t] *)
Definition argument_text (t : list Z) (k : nat) : list Z := if decide (k = 0%nat) then t else [].

Lemma catch_argument_ok k m t :
  minv no_credit 0x8F m → 0 < sp (core m) < VM_MAX_STACK_SIZE → exception_text (exception_code (core m)) = Ret t →
  ∃ o m', catch_argument full k m = Ret m' ∧ minv no_credit 0x8F m' ∧ texts m !! o = None ∧
    texts m' = <[o := argument_text t k]> (texts m) ∧ sp (core m') = sp (core m) - 1 ∧ same_frame m m' ∧
    ∀ i, sget (core m') i = if decide (sp (core m) = i) then CObj o else sget (core m) i.
Proof.
  intros Hi Hs Ht. set (b := argument_text t k). destruct (push_new_ok full Hroom 0x8F b m Hi Hs) as (o & m1 & E & Hf & T & C & G & S & B & P & A & V & X).
  set (m2 := with_core (set_refs (<[o := u8 (0x81 + 1)]> (refs (core m1))) (core m1)) m1).
  assert (Ec : catch_argument full k m = Ret m2).
  { unfold catch_argument. assert (Eb : (if decide (k = 0%nat) then exception_text (exception_code (core m)) else Ret []) = Ret b).
    { unfold b, argument_text. by case_decide. }
    rewrite Eb.
    res_cbn. unfold push_new in E. destruct (create_ok full Hroom b m) as (o' & Hf' & Ecr). rewrite Ecr in E |- *. cbn [mbind res_bind fst snd] in E |- *.
    rewrite E. res_cbn.
    assert (Ho : o' = o).
    { apply (f_equal (λ M, M !! o')) in T. unfold lift in E. res_inv E. injection E as <-. cbn [texts with_core] in T.
      rewrite lookup_insert, decide_True in T by done. symmetry in T. apply lookup_insert_Some in T as [[? _]|[_ T]]; [done|].
      destruct (proj2 (mi_dom _ _ _ _ Hi o') ltac:(by eexists)) as [x Hx]. congruence. }
    subst o'. assert (Hr : refs (core m1) !! o = Some 0x81).
    { unfold lift, vm_push_stack in E. res_inv E. injection E as <-. res_inv E0. apply wr_stack_inv in E as [_ ->]. injection E0 as <-.
      cbn. by rewrite lookup_insert, decide_True. }
    unfold lift, add_ref. rewrite Hr. done. }
  exists o, m2. split; [exact Ec|]. split; [by eapply minv_catch_argument|]. by repeat split.
Qed.

Lemma arguments_ok n : ∀ k m t,
  minv no_credit 0x8F m → Z.of_nat n < sp (core m) < VM_MAX_STACK_SIZE → exception_text (exception_code (core m)) = Ret t →
  ∃ m', foldM (catch_argument full) (seq k n) m = Ret m' ∧ minv no_credit 0x8F m' ∧ sp (core m') = sp (core m) - Z.of_nat n ∧ same_frame m m' ∧
    (∀ o x, texts m !! o = Some x → texts m' !! o = Some x) ∧
    (∀ i, i ≤ sp (core m) - Z.of_nat n ∨ sp (core m) < i → sget (core m') i = sget (core m) i) ∧
    ∀ j, (j < n)%nat → ∃ o, sget (core m') (sp (core m) - Z.of_nat j) = CObj o ∧ texts m' !! o = Some (argument_text t (k + j)).
Proof.
  induction n as [|n IH]; intros k m t Hi Hs Ht; cbn [seq foldM].
  { exists m. do 2 (split; [done|]). split; [lia|]. split; [done|]. split; [done|]. split; [done|]. intros j Hj. lia. }
  destruct (catch_argument_ok k m t Hi) as (o & m1 & E & Hi1 & Hf & T1 & S1 & F1 & G1); [lia|done|].
  destruct (IH (S k) m1 t Hi1) as (m2 & E2 & Hi2 & S2 & F2 & T2 & G2 & A2); [lia|by rewrite (sf_exc _ _ F1)|].
  exists m2. rewrite E. cbn [mbind res_bind]. split; [exact E2|]. split; [done|]. split; [lia|]. split; [by etrans|]. split; [|split].
  - intros o' x Hx. apply T2. rewrite T1, lookup_insert_ne; [done|]. congruence.
  - intros i Hr. rewrite G2 by lia. rewrite G1, decide_False by lia. done.
  - intros [|j] Hj.
    + exists o. rewrite Z.sub_0_r, G2 by lia. rewrite G1, decide_True by done. split; [done|]. rewrite Nat.add_0_r. apply T2.
      by rewrite T1, lookup_insert, decide_True.
    + destruct (A2 j ltac:(lia)) as (o' & Ho' & Hx). exists o'. split; [rewrite <-Ho'; f_equal; lia|]. by rewrite Nat.add_succ_r.
Qed.

(** C15: Exceptions. With a try block entered, a pending exception runs to its
    handler: the objects above the height of the stack on entry are popped, the
    program counter is at the handler, its arguments are on the stack, the text
    of the exception first and empty objects behind, and the machine runs. The
    frame, the stack above and all texts are kept, and so is the order of
    counters and cells. *)
Theorem exception_handled (fuel : nat) (m : machine) (tc : vm_tcblock) (rest : list vm_tcblock) (t : list Z) :
  let n := Z.to_nat (num_args tc) in
  mem_ok m → tcs m = tc :: rest → exception_text (exception_code (core m)) = Ret t →
  0 ≤ sp (core m) ≤ snapshot_sp tc → snapshot_sp tc < VM_MAX_STACK_SIZE → Z.of_nat n < snapshot_sp tc →
  (∀ i, sp (core m) < i ≤ snapshot_sp tc → poppable (sget (core m) i)) →
  snapshot_sp tc - sp (core m) < Z.of_nat fuel →
  ∃ m', handle full fuel m = Ret m' ∧ mem_ok m' ∧ tcs m' = rest ∧ vm_state (core m') = VM_STATE_RUN ∧
    pc (core m') = u16 (_catch tc) ∧ bp (core m') = bp (core m) ∧ base_address (core m') = base_address (core m) ∧
    sp (core m') = snapshot_sp tc - Z.of_nat n ∧
    (∀ i, snapshot_sp tc < i ∨ i ≤ Z.min (sp (core m)) (snapshot_sp tc - Z.of_nat n) → sget (core m') i = sget (core m) i) ∧
    (∀ o x, texts m !! o = Some x → texts m' !! o = Some x) ∧
    ∀ j, (j < n)%nat → ∃ o, sget (core m') (snapshot_sp tc - Z.of_nat j) = CObj o ∧ texts m' !! o = Some (argument_text t j).
Proof.
  cbv zeta. set (n := Z.to_nat (num_args tc)). intros Hi Htc Ht Hs Hmax Hn Hp Hf. set (tgt := snapshot_sp tc) in *.
  destruct (unwind_ok tgt (Z.to_nat (tgt - sp (core m))) (with_tcs rest m) fuel Hi) as (m1 & E1 & Hi1 & S1 & T1 & F1 & G1);
    [cbn; lia|cbn; lia|done|exact Hp|lia|]. cbn [with_tcs core texts] in *.
  set (m2 := with_core (set_pc (_catch tc) (core m1)) m1). assert (Hi2 : minv no_credit 0x8F m2) by (by eapply mem_inv_eq).
  destruct (arguments_ok n 0 m2 t Hi2) as (m3 & E3 & Hi3 & S3 & F3 & T3 & G3 & A3);
    [cbn; lia|cbn; rewrite (sf_exc _ _ F1); exact Ht|]. cbn [m2 with_core core] in S3, G3, A3. change (sp (set_pc _ (core m1))) with (sp (core m1)) in *.
  exists (with_core (set_state VM_STATE_RUN (core m3)) m3). unfold handle. rewrite Htc. fold tgt. rewrite E1. res_cbn. fold m2 n. rewrite E3. split; [done|].
  split; [by eapply mem_inv_eq|]. cbn. rewrite (sf_tcs _ _ F3), (sf_pc _ _ F3), (sf_bp _ _ F3), (sf_base _ _ F3). cbn.
  rewrite (sf_tcs _ _ F1), (sf_bp _ _ F1), (sf_base _ _ F1). do 5 (split; [done|]). split; [lia|]. split; [|split].
  - intros i Hr. change (sget (set_state _ (core m3)) i) with (sget (core m3) i). rewrite G3 by lia.
    change (sget (set_pc _ (core m1)) i) with (sget (core m1) i). rewrite G1. rewrite bool_decide_false by lia. done.
  - intros o x Hx. apply T3. cbn. by rewrite T1.
  - intros j Hj. destruct (A3 j Hj) as (o & Ho & Hx). exists o. by rewrite S1 in Ho.
Qed.

End ctl.

(** a division by zero in a try block *)
Definition failing : machine :=
  mkMach (mkVm (<[0 := CObj 0]> {[ 1997 := CObj 0 ]}) 1996 1 5 (CPkg 0) {[ 0%nat := 0x82 ]} VM_STATE_EXCEPTION VX_DIV_BY_ZERO)
    {[ 0%nat := [50; 49] ]} [mkTc 0 29 30 2 1998].

Lemma exception_handled_witness :
  ∃ m', handle never_full 10 failing = Ret m' ∧ mem_ok m' ∧ tcs m' = [] ∧ vm_state (core m') = VM_STATE_RUN ∧
    pc (core m') = 30 ∧ bp (core m') = 1 ∧ base_address (core m') = CPkg 0 ∧ sp (core m') = 1996 ∧
    (∀ i, 1998 < i ∨ i ≤ 1996 → sget (core m') i = sget (core failing) i) ∧
    (∀ o x, texts failing !! o = Some x → texts m' !! o = Some x) ∧
    ∀ j, (j < 2)%nat → ∃ o, sget (core m') (1998 - Z.of_nat j) = CObj o ∧ texts m' !! o = Some (argument_text (chars "Divide by Zero") j).
Proof.
  apply (exception_handled never_full (λ _ _, eq_refl) 10 failing (mkTc 0 29 30 2 1998) [] (chars "Divide by Zero")).
  - apply mem_check_ok. vm_compute. reflexivity.
  - reflexivity.
  - reflexivity.
  - vm_compute. split; congruence.
  - vm_compute. reflexivity.
  - vm_compute. reflexivity.
  - intros i Hi. cbn [failing core sp snapshot_sp] in Hi. assert (i = 1997 ∨ i = 1998) as [->| ->] by lia; exact I.
  - vm_compute. reflexivity.
Defined.

(** ** Switches *)

(** A case: where its constant lies, relative to the instruction, its target,
    and the text of the constant. *)
Abbreviation case := (Z * Z * list Z)%type.

Definition table_bytes (d : Z) (cases : list case) : list Z :=
  word d ++ concat ((λ c : case, word c.1.1 ++ word c.1.2) <$> cases).

(** the target of the first case equal to [obj], in the order of the table *)
Fixpoint find_case (obj : list Z) (cases : list case) (d : Z) : res Z :=
  match cases with
  | [] => Ret d
  | c :: rest => f ← vm_cmp_object obj c.2; if f =? VM_CMP_EQ then Ret c.1.2 else find_case obj rest d
  end.

Lemma rd_word_at l1 x l2 i : i = Z.of_nat (length l1) → rd_word (l1 ++ word x ++ l2) i = Ret x.
Proof.
  intros ->. assert (H : ∀ k, (k < 2)%nat → (l1 ++ word x ++ l2) !! (length l1 + k)%nat = word x !! k).
  { intros k Hk. rewrite lookup_app_r by lia. replace (length l1 + k - length l1)%nat with k by lia. by rewrite lookup_app_l. }
  unfold rd_word. replace (Z.to_nat (Z.of_nat (length l1))) with (length l1 + 0)%nat by lia.
  replace (Z.to_nat (Z.of_nat (length l1) + 1)) with (length l1 + 1)%nat by lia. rewrite !H by lia. cbn.
  f_equal. unfold be16. pose proof (Z.div_mod x 256). lia.
Qed.

Lemma table_length d cases : length (table_bytes d cases) = (2 + 4 * length cases)%nat.
Proof.
  unfold table_bytes. rewrite length_app. change (length (word d)) with 2%nat. f_equal. induction cases as [|c l IH]; cbn [fmap list_fmap concat]; [done|].
  rewrite length_app, IH. cbn. lia.
Qed.

Section switch.
Context (image : nat → Z → option Z) (full : gmap nat (list Z) → Z → bool) (Hroom : ∀ T n, full T n = false).
Context (p : nat) (limit : Z) (Hread : ∀ k, 0 ≤ k < limit → is_Some (image p k)).

(** the constant [v] lies in the image from [off] *)
Definition constant_at (off : Z) (v : list Z) : Prop :=
  0 ≤ off ∧ lies image p off (const_bytes v) ∧ Z.of_nat (length v) ≤ VA_OBJECT_MAX_SIZE ∧ off + Z.of_nat (length (const_bytes v)) + 4 ≤ limit.

(** a constant loaded and released leaves the machine as it was *)
Lemma load_release off v m :
  mem_ok m → base_address (core m) = CPkg p → constant_at off v →
  ∃ o m', vm_load_constant image full off m = Ret (o, m') ∧ text_of (CObj o) m' = Ret v ∧ pc (core m') = pc (core m) ∧
    base_address (core m') = CPkg p ∧ vm_release_object (CObj o) m' = m ∧ refs (core m) !! o = None ∧
    mem_ok m' ∧ tcs m' = tcs m.
Proof.
  intros Hi Hb (H0 & Hl & Hn & Hm). destruct (load_constant_ok image full Hroom p limit Hread v off m Hb Hl Hn H0 Hm) as (o & Hf & E).
  assert (Hto : texts m !! o = None).
  { destruct (texts m !! o) eqn:Et; [|done]. destruct (proj2 (mi_dom _ _ _ _ Hi o) ltac:(by eexists)) as [y Hy]. congruence. }
  destruct (minv_load_constant image full 0x8F _ _ _ Hi ltac:(lia) E) as (Hi' & _ & _).
  eexists _, _. split; [exact E|]. split; [cbn; by rewrite lookup_insert, decide_True|]. do 2 (split; [done|]). split; [|done].
  unfold vm_release_object. cbn. rewrite !delete_insert_id by done. destruct m as [[]]. done.
Qed.

Lemma switch_loop fuel obj d t rest : ∀ (done_ : list case) op1 m,
  mem_ok m → base_address (core m) = CPkg p → (length done_ + length rest ≤ 63)%nat → (length rest < fuel)%nat →
  op1 = table_bytes d (done_ ++ rest) → Forall (λ c : case, constant_at (c.1.1 + pc (core m)) c.2) rest →
  find_case obj rest d = Ret t →
  loop fuel (switch_step image full obj op1) (2 + 4 * Z.of_nat (length done_), m) = Ret (t, m).
Proof.
  revert fuel. induction rest as [|[[c tg] v] rest IH]; intros fuel done_ op1 m Hi Hb Hlen Hf Hop Hc Ht; (destruct fuel as [|fuel]; [cbn in Hf; lia|]).
  - apply loop_inr. unfold switch_step. cbn in Ht. injection Ht as <-. subst op1. rewrite app_nil_r, table_length, (proj2 (Z.ltb_ge _ _)) by lia.
    unfold table_bytes. rewrite <-(app_nil_l (word d ++ _)), rd_word_at by done. done.
  - apply Forall_cons in Hc as [Hc0 Hc]. cbn [fst snd] in Hc0. cbn [find_case fst snd] in Ht.
    destruct (load_release (c + pc (core m)) v m Hi Hb Hc0) as (o & m1 & E & Etx & _ & _ & Er & _).
    set (k := 2 + 4 * Z.of_nat (length done_)) in *. assert (Hlt : (k <? Z.of_nat (length op1)) = true).
    { subst op1. rewrite table_length, length_app. cbn [length]. apply Z.ltb_lt. subst k. lia. }
    assert (Hsplit : op1 = table_bytes d done_ ++ word c ++ word tg ++ concat ((λ c : case, word c.1.1 ++ word c.1.2) <$> rest)).
    { subst op1. unfold table_bytes. rewrite fmap_app, fmap_cons, concat_app. cbn [concat fst snd]. by rewrite <-!app_assoc. }
    assert (Hk : k = Z.of_nat (length (table_bytes d done_))) by (rewrite table_length; subst k; lia).
    assert (Hw1 : rd_word op1 k = Ret c) by (rewrite Hsplit; by apply rd_word_at).
    assert (Hw2 : rd_word op1 (k + 2) = Ret tg).
    { rewrite Hsplit, app_assoc. apply rd_word_at. rewrite length_app. change (length (word c)) with 2%nat. lia. }
    destruct (vm_cmp_object obj v) as [f| |] eqn:Ef; try done. cbn [mbind res_bind] in Ht. destruct (f =? VM_CMP_EQ) eqn:Eq.
    + injection Ht as <-. apply loop_inr. unfold switch_step. rewrite Hlt, Hw1. res_cbn. rewrite E. res_cbn. rewrite Etx. res_cbn. rewrite Ef. res_cbn.
      rewrite Eq, Hw2, Er. done.
    + rewrite (loop_inl _ _ _ (u8 (k + 4), m)).
      * replace (u8 (k + 4)) with (2 + 4 * Z.of_nat (length (done_ ++ [(c, tg, v)]))).
        -- apply IH; [done|done|rewrite length_app; cbn in *; lia|cbn in Hf; lia|by rewrite <-app_assoc|done|done].
        -- rewrite length_app. cbn [length] in *. rewrite u8_id; [lia|]. subst k. unfold is_byte. lia.
      * unfold switch_step. rewrite Hlt, Hw1. res_cbn. rewrite E. res_cbn. rewrite Etx. res_cbn. rewrite Ef. res_cbn. by rewrite Eq, Er.
Qed.

(** C16: Switches. On a table of at most 63 cases [INS_SWITCH] ends and jumps to
    the target of the first case whose constant equals the object on top, as
    [vm_cmp_object] compares, and to the default when there is none; it takes
    the object off the stack and leaves the other cells and all texts. *)
Theorem switch_jumps (fuel : nat) (operand d t : Z) (cases : list case) (o : nat) (obj : list Z) (m : machine) :
  mem_ok m → base_address (core m) = CPkg p → 0 ≤ sp (core m) → sp (core m) + 1 < VM_MAX_STACK_SIZE →
  sget (core m) (sp (core m) + 1) = CObj o → texts m !! o = Some obj →
  constant_at (operand + pc (core m)) (table_bytes d cases) →
  Forall (λ c : case, constant_at (c.1.1 + pc (core m)) c.2) cases →
  (length cases ≤ 63)%nat → (length cases < fuel)%nat → find_case obj cases d = Ret t →
  ∃ m', vmd_switch image full fuel operand m = Ret m' ∧ mem_ok m' ∧ pc (core m') = u16 (t + pc (core m)) ∧
    sp (core m') = sp (core m) + 1 ∧ bp (core m') = bp (core m) ∧ base_address (core m') = base_address (core m) ∧
    vm_state (core m') = vm_state (core m) ∧ tcs m' = tcs m ∧ texts m' = texts m ∧
    ∀ i, sget (core m') i = if decide (sp (core m) + 1 = i) then CNull else sget (core m) i.
Proof.
  intros Hi Hb H0 Hs Ho Hobj Htab Hc Hlen Hf Ht.
  destruct (pop_arc_ok 0x8F m Hi) as (m1 & E1 & Hi1 & T1 & C1 & G1 & S1 & B1 & P1 & A1 & V1 & X1); [lia|lia|lia|by rewrite Ho|].
  rewrite Ho in E1. rewrite <-P1 in Htab, Hc. assert (Hb1 : base_address (core m1) = CPkg p) by congruence.
  destruct (load_release _ _ m1 Hi1 Hb1 Htab) as (o1 & m2 & E2 & Et & P2 & A2 & R2 & Hno & Hi2 & C2).
  assert (Hloop : loop fuel (switch_step image full obj (table_bytes d cases)) (2, m2) = Ret (t, m2)).
  { apply (switch_loop fuel obj d t cases [] _ m2); [done|done|done|done|done|by rewrite P2|done]. }
  exists (with_core (set_pc (t + pc (core m1)) (core m1)) m1). split.
  { unfold vmd_switch. rewrite E1. res_cbn. cbn [text_of]. rewrite T1, Hobj. res_cbn. rewrite E2. res_cbn. cbn [text_of] in Et. rewrite Et. res_cbn. rewrite Hloop. res_cbn. by rewrite R2. }
  split; [by eapply mem_inv_eq|]. cbn. rewrite P1. do 7 (split; [done|]). intros i. change (sget (set_pc _ (core m1)) i) with (sget (core m1) i). by rewrite G1.
Qed.

End switch.

(** switch (x) { case a: ... case b: ... default: ... } with x = b *)
Definition sample_cases : list case := [(15, 40, [97]); (17, 50, [98])].

Definition switch_image (cases : list case) (constants : list Z) : list Z :=
  [INS_SWITCH; 0; 4; 0] ++ const_bytes (table_bytes 60 cases) ++ constants ++ replicate 10 0.

Definition switching (v : list Z) : machine :=
  mkMach (mkVm {[ 1999 := CObj 0 ]} 1998 1 0 (CPkg 0) {[ 0%nat := 0x81 ]} VM_STATE_RUN 0) {[ 0%nat := v ]} [].

Lemma switch_jumps_witness :
  ∃ m', vmd_switch (image_of (switch_image sample_cases [1; 97; 1; 98])) never_full 3 4 (switching [98]) = Ret m' ∧ mem_ok m' ∧ pc (core m') = 50 ∧
    sp (core m') = 1999 ∧ bp (core m') = 1 ∧ base_address (core m') = CPkg 0 ∧
    vm_state (core m') = VM_STATE_RUN ∧ tcs m' = [] ∧ texts m' = {[ 0%nat := [98] ]} ∧
    ∀ i, sget (core m') i = if decide (1999 = i) then CNull else sget (core (switching [98])) i.
Proof.
  apply (switch_jumps (image_of (switch_image sample_cases [1; 97; 1; 98])) never_full (λ _ _, eq_refl) 0 29)
    with (fuel := 3%nat) (operand := 4) (d := 60) (t := 50) (cases := sample_cases) (o := 0%nat) (obj := [98]) (m := switching [98]).
  - intros k Hk. assert (H : Forall (λ n, is_Some (image_of (switch_image sample_cases [1; 97; 1; 98]) 0 (Z.of_nat n))) (seq 0 29)) by (vm_compute; repeat constructor; by eexists).
    rewrite Forall_forall in H. specialize (H (Z.to_nat k)). rewrite Z2Nat.id in H by lia. apply H. apply elem_of_seq. lia.
  - apply mem_check_ok. vm_compute. reflexivity.
  - reflexivity.
  - vm_compute. congruence.
  - vm_compute. reflexivity.
  - reflexivity.
  - reflexivity.
  - split; [vm_compute; congruence|]. split; [|vm_compute; split; congruence].
    intros k x Hk. do 11 (destruct k as [|k]; [vm_compute in Hk |- *; congruence|]). vm_compute in Hk. congruence.
  - repeat (apply Forall_cons; split; [|]); [| |apply Forall_nil; exact Logic.I];
      (split; [vm_compute; congruence|]; split; [|vm_compute; split; congruence]; intros k x Hk;
       do 2 (destruct k as [|k]; [vm_compute in Hk |- *; congruence|]); vm_compute in Hk; congruence).
  - cbn. lia.
  - cbn. lia.
  - vm_compute. reflexivity.
Defined.

(** Sixty-four cases none of which matches: [psw], a byte, starts over at two
    instead of reaching the length of the table. *)
Lemma switch_of_64_cases_hangs :
  vmd_switch (image_of (switch_image (replicate 64 (265, 40, [97])) [1; 97])) never_full 1000 4 (switching [98]) = Timeout.
Proof. vm_compute. reflexivity. Qed.

(** ** What the loop does not handle *)

(** [INS_MOD], which the parser emits for the operator of the remainder, has no
    case in the loop; [vm_operation_object] computes it. *)
Lemma mod_is_unknown image api full fuel b1 b2 b3 m :
  dispatch image api full fuel [INS_MOD; b1; b2; b3] m = Ret (invoke VX_UNKNOWN_INSTRUCTION m).
Proof. reflexivity. Qed.

(** [INS_LBL] leaves the program counter where it is *)
Lemma label_stays image api full fuel b1 b2 b3 m : dispatch image api full fuel [INS_LBL; b1; b2; b3] m = Ret m.
Proof. reflexivity. Qed.

(** [INS_RCTX] puts a new object in the cell it gives up; the next [INS_SCTX]
    overwrites the cell and the object, with its one reference, is never freed *)
Lemma rctx_leaks :
  ∃ m', run [INS_SCTX; 1; INS_RCTX; 1; INS_SCTX; 1; 0; 0] 3 (one_variable [50; 49]) = Ret m' ∧
    refs (core m') !! 2%nat = Some 0x81 ∧ cells (core m') 2 = 0.
Proof. eexists. split; [vm_compute; reflexivity|]. split; vm_compute; reflexivity. Qed.

(** the arguments of a handler are counted twice: popped, they keep a reference *)
Lemma handler_arguments_leak :
  ∃ m' m'', handle never_full 10 failing = Ret m' ∧ cells (core m') 1 = 1 ∧ refs (core m') !! 1%nat = Some 0x82 ∧
    times 2 pop_drop m' = Ret m'' ∧ cells (core m'') 1 = 0 ∧ refs (core m'') !! 1%nat = Some 0x81.
Proof. eexists _, _. repeat (split; [vm_compute; reflexivity|]). vm_compute. reflexivity. Qed.
