(* ===== verification/Des.v ===== *)
(** * DES and triple DES (StackLib/crypto/src/cr_des.c)

    Blocks, keys and the arrays of the rounds are lists of bytes; a bit is
    numbered from the high end of the first byte, as the macros GETBIT, SETBIT
    and CLRBIT do. Every permutation reads one array and writes another, so a
    function here returns the array its C original fills. The main theorems say
    that decryption is the inverse of encryption, for single DES and for both
    forms of triple DES. *)
From S2P Require Import Prelude.

(** ** Tables *)
Definition InitialPermuteMap : list nat :=
  [57; 49; 41; 33; 25; 17; 9; 1; 59; 51; 43; 35; 27; 19; 11; 3;
   61; 53; 45; 37; 29; 21; 13; 5; 63; 55; 47; 39; 31; 23; 15; 7;
   56; 48; 40; 32; 24; 16; 8; 0; 58; 50; 42; 34; 26; 18; 10; 2;
   60; 52; 44; 36; 28; 20; 12; 4; 62; 54; 46; 38; 30; 22; 14; 6]%nat.

Definition KeyPermuteMap : list nat :=
  [49; 42; 35; 28; 21; 14; 7; 0; 50; 43; 36; 29; 22; 15; 8; 1;
   51; 44; 37; 30; 23; 16; 9; 2; 52; 45; 38; 31; 55; 48; 41; 34;
   27; 20; 13; 6; 54; 47; 40; 33; 26; 19; 12; 5; 53; 46; 39; 32;
   25; 18; 11; 4; 24; 17; 10; 3]%nat.

Definition KeyRotation : list nat :=
  [1; 1; 2; 2; 2; 2; 2; 2; 1; 2; 2; 2; 2; 2; 2; 1]%nat.

Definition KeyRotationRight : list nat :=
  [0; 1; 2; 2; 2; 2; 2; 2; 1; 2; 2; 2; 2; 2; 2; 1]%nat.

Definition KeyCompression : list nat :=
  [13; 16; 10; 23; 0; 4; 2; 27; 14; 5; 20; 9; 22; 18; 11; 3;
   25; 7; 15; 6; 26; 19; 12; 1; 40; 51; 30; 36; 46; 54; 29; 39;
   50; 44; 32; 47; 43; 48; 38; 55; 33; 52; 45; 41; 49; 35; 28; 31]%nat.

Definition DataExpansion : list nat :=
  [31; 0; 1; 2; 3; 4; 3; 4; 5; 6; 7; 8; 7; 8; 9; 10;
   11; 12; 11; 12; 13; 14; 15; 16; 15; 16; 17; 18; 19; 20; 19; 20;
   21; 22; 23; 24; 23; 24; 25; 26; 27; 28; 27; 28; 29; 30; 31; 0]%nat.

Definition PBox : list nat :=
  [15; 6; 19; 20; 28; 11; 27; 16; 0; 14; 22; 25; 4; 17; 30; 9;
   1; 7; 23; 13; 31; 26; 2; 8; 18; 12; 29; 5; 21; 10; 3; 24]%nat.

Definition FinalPermuteMap : list nat :=
  [7; 39; 15; 47; 23; 55; 31; 63; 6; 38; 14; 46; 22; 54; 30; 62;
   5; 37; 13; 45; 21; 53; 29; 61; 4; 36; 12; 44; 20; 52; 28; 60;
   3; 35; 11; 43; 19; 51; 27; 59; 2; 34; 10; 42; 18; 50; 26; 58;
   1; 33; 9; 41; 17; 49; 25; 57; 0; 32; 8; 40; 16; 48; 24; 56]%nat.

Definition map8to7 : list nat :=
  [0; 1; 2; 3; 4; 5; 6; 8; 9; 10; 11; 12; 13; 14; 16; 17;
   18; 19; 20; 21; 22; 24; 25; 26; 27; 28; 29; 30; 32; 33; 34; 35;
   36; 37; 38; 40; 41; 42; 43; 44; 45; 46; 48; 49; 50; 51; 52; 53;
   54; 56; 57; 58; 59; 60; 61; 62]%nat.

Definition SBox : list (list Z) :=
  [[14; 0; 4; 15; 13; 7; 1; 4; 2; 14; 15; 2; 11; 13; 8; 1; 3; 10; 10; 6; 6; 12;
    12; 11; 5; 9; 9; 5; 0; 3; 7; 8; 4; 15; 1; 12; 14; 8; 8; 2; 13; 4; 6; 9;
    2; 1; 11; 7; 15; 5; 12; 11; 9; 3; 7; 14; 3; 10; 10; 0; 5; 6; 0; 13];
   [15; 3; 1; 13; 8; 4; 14; 7; 6; 15; 11; 2; 3; 8; 4; 14; 9; 12; 7; 0; 2; 1;
    13; 10; 12; 6; 0; 9; 5; 11; 10; 5; 0; 13; 14; 8; 7; 10; 11; 1; 10; 3; 4; 15;
    13; 4; 1; 2; 5; 11; 8; 6; 12; 7; 6; 12; 9; 0; 3; 5; 2; 14; 15; 9];
   [10; 13; 0; 7; 9; 0; 14; 9; 6; 3; 3; 4; 15; 6; 5; 10; 1; 2; 13; 8; 12; 5;
    7; 14; 11; 12; 4; 11; 2; 15; 8; 1; 13; 1; 6; 10; 4; 13; 9; 0; 8; 6; 15; 9;
    3; 8; 0; 7; 11; 4; 1; 15; 2; 14; 12; 3; 5; 11; 10; 5; 14; 2; 7; 12];
   [7; 13; 13; 8; 14; 11; 3; 5; 0; 6; 6; 15; 9; 0; 10; 3; 1; 4; 2; 7; 8; 2;
    5; 12; 11; 1; 12; 10; 4; 14; 15; 9; 10; 3; 6; 15; 9; 0; 0; 6; 12; 10; 11; 1;
    7; 13; 13; 8; 15; 9; 1; 4; 3; 5; 14; 11; 5; 12; 2; 7; 8; 2; 4; 14];
   [2; 14; 12; 11; 4; 2; 1; 12; 7; 4; 10; 7; 11; 13; 6; 1; 8; 5; 5; 0; 3; 15;
    15; 10; 13; 3; 0; 9; 14; 8; 9; 6; 4; 11; 2; 8; 1; 12; 11; 7; 10; 1; 13; 14;
    7; 2; 8; 13; 15; 6; 9; 15; 12; 0; 5; 9; 6; 10; 3; 4; 0; 5; 14; 3];
   [12; 10; 1; 15; 10; 4; 15; 2; 9; 7; 2; 12; 6; 9; 8; 5; 0; 6; 13; 1; 3; 13;
    4; 14; 14; 0; 7; 11; 5; 3; 11; 8; 9; 4; 14; 3; 15; 2; 5; 12; 2; 9; 8; 5;
    12; 15; 3; 10; 7; 11; 0; 14; 4; 1; 10; 7; 1; 6; 13; 0; 11; 8; 6; 13];
   [4; 13; 11; 0; 2; 11; 14; 7; 15; 4; 0; 9; 8; 1; 13; 10; 3; 14; 12; 3; 9; 5;
    7; 12; 5; 2; 10; 15; 6; 8; 1; 6; 1; 6; 4; 11; 11; 13; 13; 8; 12; 1; 3; 4;
    7; 10; 14; 7; 10; 9; 15; 5; 6; 0; 8; 15; 0; 14; 5; 2; 9; 3; 2; 12];
   [13; 1; 2; 15; 8; 13; 4; 8; 6; 10; 15; 3; 11; 7; 1; 4; 10; 12; 9; 5; 3; 6;
    14; 11; 5; 0; 0; 14; 12; 9; 7; 2; 7; 2; 11; 1; 4; 14; 1; 7; 9; 4; 12; 10;
    14; 8; 2; 13; 0; 15; 6; 12; 10; 9; 13; 0; 15; 3; 3; 5; 5; 6; 8; 11]].

(** ** Bits *)
Definition SETBIT (s : list Z) (i : nat) : list Z :=
  alter (λ b, Z.lor b (Z.shiftl 1 (7 - Z.of_nat (i mod 8)))) (i / 8)%nat s.

Definition CLRBIT (s : list Z) (i : nat) : list Z :=
  alter (λ b, Z.land b (Z.lnot (Z.shiftl 1 (7 - Z.of_nat (i mod 8))))) (i / 8)%nat s.

Definition GETBIT (s : list Z) (i : nat) : Z :=
  Z.land (Z.shiftr (s !!! (i / 8)%nat) (7 - Z.of_nat (i mod 8))) 1.

(** the first [mapsize] bytes of [dst] *)
Definition Permute (src : list Z) (map : list nat) (mapsize : nat) : list Z :=
  foldl (λ dst i, if negb (GETBIT src (map !!! i) =? 0) then SETBIT dst i else dst)
    (replicate mapsize 0) (seq 0 (mapsize * 8)).

(** ** Key schedule *)
(** the inner loop of [KeyShift]: byte [j] to the left *)
Definition shift_left_byte (key : list Z) (j : nat) : list Z :=
  let key := if negb (j =? 0)%nat && negb (Z.land (key !!! j) 0x80 =? 0)
             then alter (λ b, Z.lor b 1) (j - 1)%nat key else key in
  alter (λ b, u8 (Z.shiftl b 1)) j key.

Definition KeyShift_step (x : list Z * Z) : list Z * Z :=
  let '(key, keep) := x in
  let key := foldl shift_left_byte key (seq 0 7) in
  let key := if negb (GETBIT key 27 =? 0) then SETBIT (CLRBIT key 27) 55 else key in
  let key := if negb (Z.land keep 0x80 =? 0) then SETBIT key 27 else key in
  (key, u8 (Z.shiftl keep 1)).

Definition KeyShift (key : list Z) (numbits : nat) : list Z := (Nat.iter numbits KeyShift_step (key, key !!! 0%nat)).1.

(** the inner loop of [KeyShiftRight] for [j] from 7 down to 1 *)
Definition shift_right_byte (key : list Z) (j : nat) : list Z :=
  let key := if negb (j =? 7)%nat && negb (Z.land (key !!! (j - 1)%nat) 1 =? 0)
             then alter (λ b, Z.lor b 0x80) j key else key in
  alter (λ b, Z.shiftr b 1) (j - 1)%nat key.

Definition KeyShiftRight_step (x : list Z * Z) : list Z * Z :=
  let '(key, keep) := x in
  let key := foldl shift_right_byte key [7; 6; 5; 4; 3; 2; 1]%nat in
  let key := if negb (GETBIT key 28 =? 0) then SETBIT (CLRBIT key 28) 0 else key in
  let key := if negb (Z.land keep 1 =? 0) then SETBIT key 28 else key in
  (key, Z.shiftr keep 1).

Definition KeyShiftRight (key : list Z) (numbits : nat) : list Z :=
  (Nat.iter numbits KeyShiftRight_step (key, key !!! 6%nat)).1.

Definition cr_convert_key (key : list Z) : list Z := Permute key map8to7 7.

(** ** Rounds *)
(** the six bits from [i * 6] *)
Definition six_bits (src : list Z) (i : nat) : Z :=
  foldl (λ Snum j, Z.lor (Z.shiftl Snum 1) (GETBIT src (i * 6 + j))) 0 (seq 0 6).

Definition sbox_entry (src : list Z) (i : nat) : Z := (SBox !!! i : list Z) !!! Z.to_nat (six_bits src i).

Definition sbox (src : list Z) : list Z :=
  foldl (λ dst i, alter (λ b, Z.lor b (if (i mod 2 =? 0)%nat then Z.shiftl (sbox_entry src i) 4 else sbox_entry src i))
                    (i / 2)%nat dst)
    (replicate 4 0) (seq 0 8).

Definition xor (a b : list Z) (count : nat) : list Z := (λ i, Z.lxor (a !!! i) (b !!! i)) <$> seq 0 count.

(** what the loop of both directions does to the data once [SubK] is known; the
    data block is its left half followed by its right half *)
Definition des_block (D SubK : list Z) : list Z :=
  let L := take 4 D in
  let R := drop 4 D in
  let Rexp := xor (Permute R DataExpansion 6) SubK 6 in
  let Rn := sbox Rexp in
  let Rexp := Permute Rn PBox 4 in
  let Rn := xor L Rexp 4 in
  R ++ Rn.

Definition des_round (shift : list Z → nat → list Z) (x : list Z * list Z) (numbits : nat) : list Z * list Z :=
  let K := shift x.1 numbits in
  let SubK := Permute K KeyCompression 6 in
  (K, des_block x.2 SubK).

Definition des (shift : list Z → nat → list Z) (rotations : list nat) (dkey src : list Z) : list Z :=
  let key := cr_convert_key dkey in
  let K := Permute key KeyPermuteMap 7 in
  let D := Permute src InitialPermuteMap 8 in
  Permute (foldl (des_round shift) (K, D) rotations).2 FinalPermuteMap 8.

(** the result is what is written to [dst] *)
Definition cr_des_encode (dkey src : list Z) : list Z := des KeyShift KeyRotation dkey src.
Definition cr_des_decode (dkey src : list Z) : list Z := des KeyShiftRight KeyRotationRight dkey src.

(** ** Triple DES: [key + 8] and [key + 16] are the further keys *)
Definition cr_tdes2_encode (key src : list Z) : list Z :=
  let dst := cr_des_encode key src in
  let dst := cr_des_decode (drop 8 key) dst in
  cr_des_encode key dst.

Definition cr_tdes2_decode (key src : list Z) : list Z :=
  let dst := cr_des_decode key src in
  let dst := cr_des_encode (drop 8 key) dst in
  cr_des_decode key dst.

Definition cr_tdes3_encode (key src : list Z) : list Z :=
  let dst := cr_des_encode key src in
  let dst := cr_des_decode (drop 8 key) dst in
  cr_des_encode (drop 16 key) dst.

Definition cr_tdes3_decode (key src : list Z) : list Z :=
  let dst := cr_des_decode (drop 16 key) src in
  let dst := cr_des_encode (drop 8 key) dst in
  cr_des_decode key dst.

(** an example worked out in many texts: key 133457799BBCDFF1 and block 0123456789ABCDEF *)
Example des_known_answer :
  cr_des_encode [0x13; 0x34; 0x57; 0x79; 0x9B; 0xBC; 0xDF; 0xF1] [0x01; 0x23; 0x45; 0x67; 0x89; 0xAB; 0xCD; 0xEF]
  = [0x85; 0xE8; 0x13; 0x54; 0x0F; 0x0A; 0xB4; 0x05].
Proof. vm_compute. reflexivity. Qed.

Example des_decodes_known_answer :
  cr_des_decode [0x13; 0x34; 0x57; 0x79; 0x9B; 0xBC; 0xDF; 0xF1] [0x85; 0xE8; 0x13; 0x54; 0x0F; 0x0A; 0xB4; 0x05]
  = [0x01; 0x23; 0x45; 0x67; 0x89; 0xAB; 0xCD; 0xEF].
Proof. vm_compute. reflexivity. Qed.

(** ** Bits as booleans *)
Definition bit (s : list Z) (i : nat) : bool := Z.testbit (s !!! (i / 8)%nat) (7 - Z.of_nat (i mod 8)).

Lemma mod8_lt i : (i mod 8 < 8)%nat.
Proof. by apply Nat.mod_upper_bound. Qed.

Lemma div8_lt i n : (i < 8 * n)%nat → (i / 8 < n)%nat.
Proof. intros H. by apply Nat.Div0.div_lt_upper_bound. Qed.

Lemma land_bit_zero z k : 0 ≤ k → (Z.land z (2 ^ k) =? 0) = negb (Z.testbit z k).
Proof.
  intros Hk. destruct (Z.testbit z k) eqn:E; cbn.
  - apply Z.eqb_neq. intros H. pose proof (f_equal (λ x, Z.testbit x k) H) as H'. cbn in H'.
    rewrite Z.land_spec, Z.pow2_bits_true, E, Z.bits_0 in H' by done. done.
  - apply Z.eqb_eq. apply Z.bits_inj'. intros m Hm. rewrite Z.land_spec, Z.bits_0, Z.pow2_bits_eqb by done.
    destruct (Z.eqb_spec k m) as [->|]; [by rewrite E|by rewrite andb_false_r].
Qed.

Lemma GETBIT_bit s i : GETBIT s i = Z.b2z (bit s i).
Proof.
  unfold GETBIT, bit. pose proof (mod8_lt i). change 1 with (Z.ones 1). rewrite Z.land_ones by lia.
  rewrite Z.shiftr_div_pow2, <-Z.testbit_spec' by lia. done.
Qed.

Lemma GETBIT_set s i : negb (GETBIT s i =? 0) = bit s i.
Proof. rewrite GETBIT_bit. by destruct (bit s i). Qed.

Lemma length_SETBIT s i : length (SETBIT s i) = length s.
Proof. apply length_alter. Qed.
Lemma length_CLRBIT s i : length (CLRBIT s i) = length s.
Proof. apply length_alter. Qed.

(** an index as byte and bit *)
Lemma index_split i : i = (8 * (i / 8) + i mod 8)%nat.
Proof. by apply Nat.Div0.div_mod. Qed.

Lemma index_eq i j : i = j ↔ (i / 8)%nat = (j / 8)%nat ∧ (i mod 8)%nat = (j mod 8)%nat.
Proof. split; [by intros ->|]. intros [Hd Hm]. rewrite (index_split i), (index_split j). lia. Qed.

Lemma alter_total (f : Z → Z) (s : list Z) k : (k < length s)%nat → alter f k s !!! k = f (s !!! k).
Proof.
  intros H. destruct (lookup_lt_is_Some_2 s k H) as [x Hx].
  rewrite (list_lookup_total_correct s k x Hx). apply list_lookup_total_correct. by rewrite list_lookup_alter_eq, Hx.
Qed.

Lemma alter_total_ne (f : Z → Z) (s : list Z) k j : k ≠ j → alter f k s !!! j = s !!! j.
Proof. intros H. rewrite !list_lookup_total_alt. by rewrite list_lookup_alter_ne. Qed.

Lemma bit_SETBIT s i j : (i / 8 < length s)%nat → bit (SETBIT s i) j = bool_decide (i = j) || bit s j.
Proof.
  intros Hi. unfold bit, SETBIT. pose proof (mod8_lt i). pose proof (mod8_lt j).
  destruct (decide ((i / 8)%nat = (j / 8)%nat)) as [E|E].
  - rewrite <-E, alter_total by done. rewrite Z.lor_spec, Z.shiftl_1_l, Z.pow2_bits_eqb by lia. rewrite orb_comm. f_equal.
    case_bool_decide as Hj; [subst j; by rewrite Z.eqb_refl|]. apply Z.eqb_neq. intros Hm. apply Hj, index_eq. lia.
  - rewrite alter_total_ne by done. rewrite bool_decide_false by congruence. done.
Qed.

Lemma bit_CLRBIT s i j : (i / 8 < length s)%nat → bit (CLRBIT s i) j = negb (bool_decide (i = j)) && bit s j.
Proof.
  intros Hi. unfold bit, CLRBIT. pose proof (mod8_lt i). pose proof (mod8_lt j).
  destruct (decide ((i / 8)%nat = (j / 8)%nat)) as [E|E].
  - rewrite <-E, alter_total by done. rewrite Z.land_spec, Z.lnot_spec, Z.shiftl_1_l, Z.pow2_bits_eqb by lia.
    rewrite andb_comm. do 2 f_equal.
    case_bool_decide as Hj; [subst j; by rewrite Z.eqb_refl|]. apply Z.eqb_neq. intros Hm. apply Hj, index_eq. lia.
  - rewrite alter_total_ne by done. rewrite bool_decide_false by congruence. done.
Qed.

Lemma byte_ext a b : is_byte a → is_byte b → (∀ k, (k < 8)%nat → Z.testbit a (7 - Z.of_nat k) = Z.testbit b (7 - Z.of_nat k)) → a = b.
Proof.
  intros Ha Hb H. apply Z.bits_inj'. intros n Hn. destruct (Z.lt_ge_cases n 8) as [Hlt|Hge].
  - specialize (H (Z.to_nat (7 - n))). replace (7 - Z.of_nat (Z.to_nat (7 - n))) with n in H by lia. apply H. lia.
  - assert (Hz : ∀ x, is_byte x → Z.testbit x n = false).
    { intros x Hx. unfold is_byte in Hx. destruct (decide (x = 0)) as [->|]; [apply Z.bits_0|].
      apply Z.bits_above_log2; [lia|]. apply Z.log2_lt_pow2; [lia|].
      apply Z.lt_le_trans with (2 ^ 8); [lia|]. by apply Z.pow_le_mono_r. }
    by rewrite !Hz.
Qed.

(** arrays of bytes are equal when their bits are *)
Lemma bytes_ext n s t : bytes n s → bytes n t → (∀ i, (i < 8 * n)%nat → bit s i = bit t i) → s = t.
Proof.
  intros [Hs Hbs] [Ht Hbt] H. apply list_eq_same_length with n; [done..|]. intros k x y Hk Hx Hy.
  apply list_lookup_total_correct in Hx as <-. apply list_lookup_total_correct in Hy as <-.
  apply byte_ext; [by apply total_byte..|]. intros m Hm. specialize (H (k * 8 + m)%nat). unfold bit in H.
  rewrite Nat.div_add_l, (Nat.div_small m 8), Nat.add_0_r in H by lia.
  rewrite Nat.add_comm, Nat.Div0.mod_add, Nat.mod_small in H by lia. apply H. lia.
Qed.

Lemma Forall_alter_byte (f : Z → Z) (s : list Z) k :
  (∀ x, is_byte x → is_byte (f x)) → Forall is_byte s → Forall is_byte (alter f k s).
Proof. intros Hf Hs. apply Forall_alter; [done|]. intros x Hx Hb. by apply Hf. Qed.

Lemma byte_pow2 k : 0 ≤ k < 8 → is_byte (2 ^ k).
Proof. intros H. unfold is_byte. split; [lia|]. change 256 with (2 ^ 8). apply Z.pow_lt_mono_r; lia. Qed.

Lemma SETBIT_bytes n s i : bytes n s → bytes n (SETBIT s i).
Proof.
  intros [Hl Hb]. split; [by rewrite length_SETBIT|]. apply Forall_alter_byte; [|done]. intros x Hx.
  apply byte_lor; [done|]. pose proof (mod8_lt i). rewrite Z.shiftl_1_l. apply byte_pow2. lia.
Qed.

Lemma CLRBIT_bytes n s i : bytes n s → bytes n (CLRBIT s i).
Proof.
  intros [Hl Hb]. split; [by rewrite length_CLRBIT|]. apply Forall_alter_byte; [|done]. intros x Hx. by apply byte_land.
Qed.

(** ** Permutations of bits *)
Lemma bytes_zero n : bytes n (replicate n 0).
Proof. split; [by rewrite length_replicate|]. by apply Forall_replicate. Qed.

Lemma bit_zero n i : (i < 8 * n)%nat → bit (replicate n 0) i = false.
Proof.
  intros Hi. unfold bit. rewrite lookup_total_replicate_2 by (by apply div8_lt). apply Z.bits_0.
Qed.

Lemma permute_prefix src (map : list nat) n k :
  (k ≤ n * 8)%nat →
  let d := foldl (λ dst i, if negb (GETBIT src (map !!! i) =? 0) then SETBIT dst i else dst) (replicate n 0) (seq 0 k) in
  bytes n d ∧ ∀ i, (i < 8 * n)%nat → bit d i = (i <? k)%nat && bit src (map !!! i).
Proof.
  induction k as [|k IH]; intros Hk; cbv zeta.
  - split; [apply bytes_zero|]. intros i Hi. cbn [foldl seq]. by rewrite bit_zero.
  - specialize (IH ltac:(lia)). cbv zeta in IH. rewrite seq_S, foldl_app. cbn [foldl]. rewrite Nat.add_0_l.
    destruct IH as [Hb Hbit]. set (d := foldl _ _ (seq 0 k)) in *. rewrite GETBIT_set.
    destruct (bit src (map !!! k)) eqn:E.
    + split; [by apply SETBIT_bytes|]. intros i Hi. rewrite bit_SETBIT, Hbit by (done || (destruct Hb as [-> _]; apply div8_lt; lia)).
      case_bool_decide as Hk'; [subst i; rewrite E, (proj2 (Nat.ltb_lt k (S k))) by lia; done|]. cbn [orb].
      destruct (Nat.ltb_spec i k), (Nat.ltb_spec i (S k)); first [exfalso; lia|done].
    + split; [done|]. intros i Hi. rewrite Hbit by done. destruct (Nat.ltb_spec i k), (Nat.ltb_spec i (S k)); first [exfalso; lia|done|idtac].
      replace i with k by lia. by rewrite E.
Qed.

Lemma Permute_bytes src map n : bytes n (Permute src map n).
Proof. apply (permute_prefix src map n (n * 8)). lia. Qed.

Lemma Permute_bit src (map : list nat) n i : (i < 8 * n)%nat → bit (Permute src map n) i = bit src (map !!! i).
Proof.
  intros Hi. unfold Permute. rewrite (proj2 (permute_prefix src map n (n * 8) ltac:(lia))) by done.
  by rewrite (proj2 (Nat.ltb_lt _ _)) by lia.
Qed.

(** two permutations are one *)
Definition after (m2 m1 : list nat) : list nat := (λ i, m1 !!! i) <$> m2.

Lemma Permute_Permute s m1 n1 m2 n2 :
  length m2 = (8 * n2)%nat → Forall (λ i, (i < 8 * n1)%nat) m2 →
  Permute (Permute s m1 n1) m2 n2 = Permute s (after m2 m1) n2.
Proof.
  intros Hl Hf. apply (bytes_ext n2); [apply Permute_bytes..|]. intros i Hi.
  rewrite (Permute_bit _ m2), (Permute_bit _ (after m2 m1)) by done.
  destruct (lookup_lt_is_Some_2 m2 i ltac:(lia)) as [k Hk]. rewrite (list_lookup_total_correct m2 i k Hk).
  pose proof (Forall_lookup_1 _ _ _ _ Hf Hk) as Hk1. cbv beta in Hk1. rewrite Permute_bit by done. f_equal. symmetry. apply list_lookup_total_correct.
  unfold after. by rewrite list_lookup_fmap, Hk.
Qed.

(** a permutation is what its bits say *)
Lemma Permute_unique s t (m : list nat) n : bytes n t → (∀ i, (i < 8 * n)%nat → bit t i = bit s (m !!! i)) → t = Permute s m n.
Proof. intros Ht H. apply (bytes_ext n); [done|apply Permute_bytes|]. intros i Hi. by rewrite H, Permute_bit. Qed.

(** ** The key schedule rotates the halves *)
Lemma div8_add q r : (r < 8)%nat → ((8 * q + r) / 8 = q)%nat.
Proof. intros H. rewrite Nat.mul_comm, Nat.div_add_l, Nat.div_small by lia. lia. Qed.

Lemma mod8_add q r : (r < 8)%nat → ((8 * q + r) mod 8 = r)%nat.
Proof. intros H. rewrite Nat.add_comm, Nat.mul_comm, Nat.Div0.mod_add. by apply Nat.mod_small. Qed.

Lemma bit_at s q r : (r < 8)%nat → bit s (8 * q + r) = Z.testbit (s !!! q) (7 - Z.of_nat r).
Proof. intros H. unfold bit. by rewrite div8_add, mod8_add. Qed.

Lemma alter_SETBIT (m : Z) q r (s : list Z) :
  (r < 8)%nat → m = Z.shiftl 1 (7 - Z.of_nat r) → alter (λ b : Z, Z.lor b m) q s = SETBIT s (8 * q + r).
Proof. intros Hr ->. unfold SETBIT. by rewrite div8_add, mod8_add. Qed.

Lemma u8_shl_bit b k : (k < 8)%nat → Z.testbit (u8 (Z.shiftl b 1)) (Z.of_nat k) = if (k =? 0)%nat then false else Z.testbit b (Z.of_nat (k - 1)).
Proof.
  intros Hk. unfold u8. change 256 with (2 ^ 8). rewrite Z.mod_pow2_bits_low, Z.shiftl_spec by lia.
  destruct (Nat.eqb_spec k 0) as [->|Hn]; [by rewrite Z.testbit_neg_r|]. f_equal. lia.
Qed.

(** one byte to the left: its top bit goes to the byte before it *)
Lemma shift_left_bit s j i :
  bytes 7 s → (j < 7)%nat → (i < 56)%nat →
  bytes 7 (shift_left_byte s j) ∧
  bit (shift_left_byte s j) i =
    if (i / 8 =? j)%nat then if (i mod 8 =? 7)%nat then false else bit s (S i)
    else bit s i || (S i =? 8 * j)%nat && bit s (8 * j).
Proof.
  intros Hs Hj Hi. unfold shift_left_byte. change 0x80 with (2 ^ 7). rewrite land_bit_zero, negb_involutive by lia.
  set (s1 := if (_ && _) then _ else _).
  assert (H1 : bytes 7 s1 ∧ ∀ i, (i < 56)%nat → bit s1 i = bit s i || (S i =? 8 * j)%nat && bit s (8 * j)).
  { assert (E0 : bit s (8 * j) = Z.testbit (s !!! j) 7) by (pose proof (bit_at s j 0 ltac:(lia)) as E; by rewrite Nat.add_0_r in E).
    subst s1. rewrite E0. destruct (Nat.eqb_spec j 0) as [->|Hj0]; cbn [negb andb].
    - split; [done|]. intros i' _. by rewrite orb_false_r.
    - destruct (Z.testbit (s !!! j) 7).
      + rewrite (alter_SETBIT 1 (j - 1) 7 s) by (done || lia). split; [by apply SETBIT_bytes|]. intros i' Hi'.
        rewrite bit_SETBIT by (destruct Hs as [-> _]; rewrite div8_add; lia). rewrite orb_comm, andb_true_r. f_equal.
        destruct (Nat.eqb_spec (S i') (8 * j)); [by rewrite bool_decide_true by lia|by rewrite bool_decide_false by lia].
      + split; [done|]. intros i' _. by rewrite andb_false_r, orb_false_r. }
  clearbody s1. destruct H1 as [Hb1 H1]. split.
  { destruct Hb1 as [Hl Hb]. split; [by rewrite length_alter|]. apply Forall_alter_byte; [|done]. intros. apply u8_range. }
  pose proof (mod8_lt i) as Hm. pose proof (index_split i) as Ei.
  destruct (Nat.eqb_spec (i / 8) j) as [Eq|Hne].
  - assert (Hv : bit (alter (λ b : Z, u8 (Z.shiftl b 1)) j s1) i =
       if (7 - i mod 8 =? 0)%nat then false else Z.testbit (s1 !!! j) (Z.of_nat (7 - i mod 8 - 1))).
    { unfold bit. rewrite Eq, alter_total by (destruct Hb1 as [-> _]; lia).
      replace (7 - Z.of_nat (i mod 8)) with (Z.of_nat (7 - i mod 8)) by lia. apply u8_shl_bit. lia. }
    rewrite Hv. destruct (Nat.eqb_spec (i mod 8) 7) as [E7|E7]; [by rewrite E7|].
    rewrite (proj2 (Nat.eqb_neq _ _)) by lia.
    replace (Z.of_nat (7 - i mod 8 - 1)) with (7 - Z.of_nat (S (i mod 8))) by lia.
    rewrite <-(bit_at s1 j (S (i mod 8))) by lia. replace (8 * j + S (i mod 8))%nat with (S i) by lia.
    rewrite H1 by lia. rewrite (proj2 (Nat.eqb_neq _ _)) by lia. by rewrite orb_false_r.
  - unfold bit at 1. rewrite alter_total_ne by done. rewrite <-H1 by done. done.
Qed.

Lemma shift_left_bits s j :
  bytes 7 s → (j ≤ 7)%nat →
  let d := foldl shift_left_byte s (seq 0 j) in
  bytes 7 d ∧ ∀ i, (i < 56)%nat →
    bit d i = if (i <? 8 * j)%nat then (S i <? 8 * j)%nat && bit s (S i) else bit s i.
Proof.
  intros Hs. induction j as [|j IH]; intros Hj; cbv zeta; [by split|].
  specialize (IH ltac:(lia)). cbv zeta in IH. rewrite seq_S, foldl_app. cbn [foldl]. rewrite Nat.add_0_l.
  destruct IH as [Hb Hd]. set (d := foldl _ _ (seq 0 j)) in *. split; [by apply (shift_left_bit d j 0); [|lia|lia]|].
  intros i Hi. rewrite (proj2 (shift_left_bit d j i Hb ltac:(lia) Hi)).
  pose proof (mod8_lt i) as Hm. pose proof (index_split i) as Ei.
  destruct (Nat.eqb_spec (i / 8) j) as [Eq|Hne].
  - rewrite (proj2 (Nat.ltb_lt i _)) by lia. destruct (Nat.eqb_spec (i mod 8) 7) as [E7|E7].
    + by rewrite (proj2 (Nat.ltb_ge _ _)) by lia.
    + rewrite (proj2 (Nat.ltb_lt (S i) _)) by lia. rewrite Hd by lia. by rewrite (proj2 (Nat.ltb_ge _ _)) by lia.
  - rewrite !Hd by lia. rewrite (Nat.ltb_irrefl (8 * j)).
    destruct (Nat.ltb_spec i (8 * j)), (Nat.ltb_spec i (8 * S j)); try lia.
    + destruct (Nat.eqb_spec (S i) (8 * j)) as [E|E].
      * rewrite <-E, Nat.ltb_irrefl. by rewrite (proj2 (Nat.ltb_lt _ _)) by lia.
      * rewrite !(proj2 (Nat.ltb_lt (S i) _)) by lia. by rewrite orb_false_r.
    + rewrite (proj2 (Nat.eqb_neq _ _)) by lia. by rewrite orb_false_r.
Qed.

Lemma shr_bit b k : Z.testbit (Z.shiftr b 1) (Z.of_nat k) = Z.testbit b (Z.of_nat (S k)).
Proof. rewrite Z.shiftr_spec by lia. f_equal. lia. Qed.

Lemma byte_shr b : is_byte b → is_byte (Z.shiftr b 1).
Proof. unfold is_byte. rewrite Z.shiftr_div_pow2 by lia. change (2 ^ 1) with 2. intros H. split; [apply Z.div_pos; lia|apply Z.div_lt_upper_bound; lia]. Qed.

(** one byte to the right: its low bit goes to the byte behind it *)
Lemma shift_right_bit s j i :
  bytes 7 s → (0 < j ≤ 7)%nat → (i < 56)%nat →
  bytes 7 (shift_right_byte s j) ∧
  bit (shift_right_byte s j) i =
    if (i / 8 =? j - 1)%nat then if (i mod 8 =? 0)%nat then false else bit s (i - 1)
    else bit s i || (i =? 8 * j)%nat && bit s (8 * j - 1).
Proof.
  intros Hs Hj Hi. unfold shift_right_byte. change (Z.land (s !!! (j - 1)%nat) 1) with (Z.land (s !!! (j - 1)%nat) (2 ^ 0)). rewrite land_bit_zero, negb_involutive by lia.
  set (s1 := if (_ && _) then _ else _).
  assert (H1 : bytes 7 s1 ∧ ∀ i, (i < 56)%nat → bit s1 i = bit s i || (i =? 8 * j)%nat && bit s (8 * j - 1)).
  { assert (E0 : bit s (8 * j - 1) = Z.testbit (s !!! (j - 1)%nat) 0).
    { replace (8 * j - 1)%nat with (8 * (j - 1) + 7)%nat by lia. by rewrite bit_at by lia. }
    subst s1. rewrite E0. destruct (Nat.eqb_spec j 7) as [->|Hj7]; cbn [negb andb].
    - split; [done|]. intros i' Hi'. rewrite (proj2 (Nat.eqb_neq _ _)) by lia. by rewrite orb_false_r.
    - destruct (Z.testbit (s !!! (j - 1)%nat) 0).
      + rewrite (alter_SETBIT 128 j 0 s) by (done || lia). split; [by apply SETBIT_bytes|]. intros i' Hi'.
        rewrite bit_SETBIT by (destruct Hs as [-> _]; rewrite div8_add; lia). rewrite orb_comm, andb_true_r. f_equal.
        destruct (Nat.eqb_spec i' (8 * j)); [by rewrite bool_decide_true by lia|by rewrite bool_decide_false by lia].
      + split; [done|]. intros i' _. by rewrite andb_false_r, orb_false_r. }
  clearbody s1. destruct H1 as [Hb1 H1]. split.
  { destruct Hb1 as [Hl Hb]. split; [by rewrite length_alter|]. apply Forall_alter_byte; [|done]. intros. by apply byte_shr. }
  pose proof (mod8_lt i) as Hm. pose proof (index_split i) as Ei.
  destruct (Nat.eqb_spec (i / 8) (j - 1)) as [Eq|Hne].
  - assert (Hv : bit (alter (λ b : Z, Z.shiftr b 1) (j - 1)%nat s1) i = Z.testbit (s1 !!! (j - 1)%nat) (Z.of_nat (S (7 - i mod 8)))).
    { unfold bit. rewrite Eq, alter_total by (destruct Hb1 as [-> _]; lia).
      replace (7 - Z.of_nat (i mod 8)) with (Z.of_nat (7 - i mod 8)) by lia. apply shr_bit. }
    rewrite Hv. destruct (Nat.eqb_spec (i mod 8) 0) as [E0|E0].
    + rewrite E0. destruct Hb1 as [_ Hb1]. pose proof (total_byte s1 (j - 1) Hb1) as Hx. revert Hx. generalize (s1 !!! (j - 1)%nat).
      intros x Hx. unfold is_byte in Hx. change (Z.of_nat (S (7 - 0))) with 8.
      destruct (decide (x = 0)) as [->|]; [done|]. apply Z.bits_above_log2; [lia|]. apply Z.log2_lt_pow2; lia.
    + replace (Z.of_nat (S (7 - i mod 8))) with (7 - Z.of_nat (i mod 8 - 1)) by lia.
      rewrite <-(bit_at s1 (j - 1) (i mod 8 - 1)) by lia. replace (8 * (j - 1) + (i mod 8 - 1))%nat with (i - 1)%nat by lia.
      rewrite H1 by lia. rewrite (proj2 (Nat.eqb_neq _ _)) by lia. by rewrite orb_false_r.
  - unfold bit at 1. rewrite alter_total_ne by done. rewrite <-H1 by done. done.
Qed.

Lemma shift_right_bits s n :
  bytes 7 s → (n ≤ 7)%nat →
  let d := foldl shift_right_byte s ((λ k, (7 - k)%nat) <$> seq 0 n) in
  bytes 7 d ∧ ∀ i, (i < 56)%nat →
    bit d i = if (8 * (7 - n) <=? i)%nat then (8 * (7 - n) <? i)%nat && bit s (i - 1) else bit s i.
Proof.
  intros Hs. induction n as [|n IH]; intros Hn; cbv zeta.
  { split; [done|]. intros i Hi. by rewrite (proj2 (Nat.leb_gt _ _)) by lia. }
  specialize (IH ltac:(lia)). cbv zeta in IH. rewrite seq_S, fmap_app, foldl_app. cbn [foldl fmap list_fmap]. rewrite Nat.add_0_l.
  destruct IH as [Hb Hd]. set (d := foldl _ _ (_ <$> seq 0 n)) in *. set (j := (7 - n)%nat) in *.
  replace (7 - S n)%nat with (j - 1)%nat by lia. assert (0 < j ≤ 7)%nat by lia.
  split; [by apply (shift_right_bit d j 0); [|lia|lia]|].
  intros i Hi. rewrite (proj2 (shift_right_bit d j i Hb ltac:(lia) Hi)).
  pose proof (mod8_lt i) as Hm. pose proof (index_split i) as Ei.
  destruct (Nat.eqb_spec (i / 8) (j - 1)) as [Eq|Hne].
  - rewrite (proj2 (Nat.leb_le _ i)) by lia. destruct (Nat.eqb_spec (i mod 8) 0) as [E7|E7].
    + by rewrite (proj2 (Nat.ltb_ge _ _)) by lia.
    + rewrite (proj2 (Nat.ltb_lt _ i)) by lia. rewrite Hd by lia. by rewrite (proj2 (Nat.leb_gt _ _)) by lia.
  - rewrite !Hd by lia. rewrite (proj2 (Nat.leb_gt (8 * j) (8 * j - 1))) by lia.
    destruct (Nat.leb_spec (8 * j) i), (Nat.leb_spec (8 * (j - 1)) i); try lia.
    + destruct (Nat.eqb_spec i (8 * j)) as [E|E].
      * rewrite <-E, Nat.ltb_irrefl. by rewrite (proj2 (Nat.ltb_lt _ _)) by lia.
      * rewrite !(proj2 (Nat.ltb_lt _ i)) by lia. by rewrite orb_false_r.
    + rewrite (proj2 (Nat.eqb_neq _ _)) by lia. by rewrite orb_false_r.
Qed.

(** where the bits of the halves come from *)
Definition left_of (i : nat) : nat := if (i =? 27)%nat then 0%nat else if (i =? 55)%nat then 28%nat else S i.
Definition right_of (i : nat) : nat := if (i =? 0)%nat then 27%nat else if (i =? 28)%nat then 55%nat else (i - 1)%nat.

Definition LeftMap : list nat := left_of <$> seq 0 56.
Definition RightMap : list nat := right_of <$> seq 0 56.

Lemma map56 f i : (i < 56)%nat → (f <$> seq 0 56 : list nat) !!! i = f i.
Proof. intros H. apply list_lookup_total_correct. rewrite list_lookup_fmap, lookup_seq_lt by done. done. Qed.

(** setting a bit that a condition asks for *)
Lemma bit_SETBIT_if (c : bool) s i j : bytes 7 s → (i < 56)%nat →
  bytes 7 (if c then SETBIT s i else s) ∧
  bit (if c then SETBIT s i else s) j = (c && bool_decide (i = j)) || bit s j.
Proof.
  intros Hs Hi. destruct c; [|done]. split; [by apply SETBIT_bytes|]. cbn [andb].
  apply bit_SETBIT. destruct Hs as [-> _]. by apply div8_lt.
Qed.

(** moving a bit *)
Lemma bit_move s a b j : bytes 7 s → (a < 56)%nat → (b < 56)%nat → a ≠ b → bit s b = false →
  let d := if negb (GETBIT s a =? 0) then SETBIT (CLRBIT s a) b else s in
  bytes 7 d ∧ bit d j = if (j =? a)%nat then false else if (j =? b)%nat then bit s a else bit s j.
Proof.
  intros Hs Ha Hb Hab Hz. cbv zeta. rewrite GETBIT_set. destruct (bit s a) eqn:E.
  - split; [by apply SETBIT_bytes, CLRBIT_bytes|]. rewrite bit_SETBIT, bit_CLRBIT
      by (rewrite ?length_CLRBIT; destruct Hs as [-> _]; by apply div8_lt).
    destruct (Nat.eqb_spec j a) as [->|]; [rewrite bool_decide_false by done; by rewrite bool_decide_true|].
    destruct (Nat.eqb_spec j b) as [->|]; [by rewrite bool_decide_true|]. by rewrite !bool_decide_false by congruence.
  - split; [done|]. destruct (Nat.eqb_spec j a) as [->|]; [done|]. by destruct (Nat.eqb_spec j b) as [->|].
Qed.

Lemma KeyShift_step_ok key keep :
  bytes 7 key → Z.testbit keep 7 = bit key 0 →
  (KeyShift_step (key, keep)).1 = Permute key LeftMap 7 ∧ (KeyShift_step (key, keep)).2 = u8 (Z.shiftl keep 1).
Proof.
  intros Hk Hkeep. unfold KeyShift_step. cbn [fst snd]. split; [|done].
  destruct (shift_left_bits key 7 Hk ltac:(lia)) as [Hb Hd]. set (d := foldl _ _ _) in *.
  assert (Hd55 : bit d 55 = false) by (rewrite Hd by lia; reflexivity).
  assert (Hd27 : bit d 27 = bit key 28) by (rewrite Hd by lia; reflexivity).
  pose proof (λ j, bit_move d 27 55 j Hb ltac:(lia) ltac:(lia) ltac:(lia) Hd55) as Hm. cbv zeta in Hm.
  set (d1 := if negb (GETBIT d 27 =? 0) then _ else _) in *.
  change 128 with (2 ^ 7). rewrite land_bit_zero, negb_involutive, Hkeep by lia.
  assert (Hb1 : bytes 7 d1) by apply (Hm 0%nat).
  apply Permute_unique; [eapply (bit_SETBIT_if _ _ _ 0%nat); [done|lia]|]. intros i Hi.
  rewrite (proj2 (bit_SETBIT_if _ d1 27 i Hb1 ltac:(lia))), (proj2 (Hm i)), Hd27.
  unfold LeftMap. rewrite map56 by lia. unfold left_of.
  destruct (Nat.eqb_spec i 27) as [->|H27]; [rewrite bool_decide_true by done; by rewrite andb_true_r, orb_false_r|].
  rewrite bool_decide_false, andb_false_r by lia. cbn [orb]. destruct (Nat.eqb_spec i 55) as [->|H55]; [done|].
  rewrite Hd by lia. rewrite !(proj2 (Nat.ltb_lt _ _)) by lia. done.
Qed.

Lemma KeyShiftRight_step_ok key keep :
  bytes 7 key → Z.testbit keep 0 = bit key 55 →
  (KeyShiftRight_step (key, keep)).1 = Permute key RightMap 7 ∧ (KeyShiftRight_step (key, keep)).2 = Z.shiftr keep 1.
Proof.
  intros Hk Hkeep. unfold KeyShiftRight_step. cbn [fst snd]. split; [|done].
  destruct (shift_right_bits key 7 Hk ltac:(lia)) as [Hb Hd].
  change ((λ k, (7 - k)%nat) <$> seq 0 7) with [7; 6; 5; 4; 3; 2; 1]%nat in Hb, Hd. set (d := foldl _ _ _) in *.
  assert (Hd0 : bit d 0 = false) by (rewrite Hd by lia; reflexivity).
  assert (Hd28 : bit d 28 = bit key 27) by (rewrite Hd by lia; reflexivity).
  pose proof (λ j, bit_move d 28 0 j Hb ltac:(lia) ltac:(lia) ltac:(lia) Hd0) as Hm. cbv zeta in Hm.
  set (d1 := if negb (GETBIT d 28 =? 0) then _ else _) in *.
  change (Z.land keep 1) with (Z.land keep (2 ^ 0)). rewrite land_bit_zero, negb_involutive, Hkeep by lia.
  assert (Hb1 : bytes 7 d1) by apply (Hm 0%nat).
  apply Permute_unique; [eapply (bit_SETBIT_if _ _ _ 0%nat); [done|lia]|]. intros i Hi.
  rewrite (proj2 (bit_SETBIT_if _ d1 28 i Hb1 ltac:(lia))), (proj2 (Hm i)), Hd28.
  unfold RightMap. rewrite map56 by lia. unfold right_of.
  destruct (Nat.eqb_spec i 28) as [->|H27]; [rewrite bool_decide_true by done; by rewrite andb_true_r, orb_false_r|].
  rewrite bool_decide_false, andb_false_r by lia. cbn [orb]. destruct (Nat.eqb_spec i 0) as [->|H55]; [done|].
  rewrite Hd by lia. rewrite (proj2 (Nat.leb_le _ _)), (proj2 (Nat.ltb_lt _ _)) by lia. done.
Qed.

(** [n] rotations as one permutation *)
Definition rotated (m : list nat) (n : nat) : list nat := Nat.iter n (after m) (seq 0 56).

Lemma Permute_id s : bytes 7 s → Permute s (seq 0 56) 7 = s.
Proof.
  intros Hs. symmetry. apply Permute_unique; [done|]. intros i Hi. f_equal. symmetry. apply list_lookup_total_correct.
  by rewrite lookup_seq_lt.
Qed.

Lemma LeftMap_ok : Forall (λ i, (i < 56)%nat) LeftMap ∧ Forall (λ i, (i < 56)%nat) RightMap.
Proof. split; apply (bool_decide_unpack _); by vm_compute. Qed.

Lemma KeyShift_ok key n : bytes 7 key → (n ≤ 7)%nat → KeyShift key n = Permute key (rotated LeftMap n) 7.
Proof.
  intros Hk Hn. unfold KeyShift.
  enough (H : let x := Nat.iter n KeyShift_step (key, key !!! 0%nat) in
    x.1 = Permute key (rotated LeftMap n) 7 ∧ bytes 7 x.1 ∧
    ∀ k, (k < 8 - n)%nat → Z.testbit x.2 (Z.of_nat (7 - k)) = bit x.1 k) by apply H.
  induction n as [|n IH]; cbv zeta.
  - cbn [Nat.iter nat_rect fst snd]. split; [by rewrite Permute_id|]. split; [done|]. intros k Hk'.
    unfold bit. rewrite Nat.div_small, Nat.mod_small by lia. f_equal. lia.
  - specialize (IH ltac:(lia)). cbv zeta in IH. destruct IH as (E & Hb & Hkeep). cbn [Nat.iter nat_rect].
    change (nat_rect _ _ _ n) with (Nat.iter n KeyShift_step (key, key !!! 0%nat)).
    destruct (Nat.iter n KeyShift_step _) as [key' keep']. cbn [fst snd] in *.
    destruct (KeyShift_step_ok key' keep' Hb) as [E1 E2]; [by apply (Hkeep 0%nat); lia|]. rewrite E1, E2.
    split; [|split; [apply Permute_bytes|]].
    + rewrite E, Permute_Permute by (done || apply LeftMap_ok). done.
    + intros k Hk'. rewrite Permute_bit by lia. unfold LeftMap. rewrite map56 by lia. unfold left_of.
      rewrite !(proj2 (Nat.eqb_neq k _)) by lia. rewrite u8_shl_bit, (proj2 (Nat.eqb_neq _ _)) by lia.
      rewrite <-Hkeep by lia. f_equal. lia.
Qed.

Lemma KeyShiftRight_ok key n : bytes 7 key → (n ≤ 7)%nat → KeyShiftRight key n = Permute key (rotated RightMap n) 7.
Proof.
  intros Hk Hn. unfold KeyShiftRight.
  enough (H : let x := Nat.iter n KeyShiftRight_step (key, key !!! 6%nat) in
    x.1 = Permute key (rotated RightMap n) 7 ∧ bytes 7 x.1 ∧
    ∀ k, (k < 8 - n)%nat → Z.testbit x.2 (Z.of_nat k) = bit x.1 (55 - k)) by apply H.
  induction n as [|n IH]; cbv zeta.
  - cbn [Nat.iter nat_rect fst snd]. split; [by rewrite Permute_id|]. split; [done|]. intros k Hk'.
    replace (55 - k)%nat with (8 * 6 + (7 - k))%nat by lia. rewrite bit_at by lia. f_equal. lia.
  - specialize (IH ltac:(lia)). cbv zeta in IH. destruct IH as (E & Hb & Hkeep). cbn [Nat.iter nat_rect].
    change (nat_rect _ _ _ n) with (Nat.iter n KeyShiftRight_step (key, key !!! 6%nat)).
    destruct (Nat.iter n KeyShiftRight_step _) as [key' keep']. cbn [fst snd] in *.
    destruct (KeyShiftRight_step_ok key' keep' Hb) as [E1 E2]; [by apply (Hkeep 0%nat); lia|]. rewrite E1, E2.
    split; [|split; [apply Permute_bytes|]].
    + rewrite E, Permute_Permute by (done || apply LeftMap_ok). done.
    + intros k Hk'. rewrite Permute_bit by lia. unfold RightMap. rewrite map56 by lia. unfold right_of.
      rewrite !(proj2 (Nat.eqb_neq (55 - k) _)) by lia. rewrite shr_bit. rewrite Hkeep by lia. f_equal. lia.
Qed.

(** ** Rounds *)
Fixpoint round_keys (shift : list Z → nat → list Z) (K : list Z) (rs : list nat) : list (list Z) :=
  match rs with
  | [] => []
  | r :: rs' => Permute (shift K r) KeyCompression 6 :: round_keys shift (shift K r) rs'
  end.

Lemma rounds_blocks shift K D rs : (foldl (des_round shift) (K, D) rs).2 = foldl des_block D (round_keys shift K rs).
Proof. revert K D. induction rs as [|r rs IH]; intros K D; [done|]. apply IH. Qed.

(** the round keys as permutations of the key *)
Fixpoint key_maps (M m : list nat) (rs : list nat) : list (list nat) :=
  match rs with
  | [] => []
  | r :: rs' => after KeyCompression (after (rotated M r) m) :: key_maps M (after (rotated M r) m) rs'
  end.

Definition map_ok (m : list nat) : Prop := length m = 56%nat ∧ Forall (λ i, (i < 56)%nat) m.

Lemma round_keys_maps shift M s m rs :
  (∀ key r, bytes 7 key → (r ≤ 7)%nat → shift key r = Permute key (rotated M r) 7) →
  Forall (λ r, (r ≤ 7)%nat ∧ map_ok (rotated M r)) rs →
  round_keys shift (Permute s m 7) rs = (λ m', Permute s m' 6) <$> key_maps M m rs.
Proof.
  intros Hs Hr. revert m. induction Hr as [|r rs [Hr7 [Hl Hf]] _ IH]; intros m; [done|]. cbn [round_keys key_maps fmap list_fmap].
  rewrite Hs by (done || apply Permute_bytes). rewrite (Permute_Permute s m 7 _ 7) by (exact Hl || exact Hf). f_equal; [|apply IH].
  apply Permute_Permute; [done|]. apply (bool_decide_unpack _). by vm_compute.
Qed.

(** the keys of decryption are those of encryption backwards *)
Lemma round_keys_reverse s m :
  round_keys KeyShiftRight (Permute s m 7) KeyRotationRight =
  reverse (round_keys KeyShift (Permute s m 7) KeyRotation).
Proof.
  assert (Hid : Permute s m 7 = Permute (Permute s m 7) (seq 0 56) 7) by (rewrite Permute_id; [done|apply Permute_bytes]).
  rewrite Hid. generalize (Permute s m 7). intros K.
  rewrite (round_keys_maps KeyShiftRight RightMap K _ _ KeyShiftRight_ok) by (apply (bool_decide_unpack _); by vm_compute).
  rewrite (round_keys_maps KeyShift LeftMap K _ _ KeyShift_ok) by (apply (bool_decide_unpack _); by vm_compute).
  rewrite <-fmap_reverse. f_equal.
Qed.

Definition swap (D : list Z) : list Z := drop 4 D ++ take 4 D.

Lemma xor_length a b n : length (xor a b n) = n.
Proof. unfold xor. by rewrite length_fmap, length_seq. Qed.

Lemma xor_bytes a b n : Forall is_byte a → Forall is_byte b → bytes n (xor a b n).
Proof.
  intros Ha Hb. split; [apply xor_length|]. apply Forall_fmap, Forall_true. intros i. by apply byte_lxor; apply total_byte.
Qed.

Lemma xor_xor a b n : length a = n → xor (xor a b n) b n = a.
Proof.
  intros Ha. apply seq_map_ext; [done|]. intros k Hk. unfold xor. rewrite total_seq_map by done.
  by rewrite Z.lxor_assoc, Z.lxor_nilpotent, Z.lxor_0_r.
Qed.

Lemma des_block_bytes D k : bytes 8 D → bytes 8 (des_block D k).
Proof.
  intros [Hl Hb]. unfold des_block.
  destruct (xor_bytes (take 4 D) (Permute (sbox (xor (Permute (drop 4 D) DataExpansion 6) k 6)) PBox 4) 4) as [Hl' Hb'].
  { by apply Forall_take. }
  { apply Permute_bytes. }
  split; [by rewrite length_app, Hl', length_drop, Hl|]. apply Forall_app. split; [by apply Forall_drop|done].
Qed.

(** a round undoes itself between exchanged halves *)
Lemma des_block_swap D k : length D = 8%nat → des_block (swap (des_block D k)) k = swap D.
Proof.
  intros Hl. set (F := Permute (sbox (xor (Permute (drop 4 D) DataExpansion 6) k 6)) PBox 4).
  assert (Hd : des_block D k = drop 4 D ++ xor (take 4 D) F 4) by done.
  assert (H4 : length (drop 4 D) = 4%nat) by (rewrite length_drop; lia).
  assert (Hs : swap (des_block D k) = xor (take 4 D) F 4 ++ drop 4 D).
  { unfold swap. rewrite Hd, drop_app_length', take_app_length' by lia. done. }
  rewrite Hs. unfold des_block. rewrite drop_app_length', take_app_length' by (by rewrite xor_length). fold F.
  rewrite xor_xor by (rewrite length_take; lia). done.
Qed.

Lemma feistel_undone D ks : bytes 8 D → foldl des_block (swap (foldl des_block D ks)) (reverse ks) = swap D.
Proof.
  intros HD. revert D HD. induction ks as [|k ks IH]; intros D HD; [done|].
  rewrite reverse_cons, foldl_app. cbn [foldl]. rewrite IH by (by apply des_block_bytes).
  apply des_block_swap. apply HD.
Qed.

Definition SwapMap : list nat := seq 32 32 ++ seq 0 32.

Lemma swap_Permute X : bytes 8 X → swap X = Permute X SwapMap 8.
Proof.
  intros [Hl Hb]. apply Permute_unique.
  - unfold swap. split; [rewrite length_app, length_drop, length_take; lia|]. apply Forall_app. split; [by apply Forall_drop|by apply Forall_take].
  - do 8 (destruct X as [|? X]; [done|]). destruct X; [|done]. intros i Hi. do 64 (destruct i as [|i]; [reflexivity|]). lia.
Qed.

Lemma final_initial X : bytes 8 X → Permute (Permute X FinalPermuteMap 8) InitialPermuteMap 8 = swap X.
Proof.
  intros HX. rewrite Permute_Permute, swap_Permute; [|done|done|apply (bool_decide_unpack _); by vm_compute].
  f_equal.
Qed.

Lemma initial_swap_final m : bytes 8 m → Permute (swap (Permute m InitialPermuteMap 8)) FinalPermuteMap 8 = m.
Proof.
  intros Hm. rewrite swap_Permute by apply Permute_bytes.
  rewrite !Permute_Permute by (done || (apply (bool_decide_unpack _); by vm_compute)).
  symmetry. apply Permute_unique; [done|]. intros i Hi. f_equal.
  do 64 (destruct i as [|i]; [by vm_compute|]). lia.
Qed.

Lemma rounds_bytes D ks : bytes 8 D → bytes 8 (foldl des_block D ks).
Proof. revert D. induction ks as [|k ks IH]; intros D HD; [done|]. by apply IH, des_block_bytes. Qed.

Lemma des_decode_encode dkey src : bytes 8 src → cr_des_decode dkey (cr_des_encode dkey src) = src.
Proof.
  intros Hs. unfold cr_des_decode, cr_des_encode, des. rewrite !rounds_blocks, round_keys_reverse.
  rewrite final_initial by apply rounds_bytes, Permute_bytes.
  rewrite feistel_undone by apply Permute_bytes. by apply initial_swap_final.
Qed.

Lemma des_encode_decode dkey src : bytes 8 src → cr_des_encode dkey (cr_des_decode dkey src) = src.
Proof.
  intros Hs. unfold cr_des_decode, cr_des_encode, des. rewrite !rounds_blocks, round_keys_reverse.
  rewrite final_initial by apply rounds_bytes, Permute_bytes.
  rewrite <-(reverse_involutive (round_keys KeyShift _ _)) at 1.
  rewrite feistel_undone by apply Permute_bytes. by apply initial_swap_final.
Qed.

Lemma des_encode_bytes dkey src : bytes 8 (cr_des_encode dkey src).
Proof. apply Permute_bytes. Qed.
Lemma des_decode_bytes dkey src : bytes 8 (cr_des_decode dkey src).
Proof. apply Permute_bytes. Qed.

(** the composition of triple DES, for any cipher *)
Lemma ede_inverse (E D : list Z → list Z → list Z) (P : list Z → Prop) k1 k2 k3 x :
  (∀ k x, P x → D k (E k x) = x) → (∀ k x, P x → E k (D k x) = x) → (∀ k x, P (E k x)) → (∀ k x, P (D k x)) →
  P x → D k1 (E k2 (D k3 (E k3 (D k2 (E k1 x))))) = x.
Proof. intros HDE HED HE HD Hx. rewrite (HDE k3), (HED k2), (HDE k1) by auto. done. Qed.

Lemma tdes2_roundtrip key src :
  bytes 8 src → cr_tdes2_decode key (cr_tdes2_encode key src) = src ∧ cr_tdes2_encode key (cr_tdes2_decode key src) = src.
Proof.
  intros Hs. split.
  - exact (ede_inverse _ _ _ key (drop 8 key) key src des_decode_encode des_encode_decode des_encode_bytes des_decode_bytes Hs).
  - exact (ede_inverse _ _ _ key (drop 8 key) key src des_encode_decode des_decode_encode des_decode_bytes des_encode_bytes Hs).
Qed.

Lemma tdes3_roundtrip key src :
  bytes 8 src → cr_tdes3_decode key (cr_tdes3_encode key src) = src ∧ cr_tdes3_encode key (cr_tdes3_decode key src) = src.
Proof.
  intros Hs. split.
  - exact (ede_inverse _ _ _ key (drop 8 key) (drop 16 key) src des_decode_encode des_encode_decode des_encode_bytes des_decode_bytes Hs).
  - exact (ede_inverse _ _ _ (drop 16 key) (drop 8 key) key src des_encode_decode des_decode_encode des_decode_bytes des_encode_bytes Hs).
Qed.

(** C37: DES and triple DES are inverted by their decryption. For every key and
    every block of eight bytes, [cr_des_decode] after [cr_des_encode] gives the
    block back and so does [cr_des_encode] after [cr_des_decode]; the same
    holds for triple DES with two keys and with three keys. *)
Theorem des_roundtrip (key src : list Z) :
  bytes 8 src →
  (cr_des_decode key (cr_des_encode key src) = src ∧ cr_des_encode key (cr_des_decode key src) = src) ∧
  (cr_tdes2_decode key (cr_tdes2_encode key src) = src ∧ cr_tdes2_encode key (cr_tdes2_decode key src) = src) ∧
  (cr_tdes3_decode key (cr_tdes3_encode key src) = src ∧ cr_tdes3_encode key (cr_tdes3_decode key src) = src).
Proof.
  intros Hs. split; [split|split].
  - by apply des_decode_encode.
  - by apply des_encode_decode.
  - by apply tdes2_roundtrip.
  - by apply tdes3_roundtrip.
Qed.

Lemma des_roundtrip_witness :
  let key := [1; 2; 3; 4; 5; 6; 7; 8; 9; 10; 11; 12; 13; 14; 15; 16; 17; 18; 19; 20; 21; 22; 23; 24] in
  let src := [72; 101; 108; 108; 111; 33; 0; 255] in
  cr_des_decode key (cr_des_encode key src) = src ∧ cr_tdes3_decode key (cr_tdes3_encode key src) = src.
Proof.
  intros key src. assert (Hs : bytes 8 src) by (split; [reflexivity|apply byteb_list; reflexivity]).
  pose proof (des_roundtrip key src Hs) as ((H1 & _) & _ & (H3 & _)). exact (conj H1 H3).
Defined.
