(* ===== verification/Aes.v ===== *)
(** * AES-128 (StackLib/crypto/src/cr_aes.c)

    The state is the list of its sixteen bytes, [state[i][j]] at [4 * i + j];
    it lies in the source block, which therefore holds the result too. The round
    keys are computed anew for every block. The main theorem says that decoding
    and encoding are inverse to each other. *)
From Stdlib Require Import Btauto.
From S2P Require Import Prelude.

(** ** Tables *)
Definition sbox_table : list Z :=
  [0x63; 0x7c; 0x77; 0x7b; 0xf2; 0x6b; 0x6f; 0xc5; 0x30; 0x01; 0x67; 0x2b; 0xfe; 0xd7; 0xab; 0x76;
   0xca; 0x82; 0xc9; 0x7d; 0xfa; 0x59; 0x47; 0xf0; 0xad; 0xd4; 0xa2; 0xaf; 0x9c; 0xa4; 0x72; 0xc0;
   0xb7; 0xfd; 0x93; 0x26; 0x36; 0x3f; 0xf7; 0xcc; 0x34; 0xa5; 0xe5; 0xf1; 0x71; 0xd8; 0x31; 0x15;
   0x04; 0xc7; 0x23; 0xc3; 0x18; 0x96; 0x05; 0x9a; 0x07; 0x12; 0x80; 0xe2; 0xeb; 0x27; 0xb2; 0x75;
   0x09; 0x83; 0x2c; 0x1a; 0x1b; 0x6e; 0x5a; 0xa0; 0x52; 0x3b; 0xd6; 0xb3; 0x29; 0xe3; 0x2f; 0x84;
   0x53; 0xd1; 0x00; 0xed; 0x20; 0xfc; 0xb1; 0x5b; 0x6a; 0xcb; 0xbe; 0x39; 0x4a; 0x4c; 0x58; 0xcf;
   0xd0; 0xef; 0xaa; 0xfb; 0x43; 0x4d; 0x33; 0x85; 0x45; 0xf9; 0x02; 0x7f; 0x50; 0x3c; 0x9f; 0xa8;
   0x51; 0xa3; 0x40; 0x8f; 0x92; 0x9d; 0x38; 0xf5; 0xbc; 0xb6; 0xda; 0x21; 0x10; 0xff; 0xf3; 0xd2;
   0xcd; 0x0c; 0x13; 0xec; 0x5f; 0x97; 0x44; 0x17; 0xc4; 0xa7; 0x7e; 0x3d; 0x64; 0x5d; 0x19; 0x73;
   0x60; 0x81; 0x4f; 0xdc; 0x22; 0x2a; 0x90; 0x88; 0x46; 0xee; 0xb8; 0x14; 0xde; 0x5e; 0x0b; 0xdb;
   0xe0; 0x32; 0x3a; 0x0a; 0x49; 0x06; 0x24; 0x5c; 0xc2; 0xd3; 0xac; 0x62; 0x91; 0x95; 0xe4; 0x79;
   0xe7; 0xc8; 0x37; 0x6d; 0x8d; 0xd5; 0x4e; 0xa9; 0x6c; 0x56; 0xf4; 0xea; 0x65; 0x7a; 0xae; 0x08;
   0xba; 0x78; 0x25; 0x2e; 0x1c; 0xa6; 0xb4; 0xc6; 0xe8; 0xdd; 0x74; 0x1f; 0x4b; 0xbd; 0x8b; 0x8a;
   0x70; 0x3e; 0xb5; 0x66; 0x48; 0x03; 0xf6; 0x0e; 0x61; 0x35; 0x57; 0xb9; 0x86; 0xc1; 0x1d; 0x9e;
   0xe1; 0xf8; 0x98; 0x11; 0x69; 0xd9; 0x8e; 0x94; 0x9b; 0x1e; 0x87; 0xe9; 0xce; 0x55; 0x28; 0xdf;
   0x8c; 0xa1; 0x89; 0x0d; 0xbf; 0xe6; 0x42; 0x68; 0x41; 0x99; 0x2d; 0x0f; 0xb0; 0x54; 0xbb; 0x16].

Definition rsbox : list Z :=
  [0x52; 0x09; 0x6a; 0xd5; 0x30; 0x36; 0xa5; 0x38; 0xbf; 0x40; 0xa3; 0x9e; 0x81; 0xf3; 0xd7; 0xfb;
   0x7c; 0xe3; 0x39; 0x82; 0x9b; 0x2f; 0xff; 0x87; 0x34; 0x8e; 0x43; 0x44; 0xc4; 0xde; 0xe9; 0xcb;
   0x54; 0x7b; 0x94; 0x32; 0xa6; 0xc2; 0x23; 0x3d; 0xee; 0x4c; 0x95; 0x0b; 0x42; 0xfa; 0xc3; 0x4e;
   0x08; 0x2e; 0xa1; 0x66; 0x28; 0xd9; 0x24; 0xb2; 0x76; 0x5b; 0xa2; 0x49; 0x6d; 0x8b; 0xd1; 0x25;
   0x72; 0xf8; 0xf6; 0x64; 0x86; 0x68; 0x98; 0x16; 0xd4; 0xa4; 0x5c; 0xcc; 0x5d; 0x65; 0xb6; 0x92;
   0x6c; 0x70; 0x48; 0x50; 0xfd; 0xed; 0xb9; 0xda; 0x5e; 0x15; 0x46; 0x57; 0xa7; 0x8d; 0x9d; 0x84;
   0x90; 0xd8; 0xab; 0x00; 0x8c; 0xbc; 0xd3; 0x0a; 0xf7; 0xe4; 0x58; 0x05; 0xb8; 0xb3; 0x45; 0x06;
   0xd0; 0x2c; 0x1e; 0x8f; 0xca; 0x3f; 0x0f; 0x02; 0xc1; 0xaf; 0xbd; 0x03; 0x01; 0x13; 0x8a; 0x6b;
   0x3a; 0x91; 0x11; 0x41; 0x4f; 0x67; 0xdc; 0xea; 0x97; 0xf2; 0xcf; 0xce; 0xf0; 0xb4; 0xe6; 0x73;
   0x96; 0xac; 0x74; 0x22; 0xe7; 0xad; 0x35; 0x85; 0xe2; 0xf9; 0x37; 0xe8; 0x1c; 0x75; 0xdf; 0x6e;
   0x47; 0xf1; 0x1a; 0x71; 0x1d; 0x29; 0xc5; 0x89; 0x6f; 0xb7; 0x62; 0x0e; 0xaa; 0x18; 0xbe; 0x1b;
   0xfc; 0x56; 0x3e; 0x4b; 0xc6; 0xd2; 0x79; 0x20; 0x9a; 0xdb; 0xc0; 0xfe; 0x78; 0xcd; 0x5a; 0xf4;
   0x1f; 0xdd; 0xa8; 0x33; 0x88; 0x07; 0xc7; 0x31; 0xb1; 0x12; 0x10; 0x59; 0x27; 0x80; 0xec; 0x5f;
   0x60; 0x51; 0x7f; 0xa9; 0x19; 0xb5; 0x4a; 0x0d; 0x2d; 0xe5; 0x7a; 0x9f; 0x93; 0xc9; 0x9c; 0xef;
   0xa0; 0xe0; 0x3b; 0x4d; 0xae; 0x2a; 0xf5; 0xb0; 0xc8; 0xeb; 0xbb; 0x3c; 0x83; 0x53; 0x99; 0x61;
   0x17; 0x2b; 0x04; 0x7e; 0xba; 0x77; 0xd6; 0x26; 0xe1; 0x69; 0x14; 0x63; 0x55; 0x21; 0x0c; 0x7d].

Definition Rcon : list Z :=
  [0x8d; 0x01; 0x02; 0x04; 0x08; 0x10; 0x20; 0x40; 0x80; 0x1b; 0x36; 0x6c; 0xd8; 0xab; 0x4d; 0x9a;
   0x2f; 0x5e; 0xbc; 0x63; 0xc6; 0x97; 0x35; 0x6a; 0xd4; 0xb3; 0x7d; 0xfa; 0xef; 0xc5; 0x91; 0x39;
   0x72; 0xe4; 0xd3; 0xbd; 0x61; 0xc2; 0x9f; 0x25; 0x4a; 0x94; 0x33; 0x66; 0xcc; 0x83; 0x1d; 0x3a;
   0x74; 0xe8; 0xcb; 0x8d; 0x01; 0x02; 0x04; 0x08; 0x10; 0x20; 0x40; 0x80; 0x1b; 0x36; 0x6c; 0xd8;
   0xab; 0x4d; 0x9a; 0x2f; 0x5e; 0xbc; 0x63; 0xc6; 0x97; 0x35; 0x6a; 0xd4; 0xb3; 0x7d; 0xfa; 0xef;
   0xc5; 0x91; 0x39; 0x72; 0xe4; 0xd3; 0xbd; 0x61; 0xc2; 0x9f; 0x25; 0x4a; 0x94; 0x33; 0x66; 0xcc;
   0x83; 0x1d; 0x3a; 0x74; 0xe8; 0xcb; 0x8d; 0x01; 0x02; 0x04; 0x08; 0x10; 0x20; 0x40; 0x80; 0x1b;
   0x36; 0x6c; 0xd8; 0xab; 0x4d; 0x9a; 0x2f; 0x5e; 0xbc; 0x63; 0xc6; 0x97; 0x35; 0x6a; 0xd4; 0xb3;
   0x7d; 0xfa; 0xef; 0xc5; 0x91; 0x39; 0x72; 0xe4; 0xd3; 0xbd; 0x61; 0xc2; 0x9f; 0x25; 0x4a; 0x94;
   0x33; 0x66; 0xcc; 0x83; 0x1d; 0x3a; 0x74; 0xe8; 0xcb; 0x8d; 0x01; 0x02; 0x04; 0x08; 0x10; 0x20;
   0x40; 0x80; 0x1b; 0x36; 0x6c; 0xd8; 0xab; 0x4d; 0x9a; 0x2f; 0x5e; 0xbc; 0x63; 0xc6; 0x97; 0x35;
   0x6a; 0xd4; 0xb3; 0x7d; 0xfa; 0xef; 0xc5; 0x91; 0x39; 0x72; 0xe4; 0xd3; 0xbd; 0x61; 0xc2; 0x9f;
   0x25; 0x4a; 0x94; 0x33; 0x66; 0xcc; 0x83; 0x1d; 0x3a; 0x74; 0xe8; 0xcb; 0x8d; 0x01; 0x02; 0x04;
   0x08; 0x10; 0x20; 0x40; 0x80; 0x1b; 0x36; 0x6c; 0xd8; 0xab; 0x4d; 0x9a; 0x2f; 0x5e; 0xbc; 0x63;
   0xc6; 0x97; 0x35; 0x6a; 0xd4; 0xb3; 0x7d; 0xfa; 0xef; 0xc5; 0x91; 0x39; 0x72; 0xe4; 0xd3; 0xbd;
   0x61; 0xc2; 0x9f; 0x25; 0x4a; 0x94; 0x33; 0x66; 0xcc; 0x83; 0x1d; 0x3a; 0x74; 0xe8; 0xcb].

Definition getSBoxValue (num : Z) : Z := sbox_table !!! Z.to_nat num.
Definition getSBoxInvert (num : Z) : Z := rsbox !!! Z.to_nat num.

Definition Nk : nat := 4.
Definition Nr : nat := 10.

(** ** Round keys *)
(** RotWord, SubWord and the round constant *)
Definition key_word (i : nat) (tempa : list Z) : list Z :=
  match tempa with
  | [a0; a1; a2; a3] =>
      [Z.lxor (getSBoxValue a1) (Rcon !!! (i / Nk)%nat); getSBoxValue a2; getSBoxValue a3; getSBoxValue a0]
  | _ => tempa
  end.

(** word [i] of [RoundKey], behind those there are *)
Definition expand_step (RoundKey : list Z) (i : nat) : list Z :=
  let tempa := (λ j, RoundKey !!! ((i - 1) * 4 + j)%nat) <$> seq 0 4 in
  let tempa := if (i mod Nk =? 0)%nat then key_word i tempa else tempa in
  RoundKey ++ ((λ j, Z.lxor (RoundKey !!! ((i - Nk) * 4 + j)%nat) (tempa !!! j)) <$> seq 0 4).

Definition KeyExpansion (Key : list Z) : list Z := foldl expand_step (take 16 Key) (seq Nk (4 * (Nr + 1) - Nk)).

(** ** The steps of a round *)
Definition AddRoundKey (RoundKey : list Z) (round : nat) (state : list Z) : list Z :=
  (λ k, Z.lxor (state !!! k) (RoundKey !!! (round * 16 + k)%nat)) <$> seq 0 16.

Definition SubBytes (state : list Z) : list Z := getSBoxValue <$> state.
Definition InvSubBytes (state : list Z) : list Z := getSBoxInvert <$> state.

(** an assignment [state[a / 4][a mod 4] = state[b / 4][b mod 4]] *)
Definition move (a b : nat) (s : list Z) : list Z := <[a := s !!! b]> s.

Definition ShiftRows (s : list Z) : list Z :=
  let temp := s !!! 1%nat in
  let s := <[13%nat := temp]> (move 9 13 (move 5 9 (move 1 5 s))) in
  let temp := s !!! 2%nat in
  let s := <[10%nat := temp]> (move 2 10 s) in
  let temp := s !!! 6%nat in
  let s := <[14%nat := temp]> (move 6 14 s) in
  let temp := s !!! 3%nat in
  <[7%nat := temp]> (move 11 7 (move 15 11 (move 3 15 s))).

Definition InvShiftRows (s : list Z) : list Z :=
  let temp := s !!! 13%nat in
  let s := <[1%nat := temp]> (move 5 1 (move 9 5 (move 13 9 s))) in
  let temp := s !!! 2%nat in
  let s := <[10%nat := temp]> (move 2 10 s) in
  let temp := s !!! 6%nat in
  let s := <[14%nat := temp]> (move 6 14 s) in
  let temp := s !!! 3%nat in
  <[15%nat := temp]> (move 11 15 (move 7 11 (move 3 7 s))).

Definition xtime (x : Z) : Z := u8 (Z.lxor (Z.shiftl x 1) (Z.land (Z.shiftr x 7) 1 * 0x1b)).

Definition mix_column (c : list Z) : list Z :=
  match c with
  | [s0; s1; s2; s3] =>
      let t := s0 in
      let Tmp := Z.lxor (Z.lxor (Z.lxor s0 s1) s2) s3 in
      let Tm := xtime (Z.lxor s0 s1) in let s0 := Z.lxor s0 (Z.lxor Tm Tmp) in
      let Tm := xtime (Z.lxor s1 s2) in let s1 := Z.lxor s1 (Z.lxor Tm Tmp) in
      let Tm := xtime (Z.lxor s2 s3) in let s2 := Z.lxor s2 (Z.lxor Tm Tmp) in
      let Tm := xtime (Z.lxor s3 t) in let s3 := Z.lxor s3 (Z.lxor Tm Tmp) in
      [s0; s1; s2; s3]
  | _ => c
  end.

Definition Multiply (x y : Z) : Z :=
  u8 (Z.lxor (Z.lxor (Z.lxor (Z.lxor (Z.land y 1 * x)
    (Z.land (Z.shiftr y 1) 1 * xtime x))
    (Z.land (Z.shiftr y 2) 1 * xtime (xtime x)))
    (Z.land (Z.shiftr y 3) 1 * xtime (xtime (xtime x))))
    (Z.land (Z.shiftr y 4) 1 * xtime (xtime (xtime (xtime x))))).

(** one entry of [InvMixColumns] *)
Definition dot (a b c d ka kb kc kd : Z) : Z :=
  Z.lxor (Z.lxor (Z.lxor (Multiply a ka) (Multiply b kb)) (Multiply c kc)) (Multiply d kd).

Definition inv_mix_column (l : list Z) : list Z :=
  match l with
  | [a; b; c; d] =>
      [dot a b c d 0x0e 0x0b 0x0d 0x09; dot a b c d 0x09 0x0e 0x0b 0x0d;
       dot a b c d 0x0d 0x09 0x0e 0x0b; dot a b c d 0x0b 0x0d 0x09 0x0e]
  | _ => l
  end.

Definition on_columns (f : list Z → list Z) (s : list Z) : list Z :=
  f (take 4 s) ++ f (take 4 (drop 4 s)) ++ f (take 4 (drop 8 s)) ++ f (take 4 (drop 12 s)).

Definition MixColumns (s : list Z) : list Z := on_columns mix_column s.
Definition InvMixColumns (s : list Z) : list Z := on_columns inv_mix_column s.

(** ** Cipher *)
Definition cipher_round (RoundKey s : list Z) (round : nat) : list Z :=
  AddRoundKey RoundKey round (MixColumns (ShiftRows (SubBytes s))).

Definition Cipher (RoundKey s : list Z) : list Z :=
  let s := AddRoundKey RoundKey 0 s in
  let s := foldl (cipher_round RoundKey) s (seq 1 (Nr - 1)) in
  AddRoundKey RoundKey Nr (ShiftRows (SubBytes s)).

Definition inv_cipher_round (RoundKey s : list Z) (round : nat) : list Z :=
  InvMixColumns (AddRoundKey RoundKey round (InvSubBytes (InvShiftRows s))).

Definition InvCipher (RoundKey s : list Z) : list Z :=
  let s := AddRoundKey RoundKey Nr s in
  let s := foldl (inv_cipher_round RoundKey) s (reverse (seq 1 (Nr - 1))) in
  AddRoundKey RoundKey 0 (InvSubBytes (InvShiftRows s)).

(** what [dst], and [src] too, holds afterwards *)
Definition cr_aes_encode (key src : list Z) : list Z := Cipher (KeyExpansion key) (take 16 src).
Definition cr_aes_decode (key src : list Z) : list Z := InvCipher (KeyExpansion key) (take 16 src).

(** the example at the head of the file *)
Definition doc_key : list Z :=
  [0x2b; 0x7e; 0x15; 0x16; 0x28; 0xae; 0xd2; 0xa6; 0xab; 0xf7; 0x15; 0x88; 0x09; 0xcf; 0x4f; 0x3c].
Definition doc_block : list Z :=
  [0x6b; 0xc1; 0xbe; 0xe2; 0x2e; 0x40; 0x9f; 0x96; 0xe9; 0x3d; 0x7e; 0x11; 0x73; 0x93; 0x17; 0x2a].

Example aes_known_answer :
  cr_aes_encode doc_key doc_block =
  [0x3a; 0xd7; 0x7b; 0xb4; 0x0d; 0x7a; 0x36; 0x60; 0xa8; 0x9e; 0xca; 0xf3; 0x24; 0x66; 0xef; 0x97].
Proof. vm_compute. reflexivity. Qed.

(** ** The tables are inverse to each other *)
Lemma byte_check (f : Z → bool) : forallb f (Z.of_nat <$> seq 0 256) = true → ∀ x, is_byte x → f x = true.
Proof.
  intros H x Hx. rewrite forallb_forall in H. apply H, list_elem_of_In, list_elem_of_fmap. exists (Z.to_nat x).
  unfold is_byte in Hx. split; [lia|]. apply elem_of_seq. lia.
Qed.

Lemma sbox_inverse x : is_byte x → getSBoxInvert (getSBoxValue x) = x.
Proof. intros Hx. apply Z.eqb_eq, (byte_check (λ x, getSBoxInvert (getSBoxValue x) =? x)); [by vm_compute|done]. Qed.

Lemma rsbox_inverse x : is_byte x → getSBoxValue (getSBoxInvert x) = x.
Proof. intros Hx. apply Z.eqb_eq, (byte_check (λ x, getSBoxValue (getSBoxInvert x) =? x)); [by vm_compute|done]. Qed.

Lemma sbox_byte x : is_byte (getSBoxValue x) ∧ is_byte (getSBoxInvert x).
Proof. split; apply total_byte, byteb_list; by vm_compute. Qed.

(** ** [xtime] is linear *)
Lemma u8_lxor x y : u8 (Z.lxor x y) = Z.lxor (u8 x) (u8 y).
Proof.
  unfold u8. change 256 with (2 ^ 8). rewrite <-!Z.land_ones by lia. apply Z.bits_inj'. intros n Hn.
  rewrite !Z.land_spec, !Z.lxor_spec, !Z.land_spec. by destruct (Z.testbit x n), (Z.testbit y n), (Z.testbit (Z.ones 8) n).
Qed.

Lemma low_bit z : Z.land z 1 = Z.b2z (Z.testbit z 0).
Proof. change 1 with (Z.ones 1). rewrite Z.land_ones by lia. change (2 ^ 1) with 2. by rewrite Z.bit0_mod. Qed.

Lemma xtime_lxor x y : xtime (Z.lxor x y) = Z.lxor (xtime x) (xtime y).
Proof.
  unfold xtime. rewrite <-u8_lxor. f_equal. rewrite Z.shiftl_lxor, Z.shiftr_lxor, !low_bit, Z.lxor_spec.
  apply Z.bits_inj'. intros n Hn. rewrite !Z.lxor_spec.
  destruct (Z.testbit (Z.shiftr x 7) 0), (Z.testbit (Z.shiftr y 7) 0); cbn [xorb Z.b2z];
    rewrite ?Z.mul_0_l, ?Z.mul_1_l, ?Z.bits_0;
    by destruct (Z.testbit (Z.shiftl x 1) n), (Z.testbit (Z.shiftl y 1) n), (Z.testbit 27 n).
Qed.

Lemma xtime_byte x : is_byte (xtime x).
Proof. apply u8_range. Qed.

#[local] Hint Resolve xtime_byte byte_lxor : aes.

(** multiplication by the constants of the inverse *)
Ltac mul_const :=
  let Hx := fresh in
  intros Hx; unfold Multiply;
  cbn [Z.land Z.shiftr Z.shiftl Z.opp Pos.land Pos.iter Z.div2 Pos.div2 Z.of_N];
  rewrite ?Z.mul_0_l, ?Z.mul_1_l, ?Z.lxor_0_r, ?Z.lxor_0_l; apply u8_id; auto with aes.

Lemma mul9 x : is_byte x → Multiply x 0x09 = Z.lxor x (xtime (xtime (xtime x))).
Proof. mul_const. Qed.
Lemma mul11 x : is_byte x → Multiply x 0x0b = Z.lxor (Z.lxor x (xtime x)) (xtime (xtime (xtime x))).
Proof. mul_const. Qed.
Lemma mul13 x : is_byte x → Multiply x 0x0d = Z.lxor (Z.lxor x (xtime (xtime x))) (xtime (xtime (xtime x))).
Proof. mul_const. Qed.
Lemma mul14 x : is_byte x → Multiply x 0x0e = Z.lxor (Z.lxor (xtime x) (xtime (xtime x))) (xtime (xtime (xtime x))).
Proof. mul_const. Qed.

Lemma Multiply_byte x y : is_byte (Multiply x y).
Proof. apply u8_range. Qed.
#[local] Hint Resolve Multiply_byte : aes.

(** equations between sums of [xtime]s *)
Ltac xor_equation :=
  rewrite ?xtime_lxor; apply Z.bits_inj'; intros ? _; rewrite ?Z.lxor_spec; btauto.

Lemma mix_inverse a b c d :
  is_byte a → is_byte b → is_byte c → is_byte d → inv_mix_column (mix_column [a; b; c; d]) = [a; b; c; d].
Proof.
  intros Ha Hb Hc Hd. cbn [mix_column inv_mix_column]. unfold dot.
  rewrite ?mul9, ?mul11, ?mul13, ?mul14 by auto 10 with aes. repeat f_equal; xor_equation.
Qed.

Lemma inv_mix_inverse a b c d :
  is_byte a → is_byte b → is_byte c → is_byte d → mix_column (inv_mix_column [a; b; c; d]) = [a; b; c; d].
Proof.
  intros Ha Hb Hc Hd. cbn [mix_column inv_mix_column]. unfold dot.
  rewrite ?mul9, ?mul11, ?mul13, ?mul14 by auto 10 with aes. repeat f_equal; xor_equation.
Qed.

(** ** The steps are inverse to each other *)
Lemma explicit16 (P : list Z → Prop) :
  (∀ a b c d e f g h i j k l m n o p, Forall is_byte [a; b; c; d; e; f; g; h; i; j; k; l; m; n; o; p] →
     P [a; b; c; d; e; f; g; h; i; j; k; l; m; n; o; p]) →
  ∀ s, bytes 16 s → P s.
Proof.
  intros H s [Hl Hb]. do 16 (destruct s as [|? s]; [done|]). destruct s; [by apply H|done].
Qed.

Lemma shift_inverse s : bytes 16 s → InvShiftRows (ShiftRows s) = s.
Proof. revert s. by apply explicit16. Qed.
Lemma inv_shift_inverse s : bytes 16 s → ShiftRows (InvShiftRows s) = s.
Proof. revert s. by apply explicit16. Qed.

Lemma Forall16_insert k (x : Z) s : bytes 16 s → is_byte x → bytes 16 (<[k := x]> s).
Proof. intros [Hl Hb] Hx. split; [by rewrite length_insert|]. by apply Forall_insert. Qed.

Lemma move_bytes a b s : bytes 16 s → bytes 16 (move a b s).
Proof. intros Hs. apply Forall16_insert; [done|]. apply total_byte, Hs. Qed.

Lemma ShiftRows_bytes s : bytes 16 s → bytes 16 (ShiftRows s) ∧ bytes 16 (InvShiftRows s).
Proof.
  intros Hs. unfold ShiftRows, InvShiftRows. cbv zeta.
  split; repeat (apply Forall16_insert || apply move_bytes || apply total_byte || done);
    repeat (apply Forall16_insert || apply move_bytes || apply total_byte || apply Hs).
Qed.

Lemma SubBytes_bytes s : bytes 16 s → bytes 16 (SubBytes s) ∧ bytes 16 (InvSubBytes s).
Proof.
  intros [Hl _]. unfold SubBytes, InvSubBytes. split; (split; [by rewrite length_fmap|]);
    apply Forall_fmap, Forall_true; intros x; apply sbox_byte.
Qed.

Lemma sub_inverse s : bytes 16 s → InvSubBytes (SubBytes s) = s ∧ SubBytes (InvSubBytes s) = s.
Proof.
  intros [_ Hb]. unfold SubBytes, InvSubBytes. rewrite <-!list_fmap_compose.
  split; (etransitivity; [|apply list_fmap_id]); apply list_fmap_ext; intros i x Hx; cbn;
    eapply Forall_lookup_1 in Hb; try exact Hx; [by apply sbox_inverse|by apply rsbox_inverse].
Qed.

Lemma AddRoundKey_bytes RK r s : Forall is_byte RK → bytes 16 s → bytes 16 (AddRoundKey RK r s).
Proof.
  intros Hk [_ Hb]. split; [unfold AddRoundKey; by rewrite length_fmap, length_seq|].
  apply Forall_fmap, Forall_true. intros k. by apply byte_lxor; apply total_byte.
Qed.

Lemma AddRoundKey_twice RK r s : bytes 16 s → AddRoundKey RK r (AddRoundKey RK r s) = s.
Proof.
  intros [Hl _]. apply seq_map_ext; [done|]. intros k Hk. unfold AddRoundKey. rewrite total_seq_map by done.
  by rewrite Z.lxor_assoc, Z.lxor_nilpotent, Z.lxor_0_r.
Qed.

Lemma mix_columns_bytes s : bytes 16 s → bytes 16 (MixColumns s) ∧ bytes 16 (InvMixColumns s).
Proof.
  revert s. apply explicit16. intros * Hb. rewrite !Forall_cons in Hb.
  destruct Hb as (? & ? & ? & ? & ? & ? & ? & ? & ? & ? & ? & ? & ? & ? & ? & ? & _). unfold MixColumns, InvMixColumns, on_columns.
  cbn [take drop mix_column inv_mix_column app]. unfold dot.
  split; (split; [done|]); rewrite !Forall_cons; repeat (split; [auto 12 with aes|]); by apply Forall_nil.
Qed.

(** four columns of four bytes *)
Lemma on_columns_app f c1 c2 c3 c4 :
  length c1 = 4%nat → length c2 = 4%nat → length c3 = 4%nat → length c4 = 4%nat →
  on_columns f (c1 ++ c2 ++ c3 ++ c4) = f c1 ++ f c2 ++ f c3 ++ f c4.
Proof.
  intros H1 H2 H3 H4. do 4 (destruct c1 as [|? c1]; [done|]). do 4 (destruct c2 as [|? c2]; [done|]).
  do 4 (destruct c3 as [|? c3]; [done|]). do 4 (destruct c4 as [|? c4]; [done|]).
  destruct c1, c2, c3, c4; done.
Qed.

Lemma on_columns_inverse f g :
  (∀ a b c d, length (f [a; b; c; d]) = 4%nat) →
  (∀ a b c d, is_byte a → is_byte b → is_byte c → is_byte d → g (f [a; b; c; d]) = [a; b; c; d]) →
  ∀ s, bytes 16 s → on_columns g (on_columns f s) = s.
Proof.
  intros Hl Hfg. apply explicit16. intros * Hb. rewrite !Forall_cons in Hb.
  unfold on_columns at 2. cbn [take drop]. rewrite on_columns_app by apply Hl. rewrite !Hfg by tauto. done.
Qed.

Lemma mix_columns_inverse s : bytes 16 s → InvMixColumns (MixColumns s) = s ∧ MixColumns (InvMixColumns s) = s.
Proof. split; apply on_columns_inverse; try done; [apply mix_inverse|apply inv_mix_inverse]. Qed.

(** ** Rounds *)
Lemma KeyExpansion_bytes key : Forall is_byte key → Forall is_byte (KeyExpansion key).
Proof.
  intros Hk. unfold KeyExpansion. assert (H : Forall is_byte (take 16 key)) by (by apply Forall_take).
  revert H. generalize (take 16 key). induction (seq _ _) as [|i ks IH]; intros RK H; [done|]. cbn [foldl]. apply IH.
  unfold expand_step. apply Forall_app. split; [done|]. apply Forall_fmap, Forall_true. intros j. cbn.
  apply byte_lxor; [by apply total_byte|]. apply total_byte. case_match.
  - unfold key_word. cbn [fmap list_fmap seq]. rewrite !Forall_cons.
    refine (conj _ (conj _ (conj _ (conj _ (Forall_nil_2 _))))); try apply sbox_byte. apply byte_lxor; [apply sbox_byte|].
    apply total_byte, byteb_list. by vm_compute.
  - rewrite !Forall_cons. refine (conj _ (conj _ (conj _ (conj _ (Forall_nil_2 _))))); by apply total_byte.
Qed.

(** Rounds that undo each other: [p] and [m r] make up a round, [q] and [n r]
    the inverse round, which applies them in the other order. *)
Lemma rounds_undone (P : list Z → Prop) (p q : list Z → list Z) (m n : nat → list Z → list Z) :
  (∀ x, P x → P (p x) ∧ q (p x) = x) → (∀ r x, P x → P (m r x) ∧ n r (m r x) = x) →
  ∀ rs x, P x →
    foldl (λ y r, n r (q y)) (p (foldl (λ y r, m r (p y)) x rs)) (reverse rs) = p x ∧ P (foldl (λ y r, m r (p y)) x rs).
Proof.
  intros Hp Hm rs. induction rs as [|r rs IH]; intros x Hx; [done|].
  destruct (Hp x Hx) as [Hpx _]. destruct (Hm r (p x) Hpx) as [Hmx Hn].
  destruct (IH (m r (p x)) Hmx) as [E HP]. split; [|exact HP].
  rewrite reverse_cons, foldl_app. cbn [foldl]. rewrite E. destruct (Hp (m r (p x)) Hmx) as [_ ->]. exact Hn.
Qed.

Section cipher.
Context (RK : list Z) (HRK : Forall is_byte RK).

Lemma sub_shift s : bytes 16 s →
  bytes 16 (ShiftRows (SubBytes s)) ∧ InvSubBytes (InvShiftRows (ShiftRows (SubBytes s))) = s.
Proof.
  intros Hs. destruct (SubBytes_bytes s Hs) as [H1 _]. split; [by apply ShiftRows_bytes|].
  rewrite shift_inverse by done. by apply sub_inverse.
Qed.

Lemma inv_sub_shift s : bytes 16 s →
  bytes 16 (InvSubBytes (InvShiftRows s)) ∧ ShiftRows (SubBytes (InvSubBytes (InvShiftRows s))) = s.
Proof.
  intros Hs. destruct (ShiftRows_bytes s Hs) as [_ H1]. split; [by apply SubBytes_bytes|].
  rewrite (proj2 (sub_inverse _ H1)). by apply inv_shift_inverse.
Qed.

Lemma mix_add r s : bytes 16 s →
  bytes 16 (AddRoundKey RK r (MixColumns s)) ∧ InvMixColumns (AddRoundKey RK r (AddRoundKey RK r (MixColumns s))) = s.
Proof.
  intros Hs. destruct (mix_columns_bytes s Hs) as [H1 _]. split; [by apply AddRoundKey_bytes|].
  rewrite AddRoundKey_twice by done. by apply mix_columns_inverse.
Qed.

Lemma add_mix r s : bytes 16 s →
  bytes 16 (InvMixColumns (AddRoundKey RK r s)) ∧ AddRoundKey RK r (MixColumns (InvMixColumns (AddRoundKey RK r s))) = s.
Proof.
  intros Hs. pose proof (AddRoundKey_bytes RK r s HRK Hs) as H1. split; [by apply mix_columns_bytes|].
  rewrite (proj2 (mix_columns_inverse _ H1)). by apply AddRoundKey_twice.
Qed.

Lemma InvCipher_Cipher s : bytes 16 s → InvCipher RK (Cipher RK s) = s.
Proof.
  intros Hs. unfold InvCipher, Cipher. cbv zeta. pose proof (AddRoundKey_bytes RK 0 s HRK Hs) as H0.
  destruct (rounds_undone (bytes 16) (λ s, ShiftRows (SubBytes s)) (λ s, InvSubBytes (InvShiftRows s))
    (λ r s, AddRoundKey RK r (MixColumns s)) (λ r s, InvMixColumns (AddRoundKey RK r s)) sub_shift mix_add
    (seq 1 (Nr - 1)) _ H0) as [E HP].
  fold (cipher_round RK) in E, HP. rewrite AddRoundKey_twice by (by apply sub_shift). fold (inv_cipher_round RK) in E.
  rewrite E. rewrite (proj2 (sub_shift _ H0)). by apply AddRoundKey_twice.
Qed.

Lemma Cipher_InvCipher s : bytes 16 s → Cipher RK (InvCipher RK s) = s.
Proof.
  intros Hs. unfold InvCipher, Cipher. cbv zeta. pose proof (AddRoundKey_bytes RK Nr s HRK Hs) as H0.
  destruct (rounds_undone (bytes 16) (λ s, InvSubBytes (InvShiftRows s)) (λ s, ShiftRows (SubBytes s))
    (λ r s, InvMixColumns (AddRoundKey RK r s)) (λ r s, AddRoundKey RK r (MixColumns s)) inv_sub_shift add_mix
    (reverse (seq 1 (Nr - 1))) _ H0) as [E HP].
  rewrite reverse_involutive in E. fold (cipher_round RK) in E. fold (inv_cipher_round RK) in E, HP.
  rewrite AddRoundKey_twice by (by apply inv_sub_shift). rewrite E. rewrite (proj2 (inv_sub_shift _ H0)).
  by apply AddRoundKey_twice.
Qed.

Lemma Cipher_bytes s : bytes 16 s → bytes 16 (Cipher RK s) ∧ bytes 16 (InvCipher RK s).
Proof.
  intros Hs. unfold Cipher, InvCipher. cbv zeta. split.
  - apply AddRoundKey_bytes; [done|]. apply sub_shift.
    apply (rounds_undone (bytes 16) (λ s, ShiftRows (SubBytes s)) (λ s, InvSubBytes (InvShiftRows s))
      (λ r s, AddRoundKey RK r (MixColumns s)) (λ r s, InvMixColumns (AddRoundKey RK r s)) sub_shift mix_add).
    by apply AddRoundKey_bytes.
  - apply AddRoundKey_bytes; [done|]. apply inv_sub_shift.
    apply (rounds_undone (bytes 16) (λ s, InvSubBytes (InvShiftRows s)) (λ s, ShiftRows (SubBytes s))
      (λ r s, InvMixColumns (AddRoundKey RK r s)) (λ r s, AddRoundKey RK r (MixColumns s)) inv_sub_shift add_mix).
    by apply AddRoundKey_bytes.
Qed.
End cipher.

Lemma take16 s : bytes 16 s → take 16 s = s.
Proof. intros [Hl _]. apply take_ge. lia. Qed.

Lemma aes_bytes key src :
  Forall is_byte key → bytes 16 src → bytes 16 (cr_aes_encode key src) ∧ bytes 16 (cr_aes_decode key src).
Proof.
  intros Hk Hs. unfold cr_aes_encode, cr_aes_decode. rewrite take16 by done. apply Cipher_bytes; [|done].
  by apply KeyExpansion_bytes.
Qed.

Lemma aes_decode_encode key src :
  Forall is_byte key → bytes 16 src →
  cr_aes_decode key (cr_aes_encode key src) = src ∧ cr_aes_encode key (cr_aes_decode key src) = src.
Proof.
  intros Hk Hs. destruct (aes_bytes key src Hk Hs) as [He Hd]. pose proof (KeyExpansion_bytes key Hk) as HR.
  unfold cr_aes_decode at 1, cr_aes_encode at 2. rewrite !take16 by done. unfold cr_aes_decode, cr_aes_encode. rewrite take16 by done.
  split; [by apply InvCipher_Cipher|by apply Cipher_InvCipher].
Qed.

(** C38: AES-128 is inverted by its decoder. For every key of sixteen bytes and
    every block of sixteen bytes, [cr_aes_decode] after [cr_aes_encode] and
    [cr_aes_encode] after [cr_aes_decode] give the block back, and both give
    blocks of sixteen bytes. *)
Theorem aes_roundtrip (key src : list Z) :
  bytes 16 key → bytes 16 src →
  cr_aes_decode key (cr_aes_encode key src) = src ∧ cr_aes_encode key (cr_aes_decode key src) = src ∧
  bytes 16 (cr_aes_encode key src) ∧ bytes 16 (cr_aes_decode key src).
Proof.
  intros [_ Hk] Hs. destruct (aes_decode_encode key src Hk Hs). destruct (aes_bytes key src Hk Hs). done.
Qed.

Lemma aes_roundtrip_witness :
  cr_aes_decode doc_key (cr_aes_encode doc_key doc_block) = doc_block ∧
  cr_aes_encode doc_key (cr_aes_decode doc_key doc_block) = doc_block ∧
  bytes 16 (cr_aes_encode doc_key doc_block) ∧ bytes 16 (cr_aes_decode doc_key doc_block).
Proof.
  apply aes_roundtrip; (split; [reflexivity|apply byteb_list; reflexivity]).
Defined.
