(* ===== verification/Crypt.v ===== *)
(** * Encryption of memory (StackLib/crypto/src/cr_crypt.c)

    [cr_do_crypt] works through a message in pieces of 32 bytes, block by block,
    with one of four ciphers, alone or chained (CBC). The context's [read] and
    [write] are those of cr_core.c; the message lies in an object [handle], a
    list of bytes. The main theorems say that a chained or unchained message is
    what the textbook says, and that decryption gives the message back. *)
From S2P Require Import Prelude Package Crc Des Aes.

Definition CR_MODE_CBC : Z := 0x40.
Definition CR_MODE_ENCRYPT : Z := 0x80.
Definition CR_FILE_BUFFER_SIZE : Z := 32.

Definition cr_mem_write (handle : list Z) (offset : Z) (buffer : list Z) (len : Z) : res (list Z) :=
  guardb (offset + len <=? Z.of_nat (length handle)) ≫= λ _,
  Ret (take (Z.to_nat offset) handle ++ take (Z.to_nat len) buffer ++ drop (Z.to_nat (offset + len)) handle).

(** [cr_codec_entry]; the entry writes its result over the block it reads *)
Record cr_codec_entry := mkCodec { bsize : nat; entry : option (list Z → list Z → list Z) }.

Definition g_fnRegisteredDecoder : list cr_codec_entry :=
  [mkCodec 8 (Some cr_des_decode); mkCodec 8 (Some cr_tdes2_decode); mkCodec 8 (Some cr_tdes3_decode);
   mkCodec 16 (Some cr_aes_decode); mkCodec 0 None].

Definition g_fnRegisteredEncoder : list cr_codec_entry :=
  [mkCodec 8 (Some cr_des_encode); mkCodec 8 (Some cr_tdes2_encode); mkCodec 8 (Some cr_tdes3_encode);
   mkCodec 16 (Some cr_aes_encode); mkCodec 0 None].

Definition run_entry (c : cr_codec_entry) (key block : list Z) : list Z :=
  match entry c with Some f => f key block | None => block end.

Definition chained (mode : Z) : bool := negb (Z.land mode CR_MODE_CBC =? 0).
Definition encrypts (mode : Z) : bool := negb (Z.land mode CR_MODE_ENCRYPT =? 0).

(** [buffer[k + i] ^= cbc_buffer[i]] for all bytes of a block *)
Definition mask (block cbc : list Z) : list Z := zip_with Z.lxor block cbc.

(** [memcpy(cbc_buffer, block, bsize)] *)
Definition keep (block cbc : list Z) : list Z := block ++ drop (length block) cbc.

(** one block: what it becomes, and [cbc_buffer] *)
Definition crypt_block (mode : Z) (e d : cr_codec_entry) (key cbc block : list Z) : list Z * list Z :=
  if encrypts mode then
    let block := if chained mode then mask block cbc else block in
    let block := run_entry e key block in
    (block, if chained mode then keep block cbc else cbc)
  else
    let cbc_buffer2 := block in
    let block := run_entry d key block in
    if chained mode then (mask block cbc, keep cbc_buffer2 cbc) else (block, cbc).

(** one turn of the inner loop; [inr None] is [return 0] *)
Definition crypt_step (mode : Z) (e d : cr_codec_entry) (key : list Z) (j length_ : Z) (x : nat * list Z * list Z)
    : res (nat * list Z * list Z + option (nat * list Z * list Z)) :=
  let '(k, cbc, buffer) := x in
  if (Z.of_nat k <? CR_FILE_BUFFER_SIZE) && (j + Z.of_nat k <? length_) then
    if (bsize (if encrypts mode then e else d) =? 0)%nat then Ret (inr None)
    else
      let y := crypt_block mode e d key cbc (take (bsize e) (drop k buffer)) in
      Ret (inl ((k + bsize e)%nat, y.2, take k buffer ++ y.1 ++ drop (k + bsize e) buffer))
  else Ret (inr (Some x)).

(** one turn of the outer loop; [k] is not initialised before the first *)
Definition piece_step (mode : Z) (key : list Z) (offset length_ : Z) (x : Z * option nat * list Z * list Z)
    : res (Z * option nat * list Z * list Z + list Z * Z) :=
  let '(j, k, cbc, handle) := x in
  if j <? length_ then
    buffer ← cr_mem_read handle (u16 (offset + j)) CR_FILE_BUFFER_SIZE;
    e ← from_option_ub (g_fnRegisteredEncoder !! Z.to_nat (Z.land mode 0x3F));
    d ← from_option_ub (g_fnRegisteredDecoder !! Z.to_nat (Z.land mode 0x3F));
    r ← loop 5 (crypt_step mode e d key j length_) (0%nat, cbc, buffer);
    match r with
    | None => Ret (inr (handle, 0))
    | Some (k, cbc, buffer) =>
        handle ← cr_mem_write handle (u16 (offset + j)) buffer (Z.of_nat k);
        Ret (inl (u16 (j + CR_FILE_BUFFER_SIZE), Some k, cbc, handle))
    end
  else
    k ← from_option_ub k;
    Ret (inr (handle, u16 (j - CR_FILE_BUFFER_SIZE + Z.of_nat k))).

(** the object afterwards, and the number returned; [ctx->icv] is not used *)
Definition cr_do_crypt (fuel : nat) (mode : Z) (key handle : list Z) (offset length_ : Z) : res (list Z * Z) :=
  loop fuel (piece_step mode key offset length_) (0, None, replicate 16 0, handle).

(** ** The textbook *)
Fixpoint cbc_encrypt (E : list Z → list Z) (iv : list Z) (blocks : list (list Z)) : list (list Z) :=
  match blocks with
  | [] => []
  | b :: bs => let c := E (zip_with Z.lxor b iv) in c :: cbc_encrypt E c bs
  end.

Fixpoint cbc_decrypt (D : list Z → list Z) (iv : list Z) (blocks : list (list Z)) : list (list Z) :=
  match blocks with
  | [] => []
  | c :: cs => zip_with Z.lxor (D c) iv :: cbc_decrypt D c cs
  end.

(** the mode byte says which *)
Definition reference (mode : Z) (e d : cr_codec_entry) (key iv : list Z) (blocks : list (list Z)) : list (list Z) :=
  let E := run_entry e key in
  let D := run_entry d key in
  if encrypts mode then if chained mode then cbc_encrypt E iv blocks else E <$> blocks
  else if chained mode then cbc_decrypt D iv blocks else D <$> blocks.

(** ** Blocks one after the other *)
Fixpoint crypt_blocks (mode : Z) (e d : cr_codec_entry) (key cbc : list Z) (bl : list (list Z)) : list (list Z) * list Z :=
  match bl with
  | [] => ([], cbc)
  | b :: bl' =>
      let y := crypt_block mode e d key cbc b in
      let z := crypt_blocks mode e d key y.2 bl' in (y.1 :: z.1, z.2)
  end.

Lemma crypt_blocks_app mode e d key cbc bl1 bl2 :
  let y := crypt_blocks mode e d key cbc bl1 in
  crypt_blocks mode e d key cbc (bl1 ++ bl2) =
    (y.1 ++ (crypt_blocks mode e d key y.2 bl2).1, (crypt_blocks mode e d key y.2 bl2).2).
Proof.
  revert cbc. induction bl1 as [|b bl1 IH]; intros cbc; cbv zeta; [cbn; by destruct (crypt_blocks _ _ _ _ _ _)|].
  cbn [app crypt_blocks]. rewrite IH. done.
Qed.

Lemma zip_lxor_bytes n a b : bytes n a → Forall is_byte b → (n ≤ length b)%nat → bytes n (zip_with Z.lxor a b).
Proof.
  intros [Hl Ha] Hb Hn. split; [rewrite length_zip_with; lia|].
  revert b n Hl Hn Hb. induction Ha as [|x a Hx Ha IH]; intros b n Hl Hn Hb; [by apply Forall_nil|].
  destruct b as [|y b]; [by apply Forall_nil|]. apply Forall_cons in Hb as [Hy Hb]. cbn. apply Forall_cons.
  split; [by apply byte_lxor|]. apply (IH b (length a)); [done|cbn in *; lia|done].
Qed.

Lemma zip_lxor_twice a b : (length a ≤ length b)%nat → zip_with Z.lxor (zip_with Z.lxor a b) b = a.
Proof.
  revert b. induction a as [|x a IH]; intros [|y b] H; cbn in *; [done..|lia|].
  rewrite IH by lia. by rewrite Z.lxor_assoc, Z.lxor_nilpotent, Z.lxor_0_r.
Qed.

Section mode.
Context (mode : Z) (e d : cr_codec_entry) (key : list Z).

(** A cipher of the table: both directions keep blocks, and are inverse. *)
Record cipher : Prop := {
  c_sizes : bsize e = bsize d;
  c_size : bsize e = 8%nat ∨ bsize e = 16%nat;
  c_enc : ∀ b, bytes (bsize e) b → bytes (bsize e) (run_entry e key b) ∧ run_entry d key (run_entry e key b) = b;
  c_dec : ∀ b, bytes (bsize e) b → bytes (bsize e) (run_entry d key b) ∧ run_entry e key (run_entry d key b) = b;
}.

Context (Hc : cipher).

Lemma keep_take bs b cbc : bytes bs b → take bs (keep b cbc) = b.
Proof. intros [Hl _]. unfold keep. rewrite take_app_le by lia. apply take_ge. lia. Qed.

Lemma keep_bytes bs b cbc : bytes bs b → (bs ≤ 16)%nat → bytes 16 cbc → bytes 16 (keep b cbc).
Proof.
  intros [Hl Hb] Hbs [Hlc Hbc]. unfold keep. split; [rewrite length_app, length_drop; lia|].
  apply Forall_app. split; [done|by apply Forall_drop].
Qed.

Lemma mask_take bs b cbc : bytes bs b → bytes 16 cbc → (bs ≤ 16)%nat → mask b cbc = zip_with Z.lxor b (take bs cbc).
Proof.
  intros [Hl _] [Hlc _] Hbs. unfold mask. rewrite <-(take_drop bs cbc) at 1.
  rewrite <-(app_nil_r b) at 1. rewrite zip_with_app by (rewrite length_take; lia). by rewrite zip_with_nil_l, app_nil_r.
Qed.

Lemma size_16 : (bsize e ≤ 16)%nat.
Proof. destruct (c_size Hc); lia. Qed.

Lemma crypt_block_bytes cbc b :
  bytes 16 cbc → bytes (bsize e) b →
  bytes (bsize e) (crypt_block mode e d key cbc b).1 ∧ bytes 16 (crypt_block mode e d key cbc b).2.
Proof.
  intros Hcb Hb. pose proof size_16.
  assert (Hm : ∀ x, bytes (bsize e) x → bytes (bsize e) (mask x cbc)).
  { intros x Hx. apply zip_lxor_bytes; [done|apply Hcb|]. destruct Hcb as [-> _]. lia. }
  assert (He : ∀ x, bytes (bsize e) x → bytes (bsize e) (run_entry e key x)) by (intros; by apply (c_enc Hc)).
  assert (Hd : ∀ x, bytes (bsize e) x → bytes (bsize e) (run_entry d key x)) by (intros; by apply (c_dec Hc)).
  unfold crypt_block. destruct (encrypts mode), (chained mode); cbn [fst snd]; split; eauto using keep_bytes.
Qed.

Lemma crypt_blocks_bytes cbc bl :
  bytes 16 cbc → Forall (bytes (bsize e)) bl →
  Forall (bytes (bsize e)) (crypt_blocks mode e d key cbc bl).1 ∧ bytes 16 (crypt_blocks mode e d key cbc bl).2 ∧
  length (crypt_blocks mode e d key cbc bl).1 = length bl.
Proof.
  intros Hcb Hb. revert cbc Hcb. induction Hb as [|b bl Hb _ IH]; intros cbc Hcb; [split; [by apply Forall_nil|done]|].
  cbn [crypt_blocks fst snd length]. destruct (crypt_block_bytes cbc b Hcb Hb) as [H1 H2].
  destruct (IH _ H2) as (H3 & H4 & H5). split; [by apply Forall_cons|]. split; [done|]. by rewrite H5.
Qed.

(** what the code does block by block is the textbook's mode *)
Lemma crypt_blocks_reference cbc bl :
  bytes 16 cbc → Forall (bytes (bsize e)) bl →
  (crypt_blocks mode e d key cbc bl).1 = reference mode e d key (take (bsize e) cbc) bl.
Proof.
  intros Hcb Hb. revert cbc Hcb. pose proof size_16. unfold reference.
  induction Hb as [|b bl Hb _ IH]; intros cbc Hcb; [by repeat case_match|].
  cbn [crypt_blocks fst snd]. pose proof (crypt_block_bytes cbc b Hcb Hb) as [H1 H2]. rewrite (IH _ H2).
  unfold crypt_block in *. destruct (encrypts mode), (chained mode); cbn [fst snd cbc_encrypt cbc_decrypt fmap list_fmap] in *; try done.
  - rewrite (keep_take (bsize e)) by done. by rewrite (mask_take (bsize e)).
  - rewrite (keep_take (bsize e)) by done. rewrite (mask_take (bsize e)); [done| |done|done]. by apply (c_dec Hc).
Qed.

(** the inner loop takes one block after the other *)
Lemma crypt_iters j length_ bl pre cbc rest :
  Forall (bytes (bsize e)) bl → bytes 16 cbc →
  (∀ i : nat, (i < length bl)%nat →
     Z.of_nat (length pre + i * bsize e) < CR_FILE_BUFFER_SIZE ∧ j + Z.of_nat (length pre + i * bsize e) < length_) →
  let y := crypt_blocks mode e d key cbc bl in
  iters (crypt_step mode e d key j length_) (length bl) (length pre, cbc, pre ++ concat bl ++ rest)
    ((length pre + bsize e * length bl)%nat, y.2, pre ++ concat y.1 ++ rest).
Proof.
  intros Hbl. revert pre cbc. induction Hbl as [|b bl Hb Hbl IH]; intros pre cbc Hcb Hi; cbv zeta.
  { cbn [crypt_blocks fst snd concat length]. rewrite Nat.mul_0_r, Nat.add_0_r. constructor. }
  pose proof (crypt_block_bytes cbc b Hcb Hb) as [[Hy1 Hy1b] Hy2]. destruct Hb as [Hbl1 _]. set (y := crypt_block _ _ _ _ _ _) in *.
  specialize (IH (pre ++ y.1) y.2 Hy2). cbv zeta in IH. rewrite length_app, Hy1 in IH.
  destruct (Hi 0%nat ltac:(cbn; lia)) as [H32 HL]. rewrite Nat.mul_0_l, Nat.add_0_r in H32, HL.
  eapply iters_S.
  - unfold crypt_step. rewrite (proj2 (Z.ltb_lt _ _) H32), (proj2 (Z.ltb_lt _ _) HL). cbn [andb].
    assert (Hz : (bsize (if encrypts mode then e else d) =? 0)%nat = false).
    { apply Nat.eqb_neq. pose proof (c_sizes Hc). pose proof (c_size Hc). destruct (encrypts mode); lia. }
    rewrite Hz. cbn [concat]. rewrite <-app_assoc, drop_app_length, take_app_length' by done. fold y.
    rewrite take_app_length. rewrite drop_app_add', drop_app_length' by done. reflexivity.
  - cbn [crypt_blocks fst snd]. fold y. rewrite <-!app_assoc in IH. change (length (b :: bl)) with (S (length bl)).
    replace (length pre + bsize e * S (length bl))%nat with (length pre + bsize e + bsize e * length bl)%nat by lia.
    cbn [concat]. rewrite <-!app_assoc. apply IH. intros i Hlt. specialize (Hi (S i) ltac:(cbn; lia)). lia.
Qed.
End mode.

Arguments c_sizes {_ _ _}.
Arguments c_size {_ _ _}.
Arguments c_enc {_ _ _}.
Arguments c_dec {_ _ _}.

(** ** The whole message *)
Section message.
Context (mode : Z) (e d : cr_codec_entry) (key : list Z) (offset length_ : Z).
Context (He : g_fnRegisteredEncoder !! Z.to_nat (Z.land mode 0x3F) = Some e).
Context (Hd : g_fnRegisteredDecoder !! Z.to_nat (Z.land mode 0x3F) = Some d).
Context (Hc : cipher e d key) (Hoff : 0 ≤ offset).

(** one piece: the blocks [bl], all of the 32 bytes or up to the end *)
Lemma piece_ok j k0 cbc pre bl tl :
  Forall (bytes (bsize e)) bl → bytes 16 cbc → Z.of_nat (length pre) = offset + j →
  0 ≤ j < length_ → offset + j + 32 < 65536 → (bsize e * length bl ≤ 32 ≤ bsize e * length bl + length tl)%nat →
  (∀ i : nat, (i < length bl)%nat → j + Z.of_nat (i * bsize e) < length_) →
  (bsize e * length bl = 32)%nat ∨ length_ ≤ j + Z.of_nat (bsize e * length bl) →
  let y := crypt_blocks mode e d key cbc bl in
  piece_step mode key offset length_ (j, k0, cbc, pre ++ concat bl ++ tl) =
    Ret (inl (u16 (j + 32), Some (bsize e * length bl)%nat, y.2, pre ++ concat y.1 ++ tl)).
Proof.
  intros Hbl Hcb Hpre Hj Hwrap Hsz Hin Hend. cbv zeta. unfold piece_step. rewrite (proj2 (Z.ltb_lt _ _)) by lia.
  assert (Hu : u16 (offset + j) = offset + j) by (apply u16_id; unfold is_u16; lia). rewrite Hu.
  pose proof (concat_length (bsize e) bl Hbl) as Hlc.
  destruct (crypt_blocks_bytes mode e d key Hc cbc bl Hcb Hbl) as (Hy1 & Hy2 & Hy3).
  pose proof (concat_length _ _ Hy1) as Hly. rewrite Hy3 in Hly.
  assert (Hrd : cr_mem_read (pre ++ concat bl ++ tl) (offset + j) CR_FILE_BUFFER_SIZE =
    Ret (concat bl ++ take (32 - bsize e * length bl) tl)).
  { unfold cr_mem_read, CR_FILE_BUFFER_SIZE. rewrite (proj2 (Z.leb_le _ _)) by (rewrite !length_app; lia). res_cbn. f_equal.
    rewrite <-Hpre, Nat2Z.id, drop_app_length. change (Z.to_nat 32) with 32%nat.
    rewrite take_app_ge by lia. f_equal. f_equal. lia. }
  rewrite Hrd. res_cbn. rewrite He, Hd. res_cbn.
  pose proof (crypt_iters mode e d key Hc j length_ bl [] cbc (take (32 - bsize e * length bl) tl) Hbl Hcb) as Hit. cbv zeta in Hit.
  cbn [app length] in Hit. specialize (Hit ltac:(intros i Hi; unfold CR_FILE_BUFFER_SIZE; rewrite Nat.add_0_l; split; [nia|by apply Hin])).
  set (y := crypt_blocks _ _ _ _ _ _) in *.
  rewrite (loop_exit _ _ 5 _ _ (Some ((bsize e * length bl)%nat, y.2, concat y.1 ++ take (32 - bsize e * length bl) tl)) Hit).
  - res_cbn. unfold cr_mem_write. rewrite (proj2 (Z.leb_le _ _)) by (rewrite !length_app; lia). res_cbn. do 4 f_equal.
    rewrite <-Hpre, Nat2Z.id, take_app_length. f_equal. rewrite Nat2Z.id. rewrite <-Hly, take_app_length. f_equal.
    rewrite <-Hpre, <-Nat2Z.inj_add, Nat2Z.id, drop_app_add. rewrite Hly, <-Hlc. by rewrite drop_app_length.
  - unfold crypt_step, CR_FILE_BUFFER_SIZE. rewrite Nat.add_0_l.
    destruct Hend as [Hend|Hend]; [rewrite (proj2 (Z.ltb_ge (Z.of_nat _) 32)) by lia; done|].
    rewrite (proj2 (Z.ltb_ge (j + _) _)) by lia. by rewrite andb_false_r.
  - pose proof (c_size Hc). nia.
Qed.

(** [p] pieces *)
Lemma pieces_ok p : ∀ fuel j k0 cbc pre bl tl,
  Forall (bytes (bsize e)) bl → bytes 16 cbc → Z.of_nat (length pre) = offset + j → 0 ≤ j →
  (p < fuel)%nat → (0 < p)%nat → offset + j + 32 * Z.of_nat p < 65536 →
  32 * (Z.of_nat p - 1) < length_ - j ≤ 32 * Z.of_nat p →
  Z.of_nat (bsize e * length bl) - Z.of_nat (bsize e) < length_ - j ≤ Z.of_nat (bsize e * length bl) →
  (32 * p ≤ bsize e * length bl + length tl)%nat →
  let y := crypt_blocks mode e d key cbc bl in
  loop fuel (piece_step mode key offset length_) (j, k0, cbc, pre ++ concat bl ++ tl) =
    Ret (pre ++ concat y.1 ++ tl, j + Z.of_nat (bsize e * length bl)).
Proof.
  induction p as [|p IH]; intros fuel j k0 cbc pre bl tl Hbl Hcb Hpre Hj Hf Hp Hwrap Hlen Hblk Htl; [lia|].
  cbv zeta. destruct fuel as [|fuel]; [lia|].
  assert (Hq : ∃ q, (bsize e * q = 32)%nat) by (destruct (c_size Hc) as [->| ->]; [by exists 4%nat|by exists 2%nat]).
  destruct Hq as [q Hq]. assert (Hpos : (0 < bsize e)%nat) by (destruct (c_size Hc); lia).
  destruct (decide (p = 0%nat)) as [->|Hp0].
  - assert (Hle : (length bl ≤ q)%nat) by nia.
    rewrite (loop_inl _ _ _ _ (piece_ok j k0 cbc pre bl tl Hbl Hcb Hpre ltac:(lia) ltac:(lia) ltac:(nia) ltac:(intros; nia) ltac:(right; lia))).
    destruct fuel as [|fuel]; [lia|]. apply loop_inr. unfold piece_step.
    rewrite u16_id by (unfold is_u16; lia). rewrite (proj2 (Z.ltb_ge _ _)) by lia. res_cbn.
    replace (j + 32 - CR_FILE_BUFFER_SIZE + Z.of_nat (bsize e * length bl)) with (j + Z.of_nat (bsize e * length bl))
      by (unfold CR_FILE_BUFFER_SIZE; lia).
    rewrite u16_id; [done|]. unfold is_u16. nia.
  - assert (Hge : (q ≤ length bl)%nat) by nia. rewrite <-(take_drop q bl) in Hbl. apply Forall_app in Hbl as [Hb1 Hb2].
    assert (Hl1 : length (take q bl) = q) by (rewrite length_take; lia).
    assert (Hl2 : length (drop q bl) = (length bl - q)%nat) by apply length_drop.
    pose proof (concat_length _ _ Hb1) as Hc1. pose proof (concat_length _ _ Hb2) as Hc2.
    destruct (crypt_blocks_bytes mode e d key Hc cbc _ Hcb Hb1) as (Hy1 & Hy2 & Hy3).
    pose proof (concat_length _ _ Hy1) as Hly.
    assert (Ebl : concat bl ++ tl = concat (take q bl) ++ concat (drop q bl) ++ tl).
    { rewrite app_assoc, <-concat_app, take_drop. done. }
    rewrite Ebl.
    pose proof (piece_ok j k0 cbc pre (take q bl) (concat (drop q bl) ++ tl) Hb1 Hcb Hpre ltac:(lia) ltac:(lia)
      ltac:(rewrite length_app, Hc2, Hl1, Hl2; nia) ltac:(rewrite Hl1; intros; nia) ltac:(left; nia)) as Hstep.
    cbv zeta in Hstep. rewrite (loop_inl _ _ _ _ Hstep). rewrite u16_id by (unfold is_u16; lia).
    pose proof (crypt_blocks_app mode e d key cbc (take q bl) (drop q bl)) as Eb. cbv zeta in Eb. rewrite take_drop in Eb.
    rewrite app_assoc. set (y1 := crypt_blocks mode e d key cbc (take q bl)) in *.
    rewrite (IH fuel (j + 32) _ y1.2 (pre ++ concat y1.1) (drop q bl) tl); try done; try lia.
    + rewrite Eb. cbn [fst]. rewrite concat_app, <-!app_assoc, Hl2.
      replace (j + 32 + Z.of_nat (bsize e * (length bl - q))) with (j + Z.of_nat (bsize e * length bl)) by nia. done.
    + rewrite length_app, Hly, Hy3, Hl1. lia.
    + rewrite Hl2. nia.
    + rewrite Hl2. nia.
Qed.
End message.

(** ** The ciphers of the table *)
Lemma des_cipher key : cipher (mkCodec 8 (Some cr_des_encode)) (mkCodec 8 (Some cr_des_decode)) key.
Proof.
  refine (Build_cipher (mkCodec 8 (Some cr_des_encode)) (mkCodec 8 (Some cr_des_decode)) key (eq_refl 8%nat) (or_introl (eq_refl 8%nat))
    (λ b Hb, conj (des_encode_bytes key b) (des_decode_encode key b Hb))
    (λ b Hb, conj (des_decode_bytes key b) (des_encode_decode key b Hb))).
Qed.

Lemma tdes2_cipher key : cipher (mkCodec 8 (Some cr_tdes2_encode)) (mkCodec 8 (Some cr_tdes2_decode)) key.
Proof.
  refine (Build_cipher (mkCodec 8 (Some cr_tdes2_encode)) (mkCodec 8 (Some cr_tdes2_decode)) key (eq_refl 8%nat) (or_introl (eq_refl 8%nat))
    (λ b Hb, conj (des_encode_bytes key _) (proj1 (tdes2_roundtrip key b Hb)))
    (λ b Hb, conj (des_decode_bytes key _) (proj2 (tdes2_roundtrip key b Hb)))).
Qed.

Lemma tdes3_cipher key : cipher (mkCodec 8 (Some cr_tdes3_encode)) (mkCodec 8 (Some cr_tdes3_decode)) key.
Proof.
  refine (Build_cipher (mkCodec 8 (Some cr_tdes3_encode)) (mkCodec 8 (Some cr_tdes3_decode)) key (eq_refl 8%nat) (or_introl (eq_refl 8%nat))
    (λ b Hb, conj (des_encode_bytes (drop 16 key) _) (proj1 (tdes3_roundtrip key b Hb)))
    (λ b Hb, conj (des_decode_bytes key _) (proj2 (tdes3_roundtrip key b Hb)))).
Qed.

Lemma aes_cipher key : Forall is_byte key → cipher (mkCodec 16 (Some cr_aes_encode)) (mkCodec 16 (Some cr_aes_decode)) key.
Proof.
  intros Hk.
  refine (Build_cipher (mkCodec 16 (Some cr_aes_encode)) (mkCodec 16 (Some cr_aes_decode)) key (eq_refl 16%nat) (or_intror (eq_refl 16%nat))
    (λ b Hb, conj (proj1 (aes_bytes key b Hk Hb)) (proj1 (aes_decode_encode key b Hk Hb)))
    (λ b Hb, conj (proj2 (aes_bytes key b Hk Hb)) (proj2 (aes_decode_encode key b Hk Hb)))).
Qed.

(** the mode byte: a cipher, chained or not, in one of the directions *)
Definition mode_of (a : nat) (chain encrypt : bool) : Z :=
  Z.of_nat a + (if chain then CR_MODE_CBC else 0) + (if encrypt then CR_MODE_ENCRYPT else 0).

Definition encoder (a : nat) : cr_codec_entry := nth a g_fnRegisteredEncoder (mkCodec 0 None).
Definition decoder (a : nat) : cr_codec_entry := nth a g_fnRegisteredDecoder (mkCodec 0 None).

Lemma mode_ok a chain encrypt key :
  (a < 4)%nat → Forall is_byte key →
  let mode := mode_of a chain encrypt in
  g_fnRegisteredEncoder !! Z.to_nat (Z.land mode 0x3F) = Some (encoder a) ∧
  g_fnRegisteredDecoder !! Z.to_nat (Z.land mode 0x3F) = Some (decoder a) ∧
  cipher (encoder a) (decoder a) key ∧ chained mode = chain ∧ encrypts mode = encrypt.
Proof.
  intros Ha Hk. cbv zeta. split; [|split; [|split; [|split]]].
  3: { destruct a as [|[|[|[|a]]]]; [exact (des_cipher key)|exact (tdes2_cipher key)|exact (tdes3_cipher key)|exact (aes_cipher key Hk)|lia]. }
  all: do 4 (destruct a as [|a]; [destruct chain, encrypt; reflexivity|]); lia.
Qed.

(** how many blocks or pieces hold [n] bytes *)
Definition ceil (n size : Z) : Z := (n + size - 1) / size.

Lemma ceil_bounds n size : 0 < size → 0 < n → 0 < ceil n size ∧ size * (ceil n size - 1) < n ≤ size * ceil n size.
Proof.
  intros Hs Hn. unfold ceil. pose proof (Z.div_mod (n + size - 1) size ltac:(lia)). pose proof (Z.mod_pos_bound (n + size - 1) size Hs).
  split; [apply Z.div_str_pos; lia|]. nia.
Qed.

(** A message: [offset] bytes, whole blocks, and what is behind them; the last
    piece of 32 bytes is inside the object. *)
Definition message (bs : nat) (pre : list Z) (bl : list (list Z)) (tl : list Z) (length_ : Z) : Prop :=
  Forall (bytes bs) bl ∧ 0 < length_ ∧ Z.of_nat (length bl) = ceil length_ (Z.of_nat bs) ∧
  let room := Z.of_nat (length pre) + 32 * ceil length_ 32 in
  room ≤ Z.of_nat (length (pre ++ concat bl ++ tl)) ∧ room < 65536.

Lemma do_crypt_message a chain encrypt key pre bl tl length_ fuel :
  (a < 4)%nat → Forall is_byte key → message (bsize (encoder a)) pre bl tl length_ → (Z.to_nat (ceil length_ 32) < fuel)%nat →
  let mode := mode_of a chain encrypt in
  cr_do_crypt fuel mode key (pre ++ concat bl ++ tl) (Z.of_nat (length pre)) length_ =
    Ret (pre ++ concat (reference mode (encoder a) (decoder a) key (replicate (bsize (encoder a)) 0) bl) ++ tl,
         Z.of_nat (bsize (encoder a) * length bl)).
Proof.
  intros Ha Hk (Hbl & Hl & Hn & Hroom & Hwrap) Hf. cbv zeta in *. set (mode := mode_of a chain encrypt).
  destruct (mode_ok a chain encrypt key Ha Hk) as (He & Hd & Hc & _). fold mode in He, Hd.
  assert (Hpos : (0 < bsize (encoder a) ≤ 16)%nat) by (destruct (c_size Hc); lia).
  pose proof (ceil_bounds length_ 32 ltac:(lia) Hl) as (Hp & Hp1).
  pose proof (ceil_bounds length_ (Z.of_nat (bsize (encoder a))) ltac:(lia) Hl) as (_ & Hb1). rewrite <-Hn in Hb1.
  pose proof (concat_length _ _ Hbl) as Hcl. rewrite !length_app, Hcl in Hroom.
  assert (Hiv : bytes 16 (replicate 16 0)) by (split; [done|by apply Forall_replicate]).
  pose proof (pieces_ok mode _ _ key (Z.of_nat (length pre)) length_ He Hd Hc ltac:(lia) (Z.to_nat (ceil length_ 32)) fuel 0 None
    (replicate 16 0) pre bl tl Hbl Hiv ltac:(lia) ltac:(lia) Hf ltac:(lia) ltac:(lia) ltac:(lia) ltac:(nia) ltac:(lia)) as H.
  cbv zeta in H. rewrite (crypt_blocks_reference mode _ _ key Hc (replicate 16 0) bl Hiv Hbl) in H.
  replace (take (bsize (encoder a)) (replicate 16 0)) with (replicate (bsize (encoder a)) 0) in H.
  - exact H.
  - rewrite take_replicate. f_equal. lia.
Qed.

(** ** Decryption *)
Lemma cbc_inverse e d key iv bl :
  cipher e d key → Forall (bytes (bsize e)) bl → bytes (bsize e) iv →
  cbc_decrypt (run_entry d key) iv (cbc_encrypt (run_entry e key) iv bl) = bl ∧
  Forall (bytes (bsize e)) (cbc_encrypt (run_entry e key) iv bl).
Proof.
  intros Hc Hb. revert iv. induction Hb as [|b bl Hb _ IH]; intros iv Hiv; [split; [done|by apply Forall_nil]|].
  cbn [cbc_encrypt cbc_decrypt]. assert (Hx : bytes (bsize e) (zip_with Z.lxor b iv)).
  { apply zip_lxor_bytes; [done|apply Hiv|]. destruct Hiv as [-> _]. done. }
  destruct (c_enc Hc _ Hx) as [He Hde]. destruct (IH _ He) as [E HF]. rewrite E, Hde, zip_lxor_twice.
  - split; [done|]. by apply Forall_cons.
  - destruct Hb as [-> _], Hiv as [-> _]. done.
Qed.

Lemma reference_inverse a chain key bl :
  (a < 4)%nat → Forall is_byte key → Forall (bytes (bsize (encoder a))) bl →
  let iv := replicate (bsize (encoder a)) 0 in
  let r := reference (mode_of a chain true) (encoder a) (decoder a) key iv bl in
  reference (mode_of a chain false) (encoder a) (decoder a) key iv r = bl ∧
  Forall (bytes (bsize (encoder a))) r ∧ length r = length bl.
Proof.
  intros Ha Hk Hb. cbv zeta. destruct (mode_ok a chain true key Ha Hk) as (_ & _ & Hc & E1 & E2).
  destruct (mode_ok a chain false key Ha Hk) as (_ & _ & _ & E3 & E4). unfold reference. rewrite E1, E2, E3, E4.
  assert (Hiv : bytes (bsize (encoder a)) (replicate (bsize (encoder a)) 0)) by apply bytes_zero.
  destruct chain.
  - destruct (cbc_inverse _ _ _ _ bl Hc Hb Hiv) as [E HF]. split; [done|]. split; [done|].
    clear. generalize (replicate (bsize (encoder a)) 0). induction bl as [|b bl IH]; intros iv; cbn; [done|]. by rewrite IH.
  - clear -Hb Hc. rewrite length_fmap. induction Hb as [|b bl Hb _ (E & HF & _)]; [by split; [|split; [apply Forall_nil|]]|].
    cbn [fmap list_fmap]. destruct (c_enc Hc b Hb) as [He Hde]. rewrite Hde. split; [by f_equal|]. split; [by apply Forall_cons|done].
Qed.

Lemma cut_blocks (bs n : nat) (l : list Z) :
  Forall is_byte l → (bs * n ≤ length l)%nat → ∃ bl tl, l = concat bl ++ tl ∧ Forall (bytes bs) bl ∧ length bl = n.
Proof.
  revert l. induction n as [|n IH]; intros l Hl Hn.
  - exists [], l. split; [done|]. split; [by apply Forall_nil|done].
  - destruct (IH (drop bs l)) as (bl & tl & E & Hb & Hlen); [by apply Forall_drop|rewrite length_drop; lia|].
    exists (take bs l :: bl), tl. cbn [concat length]. rewrite <-app_assoc, <-E, take_drop. split; [done|]. split; [|by rewrite Hlen].
    apply Forall_cons. split; [|done]. split; [rewrite length_take; lia|by apply Forall_take].
Qed.

Lemma cut_message a pre_len handle length_ :
  (a < 4)%nat → Forall is_byte handle → 0 ≤ pre_len → 0 < length_ →
  pre_len + 32 * ceil length_ 32 ≤ Z.of_nat (length handle) → pre_len + 32 * ceil length_ 32 < 65536 →
  ∃ pre bl tl, handle = pre ++ concat bl ++ tl ∧ Z.of_nat (length pre) = pre_len ∧ message (bsize (encoder a)) pre bl tl length_.
Proof.
  intros Ha Hh Hp Hl Hroom Hwrap.
  assert (Hbs : ∃ q, (bsize (encoder a) * S q = 32)%nat).
  { destruct a as [|[|[|[|a]]]]; [by exists 3%nat..|by exists 1%nat|lia]. }
  destruct Hbs as [q Hq]. set (bs := bsize (encoder a)) in *. clearbody bs.
  pose proof (ceil_bounds length_ 32 ltac:(lia) Hl) as (Hp0 & Hp1).
  pose proof (ceil_bounds length_ (Z.of_nat bs) ltac:(nia) Hl) as (Hb0 & Hb1).
  set (n := ceil length_ (Z.of_nat bs)) in *. set (p := ceil length_ 32) in *.
  assert (Hn : Z.of_nat bs * n ≤ 32 * p).
  { assert (E32 : 32 = Z.of_nat bs * Z.of_nat (S q)) by (rewrite <-Nat2Z.inj_mul, Hq; done).
    rewrite E32, <-Z.mul_assoc in Hp1 |- *. apply Z.mul_le_mono_nonneg_l; [lia|].
    assert (n - 1 < Z.of_nat (S q) * p); [|lia]. apply (Z.mul_lt_mono_pos_l (Z.of_nat bs)); [lia|]. lia. }
  destruct (cut_blocks bs (Z.to_nat n) (drop (Z.to_nat pre_len) handle)) as (bl & tl & E & Hb & Hlen).
  { by apply Forall_drop. }
  { rewrite length_drop. nia. }
  assert (Hpre : length (take (Z.to_nat pre_len) handle) = Z.to_nat pre_len) by (rewrite length_take; lia).
  exists (take (Z.to_nat pre_len) handle), bl, tl. rewrite <-E, take_drop. split; [done|]. split; [lia|].
  split; [done|]. split; [done|]. split; [lia|]. cbv zeta. rewrite <-E, take_drop, Hpre. fold p. lia.
Qed.

(** C36: The mode of operation is the textbook's. With any of the four ciphers,
    chained or not, in both directions, [cr_do_crypt] on an object that holds a
    message of any positive length replaces the blocks of the message by what
    cipher block chaining from a zero vector (or the cipher on every block
    alone) makes of them, changes no other byte, and returns the length of the
    blocks; the last block is processed whole. *)
Theorem crypt_is_textbook (a : nat) (chain encrypt : bool) (key pre : list Z) (bl : list (list Z)) (tl : list Z)
    (length_ : Z) (fuel : nat) :
  (a < 4)%nat → Forall is_byte key → (24 ≤ length key)%nat → message (bsize (encoder a)) pre bl tl length_ →
  (Z.to_nat (ceil length_ 32) < fuel)%nat →
  cr_do_crypt fuel (mode_of a chain encrypt) key (pre ++ concat bl ++ tl) (Z.of_nat (length pre)) length_ =
    let E := run_entry (encoder a) key in
    let D := run_entry (decoder a) key in
    let iv := replicate (bsize (encoder a)) 0 in
    let bl' := if encrypt then if chain then cbc_encrypt E iv bl else E <$> bl
               else if chain then cbc_decrypt D iv bl else D <$> bl in
    Ret (pre ++ concat bl' ++ tl, Z.of_nat (bsize (encoder a)) * ceil length_ (Z.of_nat (bsize (encoder a)))).
Proof.
  intros Ha Hk _ Hm Hf. cbv zeta. rewrite (do_crypt_message a chain encrypt key pre bl tl length_ fuel Ha Hk Hm Hf).
  destruct (mode_ok a chain encrypt key Ha Hk) as (_ & _ & _ & E1 & E2). unfold reference. rewrite E1, E2.
  destruct Hm as (_ & _ & <- & _). rewrite Nat2Z.inj_mul. done.
Qed.

(** Decryption gives the message back. With any of the four ciphers,
    chained or not, a message of any positive length in any object that is long
    enough for the last piece, encrypted by [cr_do_crypt] and then decrypted
    with the same key, leaves the object as it was; both calls end and return
    the length rounded up to whole blocks. *)
Theorem crypt_roundtrip (a : nat) (chain : bool) (key handle : list Z) (offset length_ : Z) (fuel : nat) :
  (a < 4)%nat → Forall is_byte key → (24 ≤ length key)%nat → Forall is_byte handle → 0 ≤ offset → 0 < length_ →
  offset + 32 * ceil length_ 32 ≤ Z.of_nat (length handle) → offset + 32 * ceil length_ 32 < 65536 →
  (Z.to_nat (ceil length_ 32) < fuel)%nat →
  let bs := Z.of_nat (bsize (encoder a)) in
  ∃ handle', cr_do_crypt fuel (mode_of a chain true) key handle offset length_ = Ret (handle', bs * ceil length_ bs) ∧
    cr_do_crypt fuel (mode_of a chain false) key handle' offset length_ = Ret (handle, bs * ceil length_ bs).
Proof.
  intros Ha Hk _ Hh Ho Hl Hroom Hwrap Hf bs.
  destruct (cut_message a offset handle length_ Ha Hh Ho Hl Hroom Hwrap) as (pre & bl & tl & -> & <- & Hm).
  rewrite (do_crypt_message a chain true key pre bl tl length_ fuel Ha Hk Hm Hf).
  destruct Hm as (Hbl & _ & Hn & Hr & Hw). destruct (reference_inverse a chain key bl Ha Hk Hbl) as (Einv & HF & Hlen).
  eexists. split; [by rewrite Nat2Z.inj_mul, Hn|].
  rewrite (do_crypt_message a chain false key pre _ tl length_ fuel Ha Hk).
  - rewrite Einv, Hlen. by rewrite Nat2Z.inj_mul, Hn.
  - split; [done|]. split; [done|]. split; [by rewrite Hlen|]. split; [|done].
    rewrite !length_app, (concat_length _ _ Hbl) in Hr. rewrite !length_app, (concat_length _ _ HF), Hlen. exact Hr.
  - exact Hf.
Qed.

(** a message of five bytes, whose block of eight bytes is processed *)
Definition demo_handle : list Z := [255; 254] ++ [72; 101; 108; 108; 111; 33; 0; 7] ++ replicate 24 9.

Definition demo_key : list Z := Z.of_nat <$> seq 1 24.

Lemma crypt_is_textbook_witness :
  cr_do_crypt 2 (mode_of 0 true true) demo_key ([255; 254] ++ concat [[72; 101; 108; 108; 111; 33; 0; 7]] ++ replicate 24 9) 2 5 =
    Ret ([255; 254] ++ concat [run_entry (encoder 0) demo_key (zip_with Z.lxor [72; 101; 108; 108; 111; 33; 0; 7] (replicate 8 0))]
           ++ replicate 24 9, 8).
Proof.
  apply (crypt_is_textbook 0 true true demo_key [255; 254] [[72; 101; 108; 108; 111; 33; 0; 7]] (replicate 24 9) 5 2).
  - lia.
  - apply byteb_list. reflexivity.
  - cbn; lia.
  - split; [|split; [lia|split; [reflexivity|split; [vm_compute; discriminate|reflexivity]]]].
    apply Forall_cons. split; [split; [reflexivity|apply byteb_list; reflexivity]|apply Forall_nil; exact I].
  - vm_compute. lia.
Defined.

Lemma crypt_roundtrip_witness :
  let bs := Z.of_nat (bsize (encoder 3)) in
  ∃ handle', cr_do_crypt 2 (mode_of 3 true true) demo_key demo_handle 2 17 = Ret (handle', bs * ceil 17 bs) ∧
    cr_do_crypt 2 (mode_of 3 true false) demo_key handle' 2 17 = Ret (demo_handle, bs * ceil 17 bs).
Proof.
  apply (crypt_roundtrip 3 true demo_key demo_handle 2 17 2); try lia.
  - apply byteb_list. reflexivity.
  - cbn; lia.
  - apply byteb_list. reflexivity.
  - vm_compute. discriminate.
  - reflexivity.
  - vm_compute. lia.
Defined.

(** The calls that do not encrypt. A message of length zero makes the code
    read a counter it never set; the mode whose cipher has number four, the
    end mark of the tables, returns 0 and leaves the object; a cipher number
    from five up reads behind the tables. *)
Theorem crypt_errors (mode : Z) (key handle : list Z) (offset length_ : Z) (fuel : nat) :
  let room := 0 ≤ offset ∧ offset + 32 ≤ Z.of_nat (length handle) ∧ offset < 65536 in
  cr_do_crypt (S fuel) mode key handle offset 0 = Undef ∧
  (0 < length_ → room → Z.land mode 0x3F = 4 → cr_do_crypt (S fuel) mode key handle offset length_ = Ret (handle, 0)) ∧
  (0 < length_ → room → 5 ≤ Z.land mode 0x3F → cr_do_crypt (S fuel) mode key handle offset length_ = Undef).
Proof.
  cbv zeta. assert (Hread : 0 ≤ offset ∧ offset + 32 ≤ Z.of_nat (length handle) ∧ offset < 65536 →
    ∃ buffer, cr_mem_read handle (u16 (offset + 0)) CR_FILE_BUFFER_SIZE = Ret buffer).
  { intros (H0 & H1 & H2). rewrite u16_id by (unfold is_u16; lia). unfold cr_mem_read, CR_FILE_BUFFER_SIZE.
    rewrite (proj2 (Z.leb_le _ _)) by lia. by eexists. }
  split; [done|]. split; intros Hl Hroom Hm; destruct (Hread Hroom) as [buffer E]; unfold cr_do_crypt.
  - apply loop_inr. unfold piece_step. rewrite (proj2 (Z.ltb_lt _ _)), E, Hm by done. res_cbn.
    change (g_fnRegisteredEncoder !! Z.to_nat 4) with (Some (mkCodec 0 None)).
    change (g_fnRegisteredDecoder !! Z.to_nat 4) with (Some (mkCodec 0 None)). res_cbn.
    rewrite (loop_inr _ 4 _ None); [done|]. unfold crypt_step.
    rewrite (proj2 (Z.ltb_lt _ _)), (proj2 (Z.ltb_lt (0 + Z.of_nat 0) _)) by (unfold CR_FILE_BUFFER_SIZE; lia).
    by destruct (encrypts mode).
  - apply loop_undef. unfold piece_step. rewrite (proj2 (Z.ltb_lt _ _)), E by done. res_cbn.
    rewrite (lookup_ge_None_2 g_fnRegisteredEncoder); [done|]. change (length g_fnRegisteredEncoder) with 5%nat. lia.
Qed.

Lemma crypt_errors_witness :
  cr_do_crypt 1 0xC4 [] demo_handle 0 8 = Ret (demo_handle, 0) ∧ cr_do_crypt 1 0x05 [] demo_handle 0 8 = Undef.
Proof.
  split.
  - apply (crypt_errors 0xC4 [] demo_handle 0 8 0); [lia|split; [lia|split; [vm_compute; discriminate|lia]]|reflexivity].
  - apply (crypt_errors 0x05 [] demo_handle 0 8 0); [lia|split; [lia|split; [vm_compute; discriminate|lia]]|vm_compute; discriminate].
Defined.
