(* ===== verification/Mac.v ===== *)
(** * Message authentication codes (StackLib/crypto/src/cr_mac.c)

    [cr_calc_mac] computes the block cipher MACs of ISO 9797-1 with DES: a
    padding method, a chain of blocks, and an output transformation, all chosen
    by the mode byte. [iso_pad], [blocks8] and [iso_mac] are the standard's. *)
From S2P Require Import Prelude Package Crc Des.

Definition CR_MAC_SKIP_G : Z := 0x80.
Definition CR_MAC_CUSTOM_IV : Z := 0x40.

Definition on (mode flag : Z) : bool := negb (Z.land mode flag =? 0).

(** how many bytes the last block lacks *)
Definition padding_length (length_ : Z) : Z :=
  if Z.land length_ 7 =? 0 then 0 else 8 - Z.land length_ 7.

(** the third key, from the second eight bytes *)
Definition k3_byte (k : Z) : Z := Z.lor (Z.land k 0x0F) (Z.land (Z.lnot k) 0xF0).
Definition third_key (key : list Z) : list Z := (λ i, k3_byte (key !!! (i + 8)%nat)) <$> seq 0 8.

(** post-processing, first half: the last block is filled up *)
Definition pad_block (mode plen : Z) (dbuffer : list Z) : list Z :=
  if plen =? 0 then dbuffer
  else take (Z.to_nat (8 - plen)) dbuffer ++ (if on mode 0x01 then 0x80 else 0) :: replicate (Z.to_nat (plen - 1)) 0.

(** the output transformation *)
Definition g_block (mode : Z) (key k3 buffer : list Z) : list Z :=
  if on mode CR_MAC_SKIP_G then buffer
  else
    let buffer := cr_des_encode key buffer in
    let alg := Z.shiftr mode 2 in
    if alg =? 1 then buffer
    else if alg =? 2 then cr_des_encode k3 buffer
    else if alg =? 3 then cr_des_encode key (cr_des_decode (drop 8 key) buffer)
    else if alg =? 4 then cr_des_encode (drop 8 key) buffer
    else buffer.

Definition post_processing (mode plen : Z) (key k3 buffer dbuffer : list Z) : list Z :=
  g_block mode key k3 (xor buffer (pad_block mode plen dbuffer) 8).

(** one turn of the loop over the middle blocks *)
Definition mac_step (key handle : list Z) (end_ : Z) (x : Z * list Z) : res (Z * list Z + Z * list Z) :=
  let '(offset, buffer) := x in
  if offset + 8 <? end_ then
    dbuffer ← cr_mem_read handle offset 8;
    Ret (inl (u16 (offset + 8), cr_des_encode key (xor buffer dbuffer 8)))
  else Ret (inr x).

(** from the first initial transformation on *)
Definition mac_blocks (fuel : nat) (mode plen end_ : Z) (key k3 handle : list Z) (buffer : list Z) (offset : Z) : res (list Z * Z) :=
  let buffer := cr_des_encode key buffer in
  let buffer := if Z.shiftr mode 2 =? 4 then cr_des_encode k3 buffer else buffer in
  r ← loop fuel (mac_step key handle end_) (offset, buffer);
  dbuffer ← cr_mem_read handle r.1 8;
  Ret (post_processing mode plen key k3 r.2 dbuffer, 8).

(** the eight bytes of [result] and the number returned *)
Definition cr_calc_mac (fuel : nat) (mode : Z) (key icv handle : list Z) (offset length_ : Z) : res (list Z * Z) :=
  let plen := padding_length length_ in
  let end_ := u16 (length_ + offset) in
  let buffer := if on mode CR_MAC_CUSTOM_IV then take 8 icv else replicate 8 0 in
  let k3 := third_key key in
  if on mode 0x02 then
    mac_blocks fuel mode plen end_ key k3 handle
      (take 5 buffer ++ [u8 (Z.shiftr length_ 13); u8 (Z.shiftr length_ 5); u8 (Z.shiftl length_ 3)]) offset
  else
    dbuffer ← cr_mem_read handle offset 8;
    if length_ <? 8 then Ret (post_processing mode plen key k3 buffer dbuffer, 8)
    else mac_blocks fuel mode plen end_ key k3 handle dbuffer (u16 (offset + 8)).

(** ** The code on blocks *)
Definition chain (key : list Z) (h : list Z) (blocks : list (list Z)) : list Z :=
  foldl (λ h b, cr_des_encode key (xor h b 8)) h blocks.

(** the last block filled up with zeros, or with the byte 0x80 and zeros; a
    whole block stays as it is *)
Definition fill (method2 : bool) (last : list Z) : list Z :=
  if (length last =? 8)%nat then last
  else last ++ (if method2 then 0x80 else 0) :: replicate (7 - length last) 0.

(** what the code computes on blocks [bl] and a last block of one to eight bytes *)
Definition block_mac (alg : Z) (method2 : bool) (key : list Z) (bl : list (list Z)) (last : list Z) : list Z :=
  let E := cr_des_encode key in
  let h := match bl with
           | [] => replicate 8 0
           | b :: bl' => chain key (if alg =? 4 then cr_des_encode (third_key key) (E b) else E b) bl'
           end in
  let m := E (xor h (fill method2 last) 8) in
  if alg =? 1 then m
  else if alg =? 2 then cr_des_encode (third_key key) m
  else if alg =? 3 then E (cr_des_decode (drop 8 key) m)
  else cr_des_encode (drop 8 key) m.

(** ** What the code computes *)
Lemma mac_iters key end_ bl : ∀ pre tl h,
  Forall (bytes 8) bl → end_ ≤ Z.of_nat (length pre + 8 * length bl + 8) →
  (Z.of_nat (length pre + 8 * length bl) < end_) → end_ < 65536 →
  iters (mac_step key (pre ++ concat bl ++ tl) end_) (length bl) (Z.of_nat (length pre), h)
    (Z.of_nat (length pre + 8 * length bl), chain key h bl).
Proof.
  induction bl as [|b bl IH]; intros pre tl h Hb H1 H2 H3.
  { cbn [length chain foldl]. rewrite Nat.mul_0_r, Nat.add_0_r. constructor. }
  apply Forall_cons in Hb as [[Hbl _] Hb]. change (length (b :: bl)) with (S (length bl)) in *.
  eapply iters_S.
  - unfold mac_step. rewrite (proj2 (Z.ltb_lt _ _)) by lia. unfold cr_mem_read.
    rewrite (proj2 (Z.leb_le _ _)) by (cbn [concat]; rewrite !length_app; lia). res_cbn.
    rewrite Nat2Z.id, drop_app_length. cbn [concat]. rewrite <-app_assoc. change (Z.to_nat 8) with 8%nat.
    rewrite take_app_length' by done. rewrite u16_id by (unfold is_u16; lia). reflexivity.
  - specialize (IH (pre ++ b) tl (cr_des_encode key (xor h b 8)) Hb). rewrite length_app, Hbl, <-app_assoc in IH.
    cbn [concat chain foldl]. rewrite <-app_assoc.
    replace (Z.of_nat (length pre) + 8) with (Z.of_nat (length pre + 8)) by lia.
    replace (length pre + 8 * S (length bl))%nat with (length pre + 8 + 8 * length bl)%nat by lia.
    apply IH; lia.
Qed.

(** the mode byte of an algorithm and a padding method *)
Definition mac_mode (alg : Z) (method2 : bool) : Z := Z.shiftl alg 2 + (if method2 then 1 else 0).

Lemma mac_mode_ok alg method2 :
  1 ≤ alg ≤ 4 →
  let mode := mac_mode alg method2 in
  Z.shiftr mode 2 = alg ∧ on mode 0x01 = method2 ∧ on mode 0x02 = false ∧ on mode CR_MAC_SKIP_G = false ∧
  on mode CR_MAC_CUSTOM_IV = false.
Proof.
  intros Ha. assert (H : alg = 1 ∨ alg = 2 ∨ alg = 3 ∨ alg = 4) by lia.
  destruct H as [->|[->|[->| ->]]]; destruct method2; done.
Qed.

Lemma padding_length_last (n : Z) (last : list Z) :
  (1 ≤ length last ≤ 8)%nat → 0 ≤ n → padding_length (8 * n + Z.of_nat (length last)) = 8 - Z.of_nat (length last).
Proof.
  intros Hl Hn. unfold padding_length. change 7 with (Z.ones 3). rewrite Z.land_ones by lia. change (2 ^ 3) with 8.
  rewrite Z.add_comm, Z.mul_comm, Z.mod_add by lia. destruct (decide (length last = 8%nat)) as [->|H]; [done|].
  rewrite Z.mod_small by lia. destruct (Z.eqb_spec (Z.of_nat (length last)) 0); lia.
Qed.

(** what is behind the message does not reach the last block *)
Lemma pad_block_fill mode last tl :
  (1 ≤ length last ≤ 8)%nat → (8 ≤ length (last ++ tl))%nat →
  pad_block mode (8 - Z.of_nat (length last)) (take 8 (last ++ tl)) = fill (on mode 0x01) last.
Proof.
  intros Hl Ht. unfold pad_block, fill. destruct (Nat.eqb_spec (length last) 8) as [E|E].
  - rewrite (proj2 (Z.eqb_eq _ _)) by lia. by rewrite take_app_length'.
  - rewrite (proj2 (Z.eqb_neq _ _)) by lia. f_equal.
    + replace (Z.to_nat (8 - (8 - Z.of_nat (length last)))) with (length last) by lia.
      rewrite take_take, Nat.min_l by lia. apply take_app_length.
    + do 2 f_equal. lia.
Qed.

Lemma g_block_modes alg method2 key x :
  1 ≤ alg ≤ 4 →
  g_block (mac_mode alg method2) key (third_key key) x =
  (let m := cr_des_encode key x in
   if alg =? 1 then m
   else if alg =? 2 then cr_des_encode (third_key key) m
   else if alg =? 3 then cr_des_encode key (cr_des_decode (drop 8 key) m)
   else cr_des_encode (drop 8 key) m).
Proof.
  intros Ha. destruct (mac_mode_ok alg method2 Ha) as (E1 & _ & _ & E2 & _). unfold g_block. rewrite E1, E2.
  destruct (Z.eqb_spec alg 1), (Z.eqb_spec alg 2), (Z.eqb_spec alg 3), (Z.eqb_spec alg 4); try lia; reflexivity.
Qed.

Lemma mac_blocks_ok (alg : Z) (method2 : bool) (key icv pre : list Z) (bl : list (list Z)) (last tl : list Z) (fuel : nat) :
  1 ≤ alg ≤ 4 → Forall (bytes 8) bl → (1 ≤ length last ≤ 8)%nat → (bl = [] → length last ≠ 8%nat) →
  (8 ≤ length (last ++ tl))%nat → Z.of_nat (length pre + 8 * length bl + 8) < 65536 → (length bl < fuel)%nat →
  cr_calc_mac fuel (mac_mode alg method2) key icv (pre ++ concat bl ++ last ++ tl) (Z.of_nat (length pre))
    (8 * Z.of_nat (length bl) + Z.of_nat (length last)) = Ret (block_mac alg method2 key bl last, 8).
Proof.
  intros Ha Hb Hl Hne Ht Hw Hf. destruct (mac_mode_ok alg method2 Ha) as (Esh & E1 & E2 & _ & E3).
  unfold cr_calc_mac. rewrite E2, E3, padding_length_last by (done || lia).
  pose proof (λ h, g_block_modes alg method2 key (xor h (fill method2 last) 8) Ha) as Hg.
  assert (Hpost : ∀ h, post_processing (mac_mode alg method2) (8 - Z.of_nat (length last)) key (third_key key) h (take 8 (last ++ tl))
    = g_block (mac_mode alg method2) key (third_key key) (xor h (fill method2 last) 8)).
  { intros h. unfold post_processing. by rewrite pad_block_fill, E1 by done. }
  destruct bl as [|b bl].
  - cbn [concat app length]. specialize (Hne eq_refl). unfold cr_mem_read.
    rewrite (proj2 (Z.leb_le _ _)) by (rewrite length_app; lia). res_cbn. rewrite Nat2Z.id, drop_app_length.
    rewrite (proj2 (Z.ltb_lt _ _)) by lia. change (Z.to_nat 8) with 8%nat. rewrite Hpost, Hg. done.
  - apply Forall_cons in Hb as [[Hbl _] Hb]. cbn [concat]. rewrite <-app_assoc. change (length (b :: bl)) with (S (length bl)) in *.
    unfold cr_mem_read at 1. rewrite (proj2 (Z.leb_le _ _)) by (rewrite !length_app; lia). res_cbn.
    rewrite Nat2Z.id, drop_app_length. change (Z.to_nat 8) with 8%nat. rewrite (take_app_length' b) by done.
    rewrite (proj2 (Z.ltb_ge _ _)) by lia. unfold mac_blocks. rewrite Esh.
    rewrite !u16_id by (unfold is_u16; lia). rewrite app_assoc.
    replace (Z.of_nat (length pre) + 8) with (Z.of_nat (length (pre ++ b))) by (rewrite length_app, Hbl; lia).
    set (h := if alg =? 4 then _ else _).
    pose proof (mac_iters key (8 * Z.of_nat (S (length bl)) + Z.of_nat (length last) + Z.of_nat (length pre)) bl (pre ++ b) (last ++ tl) h Hb) as Hit.
    rewrite length_app, Hbl in Hit. specialize (Hit ltac:(lia) ltac:(lia) ltac:(lia)). rewrite length_app, Hbl.
    rewrite (loop_exit _ _ fuel _ _ (Z.of_nat (length pre + 8 + 8 * length bl), chain key h bl) Hit); [| |lia].
    + res_cbn. unfold cr_mem_read. pose proof (concat_length 8 bl Hb) as Hc.
      rewrite (proj2 (Z.leb_le _ _)) by (rewrite !length_app, Hc, Hbl; rewrite length_app in Ht; lia). res_cbn.
      rewrite Nat2Z.id. rewrite (app_assoc (pre ++ b)), drop_app_length' by (rewrite !length_app, Hc, Hbl; lia).
      change (Z.to_nat 8) with 8%nat. rewrite Hpost, Hg. done.
    + unfold mac_step. by rewrite (proj2 (Z.ltb_ge _ _)) by lia.
Qed.

(** ** ISO 9797-1 *)

(** the padding methods of the standard: method 1 adds as few zeros as possible,
    method 2 always adds the byte 0x80 *)
Definition iso_pad (method2 : bool) (msg : list Z) : list Z :=
  let r := (length msg mod 8)%nat in
  if method2 then msg ++ 0x80 :: replicate (7 - r) 0
  else msg ++ replicate (if bool_decide (msg = []) then 8 else (8 - r) mod 8) 0.

Fixpoint blocks8 (l : list Z) : list (list Z) :=
  match l with
  | a :: b :: c :: d :: e :: f :: g :: h :: l' => [a; b; c; d; e; f; g; h] :: blocks8 l'
  | _ => []
  end.

(** the MAC algorithms 1 to 4 on the blocks D1, D2, ... of the padded message,
    with the keys K, K' and K'' *)
Definition iso_mac (alg : Z) (K K1 K2 : list Z) (D : list (list Z)) : list Z :=
  match D with
  | [] => []
  | D1 :: Ds =>
      let H1 := cr_des_encode K D1 in
      let I1 := if alg =? 4 then cr_des_encode K2 H1 else H1 in
      let Hq := foldl (λ H d, cr_des_encode K (xor H d 8)) I1 Ds in
      if alg =? 1 then Hq
      else if alg =? 2 then cr_des_encode K1 Hq
      else if alg =? 3 then cr_des_encode K (cr_des_decode K1 Hq)
      else cr_des_encode K1 Hq
  end.

(** the second key: algorithm 2 has the one whose half-bytes are complemented *)
Definition second_key (alg : Z) (key : list Z) : list Z := if alg =? 2 then third_key key else drop 8 key.

Lemma iso_pad_whole method2 msg : (length (iso_pad method2 msg) mod 8 = 0)%nat.
Proof.
  unfold iso_pad. pose proof (Nat.div_mod_eq (length msg) 8) as Hd. pose proof (Nat.mod_upper_bound (length msg) 8 ltac:(lia)) as Hr.
  set (q := (length msg / 8)%nat) in *. set (r := (length msg mod 8)%nat) in *.
  assert (Hq : ∀ l, (l = q * 8 ∨ l = (q + 1) * 8)%nat → (l mod 8 = 0)%nat) by (intros l [->| ->]; apply Nat.Div0.mod_mul).
  destruct method2; [|case_bool_decide as He; [by subst msg|]]; apply Hq; rewrite length_app; cbn [length]; rewrite length_replicate; [lia|].
  destruct (decide (r = 0)%nat) as [E|E]; [rewrite E; change ((8 - 0) mod 8)%nat with 0%nat; lia|rewrite (Nat.mod_small (8 - r)) by lia; lia].
Qed.

Lemma blocks8_concat bl last : Forall (bytes 8) bl → length last = 8%nat → blocks8 (concat bl ++ last) = bl ++ [last].
Proof.
  intros H Hl. induction H as [|b bl [Hb _] _ IH].
  - do 9 (destruct last as [|? last]; [done|]); done.
  - cbn [concat app]. rewrite <-app_assoc. do 8 (destruct b as [|? b]; [done|]). destruct b; [|done]. cbn [app blocks8]. by rewrite IH.
Qed.

(** every message ends with a block of one to eight bytes *)
Lemma message_blocks msg : Forall is_byte msg → msg ≠ [] → ∃ bl last, msg = concat bl ++ last ∧ Forall (bytes 8) bl ∧ Forall is_byte last ∧ (1 ≤ length last ≤ 8)%nat.
Proof.
  remember (length msg) as n eqn:En. revert msg En. induction (lt_wf n) as [n _ IH]. intros msg -> Hb Hne.
  destruct (decide (length msg ≤ 8)%nat) as [Hle|Hgt].
  - exists [], msg. split; [done|]. split; [by constructor|]. split; [done|]. destruct msg; [done|]. cbn [length] in *. lia.
  - destruct (IH (length (drop 8 msg)) ltac:(rewrite length_drop; lia) (drop 8 msg) eq_refl) as (bl & last & E & Hbl & Hla & Hl).
    { by apply Forall_drop. }
    { intros E%(f_equal length). rewrite length_drop in E. cbn in E. lia. }
    exists (take 8 msg :: bl), last. split; [cbn [concat]; by rewrite <-app_assoc, <-E, take_drop|]. split; [|done].
    constructor; [|done]. split; [rewrite length_take; lia|by apply Forall_take].
Qed.

Lemma iso_pad_blocks method2 bl last : Forall (bytes 8) bl → (1 ≤ length last ≤ 8)%nat → length last ≠ 8%nat ∨ method2 = false →
  iso_pad method2 (concat bl ++ last) = concat bl ++ fill method2 last ∧ length (fill method2 last) = 8%nat.
Proof.
  intros Hb Hl Hm. pose proof (concat_length 8 bl Hb) as Hc.
  assert (Hr : ((length (concat bl ++ last)) mod 8 = length last mod 8)%nat).
  { rewrite length_app, Hc, (Nat.add_comm (8 * _)), (Nat.mul_comm 8). by rewrite Nat.Div0.mod_add. }
  assert (Hne : concat bl ++ last ≠ []) by (intros E%(f_equal length); rewrite length_app in E; cbn in E; lia).
  unfold iso_pad. rewrite Hr, (bool_decide_eq_false_2 _ Hne). unfold fill. destruct (Nat.eqb_spec (length last) 8) as [H8|H8].
  - destruct method2; [by destruct Hm|]. rewrite H8. cbn [Nat.modulo Nat.divmod snd Nat.sub replicate]. by rewrite app_nil_r.
  - rewrite (Nat.mod_small (length last)) by lia. rewrite (length_app last). cbn [length]. rewrite length_replicate. split; [|lia].
    destruct method2; rewrite <-app_assoc; [done|]. rewrite (Nat.mod_small (8 - length last)) by lia. by replace (8 - length last)%nat with (S (7 - length last)) by lia.
Qed.

Lemma xor_zeros x : bytes 8 x → xor (replicate 8 0) x 8 = x.
Proof.
  intros [Hx _]. unfold xor. apply seq_map_ext; [done|]. intros k Hk. rewrite (list_lookup_total_correct _ _ 0) by (by apply lookup_replicate_2). apply Z.lxor_0_l.
Qed.

Lemma fill_bytes method2 last : Forall is_byte last → length (fill method2 last) = 8%nat → bytes 8 (fill method2 last).
Proof.
  intros Hb Hl. split; [done|]. unfold fill. destruct (length last =? 8)%nat; [done|]. apply Forall_app. split; [done|].
  constructor; [by destruct method2|]. apply Forall_replicate. by vm_compute.
Qed.

Lemma block_mac_iso alg method2 key bl last : Forall (bytes 8) bl → Forall is_byte last → length (fill method2 last) = 8%nat → (alg = 4 → bl ≠ []) →
  block_mac alg method2 key bl last = iso_mac alg key (second_key alg key) (third_key key) (bl ++ [fill method2 last]).
Proof.
  intros Hb Hl Hf Ha. unfold block_mac, second_key. destruct bl as [|b bl].
  - cbn [app iso_mac foldl]. rewrite xor_zeros by (by apply fill_bytes). rewrite (proj2 (Z.eqb_neq alg 4)) by (intros ->; by apply Ha).
    destruct (alg =? 1), (alg =? 2), (alg =? 3); done.
  - cbn [app iso_mac]. rewrite foldl_app. cbn [foldl]. unfold chain. destruct (alg =? 4); destruct (alg =? 1), (alg =? 2), (alg =? 3); done.
Qed.
(** C39: The MAC is that of ISO 9797-1. On a message of any length but 0 and 8
    [cr_calc_mac] ends, and its eight bytes are the MAC of the standard for the
    algorithms 1 to 4 with padding method 1, and with padding method 2 on
    messages that are not whole blocks. On messages of whole blocks, to which
    method 2 of the standard adds a block, the code adds nothing: there its
    result with method 2 is the MAC of the standard with method 1. Algorithm 4 needs two
    blocks; the third key is the second with half of its half-bytes
    complemented. The object is long enough for the last read; nothing around
    the message matters. *)
Theorem mac_is_iso (alg : Z) (method2 : bool) (key icv pre msg tl : list Z) (fuel : nat) :
  1 ≤ alg ≤ 4 → Forall is_byte msg → msg ≠ [] → length msg ≠ 8%nat → (alg = 4 → (8 < length msg)%nat) →
  (length (iso_pad false msg) ≤ length (msg ++ tl))%nat → Z.of_nat (length pre + length (iso_pad false msg)) < 65536 → (length msg ≤ 8 * fuel)%nat →
  let mac := cr_calc_mac fuel (mac_mode alg method2) key icv (pre ++ msg ++ tl) (Z.of_nat (length pre)) (Z.of_nat (length msg)) in
  let iso method2 := iso_mac alg key (second_key alg key) (third_key key) (blocks8 (iso_pad method2 msg)) in
  (method2 = false ∨ (length msg mod 8 ≠ 0)%nat → mac = Ret (iso method2, 8)) ∧
  (method2 = true → (length msg mod 8 = 0)%nat → mac = Ret (iso false, 8)).
Proof.
  intros Ha Hm Hne H8 H4 Hr Hw Hf mac iso. destruct (message_blocks msg Hm Hne) as (bl & last & -> & Hb & Hlb & Hl).
  pose proof (concat_length 8 bl Hb) as Hc. destruct (iso_pad_blocks false bl last Hb Hl (or_intror eq_refl)) as [Ep Efl].
  rewrite Ep, !length_app, Efl in Hr, Hw. rewrite !length_app in Hr. rewrite length_app in H8, H4, Hf.
  assert (E : mac = Ret (block_mac alg method2 key bl last, 8)).
  { subst mac. rewrite <-app_assoc. replace (Z.of_nat (length (concat bl ++ last))) with (8 * Z.of_nat (length bl) + Z.of_nat (length last)) by (rewrite length_app; lia).
    apply mac_blocks_ok; [done|done|done|intros ->; cbn in H8; lia|rewrite length_app; lia|lia|lia]. }
  assert (Hiso : ∀ m, length last ≠ 8%nat ∨ m = false → iso m = block_mac alg m key bl last).
  { intros m Hm2. subst iso. cbv beta. destruct (iso_pad_blocks m bl last Hb Hl Hm2) as [-> Hfm]. rewrite blocks8_concat by done.
    symmetry. apply block_mac_iso; [done|done|done|]. intros E4 ->. specialize (H4 E4). cbn in H4. lia. }
  assert (Hmod : ((length (concat bl ++ last)) mod 8 = 0)%nat ↔ length last = 8%nat).
  { rewrite length_app, Hc, Nat.add_comm, (Nat.mul_comm 8), Nat.Div0.mod_add. split; [|intros H; rewrite H; reflexivity].
    intros Hz. destruct (decide (length last = 8%nat)) as [|Hn]; [done|]. rewrite Nat.mod_small in Hz by lia. lia. }
  rewrite Hmod. split.
  - intros Hcase. rewrite E, Hiso; [done|]. tauto.
  - intros -> H. assert (Ef : fill true last = fill false last) by (unfold fill; rewrite H; reflexivity).
    rewrite E, Hiso by (right; reflexivity). unfold block_mac. rewrite Ef. reflexivity.
Qed.

(** messages of eleven and of sixteen bytes, retail MAC *)
Definition mac_key : list Z := Z.of_nat <$> seq 1 16.

Lemma mac_is_iso_witness :
  cr_calc_mac 2 (mac_mode 3 true) mac_key [] ([0; 0] ++ [1; 2; 3; 4; 5; 6; 7; 8; 9; 10; 11] ++ replicate 5 99) 2 11 =
    Ret (iso_mac 3 mac_key (drop 8 mac_key) (third_key mac_key) [[1; 2; 3; 4; 5; 6; 7; 8]; [9; 10; 11; 128; 0; 0; 0; 0]], 8) ∧
  cr_calc_mac 2 (mac_mode 3 true) mac_key [] ([] ++ replicate 16 7 ++ []) 0 16 =
    Ret (iso_mac 3 mac_key (drop 8 mac_key) (third_key mac_key) [replicate 8 7; replicate 8 7], 8).
Proof.
  split.
  - apply (mac_is_iso 3 true mac_key [] [0; 0] [1; 2; 3; 4; 5; 6; 7; 8; 9; 10; 11] (replicate 5 99) 2).
    + lia.
    + apply byteb_list. reflexivity.
    + done.
    + cbn. lia.
    + intros [=].
    + cbn. lia.
    + cbn. lia.
    + cbn. lia.
    + right. cbn. lia.
  - apply (mac_is_iso 3 true mac_key [] [] (replicate 16 7) [] 2).
    + lia.
    + apply byteb_list. reflexivity.
    + done.
    + cbn. lia.
    + intros [=].
    + cbn. lia.
    + cbn. lia.
    + cbn. lia.
    + reflexivity.
    + reflexivity.
Defined.

(** Padding method 2 of the standard always adds a byte; the code adds none to a
    message of whole blocks. A message and the same message with its padding
    have one MAC, whatever the key. *)
Lemma mac_padding_ambiguous alg key icv pre b bl last tl fuel :
  1 ≤ alg ≤ 4 → Forall (bytes 8) (b :: bl) → (1 ≤ length last < 8)%nat →
  (8 ≤ length (last ++ tl))%nat → Z.of_nat (length pre + 8 * length (b :: bl) + 8) < 65536 → (length (b :: bl) < fuel)%nat →
  let mac l := cr_calc_mac fuel (mac_mode alg true) key icv (pre ++ concat (b :: bl) ++ l ++ tl) (Z.of_nat (length pre))
    (8 * Z.of_nat (length (b :: bl)) + Z.of_nat (length l)) in
  mac (fill true last) = mac last ∧ fill true last ≠ last.
Proof.
  intros Ha Hb Hl Ht Hw Hf mac. assert (Hfl : length (fill true last) = 8%nat).
  { unfold fill. rewrite (proj2 (Nat.eqb_neq _ _)) by lia. rewrite length_app. cbn [length]. rewrite length_replicate. lia. }
  split; [|intros E; rewrite E in Hfl; lia].
  assert (E : fill true (fill true last) = fill true last) by (unfold fill at 1; by rewrite Hfl).
  assert (Hiso : block_mac alg true key (b :: bl) (fill true last) = block_mac alg true key (b :: bl) last) by (unfold block_mac; by rewrite E).
  assert (Ht' : (8 ≤ length (fill true last ++ tl))%nat) by (rewrite length_app, Hfl; lia).
  unfold mac. rewrite (mac_blocks_ok alg true key icv pre (b :: bl) last tl fuel Ha Hb ltac:(lia) ltac:(intros [=]) Ht Hw Hf).
  rewrite (mac_blocks_ok alg true key icv pre (b :: bl) (fill true last) tl fuel Ha Hb ltac:(lia) ltac:(intros [=]) Ht' Hw Hf).
  by rewrite Hiso.
Qed.

(** the code of a message of eight bytes depends on the eight bytes behind it *)
Lemma mac_reads_behind :
  cr_calc_mac 2 (mac_mode 1 true) mac_key [] [1; 2; 3; 4; 5; 6; 7; 8; 0; 0; 0; 0; 0; 0; 0; 0] 0 8 ≠
  cr_calc_mac 2 (mac_mode 1 true) mac_key [] [1; 2; 3; 4; 5; 6; 7; 8; 1; 0; 0; 0; 0; 0; 0; 0] 0 8.
Proof. vm_compute. intros [=]. Qed.
