(* ===== verification/Digest.v ===== *)
(** * Message digests: what SHA-256 and MD5 share (StackLib/crypto/src/cr_sha256.c, cr_md5.c)

    Both keep sixty-four bytes of the message until they make a block, and both
    read a message from a handle in pieces. Here: the buffer, for any
    transformation of a state by a block, and how a message falls into pieces. *)
From S2P Require Import Prelude.

(** ** Collecting blocks *)
Section absorb.
Context {S : Type} (transform : S → list Z → S).

(** one byte more: the buffer, how much of it is used, what was made of the
    blocks so far *)
Definition absorb (x : list Z * nat * S) (b : Z) : list Z * nat * S :=
  let '(data, datalen, s) := x in
  let data := <[datalen := b]> data in
  let datalen := Datatypes.S datalen in
  if (datalen =? 64)%nat then (data, 0%nat, transform s data) else (data, datalen, s).

Lemma absorb_part data k s l :
  length data = 64%nat → (k + length l < 64)%nat →
  ∃ data', foldl absorb (data, k, s) l = (data', (k + length l)%nat, s) ∧ length data' = 64%nat ∧
    take (k + length l) data' = take k data ++ l.
Proof.
  revert data k. induction l as [|b l IH]; intros data k Hd Hk; cbn [length] in *.
  - exists data. rewrite Nat.add_0_r, app_nil_r. done.
  - cbn [foldl absorb]. rewrite (proj2 (Nat.eqb_neq _ _)) by lia.
    destruct (IH (<[k := b]> data) (Datatypes.S k)) as (data' & E & Hl & Ht); [by rewrite length_insert|lia|].
    exists data'. rewrite E. replace (k + Datatypes.S (length l))%nat with (Datatypes.S k + length l)%nat by lia.
    split; [done|]. split; [done|]. rewrite Ht. rewrite (take_S_r _ _ b) by (apply list_lookup_insert_eq; lia).
    rewrite take_insert_ge by lia. by rewrite <-app_assoc.
Qed.

Lemma absorb_block data s l :
  length data = 64%nat → length l = 64%nat → foldl absorb (data, 0%nat, s) l = (l, 0%nat, transform s l).
Proof.
  intros Hd Hl. destruct l as [|b l' _] using rev_ind; [done|].
  rewrite length_app in Hl. cbn [length] in Hl. rewrite foldl_app.
  destruct (absorb_part data 0 s l' Hd ltac:(lia)) as (data' & E & Hl' & Ht). rewrite E. cbn [foldl absorb Nat.add].
  rewrite (proj2 (Nat.eqb_eq _ _)) by lia. cbn [Nat.add] in Ht. rewrite take_0 in Ht. cbn [app] in Ht.
  assert (Hins : <[length l' := b]> data' = l' ++ [b]).
  { rewrite <-(take_drop (length l') data'), Ht.
    destruct (drop (length l') data') as [|x r] eqn:Er.
    { apply (f_equal length) in Er. rewrite length_drop in Er. cbn in Er. lia. }
    pose proof (f_equal length Er) as Hr. rewrite length_drop in Hr. cbn [length] in Hr.
    destruct r; [|cbn [length] in Hr; lia]. rewrite insert_app_r_alt by lia. by rewrite Nat.sub_diag. }
  by rewrite Hins.
Qed.

(** whole blocks and a rest *)
Lemma absorb_message data s bl rest :
  length data = 64%nat → Forall (λ b, length b = 64%nat) bl → (length rest < 64)%nat →
  ∃ data', foldl absorb (data, 0%nat, s) (concat bl ++ rest) = (data', length rest, foldl transform s bl) ∧
    length data' = 64%nat ∧ take (length rest) data' = rest.
Proof.
  intros Hd Hb Hr. revert data s Hd. induction Hb as [|b bl Hb _ IH]; intros data s Hd; cbn [concat app].
  - destruct (absorb_part data 0 s rest Hd ltac:(lia)) as (data' & E & Hl & Ht). exists data'. done.
  - rewrite <-app_assoc, foldl_app, absorb_block by done. by apply IH.
Qed.

Lemma absorb_used x l : (x.1.2 < 64)%nat → (foldl absorb x l).1.2 = ((x.1.2 + length l) mod 64)%nat.
Proof.
  revert x. induction l as [|b l IH]; intros [[data k] s] Hk; cbn [foldl length fst snd] in *.
  - rewrite Nat.add_0_r. by rewrite Nat.mod_small.
  - rewrite IH.
    + unfold absorb. destruct (Nat.eqb_spec (Datatypes.S k) 64) as [E|E]; cbn [fst snd].
      * replace (k + Datatypes.S (length l))%nat with (0 + length l + 1 * 64)%nat by lia. by rewrite Nat.Div0.mod_add.
      * f_equal. lia.
    + unfold absorb. destruct (Nat.eqb_spec (Datatypes.S k) 64); cbn [fst snd]; lia.
Qed.
End absorb.

(** what the reading loops cut a message into: the last piece is empty only
    when there is no other *)
Lemma pieces_exist (n : nat) (m : list Z) :
  (0 < n)%nat → ∃ pl last, m = concat pl ++ last ∧ Forall (λ p : list Z, length p = n) pl ∧ (length last ≤ n)%nat ∧
    (pl ≠ [] → 0 < length last)%nat.
Proof.
  intros Hn. assert (H : ∀ k m, (length m ≤ k)%nat → ∃ pl last, m = concat pl ++ last ∧
    Forall (λ p : list Z, length p = n) pl ∧ (length last ≤ n)%nat ∧ (pl ≠ [] → 0 < length last)%nat); [|by apply (H (length m))].
  clear m. induction k as [|k IH]; intros m Hm.
  { exists [], m. split; [done|]. split; [constructor|]. split; [lia|done]. }
  destruct (le_lt_dec (length m) n) as [Hs|Hs].
  { exists [], m. split; [done|]. split; [constructor|]. by split. }
  destruct (IH (drop n m)) as (pl & last & E & Hp & Hl & Hne); [rewrite length_drop; lia|].
  exists (take n m :: pl), last. cbn [concat]. rewrite <-app_assoc, <-E, take_drop. split; [done|].
  split; [constructor; [rewrite length_take; lia|done]|]. split; [done|]. intros _.
  destruct pl as [|p pl]; [|by apply Hne]. cbn in E. rewrite <-E, length_drop. lia.
Qed.
