(* ===== verification/Sha256.v ===== *)
(** * SHA-256 (StackLib/crypto/src/cr_sha256.c)

    The words have the type [uint32], an [unsigned long]: its width [W] is a
    parameter here. With 32 bits the code computes the standard digest; on the
    platform of this library the type has 64 bits, and it does not. What
    holds for every width: the message is cut into blocks and padded as it
    should be. *)
From S2P Require Import Prelude Decimal Package Crc Digest.

Definition SHA256_BLOCK_SIZE : Z := 32.

(** in decimal *)
Definition k : list Z :=
  [1116352408; 1899447441; 3049323471; 3921009573; 961987163; 1508970993; 2453635748; 2870763221;
   3624381080; 310598401; 607225278; 1426881987; 1925078388; 2162078206; 2614888103; 3248222580;
   3835390401; 4022224774; 264347078; 604807628; 770255983; 1249150122; 1555081692; 1996064986;
   2554220882; 2821834349; 2952996808; 3210313671; 3336571891; 3584528711; 113926993; 338241895;
   666307205; 773529912; 1294757372; 1396182291; 1695183700; 1986661051; 2177026350; 2456956037;
   2730485921; 2820302411; 3259730800; 3345764771; 3516065817; 3600352804; 4094571909; 275423344;
   430227734; 506948616; 659060556; 883997877; 958139571; 1322822218; 1537002063; 1747873779;
   1955562222; 2024104815; 2227730452; 2361852424; 2428436474; 2756734187; 3204031479; 3329325298].

Section width.
Context (W : Z).

(** the width of [uint32] *)
Definition uw (z : Z) : Z := z mod 2 ^ W.

Definition ROTRIGHT (a b : Z) : Z := Z.lor (Z.shiftr a b) (uw (Z.shiftl a (32 - b))).
Definition CH (x y z : Z) : Z := Z.lxor (Z.land x y) (Z.land (uw (Z.lnot x)) z).
Definition MAJ (x y z : Z) : Z := Z.lxor (Z.lxor (Z.land x y) (Z.land x z)) (Z.land y z).
Definition EP0 (x : Z) : Z := Z.lxor (Z.lxor (ROTRIGHT x 2) (ROTRIGHT x 13)) (ROTRIGHT x 22).
Definition EP1 (x : Z) : Z := Z.lxor (Z.lxor (ROTRIGHT x 6) (ROTRIGHT x 11)) (ROTRIGHT x 25).
Definition SIG0 (x : Z) : Z := Z.lxor (Z.lxor (ROTRIGHT x 7) (ROTRIGHT x 18)) (Z.shiftr x 3).
Definition SIG1 (x : Z) : Z := Z.lxor (Z.lxor (ROTRIGHT x 17) (ROTRIGHT x 19)) (Z.shiftr x 10).

(** four bytes as a word; their sum is computed as an [int] *)
Definition data_word (data : list Z) (j : nat) : Z :=
  uw (to_int (Z.lor (Z.lor (Z.lor (Z.shiftl (data !!! j) 24) (Z.shiftl (data !!! (j + 1)%nat) 16))
    (Z.shiftl (data !!! (j + 2)%nat) 8)) (data !!! (j + 3)%nat))).

Definition schedule (data : list Z) : list Z :=
  foldl (λ m i, m ++ [uw (SIG1 (m !!! (i - 2)%nat) + m !!! (i - 7)%nat + SIG0 (m !!! (i - 15)%nat) + m !!! (i - 16)%nat)])
    ((λ i, data_word data (i * 4)) <$> seq 0 16) (seq 16 48).

Definition round (m : list Z) (v : list Z) (i : nat) : list Z :=
  match v with
  | [a; b; c; d; e; f; g; h] =>
      let t1 := uw (h + EP1 e + CH e f g + k !!! i + m !!! i) in
      let t2 := uw (EP0 a + MAJ a b c) in
      [uw (t1 + t2); a; b; c; uw (d + t1); e; f; g]
  | _ => v
  end.

Definition sha256_transform (state data : list Z) : list Z :=
  zip_with (λ s v, uw (s + v)) state (foldl (round (schedule data)) state (seq 0 64)).

(** [SHA256_CTX]: [data], [datalen], [state] and [bitlen]; [data] is not set *)
Definition SHA256_CTX : Type := list Z * nat * (list Z * Z).

Definition initial : list Z :=
  [0x6a09e667; 0xbb67ae85; 0x3c6ef372; 0xa54ff53a; 0x510e527f; 0x9b05688c; 0x1f83d9ab; 0x5be0cd19].

Definition sha256_init (data : list Z) : SHA256_CTX := (data, 0%nat, (initial, 0)).

Definition full_block (s : list Z * Z) (data : list Z) : list Z * Z := (sha256_transform s.1 data, u64 (s.2 + 512)).

Definition sha256_update (ctx : SHA256_CTX) (data : list Z) : SHA256_CTX := foldl (absorb full_block) ctx data.

(** [data[i]], ... set to a list *)
Definition overwrite (data : list Z) (i : nat) (l : list Z) : list Z := take i data ++ l ++ drop (i + length l) data.

(** the length, most significant byte first *)
Definition length_bytes (bitlen : Z) : list Z := (λ i, u8 (Z.shiftr bitlen (56 - 8 * Z.of_nat i))) <$> seq 0 8.

Definition hash_bytes (state : list Z) : list Z :=
  concat ((λ s, (λ i, Z.land (Z.shiftr s (24 - Z.of_nat i * 8)) 0xff) <$> seq 0 4) <$> state).

(** the [hash] *)
Definition sha256_final (ctx : SHA256_CTX) : list Z :=
  let '(data, datalen, (state, bitlen)) := ctx in
  let x :=
    if (datalen <? 56)%nat then (overwrite data datalen (0x80 :: replicate (55 - datalen) 0), state)
    else
      let data := overwrite data datalen (0x80 :: replicate (63 - datalen) 0) in
      (overwrite data 0 (replicate 56 0), sha256_transform state data) in
  let bitlen := u64 (bitlen + Z.of_nat datalen * 8) in
  let data := overwrite x.1 56 (length_bytes bitlen) in
  hash_bytes (sha256_transform x.2 data).

(** one turn of the reading loop: sixteen of thirty-two bytes *)
Definition read_step (handle : list Z) (x : Z * Z * SHA256_CTX) : res (Z * Z * SHA256_CTX + Z * Z * SHA256_CTX) :=
  let '(offset, length_, cx) := x in
  if SHA256_BLOCK_SIZE <? length_ then
    buffer ← cr_mem_read handle offset 16;
    Ret (inl (u16 (offset + SHA256_BLOCK_SIZE), u16 (length_ - SHA256_BLOCK_SIZE), sha256_update cx buffer))
  else Ret (inr x).

(** [junk]: what the stack holds where [cx.data] lies *)
Definition cr_calc_sha256 (fuel : nat) (junk handle : list Z) (offset length_ : Z) : res (list Z * Z) :=
  r ← loop fuel (read_step handle) (offset, length_, sha256_init junk);
  let '(offset, length_, cx) := r in
  buffer ← cr_mem_read handle offset length_;
  Ret (sha256_final (sha256_update cx buffer), SHA256_BLOCK_SIZE).

(** *** The reference: the message, a one bit, zeros, its length; in blocks *)
Definition padding (rest : list Z) (bits : Z) : list (list Z) :=
  if (length rest <? 56)%nat then [rest ++ 0x80 :: replicate (55 - length rest) 0 ++ length_bytes bits]
  else [rest ++ 0x80 :: replicate (63 - length rest) 0; replicate 56 0 ++ length_bytes bits].

Definition sha256_blocks (bl : list (list Z)) (rest : list Z) : list Z :=
  hash_bytes (foldl sha256_transform initial (bl ++ padding rest (8 * Z.of_nat (64 * length bl + length rest)))).

(** the digest as the code computes it *)
Definition sha256 (junk m : list Z) : list Z := sha256_final (sha256_update (sha256_init junk) m).
End width.

(** the standard's first example: the digest of [abc] *)
Example sha256_abc_32 :
  sha256 32 (replicate 64 7) [97; 98; 99] =
  [0xba; 0x78; 0x16; 0xbf; 0x8f; 0x01; 0xcf; 0xea; 0x41; 0x41; 0x40; 0xde; 0x5d; 0xae; 0x22; 0x23;
   0xb0; 0x03; 0x61; 0xa3; 0x96; 0x17; 0x7a; 0x9c; 0xb4; 0x10; 0xff; 0x61; 0xf2; 0x00; 0x15; 0xad].
Proof. vm_compute. reflexivity. Qed.

Example sha256_abc_64 : take 4 (sha256 64 (replicate 64 7) [97; 98; 99]) ≠ [0xba; 0x78; 0x16; 0xbf].
Proof. vm_compute. intros [=]. Qed.

Section proofs.
Context (W : Z).

Lemma full_blocks bl state bits :
  0 ≤ bits → bits + 512 * Z.of_nat (length bl) < 2 ^ 64 →
  foldl (full_block W) (state, bits) bl = (foldl (sha256_transform W) state bl, bits + 512 * Z.of_nat (length bl)).
Proof.
  revert state bits. induction bl as [|b bl IH]; intros state bits H0 H; cbn [foldl length] in *.
  - f_equal. lia.
  - unfold full_block at 2. cbn [fst snd]. unfold u64. rewrite Z.mod_small by lia. rewrite IH by lia. f_equal. lia.
Qed.

Lemma overwrite_end (data l r : list Z) : length data = (length l + length r)%nat → overwrite data (length l) r = take (length l) data ++ r.
Proof. intros H. unfold overwrite. rewrite (drop_ge data) by lia. by rewrite app_nil_r. Qed.

Lemma overwrite_pad (data rest : list Z) n (tl : list Z) :
  length data = 64%nat → take (length rest) data = rest → (length rest + S n + length tl = 64)%nat →
  overwrite (overwrite data (length rest) (0x80 :: replicate n 0)) (length rest + S n) tl = rest ++ 0x80 :: replicate n 0 ++ tl.
Proof.
  intros Hd Ht Hl. unfold overwrite. rewrite Ht. set (p := 0x80 :: replicate n 0).
  assert (Hp : length p = S n) by (unfold p; cbn [length]; by rewrite length_replicate).
  assert (Hd' : length (rest ++ p ++ drop (length rest + length p) data) = 64%nat).
  { rewrite !length_app, length_drop, Hp. lia. }
  rewrite (drop_ge _ (length rest + S n + length tl)) by lia. rewrite app_nil_r.
  rewrite app_assoc, take_app_length' by (rewrite length_app; lia). unfold p. rewrite <-app_assoc. done.
Qed.

Lemma length_length_bytes n : length (length_bytes n) = 8%nat.
Proof. done. Qed.

Lemma pad_short (data rest tl : list Z) :
  length data = 64%nat → take (length rest) data = rest → (length rest < 56)%nat → length tl = 8%nat →
  overwrite (overwrite data (length rest) (0x80 :: replicate (55 - length rest) 0)) 56 tl =
    rest ++ 0x80 :: replicate (55 - length rest) 0 ++ tl.
Proof.
  intros Hd Ht H Hl. assert (E56 : 56%nat = (length rest + S (55 - length rest))%nat) by lia. rewrite E56 at 1.
  apply overwrite_pad; [done|done|lia].
Qed.

Lemma zero_block (data tl : list Z) :
  length data = 64%nat → length tl = 8%nat → overwrite (overwrite data 0 (replicate 56 0)) 56 tl = replicate 56 0 ++ tl.
Proof.
  intros Hd Hl. unfold overwrite at 2. rewrite take_0, app_nil_l, Nat.add_0_l, length_replicate. unfold overwrite.
  rewrite take_app_length' by done. rewrite (drop_ge (_ ++ _)) by (rewrite length_app, length_replicate, length_drop; lia).
  by rewrite app_nil_r.
Qed.

(** C40: SHA-256 pads and cuts as the standard does. For every width of the
    words, whatever the buffer held, feeding a message byte by byte and
    finishing gives the digest of the blocks of the message, a one bit, zeros
    and the length in bits; in particular it does not matter in how many calls
    of [sha256_update] the message comes. *)
Theorem sha256_is_blockwise (junk : list Z) (bl : list (list Z)) (rest : list Z) (calls : list (list Z)) :
  length junk = 64%nat → Forall (λ b, length b = 64%nat) bl → (length rest < 64)%nat →
  8 * Z.of_nat (64 * length bl + 64) < 2 ^ 64 → concat calls = concat bl ++ rest →
  sha256_final W (foldl (sha256_update W) (sha256_init junk) calls) = sha256_blocks W bl rest.
Proof.
  intros Hj Hb Hr Hlen Hcalls.
  assert (Hfold : foldl (sha256_update W) (sha256_init junk) calls = sha256_update W (sha256_init junk) (concat bl ++ rest)).
  { rewrite <-Hcalls. generalize (sha256_init junk). clear. induction calls as [|c calls IH]; intros ctx; [done|].
    cbn [foldl concat]. rewrite IH. unfold sha256_update. by rewrite foldl_app. }
  rewrite Hfold. clear Hfold Hcalls. unfold sha256_update, sha256_init.
  destruct (absorb_message (full_block W) junk (initial, 0) bl rest Hj Hb Hr) as (data & E & Hd & Ht). rewrite E.
  rewrite full_blocks by lia. unfold sha256_final, sha256_blocks, padding. rewrite Z.add_0_l.
  replace (u64 (512 * Z.of_nat (length bl) + Z.of_nat (length rest) * 8)) with (8 * Z.of_nat (64 * length bl + length rest))
    by (unfold u64; rewrite Z.mod_small by lia; lia).
  set (bits := 8 * _). set (st := foldl _ _ bl).
  destruct (Nat.ltb_spec (length rest) 56) as [H|H]; cbn [fst snd]; rewrite foldl_app; cbn [foldl]; fold st.
  - rewrite (pad_short data rest (length_bytes bits) Hd Ht H eq_refl). done.
  - assert (Hx : overwrite data (length rest) (0x80 :: replicate (63 - length rest) 0) = rest ++ 0x80 :: replicate (63 - length rest) 0).
    { rewrite overwrite_end by (cbn [length]; rewrite length_replicate; lia). by rewrite Ht. }
    rewrite Hx. rewrite zero_block; [done| |done]. rewrite length_app. cbn [length]. rewrite length_replicate. lia.
Qed.

Lemma read_iters (last tl : list Z) pl : ∀ pre cx,
  Forall (λ p, length p = 32%nat) pl → (0 < length last)%nat →
  Z.of_nat (length pre + 32 * length pl + length last) < 65536 →
  iters (read_step W (pre ++ concat pl ++ last ++ tl)) (length pl)
    (Z.of_nat (length pre), 32 * Z.of_nat (length pl) + Z.of_nat (length last), cx)
    (Z.of_nat (length pre + 32 * length pl), Z.of_nat (length last), sha256_update W cx (concat (take 16 <$> pl))).
Proof.
  induction pl as [|p pl IH]; intros pre cx Hp Hl Hw.
  { cbn [length concat fmap list_fmap]. rewrite Nat.mul_0_r, Nat.add_0_r. constructor. }
  apply Forall_cons in Hp as [Hp32 Hp]. cbn [concat]. change (length (p :: pl)) with (S (length pl)) in *.
  eapply iters_S.
  - unfold read_step. rewrite (proj2 (Z.ltb_lt _ _)) by (unfold SHA256_BLOCK_SIZE; lia). unfold cr_mem_read.
    rewrite (proj2 (Z.leb_le _ _)) by (rewrite !length_app; lia). res_cbn.
    rewrite Nat2Z.id, drop_app_length. change (Z.to_nat 16) with 16%nat. rewrite <-app_assoc, take_app_le by lia.
    rewrite !u16_id by (unfold is_u16, SHA256_BLOCK_SIZE; lia). reflexivity.
  - specialize (IH (pre ++ p) (sha256_update W cx (take 16 p)) Hp Hl).
    rewrite length_app, Hp32 in IH. specialize (IH ltac:(lia)). rewrite <-app_assoc in IH.
    cbn [fmap list_fmap concat]. unfold SHA256_BLOCK_SIZE.
    replace (Z.of_nat (length pre) + 32) with (Z.of_nat (length pre + 32)) by lia.
    replace (32 * Z.of_nat (S (length pl)) + Z.of_nat (length last) - 32) with (32 * Z.of_nat (length pl) + Z.of_nat (length last)) by lia.
    replace (length pre + 32 * S (length pl))%nat with (length pre + 32 + 32 * length pl)%nat by lia.
    unfold sha256_update at 2. rewrite foldl_app. fold (sha256_update W cx (take 16 p)). rewrite <-app_assoc. exact IH.
Qed.

(** [cr_calc_sha256] hashes half of a long message. The message is read in
    pieces of 32 bytes of which, but for the last, only the first 16 are used:
    the digest is the digest of these bytes, so two messages that differ in the
    other bytes have the same digest. A message of at most 32 bytes is hashed as
    it is. *)
Theorem sha256_samples (junk pre : list Z) (pl : list (list Z)) (last tl : list Z) (fuel : nat) :
  length junk = 64%nat → Forall (λ p, length p = 32%nat) pl → (length last ≤ 32)%nat → (pl ≠ [] → 0 < length last)%nat →
  Z.of_nat (length pre + 32 * length pl + length last) < 65536 → (length pl < fuel)%nat →
  cr_calc_sha256 W fuel junk (pre ++ concat pl ++ last ++ tl) (Z.of_nat (length pre))
    (32 * Z.of_nat (length pl) + Z.of_nat (length last)) =
  Ret (sha256 W junk (concat (take 16 <$> pl) ++ last), 32).
Proof.
  intros Hj Hp Hl Hne Hw Hf. unfold cr_calc_sha256.
  assert (Hit : iters (read_step W (pre ++ concat pl ++ last ++ tl)) (length pl)
    (Z.of_nat (length pre), 32 * Z.of_nat (length pl) + Z.of_nat (length last), sha256_init junk)
    (Z.of_nat (length pre + 32 * length pl), Z.of_nat (length last), sha256_update W (sha256_init junk) (concat (take 16 <$> pl)))).
  { destruct pl as [|p pl]; [cbn [length concat fmap list_fmap]; rewrite Nat.mul_0_r, Nat.add_0_r; constructor|].
    apply read_iters; [done|by apply Hne|done]. }
  erewrite (loop_exit _ _ fuel _ _ _ Hit); [|unfold read_step; rewrite (proj2 (Z.ltb_ge _ _)) by (unfold SHA256_BLOCK_SIZE; lia); reflexivity|done].
  res_cbn. assert (Hc : length (concat pl) = (32 * length pl)%nat) by by apply concat_blocks.
  unfold cr_mem_read. rewrite (proj2 (Z.leb_le _ _)) by (rewrite !length_app, Hc; lia). res_cbn. do 2 f_equal.
  rewrite !Nat2Z.id, app_assoc, drop_app_length' by (rewrite length_app, Hc; lia). rewrite take_app_length.
  unfold sha256, sha256_update. by rewrite foldl_app.
Qed.
End proofs.

Lemma sha256_is_blockwise_witness :
  sha256_final 32 (foldl (sha256_update 32) (sha256_init (replicate 64 0)) [replicate 60 1; replicate 10 1]) =
  sha256_blocks 32 [replicate 64 1] (replicate 6 1).
Proof.
  apply (sha256_is_blockwise 32 (replicate 64 0) [replicate 64 1] (replicate 6 1) [replicate 60 1; replicate 10 1]).
  - reflexivity.
  - apply Forall_cons. split; [reflexivity|apply Forall_nil; exact I].
  - cbn. lia.
  - reflexivity.
  - reflexivity.
Defined.

(** two messages, one digest *)
Lemma sha256_samples_witness :
  cr_calc_sha256 64 2 (replicate 64 0) ([] ++ concat [replicate 16 1 ++ replicate 16 2] ++ [3] ++ []) 0 (32 * 1 + 1) =
    Ret (sha256 64 (replicate 64 0) (replicate 16 1 ++ [3]), 32) ∧
  cr_calc_sha256 64 2 (replicate 64 0) ([] ++ concat [replicate 16 1 ++ replicate 16 9] ++ [3] ++ []) 0 (32 * 1 + 1) =
    Ret (sha256 64 (replicate 64 0) (replicate 16 1 ++ [3]), 32).
Proof.
  split.
  - apply (sha256_samples 64 (replicate 64 0) [] [replicate 16 1 ++ replicate 16 2] [3] [] 2);
      [reflexivity|apply Forall_cons; split; [reflexivity|apply Forall_nil; exact I]|cbn; lia|cbn; lia|reflexivity|cbn; lia].
  - apply (sha256_samples 64 (replicate 64 0) [] [replicate 16 1 ++ replicate 16 9] [3] [] 2);
      [reflexivity|apply Forall_cons; split; [reflexivity|apply Forall_nil; exact I]|cbn; lia|cbn; lia|reflexivity|cbn; lia].
Defined.
