(* ===== verification/Md5.v ===== *)
(** * MD5 (StackLib/crypto/src/cr_md5.c)

    The words have the type [UINT4], an [unsigned long]: its width [W] is a
    parameter here. With 32 bits the code computes the standard digest; on the
    platform of this library the type has 64 bits, and it does not. What
    holds for every width: the message is cut into blocks and padded as it
    should be. *)
From S2P Require Import Prelude Package Crc Digest.

Section width.
Context (W : Z).

Definition uw (z : Z) : Z := z mod 2 ^ W.

Inductive fn := F | G | H | I.

Definition apply (f : fn) (x y z : Z) : Z :=
  match f with
  | F => Z.lor (Z.land x y) (Z.land (uw (Z.lnot x)) z)
  | G => Z.lor (Z.land x z) (Z.land y (uw (Z.lnot z)))
  | H => Z.lxor (Z.lxor x y) z
  | I => Z.lxor y (Z.lor x (uw (Z.lnot z)))
  end.

Definition ROTATE_LEFT (x n : Z) : Z := Z.lor (uw (Z.shiftl x n)) (Z.shiftr x (32 - n)).

(** the function, the word, the rotation and the constant of every step *)
Definition steps : list (fn * nat * Z * Z) :=
  [(F, 0%nat, 7, 3614090360); (F, 1%nat, 12, 3905402710); (F, 2%nat, 17, 606105819); (F, 3%nat, 22, 3250441966);
   (F, 4%nat, 7, 4118548399); (F, 5%nat, 12, 1200080426); (F, 6%nat, 17, 2821735955); (F, 7%nat, 22, 4249261313);
   (F, 8%nat, 7, 1770035416); (F, 9%nat, 12, 2336552879); (F, 10%nat, 17, 4294925233); (F, 11%nat, 22, 2304563134);
   (F, 12%nat, 7, 1804603682); (F, 13%nat, 12, 4254626195); (F, 14%nat, 17, 2792965006); (F, 15%nat, 22, 1236535329);
   (G, 1%nat, 5, 4129170786); (G, 6%nat, 9, 3225465664); (G, 11%nat, 14, 643717713); (G, 0%nat, 20, 3921069994);
   (G, 5%nat, 5, 3593408605); (G, 10%nat, 9, 38016083); (G, 15%nat, 14, 3634488961); (G, 4%nat, 20, 3889429448);
   (G, 9%nat, 5, 568446438); (G, 14%nat, 9, 3275163606); (G, 3%nat, 14, 4107603335); (G, 8%nat, 20, 1163531501);
   (G, 13%nat, 5, 2850285829); (G, 2%nat, 9, 4243563512); (G, 7%nat, 14, 1735328473); (G, 12%nat, 20, 2368359562);
   (H, 5%nat, 4, 4294588738); (H, 8%nat, 11, 2272392833); (H, 11%nat, 16, 1839030562); (H, 14%nat, 23, 4259657740);
   (H, 1%nat, 4, 2763975236); (H, 4%nat, 11, 1272893353); (H, 7%nat, 16, 4139469664); (H, 10%nat, 23, 3200236656);
   (H, 13%nat, 4, 681279174); (H, 0%nat, 11, 3936430074); (H, 3%nat, 16, 3572445317); (H, 6%nat, 23, 76029189);
   (H, 9%nat, 4, 3654602809); (H, 12%nat, 11, 3873151461); (H, 15%nat, 16, 530742520); (H, 2%nat, 23, 3299628645);
   (I, 0%nat, 6, 4096336452); (I, 7%nat, 10, 1126891415); (I, 14%nat, 15, 2878612391); (I, 5%nat, 21, 4237533241);
   (I, 12%nat, 6, 1700485571); (I, 3%nat, 10, 2399980690); (I, 10%nat, 15, 4293915773); (I, 1%nat, 21, 2240044497);
   (I, 8%nat, 6, 1873313359); (I, 15%nat, 10, 4264355552); (I, 6%nat, 15, 2734768916); (I, 13%nat, 21, 1309151649);
   (I, 4%nat, 6, 4149444226); (I, 11%nat, 10, 3174756917); (I, 2%nat, 15, 718787259); (I, 9%nat, 21, 3951481745)].

(** FF, GG, HH and II; the registers change places from step to step *)
Definition step (in_ : list Z) (v : list Z) (x : fn * nat * Z * Z) : list Z :=
  let '(f, i, s, ac) := x in
  match v with
  | [a; b; c; d] =>
      let a := uw (a + (apply f b c d + in_ !!! i + ac)) in
      let a := ROTATE_LEFT a s in
      let a := uw (a + b) in
      [d; a; b; c]
  | _ => v
  end.

Definition Transform (buf in_ : list Z) : list Z := zip_with (λ b a, uw (b + a)) buf (foldl (step in_) buf steps).

(** the first [n] words of a buffer *)
Definition words (n : nat) (bs : list Z) : list Z :=
  (λ i, Z.lor (Z.lor (Z.lor (Z.shiftl (bs !!! (i * 4 + 3)%nat) 24) (Z.shiftl (bs !!! (i * 4 + 2)%nat) 16))
    (Z.shiftl (bs !!! (i * 4 + 1)%nat) 8)) (bs !!! (i * 4)%nat)) <$> seq 0 n.

Definition block (buf bs : list Z) : list Z := Transform buf (words 16 bs).

(** [i], [buf] and [in] of [MD5_CTX] *)
Record MD5_CTX := mkCtx { i0 : Z; i1 : Z; buf : list Z; in_ : list Z }.

Definition initial : list Z := [0x67452301; 0xefcdab89; 0x98badcfe; 0x10325476].

Definition MD5Init (junk : list Z) : MD5_CTX := mkCtx 0 0 initial junk.

Definition MD5Update (ctx : MD5_CTX) (inBuf : list Z) : MD5_CTX :=
  let inLen := Z.of_nat (length inBuf) in
  let mdi := Z.to_nat (Z.land (Z.shiftr (i0 ctx) 3) 0x3F) in
  let carry := if uw (i0 ctx + uw (Z.shiftl inLen 3)) <? i0 ctx then 1 else 0 in
  let x := foldl (absorb block) (in_ ctx, mdi, buf ctx) inBuf in
  mkCtx (uw (i0 ctx + uw (Z.shiftl inLen 3))) (uw (uw (i1 ctx + carry) + Z.shiftr inLen 29)) x.2 x.1.1.

Definition PADDING : list Z := 0x80 :: replicate 63 0.

Definition digest (buf : list Z) : list Z :=
  concat ((λ b, (λ i, Z.land (Z.shiftr b (8 * Z.of_nat i)) 0xFF) <$> seq 0 4) <$> buf).

Definition MD5Final (ctx : MD5_CTX) : list Z :=
  let mdi := Z.to_nat (Z.land (Z.shiftr (i0 ctx) 3) 0x3F) in
  let padLen := if (mdi <? 56)%nat then (56 - mdi)%nat else (120 - mdi)%nat in
  let c := MD5Update ctx (take padLen PADDING) in
  digest (Transform (buf c) (words 14 (in_ c) ++ [i0 ctx; i1 ctx])).

(** one turn of the reading loop *)
Definition read_step (handle : list Z) (x : Z * Z * MD5_CTX) : res (Z * Z * MD5_CTX + Z * Z * MD5_CTX) :=
  let '(offset, length_, cx) := x in
  if 16 <? length_ then
    buffer ← cr_mem_read handle offset 16;
    Ret (inl (u16 (offset + 16), u16 (length_ - 16), MD5Update cx buffer))
  else Ret (inr x).

Definition cr_calc_md5 (fuel : nat) (junk handle : list Z) (offset length_ : Z) : res (list Z * Z) :=
  r ← loop fuel (read_step handle) (offset, length_, MD5Init junk);
  let '(offset, length_, cx) := r in
  buffer ← cr_mem_read handle offset length_;
  Ret (MD5Final (MD5Update cx buffer), 16).

(** *** The reference *)
Definition md5_blocks (bl : list (list Z)) (rest : list Z) : list Z :=
  let s := foldl block initial bl in
  let tail := [8 * Z.of_nat (64 * length bl + length rest); 0] in
  if (length rest <? 56)%nat then digest (Transform s (words 14 (rest ++ 0x80 :: replicate (55 - length rest) 0) ++ tail))
  else digest (Transform (block s (rest ++ 0x80 :: replicate (63 - length rest) 0)) (words 14 (replicate 56 0) ++ tail)).

Definition md5 (junk m : list Z) : list Z := MD5Final (MD5Update (MD5Init junk) m).
End width.

(** the digest of [abc] in RFC 1321 *)
Example md5_abc_32 :
  md5 32 (replicate 64 7) [97; 98; 99] =
  [0x90; 0x01; 0x50; 0x98; 0x3c; 0xd2; 0x4f; 0xb0; 0xd6; 0x96; 0x3f; 0x7d; 0x28; 0xe1; 0x7f; 0x72].
Proof. vm_compute. reflexivity. Qed.

Example md5_abc_64 : take 2 (md5 64 (replicate 64 7) [97; 98; 99]) ≠ [0x90; 0x01].
Proof. vm_compute. intros [=]. Qed.
Section proofs.
Context (W : Z).

(** the context after [MD5Init] and the bytes [m] *)
Definition ctx_of (junk m : list Z) : MD5_CTX :=
  let x := foldl (absorb (block W)) (junk, 0%nat, initial) m in mkCtx (8 * Z.of_nat (length m)) 0 x.2 x.1.1.

Lemma mdi_spec (n : nat) : Z.to_nat (Z.land (Z.shiftr (8 * Z.of_nat n) 3) 0x3F) = (n mod 64)%nat.
Proof.
  rewrite Z.shiftr_div_pow2 by lia. change 0x3F with (Z.ones 6). rewrite Z.land_ones by lia.
  replace (8 * Z.of_nat n / 2 ^ 3) with (Z.of_nat n) by (rewrite Z.mul_comm; symmetry; apply Z.div_mul; lia).
  change (2 ^ 6) with (Z.of_nat 64). rewrite <-Nat2Z.inj_mod. apply Nat2Z.id.
Qed.

Lemma MD5Update_ctx (junk m c : list Z) :
  8 * Z.of_nat (length m + length c) < 2 ^ W → Z.of_nat (length c) < 65536 →
  MD5Update W (ctx_of junk m) c = ctx_of junk (m ++ c).
Proof.
  intros Hw Hc. unfold MD5Update, ctx_of. cbn [i0 i1 buf in_].
  assert (Hn : uw W (Z.shiftl (Z.of_nat (length c)) 3) = 8 * Z.of_nat (length c)).
  { rewrite Z.shiftl_mul_pow2 by lia. unfold uw. rewrite Z.mod_small; lia. }
  rewrite Hn, mdi_spec.
  assert (Hs : uw W (8 * Z.of_nat (length m) + 8 * Z.of_nat (length c)) = 8 * Z.of_nat (length (m ++ c))).
  { rewrite length_app. unfold uw. rewrite Z.mod_small; lia. }
  rewrite Hs. rewrite (proj2 (Z.ltb_ge _ _)) by (rewrite length_app; lia).
  assert (H29 : Z.shiftr (Z.of_nat (length c)) 29 = 0).
  { rewrite Z.shiftr_div_pow2 by lia. apply Z.div_small. lia. }
  rewrite H29. assert (Hz : uw W (uw W (0 + 0) + 0) = 0) by done. rewrite Hz.
  rewrite foldl_app. pose proof (absorb_used (block W) (junk, 0%nat, initial) m ltac:(cbn; lia)) as Hu.
  destruct (foldl (absorb (block W)) (junk, 0%nat, initial) m) as [[data k] st]. cbn [fst snd Nat.add] in *. by rewrite <-Hu.
Qed.

Lemma MD5Update_calls (junk : list Z) (calls : list (list Z)) : ∀ m,
  8 * Z.of_nat (length m + length (concat calls)) < 2 ^ W → Forall (λ c : list Z, Z.of_nat (length c) < 65536) calls →
  foldl (MD5Update W) (ctx_of junk m) calls = ctx_of junk (m ++ concat calls).
Proof.
  induction calls as [|c calls IH]; intros m Hw Hc; cbn [foldl concat] in *.
  - by rewrite app_nil_r.
  - rewrite length_app in Hw. apply Forall_cons in Hc as [Hc Hcs].
    rewrite MD5Update_ctx by lia. rewrite IH; [|rewrite length_app; lia|done]. by rewrite app_assoc.
Qed.

Lemma words_take n (l l' : list Z) : take (4 * n) l = take (4 * n) l' → words n l = words n l'.
Proof.
  intros H. unfold words. apply list_fmap_ext. intros j i Hj. apply lookup_seq in Hj as [-> Hi]. cbn [Nat.add].
  assert (Ht : ∀ p, (p < 4 * n)%nat → l !!! p = l' !!! p).
  { intros p Hp. rewrite !list_lookup_total_alt. f_equal. rewrite <-(lookup_take_lt l (4 * n)), <-(lookup_take_lt l' (4 * n)) by done.
    by rewrite H. }
  by rewrite !Ht by lia.
Qed.

Lemma take_padding n : (n < 64)%nat → take (S n) PADDING = 0x80 :: replicate n 0.
Proof. intros H. unfold PADDING. cbn [take]. rewrite take_replicate. by rewrite Nat.min_l by lia. Qed.

(** the padding fills the last block up to the length *)
Lemma MD5Final_ctx (junk : list Z) (bl : list (list Z)) (rest : list Z) :
  length junk = 64%nat → Forall (λ b : list Z, length b = 64%nat) bl → (length rest < 64)%nat →
  8 * Z.of_nat (64 * length bl + 128) < 2 ^ W →
  MD5Final W (ctx_of junk (concat bl ++ rest)) = md5_blocks W bl rest.
Proof.
  intros Hj Hb Hr Hw. assert (Hm : length (concat bl ++ rest) = (64 * length bl + length rest)%nat).
  { by rewrite length_app, (concat_blocks 64) by done. }
  set (m := concat bl ++ rest) in *. unfold MD5Final, md5_blocks.
  replace (i0 (ctx_of junk m)) with (8 * Z.of_nat (length m)) by done. replace (i1 (ctx_of junk m)) with 0 by done.
  rewrite mdi_spec, Hm. replace ((64 * length bl + length rest) mod 64)%nat with (length rest).
  2:{ rewrite Nat.add_comm, Nat.mul_comm, Nat.Div0.mod_add, Nat.mod_small; done. }
  destruct (Nat.ltb_spec (length rest) 56) as [H|H].
  - replace (56 - length rest)%nat with (S (55 - length rest)) by lia. rewrite take_padding by lia.
    set (pad := 0x80 :: replicate (55 - length rest) 0).
    assert (Hp : length pad = (56 - length rest)%nat) by (unfold pad; cbn [length]; rewrite length_replicate; lia).
    rewrite MD5Update_ctx by (rewrite Hp, ?Hm; lia). unfold ctx_of, m. rewrite <-app_assoc.
    destruct (absorb_message (block W) junk initial bl (rest ++ pad) Hj Hb) as (data & E & Hd & Ht); [rewrite length_app; lia|].
    rewrite E. cbn [buf in_ fst snd]. rewrite length_app, Hp in Ht. replace (length rest + (56 - length rest))%nat with 56%nat in Ht by lia.
    rewrite (words_take 14 data (rest ++ pad)); [done|]. change (4 * 14)%nat with 56%nat. rewrite Ht. symmetry. apply take_ge.
    rewrite length_app. lia.
  - replace (120 - length rest)%nat with (S (63 - length rest + 56)) by lia. rewrite take_padding by lia.
    rewrite replicate_add. set (pad := 0x80 :: replicate (63 - length rest) 0). change (0x80 :: _ ++ ?z) with (pad ++ z).
    assert (Hp : length pad = (64 - length rest)%nat) by (unfold pad; cbn [length]; rewrite length_replicate; lia).
    rewrite MD5Update_ctx by (rewrite length_app, length_replicate, Hp, ?Hm; lia). unfold ctx_of, m.
    replace ((concat bl ++ rest) ++ pad ++ replicate 56 0) with (concat (bl ++ [rest ++ pad]) ++ replicate 56 0)
      by (rewrite concat_app; cbn [concat]; rewrite app_nil_r, <-!app_assoc; done).
    destruct (absorb_message (block W) junk initial (bl ++ [rest ++ pad]) (replicate 56 0) Hj) as (data & E & Hd & Ht).
    { apply Forall_app. split; [done|]. apply Forall_singleton. rewrite length_app. lia. }
    { rewrite length_replicate. lia. }
    rewrite E. cbn [buf in_ fst snd]. rewrite foldl_app. cbn [foldl]. rewrite length_replicate in Ht.
    by rewrite (words_take 14 data (replicate 56 0)).
Qed.

(** MD5 pads and cuts as RFC 1321 does. For every width of the words that
    holds the length in bits, whatever the buffer held and in however many calls
    of [MD5Update] the message comes, [MD5Final] gives the digest of the blocks
    of the message, a one bit, zeros and the length. *)
Theorem md5_is_blockwise (junk : list Z) (bl : list (list Z)) (rest : list Z) (calls : list (list Z)) :
  length junk = 64%nat → Forall (λ b : list Z, length b = 64%nat) bl → (length rest < 64)%nat →
  8 * Z.of_nat (64 * length bl + 128) < 2 ^ W → Forall (λ c : list Z, Z.of_nat (length c) < 65536) calls →
  concat calls = concat bl ++ rest →
  MD5Final W (foldl (MD5Update W) (MD5Init junk) calls) = md5_blocks W bl rest.
Proof.
  intros Hj Hb Hr Hw Hc Hcalls. change (MD5Init junk) with (ctx_of junk []).
  rewrite MD5Update_calls; [|rewrite Hcalls, length_app, (concat_blocks 64) by done; cbn [length]; lia|done].
  cbn [app]. rewrite Hcalls. by apply MD5Final_ctx.
Qed.

Lemma md5_read_iters (handle pre last tl : list Z) (pl : list (list Z)) : ∀ cx,
  handle = pre ++ concat pl ++ last ++ tl → Forall (λ p : list Z, length p = 16%nat) pl → (0 < length last)%nat →
  Z.of_nat (length pre + 16 * length pl + length last) < 65536 →
  iters (read_step W handle) (length pl)
    (Z.of_nat (length pre), 16 * Z.of_nat (length pl) + Z.of_nat (length last), cx)
    (Z.of_nat (length pre + 16 * length pl), Z.of_nat (length last), foldl (MD5Update W) cx pl).
Proof.
  revert pre. induction pl as [|p pl IH]; intros pre cx -> Hp Hl Hw.
  { cbn [length]. rewrite Nat.mul_0_r, Nat.add_0_r. constructor. }
  apply Forall_cons in Hp as [Hp16 Hp]. cbn [concat foldl]. change (length (p :: pl)) with (S (length pl)) in *.
  eapply iters_S.
  - unfold read_step. rewrite (proj2 (Z.ltb_lt _ _)) by lia. unfold cr_mem_read.
    rewrite (proj2 (Z.leb_le _ _)) by (rewrite !length_app; lia). res_cbn.
    rewrite Nat2Z.id, drop_app_length. change (Z.to_nat 16) with 16%nat. rewrite <-app_assoc, take_app_length' by done.
    rewrite !u16_id by (unfold is_u16; lia). reflexivity.
  - specialize (IH (pre ++ p) (MD5Update W cx p)). rewrite length_app, Hp16 in IH.
    replace (Z.of_nat (length pre) + 16) with (Z.of_nat (length pre + 16)) by lia.
    replace (16 * Z.of_nat (S (length pl)) + Z.of_nat (length last) - 16) with (16 * Z.of_nat (length pl) + Z.of_nat (length last)) by lia.
    replace (length pre + 16 * S (length pl))%nat with (length pre + 16 + 16 * length pl)%nat by lia.
    apply IH; [cbn [concat]; by rewrite <-!app_assoc|done|done|lia].
Qed.

(** [cr_calc_md5] hashes what it is asked to: the digest of the
    [length] bytes of the handle from [offset] on, read in pieces of sixteen
    bytes, is the digest of the message cut in blocks; the loop ends and the
    result has sixteen bytes. *)
Theorem calc_md5_spec (junk pre tl : list Z) (bl : list (list Z)) (rest : list Z) (fuel : nat) :
  length junk = 64%nat → Forall (λ b : list Z, length b = 64%nat) bl → (length rest < 64)%nat → 32 ≤ W →
  Z.of_nat (length pre + (64 * length bl + length rest)) < 65536 → (4096 < fuel)%nat →
  cr_calc_md5 W fuel junk (pre ++ (concat bl ++ rest) ++ tl) (Z.of_nat (length pre)) (Z.of_nat (64 * length bl + length rest)) =
    Ret (md5_blocks W bl rest, 16).
Proof.
  intros Hj Hb Hr HW Hw Hf. assert (H32 : 2 ^ 32 ≤ 2 ^ W) by (apply Z.pow_le_mono_r; lia).
  assert (Hm : length (concat bl ++ rest) = (64 * length bl + length rest)%nat) by (by rewrite length_app, (concat_blocks 64) by done).
  rewrite <-Hm in *. rewrite <-(MD5Final_ctx junk bl rest Hj Hb Hr ltac:(lia)). revert Hw.
  destruct (pieces_exist 16 (concat bl ++ rest) ltac:(lia)) as (pl & last & E & Hp & Hl & Hne). rewrite E. clear E Hm. intros Hw.
  rewrite !length_app, (concat_blocks 16) in * by done. unfold cr_calc_md5.
  set (handle := pre ++ (concat pl ++ last) ++ tl).
  assert (Hh : handle = pre ++ concat pl ++ last ++ tl) by (unfold handle; by rewrite <-!app_assoc).
  replace (Z.of_nat (16 * length pl + length last)) with (16 * Z.of_nat (length pl) + Z.of_nat (length last)) by lia.
  assert (Hit : iters (read_step W handle) (length pl)
    (Z.of_nat (length pre), 16 * Z.of_nat (length pl) + Z.of_nat (length last), MD5Init junk)
    (Z.of_nat (length pre + 16 * length pl), Z.of_nat (length last), foldl (MD5Update W) (MD5Init junk) pl)).
  { destruct pl as [|p pl]; [cbn [length foldl]; rewrite Nat.mul_0_r, Nat.add_0_r; constructor|].
    apply (md5_read_iters handle pre last tl); [exact Hh|exact Hp|by apply Hne|lia]. }
  erewrite (loop_exit _ _ fuel _ _ _ Hit); [|unfold read_step; rewrite (proj2 (Z.ltb_ge _ _)) by lia; reflexivity|lia].
  res_cbn. unfold cr_mem_read. rewrite (proj2 (Z.leb_le _ _)) by (rewrite Hh, !length_app, (concat_blocks 16) by done; lia). res_cbn.
  do 2 f_equal. rewrite !Nat2Z.id, Hh, app_assoc, drop_app_length' by (by rewrite length_app, (concat_blocks 16) by done).
  rewrite take_app_length. change (MD5Init junk) with (ctx_of junk []).
  rewrite MD5Update_calls; cbn [length app]; [|rewrite (concat_blocks 16) by done; lia|eapply Forall_impl; [exact Hp|cbn; lia]].
  rewrite MD5Update_ctx; [done|rewrite (concat_blocks 16) by done; lia|lia].
Qed.
End proofs.

Lemma md5_is_blockwise_witness :
  MD5Final 32 (foldl (MD5Update 32) (MD5Init (replicate 64 0)) [replicate 100 1; replicate 26 1]) =
  md5_blocks 32 [replicate 64 1] (replicate 62 1).
Proof.
  apply (md5_is_blockwise 32 (replicate 64 0) [replicate 64 1] (replicate 62 1) [replicate 100 1; replicate 26 1]).
  - reflexivity.
  - apply Forall_cons. split; [reflexivity|apply Forall_nil; exact Logic.I].
  - cbn. lia.
  - reflexivity.
  - apply Forall_cons. split; [reflexivity|]. apply Forall_cons. split; [reflexivity|apply Forall_nil; exact Logic.I].
  - reflexivity.
Defined.

Lemma calc_md5_spec_witness :
  cr_calc_md5 64 4097 (replicate 64 0) ([5] ++ (concat [replicate 64 1] ++ [2; 3]) ++ [9]) 1 66 =
    Ret (md5_blocks 64 [replicate 64 1] [2; 3], 16).
Proof.
  apply (calc_md5_spec 64 (replicate 64 0) [5] [9] [replicate 64 1] [2; 3] 4097).
  - reflexivity.
  - apply Forall_cons. split; [reflexivity|apply Forall_nil; exact Logic.I].
  - cbn. lia.
  - lia.
  - reflexivity.
  - lia.
Defined.
