(* ===== verification/Labels.v ===== *)
(** * The symbol table as a map from names to addresses

    The compiler looks labels and functions up by name, gives them an address
    once and keeps the jumps that wait for it. What it sees of the table is a
    finite map: for each name the record found, its address and its queue. The
    operations of sym_table.c implement the operations of that map; the
    semantic actions (Sem.v) are verified against it. *)
From S2P Require Import Prelude Links SymTable.

(** What the table says of a name: the record, its [offset], its queue. *)
Record entry := mkEntry { e_rec : Z; e_offset : Z; e_queue : list (Z * Z) }.

Definition jump_of (j : Z * jmprec) : Z * Z := (ins j.2, j_offset j.2).

Definition entry_of (x : symj) : entry := mkEntry x.1.1 (offset x.1.2) (jump_of <$> x.2).

Definition lookup_sym (ty : Z) (nm : list Z) (l : list symj) : option entry :=
  entry_of <$> find (λ x, sym_is ty nm x.1.2) l.

(** the symbols [l] with their queues are the table [t] *)
Record holds (t : table) (l : list symj) : Prop := {
  h_lseg : lseg (syms t) (symhead t) l.*1 None;
  h_jumps : jumps_at (jmps t) l;
  h_syms : store_ok (syms t);
  h_jmps : store_ok (jmps t);
  h_named : Forall (λ x, named x.1.2) l
}.

(** [view ty n t M]: the names of type [ty] in the table [t] are the map [M];
    [n] bounds the symbols and jumps of the table. *)
Definition view (ty : Z) (n : nat) (t : table) (M : gmap (list Z) entry) : Prop :=
  ∃ l, holds t l ∧ (length l + length (concat l.*2) ≤ n)%nat ∧ ∀ nm, M !! nm = lookup_sym ty nm l.

(** ** Finding symbols *)
Lemma find_split {A} (f : A → bool) l x : find f l = Some x →
  ∃ l1 l2, l = l1 ++ x :: l2 ∧ f x = true ∧ Forall (λ y, f y = false) l1.
Proof.
  induction l as [|y l IH]; [done|]. cbn. destruct (f y) eqn:Ey.
  - intros [= ->]. exists [], l. by repeat split.
  - intros H. destruct (IH H) as (l1 & l2 & -> & Hx & Hl). exists (y :: l1), l2.
    split; [done|]. split; [done|]. by apply Forall_cons.
Qed.

Lemma find_app_skip {A} (f : A → bool) l1 l2 : Forall (λ y, f y = false) l1 → find f (l1 ++ l2) = find f l2.
Proof. induction 1 as [|y l1 Hy _ IH]; cbn; [done|]. by rewrite Hy. Qed.

Lemma sym_is_name ty nm r : sym_is ty nm r = true → name r = nm.
Proof. intros [_ H]%andb_prop. by apply bool_decide_eq_true in H. Qed.

Lemma lookup_sym_strip ty nm l : lookup_sym ty nm (stripj <$> l) = lookup_sym ty nm l.
Proof.
  unfold lookup_sym. induction l as [|x l IH]; cbn; [done|].
  assert (H : sym_is ty nm (set_nx None x.1.2) = sym_is ty nm x.1.2) by done. cbn in H. rewrite H.
  destruct (sym_is ty nm x.1.2); [done|exact IH].
Qed.

(** Replacing the symbol found for a name changes the map at that name only. *)
Lemma lookup_sym_replace ty nm l1 x x' l2 nm' :
  find (λ y, sym_is ty nm y.1.2) (l1 ++ x :: l2) = Some x → Forall (λ y : symj, sym_is ty nm y.1.2 = false) l1 →
  sym_is ty nm x.1.2 = true → name x'.1.2 = name x.1.2 → type x'.1.2 = type x.1.2 →
  lookup_sym ty nm' (l1 ++ x' :: l2) =
    if decide (nm' = nm) then Some (entry_of x') else lookup_sym ty nm' (l1 ++ x :: l2).
Proof.
  intros Hf Hl1 Hx Hn Ht. assert (Hsame : ∀ m, sym_is ty m x'.1.2 = sym_is ty m x.1.2).
  { intros m. unfold sym_is. by rewrite Hn, Ht. }
  unfold lookup_sym. case_decide as Hd.
  - subst nm'. rewrite find_app_skip by done. cbn. by rewrite Hsame, Hx.
  - clear Hf Hl1. assert (Hx' : sym_is ty nm' x.1.2 = false).
    { destruct (sym_is ty nm' x.1.2) eqn:E; [|done]. by rewrite <-(sym_is_name _ _ _ E), (sym_is_name _ _ _ Hx) in Hd. }
    induction l1 as [|y l1 IH]; cbn.
    + by rewrite Hsame, Hx'.
    + destruct (sym_is ty nm' y.1.2); [done|exact IH].
Qed.

(** ** Changing one queue *)
Definition others (l1 l2 : list symj) : list Z := (concat l1.*2).*1 ++ (concat l2.*2).*1.

Lemma in_concat (l : list symj) y a : y ∈ l → a ∈ y.2.*1 → a ∈ (concat l.*2).*1.
Proof. intros Hy Ha. induction Hy as [y l|y z l _ IH]; cbn; rewrite fmap_app; set_solver. Qed.

Lemma jumps_at_mid jm l1 x l2 : jumps_at jm (l1 ++ x :: l2) →
  Forall (λ y, lseg jm (jlist y.1.2) y.2 None) (l1 ++ l2) ∧ NoDup (others l1 l2) ∧
  NoDup x.2.*1 ∧ (∀ a, a ∈ x.2.*1 → a ∉ others l1 l2).
Proof.
  intros [H Hnd]. rewrite fmap_app, concat_app, fmap_app in Hnd. cbn in Hnd. rewrite fmap_app in Hnd.
  apply NoDup_app in Hnd as (Hn1 & Hd1 & Hn2). apply NoDup_app in Hn2 as (Hn2 & Hd2 & Hn3).
  apply Forall_app in H as [H1 H2]. apply Forall_cons in H2 as [_ H2]. unfold others. split.
  - by apply Forall_app.
  - split; [|split; [done|]].
    + apply NoDup_app. split; [done|]. split; [|done]. intros a Ha Ha'. apply (Hd1 a Ha). set_solver.
    + intros a Ha [Hin|Hin]%elem_of_app; [apply (Hd1 a Hin); set_solver|by apply (Hd2 a)].
Qed.

Lemma jumps_at_queue jm jm' l1 x x' l2 :
  jumps_at jm (l1 ++ x :: l2) → lseg jm' (jlist x'.1.2) x'.2 None →
  (∀ b, b ∈ others l1 l2 → cells jm' !! b = cells jm !! b) →
  (∀ b, b ∈ x'.2.*1 → b ∈ x.2.*1 ∨ b ∉ others l1 l2) →
  jumps_at jm' (l1 ++ x' :: l2).
Proof.
  intros H Hl Hfr Hsub. destruct (jumps_at_mid _ _ _ _ H) as (Hj & Hn & Hnx & Hd).
  assert (Hd' : ∀ a, a ∈ x'.2.*1 → a ∉ others l1 l2) by (intros a Ha; destruct (Hsub a Ha); auto).
  assert (Hoth : ∀ y a, y ∈ l1 ++ l2 → a ∈ y.2.*1 → a ∈ others l1 l2).
  { intros y a Hy Ha. unfold others. apply elem_of_app.
    apply elem_of_app in Hy as [Hy|Hy]; [left|right]; by eapply in_concat. }
  assert (Hj' : Forall (λ y : symj, lseg jm' (jlist y.1.2) y.2 None) (l1 ++ l2)).
  { rewrite Forall_forall in Hj |- *. intros y Hy. eapply lseg_frame; [by apply Hj|].
    intros a Ha. by eapply Hfr, Hoth. }
  apply Forall_app in Hj' as [Hj1 Hj2]. split.
  - apply Forall_app. split; [done|]. by apply Forall_cons.
  - unfold others in *. apply NoDup_app in Hn as (Hn1 & Hd1 & Hn2).
    rewrite fmap_app, concat_app, fmap_app. cbn. rewrite fmap_app. apply NoDup_app. split; [done|]. split.
    + intros a Ha [Hax|Hax]%elem_of_app; [apply (Hd' a Hax); set_solver|by apply (Hd1 a)].
    + apply NoDup_app. split; [by eapply lseg_nodup|]. split; [|done].
      intros a Ha Ha'. apply (Hd' a Ha). set_solver.
Qed.

Lemma jumps_below jm l1 x l2 a :
  jumps_at jm (l1 ++ x :: l2) → store_ok jm → a ∈ others l1 l2 → a < brk jm.
Proof.
  intros H Hok Ha. destruct (jumps_at_mid _ _ _ _ H) as (Hj & _).
  assert (Hy : ∃ y, y ∈ l1 ++ l2 ∧ a ∈ y.2.*1).
  { unfold others in Ha. rewrite <-fmap_app, <-concat_app, <-fmap_app in Ha. clear -Ha.
    induction (l1 ++ l2) as [|y l IH]; cbn in Ha; [by apply elem_of_nil in Ha|].
    rewrite fmap_app in Ha. apply elem_of_app in Ha as [Ha|Ha]; [exists y; set_solver|].
    destruct (IH Ha) as (z & Hz & Haz). exists z. set_solver. }
  destruct Hy as (y & Hy & Hay). rewrite Forall_forall in Hj. eapply lseg_below; [done|by apply Hj|done].
Qed.

(** the record at [a] and its queue change *)
Lemma holds_queue t l1 a r js l2 r' js' jm' :
  holds t (l1 ++ ((a, r), js) :: l2) →
  s_next r' = s_next r → name r' = name r → type r' = type r → slength r' = slength r → room r' = room r →
  jumps_at jm' (l1 ++ ((a, r'), js') :: l2) → store_ok jm' →
  holds (set_syms (set_cells (<[a := r']> (cells (syms t))) (syms t)) (set_jmps jm' t)) (l1 ++ ((a, r'), js') :: l2).
Proof.
  intros [Hl _ Hs _ Hn] Hk1 Hk3 Hk4 Hk5 Hk6 Hj' Hok.
  rewrite fmap_app in Hl. cbn [fmap list_fmap fst] in Hl.
  assert (Ha : cells (syms t) !! a = Some r) by (eapply lseg_lookup; [exact Hl|set_solver]).
  pose proof (lseg_nodup _ _ _ Hl) as Hd. rewrite fmap_app in Hd. cbn in Hd.
  apply NoDup_app in Hd as (_ & Hd1 & Hd2). apply NoDup_cons in Hd2 as [Hd2 _].
  split; cbn [syms symhead jmps set_syms set_jmps]; [|done| |done|].
  - rewrite fmap_app. cbn [fmap list_fmap fst]. apply (lseg_update _ _ _ a r _ _ (λ _, r')); [done|done| |done].
    intros Hin. apply (Hd1 a Hin). set_solver.
  - by apply (store_ok_upd _ a r (λ _, r')).
  - apply Forall_app in Hn as [Hn1 Hn2]. apply Forall_cons in Hn2 as [Hx Hn2].
    apply Forall_app. split; [done|]. apply Forall_cons. split; [|done].
    unfold named in *. cbn in *. by rewrite Hk3, Hk5, Hk6.
Qed.

(** a table whose queue of [a] changed *)
Definition with_queue (a : Z) (r' : symrec) (jm : store jmprec) (t : table) : table :=
  set_syms (set_cells (<[a := r']> (cells (syms t))) (syms t)) (set_jmps jm t).

(** [st_jmp_add] appends to one queue and leaves the others *)
Lemma jmp_add_core t l1 a r js l2 op off fuel :
  cells (syms t) !! a = Some r → jumps_at (jmps t) (l1 ++ ((a, r), js) :: l2) → store_ok (jmps t) →
  (length js < fuel)%nat →
  ∃ q js' jm b, st_jmp_add fuel a op off t = Ret (with_queue a (set_jlist q r) jm t, b) ∧ store_ok jm ∧
    jumps_at jm (l1 ++ ((a, set_jlist q r), js') :: l2) ∧
    jump_of <$> js' = (jump_of <$> js) ++ [(op, off)] ∧ length js' = S (length js).
Proof.
  intros Hc Hjs Hok Hf. destruct (jumps_at_mid _ _ _ _ Hjs) as (_ & _ & _ & Hd).
  assert (Hj : lseg (jmps t) (jlist r) js None).
  { destruct Hjs as [Hj _]. apply Forall_app in Hj as [_ Hj]. by apply Forall_cons in Hj as [Hj _]. }
  set (b := brk (jmps t)). set (new := mkJmp None op off). set (m := (malloc new (jmps t)).2).
  assert (Hmok : store_ok m) by by apply store_ok_malloc.
  assert (Hm : cells m !! b = Some new) by (cbn; by rewrite lookup_insert_eq).
  assert (Hother : ∀ c, c ∈ others l1 l2 → c ≠ b) by (intros c Hc' ->; pose proof (jumps_below _ _ _ _ _ Hjs Hok Hc'); unfold b in *; lia).
  unfold st_jmp_add, st_jmp_get_last_record. rewrite (deref_some _ _ _ Hc). res_cbn. fold b new m.
  pose proof (lseg_malloc _ _ _ _ new Hok Hj) as Hj'. fold m in Hj'.
  destruct js as [|[p j] js _] using rev_ind.
  - pose proof (lseg_nil_inv _ _ _ Hj) as ->. res_cbn. cbn [syms set_jmps]. rewrite (upd_some _ _ _ _ Hc). res_cbn.
    exists (Some b), [(b, new)], m, b. split; [done|]. split; [done|]. split; [|done].
    apply (jumps_at_queue _ _ _ _ _ _ Hjs).
    + constructor; [done|constructor].
    + intros c Hc'. cbn. apply lookup_insert_ne. intros <-. by apply (Hother b).
    + intros c Hc'. right. apply list_elem_of_singleton in Hc' as ->. intros Hc'. by apply (Hother b).
  - rewrite length_app in Hf. cbn in Hf. destruct (jlist r) as [a0|] eqn:Er; [|destruct js as [|[]]; inversion Hj].
    destruct (walk_last m (Some a0) js p j fuel Hj' ltac:(lia)) as (a' & [= <-] & Hw).
    cbn [jmps set_jmps]. rewrite Hw. res_cbn.
    assert (Hp : cells m !! p = Some j) by (eapply lseg_lookup; [exact Hj'|set_solver]).
    rewrite (upd_some _ _ _ _ Hp). res_cbn. set (m' := set_cells (<[p := set_nx (Some b) j]> (cells m)) m).
    assert (Hpn : p ∉ others l1 l2) by (apply Hd; cbn [snd]; rewrite fmap_app; set_solver).
    exists (Some a0), (js ++ [(p, set_nx (Some b) j); (b, new)]), m', b.
    assert (Hr : set_jlist (Some a0) r = r) by (rewrite <-Er; by destruct r). rewrite Hr. split.
    { unfold with_queue. destruct t as [h st [c bk] jm lg]. unfold set_syms, set_jmps, set_cells. cbn.
      cbn in Hc. rewrite (insert_id c a r Hc). reflexivity. }
    split; [by apply store_ok_upd with (n := j)|]. split; [|by rewrite !fmap_app, <-app_assoc, !length_app; cbn; split; [|lia]].
    apply (jumps_at_queue _ _ _ _ _ _ Hjs).
    + cbn [fst snd]. rewrite Er. apply lseg_snoc; [done|done|done|]. rewrite fmap_app. intros Hin.
      pose proof (lseg_below _ _ _ _ b Hok Hj) as Hb. rewrite fmap_app in Hb. specialize (Hb Hin). unfold b in Hb. lia.
    + intros c Hc'. cbn. rewrite !lookup_insert_ne; [done| |]; intros <-; [by apply (Hother b)|done].
    + cbn [snd]. intros c Hc'. rewrite fmap_app in Hc'. cbn in Hc'. apply elem_of_app in Hc' as [Hc'|Hc'].
      * left. rewrite fmap_app. set_solver.
      * apply elem_of_cons in Hc' as [->|Hc']; [left; rewrite fmap_app; cbn; set_solver|].
        right. apply list_elem_of_singleton in Hc' as ->. intros Hc'. by apply (Hother b).
Qed.

(** [st_jmp_clear] empties one queue and leaves the others *)
Lemma jmp_clear_core t l1 a r js l2 fuel :
  cells (syms t) !! a = Some r → jumps_at (jmps t) (l1 ++ ((a, r), js) :: l2) → store_ok (jmps t) →
  (length js < fuel)%nat →
  ∃ jm, st_jmp_clear fuel a t = Ret (with_queue a (set_jlist None r) jm t) ∧ store_ok jm ∧
    jumps_at jm (l1 ++ ((a, set_jlist None r), []) :: l2).
Proof.
  intros Hc Hjs Hok Hf. destruct (jumps_at_mid _ _ _ _ Hjs) as (_ & _ & _ & Hd).
  assert (Hj : lseg (jmps t) (jlist r) js None).
  { destruct Hjs as [Hj _]. apply Forall_app in Hj as [_ Hj]. by apply Forall_cons in Hj as [Hj _]. }
  exists (freed js (jmps t)). split; [|split; [by apply freed_ok|]].
  - unfold st_jmp_clear. rewrite (deref_some _ _ _ Hc). res_cbn. destruct (jlist r) as [q|] eqn:Eq.
    + rewrite (free_chain _ _ _ _ Hj) by done. res_cbn. by rewrite (upd_some _ _ _ _ Hc).
    + inversion Hj; subst. rewrite freed_nil. unfold with_queue.
      assert (Hr : set_jlist None r = r) by (rewrite <-Eq; by destruct r). rewrite Hr.
      destruct t as [h st [c bk] jm lg]. unfold set_syms, set_jmps, set_cells. cbn. cbn in Hc. by rewrite insert_id.
  - apply (jumps_at_queue _ _ _ _ _ _ Hjs).
    + constructor.
    + intros b Hb. rewrite freed_lookup. rewrite decide_False; [done|]. intros Hin. by apply (Hd b).
    + intros b Hb. by apply elem_of_nil in Hb.
Qed.

(** ** Changing one record *)

(** [f] keeps what the table is searched by and linked with. *)
Definition keeps (f : symrec → symrec) : Prop :=
  ∀ r, s_next (f r) = s_next r ∧ jlist (f r) = jlist r ∧ name (f r) = name r ∧ type (f r) = type r ∧
       slength (f r) = slength r ∧ room (f r) = room r.

Lemma set_jmps_id t : set_jmps (jmps t) t = t.
Proof. by destruct t. Qed.

Lemma holds_update t l1 a r js l2 f :
  holds t (l1 ++ ((a, r), js) :: l2) → keeps f →
  holds (set_syms (set_cells (<[a := f r]> (cells (syms t))) (syms t)) t) (l1 ++ ((a, f r), js) :: l2).
Proof.
  intros H Hk. destruct (Hk r) as (Hk1 & Hk2 & Hk3 & Hk4 & Hk5 & Hk6).
  pose proof (h_jumps _ _ H) as Hj. pose proof (holds_queue t l1 a r js l2 (f r) js (jmps t) H) as Hq.
  rewrite set_jmps_id in Hq. apply Hq; try done; [|by destruct H].
  destruct (jumps_at_mid _ _ _ _ Hj) as (_ & _ & _ & Hd). apply (jumps_at_queue (jmps t) _ _ ((a, r), js)); try done.
  - cbn. rewrite Hk2. destruct Hj as [Hj _]. apply Forall_app in Hj as [_ Hj]. by apply Forall_cons in Hj as [Hj _].
  - auto.
Qed.

Section view.
Context (ty : Z).

Lemma view_mono n n' t M : view ty n t M → (n ≤ n')%nat → view ty n' t M.
Proof. intros (l & H & Hn & HM) Hle. exists l. split; [done|]. split; [lia|done]. Qed.

Lemma holds_tab t l : holds t l → tab t (strip <$> l.*1).
Proof. intros []. split; [|done]. by exists l.*1. Qed.

Lemma holds_select t l nm cstr fuel :
  holds t l → c_string cstr = Some nm → Z.of_nat (length nm) < 65536 → (length l < fuel)%nat →
  st_sym_select fuel ty cstr t = Ret ((λ x : symj, x.1.1) <$> find (λ x, sym_is ty nm x.1.2) l).
Proof.
  intros H Hc Hl Hf. unfold st_sym_select. rewrite Hc. res_cbn.
  rewrite u16_id by (unfold is_u16; lia). rewrite (select_tab t (strip <$> l.*1)).
  - f_equal. rewrite find_strip.
    clear. induction l as [|x l IH]; cbn; [done|]. by destruct (sym_is ty nm x.1.2).
  - by apply holds_tab.
  - apply Forall_fmap, Forall_fmap. exact (h_named _ _ H).
  - by rewrite !length_fmap.
Qed.

Lemma view_select n t M nm cstr fuel :
  view ty n t M → c_string cstr = Some nm → Z.of_nat (length nm) < 65536 → (n < fuel)%nat →
  st_sym_select fuel ty cstr t = Ret (e_rec <$> M !! nm).
Proof.
  intros (l & H & Hn & HM) Hc Hl Hf. rewrite (holds_select t l nm) by (done || lia). f_equal.
  rewrite HM. unfold lookup_sym. by destruct (find _ l).
Qed.

(** the record found, with its queue in memory *)
Lemma view_found n t M nm e :
  view ty n t M → M !! nm = Some e →
  ∃ r js, cells (syms t) !! e_rec e = Some r ∧ name r = nm ∧ offset r = e_offset e ∧ named r ∧
    lseg (jmps t) (jlist r) js None ∧ jump_of <$> js = e_queue e ∧ (length js ≤ n)%nat.
Proof.
  intros (l & [Hl Hj _ _ Hnm] & Hn & HM) He. rewrite HM in He. unfold lookup_sym in He.
  destruct (find _ l) as [[[a r] js]|] eqn:Ef; [|done]. cbn in He. simplify_eq.
  apply find_split in Ef as (l1 & l2 & -> & Hx & _). exists r, js. cbn.
  split; [eapply lseg_lookup; [exact Hl|rewrite fmap_app; cbn; set_solver]|].
  split; [by apply sym_is_name in Hx|]. split; [done|].
  split; [apply Forall_app in Hnm as [_ Hnm]; by apply Forall_cons in Hnm as [Hnm _]|].
  split; [destruct Hj as [Hj _]; apply Forall_app in Hj as [_ Hj]; by apply Forall_cons in Hj as [Hj _]|].
  split; [done|]. rewrite fmap_app, concat_app, !length_app in Hn. cbn in Hn. rewrite length_app in Hn. lia.
Qed.
(** one symbol of a view changes *)
Lemma view_replace n M t' nm e l1 x l2 x' n' :
  (∀ m, M !! m = lookup_sym ty m (l1 ++ x :: l2)) → M !! nm = Some e →
  find (λ y, sym_is ty nm y.1.2) (l1 ++ x :: l2) = Some x → Forall (λ y : symj, sym_is ty nm y.1.2 = false) l1 →
  sym_is ty nm x.1.2 = true → name x'.1.2 = name x.1.2 → type x'.1.2 = type x.1.2 →
  holds t' (l1 ++ x' :: l2) → (length (l1 ++ x :: l2) + length (concat (l1 ++ x :: l2).*2) ≤ n)%nat →
  (length x'.2 + n ≤ length x.2 + n')%nat →
  view ty n' t' (<[nm := entry_of x']> M).
Proof.
  intros HM He Hf Hl1 Hx Hn Ht Hh Hle Hle'. exists (l1 ++ x' :: l2). split; [done|]. split.
  - rewrite !fmap_app, !concat_app, !length_app in Hle |- *. cbn in Hle |- *. rewrite !length_app in Hle |- *. lia.
  - intros m. rewrite (lookup_sym_replace ty nm l1 x x' l2 m) by done. case_decide as Hd.
    + subst m. by rewrite lookup_insert_eq.
    + rewrite lookup_insert_ne by done. apply HM.
Qed.

Lemma view_split n t M nm e :
  view ty n t M → M !! nm = Some e →
  ∃ l1 r js l2, holds t (l1 ++ ((e_rec e, r), js) :: l2) ∧ e = mkEntry (e_rec e) (offset r) (jump_of <$> js) ∧
    (length (l1 ++ ((e_rec e, r), js) :: l2) + length (concat (l1 ++ ((e_rec e, r), js) :: l2).*2) ≤ n)%nat ∧
    (∀ m, M !! m = lookup_sym ty m (l1 ++ ((e_rec e, r), js) :: l2)) ∧
    find (λ y, sym_is ty nm y.1.2) (l1 ++ ((e_rec e, r), js) :: l2) = Some ((e_rec e, r), js) ∧
    Forall (λ y : symj, sym_is ty nm y.1.2 = false) l1 ∧ sym_is ty nm r = true ∧
    cells (syms t) !! e_rec e = Some r ∧ lseg (jmps t) (jlist r) js None.
Proof.
  intros (l & H & Hn & HM) He. pose proof He as He'. rewrite HM in He. unfold lookup_sym in He.
  destruct (find _ l) as [[[a r] js]|] eqn:Ef; [|done]. cbn in He. simplify_eq. cbn [e_rec].
  pose proof Ef as Ef'. apply find_split in Ef as (l1 & l2 & -> & Hx & Hl1).
  exists l1, r, js, l2. split; [done|]. split; [done|]. split; [done|]. split; [done|]. split; [done|].
  split; [done|]. split; [done|]. split.
  - eapply lseg_lookup; [exact (h_lseg _ _ H)|]. rewrite fmap_app. cbn. set_solver.
  - destruct (h_jumps _ _ H) as [Hj _]. apply Forall_app in Hj as [_ Hj]. by apply Forall_cons in Hj as [Hj _].
Qed.

Lemma view_update n t M nm e r f :
  view ty n t M → M !! nm = Some e → keeps f → cells (syms t) !! e_rec e = Some r →
  view ty n (set_syms (set_cells (<[e_rec e := f r]> (cells (syms t))) (syms t)) t)
    (<[nm := mkEntry (e_rec e) (offset (f r)) (e_queue e)]> M).
Proof.
  intros Hv He Hk Hr. destruct (view_split _ _ _ _ _ Hv He) as (l1 & r' & js & l2 & Hh & Ee & Hn & HM & Hf & Hl1 & Hx & Hc & Hj).
  rewrite Hr in Hc. injection Hc as <-. destruct (Hk r) as (_ & _ & Hk3 & Hk4 & _).
  rewrite Ee. cbn [e_rec e_queue].
  eapply (view_replace n M _ nm e l1 ((e_rec e, r), js) l2 ((e_rec e, f r), js) n); try done.
  by apply holds_update.
Qed.

(** *** Queues *)
Lemma view_queue n M t nm e r js l1 l2 q js' jm n' :
  holds t (l1 ++ ((e_rec e, r), js) :: l2) → M !! nm = Some e → e_offset e = offset r →
  (∀ m, M !! m = lookup_sym ty m (l1 ++ ((e_rec e, r), js) :: l2)) →
  find (λ y, sym_is ty nm y.1.2) (l1 ++ ((e_rec e, r), js) :: l2) = Some ((e_rec e, r), js) →
  Forall (λ y : symj, sym_is ty nm y.1.2 = false) l1 → sym_is ty nm r = true →
  (length (l1 ++ ((e_rec e, r), js) :: l2) + length (concat (l1 ++ ((e_rec e, r), js) :: l2).*2) ≤ n)%nat →
  jumps_at jm (l1 ++ ((e_rec e, set_jlist q r), js') :: l2) → store_ok jm → (length js' + n ≤ length js + n')%nat →
  view ty n' (with_queue (e_rec e) (set_jlist q r) jm t) (<[nm := mkEntry (e_rec e) (e_offset e) (jump_of <$> js')]> M).
Proof.
  intros Hh He Ho HM Hf Hl1 Hx Hn Hj Hok Hle. rewrite Ho.
  change (mkEntry _ _ _) with (entry_of ((e_rec e, set_jlist q r), js')).
  eapply (view_replace n M _ nm e l1 ((e_rec e, r), js) l2); try done.
  by apply holds_queue with (r := r) (js := js).
Qed.

Lemma view_jmp_clear n t M nm e fuel :
  view ty n t M → M !! nm = Some e → (n < fuel)%nat →
  ∃ t', st_jmp_clear fuel (e_rec e) t = Ret t' ∧ view ty n t' (<[nm := mkEntry (e_rec e) (e_offset e) []]> M).
Proof.
  intros Hv He Hfu. destruct (view_split _ _ _ _ _ Hv He) as (l1 & r & js & l2 & Hh & Ee & Hn & HM & Hf & Hl1 & Hx & Hc & Hj).
  assert (length js ≤ n)%nat by (rewrite fmap_app, concat_app, !length_app in Hn; cbn in Hn; rewrite length_app in Hn; lia).
  destruct (jmp_clear_core t l1 (e_rec e) r js l2 fuel Hc (h_jumps _ _ Hh) (h_jmps _ _ Hh)) as (jm & E & Hok & Hjs); [lia|].
  eexists. split; [exact E|]. change (<[nm := _]> M) with (<[nm := mkEntry (e_rec e) (e_offset e) (jump_of <$> [])]> M).
  eapply (view_queue n M t nm e r js l1 l2 None [] jm n); try done; [by rewrite Ee|cbn; lia].
Qed.

Lemma view_jmp_add n t M nm e op off fuel :
  view ty n t M → M !! nm = Some e → (n < fuel)%nat →
  ∃ t' a, st_jmp_add fuel (e_rec e) op off t = Ret (t', a) ∧
    view ty (S n) t' (<[nm := mkEntry (e_rec e) (e_offset e) (e_queue e ++ [(op, off)])]> M).
Proof.
  intros Hv He Hfu. destruct (view_split _ _ _ _ _ Hv He) as (l1 & r & js & l2 & Hh & Ee & Hn & HM & Hf & Hl1 & Hx & Hc & Hj).
  assert (length js ≤ n)%nat by (rewrite fmap_app, concat_app, !length_app in Hn; cbn in Hn; rewrite length_app in Hn; lia).
  destruct (jmp_add_core t l1 (e_rec e) r js l2 op off fuel Hc (h_jumps _ _ Hh) (h_jmps _ _ Hh))
    as (q & js' & jm & b & E & Hok & Hjs & Hq & Hlen); [lia|].
  eexists _, b. split; [exact E|]. replace (e_queue e ++ [(op, off)]) with (jump_of <$> js') by (rewrite Hq; by rewrite Ee).
  eapply (view_queue n M t nm e r js l1 l2 q js' jm (S n)); try done; [by rewrite Ee|lia].
Qed.

(** *** Insertion *)
Lemma zip_fst {A B} (l : list A) (k : list B) : length l = length k → (zip l k).*1 = l.
Proof. intros H. apply fst_zip. lia. Qed.

Lemma zip_snd {A B} (l : list A) (k : list B) : length l = length k → (zip l k).*2 = k.
Proof. intros H. apply snd_zip. lia. Qed.

Lemma stripj_zip (l : list symj) : stripj <$> l = zip (strip <$> l.*1) l.*2.
Proof. induction l as [|[x js] l IH]; cbn; [done|]. by rewrite IH. Qed.

Lemma holds_insert t l ty' nm off fuel :
  holds t l → (length l < fuel)%nat →
  ∃ t' l', st_sym_insert_s fuel ty' nm (Z.of_nat (length nm)) off t = Ret (t', brk (syms t)) ∧ holds t' l' ∧
    stripj <$> l' = (stripj <$> l) ++ [((brk (syms t), new_sym ty' nm off), [])].
Proof.
  intros H Hf. pose proof (holds_tab _ _ H) as Htab.
  destruct (insert_tab t _ ty' nm off fuel Htab) as (t' & Hi & [(k & Hk & Hks) Hok] & _ & Hj & _).
  { by rewrite !length_fmap. }
  assert (Hlen : length k = S (length l)).
  { apply (f_equal length) in Hks. rewrite length_app, !length_fmap in Hks. cbn in Hks. lia. }
  set (l' := zip k (l.*2 ++ [[]])).
  assert (Hl1 : l'.*1 = k) by (apply zip_fst; rewrite length_app, length_fmap; cbn; lia).
  assert (Hl2 : l'.*2 = l.*2 ++ [[]]) by (apply zip_snd; rewrite length_app, length_fmap; cbn; lia).
  assert (Hst : stripj <$> l' = (stripj <$> l) ++ [((brk (syms t), new_sym ty' nm off), [])]).
  { rewrite stripj_zip, Hl1, Hl2, Hks. rewrite zip_with_app by (by rewrite !length_fmap). by rewrite <-stripj_zip. }
  exists t', l'. split; [done|]. split; [|done]. destruct H as [_ [Hj1 Hj2] _ Hjm Hn]. split.
  - by rewrite Hl1.
  - rewrite Hj. apply (jumps_at_shape _ (l ++ [((brk (syms t), new_sym ty' nm off), [])])).
    + unfold same_shape. by rewrite fmap_app.
    + split; [|by rewrite fmap_app, concat_app, app_nil_r]. apply Forall_app. split; [done|].
      apply Forall_cons. split; [constructor|by apply Forall_nil].
  - done.
  - by rewrite Hj.
  - apply (Forall_fmap stripj (λ x, named x.1.2)). 
    + rewrite Hst. apply Forall_app. split; [by apply (Forall_fmap stripj (λ x, named x.1.2))|].
      apply Forall_cons. split; [apply new_sym_named|by apply Forall_nil].
Qed.

Lemma strip_snoc_size (l l' : list symj) x n :
  stripj <$> l' = (stripj <$> l) ++ [(x, [])] → (length l + length (concat l.*2) ≤ n)%nat →
  (length l' + length (concat l'.*2) ≤ S n)%nat.
Proof.
  intros Hst Hn. pose proof (f_equal length Hst) as Hlen. rewrite length_app, !length_fmap in Hlen. cbn in Hlen.
  pose proof (f_equal (λ k, length (concat k.*2)) Hst) as Hlen2. cbn in Hlen2.
  rewrite fmap_app, concat_app, length_app in Hlen2. cbn in Hlen2.
  rewrite !stripj_zip, !zip_snd in Hlen2 by (by rewrite !length_fmap). lia.
Qed.

Lemma view_insert n t M nm off cstr fuel :
  view ty n t M → M !! nm = None → sym_is ty nm (new_sym ty nm off) = true →
  c_string cstr = Some nm → Z.of_nat (length nm) < 65536 → (n < fuel)%nat →
  ∃ t' a, st_sym_insert fuel ty cstr off t = Ret (t', a) ∧ view ty (S n) t' (<[nm := mkEntry a off []]> M).
Proof.
  intros (l & H & Hn & HM) He Hs Hc Hl Hf. unfold st_sym_insert. rewrite Hc. res_cbn.
  rewrite u16_id by (unfold is_u16; lia).
  destruct (holds_insert t l ty nm off fuel H) as (t' & l' & Hi & H' & Hst); [lia|].
  exists t', (brk (syms t)). split; [done|]. exists l'. split; [done|]. split.
  - by eapply strip_snoc_size.
  - intros m. rewrite <-(lookup_sym_strip ty m l'), Hst. unfold lookup_sym in *.
    assert (E : entry_of <$> find (λ x : symj, sym_is ty m x.1.2) (stripj <$> l) = M !! m).
    { rewrite HM. apply lookup_sym_strip. }
    destruct (decide (m = nm)) as [->|Hm].
    + rewrite lookup_insert_eq. rewrite He in E. rewrite find_app_skip; [by cbn; rewrite Hs|].
      apply Forall_forall. intros x Hx. destruct (sym_is ty nm x.1.2) eqn:Ex; [|done].
      apply list_elem_of_In in Hx. destruct (find _ _) eqn:Ef; [done|].
      pose proof (find_none _ _ Ef _ Hx) as Hx'. cbn in Hx'. congruence.
    + rewrite lookup_insert_ne by done. rewrite <-E. clear -Hm.
      induction (stripj <$> l) as [|x k IH]; cbn.
      * destruct (sym_is ty m (new_sym ty nm off)) eqn:Es; [|done]. apply sym_is_name in Es. cbn in Es. congruence.
      * by destruct (sym_is ty m x.1.2).
Qed.
End view.

(** ** Symbols by address

    Code that has a pointer to a symbol needs no lookup by name. [symbols n t T]:
    the symbols of the table [t] are the map [T] of addresses; [n] bounds the
    symbols and jumps of the table, as in [view]. *)
Record info := mkInfo { i_type : Z; i_name : list Z; i_offset : Z; i_queue : list (Z * Z) }.

Definition info_of (x : symj) : info := mkInfo (type x.1.2) (name x.1.2) (offset x.1.2) (jump_of <$> x.2).

Definition find_sym (a : Z) (l : list symj) : option symj := find (λ x, bool_decide (x.1.1 = a)) l.

Definition symbols (n : nat) (t : table) (T : gmap Z info) : Prop :=
  ∃ l, holds t l ∧ (length l + length (concat l.*2) ≤ n)%nat ∧ ∀ a, T !! a = info_of <$> find_sym a l.

Definition set_queue (q : list (Z * Z)) (i : info) : info := mkInfo (i_type i) (i_name i) (i_offset i) q.

Lemma symbols_mono n n' t T : symbols n t T → (n ≤ n')%nat → symbols n' t T.
Proof. intros (l & H & Hn & HT) Hle. exists l. split; [done|]. split; [lia|done]. Qed.

Lemma symbols_split n t T a i :
  symbols n t T → T !! a = Some i →
  ∃ l1 r js l2, holds t (l1 ++ ((a, r), js) :: l2) ∧ i = info_of ((a, r), js) ∧
    (length (l1 ++ ((a, r), js) :: l2) + length (concat (l1 ++ ((a, r), js) :: l2).*2) ≤ n)%nat ∧
    (∀ b, T !! b = info_of <$> find_sym b (l1 ++ ((a, r), js) :: l2)) ∧ a ∉ l1.*1.*1 ∧
    cells (syms t) !! a = Some r ∧ named r.
Proof.
  intros (l & H & Hn & HT) Ha. pose proof Ha as Ha'. rewrite HT in Ha. unfold find_sym in Ha.
  destruct (find _ l) as [[[a' r] js]|] eqn:Ef; [|done]. cbn in Ha. injection Ha as <-.
  apply find_split in Ef as (l1 & l2 & -> & Hx & Hl1). apply bool_decide_eq_true in Hx. cbn in Hx. subst a'.
  exists l1, r, js, l2. do 4 (split; [done|]). split; [|split].
  - intros (x & -> & (y & -> & Hy)%list_elem_of_fmap)%list_elem_of_fmap. rewrite Forall_forall in Hl1.
    specialize (Hl1 y Hy). by rewrite bool_decide_true in Hl1.
  - eapply lseg_lookup; [exact (h_lseg _ _ H)|]. rewrite fmap_app. cbn. set_solver.
  - pose proof (h_named _ _ H) as Hnm. apply Forall_app in Hnm as [_ Hnm]. by apply Forall_cons in Hnm as [Hnm _].
Qed.

Lemma symbols_lookup n t T a i :
  symbols n t T → T !! a = Some i →
  ∃ r, cells (syms t) !! a = Some r ∧ named r ∧ name r = i_name i ∧ offset r = i_offset i ∧ type r = i_type i.
Proof.
  intros H Ha. destruct (symbols_split _ _ _ _ _ H Ha) as (l1 & r & js & l2 & _ & -> & _ & _ & _ & Hr & Hn). by exists r.
Qed.

(** The address of a symbol of the table is found at one place. *)
Lemma find_sym_mid a b l1 x x' l2 :
  x.1.1 = a → x'.1.1 = a → a ∉ l1.*1.*1 →
  find_sym b (l1 ++ x' :: l2) = if decide (b = a) then Some x' else find_sym b (l1 ++ x :: l2).
Proof.
  intros Hx Hx' Ha. unfold find_sym. induction l1 as [|y l1 IH]; cbn.
  - rewrite Hx, Hx'. case_decide as Hb; [by rewrite bool_decide_true|]. by rewrite !bool_decide_false by done.
  - cbn in Ha. apply not_elem_of_cons in Ha as [Hy Ha]. rewrite (IH Ha). case_decide as Hb; [|done].
    subst b. by rewrite bool_decide_false by done.
Qed.

Lemma symbols_replace n T a l1 x x' l2 t' n' :
  (∀ b, T !! b = info_of <$> find_sym b (l1 ++ x :: l2)) → a ∉ l1.*1.*1 → x.1.1 = a → x'.1.1 = a →
  holds t' (l1 ++ x' :: l2) → (length (l1 ++ x :: l2) + length (concat (l1 ++ x :: l2).*2) ≤ n)%nat →
  (length x'.2 + n ≤ length x.2 + n')%nat →
  symbols n' t' (<[a := info_of x']> T).
Proof.
  intros HT Ha Hx Hx' Hh Hle Hle'. exists (l1 ++ x' :: l2). split; [done|]. split.
  - rewrite !fmap_app, !concat_app, !length_app in Hle |- *. cbn in Hle |- *. rewrite !length_app in Hle |- *. lia.
  - intros b. rewrite (find_sym_mid a b l1 x x' l2) by done. case_decide as Hb.
    + subst b. by rewrite lookup_insert_eq.
    + rewrite lookup_insert_ne by done. apply HT.
Qed.

Lemma symbols_jmp_add n t T a i op off fuel :
  symbols n t T → T !! a = Some i → (n < fuel)%nat →
  ∃ t' b, st_jmp_add fuel a op off t = Ret (t', b) ∧
    symbols (S n) t' (<[a := set_queue (i_queue i ++ [(op, off)]) i]> T).
Proof.
  intros H Ha Hf. destruct (symbols_split _ _ _ _ _ H Ha) as (l1 & r & js & l2 & Hh & -> & Hn & HT & Hl1 & Hr & _).
  assert (length js ≤ n)%nat by (rewrite fmap_app, concat_app, !length_app in Hn; cbn in Hn; rewrite length_app in Hn; lia).
  destruct (jmp_add_core t l1 a r js l2 op off fuel Hr (h_jumps _ _ Hh) (h_jmps _ _ Hh))
    as (q & js' & jm & b & E & Hok & Hjs & Hq & Hlen); [lia|].
  eexists _, b. split; [exact E|].
  replace (set_queue _ _) with (info_of ((a, set_jlist q r), js')) by (unfold info_of, set_queue; cbn; by rewrite Hq).
  eapply (symbols_replace n T a l1 ((a, r), js)); try done; [by eapply holds_queue|cbn; lia].
Qed.

Lemma symbols_jmp_clear n t T a i fuel :
  symbols n t T → T !! a = Some i → (n < fuel)%nat →
  ∃ t', st_jmp_clear fuel a t = Ret t' ∧ symbols n t' (<[a := set_queue [] i]> T).
Proof.
  intros H Ha Hf. destruct (symbols_split _ _ _ _ _ H Ha) as (l1 & r & js & l2 & Hh & -> & Hn & HT & Hl1 & Hr & _).
  assert (length js ≤ n)%nat by (rewrite fmap_app, concat_app, !length_app in Hn; cbn in Hn; rewrite length_app in Hn; lia).
  destruct (jmp_clear_core t l1 a r js l2 fuel Hr (h_jumps _ _ Hh) (h_jmps _ _ Hh)) as (jm & E & Hok & Hjs); [lia|].
  eexists. split; [exact E|]. change (set_queue [] _) with (info_of ((a, set_jlist None r), [])).
  eapply (symbols_replace n T a l1 ((a, r), js)); try done; [by eapply holds_queue|cbn; lia].
Qed.

Lemma symbols_update n t T a i r f :
  symbols n t T → T !! a = Some i → keeps f → cells (syms t) !! a = Some r →
  symbols n (set_syms (set_cells (<[a := f r]> (cells (syms t))) (syms t)) t)
    (<[a := mkInfo (i_type i) (i_name i) (offset (f r)) (i_queue i)]> T).
Proof.
  intros H Ha Hk Hr. destruct (symbols_split _ _ _ _ _ H Ha) as (l1 & r' & js & l2 & Hh & -> & Hn & HT & Hl1 & Hr' & _).
  rewrite Hr in Hr'. injection Hr' as <-. destruct (Hk r) as (_ & _ & Hk3 & Hk4 & _).
  replace (mkInfo _ _ _ _) with (info_of ((a, f r), js)) by (unfold info_of; cbn; by rewrite Hk3, Hk4).
  eapply (symbols_replace n T a l1 ((a, r), js)); try done. by apply holds_update.
Qed.

Lemma find_sym_strip a (l : list symj) : info_of <$> find_sym a (stripj <$> l) = info_of <$> find_sym a l.
Proof.
  unfold find_sym. induction l as [|x l IH]; cbn; [done|]. change (stripj x).1.1 with x.1.1 in IH |- *.
  cbn. destruct (bool_decide _); [done|exact IH].
Qed.

Lemma symbols_insert_s n t T ty nm off fuel :
  symbols n t T → (n < fuel)%nat →
  ∃ t' a, st_sym_insert_s fuel ty nm (Z.of_nat (length nm)) off t = Ret (t', a) ∧
    symbols (S n) t' (<[a := mkInfo ty nm off []]> T) ∧ T !! a = None.
Proof.
  intros (l & H & Hn & HT) Hf.
  destruct (holds_insert t l ty nm off fuel H) as (t' & l' & Hi & H' & Hst); [lia|].
  assert (Hnew : T !! brk (syms t) = None).
  { rewrite HT. unfold find_sym. destruct (find _ l) as [x|] eqn:Ef; [|done]. exfalso.
    apply find_some in Ef as [Hx Ha]. apply bool_decide_eq_true in Ha. apply list_elem_of_In in Hx.
    assert (x.1.1 < brk (syms t)); [|lia]. eapply lseg_below; [exact (h_syms _ _ H)|exact (h_lseg _ _ H)|].
    apply list_elem_of_fmap. exists x.1. split; [done|]. apply list_elem_of_fmap. by exists x. }
  exists t', (brk (syms t)). split; [done|]. split; [|done]. exists l'. split; [done|]. split.
  - by eapply strip_snoc_size.
  - intros b. rewrite <-(find_sym_strip b l'), Hst. rewrite (lookup_insert T), HT. rewrite <-(find_sym_strip b l).
    assert (Hnone : brk (syms t) = b → find_sym b (stripj <$> l) = None).
    { intros <-. rewrite HT, <-find_sym_strip in Hnew. by destruct (find_sym _ (stripj <$> l)). }
    unfold find_sym in *. clear -Hnone. induction (stripj <$> l) as [|x k IH]; cbn in *.
    + case_decide as Hb; [by rewrite bool_decide_true|by rewrite bool_decide_false].
    + case_bool_decide as Hx; [|by apply IH]. case_decide as Hb; [|done]. by specialize (Hnone Hb).
Qed.

Lemma symbols_insert n t T ty nm off cstr fuel :
  symbols n t T → c_string cstr = Some nm → Z.of_nat (length nm) < 65536 → (n < fuel)%nat →
  ∃ t' a, st_sym_insert fuel ty cstr off t = Ret (t', a) ∧ symbols (S n) t' (<[a := mkInfo ty nm off []]> T) ∧ T !! a = None.
Proof.
  intros H Hc Hl Hf. unfold st_sym_insert. rewrite Hc. res_cbn. rewrite u16_id by (unfold is_u16; lia). by apply symbols_insert_s.
Qed.

(** what a search by name finds *)
Definition info_is (ty : Z) (nm : list Z) (i : info) : bool :=
  negb (Z.land (Z.land (i_type i) 0x7F) (Z.land ty 0x7F) =? 0) && bool_decide (i_name i = nm).

Lemma find_sym_in (l : list symj) x : NoDup (l.*1.*1) → x ∈ l → find_sym x.1.1 l = Some x.
Proof.
  unfold find_sym. intros Hd Hx. induction Hx as [x l|x y l Hx IH]; cbn in *.
  - by rewrite bool_decide_true.
  - apply NoDup_cons in Hd as [Hy Hd]. rewrite bool_decide_false; [by apply IH|]. intros E. apply Hy. rewrite E.
    apply list_elem_of_fmap. exists x.1. split; [done|]. apply list_elem_of_fmap. by exists x.
Qed.

Lemma symbols_select_s n t T ty nm fuel :
  symbols n t T → (n < fuel)%nat →
  ∃ o, st_sym_select_s fuel ty nm (Z.of_nat (length nm)) t = Ret o ∧
    match o with
    | Some a => ∃ i, T !! a = Some i ∧ info_is ty nm i = true
    | None => ∀ a i, T !! a = Some i → info_is ty nm i = false
    end.
Proof.
  intros (l & H & Hn & HT) Hf. exists ((λ x : symj, x.1.1) <$> find (λ x, sym_is ty nm x.1.2) l). split.
  - rewrite (select_tab t (strip <$> l.*1)).
    + f_equal. rewrite find_strip. clear. induction l as [|x l IH]; cbn; [done|]. by destruct (sym_is ty nm x.1.2).
    + by apply holds_tab.
    + apply (Forall_fmap strip (λ x, named x.2)), (Forall_fmap fst (λ x, named (strip x).2)).
      eapply Forall_impl; [exact (h_named _ _ H)|]. by intros [[a r] js].
    + rewrite !length_fmap. lia.
  - destruct (find _ l) as [x|] eqn:Ef; cbn.
    + apply find_some in Ef as [Hx Hs]. apply list_elem_of_In in Hx. exists (info_of x). split; [|exact Hs].
      rewrite HT, find_sym_in; [done| |done]. eapply lseg_nodup, (h_lseg _ _ H).
    + intros a i Hi. rewrite HT in Hi. destruct (find_sym a l) as [x|] eqn:Ea; [|done]. injection Hi as <-.
      apply find_some in Ea as [Hx _]. exact (find_none _ _ Ef _ Hx).
Qed.

Lemma symbols_select n t T ty nm cstr fuel :
  symbols n t T → c_string cstr = Some nm → Z.of_nat (length nm) < 65536 → (n < fuel)%nat →
  ∃ o, st_sym_select fuel ty cstr t = Ret o ∧ match o with Some a => is_Some (T !! a) | None => True end.
Proof.
  intros (l & H & Hn & HT) Hc Hl Hf. rewrite (holds_select ty t l nm) by (done || lia). eexists. split; [done|].
  destruct (find _ l) as [x|] eqn:Ef; [|done]. cbn. rewrite HT. apply find_some in Ef as [Hx _].
  unfold find_sym. destruct (find _ l) eqn:Ea; [by eexists|]. pose proof (find_none _ _ Ea _ Hx) as Hd. cbn in Hd.
  by rewrite bool_decide_true in Hd.
Qed.
