(* ===== verification/Sem.v ===== *)
(** * Semantic actions: names, labels and jumps (StackLib/Stack/sem_proto.c)

    The generated parser calls these functions while it reads the source. They
    keep names in the symbol table and write code at [_current_offset] through
    the streamer. A jump to a label that is not defined yet is emitted with the
    offset SYM_UNDEFINED and waits in the label's queue; when the label is
    defined every waiting jump is emitted again over itself. The main theorem
    says that this gives the code a two-pass assembler would.

    The globals of sem_proto.c are the record [sem]; a function is a [sm], a
    computation that reads and changes them. Scopes (Scope.v) and functions
    (Func.v) build on this file. *)
From S2P Require Import Prelude Decimal Isa Streamer Links SymTable Labels.

Definition SYM_UNDEFINED : Z := 0xFFFFFFFF.
Definition SEM_MAX_STACK : nat := 256.
Definition LAMBDA_DEPTH : nat := 32.

(** ** State *)

(** [lambda_context] *)
Record lambda_context := mkLambda { l_cntr : Z; l_func : option Z; l_exit : option Z }.

(** The [rec] field of [ins_node]: a symbol, a number cast to a pointer (the
    number of a system call), or NULL. *)
Inductive node_arg := NSym (a : Z) | NNum (z : Z) | NNull.

(** [ins_node]; [size] is never used *)
Record ins_node := mkNode { n_next : option Z; n_ins : Z; n_rec : node_arg; scope_var : option Z }.

#[export] Instance ins_node_node : Node ins_node := {
  nx := n_next;
  set_nx q n := mkNode q (n_ins n) (n_rec n) (scope_var n);
  nx_set_nx _ _ := eq_refl;
}.

(** [var_context] *)
Record var_context := mkVarctx { operation : Z; var : node_arg }.

(** What [sp_error] is called with: the message and its argument. *)
Inductive sp_err :=
  | ERR_MULTI_LABEL | ERR_UNDEF_VARIABLE | ERR_MULTI_FUNCTION | ERR_LESS_ARGUMENTS | ERR_OVER_ARGUMENTS
  | ERR_UNDEF_CLASS.

(** The expression being translated: [ins_node]s in a store, the stack of
    scopes, the stacks of postponed operations and of variables, and the saved
    stacks of the enclosing expressions. A stack is a list, its top first. *)
Record exprs := mkExprs {
  inodes : store ins_node; inode_stack : list (option Z);
  op_stack : list Z; varctx_stack : list var_context;
  scope_stack : list (list Z * list var_context);
  method_scope : list (option Z) }.

(** The globals of sem_proto.c. *)
Record sem := mkSem {
  stream : istream; symtab : table; current_offset : Z;
  label_index : Z; context_cntr : Z;
  current_function : option Z; end_function_body : option Z; skip_function_body : option Z;
  lambda_stack : list lambda_context;
  offstack : list Z; rec_stack : list (option Z); rec_queue : list (option Z); loop_stack : list Z;
  expr : exprs;
  errors : list (sp_err * list Z) }.

Definition set_stream x s := mkSem x (symtab s) (current_offset s) (label_index s) (context_cntr s)
  (current_function s) (end_function_body s) (skip_function_body s) (lambda_stack s) (offstack s) (rec_stack s)
  (rec_queue s) (loop_stack s) (expr s) (errors s).
Definition set_symtab x s := mkSem (stream s) x (current_offset s) (label_index s) (context_cntr s)
  (current_function s) (end_function_body s) (skip_function_body s) (lambda_stack s) (offstack s) (rec_stack s)
  (rec_queue s) (loop_stack s) (expr s) (errors s).
Definition set_offset x s := mkSem (stream s) (symtab s) x (label_index s) (context_cntr s)
  (current_function s) (end_function_body s) (skip_function_body s) (lambda_stack s) (offstack s) (rec_stack s)
  (rec_queue s) (loop_stack s) (expr s) (errors s).
Definition set_counters x y s := mkSem (stream s) (symtab s) (current_offset s) x y
  (current_function s) (end_function_body s) (skip_function_body s) (lambda_stack s) (offstack s) (rec_stack s)
  (rec_queue s) (loop_stack s) (expr s) (errors s).
Definition set_function f e k s := mkSem (stream s) (symtab s) (current_offset s) (label_index s) (context_cntr s)
  f e k (lambda_stack s) (offstack s) (rec_stack s) (rec_queue s) (loop_stack s) (expr s) (errors s).
Definition set_lambdas x s := mkSem (stream s) (symtab s) (current_offset s) (label_index s) (context_cntr s)
  (current_function s) (end_function_body s) (skip_function_body s) x (offstack s) (rec_stack s)
  (rec_queue s) (loop_stack s) (expr s) (errors s).
Definition set_recs o r q s := mkSem (stream s) (symtab s) (current_offset s) (label_index s) (context_cntr s)
  (current_function s) (end_function_body s) (skip_function_body s) (lambda_stack s) o r q (loop_stack s) (expr s)
  (errors s).
Definition set_loops x s := mkSem (stream s) (symtab s) (current_offset s) (label_index s) (context_cntr s)
  (current_function s) (end_function_body s) (skip_function_body s) (lambda_stack s) (offstack s) (rec_stack s)
  (rec_queue s) x (expr s) (errors s).
Definition set_expr x s := mkSem (stream s) (symtab s) (current_offset s) (label_index s) (context_cntr s)
  (current_function s) (end_function_body s) (skip_function_body s) (lambda_stack s) (offstack s) (rec_stack s)
  (rec_queue s) (loop_stack s) x (errors s).
Definition set_errors x s := mkSem (stream s) (symtab s) (current_offset s) (label_index s) (context_cntr s)
  (current_function s) (end_function_body s) (skip_function_body s) (lambda_stack s) (offstack s) (rec_stack s)
  (rec_queue s) (loop_stack s) (expr s) x.

(** ** Computations on the state *)
Definition sm (A : Type) : Type := sem → res (sem * A).

#[export] Instance sm_ret : MRet sm := λ A a s, Ret (s, a).
#[export] Instance sm_bind : MBind sm := λ A B f m s,
  match m s with
  | Ret x => f x.2 x.1
  | Undef => Undef
  | Timeout => Timeout
  end.

Definition gets {A} (f : sem → A) : sm A := λ s, Ret (s, f s).
Definition modify (f : sem → sem) : sm unit := λ s, Ret (f s, tt).
Definition lift {A} (m : res A) : sm A := λ s, x ← m; Ret (s, x).

(** an operation of the symbol table *)
Definition on_tab {A} (f : table → res (table * A)) : sm A :=
  λ s, r ← f (symtab s); Ret (set_symtab r.1 s, r.2).
Definition on_tab_ (f : table → res table) : sm unit :=
  λ s, t ← f (symtab s); Ret (set_symtab t s, tt).

Definition sp_error (e : sp_err) (n : list Z) : sm unit := modify (λ s, set_errors (errors s ++ [(e, n)]) s).

(** a symbol through its pointer; [NULL->...] is undefined *)
Definition sym (a : Z) : sm symrec := λ s, r ← deref (syms (symtab s)) a; Ret (s, r).
Definition set_sym (a : Z) (f : symrec → symrec) : sm unit :=
  on_tab_ (λ t, s ← upd a f (syms t); Ret (set_syms s t)).

Definition set_soffset (o : Z) (r : symrec) : symrec :=
  mkSym (parent r) (s_next r) (type r) (slength r) o (jlist r) (pcount r) (ptotal r) (sa_currec r) (name r) (room r).

(** the C string in a symbol's name *)
Definition cname (r : symrec) : res (list Z) :=
  guardb (Z.of_nat (length (name r)) <? room r) ≫= λ _, from_option_ub (c_string (name r ++ [0])).

Fixpoint to_string (l : list Z) : string :=
  match l with
  | [] => EmptyString
  | c :: l' => String (Ascii.ascii_of_N (Z.to_N c)) (to_string l')
  end.

(** [sprintf(buffer, "...", ...)] into [n] bytes: the text must fit *)
Definition sprintf (n : Z) (text : list Z) : sm (list Z) :=
  lift (guardb (Z.of_nat (length text) <? n) ≫= λ _, Ret (text ++ [0])).

(** repeat [body] as long as it says so *)
Definition while_step (body : sm bool) (s : sem) : res (sem + sem) :=
  match body s with
  | Ret x => Ret (if (x.2 : bool) then inl x.1 else inr x.1)
  | Undef => Undef
  | Timeout => Timeout
  end.

Definition sm_while (fuel : nat) (body : sm bool) : sm unit :=
  λ s, match loop fuel (while_step body) s with
       | Ret s' => Ret (s', tt)
       | Undef => Undef
       | Timeout => Timeout
       end.

(** ** Emission *)
Definition gencode (off op : Z) (a : genarg) : sm Z :=
  λ s, g ← is_gencode off op a (stream s); Ret (set_stream g.1 s, g.2).

(** the variadic argument of [is_gencode]: a symbol *)
Definition rec_arg (a : Z) : sm genarg := r ← sym a; n ← lift (cname r); mret (GRec (offset r) (to_string n)).

(** [is_gencode(off, op, rec)] *)
Definition gen_sym (off op a : Z) : sm Z := x ← rec_arg a; gencode off op x.

(** [_current_offset += is_gencode(_current_offset, op, ...)] *)
Definition advance_ (m : Z → sm Z) : sm unit :=
  o ← gets current_offset; n ← m o; modify (λ s, set_offset (u64 (o + n)) s).

Section actions.
Context (fuel : nat).

Definition st_select (ty : Z) (cstr : list Z) : sm (option Z) :=
  λ s, r ← st_sym_select fuel ty cstr (symtab s); Ret (s, r).
Definition st_select_s (ty : Z) (nm : list Z) (len : Z) : sm (option Z) :=
  λ s, r ← st_sym_select_s fuel ty nm len (symtab s); Ret (s, r).
Definition st_insert (ty : Z) (cstr : list Z) (off : Z) : sm Z := on_tab (st_sym_insert fuel ty cstr off).
Definition jmp_add (a op off : Z) : sm Z := on_tab (st_jmp_add fuel a op off).

(** [while(itr != NULL) is_gencode(itr->offset, itr->ins, rec)] *)
Definition patch_step (a : Z) (x : option Z * sem) : res (option Z * sem + sem) :=
  match x.1 with
  | None => Ret (inr x.2)
  | Some i =>
      j ← deref (jmps (symtab x.2)) i;
      y ← gen_sym (j_offset j) (ins j) a x.2;
      Ret (inl (j_next j, y.1))
  end.

Definition patch_queue (a : Z) : sm unit :=
  λ s, r ← deref (syms (symtab s)) a; s' ← loop fuel (patch_step a) (jlist r, s); Ret (s', tt).

(** ** Labels and jumps *)
Definition sp_create_label (prefix : list Z) : sm Z :=
  i ← gets label_index;
  lblname ← sprintf 256 (prefix ++ print_int i);
  _ ← modify (λ s, set_counters (u64 (i + 1)) (context_cntr s) s);
  rec ← st_select SYM_TYPE_LABEL lblname;
  a ← match rec with Some a => mret a | None => st_insert SYM_TYPE_LABEL lblname SYM_UNDEFINED end;
  f ← gets current_function;
  _ ← set_sym a (set_parent f);
  mret a.

Definition sp_jump_to (ins : Z) (label : list Z) : sm Z :=
  rec ← st_select SYM_TYPE_LABEL label;
  a ← match rec with Some a => mret a | None => st_insert SYM_TYPE_LABEL label SYM_UNDEFINED end;
  r ← sym a;
  _ ← (if offset r =? SYM_UNDEFINED then
         o ← gets current_offset; _ ← jmp_add a ins o; mret tt
       else mret tt);
  _ ← advance_ (λ o, gen_sym o ins a);
  gets current_offset.

(** the second half of [sp_new_label] *)
Definition define_label (a : Z) : sm Z :=
  f ← gets current_function;
  _ ← set_sym a (set_parent f);
  _ ← advance_ (λ o, gen_sym o INS_LBL a);
  _ ← patch_queue a;
  _ ← on_tab_ (st_jmp_clear fuel a);
  gets current_offset.

Definition sp_new_label (label : list Z) : sm Z :=
  rec ← st_select SYM_TYPE_LABEL label;
  o ← gets current_offset;
  match rec with
  | Some a =>
      r ← sym a;
      if offset r =? SYM_UNDEFINED then _ ← set_sym a (set_soffset o); define_label a
      else
        n ← lift (from_option_ub (c_string label));
        _ ← sp_error ERR_MULTI_LABEL n; gets current_offset
  | None => a ← st_insert SYM_TYPE_LABEL label o; define_label a
  end.

(** the C string a symbol's [name] points to *)
Definition label_name (a : Z) : sm (list Z) := r ← sym a; n ← lift (cname r); mret (n ++ [0]).

(** ** Loops *)
Definition sp_loop_stack_push (label : Z) : sm unit :=
  l ← gets loop_stack;
  _ ← lift (guardb (length l <? SEM_MAX_STACK)%nat); modify (set_loops (label :: l)).

Definition sp_loop_stack_peek : sm Z := l ← gets loop_stack; lift (from_option_ub (head l)).

Definition sp_loop_stack_pop : sm unit := modify (λ s, set_loops (tail (loop_stack s)) s).

(** the prefix __l *)
Definition LOOP_PREFIX : list Z := [95; 95; 108].

Definition sp_start_loop : sm Z :=
  a ← sp_create_label LOOP_PREFIX;
  n ← label_name a;
  _ ← sp_new_label n;
  _ ← sp_loop_stack_push a;
  mret a.

Definition sp_continue_loop : sm Z :=
  a ← sp_loop_stack_peek;
  n ← label_name a;
  o ← sp_jump_to INS_JMP n;
  _ ← modify (set_offset o);
  gets current_offset.

Definition sp_end_loop : sm Z :=
  a ← sp_loop_stack_peek;
  n ← label_name a;
  o ← sp_jump_to INS_JMP n;
  _ ← modify (set_offset o);
  _ ← sp_loop_stack_pop;
  gets current_offset.
End actions.

(** ** Evaluation *)
Lemma sm_bind_ret {A B} (m : sm A) (f : A → sm B) s s1 a : m s = Ret (s1, a) → (m ≫= f) s = f a s1.
Proof. intros H. unfold mbind, sm_bind. by rewrite H. Qed.

Lemma lift_ret {A} (m : res A) s a : m = Ret a → lift m s = Ret (s, a).
Proof. unfold lift. by intros ->. Qed.

Lemma on_tab_ret {A} (f : table → res (table * A)) s t a :
  f (symtab s) = Ret (t, a) → on_tab f s = Ret (set_symtab t s, a).
Proof. unfold on_tab. by intros ->. Qed.

Lemma on_tab_ret_ (f : table → res table) s t : f (symtab s) = Ret t → on_tab_ f s = Ret (set_symtab t s, tt).
Proof. unfold on_tab_. by intros ->. Qed.

(** run the first computation of a sequence: by a lemma, or one that only
    reads or writes a field *)
Lemma sm_bind_timeout {A B} (m : sm A) (f : A → sm B) s : m s = Timeout → (m ≫= f) s = Timeout.
Proof. intros H. unfold mbind, sm_bind. by rewrite H. Qed.

Ltac sm_by H := erewrite sm_bind_ret by (exact H || (eapply H; try done)); cbv beta iota.
Ltac sm_pure :=
  repeat (first [ erewrite (sm_bind_ret (gets _)) by reflexivity
                | erewrite (sm_bind_ret (modify _)) by reflexivity
                | erewrite (sm_bind_ret (mret _)) by reflexivity ]; cbv beta).

(** Only the stream, the table, the offset and the errors differ. *)
Definition frame (s0 s : sem) : Prop :=
  s = set_errors (errors s) (set_offset (current_offset s) (set_symtab (symtab s) (set_stream (stream s) s0))).

Lemma frame_refl s : frame s s.
Proof. by destruct s. Qed.

Lemma frame_trans s0 s1 s2 : frame s0 s1 → frame s1 s2 → frame s0 s2.
Proof. unfold frame. intros H1 H2. rewrite H2. rewrite H1 at 1. done. Qed.

Lemma frame_set x t o e s : frame s (set_errors e (set_offset o (set_symtab t (set_stream x s)))).
Proof. by destruct s. Qed.

Lemma sym_some a r s : cells (syms (symtab s)) !! a = Some r → sym a s = Ret (s, r).
Proof. intros H. unfold sym. by rewrite (deref_some _ _ _ H). Qed.

Lemma set_sym_some a r f s :
  cells (syms (symtab s)) !! a = Some r →
  set_sym a f s =
    Ret (set_symtab (set_syms (set_cells (<[a := f r]> (cells (syms (symtab s)))) (syms (symtab s))) (symtab s)) s, tt).
Proof. intros H. unfold set_sym. apply on_tab_ret_. by rewrite (upd_some _ _ _ _ H). Qed.

Lemma cname_named r : named r → Forall (λ c, c ≠ 0) (name r) → cname r = Ret (name r).
Proof.
  intros [Hl Hr] Hn. unfold cname. rewrite (proj2 (Z.ltb_lt _ _)) by lia. res_cbn. by rewrite c_string_nonzero.
Qed.

Lemma length_to_string l : String.length (to_string l) = length l.
Proof. induction l as [|c l IH]; cbn; [done|]. by rewrite IH. Qed.

(** the symbol as an argument of [is_gencode] *)
Lemma rec_arg_named a r s :
  cells (syms (symtab s)) !! a = Some r → named r → Forall (λ c, c ≠ 0) (name r) →
  rec_arg a s = Ret (s, GRec (offset r) (to_string (name r))).
Proof.
  intros Ha Hn H0. unfold rec_arg. sm_by (sym_some _ _ _ Ha).
  by sm_by (lift_ret (cname r) s _ (cname_named _ Hn H0)).
Qed.

Lemma gen_sym_some off op a r s x :
  cells (syms (symtab s)) !! a = Some r → named r → Forall (λ c, c ≠ 0) (name r) →
  is_gencode off op (GRec (offset r) (to_string (name r))) (stream s) = Ret x →
  gen_sym off op a s = Ret (set_stream x.1 s, x.2).
Proof.
  intros Ha Hn H0 Hg. unfold gen_sym. sm_by (rec_arg_named _ _ _ Ha Hn H0).
  unfold gencode. by rewrite Hg.
Qed.

Lemma advance_ret (m : Z → sm Z) s s1 n :
  m (current_offset s) s = Ret (s1, n) → advance_ m s = Ret (set_offset (u64 (current_offset s + n)) s1, tt).
Proof. intros H. unfold advance_. sm_pure. by sm_by H. Qed.

(** ** Emitting an instruction with a symbol *)
Lemma gencode_jump op o off nm st :
  instr_wf (I3 op 0) = true → 0 ≤ o → o + 3 ≤ MAX_BUFFER_SIZE →
  ∃ c', is_gencode o op (GRec off nm) st = Ret (gen_state c' (o + 3) st, 3) ∧
    patched (code st) c' o (encode (I3 op (u16 off))).
Proof.
  intros Hwf H0 Hm. pose proof (u16_range off) as Hu. assert (Hwf' : instr_wf (I3 op (u16 off)) = true).
  { cbn in *. apply andb_true_iff in Hwf as [-> _]. unfold u16b, is_u16 in *. cbn.
    by rewrite (proj2 (Z.leb_le _ _)), (proj2 (Z.ltb_lt _ _)) by lia. }
  destruct (gencode_instr st o (I3 op (u16 off)) (GRec (u16 off) nm)) as (c' & Hg & Hp);
    [done|apply arg_ok3|done|done|].
  exists c'. split; [|done]. change (isize (I3 op (u16 off))) with 3 in Hg. cbn [opcode_of] in Hg. rewrite <-Hg.
  pose proof (class_not_label _ Hwf') as Hl. unfold class_of in Hl. cbn [opcode_of] in Hl.
  unfold is_gencode, gen_ins. cbn [arg_index]. rewrite (u16_id (u16 off)) by done. by destruct (classify op).
Qed.

(** ** Names in the table *)
Lemma st_select_view fuel ty n s M nm :
  view ty n (symtab s) M → Forall (λ c, c ≠ 0) nm → Z.of_nat (length nm) < 65536 → (n < fuel)%nat →
  st_select fuel ty (nm ++ [0]) s = Ret (s, e_rec <$> M !! nm).
Proof.
  intros Hv Hn Hl Hf. unfold st_select. erewrite view_select; [done|exact Hv|by apply c_string_nonzero|done|done].
Qed.

Lemma set_symtab_id s : set_symtab (symtab s) s = s.
Proof. by destruct s. Qed.

(** [rec = st_sym_select(ty, nm); if(rec == NULL) rec = st_sym_insert(ty, nm, SYM_UNDEFINED);] *)
Lemma select_or_insert fuel ty n s M nm :
  view ty n (symtab s) M → Forall (λ c, c ≠ 0) nm → Z.of_nat (length nm) < 65536 → (n < fuel)%nat →
  sym_is ty nm (new_sym ty nm SYM_UNDEFINED) = true →
  ∃ t e, (∀ A (f : Z → sm A),
      (rec ← st_select fuel ty (nm ++ [0]);
       a ← match rec with Some a => mret a | None => st_insert fuel ty (nm ++ [0]) SYM_UNDEFINED end;
       f a) s = f (e_rec e) (set_symtab t s)) ∧
    view ty (S n) t (<[nm := e]> M) ∧
    match M !! nm with Some e0 => e = e0 | None => e_offset e = SYM_UNDEFINED ∧ e_queue e = [] end.
Proof.
  intros Hv Hn Hl Hf Hs. pose proof (st_select_view _ _ _ _ _ _ Hv Hn Hl Hf) as Hsel.
  destruct (M !! nm) as [e|] eqn:He; cbn [fmap option_fmap option_map] in Hsel.
  - exists (symtab s), e. rewrite insert_id by done. split; [|split; [|done]].
    + intros A f. sm_by Hsel. sm_pure. by rewrite set_symtab_id.
    + eapply view_mono; [exact Hv|lia].
  - destruct (view_insert ty n _ M nm SYM_UNDEFINED (nm ++ [0]) fuel Hv He Hs) as (t & a & Hi & Hv');
      [by apply c_string_nonzero|done|done|].
    exists t, (mkEntry a SYM_UNDEFINED []). split; [|by repeat split]. intros A f. sm_by Hsel.
    by sm_by (on_tab_ret (st_sym_insert fuel ty (nm ++ [0]) SYM_UNDEFINED) s t a Hi).
Qed.

(** ** Labels the compiler makes up *)
(** the labels with a number in the table have numbers below [i] *)
Definition numbered (i : Z) (M : gmap (list Z) entry) : Prop :=
  ∀ prefix k, Forall (λ c, ¬ is_digit c) prefix → 0 ≤ k < 2 ^ 31 → is_Some (M !! (prefix ++ print_int k)) → k < i.

(** C27: the labels the compiler makes up are new. As long as the numbered labels
    of the table have numbers below the counter, [sp_create_label] makes a
    symbol of a name the table does not have, without an address and without
    jumps, and keeps that invariant. *)
Theorem create_label_fresh fuel n s M prefix :
  view SYM_TYPE_LABEL n (symtab s) M → numbered (label_index s) M → 0 ≤ label_index s < 2 ^ 31 - 1 →
  Forall (λ c, ¬ is_digit c ∧ c ≠ 0) prefix → (length prefix < 200)%nat → (n < fuel)%nat →
  let nm := prefix ++ print_int (label_index s) in
  ∃ s' a, sp_create_label fuel prefix s = Ret (s', a) ∧ M !! nm = None ∧
    view SYM_TYPE_LABEL (S n) (symtab s') (<[nm := mkEntry a SYM_UNDEFINED []]> M) ∧
    label_index s' = label_index s + 1 ∧ numbered (label_index s') (<[nm := mkEntry a SYM_UNDEFINED []]> M) ∧
    stream s' = stream s ∧ current_offset s' = current_offset s.
Proof.
  intros Hv Hnum Hi Hp Hlen Hf nm. destruct (print_int_spec (label_index s)) as [Hd Hval]; [lia|].
  assert (Hpd : Forall (λ c, ¬ is_digit c) prefix) by (eapply Forall_impl; [exact Hp|]; by intros c []).
  assert (Hnz : Forall (λ c, c ≠ 0) nm).
  { apply Forall_app. split; [eapply Forall_impl; [exact Hp|]; by intros c []|].
    eapply Forall_impl; [exact Hd|]. unfold is_digit. intros c Hc. cbn in Hc. lia. }
  assert (Hl10 : (length (print_int (label_index s)) ≤ 10)%nat) by apply length_print_int_pos, Hi.
  assert (Hnl : (length nm < 210)%nat) by (unfold nm; rewrite length_app; lia).
  assert (HM : M !! nm = None).
  { destruct (M !! nm) eqn:E; [|done]. assert (label_index s < label_index s); [|lia].
    apply (Hnum prefix); [done|lia|]. by exists e. }
  unfold sp_create_label. sm_pure.
  rewrite (sm_bind_ret (sprintf 256 _) _ s s (nm ++ [0]))
    by (apply lift_ret; rewrite (proj2 (Z.ltb_lt _ _)) by (fold nm; lia); done). cbv beta. sm_pure.
  set (s1 := set_counters (u64 (label_index s + 1)) (context_cntr s) s).
  sm_by (st_select_view fuel _ _ s1 M nm Hv Hnz ltac:(lia) Hf). rewrite HM. cbn [fmap option_fmap option_map].
  destruct (view_insert SYM_TYPE_LABEL n (symtab s1) M nm SYM_UNDEFINED (nm ++ [0]) fuel Hv HM) as (t & a & Ht & Hv1);
    [unfold sym_is; cbn; by rewrite bool_decide_true|by apply c_string_nonzero|lia|done|].
  sm_by (on_tab_ret (st_sym_insert fuel SYM_TYPE_LABEL (nm ++ [0]) SYM_UNDEFINED) s1 t a Ht). sm_pure.
  destruct (view_found _ _ _ _ _ _ Hv1 ltac:(by apply lookup_insert_eq)) as (r & js & Hr & _ & Hro & _).
  cbn [e_rec e_offset] in Hr, Hro. set (f := set_parent (current_function (set_symtab t s1))).
  assert (Hk : keeps f) by by intros x.
  pose proof (view_update _ _ _ _ _ _ r f Hv1 ltac:(by apply lookup_insert_eq) Hk Hr) as Hv2.
  cbn [e_rec e_queue] in Hv2. rewrite insert_insert_eq in Hv2. unfold f in Hv2 at 2. cbn [offset set_parent] in Hv2.
  rewrite Hro in Hv2. sm_by (set_sym_some a r f (set_symtab t s1) Hr). eexists _, a. split; [done|].
  split; [done|]. split; [exact Hv2|]. split; [cbn; apply u64_id; lia|]. split; [|done].
  intros p' k Hp' Hk' [x Hx]. match goal with |- _ < ?i => change i with (u64 (label_index s + 1)) end.
  rewrite u64_id by lia.
  apply lookup_insert_Some in Hx as [[E _]|[_ Hx]].
  - assert (k = label_index s); [|lia]. destruct (print_int_spec k) as [Hdk Hvk]; [lia|].
    rewrite <-Hval, <-Hvk. f_equal. symmetry. by apply (digits_suffix prefix p').
  - assert (k < label_index s); [|lia]. apply (Hnum p'); [done|done|]. by exists x.
Qed.

(** the name [sp_create_label] prints *)
Lemma made_up_label prefix z :
  Forall (λ c, c ≠ 0) prefix → (length prefix < 200)%nat → 0 ≤ z < 2 ^ 31 - 1 →
  Forall (λ c, c ≠ 0) (prefix ++ print_int z) ∧ (length (prefix ++ print_int z) < 210)%nat.
Proof.
  intros Hp Hl Hz. destruct (print_int_spec z) as [Hd _]; [lia|].
  pose proof (length_print_int_pos z Hz). rewrite length_app. split; [|lia].
  apply Forall_app. split; [done|]. eapply Forall_impl; [exact Hd|]. unfold is_digit. intros c Hc. cbn in Hc. lia.
Qed.

Lemma set_parent_keeps p : keeps (set_parent p).
Proof. by intros r. Qed.

(** the symbols of [T'] that [T] does not have are labels *)
Definition new_labels (T T' : gmap Z info) : Prop := ∀ a i, T' !! a = Some i → T !! a = Some i ∨ i_type i = SYM_TYPE_LABEL.

Lemma new_labels_trans T1 T2 T3 : new_labels T1 T2 → new_labels T2 T3 → new_labels T1 T3.
Proof. intros H1 H2 a i Hi. destruct (H2 a i Hi) as [H|H]; [by apply H1|by right]. Qed.

(** [sp_create_label] changes no symbol of the table *)
Lemma create_label_symbols fuel n s T prefix :
  symbols n (symtab s) T → Forall (λ c, c ≠ 0) prefix → (length prefix < 200)%nat → 0 ≤ label_index s < 2 ^ 31 - 1 →
  (n < fuel)%nat →
  ∃ t T' a, sp_create_label fuel prefix s = Ret (set_symtab t (set_counters (label_index s + 1) (context_cntr s) s), a) ∧
    symbols (S n) t T' ∧ T ⊆ T' ∧ new_labels T T'.
Proof.
  intros HT Hp Hl Hi Hf. set (nm := prefix ++ print_int (label_index s)).
  destruct (made_up_label prefix (label_index s) Hp Hl Hi) as [Hnz Hlen]. fold nm in Hnz, Hlen.
  unfold sp_create_label. sm_pure.
  rewrite (sm_bind_ret (sprintf 256 _) _ s s (nm ++ [0]))
    by (apply lift_ret; rewrite (proj2 (Z.ltb_lt _ _)) by (fold nm; lia); done). cbv beta. sm_pure.
  rewrite u64_id by lia. set (s1 := set_counters (label_index s + 1) (context_cntr s) s).
  destruct (symbols_select n (symtab s1) T SYM_TYPE_LABEL nm (nm ++ [0]) fuel HT (c_string_nonzero _ Hnz) ltac:(lia) Hf) as (o & Ho & Ha).
  rewrite (sm_bind_ret (st_select fuel SYM_TYPE_LABEL (nm ++ [0])) _ s1 s1 o) by (unfold st_select; by rewrite Ho).
  assert (Hcommon : ∀ t T' a, symbols (S n) t T' → is_Some (T' !! a) → T ⊆ T' → new_labels T T' →
    ∃ t' T'' a', (f ← gets current_function; _ ← set_sym a (set_parent f); mret a) (set_symtab t s1) = Ret (set_symtab t' s1, a') ∧
      symbols (S n) t' T'' ∧ T ⊆ T'' ∧ new_labels T T'').
  { intros t T' a HT' [i Hia] Hsub Hnl. destruct (symbols_lookup _ _ _ _ _ HT' Hia) as (r & Hr & _ & _ & Hoff & _). sm_pure.
    set (f := set_parent (current_function (set_symtab t s1))).
    sm_by (set_sym_some a r f (set_symtab t s1) Hr). eexists _, T', a. split; [done|]. split; [|done].
    pose proof (symbols_update _ _ _ _ _ r f HT' Hia (set_parent_keeps _) Hr) as H.
    rewrite (insert_id T') in H; [exact H|]. change (offset (f r)) with (offset r). rewrite Hoff. by destruct i. }
  destruct o as [a|].
  - sm_pure. specialize (Hcommon (symtab s1) T a). rewrite set_symtab_id in Hcommon. apply Hcommon; [|done|done|by left].
    eapply symbols_mono; [exact HT|lia].
  - destruct (symbols_insert n (symtab s1) T SYM_TYPE_LABEL nm SYM_UNDEFINED (nm ++ [0]) fuel HT (c_string_nonzero _ Hnz) ltac:(lia) Hf)
      as (t & a & Ht & HT' & Hnew).
    sm_by (on_tab_ret (st_sym_insert fuel SYM_TYPE_LABEL (nm ++ [0]) SYM_UNDEFINED) s1 t a Ht).
    eapply (Hcommon t _ a HT'); [by rewrite lookup_insert_eq|by apply insert_subseteq|].
    intros b i Hb. apply lookup_insert_Some in Hb as [[_ <-]|[_ Hb]]; [by right|by left].
Qed.

(** the state of a new compiler *)
Definition empty_table : table := mkTable None [] (mkStore ∅ 1) (mkStore ∅ 1) [].
Definition empty_exprs : exprs := mkExprs (mkStore ∅ 1) [] [] [] [] [].
Definition start : sem := mkSem empty_istream empty_table 0 0 0 None None None [] [] [] [] [] empty_exprs [].

Lemma empty_view ty : view ty 0 empty_table ∅.
Proof.
  exists []. split; [|split; [done|by intros nm; rewrite lookup_empty]].
  split; [constructor| |apply store_ok_empty|apply store_ok_empty|by apply Forall_nil].
  split; [by apply Forall_nil|constructor].
Qed.

Lemma create_label_fresh_witness :
  LOOP_PREFIX ++ print_int (label_index start) = [95; 95; 108; 48] ∧
  ∃ s' a, sp_create_label 5 LOOP_PREFIX start = Ret (s', a) ∧
    (∅ : gmap (list Z) entry) !! (LOOP_PREFIX ++ print_int (label_index start)) = None ∧
    view SYM_TYPE_LABEL 1 (symtab s')
      (<[LOOP_PREFIX ++ print_int (label_index start) := mkEntry a SYM_UNDEFINED []]> ∅) ∧
    label_index s' = label_index start + 1 ∧
    numbered (label_index s') (<[LOOP_PREFIX ++ print_int (label_index start) := mkEntry a SYM_UNDEFINED []]> ∅) ∧
    stream s' = stream start ∧ current_offset s' = current_offset start.
Proof.
  split; [reflexivity|]. apply (create_label_fresh 5 0 start ∅ LOOP_PREFIX).
  - apply empty_view.
  - intros p k _ _ [x Hx]. by rewrite lookup_empty in Hx.
  - cbn. lia.
  - repeat (apply Forall_cons; split); try apply Forall_nil; unfold is_digit; lia.
  - cbn. lia.
  - lia.
Defined.
