(* ===== verification/Backpatch.v ===== *)
(** * Backpatching is two-pass assembly

    The compiler emits code in one pass ([sp_jump_to], [sp_new_label]); here
    that is compared with a reference that first computes the address of every
    label and then translates the instructions. *)
From S2P Require Import Prelude Isa Streamer Links SymTable Labels Sem.

(** What the parser asks for: an instruction, a jump to a label, a label. *)
Inductive item :=
  | IIns (i : instr) (a : genarg)
  | IJump (op : Z) (label : list Z)
  | ILabel (label : list Z).

(** the actions, in order *)
Definition act (fuel : nat) (x : item) : sm unit :=
  match x with
  | IIns i a => advance_ (λ o, gencode o (opcode_of i) a)
  | IJump op l => _ ← sp_jump_to fuel op (l ++ [0]); mret tt
  | ILabel l => _ ← sp_new_label fuel (l ++ [0]); mret tt
  end.

Fixpoint assemble (fuel : nat) (p : list item) : sm unit :=
  match p with
  | [] => mret tt
  | x :: p' => _ ← act fuel x; assemble fuel p'
  end.

(** ** The reference *)
Abbreviation addresses := (gmap (list Z) Z).

Definition target (m : addresses) (l : list Z) : Z := default SYM_UNDEFINED (m !! l).

Definition size_of (x : item) : Z :=
  match x with IIns i _ => isize i | IJump _ _ => 3 | ILabel _ => 0 end.

Fixpoint sizes (p : list item) : Z :=
  match p with [] => 0 | x :: p' => size_of x + sizes p' end.

(** first pass: the first definition of a label counts *)
Fixpoint labels (m : addresses) (o : Z) (p : list item) : addresses :=
  match p with
  | [] => m
  | x :: p' =>
      labels (match x with
              | ILabel l => match m !! l with None => <[l := o]> m | Some _ => m end
              | _ => m
              end) (o + size_of x) p'
  end.

(** second pass *)
Definition translate (m : addresses) (x : item) : list instr :=
  match x with
  | IIns i _ => [i]
  | IJump op l => [I3 op (u16 (target m l))]
  | ILabel _ => []
  end.

Definition resolve (m : addresses) (p : list item) : list instr := concat (translate m <$> p).

(** the jumps to [l], where they are *)
Fixpoint waits (l : list Z) (o : Z) (p : list item) : list (Z * Z) :=
  match p with
  | [] => []
  | x :: p' =>
      match x with
      | IJump op l' => if decide (l' = l) then (op, o) :: waits l (o + 3) p' else waits l (o + 3) p'
      | _ => waits l (o + size_of x) p'
      end
  end.

(** labels defined again, and the records of those defined *)
Fixpoint duplicates (m : addresses) (o : Z) (p : list item) : list (list Z) :=
  match p with
  | [] => []
  | x :: p' =>
      match x with
      | ILabel l =>
          match m !! l with
          | None => duplicates (<[l := o]> m) o p'
          | Some _ => l :: duplicates m o p'
          end
      | _ => duplicates m (o + size_of x) p'
      end
  end.

Fixpoint records (m : addresses) (o : Z) (p : list item) : list lblrec :=
  match p with
  | [] => []
  | x :: p' =>
      match x with
      | ILabel l =>
          match m !! l with
          | None => mkLbl (u16 o) 0 None (to_string l) :: records (<[l := o]> m) o p'
          | Some _ => records m o p'
          end
      | _ => records m (o + size_of x) p'
      end
  end.

Definition mentioned (p : list item) : list (list Z) :=
  omap (λ x, match x with IIns _ _ => None | IJump _ l | ILabel l => Some l end) p.

(** a label that has no address and no jumps yet: unknown, or just created *)
Definition fresh (o : option entry) : Prop :=
  match o with None => True | Some e => e_offset e = SYM_UNDEFINED ∧ e_queue e = [] end.

(** ** Well-formed items *)
Definition name_ok (l : list Z) : Prop := Forall (λ c, is_byte c ∧ c ≠ 0) l ∧ (length l < 240)%nat.

Definition item_ok (x : item) : Prop :=
  match x with
  | IIns i a => instr_wf i = true ∧ arg_ok i a
  | IJump op l => instr_wf (I3 op 0) = true ∧ name_ok l
  | ILabel l => name_ok l
  end.

(** ** Reference facts *)
Lemma labels_app m o p q : labels m o (p ++ q) = labels (labels m o p) (o + sizes p) q.
Proof.
  revert m o. induction p as [|x p IH]; intros m o; cbn; [by rewrite Z.add_0_r|].
  rewrite IH. by rewrite Z.add_assoc.
Qed.

Lemma duplicates_app m o p q :
  duplicates m o (p ++ q) = duplicates m o p ++ duplicates (labels m o p) (o + sizes p) q.
Proof.
  revert m o. induction p as [|x p IH]; intros m o; cbn; [by rewrite Z.add_0_r|].
  destruct x as [i a|op l|l]; cbn; rewrite ?IH, ?Z.add_assoc, ?Z.add_0_r; try done.
  destruct (m !! l); cbn; by rewrite ?IH, ?Z.add_0_r.
Qed.

Lemma records_app m o p q : records m o (p ++ q) = records m o p ++ records (labels m o p) (o + sizes p) q.
Proof.
  revert m o. induction p as [|x p IH]; intros m o; cbn; [by rewrite Z.add_0_r|].
  destruct x as [i a|op l|l]; cbn; rewrite ?IH, ?Z.add_assoc, ?Z.add_0_r; try done.
  destruct (m !! l); cbn; by rewrite ?IH, ?Z.add_0_r.
Qed.

Lemma sizes_app p q : sizes (p ++ q) = sizes p + sizes q.
Proof. induction p as [|x p IH]; cbn; [done|]. rewrite IH. lia. Qed.

Lemma size_of_nonneg x : 0 ≤ size_of x.
Proof. destruct x as [i| |]; cbn; [|lia..]. pose proof (isize_pos i). lia. Qed.

Lemma sizes_nonneg p : 0 ≤ sizes p.
Proof. induction p as [|x p IH]; cbn; [done|]. pose proof (size_of_nonneg x). lia. Qed.

Lemma resolve_cons m x p : resolve m (x :: p) = translate m x ++ resolve m p.
Proof. done. Qed.

Lemma resolve_app m p q : resolve m (p ++ q) = resolve m p ++ resolve m q.
Proof. unfold resolve. by rewrite fmap_app, concat_app. Qed.

Lemma psize_translate m x : psize (translate m x) = size_of x.
Proof. destruct x as [i a|op l|l]; cbn [translate size_of]; rewrite ?psize_cons, ?psize_nil; [lia|reflexivity|done]. Qed.

Lemma psize_resolve m p : psize (resolve m p) = sizes p.
Proof. induction p as [|x p IH]; [done|]. rewrite resolve_cons, psize_app, psize_translate, IH. done. Qed.

Lemma waits_app l o p q : waits l o (p ++ q) = waits l o p ++ waits l (o + sizes p) q.
Proof.
  revert o. induction p as [|x p IH]; intros o; cbn; [by rewrite Z.add_0_r|].
  destruct x as [i a|op l'|l']; cbn; rewrite ?IH, ?Z.add_assoc; try done. by case_decide.
Qed.

Lemma waits_length l o p : (length (waits l o p) ≤ length p)%nat.
Proof.
  revert o. induction p as [|x p IH]; intros o; cbn; [done|].
  pose proof (IH (o + size_of x)). pose proof (IH (o + 3)).
  destruct x; cbn in *; try case_decide; cbn; lia.
Qed.

(** addresses lie inside the code *)
Lemma labels_bound m o p l a :
  labels m o p !! l = Some a → m !! l = Some a ∨ o ≤ a ≤ o + sizes p.
Proof.
  revert m o. induction p as [|x p IH]; intros m o H; [by left|]. cbn [labels sizes] in *.
  pose proof (size_of_nonneg x). pose proof (sizes_nonneg p).
  destruct (IH _ _ H) as [Hm|Hm]; [|right; lia].
  destruct x as [i b|op l'|l']; [by left|by left|]. destruct (m !! l') eqn:E; [by left|].
  destruct (decide (l' = l)) as [->|Hl].
  - rewrite lookup_insert_eq in Hm. injection Hm as <-. right. cbn in *. lia.
  - rewrite lookup_insert_ne in Hm by done. by left.
Qed.

Lemma labels_mentioned m o p l : labels m o p !! l ≠ m !! l → l ∈ mentioned p.
Proof.
  revert m o. induction p as [|x p IH]; intros m o H; [done|]. cbn [labels] in H.
  destruct x as [i b|op l'|l']; cbn.
  - by eapply IH.
  - apply elem_of_cons. right. by eapply IH.
  - apply elem_of_cons. destruct (decide (l = l')) as [->|Hl]; [by left|]. right.
    eapply IH. intros E. apply H. rewrite E. destruct (m !! l'); [done|]. by rewrite lookup_insert_ne.
Qed.

(** a label that is not mentioned makes no difference *)
Lemma resolve_insert m l a p : waits l 0 p = [] → resolve (<[l := a]> m) p = resolve m p.
Proof.
  generalize 0 as o. induction p as [|x p IH]; intros o H; [done|]. rewrite !resolve_cons.
  destruct x as [i b|op l'|l']; cbn in H |- *; [|case_decide; [done|]|]; rewrite (IH _ H); try done.
  unfold target. by rewrite lookup_insert_ne by done.
Qed.

(** ** Emitting a jump and a label *)
Definition patch1 (x : genarg) (j : Z * Z) (st : istream) : res istream := g ← is_gencode j.2 j.1 x st; Ret g.1.

Lemma gencode_label o off nm st :
  (String.length nm < 240)%nat → 0 ≤ o ≤ code_size st →
  is_gencode o INS_LBL (GRec off nm) st = Ret (set_lbls (lbls st ++ [mkLbl (u16 o) 0 None nm]) st, 0).
Proof.
  intros Hn Ho. unfold is_gencode. change (classify INS_LBL) with CLbl. cbv iota. unfold is_push_lblrec, is_create_lblrec.
  rewrite (proj2 (Nat.ltb_lt _ _)) by done. res_cbn. unfold gen_ins. change (classify INS_LBL) with CLbl. cbv iota.
  res_cbn. destruct st as [c d cp sz lb mo]. cbn in Ho |- *. by rewrite (proj2 (Z.ltb_ge _ _)) by lia.
Qed.

(** Emitting the waiting jumps again turns the code for one map of addresses
    into the code for the map with the label. *)
Lemma patch_resolve x nm m l off : ∀ p b st,
  x = GRec off nm → m !! l = None → Forall item_ok p → region (code st) b (encode_prog (resolve m p)) →
  0 ≤ b → b + sizes p ≤ MAX_BUFFER_SIZE → b + sizes p ≤ code_size st →
  ∃ st', foldM (patch1 x) (waits l b p) st = Ret st' ∧ st' = set_code (code st') st ∧
    region (code st') b (encode_prog (resolve (<[l := off]> m) p)) ∧
    ∀ j, j < b ∨ b + sizes p ≤ j → bget (code st') j = bget (code st) j.
Proof.
  intros p b st -> Hm. revert b st. induction p as [|x p IH]; intros b st Hok Hr Hb Hmax Hsz.
  { exists st. split; [done|]. by destruct st. }
  apply Forall_cons in Hok as [Hx Hok]. cbn [sizes] in *. pose proof (size_of_nonneg x). pose proof (sizes_nonneg p).
  rewrite resolve_cons, encode_prog_app in Hr. apply region_app in Hr as [Hr1 Hr2].
  rewrite length_psize, psize_translate in Hr2. rewrite resolve_cons, encode_prog_app.
  assert (Hgo : ∀ st1, code_size st1 = code_size st → st1 = set_code (code st1) st →
    (∀ j, j < b ∨ b + size_of x ≤ j → bget (code st1) j = bget (code st) j) →
    region (code st1) b (encode_prog (translate (<[l := off]> m) x)) →
    ∃ st', foldM (patch1 (GRec off nm)) (waits l (b + size_of x) p) st1 = Ret st' ∧ st' = set_code (code st') st ∧
      region (code st') b (encode_prog (translate (<[l := off]> m) x) ++ encode_prog (resolve (<[l := off]> m) p)) ∧
      ∀ j, j < b ∨ b + (size_of x + sizes p) ≤ j → bget (code st') j = bget (code st) j).
  { intros st1 Hs1 Hst1 Ho1 Hr1'. destruct (IH (b + size_of x) st1) as (st' & Hf & Hst' & Hr' & Ho'); try lia; try done.
    { eapply region_agree; [exact Hr2|]. intros j Hj. apply Ho1. lia. }
    exists st'. split; [done|]. split; [by rewrite Hst', Hst1|]. split.
    - apply region_app. rewrite length_psize, psize_translate. split; [|done].
      eapply region_agree; [exact Hr1'|]. intros j Hj. rewrite length_psize, psize_translate in Hj. apply Ho'. lia.
    - intros j Hj. rewrite Ho', Ho1 by lia. done. }
  destruct x as [i a|op l'|l']; cbn [waits].
  - apply Hgo; [done|by destruct st|done|exact Hr1].
  - cbn [size_of] in *. case_decide as Hl.
    + subst l'. destruct Hx as [Hwf _]. destruct (gencode_jump op b off nm st Hwf) as (c' & Hg & Hrc & Hoc); [lia..|].
      assert (Hp1 : patch1 (GRec off nm) (op, b) st = Ret (gen_state c' (b + 3) st)) by (unfold patch1; cbn [fst snd]; by rewrite Hg).
      cbn [foldM]. rewrite Hp1. res_cbn.
      assert (Hst : gen_state c' (b + 3) st = set_code c' st).
      { unfold gen_state. rewrite Z.max_l by lia. by destruct st. }
      rewrite Hst. apply Hgo; [done|done|exact Hoc|].
      cbn [translate]. unfold target. rewrite lookup_insert_eq. by rewrite encode_prog_cons, app_nil_r.
    + apply Hgo; [done|by destruct st|done|]. cbn [translate]. unfold target. by rewrite lookup_insert_ne by done.
  - apply Hgo; [done|by destruct st|done|exact Hr1].
Qed.

(** ** The queue of a label *)
Lemma patch_queue_ok fuel a r js s x st' :
  cells (syms (symtab s)) !! a = Some r → named r → Forall (λ c, c ≠ 0) (name r) →
  lseg (jmps (symtab s)) (jlist r) js None → (length js < fuel)%nat →
  x = GRec (offset r) (to_string (name r)) → foldM (patch1 x) (jump_of <$> js) (stream s) = Ret st' →
  patch_queue fuel a s = Ret (set_stream st' s, tt).
Proof.
  intros Ha Hn H0 Hl Hf -> Hst. unfold patch_queue. rewrite (deref_some _ _ _ Ha). res_cbn.
  assert (Hw : loop fuel (patch_step a) (jlist r, s) = Ret (set_stream st' s)); [|by rewrite Hw].
  revert fuel Hf s st' Ha Hl Hst. generalize (jlist r) as q. induction js as [|[i j] js IH]; intros q fuel Hf s st' Ha Hl Hst;
    (destruct fuel as [|fuel]; [cbn in Hf; lia|]); inversion Hl as [|? ? ? ? Hj Hl']; subst.
  - cbn in Hst. injection Hst as <-. apply loop_inr. unfold patch_step. cbn. by destruct s.
  - cbn [fmap list_fmap foldM] in Hst. res_inv Hst. unfold patch1 in E. res_inv E.
    destruct a1 as [st1 n1]. injection E as <-. cbn [jump_of fst snd] in E0.
    erewrite loop_inl.
    2:{ unfold patch_step. cbn [fst snd]. rewrite (deref_some _ _ _ Hj). res_cbn.
        rewrite (gen_sym_some _ _ _ _ _ _ Ha Hn H0 E0). res_cbn. done. }
    cbn in Hf. exact (IH _ fuel ltac:(lia) (set_stream st1 s) st' Ha Hl' Hst).
Qed.

Lemma stream_eta st : set_code_size (code_size st) (set_lbls (lbls st) (set_code (code st) st)) = st.
Proof. by destruct st. Qed.

(** ** The invariant *)
Section invariant.
Context (fuel n0 : nat) (s0 : sem) (M0 : gmap (list Z) entry).
Abbreviation b0 := (current_offset s0).
Abbreviation addr d := (labels ∅ b0 d).

(** the queue of a label once [d] has been read *)
Definition pending (d : list item) (l : list Z) : list (Z * Z) :=
  match addr d !! l with Some _ => [] | None => waits l b0 d end.

(** [s] is the state once [d] has been read *)
Record inv (d : list item) (s : sem) : Prop := {
  i_offset : current_offset s = b0 + sizes d;
  i_code : patched (code (stream s0)) (code (stream s)) b0 (encode_prog (resolve (addr d) d));
  i_stream : stream s = set_code_size (Z.max (code_size (stream s0)) (b0 + sizes d))
                          (set_lbls (lbls (stream s0) ++ records ∅ b0 d) (set_code (code (stream s)) (stream s0)));
  i_errors : errors s = errors s0 ++ ((ERR_MULTI_LABEL,.) <$> duplicates ∅ b0 d);
  i_view : ∃ M, view SYM_TYPE_LABEL (n0 + 2 * length d) (symtab s) M ∧
    ∀ l, if decide (l ∈ mentioned d)
         then ∃ a, M !! l = Some (mkEntry a (target (addr d) l) (pending d l))
         else M !! l = M0 !! l;
  i_frame : frame s0 s
}.

Hypothesis Hview : view SYM_TYPE_LABEL n0 (symtab s0) M0.
Hypothesis Hbase : 0 ≤ b0 ≤ code_size (stream s0).

Lemma inv_start : inv [] s0.
Proof.
  split; cbn; rewrite ?Z.add_0_r, ?Z.max_l, ?app_nil_r by lia; try done.
  - by rewrite stream_eta.
  - exists M0. by rewrite Nat.add_0_r.
  - apply frame_refl.
Qed.

Lemma inv_code_size d s : inv d s → b0 + sizes d ≤ code_size (stream s).
Proof. intros H. rewrite (i_stream _ _ H). cbn. lia. Qed.

Lemma addr_same d x : (∀ l, x ≠ ILabel l) → addr (d ++ [x]) = addr d.
Proof. intros H. rewrite labels_app. destruct x; [done|done|]. by destruct (H label). Qed.

(** emitting the code of an item behind the code so far *)
Lemma patched_item m d x c c' :
  patched (code (stream s0)) c b0 (encode_prog (resolve m d)) →
  patched c c' (b0 + sizes d) (encode_prog (translate m x)) →
  patched (code (stream s0)) c' b0 (encode_prog (resolve m (d ++ [x]))).
Proof.
  intros H1 H2. rewrite resolve_app, encode_prog_app. unfold resolve at 2. cbn [fmap list_fmap concat].
  rewrite app_nil_r. eapply patched_app; [exact H1|]. by rewrite length_psize, psize_resolve.
Qed.

Lemma inv_ins d s i a :
  inv d s → item_ok (IIns i a) → b0 + sizes (d ++ [IIns i a]) ≤ MAX_BUFFER_SIZE →
  ∃ s', act fuel (IIns i a) s = Ret (s', tt) ∧ inv (d ++ [IIns i a]) s'.
Proof.
  intros H [Hwf Ha] Hmax. rewrite sizes_app in Hmax. cbn in Hmax. pose proof (sizes_nonneg d). pose proof (isize_pos i).
  destruct (gencode_instr (stream s) (b0 + sizes d) i a Hwf Ha) as (c' & Hg & Hp); [lia|lia|].
  cbn [act]. erewrite advance_ret by (unfold gencode; rewrite (i_offset _ _ H), Hg; reflexivity).
  rewrite (i_offset _ _ H). eexists. split; [done|].
  split; cbn [current_offset set_offset stream set_stream symtab errors code gen_state set_code_size set_code fst snd].
  - rewrite sizes_app. cbn. rewrite u64_id by (unfold MAX_BUFFER_SIZE in Hmax; lia). lia.
  - rewrite addr_same by done. eapply patched_item; [exact (i_code _ _ H)|].
    cbn [translate]. by rewrite encode_prog_cons, app_nil_r.
  - rewrite (i_stream _ _ H). rewrite records_app, sizes_app. cbn. rewrite app_nil_r. unfold gen_state. cbn.
    unfold set_code_size, set_code, set_lbls. cbn. f_equal. lia.
  - rewrite duplicates_app. cbn. rewrite app_nil_r. exact (i_errors _ _ H).
  - destruct (i_view _ _ H) as (M & Hv & HM). exists M. split; [eapply view_mono; [exact Hv|rewrite length_app; cbn; lia]|].
    intros l. specialize (HM l). unfold mentioned, pending in *. rewrite omap_app, waits_app, addr_same by done. cbn.
    by rewrite !app_nil_r.
  - eapply frame_trans; [exact (i_frame _ _ H)|]. by destruct s.
Qed.

(** *** What the table says of a label *)
Lemma not_mentioned d l : l ∉ mentioned d → addr d !! l = None ∧ waits l b0 d = [].
Proof.
  intros H. split.
  - destruct (addr d !! l) eqn:E; [|done]. destruct H. apply (labels_mentioned ∅ b0). by rewrite E.
  - revert H. generalize b0 as o. induction d as [|x d IH]; intros o H; [done|]. cbn in *.
    destruct x as [i a|op l'|l']; cbn in *; [by apply IH| |].
    + rewrite decide_False by (intros ->; apply H; set_solver). apply IH. set_solver.
    + apply IH. set_solver.
Qed.

Lemma undefined_iff d l :
  b0 + sizes d ≤ MAX_BUFFER_SIZE → (target (addr d) l =? SYM_UNDEFINED) = bool_decide (addr d !! l = None).
Proof.
  intros Hm. unfold target. destruct (addr d !! l) as [a|] eqn:E; cbn; [|done].
  apply labels_bound in E as [E|E]; [by rewrite lookup_empty in E|].
  unfold MAX_BUFFER_SIZE, SYM_UNDEFINED in *. rewrite (proj2 (Z.eqb_neq _ _)) by lia. done.
Qed.

(** the entry of a label, mentioned or not *)
Lemma entry_expected (d : list item) (M : gmap (list Z) entry) l e :
  (if decide (l ∈ mentioned d)
   then ∃ a, M !! l = Some (mkEntry a (target (addr d) l) (pending d l)) else M !! l = M0 !! l) →
  fresh (M0 !! l) → M !! l = Some e → e_offset e = target (addr d) l ∧ e_queue e = pending d l.
Proof.
  intros HM H0 He. case_decide as Hd.
  - destruct HM as (a & HM). by simplify_eq.
  - destruct (not_mentioned _ _ Hd) as [E1 E2]. unfold target, pending. rewrite E1, E2.
    rewrite He in HM. by rewrite <-HM in H0.
Qed.

(** looking a label up, or entering it *)
Lemma enter_label d s l :
  inv d s → name_ok l → fresh (M0 !! l) → (n0 + 2 * length d < fuel)%nat →
  ∃ t e M, (∀ A (f : Z → sm A),
      (rec ← st_select fuel SYM_TYPE_LABEL (l ++ [0]);
       a ← match rec with Some a => mret a | None => st_insert fuel SYM_TYPE_LABEL (l ++ [0]) SYM_UNDEFINED end;
       f a) s = f (e_rec e) (set_symtab t s)) ∧
    view SYM_TYPE_LABEL (S (n0 + 2 * length d)) t M ∧
    M !! l = Some e ∧ e_offset e = target (addr d) l ∧ e_queue e = pending d l ∧
    ∀ l', l' ≠ l → if decide (l' ∈ mentioned d)
      then ∃ a, M !! l' = Some (mkEntry a (target (addr d) l') (pending d l')) else M !! l' = M0 !! l'.
Proof.
  intros H [Hn Hlen] H0 Hf. destruct (i_view _ _ H) as (M & Hv & HM).
  destruct (select_or_insert fuel SYM_TYPE_LABEL _ s M l Hv) as (t & e & Hr & Hv' & He); try done.
  { eapply Forall_impl; [exact Hn|]. by intros c []. } { lia. }
  { unfold sym_is. cbn. by rewrite bool_decide_true. }
  assert (Hoq : e_offset e = target (addr d) l ∧ e_queue e = pending d l).
  { specialize (HM l). destruct (M !! l) as [e'|] eqn:E' in He; [subst e'; by eapply entry_expected|]. case_decide as Hd.
    - destruct HM as (a & HM). congruence.
    - destruct (not_mentioned _ _ Hd) as [E1 E2]. unfold target, pending. by rewrite E1, E2. }
  destruct Hoq as [Ho Hq]. exists t, e, (<[l := e]> M). rewrite lookup_insert_eq. do 5 (split; [done|]).
  intros l' Hl'. rewrite lookup_insert_ne by done. apply HM.
Qed.

(** the symbol of an entry can be passed to [is_gencode] *)
Lemma entry_sym n t M l e :
  view SYM_TYPE_LABEL n t M → M !! l = Some e → name_ok l →
  ∃ r js, cells (syms t) !! e_rec e = Some r ∧ name r = l ∧ offset r = e_offset e ∧ named r ∧
    Forall (λ c, c ≠ 0) (name r) ∧ lseg (jmps t) (jlist r) js None ∧ jump_of <$> js = e_queue e ∧ (length js ≤ n)%nat.
Proof.
  intros Hv He [Hn _]. destruct (view_found _ _ _ _ _ _ Hv He) as (r & js & H1 & H2 & H3 & H4 & H5).
  exists r, js. do 4 (split; [done|]). split; [|done]. rewrite H2. eapply Forall_impl; [exact Hn|]. by intros c [].
Qed.

(** *** A jump *)
Lemma waits_snoc_jump d op l : waits l b0 (d ++ [IJump op l]) = waits l b0 d ++ [(op, b0 + sizes d)].
Proof. rewrite waits_app. cbn. by rewrite decide_True. Qed.

Lemma waits_snoc_other d x l : l ∉ mentioned [x] → waits l b0 (d ++ [x]) = waits l b0 d.
Proof.
  rewrite waits_app. intros H. destruct x as [i a|op l'|l']; cbn in *; rewrite ?app_nil_r; try done.
  rewrite decide_False by (intros ->; set_solver). by rewrite app_nil_r.
Qed.

Lemma mentioned_app p q : mentioned (p ++ q) = mentioned p ++ mentioned q.
Proof. apply omap_app. Qed.

Lemma inv_jump d s op l :
  inv d s → item_ok (IJump op l) → fresh (M0 !! l) → b0 + sizes (d ++ [IJump op l]) ≤ MAX_BUFFER_SIZE →
  (n0 + 2 * length (d ++ [IJump op l]) < fuel)%nat →
  ∃ s', act fuel (IJump op l) s = Ret (s', tt) ∧ inv (d ++ [IJump op l]) s'.
Proof.
  intros H [Hwf Hl] H0 Hmax Hf. rewrite sizes_app in Hmax. rewrite length_app in Hf. cbn in Hmax, Hf.
  pose proof (sizes_nonneg d) as Hd0. pose proof (i_offset _ _ H) as Hoff.
  cbn [act]. 
  assert (Hgo : ∃ s', sp_jump_to fuel op (l ++ [0]) s = Ret (s', b0 + sizes (d ++ [IJump op l])) ∧ inv (d ++ [IJump op l]) s').
  2:{ destruct Hgo as (s' & E & Hi). exists s'. split; [|done]. by sm_by E. }
  unfold sp_jump_to. destruct (enter_label d s l) as (t & e & M & Hent & Hv & He & Ho & Hq & Hother); try done; [lia|].
  rewrite Hent. clear Hent.
  destruct (entry_sym _ _ _ _ _ Hv He Hl) as (r & js & Hr & Hnm & Hro & Hnd & Hnz & _).
  rewrite (sm_bind_ret (sym (e_rec e)) _ _ (set_symtab t s) r) by by apply sym_some.
  rewrite Hro, Ho, undefined_iff by lia.
  (* the queue *)
  set (q := if bool_decide (addr d !! l = None) then e_queue e ++ [(op, b0 + sizes d)] else e_queue e).
  assert (Hq' : ∃ t2, (if bool_decide (addr d !! l = None)
      then o ← gets current_offset; _ ← jmp_add fuel (e_rec e) op o; mret tt else mret tt) (set_symtab t s) =
        Ret (set_symtab t2 s, tt) ∧
      view SYM_TYPE_LABEL (n0 + 2 * length (d ++ [IJump op l])) t2 (<[l := mkEntry (e_rec e) (e_offset e) q]> M)).
  { unfold q. case_bool_decide as Hd.
    - sm_pure. change (current_offset (set_symtab t s)) with (current_offset s). rewrite Hoff.
      destruct (view_jmp_add _ _ _ _ _ _ op (b0 + sizes d) fuel Hv He) as (t2 & a & Ha & Hv2); [lia|].
      exists t2. sm_by (on_tab_ret (st_jmp_add fuel (e_rec e) op (b0 + sizes d)) (set_symtab t s) t2 a Ha).
      split; [done|]. eapply view_mono; [exact Hv2|]. rewrite length_app. cbn. lia.
    - exists t. split; [done|]. rewrite insert_id by (rewrite He; by destruct e).
      eapply view_mono; [exact Hv|]. rewrite length_app. cbn. lia. }
  destruct Hq' as (t2 & Hq2 & Hv2). rewrite (sm_bind_ret _ _ _ _ _ Hq2).
  destruct (entry_sym _ _ _ l _ Hv2 ltac:(by apply lookup_insert_eq) Hl) as (r2 & js2 & Hr2 & Hnm2 & Hro2 & Hnd2 & Hnz2 & _).
  cbn [e_rec e_offset] in Hr2, Hro2.
  destruct (gencode_jump op (b0 + sizes d) (offset r2) (to_string (name r2)) (stream s) Hwf) as (c' & Hg & Hp); [lia|lia|].
  rewrite <-Hoff in Hg. pose proof (gen_sym_some _ _ _ _ (set_symtab t2 s) _ Hr2 Hnd2 Hnz2 Hg) as Hgen.
  sm_by (advance_ret (λ o, gen_sym o op (e_rec e)) (set_symtab t2 s) _ _ Hgen).
  change (current_offset (set_symtab t2 s)) with (current_offset s). rewrite Hoff.
  unfold gets. cbn [current_offset set_offset set_stream set_symtab fst snd].
  assert (Hsz : u64 (b0 + sizes d + 3) = b0 + sizes (d ++ [IJump op l])).
  { rewrite sizes_app. cbn. rewrite u64_id by (unfold MAX_BUFFER_SIZE in *; lia). lia. }
  rewrite Hsz. eexists. split; [done|].
  split; cbn [current_offset set_offset stream set_stream symtab set_symtab errors fst snd]; [done| | | | |].
  - rewrite addr_same by done. eapply patched_item; [exact (i_code _ _ H)|].
    cbn [translate]. rewrite encode_prog_cons, app_nil_r. by rewrite Hro2, Ho in Hp.
  - rewrite (i_stream _ _ H). rewrite records_app, sizes_app. cbn. rewrite app_nil_r. unfold gen_state. cbn.
    unfold set_code_size, set_code, set_lbls. cbn. f_equal. lia.
  - rewrite duplicates_app. cbn. rewrite app_nil_r. exact (i_errors _ _ H).
  - exists (<[l := mkEntry (e_rec e) (e_offset e) q]> M). split; [exact Hv2|]. rewrite addr_same by done. intros l'.
    destruct (decide (l' = l)) as [->|Hne].
    + rewrite decide_True by (rewrite mentioned_app; cbn; set_solver). exists (e_rec e). rewrite lookup_insert_eq.
      rewrite Ho. unfold q, pending. rewrite addr_same, waits_snoc_jump, Hq by done. unfold pending.
      by destruct (addr d !! l).
    + rewrite lookup_insert_ne by done. specialize (Hother _ Hne). unfold pending.
      rewrite addr_same, waits_snoc_other by (done || (cbn; set_solver)).
      destruct (decide (l' ∈ mentioned d)) as [Hin|Hin].
      * rewrite decide_True by (rewrite mentioned_app; set_solver). exact Hother.
      * rewrite decide_False by (rewrite mentioned_app; cbn; set_solver). exact Hother.
  - eapply frame_trans; [exact (i_frame _ _ H)|]. by destruct s.
Qed.

(** *** A label *)
Lemma addr_new d l : addr d !! l = None → addr (d ++ [ILabel l]) = <[l := b0 + sizes d]> (addr d).
Proof. intros H. rewrite labels_app. cbn. by rewrite H. Qed.

Lemma addr_old d l a : addr d !! l = Some a → addr (d ++ [ILabel l]) = addr d.
Proof. intros H. rewrite labels_app. cbn. by rewrite H. Qed.

Lemma define_label_ok d s t M l a :
  inv d s → Forall item_ok d → name_ok l → addr d !! l = None →
  b0 + sizes d ≤ MAX_BUFFER_SIZE → (S (n0 + 2 * length d) < fuel)%nat →
  view SYM_TYPE_LABEL (S (n0 + 2 * length d)) t M →
  M !! l = Some (mkEntry a (b0 + sizes d) (waits l b0 d)) →
  (∀ l', l' ≠ l → if decide (l' ∈ mentioned d)
     then ∃ a, M !! l' = Some (mkEntry a (target (addr d) l') (pending d l')) else M !! l' = M0 !! l') →
  ∃ s', define_label fuel a (set_symtab t s) = Ret (s', b0 + sizes d) ∧ inv (d ++ [ILabel l]) s'.
Proof.
  intros H Hok Hl Hd Hmax Hf Hv He Hother. pose proof (i_offset _ _ H) as Hoff. pose proof (sizes_nonneg d).
  destruct (entry_sym _ _ _ _ _ Hv He Hl) as (r & js & Hr & _). cbn [e_rec] in Hr.
  (* parent *)
  set (f := set_parent (current_function s)).
  assert (Hk : keeps f) by by intros x.
  pose proof (view_update _ _ _ _ _ _ r f Hv He Hk Hr) as Hv1. cbn [e_rec e_queue] in Hv1.
  set (t1 := set_syms (set_cells (<[a := f r]> (cells (syms t))) (syms t)) t) in Hv1.
  destruct (entry_sym _ _ _ l _ Hv1 ltac:(by apply lookup_insert_eq) Hl) as (r1 & js1 & Hr1 & Hn1 & Ho1 & Hnd1 & Hnz1 & Hq1 & Hjs1 & Hlen1).
  cbn [e_rec e_offset e_queue] in Hr1, Ho1, Hjs1.
  assert (Hor : offset (f r) = b0 + sizes d).
  { destruct (entry_sym _ _ _ _ _ Hv He Hl) as (r' & _ & Hr' & _ & Ho' & _). cbn [e_rec e_offset] in Hr', Ho'.
    by simplify_eq. }
  rewrite Hor in Ho1, Hv1.
  unfold define_label. sm_pure. change (current_function (set_symtab t s)) with (current_function s). fold f.
  sm_by (set_sym_some a r f (set_symtab t s) Hr). cbn [symtab set_symtab]. fold t1.
  (* the label *)
  destruct Hl as [Hb Hlen].
  pose proof (gencode_label (b0 + sizes d) (offset r1) (to_string (name r1)) (stream s)
    ltac:(by rewrite length_to_string, Hn1) ltac:(pose proof (inv_code_size _ _ H); lia)) as Hg.
  rewrite <-Hoff in Hg at 1. set (st1 := set_lbls _ (stream s)) in Hg.
  pose proof (gen_sym_some _ _ _ _ (set_symtab t1 s) _ Hr1 Hnd1 Hnz1 Hg) as Hgen.
  sm_by (advance_ret (λ o, gen_sym o INS_LBL a) (set_symtab t1 s) _ _ Hgen).
  change (current_offset (set_symtab t1 s)) with (current_offset s). cbn [fst]. rewrite Hoff, Z.add_0_r, u64_id by (unfold MAX_BUFFER_SIZE in *; lia).
  (* the queue *)
  destruct (patch_resolve (GRec (offset r1) (to_string (name r1))) (to_string (name r1)) (addr d) l (b0 + sizes d) d b0 st1)
    as (st2 & Hp & Hst2 & Hreg & Hout); [by rewrite Ho1|done|done| |lia|lia| |].
  { exact (proj1 (i_code _ _ H)). } { apply (inv_code_size _ _ H). }
  sm_by (patch_queue_ok fuel a r1 js1 (set_offset (b0 + sizes d) (set_stream st1 (set_symtab t1 s))) _ st2 Hr1 Hnd1 Hnz1 Hq1 ltac:(lia) eq_refl
    ltac:(by rewrite Hjs1)).
  destruct (view_jmp_clear _ _ _ _ l _ fuel Hv1 ltac:(by apply lookup_insert_eq) ltac:(lia)) as (t2 & Hc & Hv2).
  cbn [e_rec e_offset] in Hc, Hv2. rewrite insert_insert_eq in Hv2.
  sm_by (on_tab_ret_ (st_jmp_clear fuel a) (set_stream st2 (set_offset (b0 + sizes d) (set_stream st1 (set_symtab t1 s)))) t2 Hc).
  unfold gets. cbn [current_offset set_offset set_stream set_symtab].
  eexists. split; [done|].
  split; cbn [current_offset set_offset stream set_stream symtab set_symtab errors].
  - rewrite sizes_app. cbn. lia.
  - rewrite addr_new, resolve_app by done. unfold resolve at 2. cbn [fmap list_fmap concat translate]. rewrite !app_nil_r.
    split; [done|]. intros j Hj. rewrite length_psize, psize_resolve in Hj. rewrite Hout by lia.
    apply (i_code _ _ H). rewrite length_psize, psize_resolve. lia.
  - rewrite Hst2 at 1. unfold st1. rewrite records_app, sizes_app. cbn. rewrite Hd, Hn1.
    pose proof (i_stream _ _ H) as Hs. unfold set_code_size, set_code, set_lbls. cbn.
    f_equal; rewrite Hs; cbn; [done|done|lia|by rewrite <-app_assoc|done].
  - rewrite duplicates_app. cbn. rewrite Hd. cbn. rewrite app_nil_r. exact (i_errors _ _ H).
  - eexists. split; [eapply view_mono; [exact Hv2|rewrite length_app; cbn; lia]|]. intros l'.
    destruct (decide (l' = l)) as [->|Hne].
    + rewrite decide_True by (rewrite mentioned_app; cbn; set_solver). exists a. rewrite lookup_insert_eq.
      unfold target, pending. by rewrite addr_new, lookup_insert_eq by done.
    + rewrite lookup_insert_ne by done. specialize (Hother _ Hne). unfold target, pending in *.
      rewrite addr_new, lookup_insert_ne, waits_snoc_other by (done || (cbn; set_solver)).
      destruct (decide (l' ∈ mentioned d)) as [Hin|Hin].
      * rewrite decide_True by (rewrite mentioned_app; set_solver). exact Hother.
      * rewrite decide_False by (rewrite mentioned_app; cbn; set_solver). exact Hother.
  - eapply frame_trans; [exact (i_frame _ _ H)|]. by destruct s.
Qed.

(** a label that is defined already: an error, nothing is emitted *)
Lemma inv_duplicate d s l a :
  inv d s → addr d !! l = Some a →
  inv (d ++ [ILabel l]) (set_errors (errors s ++ [(ERR_MULTI_LABEL, l)]) s).
Proof.
  intros H Hd. split; cbn [current_offset stream symtab errors set_errors].
  - rewrite sizes_app. cbn. rewrite !Z.add_0_r. exact (i_offset _ _ H).
  - rewrite (addr_old _ _ _ Hd), resolve_app. unfold resolve at 2. cbn [fmap list_fmap concat translate].
    rewrite !app_nil_r. exact (i_code _ _ H).
  - rewrite records_app, sizes_app. cbn. rewrite Hd, app_nil_r, !Z.add_0_r. exact (i_stream _ _ H).
  - rewrite duplicates_app, fmap_app, app_assoc, <-(i_errors _ _ H). cbn. by rewrite Hd.
  - destruct (i_view _ _ H) as (M & Hv & HM). exists M.
    split; [eapply view_mono; [exact Hv|rewrite length_app; cbn; lia]|]. intros l'. specialize (HM l').
    assert (Hm : l ∈ mentioned d) by (apply (labels_mentioned ∅ b0); by rewrite Hd).
    unfold pending. rewrite (addr_old _ _ _ Hd), mentioned_app. destruct (decide (l' ∈ mentioned d)) as [Hin|Hin].
    + rewrite decide_True by set_solver. destruct HM as (a' & HM). exists a'. rewrite HM. unfold pending.
      rewrite waits_app. cbn. by rewrite app_nil_r.
    + rewrite decide_False by (cbn; set_solver). exact HM.
  - eapply frame_trans; [exact (i_frame _ _ H)|]. by destruct s.
Qed.

Lemma inv_label d s l :
  inv d s → Forall item_ok d → name_ok l → fresh (M0 !! l) → b0 + sizes d ≤ MAX_BUFFER_SIZE →
  (n0 + 2 * length (d ++ [ILabel l]) < fuel)%nat →
  ∃ s', act fuel (ILabel l) s = Ret (s', tt) ∧ inv (d ++ [ILabel l]) s'.
Proof.
  intros H Hok Hl H0 Hmax Hf. rewrite length_app in Hf. cbn in Hf. pose proof (i_offset _ _ H) as Hoff.
  assert (Hnz : Forall (λ c, c ≠ 0) l) by (eapply Forall_impl; [exact (proj1 Hl)|]; by intros c []).
  assert (Hlen : Z.of_nat (length l) < 65536) by (destruct Hl; lia).
  cbn [act].
  assert (Hgo : ∃ s' o, sp_new_label fuel (l ++ [0]) s = Ret (s', o) ∧ inv (d ++ [ILabel l]) s').
  2:{ destruct Hgo as (s' & o & E & Hi). exists s'. split; [|done]. by sm_by E. }
  destruct (i_view _ _ H) as (M & Hv & HM). unfold sp_new_label.
  sm_by (st_select_view fuel _ _ s M l Hv Hnz Hlen ltac:(lia)). sm_pure. rewrite Hoff.
  pose proof (HM l) as HMl. destruct (M !! l) as [e|] eqn:He; cbn [fmap option_fmap option_map].
  - rewrite <-He in HMl. destruct (entry_expected _ _ _ _ HMl H0 He) as [Eo Eq].
    destruct e as [a eo eq]. cbn [e_offset e_queue] in Eo, Eq. subst eo eq.
    destruct (entry_sym _ _ _ _ _ Hv He Hl) as (r & js & Hr & _ & Ho & _). cbn [e_rec e_offset] in Hr, Ho |- *.
    sm_by (sym_some _ _ _ Hr). rewrite Ho, undefined_iff by done. case_bool_decide as Hd.
    + set (f := set_soffset (b0 + sizes d)). assert (Hk : keeps f) by by intros x.
      pose proof (view_update _ _ _ _ _ _ r f Hv He Hk Hr) as Hv1. cbn [e_rec e_queue] in Hv1.
      sm_by (set_sym_some a r f s Hr). destruct (define_label_ok d s _ _ l a H Hok Hl Hd Hmax ltac:(lia)
        (view_mono _ _ (S (n0 + 2 * length d)) _ _ Hv1 ltac:(lia))) as (s' & E & Hi).
      * rewrite lookup_insert_eq. unfold pending. by rewrite Hd.
      * intros l' Hl'. rewrite lookup_insert_ne by done. apply HM.
      * by exists s', (b0 + sizes d).
    + destruct (addr d !! l) as [o|] eqn:Eo; [|done]. rewrite c_string_nonzero by done.
      sm_by (lift_ret (from_option_ub (Some l)) s l eq_refl). unfold sp_error. sm_pure.
      eexists _, _. split; [reflexivity|]. by eapply inv_duplicate.
  - destruct (decide (l ∈ mentioned d)) as [Hin|Hin]; [by destruct HMl as (a & ?)|].
    destruct (not_mentioned _ _ Hin) as [Hd Hw].
    destruct (view_insert SYM_TYPE_LABEL _ _ M l (b0 + sizes d) (l ++ [0]) fuel Hv He) as (t & a & Hi & Hv1);
      [unfold sym_is; cbn; by rewrite bool_decide_true|by apply c_string_nonzero|done|lia|].
    sm_by (on_tab_ret (st_sym_insert fuel SYM_TYPE_LABEL (l ++ [0]) (b0 + sizes d)) s t a Hi).
    destruct (define_label_ok d s t _ l a H Hok Hl Hd Hmax ltac:(lia) Hv1) as (s' & E & Hinv).
    * by rewrite lookup_insert_eq, Hw.
    * intros l' Hl'. rewrite lookup_insert_ne by done. apply HM.
    * by exists s', (b0 + sizes d).
Qed.

Lemma assemble_inv p : ∀ d s,
  inv d s → Forall item_ok (d ++ p) → (∀ l, l ∈ mentioned p → fresh (M0 !! l)) →
  b0 + sizes (d ++ p) ≤ MAX_BUFFER_SIZE → (n0 + 2 * length (d ++ p) < fuel)%nat →
  ∃ s', assemble fuel p s = Ret (s', tt) ∧ inv (d ++ p) s'.
Proof.
  induction p as [|x p IH]; intros d s H Hok Hfresh Hmax Hf; [exists s; by rewrite app_nil_r|].
  change (x :: p) with ([x] ++ p) in *. rewrite app_assoc in *.
  assert (Hx : ∃ s1, act fuel x s = Ret (s1, tt) ∧ inv (d ++ [x]) s1).
  { rewrite sizes_app in Hmax. rewrite length_app in Hf. pose proof (sizes_nonneg p).
    apply Forall_app in Hok as [Hok _]. apply Forall_app in Hok as [Hok Hx]. apply Forall_cons in Hx as [Hx _].
    destruct x as [i a|op l|l].
    - apply inv_ins; try done. lia.
    - apply inv_jump; try done; [apply Hfresh; cbn; set_solver|lia|lia].
    - rewrite sizes_app in Hmax. cbn in Hmax. apply inv_label; try done; [apply Hfresh; cbn; set_solver|lia|lia]. }
  destruct Hx as (s1 & E & H1). destruct (IH (d ++ [x]) s1 H1 Hok) as (s' & E' & H'); [|done|done|].
  { intros l Hl. apply Hfresh. rewrite mentioned_app. set_solver. }
  exists s'. split; [|done]. cbn [app assemble]. by sm_by E.
Qed.
End invariant.

(** C3: the compiler's one-pass code is the two-pass code. Take any sequence of
    instructions, jumps and labels, jumps in any order with their labels, and
    any state of the compiler that has no address for these labels yet. The actions end;
    they write at the current offset exactly the code in which every jump has
    the address of the first definition of its label, and change no other byte;
    labels of which no definition came are left with their jumps in the queue,
    the operands [SYM_UNDEFINED]; labels defined again are reported and
    ignored; each label defined has one record for the linker. *)
Theorem assemble_two_pass fuel n s M p :
  let b := current_offset s in
  let m := labels ∅ b p in
  view SYM_TYPE_LABEL n (symtab s) M → (∀ l, l ∈ mentioned p → fresh (M !! l)) → Forall item_ok p →
  0 ≤ b ≤ code_size (stream s) → b + sizes p ≤ MAX_BUFFER_SIZE → (n + 2 * length p < fuel)%nat →
  ∃ s' M', assemble fuel p s = Ret (s', tt) ∧ frame s s' ∧ current_offset s' = b + sizes p ∧
    patched (code (stream s)) (code (stream s')) b (encode_prog (resolve m p)) ∧
    lbls (stream s') = lbls (stream s) ++ records ∅ b p ∧
    data (stream s') = data (stream s) ∧ cpindex (stream s') = cpindex (stream s) ∧
    code_size (stream s') = Z.max (code_size (stream s)) (b + sizes p) ∧
    errors s' = errors s ++ ((ERR_MULTI_LABEL,.) <$> duplicates ∅ b p) ∧
    view SYM_TYPE_LABEL (n + 2 * length p) (symtab s') M' ∧
    (∀ l, l ∈ mentioned p → ∃ a, M' !! l =
       Some (mkEntry a (target m l) (match m !! l with Some _ => [] | None => waits l b p end))) ∧
    ∀ l, l ∉ mentioned p → M' !! l = M !! l.
Proof.
  intros b m Hv Hfresh Hok Hb Hmax Hf.
  destruct (assemble_inv fuel n s M Hv Hb p [] s) as (s' & E & [H1 H2 H3 H4 (M' & Hv' & HM') H6]); try done.
  { by apply inv_start. }
  exists s', M'. cbn [app] in *. do 5 (split; [first [done | by rewrite H3]|]).
  split; [by rewrite H3|]. split; [by rewrite H3|]. split; [by rewrite H3|]. split; [done|]. split; [done|].
  split; intros l Hl; specialize (HM' l).
  - by rewrite decide_True in HM' by done.
  - by rewrite decide_False in HM' by done.
Qed.

(** *** A program with a forward jump, a loop, a label defined twice and one
    never defined *)
Definition name_e : list Z := [101].
Definition name_l : list Z := [108].
Definition name_u : list Z := [117].
Definition demo : list item :=
  [ILabel name_l; IJump INS_JFALSE name_e; IIns (I1 INS_ADD) GNone; IJump INS_JMP name_l; ILabel name_e;
   ILabel name_l; IJump INS_JMP name_u].

Lemma demo_ok : Forall item_ok demo.
Proof.
  assert (Hn : ∀ c, is_byte c ∧ c ≠ 0 → name_ok [c]).
  { intros c Hc. split; [by apply Forall_cons|cbn; lia]. }
  repeat (apply Forall_cons; split); try apply Forall_nil; cbn;
    try (apply Hn; unfold is_byte; lia); try (split; [reflexivity|apply Hn; unfold is_byte; lia]); try done.
  split; [reflexivity|apply arg_ok1].
Qed.

Lemma assemble_two_pass_witness :
  resolve (labels ∅ 0 demo) demo = [I3 INS_JFALSE 7; I1 INS_ADD; I3 INS_JMP 0; I3 INS_JMP 0xFFFF] ∧
  ∃ s' M', assemble 20 demo start = Ret (s', tt) ∧ frame start s' ∧ current_offset s' = 0 + sizes demo ∧
    patched (code (stream start)) (code (stream s')) 0 (encode_prog (resolve (labels ∅ 0 demo) demo)) ∧
    lbls (stream s') = lbls (stream start) ++ records ∅ 0 demo ∧
    data (stream s') = data (stream start) ∧ cpindex (stream s') = cpindex (stream start) ∧
    code_size (stream s') = Z.max (code_size (stream start)) (0 + sizes demo) ∧
    errors s' = errors start ++ ((ERR_MULTI_LABEL,.) <$> duplicates ∅ 0 demo) ∧
    view SYM_TYPE_LABEL (0 + 2 * length demo) (symtab s') M' ∧
    (∀ l, l ∈ mentioned demo → ∃ a, M' !! l =
       Some (mkEntry a (target (labels ∅ 0 demo) l)
               (match labels ∅ 0 demo !! l with Some _ => [] | None => waits l 0 demo end))) ∧
    ∀ l, l ∉ mentioned demo → M' !! l = (∅ : gmap (list Z) entry) !! l.
Proof.
  split; [reflexivity|].
  apply (assemble_two_pass 20 0 start ∅ demo); [apply empty_view|by intros l _; rewrite lookup_empty|exact demo_ok|cbn; lia|by vm_compute|cbn; lia].
Defined.
