(* ===== verification/Scope.v ===== *)
(** * Scopes of instructions (StackLib/Stack/sem_proto.c)

    An expression is not emitted while it is read. Its instructions are put as
    nodes into the current scope, a chain behind a root node; a second chain,
    the scope after, takes what comes behind the expression (a post-increment).
    The stack of roots holds, from its top, the current chain and the chain
    after of the innermost expression, then those of the one around it. Flushing
    a scope moves its nodes to the scope around it, or emits them if there is
    none. *)
From S2P Require Import Prelude Isa Streamer Links SymTable Labels Sem.

(** ** Nodes and roots *)
Definition get_expr {A} (f : exprs → A) : sm A := gets (λ s, f (expr s)).
Definition mod_expr (f : exprs → exprs) : sm unit := modify (λ s, set_expr (f (expr s)) s).

Definition set_inodes x e := mkExprs x (inode_stack e) (op_stack e) (varctx_stack e) (scope_stack e) (method_scope e).
Definition set_roots x e := mkExprs (inodes e) x (op_stack e) (varctx_stack e) (scope_stack e) (method_scope e).
Definition set_method_scope x e := mkExprs (inodes e) (inode_stack e) (op_stack e) (varctx_stack e) (scope_stack e) x.

(** a node through its pointer *)
Definition node (a : Z) : sm ins_node := λ s, n ← deref (inodes (expr s)) a; Ret (s, n).
Definition set_node (a : Z) (f : ins_node → ins_node) : sm unit :=
  λ s, i ← upd a f (inodes (expr s)); Ret (set_expr (set_inodes i (expr s)) s, tt).
Definition free_node (a : Z) : sm unit :=
  λ s, i ← free a (inodes (expr s)); Ret (set_expr (set_inodes i (expr s)) s, tt).

Definition sp_create_inode (ins : Z) (rec : node_arg) : sm Z :=
  λ s, let m := malloc (mkNode None ins rec None) (inodes (expr s)) in
       Ret (set_expr (set_inodes m.2 (expr s)) s, m.1).

(** [_sp_inode_stack] has 2 * SEM_MAX_STACK entries *)
Definition sp_push_iroot (inode : option Z) : sm (option Z) :=
  l ← get_expr inode_stack;
  _ ← lift (guardb (length l <? 2 * SEM_MAX_STACK)%nat);
  _ ← mod_expr (set_roots (inode :: l)); mret inode.

Definition sp_pop_iroot : sm (option Z) :=
  l ← get_expr inode_stack;
  match l with
  | [] => mret None
  | h :: l' => _ ← mod_expr (set_roots l'); mret h
  end.

Definition iroot (n : nat) : sm (option Z) := get_expr (λ e, mjoin (inode_stack e !! n)).
Definition sp_current_iroot : sm (option Z) := iroot 0.
Definition sp_right_iroot : sm (option Z) := iroot 1.
Definition sp_left_iroot : sm (option Z) := iroot 2.

Section scopes.
Context (fuel : nat).

(** [while(itr->next != NULL) itr = itr->next;] *)
Definition chain_last (a : Z) : sm Z :=
  λ s, b ← loop fuel (last_step (inodes (expr s))) a; Ret (s, b).

Definition sp_push_inode (inode : Z) : sm (option Z) :=
  r ← sp_current_iroot;
  match r with
  | None => mret None
  | Some a => itr ← chain_last a; _ ← set_node itr (set_nx (Some inode)); mret (Some inode)
  end.

(** [sp_gencode] puts the instruction into the current scope; its [szinst] is 0 *)
Definition sp_gencode (opcode : Z) (rec : node_arg) : sm Z :=
  n ← sp_create_inode opcode rec; _ ← sp_push_inode n; mret 0.

(** ** Emission *)

(** The argument [is_gencode] gets from a node. *)
Definition node_genarg (x : node_arg) : sm genarg :=
  match x with
  | NSym a => rec_arg a
  | NNum z => mret (GNum z)
  | NNull => mret GNull
  end.

(** the cases INS_F2O_0 to INS_F2O_15 and INS_CALL: a function without an
    address waits in its queue *)
Definition is_call (ins : Z) : bool := ((INS_F2O <=? ins) && (ins <? INS_F2O + 16)) || (ins =? INS_CALL).

Definition queue_call (ins : Z) (x : node_arg) : sm unit :=
  if is_call ins then
    match x with
    | NSym a =>
        r ← sym a;
        if offset r =? SYM_UNDEFINED then
          o ← gets current_offset; _ ← jmp_add fuel a ins o; mret tt
        else mret tt
    | _ => lift Undef
    end
  else mret tt.

Definition emit_node (n : ins_node) : sm unit :=
  _ ← queue_call (n_ins n) (n_rec n);
  advance_ (λ o, x ← node_genarg (n_rec n); gencode o (n_ins n) x).

(** one turn of the flushing loops; [false] when the chain is empty *)
Definition flush_step (root : Z) : sm bool :=
  r ← node root;
  match n_next r with
  | None => mret false
  | Some inode =>
      n ← node inode;
      _ ← emit_node n;
      _ ← set_node root (set_nx (n_next n));
      _ ← free_node inode;
      mret true
  end.

Definition sp_flush_scope_now_s (root : option Z) : sm unit :=
  match root with
  | None => mret tt
  | Some a => sm_while fuel (flush_step a)
  end.

Definition sp_flush_scope_now : sm unit :=
  root ← sp_current_iroot;
  root_after ← sp_right_iroot;
  _ ← sp_flush_scope_now_s root;
  sp_flush_scope_now_s root_after.

Definition sp_flush_scope_s (scope : option Z) : sm unit :=
  root ← sp_current_iroot;
  root_after ← sp_right_iroot;
  match scope with
  | None => sp_flush_scope_now
  | Some a =>
      i ← chain_last a;
      root ← lift (from_option_ub root);
      r ← node root;
      _ ← set_node i (set_nx (n_next r));
      j ← chain_last i;
      root_after ← lift (from_option_ub root_after);
      ra ← node root_after;
      _ ← set_node j (set_nx (n_next ra));
      _ ← set_node root (set_nx None);
      set_node root_after (set_nx None)
  end.

Definition sp_flush_scope : sm unit := left ← sp_left_iroot; sp_flush_scope_s left.

(** ** Scopes *)
Definition PREFIX_a : list Z := [95; 95; 97].
Definition PREFIX_z : list Z := [95; 95; 122].
Definition PREFIX_p : list Z := [95; 95; 112].

Definition sp_set_scope_var (rec : option Z) : sm (option Z) :=
  inode ← sp_current_iroot;
  _ ← match inode with
      | None => mret tt
      | Some a => set_node a (λ n, mkNode (n_next n) (n_ins n) (n_rec n) rec)
      end;
  mret rec.

Definition sp_get_scope_var : sm (option Z) :=
  inode ← sp_current_iroot;
  match inode with None => mret None | Some a => n ← node a; mret (scope_var n) end.

Definition sp_create_new_scope (var : option Z) : sm unit :=
  la ← sp_create_label fuel PREFIX_a;
  na ← sp_create_inode INS_LBL (NSym la);
  _ ← sp_push_iroot (Some na);
  lz ← sp_create_label fuel PREFIX_z;
  nz ← sp_create_inode INS_LBL (NSym lz);
  _ ← sp_push_iroot (Some nz);
  _ ← sp_set_scope_var var;
  mret tt.

Definition free_root (root : option Z) : sm unit :=
  match root with None => mret tt | Some a => free_node a end.

Definition sp_destroy_scope : sm unit :=
  _ ← sp_flush_scope;
  root ← sp_pop_iroot; _ ← free_root root;
  root ← sp_pop_iroot; free_root root.

(** one turn of [sp_clear_current_scope] *)
Definition clear_step (root : Z) : sm bool :=
  r ← node root;
  match n_next r with
  | None => mret false
  | Some inode =>
      n ← node inode;
      _ ← set_node root (set_nx (n_next n));
      _ ← free_node inode;
      mret true
  end.

Definition sp_clear_current_scope : sm unit :=
  root ← sp_current_iroot;
  match root with
  | None => mret tt
  | Some a => sm_while fuel (clear_step a)
  end.

(** one turn of [sp_clone_scope], which puts a copy of the node into the scope it
    walks along *)
Definition clone_node (inode : Z) : sm (option Z) :=
  n ← node inode;
  _ ← queue_call (n_ins n) (n_rec n);
  _ ← advance_ (λ o, sp_gencode (n_ins n) (n_rec n));
  n ← node inode; mret (n_next n).

Definition clone_step (x : option Z * sem) : res (option Z * sem + sem) :=
  match x.1 with
  | None => Ret (inr x.2)
  | Some inode => y ← clone_node inode x.2; Ret (inl (y.2, y.1))
  end.

Definition clone_nodes (inode : option Z) : sm unit := λ s, s' ← loop fuel clone_step (inode, s); Ret (s', tt).

Definition sp_clone_scope : sm unit :=
  root ← sp_current_iroot;
  match root with
  | None => mret tt
  | Some a => r ← node a; clone_nodes (n_next r)
  end.

(** [sp_merge_scope_left], the current scopes: [root] before [next_root] *)
Definition merge_before (root next_root : option Z) : sm unit :=
  match root with
  | None => mret tt
  | Some a =>
      r ← node a;
      match n_next r with
      | None => mret tt
      | Some prev_nodes =>
          inode ← chain_last prev_nodes;
          next_root ← lift (from_option_ub next_root);
          nr ← node next_root;
          _ ← set_node next_root (set_nx (Some prev_nodes));
          _ ← set_node inode (set_nx (n_next nr));
          free_node a
      end
  end.

(** the scopes after: [root_after] behind [next_root_after] *)
Definition merge_behind (root_after next_root_after : option Z) : sm unit :=
  match root_after with
  | None => mret tt
  | Some a =>
      r ← node a;
      match n_next r with
      | None => mret tt
      | Some prev_nodes =>
          next_root_after ← lift (from_option_ub next_root_after);
          n ← node next_root_after;
          match n_next n with
          | None => _ ← set_node next_root_after (set_nx (Some prev_nodes)); free_node a
          | Some inode =>
              inode ← chain_last inode;
              _ ← set_node inode (set_nx (Some prev_nodes));
              free_node a
          end
      end
  end.

Definition sp_merge_scope_left : sm unit :=
  root ← sp_pop_iroot;
  root_after ← sp_pop_iroot;
  next_root ← sp_current_iroot;
  next_root_after ← sp_right_iroot;
  _ ← merge_before root next_root;
  merge_behind root_after next_root_after.

(** what stands behind the first [return] is never reached *)
Definition sp_merge_scope_right : sm unit :=
  root ← sp_pop_iroot;
  root_after ← sp_pop_iroot;
  next_root ← sp_current_iroot;
  match root with
  | None => mret tt
  | Some a =>
      r ← node a;
      match n_next r with
      | None => mret tt
      | Some prev_nodes =>
          nr ← lift (from_option_ub next_root);
          _ ← node nr;
          _ ← set_node nr (set_nx (Some prev_nodes));
          free_node a
      end
  end.

Definition sp_swap_scope : sm unit :=
  l ← get_expr inode_stack;
  match l with
  | a :: b :: l' => mod_expr (set_roots (b :: a :: l'))
  | _ => lift Undef
  end.

(** ** Scopes of method calls *)
Definition sp_create_method_scope : sm unit :=
  lp ← sp_create_label fuel PREFIX_p;
  n ← sp_create_inode INS_LBL (NSym lp);
  l ← get_expr method_scope;
  _ ← lift (guardb (length l <? SEM_MAX_STACK)%nat);
  mod_expr (set_method_scope (Some n :: l)).

(** The entry cleared is the one above the popped one: it must be inside the
    array. *)
Definition sp_destroy_method_scope : sm unit :=
  l ← get_expr method_scope;
  match l with
  | [] => lift Undef
  | current :: l' =>
      _ ← lift (guardb (S (length l') <? SEM_MAX_STACK)%nat);
      _ ← mod_expr (set_method_scope l');
      match current with
      | None => mret tt
      | Some a => _ ← sp_flush_scope_now_s (Some a); free_node a
      end
  end.

Definition sp_flush_method_param : sm unit :=
  l ← get_expr method_scope;
  match l with
  | [] => mret tt
  | current :: _ => sp_flush_scope_s current
  end.
End scopes.

Lemma node_some a n s : cells (inodes (expr s)) !! a = Some n → node a s = Ret (s, n).
Proof. intros H. unfold node. by rewrite (deref_some _ _ _ H). Qed.

(** a state with other nodes *)
Definition with_nodes (i : store ins_node) (s : sem) : sem := set_expr (set_inodes i (expr s)) s.

Lemma set_node_some a n f s :
  cells (inodes (expr s)) !! a = Some n →
  set_node a f s = Ret (with_nodes (set_cells (<[a := f n]> (cells (inodes (expr s)))) (inodes (expr s))) s, tt).
Proof. intros H. unfold set_node. by rewrite (upd_some _ _ _ _ H). Qed.

Lemma free_node_some a n s :
  cells (inodes (expr s)) !! a = Some n →
  free_node a s = Ret (with_nodes (set_cells (delete a (cells (inodes (expr s)))) (inodes (expr s))) s, tt).
Proof. intros H. unfold free_node. by rewrite (free_some _ _ _ H). Qed.

(** ** The instruction of a node *)
Abbreviation ncode := (Z * node_arg)%type.

Definition code_of (x : Z * ins_node) : ncode := (n_ins x.2, n_rec x.2).

(** the instruction with a symbol of offset [off] as operand *)
Definition sym_instr (ins off : Z) : instr :=
  if class3 (classify ins) then I3 ins (u16 off)
  else if class2 (classify ins) then I2 ins off
  else I1 ins.

(** The instruction a node stands for, if it can be emitted: it is well-formed,
    and its symbol is in the table and has a C string as name. *)
Definition node_instr (T : gmap Z info) (x : ncode) : option instr :=
  let cl := classify x.1 in
  match x.2 with
  | NSym a =>
      i ← T !! a;
      let j := sym_instr x.1 (i_offset i) in
      if negb (ctx_class cl) && forallb (λ c, negb (c =? 0)) (i_name i) && instr_wf j then Some j else None
  | NNum z =>
      let j := ISys (x.1 - INS_SYSCALL0) z in
      if negb (is_call x.1 || class3 cl || class2 cl || class1 cl) && instr_wf j then Some j else None
  | NNull =>
      if negb (is_call x.1) && class1 cl && instr_wf (I1 x.1) then Some (I1 x.1) else None
  end.

(** the table after the call [x] is emitted at [o] *)
Definition wait_call (o : Z) (x : ncode) (T : gmap Z info) : gmap Z info :=
  match x.2 with
  | NSym a =>
      match T !! a with
      | Some i => if is_call x.1 && (i_offset i =? SYM_UNDEFINED) then <[a := set_queue (i_queue i ++ [(x.1, o)]) i]> T else T
      | None => T
      end
  | _ => T
  end.

(** [T'] has the symbols of [T], perhaps with other queues. *)
Definition extends (T T' : gmap Z info) : Prop := ∀ a i, T !! a = Some i → ∃ q, T' !! a = Some (set_queue q i).

Lemma set_queue_id i : set_queue (i_queue i) i = i.
Proof. by destruct i. Qed.

#[export] Instance extends_preorder : PreOrder extends.
Proof.
  split.
  - intros T a i H. exists (i_queue i). by rewrite set_queue_id.
  - intros T1 T2 T3 H1 H2 a i H. destruct (H1 _ _ H) as (q & H'). destruct (H2 _ _ H') as (q' & H''). by exists q'.
Qed.

Lemma subseteq_extends T T' : T ⊆ T' → extends T T'.
Proof. intros H a i Ha. exists (i_queue i). rewrite set_queue_id. by eapply lookup_weaken. Qed.

Lemma wait_call_extends o x T : extends T (wait_call o x T).
Proof.
  unfold wait_call. destruct x.2 as [a| |]; try reflexivity. destruct (T !! a) as [i|] eqn:Ha; [|reflexivity].
  destruct (_ && _); [|reflexivity]. intros b j Hb. destruct (decide (b = a)) as [->|Hne].
  - rewrite lookup_insert_eq. simplify_eq. eauto.
  - rewrite lookup_insert_ne by done. exists (i_queue j). by rewrite set_queue_id.
Qed.

Lemma node_instr_extends T T' x i : extends T T' → node_instr T x = Some i → node_instr T' x = Some i.
Proof.
  intros He. unfold node_instr. destruct x.2 as [a| |]; try done. destruct (T !! a) as [j|] eqn:Ha; [|done].
  destruct (He _ _ Ha) as (q & ->). done.
Qed.

Lemma nodes_extends T T' xs is_ : extends T T' → mapM (node_instr T) xs = Some is_ → mapM (node_instr T') xs = Some is_.
Proof.
  intros He. revert is_. induction xs as [|x xs IH]; intros is_ H; cbn in *; [done|].
  apply bind_Some in H as (i & Hi & H). apply bind_Some in H as (k & Hk & [= <-]).
  rewrite (node_instr_extends _ _ _ _ He Hi). cbn. by rewrite (IH k).
Qed.

(** [is_gencode] writes the instruction of the node *)
Lemma gencode_node T x i a st off :
  node_instr T x = Some i →
  (match x.2 with
   | NSym b => ∃ r, T !! b = Some r ∧ a = GRec (i_offset r) (to_string (i_name r))
   | NNum z => a = GNum z
   | NNull => a = GNull
   end) → 0 ≤ off → off + isize i ≤ MAX_BUFFER_SIZE →
  ∃ c', is_gencode off x.1 a st = Ret (gen_state c' (off + isize i) st, isize i) ∧ patched (code st) c' off (encode i).
Proof.
  intros Hi Ha H0 Hm. unfold node_instr in Hi. destruct x as [ins [b|z|]]; cbn [fst snd] in *.
  - destruct Ha as (r & Hr & ->). rewrite Hr in Hi. cbn in Hi.
    destruct (ctx_class _) eqn:Hctx; cbn in Hi; [done|]. destruct (forallb _ _); cbn in Hi; [|done].
    destruct (instr_wf _) eqn:Hwf; [|done]. injection Hi as <-. unfold sym_instr in *.
    destruct (class3 (classify ins)) eqn:E3.
    + change (isize (I3 ins (u16 (i_offset r)))) with 3. apply gencode_jump; [|done|exact Hm].
      cbn in Hwf |- *. by apply andb_true_iff in Hwf as [-> _].
    + destruct (class2 (classify ins)) eqn:E2.
      * apply (gencode_instr st off (I2 ins (i_offset r))); try done. by apply arg_ok2_rec.
      * apply (gencode_instr st off (I1 ins)); try done. apply arg_ok1.
  - subst a. destruct (negb _); cbn [andb] in Hi; [|done]. destruct (instr_wf _) eqn:Hwf; [|done].
    injection Hi as <-.
    pose proof (gencode_instr st off (ISys (ins - INS_SYSCALL0) z) (GNum z) Hwf (arg_okS _ _) H0 Hm) as G.
    replace (opcode_of (ISys (ins - INS_SYSCALL0) z)) with ins in G by (cbn; lia). exact G.
  - subst a. destruct (negb _ && _); cbn [andb] in Hi; [|done]. destruct (instr_wf _) eqn:Hwf; [|done]. injection Hi as <-.
    apply (gencode_instr st off (I1 ins)); try done. apply arg_ok1.
Qed.

(** ** Emitting nodes *)
Section emit.
Context (fuel : nat).

(** the state after emission at the current offset *)
Definition emitted (s s' : sem) (l : list Z) : Prop :=
  patched (code (stream s)) (code (stream s')) (current_offset s) l ∧
  current_offset s' = current_offset s + Z.of_nat (length l) ∧
  stream s' = set_code_size (Z.max (code_size (stream s)) (current_offset s')) (set_code (code (stream s')) (stream s)).

Lemma queue_call_ok n s T x i :
  symbols n (symtab s) T → node_instr T x = Some i → (n < fuel)%nat →
  ∃ t, queue_call fuel x.1 x.2 s = Ret (set_symtab t s, tt) ∧ symbols (S n) t (wait_call (current_offset s) x T).
Proof.
  intros HT Hi Hf. unfold queue_call, wait_call, node_instr in *. destruct x as [ins [a|z|]]; cbn [fst snd] in *.
  - destruct (T !! a) as [j|] eqn:Ha; [|done]. destruct (symbols_lookup _ _ _ _ _ HT Ha) as (r & Hr & _ & _ & Ho & _).
    destruct (is_call ins); cbn [andb].
    + sm_by (sym_some _ _ _ Hr). rewrite Ho. destruct (Z.eqb_spec (i_offset j) SYM_UNDEFINED) as [Hu|Hu].
      * sm_pure. destruct (symbols_jmp_add _ _ _ _ _ ins (current_offset s) fuel HT Ha Hf) as (t & b & Ht & HT').
        exists t. by sm_by (on_tab_ret (st_jmp_add fuel a ins (current_offset s)) s t b Ht).
      * exists (symtab s). rewrite set_symtab_id. split; [done|]. eapply symbols_mono; [done|lia].
    + exists (symtab s). rewrite set_symtab_id. split; [done|]. eapply symbols_mono; [done|lia].
  - destruct (is_call ins); [done|]. exists (symtab s). rewrite set_symtab_id. split; [done|].
    eapply symbols_mono; [done|lia].
  - destruct (is_call ins); [done|]. exists (symtab s). rewrite set_symtab_id. split; [done|].
    eapply symbols_mono; [done|lia].
Qed.

Lemma node_genarg_ok n s T x i :
  symbols n (symtab s) T → node_instr T x = Some i →
  ∃ a, node_genarg x.2 s = Ret (s, a) ∧
    match x.2 with
    | NSym b => ∃ r, T !! b = Some r ∧ a = GRec (i_offset r) (to_string (i_name r))
    | NNum z => a = GNum z
    | NNull => a = GNull
    end.
Proof.
  intros HT Hi. unfold node_instr in Hi. destruct x as [ins [b|z|]]; cbn [fst snd] in *; [|by eexists|by eexists].
  destruct (T !! b) as [j|] eqn:Hb; [|done]. cbn in Hi. destruct (ctx_class _); cbn in Hi; [done|].
  destruct (forallb _ _) eqn:Hn; [|done]. destruct (symbols_lookup _ _ _ _ _ HT Hb) as (r & Hr & Hrn & Hname & Ho & _).
  exists (GRec (i_offset j) (to_string (i_name j))). split; [|by exists j]. rewrite <-Hname, <-Ho.
  apply rec_arg_named; [done|done|]. rewrite Hname. apply Forall_forall. intros c Hc.
  rewrite forallb_forall in Hn. apply list_elem_of_In in Hc. specialize (Hn c Hc). by destruct (Z.eqb_spec c 0).
Qed.

Lemma emit_node_ok n s T x i :
  symbols n (symtab s) T → node_instr T (n_ins x, n_rec x) = Some i → (n < fuel)%nat → 0 ≤ current_offset s →
  current_offset s + isize i ≤ MAX_BUFFER_SIZE →
  ∃ c' t, emit_node fuel x s =
      Ret (set_offset (current_offset s + isize i)
             (set_stream (gen_state c' (current_offset s + isize i) (stream s)) (set_symtab t s)), tt) ∧
    patched (code (stream s)) c' (current_offset s) (encode i) ∧
    symbols (S n) t (wait_call (current_offset s) (n_ins x, n_rec x) T).
Proof.
  intros HT Hi Hf H0 Hm. set (y := (n_ins x, n_rec x)) in *.
  destruct (queue_call_ok n s T y i HT Hi Hf) as (t & Hq & HT').
  assert (Hi' : node_instr (wait_call (current_offset s) y T) y = Some i).
  { eapply node_instr_extends; [apply wait_call_extends|exact Hi]. }
  destruct (node_genarg_ok _ (set_symtab t s) _ y i HT' Hi') as (a & Ha & Hax).
  destruct (gencode_node _ y i a (stream s) (current_offset s) Hi' Hax H0 Hm) as (c' & Hg & Hp).
  exists c', t. split; [|done]. unfold emit_node. sm_by Hq.
  erewrite advance_ret.
  2:{ sm_by Ha. unfold gencode. cbn [stream set_symtab current_offset]. unfold y in Hg. cbn [fst] in Hg. by rewrite Hg. }
  cbn [current_offset set_symtab set_stream snd fst]. pose proof (isize_pos i).
  rewrite u64_id by (unfold MAX_BUFFER_SIZE in Hm; lia). by destruct s.
Qed.

(** the table once the calls of the nodes are emitted from [o] on *)
Fixpoint wait_calls (o : Z) (xs : list ncode) (T : gmap Z info) : gmap Z info :=
  match xs with
  | [] => T
  | x :: xs' => wait_calls (o + match node_instr T x with Some i => isize i | None => 0 end) xs' (wait_call o x T)
  end.

Lemma wait_calls_extends xs : ∀ o T, extends T (wait_calls o xs T).
Proof. induction xs as [|x xs IH]; intros o T; cbn; [done|]. etrans; [apply wait_call_extends|apply IH]. Qed.

(** Only the stream, the table, the offset and the nodes differ. *)
Definition sframe (s s' : sem) : Prop :=
  s' = set_expr (set_inodes (inodes (expr s')) (expr s))
         (set_offset (current_offset s') (set_symtab (symtab s') (set_stream (stream s') s))).

Lemma sframe_refl s : sframe s s.
Proof. destruct s as [st t o li cc f e k ls os rs rq lo [i sk op vc sc ms] er]. done. Qed.

Lemma sframe_trans s0 s1 s2 : sframe s0 s1 → sframe s1 s2 → sframe s0 s2.
Proof. unfold sframe. intros H1 H2. rewrite H2. rewrite H1. done. Qed.

Lemma emitted_nil s : current_offset s ≤ code_size (stream s) → emitted s s [].
Proof.
  intros H. split; [split; [apply region_nil|done]|]. split; [cbn; lia|]. rewrite Z.max_l by done. by destruct (stream s).
Qed.

Lemma emitted_app s s1 s2 l1 l2 : emitted s s1 l1 → emitted s1 s2 l2 → emitted s s2 (l1 ++ l2).
Proof.
  intros (H1 & H2 & H3) (H4 & H5 & H6). split.
  - eapply patched_app; [exact H1|]. by rewrite <-H2.
  - split; [rewrite length_app; lia|]. rewrite H6. rewrite H3. cbn. unfold set_code_size, set_code. cbn. f_equal. lia.
Qed.

Lemma emitted_size s s' l : emitted s s' l → current_offset s' ≤ code_size (stream s').
Proof. intros (_ & _ & ->). cbn. lia. Qed.

(** one turn: the first node is emitted, unlinked and freed *)
Lemma flush_step_ok n s T a r b nb ns hs ls i :
  chains (inodes (expr s)) (Some a :: hs) (((a, r) :: (b, nb) :: ns) :: ls) → store_ok (inodes (expr s)) →
  symbols n (symtab s) T → node_instr T (code_of (b, nb)) = Some i → (n < fuel)%nat →
  0 ≤ current_offset s → current_offset s + isize i ≤ MAX_BUFFER_SIZE →
  ∃ s', flush_step fuel a s = Ret (s', true) ∧ emitted s s' (encode i) ∧
    chains (inodes (expr s')) (Some a :: hs) (((a, set_nx (n_next nb) r) :: ns) :: ls) ∧ store_ok (inodes (expr s')) ∧
    symbols (S n) (symtab s') (wait_call (current_offset s) (code_of (b, nb)) T) ∧ sframe s s'.
Proof.
  intros Hch Hsok HT Hi Hf H0 Hm. pose proof (chains_head _ _ _ _ _ _ Hch) as (Ha & Hl1).
  inversion Hl1 as [|? ? ? ? Hb Hl2 E1]; subst.
  destruct (emit_node_ok n s T nb i HT Hi Hf H0 Hm) as (c' & t & He & Hp & HT').
  assert (Hab : a ≠ b).
  { destruct Hch as [_ Hnd]. intros ->. cbn in Hnd. apply NoDup_cons in Hnd as [Hn _]. apply Hn. set_solver. }
  unfold flush_step. sm_by (node_some _ _ _ Ha).
  change (nx r) with (n_next r) in E1. rewrite <-E1. sm_by (node_some _ _ _ Hb). sm_by He.
  set (s1 := set_offset _ _).
  sm_by (set_node_some a r (set_nx (n_next nb)) s1 Ha). change (expr s1) with (expr s).
  set (st1 := set_cells (<[a := _]> _) _).
  assert (Hb1 : cells st1 !! b = Some nb) by (cbn; by rewrite lookup_insert_ne).
  sm_by (free_node_some b nb (with_nodes st1 s1) Hb1).
  eexists. split; [reflexivity|].
  unfold with_nodes. cbn [stream expr set_expr current_offset inodes set_inodes symtab].
  split; [|split; [|split; [|split]]].
  - split; [exact Hp|]. split; [done|]. cbn. unfold gen_state. done.
  - exact (chains_unlink (inodes (expr s)) a r b nb ns hs ls Hch).
  - apply store_ok_free. by apply store_ok_upd with (n := r).
  - exact HT'.
  - by destruct s as [st t0 o li cc f e k lm os rs rq lo [ino sk op vc sc ms] er].
Qed.

(** *** The loop *)
Lemma flush_chain ns : ∀ n s T a r hs ls is_,
  chains (inodes (expr s)) (Some a :: hs) (((a, r) :: ns) :: ls) → store_ok (inodes (expr s)) →
  symbols n (symtab s) T → mapM (node_instr T) (code_of <$> ns) = Some is_ → (n + length ns < fuel)%nat →
  0 ≤ current_offset s ≤ code_size (stream s) → current_offset s + psize is_ ≤ MAX_BUFFER_SIZE →
  ∃ s', loop (S (length ns)) (while_step (flush_step fuel a)) s = Ret s' ∧ emitted s s' (encode_prog is_) ∧
    chains (inodes (expr s')) (Some a :: hs) ([(a, set_nx None r)] :: ls) ∧ store_ok (inodes (expr s')) ∧
    symbols (n + length ns) (symtab s') (wait_calls (current_offset s) (code_of <$> ns) T) ∧ sframe s s'.
Proof.
  induction ns as [|[b nb] ns IH]; intros n s T a r hs ls is_ Hch Hsok HT His Hf H0 Hm.
  - cbn in His. injection His as <-. exists s. pose proof (chains_head _ _ _ _ _ _ Hch) as (Ha & Hl1).
    pose proof (lseg_nil_inv _ _ _ Hl1) as E.
    assert (Hr : set_nx None r = r) by (destruct r; cbn in *; by subst).
    split; [|rewrite Hr, Nat.add_0_r; split; [apply emitted_nil, H0|]; do 3 (split; [done|]); apply sframe_refl].
    apply loop_inr. unfold while_step, flush_step. sm_by (node_some _ _ _ Ha).
    change (n_next r) with (nx r). by rewrite E.
  - cbn [fmap list_fmap mapM] in His. apply bind_Some in His as (i & Hi & His). apply bind_Some in His as (is' & His & E).
    injection E as <-. rewrite psize_cons in Hm. pose proof (psize_nonneg is'). cbn [length] in Hf.
    destruct (flush_step_ok n s T a r b nb ns hs ls i Hch Hsok HT Hi) as (s1 & Hs1 & He1 & Hch1 & Hok1 & HT1 & Hf1); [lia|lia|lia|].
    pose proof (emitted_size _ _ _ He1) as Hsz1. pose proof (proj1 (proj2 He1)) as Ho1. fold (isize i) in Ho1. pose proof (isize_pos i).
    assert (His' : mapM (node_instr (wait_call (current_offset s) (code_of (b, nb)) T)) (code_of <$> ns) = Some is').
    { eapply nodes_extends; [apply wait_call_extends|exact His]. }
    destruct (IH (S n) s1 _ a (set_nx (n_next nb) r) hs ls is' Hch1 Hok1 HT1 His') as
      (s' & Hs' & He' & Hch' & Hok' & HT' & Hf'); try lia.
    exists s'. split; [|split; [|split; [|split; [done|split; [|by eapply sframe_trans]]]]].
    + cbn [length]. erewrite loop_inl; [exact Hs'|]. unfold while_step. by rewrite Hs1.
    + rewrite encode_prog_cons. by eapply emitted_app.
    + exact Hch'.
    + cbn [fmap list_fmap wait_calls length]. rewrite Hi. rewrite <-Ho1. by rewrite Nat.add_succ_r.
Qed.

(** flushing one chain, the first of the stack *)
Lemma flush_one n s T a r ns hs ls is_ :
  chains (inodes (expr s)) (Some a :: hs) (((a, r) :: ns) :: ls) → store_ok (inodes (expr s)) →
  symbols n (symtab s) T → mapM (node_instr T) (code_of <$> ns) = Some is_ → (n + length ns < fuel)%nat →
  0 ≤ current_offset s ≤ code_size (stream s) → current_offset s + psize is_ ≤ MAX_BUFFER_SIZE →
  ∃ s', sp_flush_scope_now_s fuel (Some a) s = Ret (s', tt) ∧ emitted s s' (encode_prog is_) ∧
    chains (inodes (expr s')) (Some a :: hs) ([(a, set_nx None r)] :: ls) ∧ store_ok (inodes (expr s')) ∧
    symbols (n + length ns) (symtab s') (wait_calls (current_offset s) (code_of <$> ns) T) ∧ sframe s s'.
Proof.
  intros Hch Hok HT His Hf H0 Hm.
  destruct (flush_chain ns n s T a r hs ls is_ Hch Hok HT His Hf H0 Hm) as (s' & Hl & Hr).
  exists s'. split; [|exact Hr]. unfold sp_flush_scope_now_s, sm_while.
  rewrite (loop_more _ (S (length ns)) fuel) by (by rewrite Hl || lia). by rewrite Hl.
Qed.
End emit.

(** ** Scopes as lists

    [scoped e L]: the chains of the scopes, from the top of the stack, hold the
    instructions [L]. *)
Definition scope_is (l : list (Z * ins_node)) (c : list ncode) : Prop :=
  ∃ a r ns, l = (a, r) :: ns ∧ code_of <$> ns = c.

Definition scopes (i : store ins_node) (hs : list (option Z)) (L : list (list ncode)) : Prop :=
  store_ok i ∧ ∃ ls, chains i hs ls ∧ Forall2 scope_is ls L.

Definition scoped (e : exprs) (L : list (list ncode)) : Prop := scopes (inodes e) (inode_stack e) L.

(** Only nodes and scopes differ. *)
Definition quiet (s s' : sem) : Prop := s' = set_expr (expr s') s.

Lemma quiet_set e s : quiet s (set_expr e s).
Proof. by destruct s. Qed.

Lemma quiet_trans s0 s1 s2 : quiet s0 s1 → quiet s1 s2 → quiet s0 s2.
Proof. unfold quiet. intros H1 H2. rewrite H2, H1. done. Qed.

Lemma scope_is_root a r ns c : scope_is ((a, r) :: ns) c ↔ code_of <$> ns = c.
Proof. split; [by intros (? & ? & ? & [= -> -> ->] & H)|by exists a, r, ns]. Qed.

(** the first root of the stack *)
Lemma scoped_root i hs ls c L :
  chains i hs ls → Forall2 scope_is ls (c :: L) →
  ∃ a r ns hs' ls', hs = Some a :: hs' ∧ ls = ((a, r) :: ns) :: ls' ∧ code_of <$> ns = c ∧ Forall2 scope_is ls' L ∧
    cells i !! a = Some r ∧ chains i hs' ls'.
Proof.
  intros Hch HF. apply Forall2_cons_inv_r in HF as (l & ls' & (a & r & ns & -> & Hc) & HF & ->).
  pose proof Hch as [Hf _]. apply Forall2_cons_inv_r in Hf as (h & hs' & Hl & Hf & ->).
  inversion Hl as [|? ? ? ? Ha Hl1]; subst. apply chains_tail in Hch. by exists a, r, ns, hs', ls'.
Qed.

(** the last structure of a scope, and what the scope is with a chain behind it *)
Lemma scope_last l c :
  scope_is l c → ∃ l0 p x, l = l0 ++ [(p, x)] ∧ length l0 = length c ∧
    ∀ q k d, code_of <$> k = d → scope_is (l0 ++ (p, set_nx q x) :: k) (c ++ d).
Proof.
  intros (a & r & ns & -> & <-). destruct ns as [|[p x] ns _] using rev_ind.
  - exists [], a, r. split; [done|]. split; [done|]. intros q k d Hd. by exists a, (set_nx q r), k.
  - exists ((a, r) :: ns), p, x. split; [done|]. split; [cbn; by rewrite length_fmap, length_app, Nat.add_1_r|].
    intros q k d <-. exists a, r, (ns ++ (p, set_nx q x) :: k). split; [done|].
    by rewrite !fmap_app, <-app_assoc.
Qed.

Lemma app_snoc_split {A} (l k m : list A) (x y : A) :
  l ++ x :: k = m ++ [y] → ∃ k', x :: k = k' ++ [y] ∧ m = l ++ k'.
Proof.
  destruct (exists_last (l := x :: k)) as (k' & z & E); [done|]. rewrite E, app_assoc.
  intros [H ->]%app_inj_tail. by exists k'.
Qed.

Section scopes_ok.
Context (fuel : nat).

Lemma chain_last_ok s a l p x :
  lseg (inodes (expr s)) (Some a) (l ++ [(p, x)]) None → (length l < fuel)%nat → chain_last fuel a s = Ret (s, p).
Proof.
  intros Hl Hf. destruct (walk_last _ _ _ _ _ fuel Hl Hf) as (a' & [= <-] & E). unfold chain_last. by rewrite E.
Qed.

Lemma create_inode_eq ins rec s :
  let m := malloc (mkNode None ins rec None) (inodes (expr s)) in
  sp_create_inode ins rec s = Ret (with_nodes m.2 s, m.1).
Proof. done. Qed.

Lemma iroot_eq n s h : inode_stack (expr s) !! n = Some h → iroot n s = Ret (s, h).
Proof. intros H. unfold iroot, get_expr, gets. cbn. by rewrite H. Qed.

Lemma chains_first i h l hs ls : chains (N := ins_node) i (h :: hs) (l :: ls) → lseg i h l None.
Proof. intros [Hf _]. by apply Forall2_cons in Hf as [Hl _]. Qed.

Lemma chains_lookup i h l p x l' hs ls : chains i (h :: hs) ((l ++ (p, x) :: l') :: ls) → cells i !! p = Some x.
Proof. intros [Hf _]. apply Forall2_cons in Hf as [Hl _]. eapply lseg_lookup; [exact Hl|set_solver]. Qed.

Lemma push_inode_eq s a l p x b :
  inode_stack (expr s) !! 0%nat = Some (Some a) → lseg (inodes (expr s)) (Some a) (l ++ [(p, x)]) None →
  (length l < fuel)%nat →
  sp_push_inode fuel b s =
    Ret (with_nodes (set_cells (<[p := set_nx (Some b) x]> (cells (inodes (expr s)))) (inodes (expr s))) s, Some b).
Proof.
  intros Hr Hl Hf. assert (Hp : cells (inodes (expr s)) !! p = Some x) by (eapply lseg_lookup; [exact Hl|set_solver]).
  unfold sp_push_inode. sm_by (iroot_eq 0 s (Some a) Hr). sm_by (chain_last_ok s a l p x Hl Hf).
  by sm_by (set_node_some p x (set_nx (Some b)) s Hp).
Qed.

(** *** Instructions *)
Lemma chain_snoc (a : Z) (r : ins_node) ns :
  ∃ l0 p x, (a, r) :: ns = l0 ++ [(p, x)] ∧ length l0 = length ns ∧
    ∀ b nd, ∃ r' ns', l0 ++ [(p, set_nx (Some b) x); (b, nd)] = (a, r') :: ns' ∧ ns'.*1 = ns.*1 ++ [b] ∧
      code_of <$> ns' = (code_of <$> ns) ++ [code_of (b, nd)].
Proof.
  destruct ns as [|[p x] ns _] using rev_ind.
  - exists [], a, r. split; [done|]. split; [done|]. intros b nd. by exists (set_nx (Some b) r), [(b, nd)].
  - exists ((a, r) :: ns), p, x. split; [done|]. split; [rewrite length_app; cbn; lia|].
    intros b nd. exists r, (ns ++ [(p, set_nx (Some b) x); (b, nd)]). split; [done|].
    rewrite !fmap_app. cbn. by rewrite <-!app_assoc.
Qed.

Lemma gencode_chain s ins rec a r ns hs ls :
  store_ok (inodes (expr s)) → inode_stack (expr s) = Some a :: hs →
  chains (inodes (expr s)) (Some a :: hs) (((a, r) :: ns) :: ls) → (length ns < fuel)%nat →
  ∃ s' r' ns' b, sp_gencode fuel ins rec s = Ret (s', 0) ∧ quiet s s' ∧ inode_stack (expr s') = Some a :: hs ∧
    store_ok (inodes (expr s')) ∧ chains (inodes (expr s')) (Some a :: hs) (((a, r') :: ns') :: ls) ∧
    ns'.*1 = ns.*1 ++ [b] ∧ code_of <$> ns' = (code_of <$> ns) ++ [(ins, rec)].
Proof.
  intros Hok Hst Hch Hf. destruct (chain_snoc a r ns) as (l0 & p & x & El & Hlen & Hsc).
  set (nd := mkNode None ins rec None). set (b := brk (inodes (expr s))).
  set (i1 := (malloc nd (inodes (expr s))).2). set (s1 := with_nodes i1 s).
  assert (Hok1 : store_ok i1) by by apply store_ok_malloc.
  assert (Hb : b ∉ (concat (((a, r) :: ns) :: ls)).*1).
  { intros Hin. pose proof (chains_below _ _ _ _ Hok Hch Hin). unfold b in *. lia. }
  assert (Hch1 : chains i1 (Some b :: Some a :: hs) ([(b, nd)] :: (l0 ++ [(p, x)]) :: ls)).
  { rewrite <-El. split.
    - apply Forall2_cons. split; [repeat constructor; cbn; by rewrite lookup_insert_eq|].
      apply (chains_frame (inodes (expr s))); [done|]. intros d Hd. cbn. apply lookup_insert_ne. fold b. by intros ->.
    - cbn. apply NoDup_cons. split; [exact Hb|]. by destruct Hch as [_ Hn]. }
  apply chains_swap in Hch1. pose proof (chains_first _ _ _ _ _ Hch1) as Hl1.
  assert (Hp : cells i1 !! p = Some x) by (eapply lseg_lookup; [exact Hl1|set_solver]).
  destruct (Hsc b nd) as (r' & ns' & E & Ea & Ec).
  exists (with_nodes (set_cells (<[p := set_nx (Some b) x]> (cells i1)) i1) s1), r', ns', b.
  split; [|split; [by destruct s|split; [done|split; [by apply store_ok_upd with (n := x)|split; [|done]]]]].
  - unfold sp_gencode. sm_by (create_inode_eq ins rec s). fold nd i1 s1 b.
    assert (Hr : inode_stack (expr s1) !! 0%nat = Some (Some a)) by (cbn; by rewrite Hst).
    by sm_by (push_inode_eq s1 a l0 p x b Hr Hl1 ltac:(lia)).
  - rewrite <-E. exact (chains_append i1 (Some a) l0 p x b nd hs ls Hch1 eq_refl).
Qed.

Lemma gencode_scope s ins rec c L :
  scoped (expr s) (c :: L) → (length c < fuel)%nat →
  ∃ s', sp_gencode fuel ins rec s = Ret (s', 0) ∧ quiet s s' ∧ scoped (expr s') ((c ++ [(ins, rec)]) :: L).
Proof.
  intros [Hok (ls & Hch & HF)] Hf.
  destruct (scoped_root _ _ _ _ _ Hch HF) as (a & r & ns & hs & ls' & Hst & -> & Hc & HF' & Ha & _).
  rewrite Hst in Hch. assert (length ns = length c) by (rewrite <-Hc; by rewrite length_fmap).
  destruct (gencode_chain s ins rec a r ns hs ls' Hok Hst Hch ltac:(lia)) as (s' & r' & ns' & b & E & Hq & Hst' & Hok' & Hch' & _ & Hc').
  exists s'. split; [done|]. split; [done|]. split; [done|]. exists (((a, r') :: ns') :: ls'). rewrite Hst'. split; [done|].
  apply Forall2_cons. split; [|done]. apply scope_is_root. by rewrite Hc', Hc.
Qed.

(** *** Flushing into the scope around *)
Lemma flush_outer s c ca o L :
  scoped (expr s) (c :: ca :: o :: L) → (length o + length c < fuel)%nat →
  ∃ s', sp_flush_scope fuel s = Ret (s', tt) ∧ quiet s s' ∧ scoped (expr s') ([] :: [] :: (o ++ c ++ ca) :: L).
Proof.
  intros [Hok (ls & Hch & HF)] Hf.
  destruct (scoped_root _ _ _ _ _ Hch HF) as (a & r & ns & hs1 & ls1 & Hst & -> & Hc & HF1 & Ha & Hch1).
  destruct (scoped_root _ _ _ _ _ Hch1 HF1) as (b & rb & nb & hs2 & ls2 & -> & -> & Hca & HF2 & Hb & Hch2).
  destruct (scoped_root _ _ _ _ _ Hch2 HF2) as (d & rd & nd & hs & ls & -> & -> & Ho & HF3 & Hd & _).
  destruct (scope_last ((d, rd) :: nd) o) as (l1 & p & x & El & Hlen & Hsc); [by exists d, rd, nd|].
  rewrite Hst, El in Hch. set (i := inodes (expr s)) in *.
  set (i1 := set_cells (<[p := set_nx (n_next r) x]> (cells i)) i).
  set (i2 := set_cells (<[a := set_nx None r]> (cells i1)) i1).
  assert (Hch' : chains i (Some d :: Some a :: Some b :: hs) ((l1 ++ [(p, x)]) :: ((a, r) :: ns) :: ((b, rb) :: nb) :: ls)).
  { eapply chains_perm; [exact Hch|cbn; solve_Permutation|]. cbn. destruct Hch as [Hfa _]. apply Forall2_length in Hfa. by cbn in Hfa. }
  pose proof (chains_first _ _ _ _ _ Hch') as Hl1.
  pose proof (chains_move _ _ _ _ _ _ _ _ _ _ Hch') as Hm. fold i1 in Hm. change (set_cells _ i) with i2 in Hm.
  change (nx r) with (n_next r) in Hm. set (x' := set_nx (n_next r) x) in *.
  destruct (scope_last (l1 ++ (p, x') :: ns) (o ++ c)) as (l3 & q & y & E3 & Hlen3 & Hsc3); [by apply Hsc|].
  destruct (app_snoc_split _ _ _ _ _ E3) as (l4 & E4 & ->). rewrite E3 in Hm.
  assert (Hm' : chains i2 (Some d :: Some b :: Some a :: hs) (((l1 ++ l4) ++ [(q, y)]) :: ((b, rb) :: nb) :: [(a, set_nx None r)] :: ls)).
  { eapply chains_perm; [exact Hm|cbn; solve_Permutation|]. cbn. destruct Hm as [Hfa _]. apply Forall2_length in Hfa. by cbn in Hfa. }
  pose proof (chains_first _ _ _ _ _ Hm') as Hl2.
  pose proof (chains_move _ _ _ _ _ _ _ _ _ _ Hm') as Hm2.
  assert (Haq : a ∉ ((l1 ++ l4) ++ [(q, y)]).*1).
  { intros Hin. pose proof (chains_notin _ _ _ _ _ _ Hm Hin) as H. cbn in H. set_solver. }
  assert (Hl2' : lseg i1 (Some d) ((l1 ++ l4) ++ [(q, y)]) None).
  { eapply lseg_frame; [exact Hl2|]. intros e He. cbn. rewrite (lookup_insert_ne _ a); [done|]. by intros ->. }
  assert (Hl4 : lseg i1 (Some p) (l4 ++ [(q, y)]) None).
  { rewrite <-app_assoc in Hl2'. apply lseg_app in Hl2' as (h & _ & Hl4). rewrite <-E4 in Hl4 |- *. by inversion Hl4; subst. }
  assert (Hbq : b ∉ ((l1 ++ l4) ++ [(q, y)]).*1).
  { intros Hin. pose proof (chains_notin _ _ _ _ _ _ Hm' Hin) as H. cbn in H. set_solver. }
  assert (Hab : a ≠ b).
  { intros ->. assert (Hin : b ∈ ((b, r) :: ns).*1) by set_solver.
    pose proof (chains_notin _ _ _ _ _ b Hch Hin) as H. cbn in H. set_solver. }
  assert (Hap : a ≠ p ∧ b ≠ p).
  { assert (Hin : p ∈ ((l1 ++ l4) ++ [(q, y)]).*1) by (rewrite <-app_assoc, <-E4, fmap_app; cbn; set_solver).
    split; intros ->; done. }
  assert (Hqq : a ≠ q ∧ b ≠ q) by (split; intros ->; [apply Haq|apply Hbq]; rewrite fmap_app; cbn; set_solver).
  destruct Hap as [Hap Hbp]. destruct Hqq as [Haq' Hbq'].
  set (s1 := with_nodes i1 s).
  set (i3 := set_cells (<[q := set_nx (n_next rb) y]> (cells i1)) i1). set (s3 := with_nodes i3 s1).
  set (i4 := set_cells (<[a := set_nx None r]> (cells i3)) i3). set (s4 := with_nodes i4 s3).
  set (i5 := set_cells (<[b := set_nx None rb]> (cells i4)) i4).
  assert (Hq : cells i1 !! q = Some y) by (eapply lseg_lookup; [exact Hl2'|set_solver]).
  assert (Hp : cells i !! p = Some x) by (eapply lseg_lookup; [exact Hl1|set_solver]).
  assert (Hb1 : cells i1 !! b = Some rb) by (cbn; by rewrite lookup_insert_ne).
  assert (Ha3 : cells i3 !! a = Some r) by (cbn; by rewrite !lookup_insert_ne).
  assert (Hb4 : cells i4 !! b = Some rb) by (cbn; by rewrite !lookup_insert_ne).
  assert (Hlens : (length l1 < fuel ∧ length l4 < fuel)%nat).
  { split; [lia|]. rewrite length_app in Hlen3. rewrite length_app in Hlen3. lia. }
  exists (with_nodes i5 s4). split; [|split; [by destruct s|]].
  - unfold sp_flush_scope. assert (H2 : inode_stack (expr s) !! 2%nat = Some (Some d)) by by rewrite Hst.
    sm_by (iroot_eq 2 s (Some d) H2). unfold sp_flush_scope_s.
    assert (H0 : inode_stack (expr s) !! 0%nat = Some (Some a)) by by rewrite Hst.
    assert (H1 : inode_stack (expr s) !! 1%nat = Some (Some b)) by by rewrite Hst.
    sm_by (iroot_eq 0 s (Some a) H0). sm_by (iroot_eq 1 s (Some b) H1).
    sm_by (chain_last_ok s d l1 p x Hl1 (proj1 Hlens)).
    sm_by (lift_ret (from_option_ub (Some a)) s a eq_refl). sm_by (node_some a r s Ha).
    sm_by (set_node_some p x (set_nx (n_next r)) s Hp). fold i i1 s1.
    sm_by (chain_last_ok s1 p l4 q y Hl4 (proj2 Hlens)).
    sm_by (lift_ret (from_option_ub (Some b)) s1 b eq_refl). sm_by (node_some b rb s1 Hb1).
    sm_by (set_node_some q y (set_nx (n_next rb)) s1 Hq). change (inodes (expr s1)) with i1. fold i3 s3.
    sm_by (set_node_some a r (set_nx None) s3 Ha3). change (inodes (expr s3)) with i3. fold i4 s4.
    by rewrite (set_node_some b rb (set_nx None) s4 Hb4).
  - split.
    + change (store_ok i5). eapply store_ok_upd; [|exact Hb4]. eapply store_ok_upd; [|exact Ha3].
      eapply store_ok_upd; [|exact Hq]. by eapply store_ok_upd.
    + exists ([(a, set_nx None r)] :: [(b, set_nx None rb)] :: ((l1 ++ l4) ++ (q, set_nx (nx rb) y) :: nb) :: ls).
      change (inodes (expr (with_nodes i5 s4))) with i5. change (inode_stack (expr (with_nodes i5 s4))) with (inode_stack (expr s)).
      rewrite Hst. split.
      * assert (E : cells i5 = <[b := set_nx None rb]> (<[q := set_nx (nx rb) y]> (cells i2))).
        { cbn. f_equal. by apply insert_insert_ne. }
        unfold set_cells in Hm2. rewrite <-E in Hm2. change (mkStore (cells i5) (brk i2)) with i5 in Hm2.
        eapply chains_perm; [exact Hm2|cbn; solve_Permutation|]. cbn. destruct Hm2 as [Hfa _]. apply Forall2_length in Hfa. by cbn in Hfa.
      * repeat (apply Forall2_cons; split); [by apply scope_is_root|by apply scope_is_root| |done].
        rewrite (app_assoc o). by apply Hsc3.
Qed.

(** *** Leaving a scope *)
Definition with_roots (hs : list (option Z)) (s : sem) : sem := set_expr (set_roots hs (expr s)) s.

Lemma pop_eq s h hs : inode_stack (expr s) = h :: hs → sp_pop_iroot s = Ret (with_roots hs s, h).
Proof. intros H. unfold sp_pop_iroot, get_expr. sm_pure. by rewrite H. Qed.

Lemma drop_root s c L :
  scoped (expr s) (c :: L) →
  ∃ a s1 s2, sp_pop_iroot s = Ret (s1, Some a) ∧ free_node a s1 = Ret (s2, tt) ∧ quiet s s2 ∧ scoped (expr s2) L.
Proof.
  intros [Hok (ls & Hch & HF)].
  destruct (scoped_root _ _ _ _ _ Hch HF) as (a & r & ns & hs & ls' & Hst & -> & _ & HF' & Ha & Hch').
  exists a, (with_roots hs s). eexists. split; [by apply pop_eq|]. split; [by apply (free_node_some a r (with_roots hs s))|].
  split; [by destruct s|]. split; [by apply store_ok_free|]. exists ls'. split; [|done].
  cbn. apply (chains_frame (inodes (expr s))); [done|]. intros b Hb. cbn. apply lookup_delete_ne. intros <-.
  rewrite Hst in Hch. apply (chains_notin _ _ _ _ _ a Hch) in Hb; [done|cbn; set_solver].
Qed.

Lemma drop_two s c ca L :
  scoped (expr s) (c :: ca :: L) →
  ∃ s', (root ← sp_pop_iroot; _ ← free_root root; root ← sp_pop_iroot; free_root root) s = Ret (s', tt) ∧
    quiet s s' ∧ scoped (expr s') L.
Proof.
  intros H. destruct (drop_root _ _ _ H) as (a & s1 & s2 & E1 & E2 & Hq2 & H2).
  destruct (drop_root _ _ _ H2) as (b & s3 & s4 & E3 & E4 & Hq4 & H4).
  exists s4. split; [|split; [by eapply quiet_trans|done]]. sm_by E1. sm_by E2. by sm_by E3.
Qed.

Lemma destroy_outer s c ca o L :
  scoped (expr s) (c :: ca :: o :: L) → (length o + length c < fuel)%nat →
  ∃ s', sp_destroy_scope fuel s = Ret (s', tt) ∧ quiet s s' ∧ scoped (expr s') ((o ++ c ++ ca) :: L).
Proof.
  intros H Hf. destruct (flush_outer s c ca o L H Hf) as (s1 & E1 & Hq1 & H1).
  destruct (drop_two _ _ _ _ H1) as (s2 & E2 & Hq2 & H2).
  exists s2. split; [|split; [by eapply quiet_trans|done]]. unfold sp_destroy_scope. by sm_by E1.
Qed.

(** *** Clearing *)
Lemma clear_chain ns : ∀ s a r hs ls,
  chains (inodes (expr s)) (Some a :: hs) (((a, r) :: ns) :: ls) → store_ok (inodes (expr s)) →
  ∃ s', loop (S (length ns)) (while_step (clear_step a)) s = Ret s' ∧ quiet s s' ∧
    inode_stack (expr s') = inode_stack (expr s) ∧ store_ok (inodes (expr s')) ∧
    chains (inodes (expr s')) (Some a :: hs) ([(a, set_nx None r)] :: ls).
Proof.
  induction ns as [|[b nb] ns IH]; intros s a r hs ls Hch Hok.
  - pose proof (chains_head _ _ _ _ _ _ Hch) as (Ha & Hl1). pose proof (lseg_nil_inv _ _ _ Hl1) as E.
    assert (Hr : set_nx None r = r) by (destruct r; cbn in *; by subst).
    exists s. rewrite Hr. split; [|by destruct s]. apply loop_inr. unfold while_step, clear_step.
    sm_by (node_some _ _ _ Ha). change (n_next r) with (nx r). by rewrite E.
  - pose proof (chains_head _ _ _ _ _ _ Hch) as (Ha & Hl1). inversion Hl1 as [|? ? ? ? Hb Hl2 E1]; subst.
    assert (Hab : a ≠ b).
    { destruct Hch as [_ Hnd]. intros ->. cbn in Hnd. apply NoDup_cons in Hnd as [Hn _]. apply Hn. set_solver. }
    set (i1 := set_cells (<[a := set_nx (n_next nb) r]> (cells (inodes (expr s)))) (inodes (expr s))).
    assert (Hb1 : cells i1 !! b = Some nb) by (cbn; by rewrite lookup_insert_ne).
    set (s1 := with_nodes (set_cells (delete b (cells i1)) i1) (with_nodes i1 s)).
    destruct (IH s1 a (set_nx (n_next nb) r) hs ls) as (s' & E & Hq & Hst & Hok' & Hch').
    { exact (chains_unlink (inodes (expr s)) a r b nb ns hs ls Hch). }
    { apply store_ok_free. by apply store_ok_upd with (n := r). }
    exists s'. split; [|split; [|done]].
    + cbn [length]. erewrite loop_inl; [exact E|]. unfold while_step, clear_step. sm_by (node_some _ _ _ Ha).
      change (nx r) with (n_next r) in E1. rewrite <-E1. sm_by (node_some _ _ _ Hb).
      sm_by (set_node_some a r (set_nx (n_next nb)) s Ha). fold i1. by sm_by (free_node_some b nb (with_nodes i1 s) Hb1).
    + eapply quiet_trans; [|exact Hq]. by destruct s.
Qed.

Lemma clear_scope s c L :
  scoped (expr s) (c :: L) → (length c < fuel)%nat →
  ∃ s', sp_clear_current_scope fuel s = Ret (s', tt) ∧ quiet s s' ∧ scoped (expr s') ([] :: L).
Proof.
  intros [Hok (ls & Hch & HF)] Hf.
  destruct (scoped_root _ _ _ _ _ Hch HF) as (a & r & ns & hs & ls' & Hst & -> & Hc & HF' & Ha & _).
  rewrite Hst in Hch. destruct (clear_chain ns s a r hs ls' Hch Hok) as (s' & E & Hq & Hst' & Hok' & Hch').
  exists s'. split; [|split; [done|]].
  - unfold sp_clear_current_scope. assert (H0 : inode_stack (expr s) !! 0%nat = Some (Some a)) by by rewrite Hst.
    sm_by (iroot_eq 0 s (Some a) H0). unfold sm_while. assert (length ns = length c) by (rewrite <-Hc; by rewrite length_fmap).
    rewrite (loop_more _ (S (length ns)) fuel) by (by rewrite E || lia). by rewrite E.
  - split; [done|]. exists ([(a, set_nx None r)] :: ls'). rewrite Hst', Hst. split; [done|].
    apply Forall2_cons. by split; [apply scope_is_root|].
Qed.

(** *** Swapping *)
Lemma swap_scope s c ca L :
  scoped (expr s) (c :: ca :: L) →
  ∃ s', sp_swap_scope s = Ret (s', tt) ∧ quiet s s' ∧ scoped (expr s') (ca :: c :: L).
Proof.
  intros [Hok (ls & Hch & HF)].
  destruct (scoped_root _ _ _ _ _ Hch HF) as (a & r & ns & hs1 & ls1 & Hst & -> & Hc & HF1 & Ha & Hch1).
  destruct (scoped_root _ _ _ _ _ Hch1 HF1) as (b & rb & nb & hs2 & ls2 & -> & -> & Hca & HF2 & _ & _).
  exists (with_roots (Some b :: Some a :: hs2) s). split; [|split; [by destruct s|]].
  - unfold sp_swap_scope, get_expr. sm_pure. by rewrite Hst.
  - split; [done|]. exists (((b, rb) :: nb) :: ((a, r) :: ns) :: ls2). rewrite Hst in Hch. split; [by apply chains_swap|].
    repeat (apply Forall2_cons; split); [by apply scope_is_root|by apply scope_is_root|done].
Qed.

(** *** Merging *)
Lemma scopes_swap i h1 h2 hs c1 c2 L : scopes i (h1 :: h2 :: hs) (c1 :: c2 :: L) → scopes i (h2 :: h1 :: hs) (c2 :: c1 :: L).
Proof.
  intros [Hok (ls & Hch & HF)]. split; [done|].
  apply Forall2_cons_inv_r in HF as (l1 & ls1 & H1 & HF & ->). apply Forall2_cons_inv_r in HF as (l2 & ls2 & H2 & HF & ->).
  exists (l2 :: l1 :: ls2). split; [by apply chains_swap|]. by repeat (apply Forall2_cons; split).
Qed.

Lemma scopes_swap2 i h1 h2 h3 hs c1 c2 c3 L :
  scopes i (h1 :: h2 :: h3 :: hs) (c1 :: c2 :: c3 :: L) → scopes i (h1 :: h3 :: h2 :: hs) (c1 :: c3 :: c2 :: L).
Proof.
  intros [Hok (ls & Hch & HF)]. split; [done|].
  apply Forall2_cons_inv_r in HF as (l1 & ls1 & H1 & HF & ->). apply Forall2_cons_inv_r in HF as (l2 & ls2 & H2 & HF & ->).
  apply Forall2_cons_inv_r in HF as (l3 & ls3 & H3 & HF & ->).
  exists (l1 :: l3 :: l2 :: ls3). split; [|by repeat (apply Forall2_cons; split)].
  eapply chains_perm; [exact Hch|cbn; solve_Permutation|]. destruct Hch as [Hfa _]. apply Forall2_length in Hfa. by cbn in Hfa |- *.
Qed.

Lemma scopes_tail i h hs c L : scopes i (h :: hs) (c :: L) → scopes i hs L.
Proof.
  intros [Hok (ls & Hch & HF)]. split; [done|].
  apply Forall2_cons_inv_r in HF as (l1 & ls1 & H1 & HF & ->). exists ls1. split; [by eapply chains_tail|done].
Qed.

(** a structure in none of the scopes is freed *)
Lemma scopes_free i hs L a ls :
  store_ok i → chains i hs ls → Forall2 scope_is ls L → a ∉ (concat ls).*1 → scopes (set_cells (delete a (cells i)) i) hs L.
Proof.
  intros Hok Hch HF Ha. split; [by apply store_ok_free|]. exists ls. split; [|done].
  apply (chains_frame i); [done|]. intros b Hb. cbn. apply lookup_delete_ne. by intros <-.
Qed.

Lemma scopes_inv i h hs c L :
  scopes i (h :: hs) (c :: L) →
  ∃ a r ns ls, h = Some a ∧ code_of <$> ns = c ∧ store_ok i ∧ chains i (Some a :: hs) (((a, r) :: ns) :: ls) ∧
    Forall2 scope_is ls L ∧ cells i !! a = Some r ∧ lseg i (n_next r) ns None.
Proof.
  intros [Hok (ls & Hch & HF)]. destruct (scoped_root _ _ _ _ _ Hch HF) as (a & r & ns & hs' & ls' & [= -> <-] & -> & Hc & HF' & Ha & _).
  pose proof (chains_head _ _ _ _ _ _ Hch) as [_ Hl]. by exists a, r, ns, ls'.
Qed.

Lemma scopes_inv2 i h m hs c n L :
  scopes i (h :: m :: hs) (c :: n :: L) →
  ∃ a ra ka d rd kd ls, h = Some a ∧ m = Some d ∧ code_of <$> ka = c ∧ code_of <$> kd = n ∧ store_ok i ∧
    chains i (Some a :: Some d :: hs) (((a, ra) :: ka) :: ((d, rd) :: kd) :: ls) ∧ Forall2 scope_is ls L.
Proof.
  intros [Hok (ls & Hch & HF)].
  destruct (scoped_root _ _ _ _ _ Hch HF) as (a & ra & ka & hs1 & ls1 & [= -> <-] & -> & Hc & HF1 & _ & Hch1).
  destruct (scoped_root _ _ _ _ _ Hch1 HF1) as (d & rd & kd & hs2 & ls2 & [= -> <-] & -> & Hn & HF2 & _ & _).
  by exists a, ra, ka, d, rd, kd, ls2.
Qed.

Lemma with_nodes_id s : with_nodes (inodes (expr s)) s = s.
Proof. destruct s as [st t o li cc f e k ls os rs rq lo [i sk op vc sc ms] er]. done. Qed.

(** the nodes behind [root] go before those behind [next_root] *)
Lemma merge_before_ok s h m hs c n L :
  scopes (inodes (expr s)) (h :: m :: hs) (c :: n :: L) → (length c < fuel)%nat →
  ∃ i, merge_before fuel h m s = Ret (with_nodes i s, tt) ∧ scopes i (m :: hs) ((c ++ n) :: L).
Proof.
  intros H Hf. destruct (scopes_inv2 _ _ _ _ _ _ _ H) as (a & ra & ka & d & rd & kd & ls & -> & -> & Hc & Hn & Hok & Hch & HF).
  pose proof (chains_head _ _ _ _ _ _ Hch) as [Ha Hla]. set (i := inodes (expr s)) in *.
  apply chains_swap in Hch as Hch'. pose proof (chains_head _ _ _ _ _ _ Hch') as [Hd _].
  unfold merge_before. destruct ka as [|[p x] k _] using rev_ind.
  - exists i. rewrite <-Hc. split; [|by eapply scopes_tail]. sm_by (node_some a ra s Ha).
    change (n_next ra) with (nx ra). rewrite (lseg_nil_inv _ _ _ Hla). cbv beta iota. unfold i. by rewrite with_nodes_id.
  - destruct (nx ra) as [f|] eqn:Ef; [|destruct k as [|[]]; inversion Hla].
    pose proof (chains_splice _ _ _ _ _ _ _ _ _ _ _ Hch) as Hsp. rewrite Ef in Hsp.
    set (i1 := set_cells (<[d := set_nx (Some f) rd]> (cells i)) i) in *. set (s1 := with_nodes i1 s).
    assert (Hpd : p ≠ d ∧ a ≠ d ∧ a ∉ k.*1 ∧ a ≠ p).
    { split_and!.
      - intros ->. apply (chains_notin _ _ _ _ _ d Hch); cbn; [rewrite fmap_app; set_solver|set_solver].
      - intros ->. apply (chains_notin _ _ _ _ _ d Hch); cbn; set_solver.
      - destruct Hch as [_ Hnd]. cbn in Hnd. apply NoDup_cons in Hnd as [Hnd _]. rewrite !fmap_app in Hnd. set_solver.
      - destruct Hch as [_ Hnd]. cbn in Hnd. apply NoDup_cons in Hnd as [Hnd _]. rewrite !fmap_app in Hnd. set_solver. }
    destruct Hpd as (Hpd & Had & Hak & Hap).
    assert (Hp1 : cells i1 !! p = Some x).
    { cbn. rewrite lookup_insert_ne by done. eapply lseg_lookup; [exact Hla|set_solver]. }
    set (i2 := set_cells (<[p := set_nx (n_next rd) x]> (cells i1)) i1). set (s2 := with_nodes i2 s1).
    assert (Ha2 : cells i2 !! a = Some ra) by (cbn; by rewrite !lookup_insert_ne).
    exists (set_cells (delete a (cells i2)) i2). split.
    + sm_by (node_some a ra s Ha). change (n_next ra) with (nx ra). rewrite Ef. cbv beta iota.
      assert (Hk : (length k < fuel)%nat) by (rewrite <-Hc in Hf; rewrite length_fmap, length_app in Hf; cbn in Hf; lia).
      sm_by (chain_last_ok s f k p x Hla Hk). sm_by (lift_ret (from_option_ub (Some d)) s d eq_refl).
      sm_by (node_some d rd s Hd). sm_by (set_node_some d rd (set_nx (Some f)) s Hd). fold i i1 s1.
      sm_by (set_node_some p x (set_nx (n_next rd)) s1 Hp1). change (inodes (expr s1)) with i1. fold i2 s2.
      rewrite (free_node_some a ra s2 Ha2). by destruct s.
    + eapply scopes_free; [|exact Hsp| |].
      * eapply store_ok_upd; [|exact Hp1]. by eapply store_ok_upd.
      * apply Forall2_cons. split; [|done]. apply scope_is_root. rewrite <-Hc, <-Hn. by rewrite !fmap_app, <-app_assoc.
      * cbn. rewrite !fmap_app. cbn. pose proof (chains_notin _ _ _ _ _ a Hch) as Hno. cbn in Hno. rewrite fmap_app in Hno.
        clear -Hno Had Hak Hap. set_solver.
Qed.

(** the store once the nodes behind [a] are linked behind [p] and [a] is freed *)
Lemma scopes_behind i a ra ka d l p x hs ls c n L :
  store_ok i → chains i (Some d :: Some a :: hs) ((l ++ [(p, x)]) :: ((a, ra) :: ka) :: ls) → Forall2 scope_is ls L →
  scope_is (l ++ (p, set_nx (nx ra) x) :: ka) (n ++ c) →
  let i1 := set_cells (<[p := set_nx (nx ra) x]> (cells i)) i in
  cells i1 !! a = Some ra ∧ scopes (set_cells (delete a (cells i1)) i1) (Some d :: hs) ((n ++ c) :: L).
Proof.
  intros Hok Hch HF Hsc i1. pose proof (chains_move _ _ _ _ _ _ _ _ _ _ Hch) as Hm.
  assert (Ha : a ∉ (l ++ [(p, x)]).*1).
  { intros Hin. apply (chains_notin _ _ _ _ _ a Hch Hin). cbn. set_solver. }
  assert (Hp : cells i !! p = Some x) by (eapply (chains_lookup i (Some d) l p x []); exact Hch).
  apply chains_swap in Hm. apply chains_swap in Hch. pose proof (chains_head _ _ _ _ _ _ Hch) as [Hca _].
  rewrite fmap_app in Ha. cbn in Ha. assert (a ≠ p) by (intros ->; apply Ha; set_solver).
  assert (Hca1 : cells i1 !! a = Some ra) by (cbn; by rewrite lookup_insert_ne). split; [done|].
  pose proof (chains_notin _ _ _ _ _ a Hm ltac:(cbn; set_solver)) as Hno. apply chains_tail in Hm.
  split; [by apply store_ok_free; apply (store_ok_upd i p x)|].
  exists ((l ++ (p, set_nx (nx ra) x) :: ka) :: ls). split; [|by apply Forall2_cons].
  eapply chains_frame; [exact Hm|]. intros b Hb. cbn.
  assert (a ≠ b) by (intros <-; done). by rewrite lookup_delete_ne, (lookup_insert_ne _ a).
Qed.

Lemma merge_behind_ok s h m hs c n L :
  scopes (inodes (expr s)) (h :: m :: hs) (c :: n :: L) → (length n < fuel)%nat →
  ∃ i, merge_behind fuel h m s = Ret (with_nodes i s, tt) ∧ scopes i (m :: hs) ((n ++ c) :: L).
Proof.
  intros H Hf. destruct (scopes_inv2 _ _ _ _ _ _ _ H) as (a & ra & ka & d & rd & kd & ls & -> & -> & Hc & Hn & Hok & Hch & HF).
  pose proof (chains_head _ _ _ _ _ _ Hch) as [Ha Hla]. set (i := inodes (expr s)) in *.
  apply chains_swap in Hch. pose proof (chains_head _ _ _ _ _ _ Hch) as [Hd Hld].
  unfold merge_behind. destruct (nx ra) as [f|] eqn:Ef.
  - assert (Hx : ∀ l p x, (d, rd) :: kd = l ++ [(p, x)] →
      scope_is (l ++ (p, set_nx (nx ra) x) :: ka) (n ++ c)).
    { intros l p x E. destruct (scope_last ((d, rd) :: kd) n) as (l' & p' & x' & E' & _ & Hsc); [by exists d, rd, kd|].
      rewrite E in E'. apply app_inj_tail in E' as [<- [= <- <-]]. by apply Hsc. }
    destruct kd as [|[p x] k _] using rev_ind.
    + destruct (scopes_behind i a ra ka d [] d rd hs ls c n L Hok Hch HF) as [Ha1 Hs1]; [by apply (Hx [])|].
      rewrite Ef in Ha1, Hs1. eexists. split; [|exact Hs1]. sm_by (node_some a ra s Ha). change (n_next ra) with (nx ra). rewrite Ef. cbv beta iota.
      sm_by (lift_ret (from_option_ub (Some d)) s d eq_refl). sm_by (node_some d rd s Hd).
      change (n_next rd) with (nx rd). rewrite (lseg_nil_inv _ _ _ Hld). cbv beta iota.
      sm_by (set_node_some d rd (set_nx (Some f)) s Hd). fold i.
      rewrite (free_node_some a ra (with_nodes _ s) Ha1). by destruct s.
    + rewrite app_comm_cons in Hch.
      destruct (scopes_behind i a ra ka d ((d, rd) :: k) p x hs ls c n L Hok Hch HF) as [Ha1 Hs1]; [by apply Hx|].
      destruct (nx rd) as [j|] eqn:Ej; [|destruct k as [|[]]; inversion Hld].
      assert (Hp : cells i !! p = Some x) by (eapply lseg_lookup; [exact Hld|set_solver]).
      assert (Hk : (length k < fuel)%nat) by (rewrite <-Hn in Hf; rewrite length_fmap, length_app in Hf; cbn in Hf; lia).
      rewrite Ef in Ha1, Hs1. eexists. split; [|exact Hs1]. sm_by (node_some a ra s Ha). change (n_next ra) with (nx ra). rewrite Ef. cbv beta iota.
      sm_by (lift_ret (from_option_ub (Some d)) s d eq_refl). sm_by (node_some d rd s Hd).
      change (n_next rd) with (nx rd). rewrite Ej. cbv beta iota. sm_by (chain_last_ok s j k p x Hld Hk).
      sm_by (set_node_some p x (set_nx (Some f)) s Hp). fold i.
      rewrite (free_node_some a ra (with_nodes _ s) Ha1). by destruct s.
  - assert (ka = []) as -> by (inversion Hla; done).
    exists i. rewrite <-Hc. cbn. rewrite app_nil_r. split; [|by eapply scopes_tail].
    sm_by (node_some a ra s Ha). change (n_next ra) with (nx ra). rewrite Ef. cbv beta iota. unfold i. by rewrite with_nodes_id.
Qed.

Lemma merge_left_ok s c ca n na L :
  scoped (expr s) (c :: ca :: n :: na :: L) → (length c < fuel)%nat → (length na < fuel)%nat →
  ∃ s', sp_merge_scope_left fuel s = Ret (s', tt) ∧ quiet s s' ∧ scoped (expr s') ((c ++ n) :: (na ++ ca) :: L).
Proof.
  intros H Hf1 Hf2. destruct (inode_stack (expr s)) as [|h1 [|h2 [|h3 [|h4 hs]]]] eqn:Hst;
    try by (destruct H as [_ (ls & [Hch _] & HF)]; rewrite Hst in Hch; apply Forall2_length in Hch, HF; cbn in *; lia).
  unfold scoped in H. rewrite Hst in H. set (s1 := with_roots (h2 :: h3 :: h4 :: hs) s). set (s2 := with_roots (h3 :: h4 :: hs) s1).
  apply scopes_swap2 in H. destruct (merge_before_ok s2 _ _ _ _ _ _ H Hf1) as (i & E1 & H1).
  apply scopes_swap, scopes_swap2 in H1. destruct (merge_behind_ok (with_nodes i s2) _ _ _ _ _ _ H1 Hf2) as (i' & E2 & H2).
  exists (with_nodes i' (with_nodes i s2)). split; [|split; [by destruct s|by apply scopes_swap]].
  unfold sp_merge_scope_left. sm_by (pop_eq s h1 _ Hst). sm_by (pop_eq s1 h2 (h3 :: h4 :: hs) eq_refl). fold s2.
  sm_by (iroot_eq 0 s2 h3 eq_refl). sm_by (iroot_eq 1 s2 h4 eq_refl). by sm_by E1.
Qed.

(** [sp_merge_scope_right] replaces what the current scope around holds, unless
    there is nothing to merge. *)
Lemma merge_right_ok s c ca n na L :
  scoped (expr s) (c :: ca :: n :: na :: L) →
  ∃ s', sp_merge_scope_right s = Ret (s', tt) ∧ quiet s s' ∧
    scoped (expr s') (match c with [] => n | _ => c end :: na :: L).
Proof.
  intros H. destruct (inode_stack (expr s)) as [|h1 [|h2 [|h3 [|h4 hs]]]] eqn:Hst;
    try by (destruct H as [_ (ls & [Hch _] & HF)]; rewrite Hst in Hch; apply Forall2_length in Hch, HF; cbn in *; lia).
  unfold scoped in H. rewrite Hst in H. set (s1 := with_roots (h2 :: h3 :: h4 :: hs) s). set (s2 := with_roots (h3 :: h4 :: hs) s1).
  apply scopes_swap, scopes_tail in H.
  destruct (scopes_inv2 _ _ _ _ _ _ _ H) as (a & ra & ka & d & rd & kd & ls & -> & -> & Hc & Hn & Hok & Hch & HF).
  set (i := inodes (expr s)) in *.
  pose proof (chains_head _ _ _ _ _ _ Hch) as [Ha Hla]. apply chains_swap in Hch as Hch'. pose proof (chains_head _ _ _ _ _ _ Hch') as [Hd _].
  unfold sp_merge_scope_right. rewrite (sm_bind_ret _ _ _ _ _ (pop_eq s _ _ Hst)).
  sm_by (pop_eq s1 h2 (Some d :: h4 :: hs) eq_refl). fold s2.
  sm_by (iroot_eq 0 s2 (Some d) eq_refl). sm_by (node_some a ra s2 Ha). change (n_next ra) with (nx ra).
  destruct (nx ra) as [f|] eqn:Ef.
  - pose proof (chains_steal _ _ _ _ _ _ _ _ _ Hch) as Hs. rewrite Ef in Hs.
    pose proof (chains_notin _ _ _ _ _ a Hch ltac:(cbn; set_solver)) as Hno.
    set (i1 := set_cells (<[d := set_nx (Some f) rd]> (cells i)) i) in *. set (s3 := with_nodes i1 s2).
    assert (Had : a ≠ d) by (intros ->; apply Hno; cbn; set_solver).
    assert (Ha1 : cells i1 !! a = Some ra) by (cbn; by rewrite lookup_insert_ne).
    exists (with_nodes (set_cells (delete a (cells i1)) i1) s3). split; [|split; [by destruct s|]].
    + sm_by (lift_ret (from_option_ub (Some d)) s2 d eq_refl). sm_by (node_some d rd s2 Hd).
      sm_by (set_node_some d rd (set_nx (Some f)) s2 Hd). change (inodes (expr s2)) with i. fold i1 s3.
      by rewrite (free_node_some a ra s3 Ha1).
    + change (scopes (set_cells (delete a (cells i1)) i1) (Some d :: h4 :: hs) (match c with [] => n | _ => c end :: na :: L)).
      eapply scopes_free; [by eapply store_ok_upd|exact Hs| |].
      * destruct ka as [|[f' y] ka]; [inversion Hla|]. rewrite <-Hc. apply Forall2_cons. split; [by apply scope_is_root|done].
      * pose proof Hch as [_ Hnd]. cbn in Hnd. apply NoDup_cons in Hnd as [Hnd _]. cbn in Hno, Hnd |- *.
        rewrite !fmap_app in Hnd, Hno |- *. clear -Hno Hnd. set_solver.
  - assert (ka = []) as -> by (inversion Hla; done).
    exists s2. split; [done|]. split; [by destruct s|]. rewrite <-Hc. by apply scopes_tail in H.
Qed.

(** *** A new scope *)
Lemma push_root s ins rec L :
  scoped (expr s) L → (length L < 2 * SEM_MAX_STACK)%nat →
  ∃ s1 a s2, sp_create_inode ins rec s = Ret (s1, a) ∧ sp_push_iroot (Some a) s1 = Ret (s2, Some a) ∧ quiet s s2 ∧
    scoped (expr s2) ([] :: L).
Proof.
  intros [Hok (ls & Hch & HF)] Hlen. set (nd := mkNode None ins rec None). set (b := brk (inodes (expr s))).
  set (i := (malloc nd (inodes (expr s))).2).
  exists (with_nodes i s), b, (with_roots (Some b :: inode_stack (expr s)) (with_nodes i s)). split; [done|]. split; [|split; [by destruct s|]].
  - unfold sp_push_iroot, get_expr. sm_pure. change (inode_stack (expr (with_nodes i s))) with (inode_stack (expr s)).
    assert (Hst : length (inode_stack (expr s)) = length L).
    { destruct Hch as [Hch _]. rewrite (Forall2_length _ _ _ Hch). by apply (Forall2_length _ _ _ HF). }
    rewrite (sm_bind_ret (lift _) _ (with_nodes i s) (with_nodes i s) tt); [done|].
    apply lift_ret. by rewrite Hst, (proj2 (Nat.ltb_lt _ _) Hlen).
  - split; [by apply store_ok_malloc|]. exists ([(b, nd)] :: ls). split; [|apply Forall2_cons; by split; [apply scope_is_root|]].
    assert (Hb : b ∉ (concat ls).*1).
    { intros Hin. pose proof (chains_below _ _ _ _ Hok Hch Hin). unfold b in *. lia. }
    pose proof (chains_frame _ i _ _ Hch) as [Hf Hn].
    { intros d Hd. cbn. apply lookup_insert_ne. fold b. by intros <-. }
    split; [|cbn; by apply NoDup_cons].
    apply Forall2_cons. split; [|exact Hf]. constructor; [cbn; by rewrite lookup_insert_eq|constructor].
Qed.

Lemma set_scope_var_ok s rec c L :
  scoped (expr s) (c :: L) → ∃ s', sp_set_scope_var rec s = Ret (s', rec) ∧ quiet s s' ∧ scoped (expr s') (c :: L).
Proof.
  intros [Hok (ls & Hch & HF)].
  destruct (scoped_root _ _ _ _ _ Hch HF) as (a & r & ns & hs & ls' & Hst & -> & Hc & HF' & Ha & _).
  set (f := λ n, mkNode (n_next n) (n_ins n) (n_rec n) rec).
  eexists (with_nodes _ s). split; [|split; [by destruct s|]].
  - unfold sp_set_scope_var. assert (H0 : inode_stack (expr s) !! 0%nat = Some (Some a)) by by rewrite Hst.
    sm_by (iroot_eq 0 s (Some a) H0). by sm_by (set_node_some a r f s Ha).
  - split; [by apply (store_ok_upd _ a r f)|]. exists (((a, f r) :: ns) :: ls').
    unfold with_nodes. cbn [expr set_expr inodes set_inodes inode_stack]. rewrite Hst in Hch |- *.
    split; [by apply (chains_update _ a r f)|]. apply Forall2_cons. by split; [apply scope_is_root|].
Qed.

Lemma new_scope_ok n s T L var :
  scoped (expr s) L → (S (length L) < 2 * SEM_MAX_STACK)%nat → symbols n (symtab s) T →
  0 ≤ label_index s < 2 ^ 31 - 2 → (S n < fuel)%nat →
  ∃ s' T', sp_create_new_scope fuel var s = Ret (s', tt) ∧ scoped (expr s') ([] :: [] :: L) ∧
    symbols (S (S n)) (symtab s') T' ∧ T ⊆ T' ∧ label_index s' = label_index s + 2 ∧ stream s' = stream s ∧
    current_offset s' = current_offset s ∧ new_labels T T' ∧ rec_stack s' = rec_stack s.
Proof.
  intros H Hlen HT Hi Hf.
  destruct (create_label_symbols fuel n s T PREFIX_a HT) as (t1 & T1 & la & E1 & HT1 & Hs1 & Hn1);
    [by repeat constructor|cbn; lia|lia|lia|].
  set (s1 := set_symtab t1 _) in E1.
  destruct (push_root s1 INS_LBL (NSym la) L H ltac:(lia)) as (s2 & na & s3 & E2 & E3 & Hq3 & H3).
  assert (H3' : symbols (S n) (symtab s3) T1 ∧ label_index s3 = label_index s + 1 ∧ stream s3 = stream s ∧ current_offset s3 = current_offset s ∧
    rec_stack s3 = rec_stack s) by (rewrite Hq3; done).
  destruct H3' as (HT3 & Hi3 & Hst3 & Ho3 & Hr3).
  destruct (create_label_symbols fuel (S n) s3 T1 PREFIX_z HT3) as (t4 & T4 & lz & E4 & HT4 & Hs4 & Hn4);
    [by repeat constructor|cbn; lia|lia|lia|].
  set (s4 := set_symtab t4 _) in E4.
  destruct (push_root s4 INS_LBL (NSym lz) _ H3 ltac:(cbn [length]; lia)) as (s5 & nz & s6 & E5 & E6 & Hq6 & H6).
  destruct (set_scope_var_ok s6 var _ _ H6) as (s7 & E7 & Hq7 & H7).
  pose proof (quiet_trans _ _ _ Hq6 Hq7) as Hq. exists s7, T4. split; [|split; [done|]].
  - unfold sp_create_new_scope. sm_by E1. sm_by E2. sm_by E3. sm_by E4. sm_by E5. sm_by E6. by sm_by E7.
  - rewrite Hq. cbn. split; [done|]. split; [by etrans|]. split; [rewrite Hi3; lia|]. do 2 (split; [done|]). split; [by eapply new_labels_trans|done].
Qed.
End scopes_ok.

(** ** Flushing the outermost scope *)
Lemma wait_calls_app T xs ys is1 : ∀ o, mapM (node_instr T) xs = Some is1 →
  wait_calls o (xs ++ ys) T = wait_calls (o + psize is1) ys (wait_calls o xs T).
Proof.
  revert T is1. induction xs as [|x xs IH]; intros T is1 o H; cbn in H.
  - injection H as <-. by rewrite Z.add_0_r.
  - apply bind_Some in H as (i & Hi & H). apply bind_Some in H as (is' & H & [= <-]).
    cbn [app wait_calls]. rewrite Hi. rewrite (IH _ is'); [|by eapply nodes_extends, H; apply wait_call_extends].
    rewrite psize_cons. f_equal. lia.
Qed.

Lemma mapM_app_inv {A B} (f : A → option B) l1 l2 k :
  mapM f (l1 ++ l2) = Some k → ∃ k1 k2, mapM f l1 = Some k1 ∧ mapM f l2 = Some k2 ∧ k = k1 ++ k2.
Proof.
  revert k. induction l1 as [|x l1 IH]; intros k H; cbn in *; [by exists [], k|].
  apply bind_Some in H as (y & Hy & H). apply bind_Some in H as (k' & H & [= <-]).
  destruct (IH _ H) as (k1 & k2 & H1 & H2 & ->). exists (y :: k1), k2. rewrite Hy. cbn. by rewrite H1.
Qed.

Lemma wait_calls_mono xs : ∀ o T T' is_, T ⊆ T' → mapM (node_instr T) xs = Some is_ → wait_calls o xs T ⊆ wait_calls o xs T'.
Proof.
  induction xs as [|x xs IH]; intros o T T' is_ Hs H; [done|]. cbn in H.
  apply bind_Some in H as (i & Hi & H). apply bind_Some in H as (is' & H & [= <-]).
  cbn. rewrite Hi, (node_instr_extends _ _ _ _ (subseteq_extends _ _ Hs) Hi). apply (IH _ _ _ is').
  - unfold wait_call, node_instr in *. destruct x.2 as [a| |]; try done. destruct (T !! a) as [j|] eqn:Ha; [|done].
    rewrite (lookup_weaken _ _ _ _ Ha Hs). destruct (_ && _); [by apply insert_mono|done].
  - by eapply nodes_extends, H; apply wait_call_extends.
Qed.

Section flush.
Context (fuel : nat).

Lemma sframe_label s s' : sframe s s' → label_index s' = label_index s ∧ inode_stack (expr s') = inode_stack (expr s).
Proof. intros ->. done. Qed.

Lemma flush_now_ok n s T c ca L is_ :
  scoped (expr s) (c :: ca :: L) → symbols n (symtab s) T → mapM (node_instr T) (c ++ ca) = Some is_ →
  (n + length c + length ca < fuel)%nat →
  0 ≤ current_offset s ≤ code_size (stream s) → current_offset s + psize is_ ≤ MAX_BUFFER_SIZE →
  ∃ s', sp_flush_scope_now fuel s = Ret (s', tt) ∧ emitted s s' (encode_prog is_) ∧ scoped (expr s') ([] :: [] :: L) ∧
    symbols (n + length c + length ca) (symtab s') (wait_calls (current_offset s) (c ++ ca) T) ∧ sframe s s'.
Proof.
  intros [Hok (ls & Hch & HF)] HT His Hf H0 Hm.
  destruct (scoped_root _ _ _ _ _ Hch HF) as (a & r & ns & hs1 & ls1 & Hst & -> & Hc & HF1 & Ha & Hch1).
  destruct (scoped_root _ _ _ _ _ Hch1 HF1) as (b & rb & nb & hs & ls2 & -> & -> & Hca & HF2 & _ & _).
  apply mapM_app_inv in His as (is1 & is2 & H1 & H2 & ->). rewrite psize_app in Hm.
  pose proof (psize_nonneg is1). pose proof (psize_nonneg is2). rewrite Hst in Hch.
  assert (Hl1 : length ns = length c) by (rewrite <-Hc; by rewrite length_fmap).
  assert (Hl2 : length nb = length ca) by (rewrite <-Hca; by rewrite length_fmap).
  destruct (flush_one fuel n s T a r ns (Some b :: hs) _ is1 Hch Hok HT) as (s1 & E1 & He1 & Hch2 & Hok2 & HT1 & Hf1);
    [by rewrite Hc|lia|lia|lia|].
  pose proof (emitted_size _ _ _ He1) as Hsz. pose proof (proj1 (proj2 He1)) as Ho. rewrite length_psize in Ho.
  apply chains_swap in Hch2. rewrite Hc in HT1.
  destruct (flush_one fuel (n + length ns) s1 _ b rb nb (Some a :: hs) _ is2 Hch2 Hok2 HT1) as (s2 & E2 & He2 & Hch3 & Hok3 & HT2 & Hf2);
    [by rewrite Hca; eapply nodes_extends, H2; apply wait_calls_extends|lia|lia|lia|].
  destruct (sframe_label _ _ Hf1) as [_ Hst1]. destruct (sframe_label _ _ Hf2) as [_ Hst2].
  exists s2. split; [|split; [|split; [|split]]].
  - unfold sp_flush_scope_now.
    assert (Hr0 : inode_stack (expr s) !! 0%nat = Some (Some a)) by by rewrite Hst.
    assert (Hr1 : inode_stack (expr s) !! 1%nat = Some (Some b)) by by rewrite Hst.
    sm_by (iroot_eq 0 s (Some a) Hr0). sm_by (iroot_eq 1 s (Some b) Hr1). by sm_by E1.
  - rewrite encode_prog_app. by eapply emitted_app.
  - split; [done|]. apply chains_swap in Hch3. exists ([(a, set_nx None r)] :: [(b, set_nx None rb)] :: ls2).
    rewrite Hst2, Hst1, Hst. split; [done|]. by repeat (apply Forall2_cons; split); [apply scope_is_root|apply scope_is_root|].
  - rewrite (wait_calls_app T c ca is1) by done. rewrite <-Ho, <-Hl1, <-Hl2, <-Hca. exact HT2.
  - by eapply sframe_trans.
Qed.

(** a flush with no scope around emits *)
Lemma flush_inner s c ca :
  scoped (expr s) [c; ca] → sp_flush_scope fuel s = sp_flush_scope_now fuel s.
Proof.
  intros [Hok (ls & [Hch _] & HF)]. apply Forall2_length in Hch, HF.
  destruct (inode_stack (expr s)) as [|h1 [|h2 [|h3 hs]]] eqn:Hst; cbn in *; try lia.
  unfold sp_flush_scope. rewrite (sm_bind_ret sp_left_iroot _ s s None).
  - cbv beta. unfold sp_flush_scope_s. rewrite (sm_bind_ret sp_current_iroot _ s s h1) by (apply iroot_eq; by rewrite Hst).
    by rewrite (sm_bind_ret sp_right_iroot _ s s h2) by (apply iroot_eq; by rewrite Hst).
  - unfold sp_left_iroot, iroot, get_expr, gets. by rewrite Hst.
Qed.
End flush.

(** ** The scopes as a machine on lists

    What the operations on scopes mean: [spec_op] gives the scopes after an
    operation and the instructions it emits. *)
Inductive scope_op :=
  | OpNew (var : option Z)
  | OpIns (ins : Z) (rec : node_arg)
  | OpFlush
  | OpDestroy
  | OpClear
  | OpSwap
  | OpMergeLeft
  | OpMergeRight.

Definition run_op (fuel : nat) (o : scope_op) : sm unit :=
  match o with
  | OpNew var => sp_create_new_scope fuel var
  | OpIns ins rec => _ ← sp_gencode fuel ins rec; mret tt
  | OpFlush => sp_flush_scope fuel
  | OpDestroy => sp_destroy_scope fuel
  | OpClear => sp_clear_current_scope fuel
  | OpSwap => sp_swap_scope
  | OpMergeLeft => sp_merge_scope_left fuel
  | OpMergeRight => sp_merge_scope_right
  end.

Fixpoint run_ops (fuel : nat) (p : list scope_op) : sm unit :=
  match p with
  | [] => mret tt
  | o :: p' => _ ← run_op fuel o; run_ops fuel p'
  end.

Definition spec_op (o : scope_op) (L : list (list ncode)) : option (list (list ncode) * list ncode) :=
  match o, L with
  | OpNew _, _ => if (S (length L) <? 2 * SEM_MAX_STACK)%nat then Some ([] :: [] :: L, []) else None
  | OpIns ins rec, c :: L' => Some ((c ++ [(ins, rec)]) :: L', [])
  | OpIns _ _, [] => Some ([], [])
  | OpFlush, c :: ca :: o :: L' => Some ([] :: [] :: (o ++ c ++ ca) :: L', [])
  | OpFlush, [c; ca] => Some ([[]; []], c ++ ca)
  | OpDestroy, c :: ca :: o :: L' => Some ((o ++ c ++ ca) :: L', [])
  | OpDestroy, [c; ca] => Some ([], c ++ ca)
  | OpClear, _ :: L' => Some ([] :: L', [])
  | OpSwap, c :: ca :: L' => Some (ca :: c :: L', [])
  | OpMergeLeft, c :: ca :: n :: na :: L' => Some ((c ++ n) :: (na ++ ca) :: L', [])
  | OpMergeRight, c :: ca :: n :: na :: L' => Some (match c with [] => n | _ => c end :: na :: L', [])
  | _, _ => None
  end.

Fixpoint spec_ops (p : list scope_op) (L : list (list ncode)) : option (list (list ncode) * list ncode) :=
  match p with
  | [] => Some (L, [])
  | o :: p' => x ← spec_op o L; y ← spec_ops p' x.1; Some (y.1, x.2 ++ y.2)
  end.

Section machine.
Context (fuel : nat).

Lemma spec_op_size o L L' out :
  spec_op o L = Some (L', out) → (length (concat L') + length out ≤ S (length (concat L)))%nat.
Proof.
  unfold spec_op. intros H. destruct o; repeat (case_match; try done); simplify_eq; cbn [concat app length];
    rewrite ?length_app; cbn [concat app length]; rewrite ?length_app; cbn [concat app length]; lia.
Qed.

(** Operations that leave the stream and the table alone. *)
Definition step_ok (n : nat) (s s' : sem) (T : gmap Z info) (L' : list (list ncode)) (out : list ncode) (is_ : list instr) : Prop :=
  scoped (expr s') L' ∧ emitted s s' (encode_prog is_) ∧
  label_index s ≤ label_index s' ≤ label_index s + 2 ∧
  ∃ T', symbols (n + 2 + length out) (symtab s') T' ∧ wait_calls (current_offset s) out T ⊆ T'.

Lemma quiet_step n s s' T L' :
  quiet s s' → scoped (expr s') L' → symbols n (symtab s) T → current_offset s ≤ code_size (stream s) →
  step_ok n s s' T L' [] [].
Proof.
  intros -> H HT Ho. split; [done|]. split; [exact (emitted_nil s Ho)|]. split; [cbn; lia|].
  exists T. split; [|done]. eapply symbols_mono; [exact HT|lia].
Qed.

Lemma flush_now_step n s T c ca is_ :
  scoped (expr s) [c; ca] → symbols n (symtab s) T → mapM (node_instr T) (c ++ ca) = Some is_ →
  (n + length (c ++ ca) < fuel)%nat → 0 ≤ current_offset s ≤ code_size (stream s) →
  current_offset s + psize is_ ≤ MAX_BUFFER_SIZE →
  ∃ s', sp_flush_scope fuel s = Ret (s', tt) ∧ step_ok n s s' T [[]; []] (c ++ ca) is_.
Proof.
  intros H HT His Hf H0 Hm. rewrite length_app in Hf. rewrite (flush_inner fuel s c ca H).
  destruct (flush_now_ok fuel n s T c ca [] is_ H HT His ltac:(lia) H0 Hm) as (s' & E & He & H' & HT' & Hfr).
  exists s'. split; [done|]. split; [done|]. split; [done|]. split; [rewrite Hfr; cbn; lia|].
  eexists. split; [|reflexivity]. eapply symbols_mono; [exact HT'|]. rewrite length_app. lia.
Qed.

Lemma gencode_outside s ins rec :
  scoped (expr s) [] → ∃ s', sp_gencode fuel ins rec s = Ret (s', 0) ∧ quiet s s' ∧ scoped (expr s') [].
Proof.
  intros [Hok (ls & Hch & HF)]. eexists (with_nodes _ s). split; [|split; [by destruct s|]].
  - unfold sp_gencode. sm_by (create_inode_eq ins rec s).
    assert (Hst : inode_stack (expr s) = []).
    { destruct Hch as [Hch _]. apply Forall2_length in Hch, HF. destruct (inode_stack (expr s)); [done|cbn in *; lia]. }
    rewrite (sm_bind_ret (sp_push_inode _ _) _ _ (with_nodes (malloc (mkNode None ins rec None) (inodes (expr s))).2 s) None); [done|].
    unfold sp_push_inode. rewrite (sm_bind_ret sp_current_iroot _ _ (with_nodes (malloc (mkNode None ins rec None) (inodes (expr s))).2 s) None); [done|].
    unfold sp_current_iroot, iroot, get_expr, gets. cbn. by rewrite Hst.
  - inversion HF; subst. split; [by apply store_ok_malloc|]. exists []. split; [|done].
    eapply chains_frame; [exact Hch|]. intros b Hb. by apply elem_of_nil in Hb.
Qed.

Lemma op_ok n s T o L L' out is_ :
  scoped (expr s) L → symbols n (symtab s) T → spec_op o L = Some (L', out) → mapM (node_instr T) out = Some is_ →
  (n + 2 + length (concat L) < fuel)%nat → 0 ≤ label_index s < 2 ^ 31 - 2 →
  0 ≤ current_offset s ≤ code_size (stream s) → current_offset s + psize is_ ≤ MAX_BUFFER_SIZE →
  ∃ s', run_op fuel o s = Ret (s', tt) ∧ step_ok n s s' T L' out is_.
Proof.
  intros H HT Hsp His Hf Hi H0 Hm. destruct o; cbn [run_op].
  - unfold spec_op in Hsp. destruct (Nat.ltb_spec (S (length L)) (2 * SEM_MAX_STACK)) as [Hlt|]; [|done].
    injection Hsp as <- <-. cbn in His. injection His as <-.
    destruct (new_scope_ok fuel n s T L var H Hlt HT Hi ltac:(lia)) as (s' & T' & E & H' & HT' & Hs & Hl & Hst & Ho & _).
    exists s'. split; [done|]. split; [done|]. split.
    + split; [rewrite Hst; split; [apply region_nil|done]|]. split; [cbn; lia|]. rewrite Hst, Ho, Z.max_l by lia. by destruct (stream s).
    + split; [lia|]. exists T'. split; [|done]. eapply symbols_mono; [exact HT'|lia].
  - destruct L as [|c L]; cbn in Hsp; injection Hsp as <- <-; cbn in His; injection His as <-.
    + destruct (gencode_outside s ins rec H) as (s' & E & Hq & H'). exists s'. split; [by sm_by E|].
      apply quiet_step; try done. lia.
    + cbn in Hf. rewrite length_app in Hf.
      destruct (gencode_scope fuel s ins rec c L H ltac:(lia)) as (s' & E & Hq & H'). exists s'. split; [by sm_by E|].
      apply quiet_step; try done. lia.
  - destruct L as [|c [|ca [|o L]]]; cbn in Hsp; try done; injection Hsp as <- <-.
    + cbn in Hf. rewrite app_nil_r in Hf. apply flush_now_step; try done. lia.
    + cbn in His. injection His as <-. cbn in Hf. rewrite !length_app in Hf.
      destruct (flush_outer fuel s c ca o L H ltac:(lia)) as (s' & E & Hq & H'). exists s'. split; [done|].
      apply quiet_step; try done. lia.
  - destruct L as [|c [|ca [|o L]]]; cbn in Hsp; try done; injection Hsp as <- <-.
    + cbn in Hf. rewrite app_nil_r in Hf.
      destruct (flush_now_step n s T c ca is_ H HT His ltac:(lia) H0 Hm) as (s1 & E1 & Hsc & He & Hl & HT1).
      destruct (drop_two _ _ _ _ Hsc) as (s2 & E2 & Hq & H2). exists s2. split.
      { unfold sp_destroy_scope. by sm_by E1. }
      rewrite Hq. split; [exact H2|]. split; [exact He|]. split; [exact Hl|exact HT1].
    + cbn in His. injection His as <-. cbn in Hf. rewrite !length_app in Hf.
      destruct (destroy_outer fuel s c ca o L H ltac:(lia)) as (s' & E & Hq & H'). exists s'. split; [done|].
      apply quiet_step; try done. lia.
  - destruct L as [|c L]; cbn in Hsp; [done|]; injection Hsp as <- <-. cbn in His. injection His as <-.
    cbn in Hf. rewrite length_app in Hf.
    destruct (clear_scope fuel s c L H ltac:(lia)) as (s' & E & Hq & H'). exists s'. split; [done|]. apply quiet_step; try done. lia.
  - destruct L as [|c [|ca L]]; cbn in Hsp; try done; injection Hsp as <- <-. cbn in His. injection His as <-.
    destruct (swap_scope s c ca L H) as (s' & E & Hq & H'). exists s'. split; [done|]. apply quiet_step; try done. lia.
  - destruct L as [|c [|ca [|m [|ma L]]]]; cbn in Hsp; try done; injection Hsp as <- <-. cbn in His. injection His as <-.
    cbn in Hf. rewrite !length_app in Hf.
    destruct (merge_left_ok fuel s c ca m ma L H) as (s' & E & Hq & H'); [lia|lia|]. exists s'. split; [done|].
    apply quiet_step; try done. lia.
  - destruct L as [|c [|ca [|m [|ma L]]]]; cbn in Hsp; try done; injection Hsp as <- <-. cbn in His. injection His as <-.
    destruct (merge_right_ok s c ca m ma L H) as (s' & E & Hq & H'). exists s'. split; [done|].
    apply quiet_step; try done. lia.
Qed.

(** C4: the scopes are a machine on lists. Take any sequence of operations on
    scopes (entering and leaving them, adding instructions, flushing, clearing,
    swapping, merging) that the machine allows, from any state whose pointers
    represent the lists [L]. The code ends, its pointers represent the lists of
    the machine, and it has written exactly the instructions the machine emits,
    in their order, from the current offset on, and no other byte; the calls of
    functions that have no address yet wait in the queues of these functions at
    the offsets at which they were written, and no other symbol of the table
    changed. *)
Theorem scopes_refine p : ∀ n s T L L' out is_,
  scoped (expr s) L → symbols n (symtab s) T → spec_ops p L = Some (L', out) → mapM (node_instr T) out = Some is_ →
  (n + 4 * length p + 2 * length (concat L) + 2 < fuel)%nat →
  0 ≤ label_index s → label_index s + 2 * Z.of_nat (length p) < 2 ^ 31 - 2 →
  0 ≤ current_offset s ≤ code_size (stream s) → current_offset s + psize is_ ≤ MAX_BUFFER_SIZE →
  ∃ s' T' n', run_ops fuel p s = Ret (s', tt) ∧ scoped (expr s') L' ∧ emitted s s' (encode_prog is_) ∧
    symbols n' (symtab s') T' ∧ wait_calls (current_offset s) out T ⊆ T'.
Proof.
  induction p as [|o p IH]; intros n s T L L' out is_ H HT Hsp His Hf Hl0 Hl H0 Hm.
  - cbn in Hsp. injection Hsp as <- <-. cbn in His. injection His as <-.
    exists s, T, n. split; [done|]. split; [done|]. split; [apply emitted_nil, H0|]. by split.
  - cbn in Hsp. apply bind_Some in Hsp as ([L1 out1] & Hsp1 & Hsp). apply bind_Some in Hsp as ([L2 out2] & Hsp2 & [= <- <-]).
    cbn [fst snd] in *. apply mapM_app_inv in His as (is1 & is2 & H1 & H2 & ->). rewrite psize_app in Hm.
    pose proof (psize_nonneg is1). pose proof (psize_nonneg is2). pose proof (spec_op_size _ _ _ _ Hsp1) as Hsz.
    cbn [length] in Hf, Hl.
    destruct (op_ok n s T o L L1 out1 is1 H HT Hsp1 H1) as (s1 & E1 & Hsc1 & He1 & Hl1 & T1 & HT1 & Hsub1); [lia|lia|lia|lia|].
    pose proof (emitted_size _ _ _ He1) as Hsize. pose proof (proj1 (proj2 He1)) as Ho. rewrite length_psize in Ho.
    assert (H2' : mapM (node_instr (wait_calls (current_offset s) out1 T)) out2 = Some is2)
      by (eapply nodes_extends, H2; apply wait_calls_extends).
    destruct (IH (n + 2 + length out1)%nat s1 T1 L1 L2 out2 is2 Hsc1 HT1 Hsp2) as (s' & T' & n' & E2 & Hsc2 & He2 & HT2 & Hsub2);
      [by eapply nodes_extends, H2'; apply subseteq_extends|lia|lia|lia|lia|lia|].
    exists s', T', n'. split; [cbn [run_ops]; by sm_by E1|]. split; [done|]. split; [|split; [done|]].
    + rewrite encode_prog_app. by eapply emitted_app.
    + rewrite (wait_calls_app T out1 out2 is1) by done. etrans; [|exact Hsub2]. rewrite <-Ho.
      by apply (wait_calls_mono _ _ _ _ is2).
Qed.
End machine.

(** ** A loop that feeds itself *)
Section clone.
Context (fuel : nat).

Lemma walk_long s p l n :
  lseg (N := ins_node) s (Some p) l None → (n < length l)%nat → loop n (last_step s) p = Timeout.
Proof.
  revert p l. induction n as [|n IH]; intros p l Hl Hn; [done|].
  inversion Hl as [|? r l' ? Ha Hl']; subst. destruct l' as [|[b nb] l']; [cbn in Hn; lia|].
  assert (Hnx : nx r = Some b) by (destruct (nx r); inversion Hl'; by subst).
  erewrite loop_inl; [apply (IH b ((b, nb) :: l')); [by rewrite <-Hnx|cbn in *; lia]|].
  unfold last_step. rewrite (deref_some _ _ _ Ha). res_cbn. by rewrite Hnx.
Qed.

Lemma gencode_timeout s ins rec a r ns hs ls :
  store_ok (inodes (expr s)) → inode_stack (expr s) = Some a :: hs →
  chains (inodes (expr s)) (Some a :: hs) (((a, r) :: ns) :: ls) → (fuel ≤ length ns)%nat →
  sp_gencode fuel ins rec s = Timeout.
Proof.
  intros Hok Hst Hch Hf. unfold sp_gencode. sm_by (create_inode_eq ins rec s).
  set (s1 := with_nodes _ s). pose proof (chains_first _ _ _ _ _ Hch) as Hl.
  pose proof (lseg_malloc _ _ _ _ (mkNode None ins rec None) Hok Hl) as Hl1.
  assert (Hr : inode_stack (expr s1) !! 0%nat = Some (Some a)) by (cbn; by rewrite Hst).
  apply sm_bind_timeout. unfold sp_push_inode. sm_by (iroot_eq 0 s1 (Some a) Hr). apply sm_bind_timeout.
  unfold chain_last. change (inodes (expr s1)) with (malloc (mkNode None ins rec None) (inodes (expr s))).2.
  by rewrite (walk_long _ a _ fuel Hl1) by (cbn; lia).
Qed.

Lemma lseg_next i q l k a b n : lseg i q l None → l !! k = Some (a, n) → l.*1 !! S k = Some b → nx n = Some b.
Proof.
  revert q k. induction l as [|[a' n'] l IH]; intros q k Hl Hk Hb; [done|]. inversion Hl as [|? ? ? ? Ha Hl']; subst.
  destruct k as [|k]; cbn in *; [|by eapply IH]. injection Hk as -> ->.
  destruct l as [|[c nc] l]; [done|]. cbn in Hb. injection Hb as <-. destruct (nx n); inversion Hl'; by subst.
Qed.

Lemma queue_call_not s ins x : is_call ins = false → queue_call fuel ins x s = Ret (s, tt).
Proof. unfold queue_call. by intros ->. Qed.

(** [inode] is the [k]-th node of a scope that has no calls: a turn adds a node
    and goes on to the next one, if it ends. *)
Lemma clone_forever m : ∀ s a r ns hs ls k inode,
  store_ok (inodes (expr s)) → inode_stack (expr s) = Some a :: hs →
  chains (inodes (expr s)) (Some a :: hs) (((a, r) :: ns) :: ls) → Forall (λ x, is_call x.1 = false) (code_of <$> ns) →
  ns.*1 !! k = Some inode → loop m (clone_step fuel) (Some inode, s) = Timeout.
Proof.
  induction m as [|m IH]; intros s a r ns hs ls k inode Hok Hst Hch Hcalls Hk; [done|].
  rewrite list_lookup_fmap in Hk. apply fmap_Some in Hk as ([b nb] & Hk & ->). cbn [fst].
  pose proof (chains_first _ _ _ _ _ Hch) as Hl.
  assert (Hb : cells (inodes (expr s)) !! b = Some nb).
  { eapply lseg_lookup; [exact Hl|]. apply elem_of_cons. right. by eapply list_elem_of_lookup_2. }
  assert (Hnc : is_call (n_ins nb) = false).
  { rewrite Forall_forall in Hcalls. apply (Hcalls (code_of (b, nb))). apply list_elem_of_fmap. exists (b, nb).
    split; [done|]. by eapply list_elem_of_lookup_2. }
  destruct (decide (length ns < fuel)%nat) as [Hf|Hf].
  - destruct (gencode_chain fuel s (n_ins nb) (n_rec nb) a r ns hs ls Hok Hst Hch Hf)
      as (s1 & r' & ns' & d & E & Hq & Hst1 & Hok1 & Hch1 & Hadr & Hcode).
    assert (Hlen : length ns' = S (length ns)).
    { apply (f_equal length) in Hadr. rewrite length_app, !length_fmap in Hadr. cbn in Hadr. lia. }
    assert (Hk' : (k < length ns)%nat) by by eapply lookup_lt_Some.
    destruct (lookup_lt_is_Some_2 ns' k ltac:(lia)) as ([b' nb'] & Hb').
    assert (b' = b) as ->.
    { assert (Hbb : ns'.*1 !! k = Some b') by (rewrite list_lookup_fmap, Hb'; done).
      rewrite Hadr, lookup_app_l, list_lookup_fmap, Hk in Hbb by (by rewrite length_fmap). by injection Hbb. }
    destruct (lookup_lt_is_Some_2 ns'.*1 (S k) ltac:(rewrite length_fmap; lia)) as (c & Hc).
    pose proof (chains_head _ _ _ _ _ _ Hch1) as [_ Hl1]. pose proof (lseg_next _ _ _ _ _ _ _ Hl1 Hb' Hc) as Hnx.
    set (s2 := set_offset (u64 (current_offset s + 0)) s1).
    erewrite loop_inl; [apply (IH s2 a r' ns' hs ls (S k) c); try done|].
    + rewrite Hcode. apply Forall_app. split; [done|]. by apply Forall_cons.
    + unfold clone_step, clone_node. cbn [fst snd]. sm_by (node_some b nb s Hb).
      sm_by (queue_call_not s (n_ins nb) (n_rec nb) Hnc).
      rewrite (sm_bind_ret (advance_ _) _ s s2 tt); [|by apply (advance_ret _ s s1 0)].
      assert (Hb2 : cells (inodes (expr s2)) !! b = Some nb').
      { eapply lseg_lookup; [exact Hl1|]. by eapply list_elem_of_lookup_2. }
      cbv beta. sm_by (node_some b nb' s2 Hb2). by rewrite <-Hnx.
  - assert (E : clone_step fuel (Some b, s) = Timeout); [|by apply loop_timeout].
    unfold clone_step, clone_node. cbn [fst snd]. sm_by (node_some b nb s Hb).
    sm_by (queue_call_not s (n_ins nb) (n_rec nb) Hnc).
    erewrite sm_bind_timeout; [done|]. unfold advance_. sm_pure. apply sm_bind_timeout.
    apply (gencode_timeout s _ _ a r ns hs ls); try done. lia.
Qed.

(** [sp_clone_scope] never ends once the current scope holds an instruction:
    it appends each copy to the chain it walks along, so that the walk always
    finds another node. (The instructions are taken not to be calls, whose
    queues grow as well.) *)
Theorem clone_scope_hangs s c L :
  scoped (expr s) (c :: L) → c ≠ [] → Forall (λ x, is_call x.1 = false) c → sp_clone_scope fuel s = Timeout.
Proof.
  intros [Hok (ls & Hch & HF)] Hne Hcalls.
  destruct (scoped_root _ _ _ _ _ Hch HF) as (a & r & ns & hs & ls' & Hst & -> & Hc & HF' & Ha & _).
  rewrite Hst in Hch. pose proof (chains_head _ _ _ _ _ _ Hch) as [_ Hl]. destruct ns as [|[b nb] ns]; [by subst c|].
  assert (Hnx : n_next r = Some b) by (change (n_next r) with (nx r); destruct (nx r); inversion Hl; by subst).
  unfold sp_clone_scope. assert (H0 : inode_stack (expr s) !! 0%nat = Some (Some a)) by by rewrite Hst.
  sm_by (iroot_eq 0 s (Some a) H0). sm_by (node_some a r s Ha). unfold clone_nodes. rewrite Hnx.
  rewrite (clone_forever fuel s a r ((b, nb) :: ns) hs ls' 0 b); try done. by rewrite Hc.
Qed.
End clone.

(** A table with one function, named [f], that has no address yet. *)
Definition f_info : info := mkInfo SYM_TYPE_FUNCTION [102] SYM_UNDEFINED [].
Definition f_table : table :=
  mkTable (Some 1) [] (mkStore {[1 := new_sym SYM_TYPE_FUNCTION [102] SYM_UNDEFINED]} 2) (mkStore ∅ 1) [].
Definition f_start : sem := set_symtab f_table start.

Lemma f_symbols : symbols 1 f_table {[1 := f_info]}.
Proof.
  exists [((1, new_sym SYM_TYPE_FUNCTION [102] SYM_UNDEFINED), [])]. split; [split|split; [done|]].
  - constructor; [done|constructor].
  - split; [by repeat constructor|constructor].
  - intros a [r Ha]. cbn in Ha |- *. apply lookup_singleton_Some in Ha as [<- _]. lia.
  - apply store_ok_empty.
  - apply Forall_cons. split; [apply new_sym_named|by apply Forall_nil].
  - intros a. unfold find_sym. cbn. case_bool_decide as Ha; [subst a; by rewrite lookup_singleton_eq|by rewrite lookup_singleton_ne].
Qed.

(** a scope that holds one addition *)
Definition one_node : sem := set_expr (set_inodes (mkStore {[1 := mkNode (Some 3) INS_LBL NNull None; 2 := mkNode None INS_LBL NNull None; 3 := mkNode None INS_ADD NNull None]} 4)
  (set_roots [Some 1; Some 2] empty_exprs)) start.

Lemma one_node_scoped : scoped (expr one_node) [[(INS_ADD, NNull)]; []].
Proof.
  split.
  - intros a [r Ha]. cbn in Ha |- *. apply lookup_insert_Some in Ha as [[<- _]|[_ Ha]]; [lia|].
    apply lookup_insert_Some in Ha as [[<- _]|[_ Ha]]; [lia|]. apply lookup_singleton_Some in Ha as [<- _]. lia.
  - exists [[(1, mkNode (Some 3) INS_LBL NNull None); (3, mkNode None INS_ADD NNull None)]; [(2, mkNode None INS_LBL NNull None)]].
    split; [split|].
    + repeat (constructor; [repeat (constructor; [done|]); constructor|]). constructor.
    + cbn. repeat (apply NoDup_cons; split; [by rewrite ?not_elem_of_cons; repeat split; try lia; apply not_elem_of_nil|]). constructor.
    + repeat (apply Forall2_cons; split); try done; by apply scope_is_root.
Qed.

Lemma clone_scope_hangs_witness : sp_clone_scope 50 one_node = Timeout.
Proof.
  apply (clone_scope_hangs 50 one_node [(INS_ADD, NNull)] [[]] one_node_scoped); [done|].
  apply Forall_cons. split; [reflexivity|by apply Forall_nil].
Defined.

(** Two nested scopes: a system call, then a call of [f] and an addition in the
    inner one, with an instruction for after it; then a subtraction. *)
Definition demo_scopes : list scope_op :=
  [OpNew None; OpIns (INS_SYSCALL0 + 1) (NNum 5);
   OpNew None; OpIns INS_F2O (NSym 1); OpSwap; OpIns INS_NOP NNull; OpSwap; OpIns INS_ADD NNull; OpDestroy;
   OpIns INS_SUB NNull; OpDestroy].

Definition demo_code : list instr := [ISys 1 5; I3 INS_F2O 0xFFFF; I1 INS_ADD; I1 INS_NOP; I1 INS_SUB].

Lemma scopes_refine_witness :
  ∃ out, spec_ops demo_scopes [] = Some ([], out) ∧ mapM (node_instr {[1 := f_info]}) out = Some demo_code ∧
  ∃ s' T' n', run_ops 100 demo_scopes f_start = Ret (s', tt) ∧ scoped (expr s') [] ∧
    emitted f_start s' (encode_prog demo_code) ∧
    symbols n' (symtab s') T' ∧ wait_calls (current_offset f_start) out {[1 := f_info]} ⊆ T'.
Proof.
  eexists. split; [reflexivity|]. split; [reflexivity|].
  apply (scopes_refine 100 demo_scopes 1 f_start {[1 := f_info]} [] []); try reflexivity; try (cbn; lia).
  - split; [apply store_ok_empty|]. exists []. split; [by split; [constructor|constructor]|constructor].
  - apply f_symbols.
  - by vm_compute.
Defined.
