(* ===== verification/Actions.v ===== *)
(** * Semantic actions: constants, loads and cases (StackLib/Stack/sem_proto.c)

    The actions for names and constants of expressions. A constant is pushed
    once into the pool and found in the symbol table afterwards; a load is a
    node of the current scope. The table of a switch is a symbol whose name is
    the table, byte by byte. *)
From S2P Require Import Prelude Decimal Isa Streamer Links SymTable Labels Sem Scope.

(** ** The stacks of the parser *)
Definition sp_push_offset : sm unit :=
  l ← gets offstack; _ ← lift (guardb (length l <? SEM_MAX_STACK)%nat);
  modify (λ s, set_recs (current_offset s :: l) (rec_stack s) (rec_queue s) s).

Definition sp_pop_offset : sm Z :=
  l ← gets offstack; o ← lift (from_option_ub (head l));
  _ ← modify (λ s, set_recs (tail l) (rec_stack s) (rec_queue s) s); mret o.

Definition sp_push_symrec (rec : option Z) : sm (option Z) :=
  l ← gets rec_stack; _ ← lift (guardb (length l <? SEM_MAX_STACK)%nat);
  _ ← modify (λ s, set_recs (offstack s) (rec :: l) (rec_queue s) s); mret rec.

Definition sp_pop_symrec : sm (option Z) :=
  l ← gets rec_stack; rec ← lift (from_option_ub (head l));
  _ ← modify (λ s, set_recs (offstack s) (tail l) (rec_queue s) s); mret rec.

Definition sp_enqueue_symrec (rec : option Z) : sm (option Z) :=
  l ← gets rec_queue; _ ← lift (guardb (length l <? SEM_MAX_STACK)%nat);
  _ ← modify (λ s, set_recs (offstack s) (rec_stack s) (l ++ [rec]) s); mret rec.

Definition sp_dequeue_symrec : sm (option Z) :=
  l ← gets rec_queue;
  match l with
  | [] => mret None
  | rec :: l' => _ ← modify (λ s, set_recs (offstack s) (rec_stack s) l' s); mret rec
  end.

Definition sp_look_symrec : sm (option Z) := l ← gets rec_queue; lift (from_option_ub (last l)).
Definition sp_peek_symrec : sm (option Z) := l ← gets rec_stack; lift (from_option_ub (head l)).
Definition sp_prev_symrec : sm (option Z) := l ← gets rec_stack; lift (from_option_ub (l !! 1%nat)).
Definition sp_clear_symrec : sm unit := modify (λ s, set_recs (offstack s) [] [] s).

(** ** Constants *)

(** [is_push_constant] *)
Definition push_constant (size : Z) (value : list Z) : sm Z :=
  λ s, g ← is_push_constant size value (stream s); Ret (set_stream g.1 s, g.2).

(** [strlen] of a C string *)
Definition c_text (cstr : list Z) : sm (list Z) := lift (from_option_ub (c_string cstr)).

Section actions.
Context (fuel : nat).

Definition st_insert_s (ty : Z) (nm : list Z) (len off : Z) : sm Z := on_tab (st_sym_insert_s fuel ty nm len off).
Definition st_select_array (arrval : list Z) (len : Z) : sm (option Z) :=
  λ s, r ← st_sym_select_array fuel arrval len (symtab s); Ret (s, r).
Definition st_insert_array (arrval : list Z) (len off : Z) : sm Z := on_tab (st_sym_insert_array fuel arrval len off).

Definition sp_push_constant (symname : list Z) : sm Z :=
  var ← st_select fuel SYM_TYPE_CONST symname;
  match var with
  | Some _ => mret 0
  | None =>
      n ← c_text symname;
      offset ← push_constant (Z.of_nat (length n)) symname;
      _ ← st_insert fuel SYM_TYPE_CONST symname offset; mret offset
  end.

Definition sp_push_constant_s (symname : list Z) (length : Z) : sm Z :=
  var ← st_select_s fuel SYM_TYPE_CONST symname length;
  match var with
  | Some _ => mret 0
  | None =>
      offset ← push_constant length symname;
      _ ← st_insert_s SYM_TYPE_CONST symname length offset; mret offset
  end.

Definition sp_push_array (arrval : list Z) (length : Z) : sm Z :=
  var ← st_select_array arrval length;
  match var with
  | Some _ => mret 0
  | None =>
      offset ← push_constant length arrval;
      _ ← st_insert_array arrval length offset; mret offset
  end.

Definition sp_push_constant_offset (c_offset : Z) : sm Z :=
  sbuffer ← sprintf 10 (print_int c_offset);
  var ← st_select fuel SYM_TYPE_CONST sbuffer;
  match var with
  | Some a => mret a
  | None =>
      n ← c_text sbuffer;
      offset ← push_constant (Z.of_nat (length n)) sbuffer;
      st_insert fuel SYM_TYPE_CONST sbuffer offset
  end.

Definition sp_push_class (symname : list Z) : sm Z :=
  var ← st_select fuel SYM_TYPE_CLASS symname;
  match var with
  | Some _ => mret 0
  | None =>
      n ← c_text symname;
      offset ← push_constant (Z.of_nat (length n)) symname;
      _ ← st_insert fuel SYM_TYPE_CLASS symname offset; mret offset
  end.

(** ** Loads, as nodes of the current scope *)

(** a [symrec *] as the field of a node *)
Definition rec_node (rec : option Z) : node_arg := match rec with Some a => NSym a | None => NNull end.

(** [sp_push_inode(sp_create_inode(op, rec))] *)
Definition push_ins (op : Z) (rec : node_arg) : sm unit := n ← sp_create_inode op rec; _ ← sp_push_inode fuel n; mret tt.

(** [_current_offset += sp_gencode(_current_offset, op, rec)] *)
Definition gencode_ins (op : Z) (rec : node_arg) : sm unit := advance_ (λ _, sp_gencode fuel op rec).

(** the symbol of a constant, pushed when it is new *)
Definition constant (constname : list Z) : sm (option Z) :=
  rec ← st_select fuel SYM_TYPE_CONST constname;
  match rec with
  | Some a => mret (Some a)
  | None => _ ← sp_push_constant constname; st_select fuel SYM_TYPE_CONST constname
  end.

Definition constant_s (constname : list Z) (length : Z) : sm (option Z) :=
  rec ← st_select_s fuel SYM_TYPE_CONST constname length;
  match rec with
  | Some a => mret (Some a)
  | None => _ ← sp_push_constant_s constname length; st_select_s fuel SYM_TYPE_CONST constname length
  end.

Definition constant_array (arrval : list Z) (length : Z) : sm (option Z) :=
  rec ← st_select_array arrval length;
  match rec with
  | Some a => mret (Some a)
  | None => _ ← sp_push_array arrval length; st_select_array arrval length
  end.

Definition undeclared (name : list Z) : sm unit := n ← c_text name; sp_error ERR_UNDEF_VARIABLE n.

Definition sp_load_stack (varname : list Z) : sm Z :=
  rec ← st_select fuel SYM_TYPE_VAR varname;
  _ ← (match rec with Some a => gencode_ins INS_OBJPUSH (NSym a) | None => undeclared varname end : sm unit);
  gets current_offset.

Definition sp_store_stack (varname : list Z) : sm Z :=
  rec ← st_select fuel SYM_TYPE_VAR varname;
  _ ← (match rec with Some a => gencode_ins INS_OBJPOP (NSym a) | None => undeclared varname end : sm unit);
  gets current_offset.

Definition sp_load_constant (constname : list Z) : sm Z :=
  rec ← constant constname;
  _ ← (match rec with Some a => gencode_ins INS_OBJCONST (NSym a) | None => undeclared constname end : sm unit);
  gets current_offset.

(** system call 40 makes a number of the text *)
Definition sp_load_numeric (constname : list Z) : sm Z :=
  rec ← constant constname;
  _ ← (match rec with
       | Some a => _ ← gencode_ins INS_OBJCONST (NSym a); gencode_ins (INS_SYSCALL0 + 1) (NNum 40)
       | None => undeclared constname
       end : sm unit);
  gets current_offset.

Definition sp_load_array (arrval : list Z) (length : Z) : sm Z :=
  rec ← constant_array arrval length;
  _ ← (match rec with Some a => gencode_ins INS_OBJCONST (NSym a) | None => undeclared arrval end : sm unit);
  gets current_offset.

Definition sp_lz_load_stack (rec : option Z) : sm (option Z) :=
  match rec with
  | None => mret None
  | Some a =>
      r ← sym a;
      let ty := Z.land (type r) 0x0F in
      _ ← (if ty =? SYM_TYPE_VAR then push_ins INS_OBJPUSH (NSym a)
           else if ty =? SYM_TYPE_CONST then push_ins INS_OBJCONST (NSym a) else mret tt);
      mret (Some a)
  end.

Definition sp_lz_load_constant (constname : list Z) : sm (option Z) :=
  srec ← constant constname; _ ← push_ins INS_OBJCONST (rec_node srec); mret srec.

Definition sp_lz_load_numeric (constname : list Z) : sm (option Z) :=
  srec ← constant constname; _ ← push_ins INS_OBJCONST (rec_node srec); _ ← push_ins (INS_SYSCALL0 + 1) (NNum 40); mret srec.

Definition sp_lz_load_constant_s (constname : list Z) (length : Z) : sm (option Z) :=
  srec ← constant_s constname length; _ ← push_ins INS_OBJCONST (rec_node srec); mret srec.

Definition sp_lz_load_array (arrval : list Z) (length : Z) : sm (option Z) :=
  srec ← constant_array arrval length; _ ← push_ins INS_OBJCONST (rec_node srec); mret srec.

Definition sp_lhs_store_variable (varname : list Z) : sm (option Z) :=
  rec ← st_select fuel SYM_TYPE_VAR varname;
  match rec with
  | None => _ ← undeclared varname; mret None
  | Some a => _ ← push_ins INS_OBJPOP (NSym a); mret (Some a)
  end.

(** ** Loops over the elements of an object *)
Definition sp_start_each_loop (var : option Z) : sm Z :=
  label ← sp_create_label fuel LOOP_PREFIX;
  _ ← push_ins (INS_SYSCALL0 + 1) (NNum 28);
  _ ← sp_flush_scope_now fuel;
  n ← label_name label;
  _ ← sp_new_label fuel n;
  _ ← sp_loop_stack_push label;
  _ ← push_ins INS_OBJDUP NNull;
  _ ← push_ins (INS_SYSCALL0 + 1) (NNum 29);
  _ ← push_ins INS_OBJDUP NNull;
  _ ← push_ins INS_OBJPOP (rec_node var);
  _ ← sp_lz_load_constant [0];
  _ ← push_ins INS_CRNE NNull;
  mret label.

Definition sp_end_each_loop : sm Z :=
  a ← sp_loop_stack_peek;
  n ← label_name a;
  o ← sp_jump_to fuel INS_JMP n;
  _ ← modify (set_offset o);
  _ ← sp_loop_stack_pop;
  _ ← push_ins INS_OBJDEL NNull;
  gets current_offset.

(** ** Switches *)

(** bytes written over the name of a symbol, which must lie in its allocation *)
Definition poke (k : nat) (l nm : list Z) : list Z := take k (nm ++ replicate k 0) ++ l ++ drop (k + length l) nm.

Definition set_name (nm : list Z) (len off : Z) (r : symrec) : symrec :=
  mkSym (parent r) (s_next r) (type r) len off (jlist r) (pcount r) (ptotal r) (sa_currec r) nm (room r).

Definition write_name (a : Z) (k : nat) (l : list Z) : sm unit :=
  r ← sym a;
  _ ← lift (guardb (Z.of_nat (k + length l) <=? room r));
  set_sym a (λ r, set_name (poke k l (name r)) (slength r) (offset r) r).

Definition set_length (a : Z) (len : Z) : sm unit := set_sym a (λ r, set_name (name r) len (offset r) r).

Definition sp_start_case : sm Z :=
  jumptable ← st_insert fuel SYM_TYPE_CONST [0] 0;
  _ ← set_length jumptable 2;
  _ ← write_name jumptable 0 [0; 0];
  f ← gets current_function;
  _ ← set_sym jumptable (set_parent f);
  o ← gets current_offset;
  _ ← jmp_add fuel jumptable INS_SWITCH o;
  _ ← advance_ (λ o, gen_sym o INS_SWITCH jumptable);
  mret jumptable.

(** the constant of the case and the address of its code, two words *)
Definition sp_label_case_s (jumptable : Z) (nm : list Z) (length : Z) : sm Z :=
  rec ← st_select_s fuel SYM_TYPE_CONST nm length;
  a ← lift (from_option_ub rec);
  r ← sym a;
  j ← sym jumptable;
  o ← gets current_offset;
  let k := Z.to_nat (slength j) in
  _ ← write_name jumptable k (word (u16 (offset r)));
  _ ← write_name jumptable (k + 2) (word (u16 o));
  _ ← set_length jumptable (u16 (slength j + 4));
  gets current_offset.

Definition sp_label_case (jumptable : Z) (cstr : list Z) : sm Z :=
  n ← c_text cstr; sp_label_case_s jumptable cstr (u16 (Z.of_nat (length n))).

Definition sp_default_case (jumptable : Z) : sm Z :=
  o ← gets current_offset;
  _ ← write_name jumptable 0 (word (u16 o));
  gets current_offset.

(** an address of zero counts as none *)
Definition sp_end_case (jumptable : Z) : sm Z :=
  j ← sym jumptable;
  _ ← (if bool_decide (take 2 (name j ++ [0; 0]) = [0; 0]) then
         o ← gets current_offset; write_name jumptable 0 (word (u16 o))
       else mret tt);
  j ← sym jumptable;
  jtable_offset ← push_constant (slength j) (name j);
  _ ← set_sym jumptable (set_soffset jtable_offset);
  _ ← patch_queue fuel jumptable;
  _ ← on_tab_ (st_jmp_clear fuel jumptable);
  gets current_offset.
End actions.
