(* ===== verification/Compile.v ===== *)
(** * From the parser to the result of a run

    An expression over constants, from the actions of the parser (Actions,
    Scope) over the emitted code and the linked image (Streamer, Linker, Driver)
    to the run of the machine (MachineExpr). *)
From S2P Require Import Prelude Decimal Isa Streamer Linker L1 L2 Vm Driver Links SymTable Gc Text Machine MachineSafe MachineOps MachineExpr.
From S2P Require Import Labels Sem Scope Actions.

(** ** Expressions of the language, and what the parser does with them *)
Inductive source : Type :=
  | Const (v : list Z)
  | Oper (op : Z) (e1 e2 : source).

(** the rule of an expression that is a constant in quotes; numerals, which go
    another way into the pool, are not covered *)
Definition parse_constant (fuel : nat) (v : list Z) : sm unit :=
  a ← sp_lz_load_constant_s fuel v (Z.of_nat (length v)); _ ← sp_push_symrec a; mret tt.

(** the rules of an operator between two expressions; which operators have a
    value here, [proper] says *)
Fixpoint parse (fuel : nat) (e : source) : sm unit :=
  match e with
  | Const v => parse_constant fuel v
  | Oper op e1 e2 => _ ← parse fuel e1; _ ← parse fuel e2; _ ← sp_pop_symrec; push_ins fuel op NNull
  end.

(** the part of the rule of a declaration with a value that compiles the value:
    a scope of its own, the expression, its symbol taken off the stack, the
    scope flushed and left. The creation of the variable and the store into it
    are left out *)
Definition compile_value (fuel : nat) (e : source) : sm unit :=
  _ ← sp_create_new_scope fuel None;
  _ ← parse fuel e;
  _ ← sp_pop_symrec;
  _ ← sp_flush_scope_now fuel;
  sp_destroy_scope fuel.

(** a program that is one expression: with a return behind it, which is no part
    of that rule, so that the run ends with the value on the stack *)
Definition compile (fuel : nat) (e : source) : sm unit :=
  _ ← compile_value fuel e;
  advance_ (λ o, gencode o INS_RET GNone).

Fixpoint meaning (e : source) : option (list Z) :=
  match e with
  | Const v => Some v
  | Oper op e1 e2 => t1 ← meaning e1; t2 ← meaning e2; apply_op op t2 t1
  end.

Lemma sm_bind_assoc {A B C} (m : sm A) (f : A → sm B) (g : B → sm C) s : ((m ≫= f) ≫= g) s = (m ≫= λ a, f a ≫= g) s.
Proof. unfold mbind, sm_bind. destruct (m s) as [[s' a]| |]; reflexivity. Qed.

(** ** Sizes *)
Fixpoint nodes (e : source) : nat := match e with Const _ => 1 | Oper _ e1 e2 => nodes e1 + nodes e2 + 1 end.
Fixpoint height (e : source) : nat := match e with Const _ => 1 | Oper _ e1 e2 => height e1 `max` (1 + height e2) end.
Fixpoint code_bytes (e : source) : Z := match e with Const _ => 3 | Oper _ e1 e2 => code_bytes e1 + code_bytes e2 + 1 end.
Fixpoint pool_bytes (e : source) : Z :=
  match e with Const v => Z.of_nat (length (const_bytes v)) | Oper _ e1 e2 => pool_bytes e1 + pool_bytes e2 end.

Definition const_ok (v : list Z) : Prop := Forall (λ c, is_byte c ∧ c ≠ 0) v ∧ Z.of_nat (length v) ≤ Linker.VA_OBJECT_MAX_SIZE.

Fixpoint proper (e : source) : Prop :=
  match e with
  | Const v => const_ok v
  | Oper op e1 e2 => op ∈ operations ++ comparisons ∧ proper e1 ∧ proper e2
  end.

Lemma pool_bytes_nonneg e : 0 ≤ pool_bytes e.
Proof. induction e; cbn; lia. Qed.

(** ** Constants in the pool

    Every constant of the table lies in the pool where it says. *)
Definition pool (T : gmap Z info) (st : istream) : Prop :=
  ∀ a i, T !! a = Some i → info_is SYM_TYPE_CONST (i_name i) i = true →
    0 ≤ i_offset i ∧ region (data st) (i_offset i) (const_bytes (i_name i)) ∧
    i_offset i + Z.of_nat (length (const_bytes (i_name i))) ≤ cpindex st.

(** what pushing constants and adding nodes leaves alone *)
Record same_place (s s' : sem) : Prop := {
  sp_code : Streamer.code (stream s') = Streamer.code (stream s);
  sp_size : code_size (stream s') = code_size (stream s);
  sp_offset : current_offset s' = current_offset s;
  sp_label : label_index s' = label_index s
}.

#[export] Instance same_place_preorder : PreOrder same_place.
Proof. split; [by split|]. intros s1 s2 s3 [] []. split; congruence. Qed.

Lemma same_place_quiet s s' : quiet s s' → same_place s s'.
Proof. intros ->. by split. Qed.

(** between two actions of the parser: the scopes [c :: L], the symbols [T] *)
Record parsing (n : nat) (s : sem) (T : gmap Z info) (L : list (list ncode)) : Prop := {
  pa_scopes : scoped (expr s) L;
  pa_symbols : symbols n (symtab s) T;
  pa_pool : pool T (stream s);
  pa_wf : istream_wf (stream s)
}.

Lemma parsing_quiet n s s' T L L' : parsing n s T L → quiet s s' → scoped (expr s') L' → parsing n s' T L'.
Proof. intros [_ H2 H3 H4] -> H. by split. Qed.

Section actions.
Context (fuel : nat).

(** [push_ins] is [sp_gencode] without its result *)
Lemma push_ins_ok n s T c L op rec : parsing n s T (c :: L) → (length c < fuel)%nat →
  ∃ s', push_ins fuel op rec s = Ret (s', tt) ∧ quiet s s' ∧ parsing n s' T ((c ++ [(op, rec)]) :: L).
Proof.
  intros H Hf. destruct (gencode_scope fuel s op rec c L (pa_scopes _ _ _ _ H) Hf) as (s' & E & Hq & H').
  exists s'. split; [|split; [done|by eapply parsing_quiet]]. unfold sp_gencode in E. unfold push_ins.
  unfold mbind, sm_bind, mret, sm_ret in *. destruct (sp_create_inode op rec s) as [x| |]; [|done|done].
  destruct (sp_push_inode fuel x.2 x.1) as [y| |]; [|done|done]. by injection E as ->.
Qed.

Lemma const_ok_bytes v : const_ok v → Forall is_byte v.
Proof. intros [H _]. eapply Forall_impl; [exact H|]. by intros c []. Qed.

(** a constant that the table does not have goes to the end of the pool *)
Lemma push_new_constant n s T L v : parsing n s T L → const_ok v → (n < fuel)%nat →
  (∀ a i, T !! a = Some i → info_is SYM_TYPE_CONST v i = false) →
  cpindex (stream s) + Z.of_nat (length (const_bytes v)) < 65536 →
  ∃ s' T' r, sp_push_constant_s fuel v (Z.of_nat (length v)) s = Ret (s', r) ∧ T ⊆ T' ∧ parsing (S n) s' T' L ∧ same_place s s' ∧
    (∃ a i, T' !! a = Some i ∧ info_is SYM_TYPE_CONST v i = true) ∧ rec_stack s' = rec_stack s ∧
    cpindex (stream s') = cpindex (stream s) + Z.of_nat (length (const_bytes v)).
Proof.
  intros [Hsc HT Hp Hwf] Hv Hf Hno Hroom. pose proof (wf_cpindex _ Hwf) as Hcp. assert (Hv' := Hv). destruct Hv' as [_ Hlen]. unfold Linker.VA_OBJECT_MAX_SIZE in Hlen.
  destruct (push_constant_spec (stream s) v Hwf (const_ok_bytes v Hv)) as (st & E1 & [Hr Ho] & Hc & Hcode & Hl & Hm); [lia|unfold MAX_BUFFER_SIZE; lia|].
  rewrite u16_id in E1 by (unfold is_u16; lia).
  destruct (symbols_select_s n (symtab s) T SYM_TYPE_CONST v fuel HT Hf) as (o & E0 & Ha).
  destruct o as [a|]; [destruct Ha as (i & Hi & Hx); by rewrite (Hno a i Hi) in Hx|].
  set (s1 := set_stream st s).
  destruct (symbols_insert_s n (symtab s1) T SYM_TYPE_CONST v (cpindex (stream s)) fuel HT Hf) as (t & a & E2 & HT' & Hnew).
  set (i := mkInfo SYM_TYPE_CONST v (cpindex (stream s)) []) in *.
  assert (Hi : info_is SYM_TYPE_CONST v i = true) by (unfold info_is; cbn; by rewrite bool_decide_true).
  exists (set_symtab t s1), (<[a := i]> T), (cpindex (stream s)). split.
  { unfold sp_push_constant_s. rewrite (sm_bind_ret (st_select_s fuel SYM_TYPE_CONST v (Z.of_nat (length v))) _ s s None) by (unfold st_select_s; by rewrite E0).
    cbv beta iota. rewrite (sm_bind_ret (push_constant _ v) _ s s1 (cpindex (stream s))) by (unfold push_constant; by rewrite E1).
    cbv beta. by sm_by (on_tab_ret (st_sym_insert_s fuel SYM_TYPE_CONST v (Z.of_nat (length v)) (cpindex (stream s))) s1 t a E2). }
  split; [by apply insert_subseteq|]. split.
  { split; [exact Hsc|exact HT'| |exact (proj1 (push_wf _ Hwf _ _ _ _ E1))].
    intros b j Hb Hj. cbn [stream set_symtab s1 set_stream]. rewrite Hc. apply lookup_insert_Some in Hb as [[_ <-]|[_ Hb]].
    - cbn [i_offset i_name i]. split; [done|]. split; [done|lia].
    - destruct (Hp b j Hb Hj) as (H0 & Hrg & Hle). split; [done|]. split; [|lia]. eapply region_agree; [exact Hrg|].
      intros k Hk. apply Ho. lia. }
  split.
  { split; cbn [stream set_symtab s1 set_stream current_offset label_index]; [done| |done|done].
    unfold is_push_constant in E1. destruct (push_constant_header _ _ _) as [h| |]; cbn in E1; [|done|done].
    destruct (memcpy_in _ _ _ _) as [d'| |]; cbn in E1; [|done|done]. by injection E1 as <-. }
  split; [exists a, i; by rewrite lookup_insert_eq|]. split; [done|exact Hc].
Qed.

Lemma load_constant_runs n s T c L v : parsing n s T (c :: L) → const_ok v → (S n < fuel)%nat → (length c < fuel)%nat →
  cpindex (stream s) + Z.of_nat (length (const_bytes v)) < 65536 →
  ∃ s' T' a i, sp_lz_load_constant_s fuel v (Z.of_nat (length v)) s = Ret (s', Some a) ∧ T ⊆ T' ∧
    T' !! a = Some i ∧ info_is SYM_TYPE_CONST v i = true ∧ parsing (S n) s' T' ((c ++ [(INS_OBJCONST, NSym a)]) :: L) ∧
    same_place s s' ∧ rec_stack s' = rec_stack s ∧
    cpindex (stream s) ≤ cpindex (stream s') ≤ cpindex (stream s) + Z.of_nat (length (const_bytes v)).
Proof.
  intros H Hv Hf Hc Hroom.
  assert (Hfound : ∃ s1 T1 a i, constant_s fuel v (Z.of_nat (length v)) s = Ret (s1, Some a) ∧ T ⊆ T1 ∧ T1 !! a = Some i ∧
    info_is SYM_TYPE_CONST v i = true ∧ parsing (S n) s1 T1 (c :: L) ∧ same_place s s1 ∧ rec_stack s1 = rec_stack s ∧
    cpindex (stream s) ≤ cpindex (stream s1) ≤ cpindex (stream s) + Z.of_nat (length (const_bytes v))).
  { destruct (symbols_select_s n (symtab s) T SYM_TYPE_CONST v fuel (pa_symbols _ _ _ _ H)) as (o & E0 & Ho); [lia|].
    unfold constant_s. rewrite (sm_bind_ret (st_select_s fuel SYM_TYPE_CONST v (Z.of_nat (length v))) _ s s o) by (unfold st_select_s; by rewrite E0).
    destruct o as [a|].
    - destruct Ho as (i & Hi & Hx). exists s, T, a, i. split; [done|]. split; [done|]. split; [done|]. split; [done|].
      split; [|split; [done|split; [done|lia]]]. destruct H as [H1 H2 H3 H4]. split; [done| |done|done]. eapply symbols_mono; [exact H2|lia].
    - destruct (push_new_constant n s T (c :: L) v H Hv ltac:(lia) Ho Hroom) as (s1 & T1 & r & E1 & Hs1 & H1 & P1 & (b & j & Hb & Hj) & R1 & C1).
      destruct (symbols_select_s (S n) (symtab s1) T1 SYM_TYPE_CONST v fuel (pa_symbols _ _ _ _ H1) Hf) as (o & E2 & Ho2).
      destruct o as [a|]; [|by rewrite (Ho2 b j Hb) in Hj]. destruct Ho2 as (i & Hi & Hx). exists s1, T1, a, i. split.
      { sm_by E1. unfold st_select_s. by rewrite E2. }
      split; [done|]. split; [done|]. split; [done|]. split; [done|]. split; [done|]. split; [done|lia]. }
  destruct Hfound as (s1 & T1 & a & i & E1 & Hs1 & Hi & Hx & H1 & P1 & R1 & C1).
  destruct (push_ins_ok (S n) s1 T1 c L INS_OBJCONST (NSym a) H1 Hc) as (s2 & E2 & Hq & H2).
  exists s2, T1, a, i. split; [unfold sp_lz_load_constant_s; sm_by E1; by sm_by E2|]. do 3 (split; [done|]). split; [done|].
  split; [etrans; [exact P1|by apply same_place_quiet]|]. rewrite Hq. by split.
Qed.

(** *** The stack of the parser *)
Lemma push_symrec_eq a s : (length (rec_stack s) < SEM_MAX_STACK)%nat →
  sp_push_symrec a s = Ret (set_recs (offstack s) (a :: rec_stack s) (rec_queue s) s, a).
Proof.
  intros H. unfold sp_push_symrec. sm_pure. rewrite (sm_bind_ret (Sem.lift (guardb _)) _ s s tt) by (apply lift_ret; by rewrite (proj2 (Nat.ltb_lt _ _) H)).
  cbv beta. by sm_pure.
Qed.

Lemma pop_symrec_eq a l s : rec_stack s = a :: l → sp_pop_symrec s = Ret (set_recs (offstack s) l (rec_queue s) s, a).
Proof.
  intros H. unfold sp_pop_symrec. sm_pure. rewrite H. rewrite (sm_bind_ret (Sem.lift _) _ s s a) by done. cbv beta. by sm_pure.
Qed.

Lemma parsing_recs n s T L o r q : parsing n s T L → parsing n (set_recs o r q s) T L.
Proof. intros []. by split. Qed.

Lemma same_place_recs s o r q : same_place s (set_recs o r q s).
Proof. by split. Qed.
End actions.

(** ** What an expression becomes

    Its nodes, its instructions before linking, and, for a pool at [base], the
    expression of the machine. *)
Inductive becomes (T : gmap Z info) : source → list ncode → list instr → (Z → MachineExpr.expr) → Prop :=
  | BConst v a i : T !! a = Some i → info_is SYM_TYPE_CONST v i = true →
      becomes T (Const v) [(INS_OBJCONST, NSym a)] [I3 INS_OBJCONST (i_offset i)] (λ base, EConst (base + i_offset i) v)
  | BOper op e1 e2 n1 n2 i1 i2 x1 x2 : becomes T e1 n1 i1 x1 → becomes T e2 n2 i2 x2 →
      becomes T (Oper op e1 e2) (n1 ++ n2 ++ [(op, NNull)]) (i1 ++ i2 ++ [I1 op]) (λ base, EOp op (x1 base) (x2 base)).

Lemma becomes_mono T T' e ns is_ x : T ⊆ T' → becomes T e ns is_ x → becomes T' e ns is_ x.
Proof. intros Hs. induction 1; [constructor; [by eapply lookup_weaken|done]|by constructor]. Qed.

Lemma becomes_length T e ns is_ x : becomes T e ns is_ x → length ns = nodes e.
Proof. induction 1 as [|? ? ? ? ? ? ? ? ? ? IH1 ? IH2]; [done|]. rewrite !length_app, IH1, IH2. cbn. lia. Qed.

Lemma operation_byte op : op ∈ operations ++ comparisons → is_byte op ∧ classify op = CPlain.
Proof.
  assert (H : Forall (λ op, is_byte op ∧ classify op = CPlain) (operations ++ comparisons))
    by (repeat (apply Forall_cons; split; [vm_compute; repeat split; congruence|]); by apply Forall_nil).
  rewrite Forall_forall in H. apply H.
Qed.

Lemma becomes_psize T e ns is_ x : becomes T e ns is_ x → psize is_ = code_bytes e.
Proof. induction 1 as [|? ? ? ? ? ? ? ? ? ? IH1 ? IH2]; [done|]. rewrite !psize_app, IH1, IH2. change (psize [I1 op]) with 1. cbn [code_bytes]. lia. Qed.

Section parse.
Context (fuel : nat).

Lemma parse_runs e : ∀ n s T c L, parsing n s T (c :: L) → proper e → (n + nodes e < fuel)%nat → (length c + nodes e < fuel)%nat →
  (length (rec_stack s) + height e ≤ SEM_MAX_STACK)%nat → cpindex (stream s) + pool_bytes e < 65536 →
  ∃ s' T' ns is_ x a, parse fuel e s = Ret (s', tt) ∧ becomes T' e ns is_ x ∧ T ⊆ T' ∧
    parsing (n + nodes e) s' T' ((c ++ ns) :: L) ∧ same_place s s' ∧ rec_stack s' = a :: rec_stack s ∧
    cpindex (stream s) ≤ cpindex (stream s') ≤ cpindex (stream s) + pool_bytes e.
Proof.
  induction e as [v|op e1 IH1 e2 IH2]; intros n s T c L H Hp Hf Hc Hr Hb; cbn [proper nodes height pool_bytes parse] in *.
  - destruct (load_constant_runs fuel n s T c L v H Hp ltac:(lia) ltac:(lia) ltac:(lia)) as (s1 & T1 & a & i & E1 & Hs1 & Hi & Hx & H1 & P1 & R1 & C1).
    eexists _, T1, _, _, _, (Some a). split; [unfold parse_constant; sm_by E1; sm_by (push_symrec_eq (Some a) s1 ltac:(rewrite R1; lia)); done|].
    split; [by constructor|]. split; [done|]. split; [apply parsing_recs; by rewrite Nat.add_1_r|].
    split; [etrans; [exact P1|apply same_place_recs]|]. cbn [rec_stack set_recs stream]. by rewrite R1.
  - destruct Hp as (Hop & Hp1 & Hp2). pose proof (pool_bytes_nonneg e1) as Hb1. pose proof (pool_bytes_nonneg e2) as Hb2.
    destruct (IH1 n s T c L H Hp1 ltac:(lia) ltac:(lia) ltac:(lia) ltac:(lia)) as (s1 & T1 & n1 & i1 & x1 & a1 & E1 & B1 & Hs1 & H1 & P1 & R1 & C1).
    pose proof (becomes_length _ _ _ _ _ B1) as Hn1.
    destruct (IH2 (n + nodes e1)%nat s1 T1 (c ++ n1) L H1 Hp2) as (s2 & T2 & n2 & i2 & x2 & a2 & E2 & B2 & Hs2 & H2 & P2 & R2 & C2);
      [lia|rewrite length_app; lia|rewrite R1; cbn [length]; lia|lia|]. pose proof (becomes_length _ _ _ _ _ B2) as Hn2.
    set (s3 := set_recs (offstack s2) (rec_stack s1) (rec_queue s2) s2).
    destruct (push_ins_ok fuel (n + nodes e1 + nodes e2) s3 T2 ((c ++ n1) ++ n2) L op NNull) as (s4 & E4 & Hq & H4);
      [by apply parsing_recs|rewrite !length_app; lia|].
    exists s4, T2, (n1 ++ n2 ++ [(op, NNull)]), (i1 ++ i2 ++ [I1 op]), (λ base, EOp op (x1 base) (x2 base)), a1.
    split; [sm_by E1; sm_by E2; by sm_by (pop_symrec_eq a2 _ s2 R2)|].
    split; [constructor; [by eapply becomes_mono|done]|]. split; [by etrans|]. split.
    + rewrite <-!app_assoc in H4. destruct H4 as [K1 K2 K3 K4]. split; [done| |done|done]. eapply symbols_mono; [exact K2|lia].
    + split; [etrans; [exact P1|etrans; [exact P2|etrans; [apply same_place_recs|by apply same_place_quiet]]]|].
      rewrite Hq. cbn [rec_stack set_expr stream set_recs s3]. split; [done|lia].
Qed.
End parse.

Lemma mapM_app_some {A B} (f : A → option B) l1 l2 k1 k2 : mapM f l1 = Some k1 → mapM f l2 = Some k2 → mapM f (l1 ++ l2) = Some (k1 ++ k2).
Proof. rewrite !mapM_Some. apply Forall2_app. Qed.

(** the nodes can be emitted *)
Lemma becomes_nodes T st e ns is_ x : becomes T e ns is_ x → pool T st → cpindex st < 65536 → proper e → mapM (node_instr T) ns = Some is_ ∧ prog_wf is_.
Proof.
  intros H Hp Hc. induction H as [v a i Ha Hi|op e1 e2 n1 n2 i1 i2 x1 x2 H1 IH1 H2 IH2]; cbn [proper].
  - intros Hv. assert (Hn : i_name i = v) by (unfold info_is in Hi; apply andb_true_iff in Hi as [_ Hi]; by apply bool_decide_eq_true in Hi).
    rewrite <-Hn in Hi. destruct (Hp a i Ha Hi) as (H0 & _ & Hle). assert (Hu : is_u16 (i_offset i)) by (unfold is_u16; lia).
    assert (Hw : instr_wf (I3 INS_OBJCONST (i_offset i)) = true).
    { unfold instr_wf, u16b. rewrite (proj2 (Z.leb_le _ _)), (proj2 (Z.ltb_lt _ _)) by (unfold is_u16 in Hu; lia). reflexivity. }
    split; [|by apply Forall_cons]. cbn [mapM mbind option_bind]. unfold node_instr. cbn [fst snd]. rewrite Ha. cbn [mbind option_bind].
    assert (Es : sym_instr INS_OBJCONST (i_offset i) = I3 INS_OBJCONST (i_offset i)) by (unfold sym_instr; cbn; by rewrite u16_id).
    rewrite Es, Hw. rewrite (proj2 (forallb_forall _ _)); [done|]. intros y Hy. apply list_elem_of_In in Hy. rewrite Hn in Hy.
    destruct Hv as [Hv _]. rewrite Forall_forall in Hv. destruct (Hv y Hy) as [_ Hy0]. by destruct (Z.eqb_spec y 0).
  - intros (Hop & Hp1 & Hp2). destruct (IH1 Hp1) as [K1 W1]. destruct (IH2 Hp2) as [K2 W2]. destruct (operation_byte op Hop) as [Hb Hcl].
    assert (Hw : instr_wf (I1 op) = true).
    { unfold instr_wf, byteb. unfold is_byte in Hb. rewrite Hcl, (proj2 (Z.leb_le _ _)), (proj2 (Z.ltb_lt _ _)) by lia. done. }
    assert (Hin : node_instr T (op, NNull) = Some (I1 op)).
    { unfold node_instr. cbn [fst snd]. rewrite Hcl, Hw. assert (Hcall : is_call op = false).
      { clear -Hop. assert (H : forallb (λ op, negb (is_call op)) (operations ++ comparisons) = true) by reflexivity.
        rewrite forallb_forall in H. apply list_elem_of_In in Hop. specialize (H op Hop). by destruct (is_call op). }
      by rewrite Hcall. }
    split; [|apply Forall_app; split; [done|]; apply Forall_app; split; [done|]; by apply Forall_cons].
    apply mapM_app_some; [done|]. apply mapM_app_some; [done|]. cbn [mapM mbind option_bind]. by rewrite Hin.
Qed.

Lemma patched_ok c c' off l : buf_ok c → Forall is_byte l → patched c c' off l → buf_ok c'.
Proof.
  intros Hc Hl [Hr Ho] i. destruct (decide (off ≤ i < off + Z.of_nat (length l))) as [Hi|Hi].
  - destruct (lookup_lt_is_Some_2 l (Z.to_nat (i - off)) ltac:(lia)) as [y Hy]. rewrite <-(Hr _ _ Hy) in Hy.
    rewrite Forall_lookup in Hl. specialize (Hl _ _ Hy). by replace (off + Z.of_nat (Z.to_nat (i - off))) with i in Hl by lia.
  - rewrite Ho by lia. apply Hc.
Qed.

Lemma start_parsing : scoped (expr start) [] ∧ symbols 0 (symtab start) ∅.
Proof.
  split; [split; [apply store_ok_empty|]; exists []; by repeat constructor|].
  exists []. split; [|split; [done|by intros a; rewrite lookup_empty]].
  split; [constructor|split; [by apply Forall_nil|constructor]|apply store_ok_empty|apply store_ok_empty|by apply Forall_nil].
Qed.

(** ** What the compiler leaves *)

(** the flush of the scope, its end, and the return *)
Lemma finish_runs fuel n s T e ns is_ x : parsing n s T [ns; []] → becomes T e ns is_ x → proper e →
  (n + 2 * nodes e + 2 < fuel)%nat → 0 ≤ label_index s < 2 ^ 31 - 2 → current_offset s = 0 → code_size (stream s) = 0 → Streamer.code (stream s) = ∅ →
  psize is_ < MAX_BUFFER_SIZE → cpindex (stream s) < 65536 →
  ∃ s', (_ ← sp_flush_scope_now fuel; _ ← sp_destroy_scope fuel; advance_ (λ o, gencode o INS_RET GNone)) s = Ret (s', tt) ∧
    region (Streamer.code (stream s')) 0 (encode_prog (is_ ++ [I1 INS_RET])) ∧ prog_wf (is_ ++ [I1 INS_RET]) ∧
    stream s' = set_code_size (psize (is_ ++ [I1 INS_RET])) (set_code (Streamer.code (stream s')) (stream s)) ∧ istream_wf (stream s').
Proof.
  intros [K1 K2 K3 K4] B Hp Hf Hl P3 P2 P1 Hm Hc. destruct (becomes_nodes T (stream s) e ns is_ x B K3 Hc Hp) as [Hnodes Hwf].
  pose proof (becomes_length _ _ _ _ _ B) as Hlen. pose proof (psize_nonneg is_) as Hps.
  destruct (flush_now_ok fuel n s T ns [] [] is_ K1 K2) as (s1 & E1 & (Pa1 & O1 & St1) & Hs1 & HT1 & Hfr1);
    [by rewrite app_nil_r|cbn [length]; lia|lia|rewrite P3; lia|].
  rewrite P1, P3 in Pa1. rewrite P3, length_psize in O1. rewrite P2 in St1.
  destruct (op_ok fuel _ s1 _ OpDestroy [[]; []] [] [] [] Hs1 HT1 eq_refl eq_refl) as (s2 & E2 & Hs2 & (Pa2 & O2 & St2) & _);
    [cbn [length concat app]; lia|rewrite Hfr1; exact Hl|rewrite O1, St1; cbn [code_size set_code_size]; lia|rewrite O1; change (psize []) with 0; lia|].
  rewrite length_psize in O2. change (psize []) with 0 in O2.
  assert (Pall : patched ∅ (Streamer.code (stream s2)) 0 (encode_prog is_)).
  { rewrite <-(app_nil_r (encode_prog is_)). eapply patched_app; [exact Pa1|]. by rewrite length_psize, <-O1. }
  destruct (gencode_instr (stream s2) (current_offset s2) (I1 INS_RET) GNone eq_refl (arg_ok1 _ _)) as (c & E3 & Pa3);
    [lia|change (isize (I1 INS_RET)) with 1; lia|]. change (isize (I1 INS_RET)) with 1 in E3. cbn [opcode_of] in E3.
  assert (Pfin : patched ∅ c 0 (encode_prog (is_ ++ [I1 INS_RET]))).
  { rewrite encode_prog_app. eapply patched_app; [exact Pall|]. rewrite length_psize. by replace (0 + psize is_) with (current_offset s2) by lia. }
  assert (Hwf' : prog_wf (is_ ++ [I1 INS_RET])) by (apply Forall_app; split; [done|by apply Forall_cons]).
  assert (Hst : stream s2 = set_code_size (psize is_) (set_code (Streamer.code (stream s2)) (stream s))).
  { rewrite St2 at 1. rewrite St1. unfold set_code_size, set_code. cbn. f_equal. lia. }
  eexists. split.
  { sm_by E1. sm_by E2. rewrite (advance_ret _ s2 (set_stream (gen_state c (current_offset s2 + 1) (stream s2)) s2) 1) by (unfold gencode; by rewrite E3). reflexivity. }
  cbn [stream set_offset set_stream]. unfold gen_state. rewrite Hst. split; [exact (proj1 Pfin)|]. split; [done|]. split.
  - rewrite psize_app. change (psize [I1 INS_RET]) with 1. unfold set_code_size, set_code. cbn. f_equal. lia.
  - destruct K4 as [_ Wd Wc]. split; cbn; [|done|done]. eapply patched_ok; [exact buf_ok_empty|by apply encode_prog_bytes|exact Pfin].
Qed.

Lemma compile_runs fuel e : proper e → code_bytes e + pool_bytes e + 5 < 65536 → (height e ≤ SEM_MAX_STACK)%nat → (3 * nodes e + 6 < fuel)%nat →
  ∃ s T ns is_ x, compile fuel e start = Ret (s, tt) ∧ becomes T e ns is_ x ∧ pool T (stream s) ∧ istream_wf (stream s) ∧
    region (Streamer.code (stream s)) 0 (encode_prog (is_ ++ [I1 INS_RET])) ∧ code_size (stream s) = psize (is_ ++ [I1 INS_RET]) ∧
    prog_wf (is_ ++ [I1 INS_RET]) ∧ 0 ≤ cpindex (stream s) ≤ pool_bytes e.
Proof.
  intros Hp Hroom Hh Hf. destruct start_parsing as [Hs0 HT0]. assert (Hn1 : (1 ≤ nodes e)%nat) by (destruct e; cbn; lia).
  assert (Hcode : 0 ≤ code_bytes e) by (clear; induction e; cbn; lia).
  destruct (new_scope_ok fuel 0 start ∅ [] None Hs0) as (s1 & T1 & E1 & Hs1 & HT1 & _ & L1 & St1 & O1 & Hn & R1);
    [cbn; unfold SEM_MAX_STACK; lia|exact HT0|cbn; lia|lia|].
  assert (H1 : parsing 2 s1 T1 [[]; []]).
  { split; [done|done| |rewrite St1; apply empty_istream_wf]. intros a i Ha Hi. destruct (Hn a i Ha) as [H|H]; [by rewrite lookup_empty in H|].
    unfold info_is in Hi. rewrite H in Hi. done. }
  destruct (parse_runs fuel e 2 s1 T1 [] [[]] H1 Hp) as (s2 & T2 & ns & is_ & x & a & E2 & B2 & _ & H2 & [P1 P2 P3 P4] & R2 & C2);
    [lia|cbn; lia|rewrite R1; exact Hh|rewrite St1; cbn; lia|]. rewrite St1 in C2, P1, P2. rewrite O1 in P3. cbn in C2, P1, P2, P3.
  pose proof (becomes_psize _ _ _ _ _ B2) as Hsize. set (s3 := set_recs (offstack s2) (rec_stack s1) (rec_queue s2) s2).
  destruct (finish_runs fuel (2 + nodes e) s3 T2 e ns is_ x) as (s4 & E4 & Hr & Hwf & Hst & Hok); try done.
  - by apply parsing_recs.
  - lia.
  - cbn [label_index s3 set_recs]. rewrite P4, L1. cbn. lia.
  - unfold MAX_BUFFER_SIZE. lia.
  - cbn [s3 set_recs stream]. lia.
  - exists s4, T2, ns, is_, x. split.
    { unfold compile, compile_value. rewrite sm_bind_assoc. sm_by E1. rewrite sm_bind_assoc. sm_by E2. rewrite sm_bind_assoc. sm_by (pop_symrec_eq a _ s2 R2). rewrite sm_bind_assoc. exact E4. }
    split; [done|]. destruct H2 as [_ _ H2 _]. rewrite Hst in Hok |- *. cbn [stream s3 set_recs] in *. split; [exact H2|].
    split; [exact Hok|]. split; [exact Hr|]. split; [done|]. split; [done|]. cbn. lia.
Qed.

(** ** The expression of the machine *)
Lemma becomes_expr api env T e ns is_ x base : becomes T e ns is_ x →
  value api env (x base) = meaning e ∧ depth (x base) = Z.of_nat (height e) ∧ MachineExpr.size (x base) = nodes e ∧ reads (x base) = 0.
Proof.
  induction 1 as [|op e1 e2 n1 n2 i1 i2 x1 x2 H1 (V1 & D1 & S1 & R1) H2 (V2 & D2 & S2 & R2)]; [done|].
  cbn [value depth MachineExpr.size reads meaning height nodes]. rewrite V1, V2, D1, D2, S1, S2, R1, R2. split; [done|]. split; [lia|done].
Qed.

Lemma const_in_pool T st v a i : pool T st → T !! a = Some i → info_is SYM_TYPE_CONST v i = true →
  0 ≤ i_offset i ∧ region (data st) (i_offset i) (const_bytes v) ∧ i_offset i + Z.of_nat (length (const_bytes v)) ≤ cpindex st.
Proof.
  intros Hp Ha Hi. assert (Hn := Hi). unfold info_is in Hn. apply andb_true_iff in Hn as [_ Hn]. apply bool_decide_eq_true in Hn.
  rewrite <-Hn in Hi |- *. by apply (Hp a).
Qed.

Lemma length_const_bytes_pos v : 1 ≤ Z.of_nat (length (const_bytes v)).
Proof. unfold const_bytes, const_header. rewrite length_app. repeat case_match; cbn; lia. Qed.

(** linking gives the code of that expression *)
Lemma becomes_code T st e ns is_ x base : becomes T e ns is_ x → pool T st → proper e → base + cpindex st < 65536 →
  ∀ pc, 0 ≤ pc → pc + psize is_ ≤ base → encode_prog (reloc_prog base pc is_) = MachineExpr.code pc (x base).
Proof.
  intros H Hp Hpr Hb. induction H as [v a i Ha Hi|op e1 e2 n1 n2 i1 i2 x1 x2 H1 IH1 H2 IH2]; intros pc Hpc Hle.
  - destruct (const_in_pool T st v a i Hp Ha Hi) as (H0 & _ & Hend). pose proof (length_const_bytes_pos v). change (psize _) with 3 in Hle.
    cbn [reloc_prog reloc_instr MachineExpr.code]. change (jumps (classify INS_OBJCONST)) with false. change (pool_ref (classify INS_OBJCONST)) with true.
    cbn iota. unfold encode_prog. cbn [fmap list_fmap concat encode app]. rewrite u16_id by (unfold is_u16; lia).
    replace (i_offset i + base - pc) with (base + i_offset i - pc) by lia. done.
  - destruct Hpr as (Hop & Hp1 & Hp2). rewrite !psize_app in Hle. change (psize [I1 op]) with 1 in Hle.
    pose proof (psize_nonneg i1). pose proof (psize_nonneg i2). rewrite !reloc_prog_app, !encode_prog_app. cbn [MachineExpr.code].
    rewrite <-(IH1 Hp1 pc) by lia. rewrite length_psize, reloc_prog_psize. rewrite <-(IH2 Hp2) by lia. done.
Qed.

Section linked.
Context (image : nat → Z → option Z) (p : nat).

(** and the constants lie where it expects them *)
Lemma becomes_placed T st e ns is_ x base : becomes T e ns is_ x → pool T st → proper e → base + cpindex st < 65536 →
  (∀ k, 0 ≤ k < cpindex st → image p (base + k) = Some (bget (data st) k)) →
  ∀ pc, 0 ≤ pc → pc + psize is_ ≤ base → placed image p (base + cpindex st + 4) pc (x base).
Proof.
  intros H Hp Hpr Hb Him. induction H as [v a i Ha Hi|op e1 e2 n1 n2 i1 i2 x1 x2 H1 IH1 H2 IH2]; intros pc Hpc Hle.
  - destruct (const_in_pool T st v a i Hp Ha Hi) as (H0 & Hr & Hend). pose proof (length_const_bytes_pos v). change (psize _) with 3 in Hle.
    cbn [placed]. split; [lia|]. split; [|split; [apply Hpr|lia]]. intros k y Hk. pose proof (lookup_lt_Some _ _ _ Hk).
    rewrite <-Z.add_assoc, Him by lia. by rewrite (Hr k y Hk).
  - destruct Hpr as (Hop & Hp1 & Hp2). rewrite !psize_app in Hle. change (psize [I1 op]) with 1 in Hle.
    pose proof (psize_nonneg i1). pose proof (psize_nonneg i2). cbn [placed]. split; [done|]. split; [apply (IH1 Hp1); lia|].
    assert (E : Z.of_nat (length (MachineExpr.code pc (x1 base))) = psize i1)
      by (rewrite <-(becomes_code T st e1 n1 i1 x1 base H1 Hp Hp1 Hb pc) by lia; by rewrite length_psize, reloc_prog_psize).
    rewrite E. apply (IH2 Hp2); lia.
Qed.

Lemma lies_region c n l i : (∀ k, 0 ≤ k < n → image p k = Some (bget c k)) → region c i l → 0 ≤ i → i + Z.of_nat (length l) ≤ n → lies image p i l.
Proof. intros H Hr H0 Hn k y Hk. pose proof (lookup_lt_Some _ _ _ Hk). rewrite H by lia. by rewrite (Hr k y Hk). Qed.
End linked.

(** ** The whole way *)
Definition backend_of (s : sem) : backend := mkBE (stream s) ([], []) ([], []).

(** linking the program with no optimiser *)
Lemma link_runs fuel s T e ns is_ x : becomes T e ns is_ x → pool T (stream s) → istream_wf (stream s) → proper e →
  region (Streamer.code (stream s)) 0 (encode_prog (is_ ++ [I1 INS_RET])) → prog_wf (is_ ++ [I1 INS_RET]) →
  code_size (stream s) = psize (is_ ++ [I1 INS_RET]) → code_size (stream s) + cpindex (stream s) < 65536 →
  let base := psize (is_ ++ [I1 INS_RET]) in
  ∃ b, is_link_optimize fuel 0 (backend_of s) = Ret (b, base + cpindex (stream s)) ∧
    region (Streamer.code (be_is b)) 0 (MachineExpr.code 0 (x base) ++ [INS_RET]) ∧
    ∀ k, 0 ≤ k < cpindex (stream s) → bget (Streamer.code (be_is b)) (base + k) = bget (data (stream s)) k.
Proof.
  intros B Hp Hok Hpr Hr Hwf Hsize Hm base. pose proof (psize_nonneg is_). pose proof (wf_cpindex _ Hok).
  assert (Hbase : base = psize is_ + 1) by (unfold base; by rewrite psize_app).
  assert (Hns : no_switch (is_ ++ [I1 INS_RET])).
  { apply Forall_app. split; [|by apply Forall_cons]. clear -B Hpr. induction B as [|op e1 e2 n1 n2 i1 i2 x1 x2 H1 IH1 H2 IH2]; [by apply Forall_cons|].
    destruct Hpr as (Hop & Hp1 & Hp2). apply Forall_app. split; [by apply IH1|]. apply Forall_app. split; [by apply IH2|]. apply Forall_cons. split; [|done].
    unfold class_of. cbn. by rewrite (proj2 (operation_byte op Hop)). }
  destruct (link_spec (is_ ++ [I1 INS_RET]) (stream s) (data (stream s)) Hwf Hr) as (s' & El & Hr1 & Hr2 & _);
    [unfold MAX_BUFFER_SIZE; lia|done|by apply reloc_pool_no_switch|].
  exists (mkBE (set_code_size (base + cpindex (stream s)) s') ([], []) ([], [])). split.
  { unfold is_link_optimize, backend_of. change (Z.land 0 _ =? 0) with true. res_cbn. cbn [be_is]. rewrite Hsize, El. res_cbn. reflexivity. }
  cbn [be_is Streamer.code set_code_size]. split.
  - rewrite reloc_prog_app, encode_prog_app in Hr1. fold base in Hr1.
    rewrite (becomes_code T (stream s) e ns is_ x base B Hp Hpr) in Hr1 by lia. exact Hr1.
  - intros k Hk. fold base in Hr2. assert (Hl : bslice (data (stream s)) 0 (Z.to_nat (cpindex (stream s))) !! Z.to_nat k = Some (bget (data (stream s)) k)).
    { rewrite lookup_bslice by lia. f_equal. f_equal. lia. }
    specialize (Hr2 _ _ Hl). by rewrite Z2Nat.id in Hr2 by lia.
Qed.


(** *** Sample: (20 + 3) * 20 *)
Definition sample_source : source := Oper INS_MUL (Oper INS_ADD (Const [50; 48]) (Const [51])) (Const [50; 48]).

